(* ===== verification/_CoqProject ===== *)
-Q . S2P
Prelude.v
Text.v
Utf8.v
PatchParse.v
PatchApply.v
PatchParseFacts.v
PatchApplyFacts.v
PatchEdit.v
ContextWindow.v
ModelPolicy.v
Truncate.v
AgentPath.v
TurnOutcome.v
RunControl.v
RunOwners.v
RunControlFacts.v
RunOwnersFacts.v
ActiveRun.v
AgentTree.v
AgentOps.v
AgentMail.v
AgentTreeFacts.v
AgentSteps.v
AgentSystem.v
AgentFacts.v
AgentMailFacts.v
PermissionFence.v
PermissionFenceFacts.v
PermissionFenceSystem.v
PermissionFenceTheorems.v
PermissionFlow.v
FileLocks.v
EditStamps.v
ListSort.v
Json.v
ToolOutput.v
ClmCheckpoint.v
History.v
SourceRecords.v
ContextManager.v
ContextProjection.v
ContextPairing.v
ContextStream.v
ContextUnits.v
ContextTokens.v
ProtocolStore.v
ProtocolStoreFacts.v
ActiveOrder.v
ActiveTraversal.v
ProtocolContext.v
RehydratedContext.v
ContextRefresh.v
ProtocolInserts.v
ProtocolDemo.v
ProviderStream.v
ChatStream.v
ChatClient.v
ChatHoldback.v
ChatChunk.v
ChatCalls.v
ChatAccepted.v
ChatRun.v
ChatAnswers.v
ChatDemo.v
Prog.v
TurnCalls.v
TurnEnds.v
TurnModel.v
TurnCompaction.v
TurnLoop.v
TurnWatch.v
TurnFacts.v
TurnRounds.v
TurnTheorems.v
TurnCompactionFacts.v
TurnFuel.v
TurnDemo.v
Projection.v
EventHub.v
Recording.v
