(* ===== verification/Prelude.v ===== *)
(** * moyAI core: verification library (root file)

    moyAI is a desktop and terminal coding agent.  This library models the parts of it that decide
    something on their own, between the user interface, the model providers and the SQLite store,
    and proves them correct.  Sources are named as in the repository, below src/.

    ** The program and the parts modelled here

    A session runs turns.  A turn is owned by a [RunControl] (src/runtime/cancel.rs), which
    classifies it once as cancelled, failed or succeeded while Stop, tool effects and the success
    commit compete for it.  The registry of active runs (src/runtime/active_run.rs) finds the
    owner of a session's turn; the agent tree (src/runtime/agent_control.rs) owns the executions
    of the root agent and its descendants, their mailboxes and their capacity, and routes a Stop
    to the root turn through a terminal router.

    The turn itself is a loop (src/agent/mod.rs): it follows the committed history, compacts it or
    takes in waiting input, asks the model, commits the answer and runs its tools, each settled in
    one transaction under a reservation of the owner, until a terminal is stored.
    What happens in a run are events (src/session/model.rs).  One that has to last is projected
    (src/protocol/projection.rs) onto a runtime event for observers, a history item for the model
    and a turn item for the display; the recorder of the turn (src/protocol/recording.rs) commits
    the three at once, fans the committed events out to the hub of the sessions
    (src/runtime/event_bus.rs) and gives the event to the renderer.

    What the model is sent is projected from the committed history by the context manager
    (src/agent/context_manager.rs), which also chooses what a compaction may replace; a request
    holds no more than the policy admits (src/llm/model_policy.rs, src/context/context_window.rs).
    The history itself is a set of SQLite tables (src/protocol/store.rs): a bundle of an event, a
    history item and a turn item is committed under a sequence number and a global append position;
    readers page through the canonical history, and recursive queries select the active one, from
    which a run reads its context and which it then follows commit by commit.
    An answer of a provider arrives as a stream of chunks (src/llm/openai_compat.rs), whose tool calls
    are assembled, whose text is held back while it looks like a chat template marker, and whose
    events are given to a sink; requests are repeated while the provider limits their rate.
    A tool call that needs permission goes through a review (src/tool/context.rs,
    src/agent/mod.rs) whose claim, verdict and use are recorded in the permission retry fence
    (src/storage/permission_retry_fence.rs); the effect itself is admitted by the owner of the run.
    An edit locks its paths and is checked against what the session read last
    (src/edit/safety.rs) before a patch (src/edit/patch.rs) is applied; output is cut to a preview
    (src/tool/truncate.rs) and annotated or summed up for the model.

    ** Files

    - Run owners.  [RunControl]: the state behind the [Arc] and every method that locks it, one
      function per lock region; an async wait is one poll.  [RunOwners]: what depends on the
      identity of an owner, over a store of owners: linked cancellation, the admission guard, the
      tool and success reservations with their destructors, and terminal routing, stated against
      the interface [ControlWorld] that whoever holds routed owners implements.
      [RunControlFacts]: traces of methods and their invariants.  [RunOwnersFacts]: the guards and
      reservations settle their owner however they are consumed.
    - Active runs.  [ActiveRun]: the registry, its leases and the steer channel.
    - Agent tree.  [AgentPath]: paths.  [AgentTree]: entries, the tree, its world and the
      functions run under the lock (scheduling, validation, insertion, deferred release).
      [AgentOps]: creation, registration, acquisition, release and routing; its world implements
      [ControlWorld].  [AgentMail]: spawns, mail, admission, settlement, completion, interruption,
      durable terminals, root Stop and queries.  [AgentTreeFacts] and [AgentSteps]: the invariant
      [tree_wf] and that every method keeps it.  [AgentSystem]: the methods as steps of one system
      with deliveries and terminals in flight, and what holds at every reachable state.
      [AgentFacts] and [AgentMailFacts]: what the methods do.
    - Permissions.  [PermissionFence]: the store of the fence, its table with the constraints and
      triggers of src/migrations/V54__permission_retry_fences.sql, transactions with SQLite
      failures and the poisoned lock as arguments, and the lease.  [PermissionFenceFacts]: rows
      and records, and the specification of each call on the record of one family.
      [PermissionFenceSystem]: callers, cleanup and the growing history as steps, with a log of
      what was claimed, allowed, denied, admitted and released, and what the log says of a row.
      [PermissionFenceTheorems]: what every log and every reachable state satisfy.
      [PermissionFlow]: [ToolContext::confirm], the ticket it returns and
      the admission of the effect, on top of the fence and of the run owners.
    - Edits.  [FileLocks]: the registry of weak locks, every wait of
      [with_file_locks] and its cancellation as steps.  [EditStamps]: the
      cache of read baselines and the checks before a write.
    - Patches.  [PatchParse], [PatchApply]: the two halves of patch.rs.  [PatchParseFacts]: totality,
      well-formedness, printing and parsing.  [PatchApplyFacts], [PatchEdit]: search, the merge a patch
      performs, the comparators and the diagnostics.
    - The conversation.  [History]: the payloads of src/protocol/mod.rs, agent envelopes and the
      messages inputs become.  [ClmCheckpoint]: replay checkpoints (src/protocol/clm_checkpoint.rs).
      [SourceRecords]: checkpoint bodies and legacy attachments (src/agent/compaction.rs).
      [ToolOutput]: what the model sees of a tool's output.
      [ContextManager]: the active view, its ingestion, the projection to messages and the units of
      a compaction.  [ContextProjection]: the projection against a reference that walks the items in
      order.  [ContextPairing]: calls and outputs in the projected list.  [ContextStream]: the views
      of a committed history.  [ContextUnits]: what a compaction may replace.  [ContextTokens]: the
      token baseline of the last response.
    - The protocol store.  [ProtocolStore]: the tables with their constraints, paging, counting,
      decoding, the canonical and the active history and the commit of a bundle; JSON and the text
      of a ULID are the interface [ProtocolJson] with the laws [ProtocolJsonLaws].
      [ProtocolStoreFacts]: the recursive queries as least fixpoints, the invariant [db_ok], the canonical
      history and how a database extends another.  [ActiveOrder], [ActiveTraversal]: the reference [live_view], which applies every compaction to
      the list of items, and the order and selection of the queries.  [ProtocolContext]: how a run
      reads its context (src/app/run_service.rs) and refreshes it (src/agent/mod.rs).
      [RehydratedContext], [ContextRefresh], [ProtocolInserts]: the theorems.
      [ProtocolDemo]: a concrete instance of the interface, concrete databases and the witnesses.
    - Events.  [Projection]: run events, their projection and what a recorder may write of it; what
      serde makes of the parts is the interface [ProtocolValues].  [EventHub]: the hub, publishers and
      subscriptions, over the interface [Broadcast] of a tokio channel with the laws [BroadcastLaws];
      publishing and dropping are split where the mutex is released and interleave.  [Recording]: the
      recorder [ProtocolRecordingSink], the projector that replays a session and their queries.
    - Chat completions.  [ProviderStream]: the budget of a stream and its stage, texts of the provider
      in errors, the classification of failures and the traced sink, over the interface
      [LlmEventSink].  [ChatStream]: the accumulator of a stream, the holdback of text and the journal
      by which a refused chunk is rolled back.  [ChatClient]: the loop over a stream, sends, attempts
      and the end of the trace.  [ChatHoldback]: the grammar of the markers and what is shown.
      [ChatChunk]: chunks are atomic.  [ChatCalls]: the effect of a delta on the calls, and a consumer
      of the events.  [ChatAccepted]: what a prefix of accepted chunks leaves behind.  [ChatRun]: the
      calls of the sink along a stream.  [ChatAnswers]: the theorems.  [ChatDemo]: a
      sink, concrete streams and the witnesses.
    - The agent turn.  [TurnOutcome]: the ends of a turn and their status, and the
      names of the tools.  [Prog]: programs that call
      their environment, as a free monad with traces, facts and monitors.
      [TurnCalls]: what a turn asks of the run owner, the store, the provider, the tools and the
      observer, with the data exchanged and the facts a trace is reduced to.  [TurnEnds]: the state of
      the loop, ownership and terminals, and [handle_tool_call] with the settlements.
      [TurnModel]: the collector, the request and its stream, and following the history through
      [ProtocolContext].  [TurnCompaction]: the selection of units, the summary and its retry, the commit,
      and the compaction the model proposes (src/agent/model_compaction.rs).  [TurnLoop]: the rounds and
      [run_inner].  [TurnWatch]: the monitor a turn is held against, and the rules of its weakest
      preconditions; [TurnFacts] and [TurnRounds]: every part of the turn against it.  [TurnTheorems],
      [TurnCompactionFacts] (with the prefix searches), [TurnFuel]: the theorems.  [TurnDemo]: an environment that
      answers from a script, two turns, a compaction and the witnesses.
    - What a request may hold.  [ContextWindow]: token estimates, the
      status of a request, checkpoint truncation and the compaction budget.  [ModelPolicy]: limits
      and provider contracts.
    - Tool output.  [Truncate]: pipe reads, previews and clipped texts.
    - Shared.  This file: results with the [let?] notation, machine integers, identifiers, tactics.
      [Text]: Rust strings as lists of scalar values and the [str] methods the code calls.
      [Utf8]: byte lengths, character boundaries and the longest fitting prefix and suffix.
      [Json]: the interface to JSON values, its laws and one instance.  [ListSort]: stable sorting,
      grouping by key and enumeration.

    ** What the theorems show

    - Ownership: the first terminal classification of a run is final; a cause that waits behind a
      reservation is never lost; a Stop coordinator never loses the settlement of the admission it
      captured and gets it once it commits; a seal blocks admission; guards and reservations settle
      exactly once; linked cancellation is all or nothing; a registry lease touches its own run.
    - The agent tree: well-formedness, capacity and reservations at every reachable state under
      interleaving; the scheduler against its specification; spawns and mail take effect once or
      not at all; stale leases are powerless; a Stop reaches the root turn only; completion settles
      its agent and is not undone by its own lease; deferred releases and completions commute; a
      terminal purges what it saw and nothing newer; paths stay in the tree.
    - Permissions: the calls of the fence refine their specification, errors included; a claim is
      admitted only after it was allowed and never once it was denied, released or lost; a denied
      family stays denied under its authority; stored rows always decode; an effect starts only for
      an approved claim under the current authority, and whatever cannot be proved stops the run.
    - Edits: two edits that share a path never overlap, locks never leak or deadlock; the cache of
      baselines is a bounded list in order of use, and a replacement is admitted exactly against the
      baseline recorded last.
    - Patches: every text is parsed, printing and parsing are inverse, a successful application is
      the merge of one edit per hunk, never panics, keeps line endings, and is the identity when
      nothing but context is quoted.
    - The conversation: the projection equals its item-by-item reference and never panics on a
      committed history, whose messages pair every call with its outputs; a compaction keeps
      exchanges whole and spares the newest inputs; a checkpoint is valid exactly when its calls form
      complete groups, and replays what it was built from; the messages counted beyond the last
      response are those the projection adds; tool output is shown whole or summed up in 2048 bytes.
    - The protocol store: a committed bundle appends exactly its item to the history of its session
      under a fresh number, and every coherent bundle with new identifiers is committed; the context
      read through recursive queries and keyset pages is the view that applying the whole history item
      by item leaves; traversals end in pages of any size and visit every item once; refreshing page
      by page is one ingestion, and following the commits equals reading the context again; a bounded
      traversal refuses before any page.
    - Events: a projection is one coherent bundle, tells the model, the observers and the display the
      same of a tool call, shows well-formed plans only and keeps what a compaction replays out of
      sight; a recorder writes exactly the events no other owner commits, publishes the events of its
      turn once and in order whoever wrote them, and renders an event behind its commit and fan-out,
      but a terminal before its fan-out; a replay publishes what follows its cursor; under every
      interleaving an open subscription stays on the channel its publishers use, hears its backfill
      and then everything sent that was not in it, and only recent repeats are not published.
    - Chat completions: a refused chunk leaves no trace; reading a stream never panics, and the sink is
      given the text and the tool calls of the accepted chunks exactly once, in pieces of any size,
      but for template markers before tool calls; tool calls, arguments and events stay within the
      budget; an answer comes from a single attempt; how a request ended is its last event.
    - The agent turn, for every environment: a tool is started only for the first unsettled call of the
      last committed answer; before another request or a completed terminal every call was settled in
      order; nothing is started behind a cancellation; reservations of the owner never overlap and are
      all given back; a completed terminal counts the calls, any other names the classified cause, and
      the summary returned is of the terminal that is stored; a run cannot compact forever between two
      answers; the requests of a compaction fit the window and get smaller, and what it commits frees
      room; the prefix searches find the boundary of a monotone test; fuel decides nothing.
    - Bounds: limits, budgets, truncated texts and previews against reference definitions.

    ** How code becomes definitions

    A [Mutex]-guarded method is a function on the guarded state; where it drops the lock in the
    middle it is split in two definitions and a token carries its locals, so that other steps can
    come in between.  Errors are [result], panics and splices out of range [None].  Unsigned
    integers are [N] with wrapping, saturating or checked operations written out; list positions
    and lengths that a [Vec] bounds are [nat].  [Arc] identities are numbers handed out in order,
    shared run owners addresses of a store; a weak reference upgrades by a parameter, or by the
    count of strong handles where the code counts them.  A watch channel is the last value sent.
    The turn loop is a program over its calls: the environment answers each call as it likes, so that
    a theorem about every trace holds under any interleaving with other owners, and an await that
    polls is a loop over polls.  Durable closures are functions on an abstract store and their result.  The spool file, the file
    system, the JSON renderer and parser, SHA-256, the text of a ULID and the order in which a
    [HashMap] is iterated are parameters, with the documented laws as hypotheses or class laws where
    a theorem needs them; a SQLite table is a map from its primary key with its constraints and
    triggers as functions.

    The loops of a turn end when the environment ends them, and take fuel: their safety theorems hold of
    every trace, also of one that ran out of fuel, and [TurnFuel.fuel_bounds_nothing_else] shows that any
    other behaviour is the same with more fuel.  Otherwise fuel occurs in the two loops of the patch parser, whose step consumes a variable number of
    lines, and is the number of lines ([PatchParseFacts.parse_total] shows it is enough); in the
    recursive queries of [ProtocolStore], where the identifiers a compaction can name and the pairs of
    fence and edge bound the rows a query can add, and in its page loops, where the number of rows
    bounds the pages (the theorems of [RehydratedContext] and [ContextRefresh] give the results, so
    the fuel is enough); in the two loops over template markers of [ChatStream], where the length of
    the text is enough ([ChatHoldback.complete_iff] and [ChatHoldback.classify_loop_fuel]); in the
    binary searches of [ContextWindow], where the width of the interval bounds the iterations (those of
    [TurnCompaction] are bounded by the code itself); in the page loops of [Recording], where 200 events
    fit a page and the theorems ask for room for the events left; in the receive loop of [EventHub],
    where the identifiers of the backfill bound the passes; and in
    the quoting of a sandbox audit, whose budget is halved at most ten times
    ([ToolOutput.tool_output_summary] shows it always ends).

    ** Not modelled

    Lock poisoning except where the code maps it to an error, logging, [Debug] and serde impls;
    functions compiled for tests only; user interfaces, process and network supervision; the Responses
    API, the building of requests and HTTP itself, whose answers are inputs of the chat client; of a turn
    the transactions of src/storage/session_repo.rs, the permission guardian, the world state, prompts
    and tool schemas, which are answers of its environment, and the diagnostics of requests;
    the harness store a terminal is projected to, the tables the check of an admission reads (its
    answer is an argument) and [RunEventBus], which only hands over to a channel; a recorder reads one
    state of the store per call, as no two of its reads are related by the code; forks, user authority
    and retained descendants in the protocol store, and the SQL of the other stores.  Left for later:
    admission of resources (src/runtime/resource_admission.rs); the layered configuration merge
    (src/config/merge.rs); path guards (src/workspace/path_guard.rs); an abstract agent scheduler
    that the agent tree refines. *)
From stdpp Require Export base decidable option list gmap strings pretty.
From Stdlib Require Export NArith ZArith Lia.

(** ** Fallible code *)

(** Rust's [Result<A, E>]. *)
Inductive result (A E : Type) : Type :=
  | Ok (a : A)
  | Err (e : E).
Arguments Ok {A E} a.
Arguments Err {A E} e.

#[export] Instance result_eq_dec {A E} `{EqDecision A, EqDecision E} : EqDecision (result A E).
Proof. solve_decision. Defined.

Definition is_ok {A E} (r : result A E) : bool := match r with Ok _ => true | Err _ => false end.

(** The [?] operator. *)
Definition and_then {A B E} (r : result A E) (k : A -> result B E) : result B E :=
  match r with Ok a => k a | Err e => Err e end.

Declare Scope rust_scope.
Delimit Scope rust_scope with rust.
Notation "'let?' x := r 'in' k" := (and_then r (fun x => k))
  (at level 10, x pattern, r at level 100, k at level 200) : rust_scope.
#[global] Open Scope rust_scope.

Lemma and_then_ok {A B E} (r : result A E) (k : A -> result B E) b :
  and_then r k = Ok b <-> exists a, r = Ok a /\ k a = Ok b.
Proof. destruct r; simpl; split; [eauto | intros (? & [= ->] & ?); done | done | intros (? & ? & ?); done]. Qed.

(** ** Machine integers

    An unsigned machine integer is an [N]; the operations write the width out. *)
Definition u32_max : N := 4294967295.
Definition u64_max : N := 18446744073709551615.

(** [usize] is 64 bits wide on every supported target. *)
Definition usize_max : N := u64_max.

Definition checked_add_u64 (a b : N) : option N :=
  if decide (a + b <= u64_max)%N then Some (a + b)%N else None.
Definition wrapping_add_u64 (a b : N) : N := ((a + b) mod (u64_max + 1))%N.

Lemma checked_add_u64_Some a b c : checked_add_u64 a b = Some c -> c = (a + b)%N /\ (c <= u64_max)%N.
Proof. unfold checked_add_u64; case_decide; naive_solver. Qed.

(** ** Identifiers

    [SessionId], [TurnId] and their siblings are newtypes around a 128-bit ULID; only their
    equality is ever used by the code modelled here. *)
Abbreviation SessionId := N (only parsing).
Abbreviation TurnId := N (only parsing).

(** ** Tactics shared by the component files *)

(** Decompose every [match]/[if] of the goal and the hypotheses that blocks reduction. *)
Ltac break_match_goal :=
  match goal with
  | |- context [match ?x with _ => _ end] =>
      lazymatch x with
      | context [match _ with _ => _ end] => fail
      | _ => destruct x eqn:? in |- *
      end
  end.
Ltac break_match_hyp :=
  match goal with
  | H : context [match ?x with _ => _ end] |- _ =>
      lazymatch x with context [match _ with _ => _ end] => fail | _ => destruct x eqn:? end
  end.
Ltac break_match := first [break_match_goal | break_match_hyp].
Ltac invc H := inversion H; subst; clear H.

(** ** Saturating and ceiling arithmetic of [usize] and [u32] *)

Definition saturating_add_usize (a b : N) : N := N.min (a + b) usize_max.
Definition saturating_mul_usize (a b : N) : N := N.min (a * b) usize_max.
Definition saturating_add_u32 (a b : N) : N := N.min (a + b) u32_max.

(** [usize::div_ceil], computed from quotient and remainder. *)
Definition div_ceil (a b : N) : N := (a / b + if a mod b =? 0 then 0 else 1)%N.

(** [iter().fold(0usize, usize::saturating_add)] *)
Definition saturating_sum (l : list N) : N := fold_left saturating_add_usize l 0%N.

Definition sum_N (l : list N) : N := fold_right N.add 0%N l.

Lemma saturating_fold_min l a : (a <= usize_max)%N ->
  fold_left saturating_add_usize l a = N.min (a + sum_N l) usize_max.
Proof.
  revert a; induction l as [|x l IH]; intros a Ha; simpl; [lia|].
  unfold saturating_add_usize at 2. rewrite IH by lia. lia.
Qed.

Lemma saturating_sum_min l : saturating_sum l = N.min (sum_N l) usize_max.
Proof. unfold saturating_sum. rewrite saturating_fold_min by (unfold usize_max, u64_max; lia). done. Qed.

Lemma sum_N_app a b : sum_N (a ++ b) = (sum_N a + sum_N b)%N.
Proof. induction a; simpl; lia. Qed.

Lemma div_ceil_le a b m : (0 < b)%N -> (div_ceil a b <= m)%N <-> (a <= b * m)%N.
Proof.
  intros Hb. unfold div_ceil. pose proof (N.div_mod a b ltac:(lia)) as E. pose proof (N.mod_lt a b ltac:(lia)).
  set (q := (a / b)%N) in *. set (r := (a mod b)%N) in *. clearbody q r.
  destruct (N.eqb_spec r 0) as [H0|H0]; split; intros Hm.
  - pose proof (N.mul_le_mono_l (q + 0) m b Hm). lia.
  - destruct (N.le_gt_cases (q + 0) m) as [|Hlt]; [done|].
    pose proof (N.mul_le_mono_l (m + 1) q b ltac:(lia)). lia.
  - pose proof (N.mul_le_mono_l (q + 1) m b Hm). lia.
  - destruct (N.le_gt_cases (q + 1) m) as [|Hlt]; [done|].
    pose proof (N.mul_le_mono_l m q b ltac:(lia)). lia.
Qed.

Lemma div_ceil_mono a a' b : (0 < b)%N -> (a <= a')%N -> (div_ceil a b <= div_ceil a' b)%N.
Proof.
  intros Hb H. apply div_ceil_le; [done|]. etransitivity; [exact H|]. by apply div_ceil_le.
Qed.

Lemma div_ceil_add a a' b : (0 < b)%N -> (div_ceil (a + a') b <= div_ceil a b + div_ceil a' b)%N.
Proof.
  intros Hb. apply div_ceil_le; [done|].
  pose proof (proj1 (div_ceil_le a b (div_ceil a b) Hb) ltac:(lia)).
  pose proof (proj1 (div_ceil_le a' b (div_ceil a' b) Hb) ltac:(lia)). lia.
Qed.
