(* ===== verification/Text.v ===== *)
(** * Rust strings

    A [char] is a Unicode scalar value and a [str] the list of its scalars; an index or a length
    in bytes is written with [len_utf8].  The definitions follow the documented behaviour of the
    [str] methods the modelled code calls. *)
From S2P Require Import Prelude.

Abbreviation char := N (only parsing).
Abbreviation text := (list N) (only parsing).

(** ASCII literals. *)
Fixpoint lit (s : string) : text :=
  match s with
  | EmptyString => []
  | String a s' => Ascii.N_of_ascii a :: lit s'
  end.
Arguments lit s%_string : simpl never.

Definition LF : char := 10.
Definition CR : char := 13.

Fixpoint text_eqb (a b : text) : bool :=
  match a, b with
  | [], [] => true
  | x :: a', y :: b' => N.eqb x y && text_eqb a' b'
  | _, _ => false
  end.

Lemma text_eqb_eq a b : text_eqb a b = true <-> a = b.
Proof.
  revert b; induction a as [|x a IH]; intros [|y b]; simpl; try (by split).
  rewrite andb_true_iff, N.eqb_eq, IH. naive_solver.
Qed.
Lemma text_eqb_refl a : text_eqb a a = true.
Proof. by apply text_eqb_eq. Qed.
Lemma text_eqb_neq a b : text_eqb a b = false <-> a <> b.
Proof. rewrite <- text_eqb_eq. by destruct (text_eqb a b). Qed.

(** Decimal rendering of an integer in a format string. *)
Definition show_nat (n : nat) : text := lit (pretty (N.of_nat n)).
Definition show_N (n : N) : text := lit (pretty n).
Definition show_bool (b : bool) : text := if b then lit "true" else lit "false".

(** ** Prefixes, suffixes, search *)

Fixpoint strip_prefix (p s : text) : option text :=
  match p, s with
  | [], _ => Some s
  | x :: p', y :: s' => if N.eqb x y then strip_prefix p' s' else None
  | _ :: _, [] => None
  end.

Definition starts_with (p s : text) : bool :=
  match strip_prefix p s with Some _ => true | None => false end.

Definition strip_suffix (p s : text) : option text := (@rev N) <$> strip_prefix (rev p) (rev s).

Definition ends_with (p s : text) : bool := starts_with (rev p) (rev s).

(** Index (in scalars) of the first and of the last occurrence. *)
Fixpoint find_sub (p s : text) : option nat :=
  if starts_with p s then Some 0
  else match s with [] => None | _ :: s' => S <$> find_sub p s' end.

Fixpoint rfind_sub (p s : text) : option nat :=
  match s with
  | [] => if starts_with p [] then Some 0 else None
  | _ :: s' =>
    match rfind_sub p s' with
    | Some i => Some (S i)
    | None => if starts_with p s then Some 0 else None
    end
  end.

(** ** White space *)

(** [char::is_whitespace]: the Unicode property [White_Space]. *)
Definition is_whitespace (c : char) : bool :=
  ((9 <=? c) && (c <=? 13) || (c =? 32) || (c =? 133) || (c =? 160) || (c =? 5760)
   || (8192 <=? c) && (c <=? 8202) || (c =? 8232) || (c =? 8233) || (c =? 8239)
   || (c =? 8287) || (c =? 12288))%N.

Fixpoint trim_start_by (f : char -> bool) (s : text) : text :=
  match s with
  | [] => []
  | c :: s' => if f c then trim_start_by f s' else s
  end.

Definition trim_end_by (f : char -> bool) (s : text) : text := rev (trim_start_by f (rev s)).

Definition trim_start : text -> text := trim_start_by is_whitespace.
Definition trim_end : text -> text := trim_end_by is_whitespace.
Definition trim (s : text) : text := trim_end (trim_start s).
Definition trim_matches (f : char -> bool) (s : text) : text := trim_end_by f (trim_start_by f s).

Definition is_empty {A} (s : list A) : bool := match s with [] => true | _ => false end.

(** ** Lines *)

(** [str::split_inclusive('\n')] *)
Fixpoint split_inclusive (s : text) : list text :=
  match s with
  | [] => []
  | c :: s' =>
    if N.eqb c LF then [c] :: split_inclusive s'
    else match split_inclusive s' with
         | [] => [[c]]
         | l :: ls => (c :: l) :: ls
         end
  end.

(** [str::lines]: a line loses its [\n], and the [\r] before that [\n]. *)
Definition strip_line_ending (line : text) : text :=
  match strip_suffix [LF] line with
  | None => line
  | Some line' => match strip_suffix [CR] line' with None => line' | Some line'' => line'' end
  end.

Definition lines (s : text) : list text := map strip_line_ending (split_inclusive s).

(** [\[str\]::join] *)
Fixpoint join (sep : text) (ls : list text) : text :=
  match ls with
  | [] => []
  | [l] => l
  | l :: ls' => l ++ sep ++ join sep ls'
  end.

(** [.replace("\r\n", "\n").replace('\r', "\n")] *)
Fixpoint replace_crlf (s : text) : text :=
  match s with
  | [] => []
  | c :: s' =>
    match s' with
    | d :: s'' => if N.eqb c CR && N.eqb d LF then LF :: replace_crlf s'' else c :: replace_crlf s'
    | [] => [c]
    end
  end.
Definition replace_cr (s : text) : text := map (fun c => if N.eqb c CR then LF else c) s.

(** ** UTF-8 lengths *)

Definition len_utf8 (c : char) : N :=
  if (c <? 128)%N then 1 else if (c <? 2048)%N then 2 else if (c <? 65536)%N then 3 else 4.

(** [str::len] *)
Fixpoint byte_len (s : text) : N :=
  match s with [] => 0 | c :: s' => (len_utf8 c + byte_len s')%N end.

(** ** Lemmas *)

Lemma strip_prefix_Some p s r : strip_prefix p s = Some r <-> s = p ++ r.
Proof.
  revert s; induction p as [|x p IH]; intros s; simpl; [naive_solver|].
  destruct s as [|y s]; [naive_solver|]. destruct (N.eqb_spec x y) as [->|Hne]; [rewrite IH|]; naive_solver.
Qed.

Lemma strip_prefix_app p r : strip_prefix p (p ++ r) = Some r.
Proof. by apply strip_prefix_Some. Qed.

Lemma starts_with_true p s : starts_with p s = true <-> exists r, s = p ++ r.
Proof.
  unfold starts_with. destruct (strip_prefix p s) as [r|] eqn:E.
  - apply strip_prefix_Some in E. naive_solver.
  - split; [done|]. intros [r ->]. by rewrite strip_prefix_app in E.
Qed.

Lemma starts_with_app p r : starts_with p (p ++ r) = true.
Proof. apply starts_with_true. by eexists. Qed.

Lemma strip_suffix_Some p s r : strip_suffix p s = Some r <-> s = r ++ p.
Proof.
  unfold strip_suffix. rewrite fmap_Some. setoid_rewrite strip_prefix_Some. split.
  - intros (r' & E & ->). apply (f_equal (@rev N)) in E. by rewrite rev_involutive, rev_app_distr, rev_involutive in E.
  - intros ->. exists (rev r). by rewrite rev_app_distr, rev_involutive.
Qed.

Lemma trim_start_by_id f s : (forall c s', s = c :: s' -> f c = false) -> trim_start_by f s = s.
Proof. destruct s as [|c s]; simpl; [done|]. intros H. by rewrite (H c s). Qed.

Lemma trim_end_by_id f s : (forall c s', s = s' ++ [c] -> f c = false) -> trim_end_by f s = s.
Proof.
  intros H. unfold trim_end_by. rewrite trim_start_by_id; [apply rev_involutive|].
  intros c s' E. apply (H c (rev s')). rewrite <- (rev_involutive s), E. done.
Qed.

Lemma trim_start_by_suffix f s : exists p, s = p ++ trim_start_by f s /\ Forall (fun c => f c = true) p.
Proof.
  induction s as [|c s (p & Hp & Hf)]; simpl; [by exists []|]. destruct (f c) eqn:E.
  - exists (c :: p). split; [simpl; congruence|by constructor].
  - by exists [].
Qed.

Lemma trim_end_by_app f s : exists q, s = trim_end_by f s ++ q /\ Forall (fun c => f c = true) q.
Proof.
  destruct (trim_start_by_suffix f (rev s)) as (p & Hp & Hf). exists (rev p). split.
  - unfold trim_end_by. rewrite <- rev_app_distr, <- Hp. by rewrite rev_involutive.
  - by apply List.Forall_rev.
Qed.

Lemma split_inclusive_concat s : concat (split_inclusive s) = s.
Proof.
  induction s as [|c s IH]; simpl; [done|]. destruct (N.eqb c LF); simpl; [by rewrite IH|].
  destruct (split_inclusive s) as [|l ls]; simpl in *; [by rewrite <- IH|by rewrite <- IH].
Qed.

Lemma byte_len_app a b : byte_len (a ++ b) = (byte_len a + byte_len b)%N.
Proof. induction a; simpl; lia. Qed.

Lemma len_utf8_bounds c : (1 <= len_utf8 c <= 4)%N.
Proof. unfold len_utf8. repeat case_match; lia. Qed.

Lemma byte_len_nil s : byte_len s = 0%N <-> s = [].
Proof. destruct s as [|c s]; simpl; [done|]. pose proof (len_utf8_bounds c). split; [lia|done]. Qed.

Lemma trim_start_by_snoc f s c :
  trim_start_by f (s ++ [c]) =
    match trim_start_by f s with [] => if f c then [] else [c] | l => l ++ [c] end.
Proof. induction s as [|x s IH]; simpl; [done|]. by destruct (f x). Qed.

Lemma trim_end_by_cons f c s :
  trim_end_by f (c :: s) =
    match trim_end_by f s with [] => if f c then [] else [c] | l => c :: l end.
Proof.
  unfold trim_end_by. simpl. rewrite trim_start_by_snoc.
  destruct (trim_start_by f (rev s)) as [|x l] eqn:E; [by destruct (f c)|].
  rewrite rev_app_distr. simpl. destruct (rev l) eqn:E2; done.
Qed.

Lemma trim_comm f s : trim_end_by f (trim_start_by f s) = trim_start_by f (trim_end_by f s).
Proof.
  induction s as [|c s IH]; [done|]. cbn [trim_start_by]. rewrite trim_end_by_cons. destruct (f c) eqn:Ec.
  - rewrite IH. destruct (trim_end_by f s); simpl; [done|by rewrite Ec].
  - rewrite trim_end_by_cons. destruct (trim_end_by f s); simpl; by rewrite Ec.
Qed.

(** [str::to_ascii_lowercase] *)
Definition to_ascii_lowercase_char (c : char) : char := if (65 <=? c)%N && (c <=? 90)%N then (c + 32)%N else c.
Definition to_ascii_lowercase (s : text) : text := map to_ascii_lowercase_char s.

(** ** Splitting at a character *)

Definition SLASH : char := 47.
#[global] Arguments SLASH : simpl never.

(** [str::split('/')] *)
Fixpoint split_char (sep : char) (s : text) : list text :=
  match s with
  | [] => [[]]
  | c :: s' =>
    if N.eqb c sep then [] :: split_char sep s'
    else match split_char sep s' with l :: ls => (c :: l) :: ls | [] => [[c]] end
  end.

Definition contains_char (c : char) (s : text) : bool := existsb (N.eqb c) s.

Lemma split_char_join sep s : join [sep] (split_char sep s) = s /\ split_char sep s <> [].
Proof.
  induction s as [|c s [IH1 IH2]]; [done|]. cbn [split_char]. destruct (N.eqb_spec c sep) as [->|].
  - split; [|done]. destruct (split_char sep s) as [|l ls]; [done|].
    change (join [sep] ([] :: l :: ls)) with ([] ++ [sep] ++ join [sep] (l :: ls)). by rewrite IH1.
  - destruct (split_char sep s) as [|l ls]; [done|]. split; [|done]. destruct ls as [|l2 ls]; simpl in *; by rewrite <- IH1.
Qed.

Lemma split_char_single sep l : contains_char sep l = false -> split_char sep l = [l].
Proof.
  induction l as [|c l IH]; [done|]. unfold contains_char in *. cbn [existsb split_char].
  rewrite orb_false_iff, N.eqb_sym. intros [-> H]. by rewrite IH.
Qed.

Lemma split_char_app sep l s : contains_char sep l = false -> split_char sep (l ++ sep :: s) = l :: split_char sep s.
Proof.
  induction l as [|c l IH]; [simpl; by rewrite N.eqb_refl|]. unfold contains_char in *. cbn [existsb app split_char].
  rewrite orb_false_iff, N.eqb_sym. intros [-> H]. by rewrite IH.
Qed.

Lemma split_char_of_join sep ls :
  ls <> [] -> Forall (fun l => contains_char sep l = false) ls -> split_char sep (join [sep] ls) = ls.
Proof.
  induction ls as [|l ls IH]; [done|]. intros _ Hf. inversion Hf as [|? ? Hl Hls]; subst.
  destruct ls as [|l2 ls]; [by apply split_char_single|].
  change (join [sep] (l :: l2 :: ls)) with (l ++ sep :: join [sep] (l2 :: ls)).
  rewrite split_char_app by done. by rewrite IH.
Qed.

Lemma split_char_no_sep sep s : Forall (fun l => contains_char sep l = false) (split_char sep s).
Proof.
  induction s as [|c s IH]; cbn [split_char]; [by repeat constructor|]. destruct (N.eqb_spec c sep) as [|Hne].
  - by constructor.
  - destruct (split_char sep s) as [|l ls].
    + repeat constructor. unfold contains_char. simpl. rewrite orb_false_r. apply N.eqb_neq. done.
    + inversion IH; subst. constructor; [|done]. unfold contains_char in *. simpl. rewrite orb_false_iff.
      split; [by apply N.eqb_neq|done].
Qed.

Lemma ends_with_true p s : ends_with p s = true <-> exists r, s = r ++ p.
Proof.
  unfold ends_with. rewrite starts_with_true. split; intros (r & H).
  - exists (rev r). apply (f_equal (@rev N)) in H. by rewrite rev_involutive, rev_app_distr, rev_involutive in H.
  - exists (rev r). by rewrite H, rev_app_distr.
Qed.
