(* ===== verification/Utf8.v ===== *)
(** * Byte offsets into a [str]

    A [str] is its list of characters; a byte offset is a number of UTF-8 bytes.  Slicing at an
    offset inside a character panics, which is [None] here.  [fit] and [fit_back] are the reference
    definitions of "as much of the text as the bytes allow" the routines of the program are
    compared with. *)
From S2P Require Import Prelude.
From S2P Require Import Text.

(** [str::char_indices] from an offset on, and the offsets a slice may use. *)
Fixpoint char_indices_from (offset : N) (s : text) : list N :=
  match s with [] => [] | c :: s' => offset :: char_indices_from (offset + len_utf8 c) s' end.
Definition char_indices (s : text) : list N := char_indices_from 0 s.
Definition char_boundaries (s : text) : list N := char_indices s ++ [byte_len s].

Fixpoint split_bytes (n : N) (s : text) : option (text * text) :=
  if (n =? 0)%N then Some ([], s)
  else match s with
       | [] => None
       | c :: s' =>
         if (len_utf8 c <=? n)%N then
           match split_bytes (n - len_utf8 c) s' with
           | Some (a, b) => Some (c :: a, b)
           | None => None
           end
         else None
       end.

(** [&s\[..n\]], [&s\[n..\]] and [str::is_char_boundary]. *)
Definition slice_to (n : N) (s : text) : option text := fst <$> split_bytes n s.
Definition slice_from (n : N) (s : text) : option text := snd <$> split_bytes n s.
Definition is_char_boundary (n : N) (s : text) : bool := bool_decide (is_Some (split_bytes n s)).

(** The longest prefix, and suffix, of at most [max] bytes. *)
Fixpoint fit (max : N) (s : text) : text :=
  match s with
  | [] => []
  | c :: s' => if (len_utf8 c <=? max)%N then c :: fit (max - len_utf8 c) s' else []
  end.
Definition fit_back (max : N) (s : text) : text := rev (fit max (rev s)).

(** ** Lemmas *)

Lemma byte_len_rev s : byte_len (rev s) = byte_len s.
Proof. induction s as [|c s IH]; simpl; [done|]. rewrite byte_len_app, IH. simpl. lia. Qed.

Lemma byte_len_firstn_mono s i j : i <= j -> (byte_len (firstn i s) <= byte_len (firstn j s))%N.
Proof.
  revert i j; induction s as [|c s IH]; intros [|i] [|j] H; simpl; try lia. specialize (IH i j). lia.
Qed.

Lemma byte_len_firstn_strict s i j : i < j -> i < length s -> (byte_len (firstn i s) < byte_len (firstn j s))%N.
Proof.
  revert i j; induction s as [|c s IH]; intros [|i] [|j] H1 H2; simpl in *; try lia.
  - pose proof (len_utf8_bounds c). lia.
  - specialize (IH i j). lia.
Qed.

Lemma byte_len_split s k : (byte_len (firstn k s) + byte_len (skipn k s) = byte_len s)%N.
Proof. rewrite <- byte_len_app. by rewrite firstn_skipn. Qed.

Lemma split_bytes_app a b : split_bytes (byte_len a) (a ++ b) = Some (a, b).
Proof.
  induction a as [|c a IH]; simpl; [by destruct b|]. pose proof (len_utf8_bounds c).
  destruct (N.eqb_spec (len_utf8 c + byte_len a) 0); [lia|].
  destruct (N.leb_spec (len_utf8 c) (len_utf8 c + byte_len a)); [|lia].
  replace (len_utf8 c + byte_len a - len_utf8 c)%N with (byte_len a) by lia. by rewrite IH.
Qed.

Lemma split_bytes_Some n s a b : split_bytes n s = Some (a, b) <-> s = a ++ b /\ n = byte_len a.
Proof.
  split; [|intros [-> ->]; apply split_bytes_app].
  revert n a b; induction s as [|c s IH]; intros n a b; simpl.
  - destruct (N.eqb_spec n 0); [|done]. by intros [= <- <-].
  - destruct (N.eqb_spec n 0); [by intros [= <- <-]|].
    destruct (N.leb_spec (len_utf8 c) n); [|done].
    destruct (split_bytes _ s) as [[x y]|] eqn:E; [|done]. intros [= <- <-]. apply IH in E as [-> E].
    split; [done|]. simpl. lia.
Qed.

Lemma split_bytes_firstn s k : split_bytes (byte_len (firstn k s)) s = Some (firstn k s, skipn k s).
Proof. apply split_bytes_Some. by rewrite firstn_skipn. Qed.

Lemma slice_to_firstn s k : slice_to (byte_len (firstn k s)) s = Some (firstn k s).
Proof. unfold slice_to. by rewrite split_bytes_firstn. Qed.
Lemma slice_from_firstn s k : slice_from (byte_len (firstn k s)) s = Some (skipn k s).
Proof. unfold slice_from. by rewrite split_bytes_firstn. Qed.

Lemma is_char_boundary_true n s :
  is_char_boundary n s = true <-> exists k, k <= length s /\ n = byte_len (firstn k s).
Proof.
  unfold is_char_boundary. rewrite bool_decide_eq_true. split.
  - intros [[a b] [-> ->]%split_bytes_Some]. exists (length a). rewrite length_app, take_app_length. split; [lia|done].
  - intros (k & _ & ->). rewrite split_bytes_firstn. by eexists.
Qed.

Lemma char_indices_lookup s off k :
  k < length s -> char_indices_from off s !! k = Some (off + byte_len (firstn k s))%N.
Proof.
  revert off k; induction s as [|c s IH]; intros off [|k] H; simpl in *; [lia..|by rewrite N.add_0_r|].
  rewrite IH by lia. f_equal. lia.
Qed.

Lemma char_indices_length s off : length (char_indices_from off s) = length s.
Proof. revert off; induction s; intros; simpl; auto. Qed.

Lemma char_boundaries_length s : length (char_boundaries s) = S (length s).
Proof. unfold char_boundaries, char_indices. rewrite length_app, char_indices_length. simpl. lia. Qed.

Lemma char_boundaries_lookup s k : k <= length s -> char_boundaries s !! k = Some (byte_len (firstn k s)).
Proof.
  intros H. unfold char_boundaries, char_indices. destruct (decide (k < length s)).
  - rewrite lookup_app_l by by rewrite char_indices_length. by rewrite char_indices_lookup.
  - replace k with (length s) by lia. rewrite lookup_app_r by by rewrite char_indices_length.
    rewrite char_indices_length, Nat.sub_diag, firstn_all. done.
Qed.

Lemma fit_firstn max s k :
  (byte_len (firstn k s) <= max)%N -> length s <= k \/ (max < byte_len (firstn (S k) s))%N ->
  fit max s = firstn k s.
Proof.
  revert max k; induction s as [|c s IH]; intros max k H1 H2; [by rewrite firstn_nil|]. destruct k as [|k].
  - simpl in *. destruct H2 as [H2|H2]; [lia|]. destruct (N.leb_spec (len_utf8 c) max); [|done]. lia.
  - cbn [firstn byte_len fit] in *. destruct (N.leb_spec (len_utf8 c) max); [|lia]. f_equal. apply IH; [lia|].
    destruct H2; [left; simpl in *; lia|right; simpl in *; lia].
Qed.

Lemma fit_prefix max s : exists r, s = fit max s ++ r /\ (byte_len (fit max s) <= max)%N /\
  match r with [] => True | c :: _ => (max < byte_len (fit max s) + len_utf8 c)%N end.
Proof.
  revert max; induction s as [|c s IH]; intros max; [exists []; simpl; repeat split; lia|].
  cbn [fit]. destruct (N.leb_spec (len_utf8 c) max).
  - destruct (IH (max - len_utf8 c)%N) as (r & Hs & Hb & Hm). exists r. cbn [app byte_len]. rewrite <- Hs.
    split; [done|]. split; [lia|]. destruct r; [done|lia].
  - exists (c :: s). simpl. split; [done|]. split; lia.
Qed.

Lemma fit_byte_len max s : (byte_len (fit max s) <= max)%N.
Proof. destruct (fit_prefix max s) as (? & _ & ? & _). done. Qed.

Lemma fit_all max s : (byte_len s <= max)%N -> fit max s = s.
Proof. intros H. rewrite (fit_firstn _ _ (length s)); rewrite ?firstn_all; auto. Qed.

Lemma fit_back_byte_len max s : (byte_len (fit_back max s) <= max)%N.
Proof. unfold fit_back. rewrite byte_len_rev. apply fit_byte_len. Qed.

Lemma fit_back_all max s : (byte_len s <= max)%N -> fit_back max s = s.
Proof. intros H. unfold fit_back. rewrite fit_all by by rewrite byte_len_rev. apply rev_involutive. Qed.

(** The suffix that starts at character [k]. *)
Lemma skipn_as_rev (s : text) k : k <= length s -> skipn k s = rev (firstn (length s - k) (rev s)).
Proof.
  intros H. rewrite firstn_rev, rev_involutive. f_equal. lia.
Qed.

Lemma fit_back_skipn max s k :
  k <= length s -> (byte_len (skipn k s) <= max)%N ->
  k = 0 \/ (max < byte_len (skipn (k - 1) s))%N -> fit_back max s = skipn k s.
Proof.
  intros Hk H1 H2. unfold fit_back. rewrite (skipn_as_rev s k Hk) in *. f_equal. rewrite byte_len_rev in H1.
  apply fit_firstn; [done|]. rewrite length_rev. destruct H2 as [->|H2]; [left; lia|right].
  destruct k as [|k].
  - simpl in H2. rewrite (skipn_as_rev s 0) in H2 by lia. rewrite byte_len_rev in H2.
    eapply N.lt_le_trans; [exact H2|]. apply byte_len_firstn_mono. lia.
  - rewrite (skipn_as_rev s (S k - 1)), byte_len_rev in H2 by lia.
    by replace (S (length s - S k)) with (length s - (S k - 1)) by lia.
Qed.

Lemma fit_back_suffix max s : exists r, s = r ++ fit_back max s.
Proof.
  unfold fit_back. destruct (fit_prefix max (rev s)) as (r & H & _). exists (rev r).
  rewrite <- rev_app_distr, <- H. symmetry. apply rev_involutive.
Qed.
