(* ===== verification/PatchParse.v ===== *)
(** * Patch parsing (src/src/edit/patch.rs, [PatchParser::parse])

    The parser walks the lines between the [Begin]/[End] markers with an index; here the index is
    the suffix of lines still to read.  The two loops whose step consumes a variable number of
    lines take fuel; [PatchParseFacts] shows that the number of lines is always enough. *)
From S2P Require Import Prelude.
From S2P Require Import Text.

(** ** Data *)

Inductive PatchLine :=
  | PContext (content : text)
  | PDelete (content : text)
  | PInsert (content : text).

Record PatchChunk := {
  change_context : option text;
  is_end_of_file : bool;
  hunk_lines : list PatchLine
}.

Inductive PatchOperation :=
  | PatchAdd (path : text) (contents : text)
  | PatchUpdate (path : text) (hunks : list PatchChunk) (move_to : option text)
  | PatchDelete (path : text).

#[export] Instance PatchLine_eq_dec : EqDecision PatchLine.
Proof. solve_decision. Defined.
#[export] Instance PatchChunk_eq_dec : EqDecision PatchChunk.
Proof. solve_decision. Defined.
#[export] Instance PatchOperation_eq_dec : EqDecision PatchOperation.
Proof. solve_decision. Defined.

(** [PatchError::Message]: one constructor per message, with what the message interpolates. *)
Inductive PatchError :=
  | MissingBegin
  | MissingEnd
  | AddBodyLine (raw_line : text)
  | NoHunk (path : text)
  | MissingChangeMarkers
  | UnexpectedPatchLine (line : text)
  | EmptyPatch
  | ExpectedHunkHeader (header : text)
  | InvalidHunkHeader (header : text)
  | EofMarkerFirst
  | AfterEofMarker (line : text)
  | UnexpectedHunkLine (line : text)
  | EmptyHunkBody
  | NamedContextNotFound (hunk_number : nat) (target_detail : text)
  | ContextMismatch (kind : text) (hunk_number expected_old_lines : nat)
      (target_detail recovery : text).

Definition backtick (s : text) : text := lit "`" ++ s ++ lit "`".

Definition patch_error_message (e : PatchError) : text :=
  match e with
  | MissingBegin => lit "patch must start with `*** Begin Patch`"
  | MissingEnd => lit "patch must end with `*** End Patch`"
  | AddBodyLine raw_line =>
      lit "add file body line " ++ backtick raw_line ++
      lit " must start with `+`; all content lines, including blank lines, indented lines, and source-code lines, must be prefixed with `+` (edit_patch_parser_feedback_language_neutral)"
  | NoHunk path =>
      lit "update file section " ++ backtick path ++
      lit " must include at least one hunk; after `*** Update File: " ++ path ++
      lit "`, add `@@`, then prefix each body line with one space for context, `-` for deletion, or `+` for insertion"
  | MissingChangeMarkers =>
      lit "apply_patch failure kind=missing_change_markers; an Update must contain at least one `+` insertion or `-` deletion; context lines identify existing content and are not replacement content"
  | UnexpectedPatchLine line => lit "unexpected patch line " ++ backtick line
  | EmptyPatch => lit "patch cannot be empty"
  | ExpectedHunkHeader header => lit "expected hunk header, got " ++ backtick header
  | InvalidHunkHeader header =>
      lit "invalid hunk header " ++ backtick header ++ lit "; use bare `@@` or `@@ context`"
  | EofMarkerFirst => lit "`*** End of File` must follow at least one update hunk line"
  | AfterEofMarker line =>
      lit "expected `@@` or a file marker after `*** End of File`, got " ++ backtick line
  | UnexpectedHunkLine line =>
      lit "unexpected patch hunk line " ++ backtick line ++
      lit "; every update hunk body line must start with one space for context, `-` for deletion, or `+` for insertion"
  | EmptyHunkBody => lit "update hunk body cannot be empty"
  | NamedContextNotFound hunk_number target_detail =>
      lit "apply_patch failure kind=named_context_not_found hunk=" ++ show_nat hunk_number ++ target_detail ++
      lit "; the named `@@ context` was not found after the prior hunk, so read the target around the search start and regenerate this hunk"
  | ContextMismatch kind hunk_number expected_old_lines target_detail recovery =>
      lit "apply_patch failure kind=" ++ kind ++ lit " hunk=" ++ show_nat hunk_number ++
      lit " expected_old_lines=" ++ show_nat expected_old_lines ++ target_detail ++ lit "; " ++ recovery
  end.

Definition begin_marker : text := lit "*** Begin Patch".
Definition end_marker : text := lit "*** End Patch".
Definition eof_marker : text := lit "*** End of File".
Definition section_prefix : text := lit "*** ".
Definition hunk_prefix : text := lit "@@".
Definition add_prefix : text := lit "*** Add File: ".
Definition delete_prefix : text := lit "*** Delete File: ".
Definition update_prefix : text := lit "*** Update File: ".
Definition move_prefix : text := lit "*** Move to: ".

#[global] Arguments begin_marker : simpl never.
#[global] Arguments end_marker : simpl never.
#[global] Arguments eof_marker : simpl never.
#[global] Arguments section_prefix : simpl never.
#[global] Arguments hunk_prefix : simpl never.
#[global] Arguments add_prefix : simpl never.
#[global] Arguments delete_prefix : simpl never.
#[global] Arguments update_prefix : simpl never.
#[global] Arguments move_prefix : simpl never.

(** ** Normalisation of the patch text *)

Definition strip_code_fence (s : text) : text :=
  let ls := lines s in
  if (2 <=? length ls) &&
     match ls with first :: _ => starts_with (lit "```") (trim_start first) | [] => false end
  then if text_eqb (trim (List.last ls [])) (lit "```")
       then join [LF] (removelast (tail ls))
       else s
  else s.

Definition is_quote (c : char) : bool := ((c =? 39) || (c =? 34) || (c =? 59))%N.

Definition extract_heredoc_token (header : text) : option text :=
  match find_sub (lit "<<") header with
  | None => None
  | Some marker_index =>
    let token := trim (skipn (marker_index + 2) header) in
    if is_empty token then None else Some (trim_matches is_quote token)
  end.

Definition strip_heredoc_wrapper (s : text) : text :=
  let trimmed := trim s in
  match find_sub [LF] trimmed with
  | None => trimmed
  | Some newline_index =>
    let header := trim (firstn newline_index trimmed) in
    let body := skipn (newline_index + 1) trimmed in
    match extract_heredoc_token header with
    | None => trimmed
    | Some token =>
      match rfind_sub (LF :: token) body with
      | Some suffix => firstn suffix body
      | None => trimmed
      end
    end
  end.

(** [Iterator::position] and [rposition]. *)
Fixpoint position {A} (f : A -> bool) (l : list A) : option nat :=
  match l with
  | [] => None
  | x :: l' => if f x then Some 0 else S <$> position f l'
  end.
Fixpoint rposition {A} (f : A -> bool) (l : list A) : option nat :=
  match l with
  | [] => None
  | x :: l' =>
    match rposition f l' with
    | Some i => Some (S i)
    | None => if f x then Some 0 else None
    end
  end.

Definition extract_marked_patch (s : text) : text :=
  let ls := lines s in
  match position (fun l => text_eqb (trim l) begin_marker) ls,
        rposition (fun l => text_eqb (trim l) end_marker) ls with
  | Some b, Some e => if b <=? e then join [LF] (firstn (S e - b) (skipn b ls)) else s
  | _, _ => s
  end.

Definition normalize_patch_text (s : text) : text :=
  let normalized_newlines := replace_cr (replace_crlf s) in
  let without_fence := strip_code_fence (trim normalized_newlines) in
  let without_heredoc := strip_heredoc_wrapper (trim without_fence) in
  let extracted := extract_marked_patch (trim without_heredoc) in
  trim extracted.

(** ** Hunks *)

Definition parse_hunk_header (header : text) : result (option text) PatchError :=
  let header := trim_end header in
  if text_eqb header hunk_prefix then Ok None
  else match strip_prefix (lit "@@ ") header with
       | Some change_context => Ok (Some change_context)
       | None => Err (InvalidHunkHeader header)
       end.

Definition is_eof_line (line : text) : bool := text_eqb (trim_end line) eof_marker.

(** A line that ends the body of a hunk. *)
Definition ends_hunk (line : text) : bool :=
  starts_with hunk_prefix line || (starts_with section_prefix line && negb (is_eof_line line)).

Fixpoint skip_blank (rest : list text) : list text :=
  match rest with
  | l :: rest' => if is_empty (trim_end l) then skip_blank rest' else rest
  | [] => []
  end.

Definition parse_hunk_line (line : text) : result PatchLine PatchError :=
  match line with
  | [] => Ok (PContext [])
  | c :: l =>
    if (c =? 32)%N then Ok (PContext l)
    else if (c =? 43)%N then Ok (PInsert l)
    else if (c =? 45)%N then Ok (PDelete l)
    else Err (UnexpectedHunkLine line)
  end.

(** The loop of [parse_hunk_body]: the lines collected, whether the end-of-file marker closed
    them, and the lines left. *)
Fixpoint hunk_body (rest : list text) (body : list PatchLine)
    : result (list PatchLine * bool * list text) PatchError :=
  match rest with
  | [] => Ok (body, false, [])
  | line :: rest' =>
    if ends_hunk line then Ok (body, false, rest)
    else if is_eof_line line then
      if is_empty body then Err EofMarkerFirst
      else
        let rest'' := skip_blank rest' in
        match rest'' with
        | next :: _ =>
          if negb (starts_with hunk_prefix next) && negb (starts_with section_prefix next)
          then Err (AfterEofMarker next)
          else Ok (body, true, rest'')
        | [] => Ok (body, true, rest'')
        end
    else let? parsed := parse_hunk_line line in hunk_body rest' (body ++ [parsed])
  end.

Definition parse_hunk_body (rest : list text) (context : option text)
    : result (PatchChunk * list text) PatchError :=
  let? (body, eof, rest') := hunk_body rest [] in
  if is_empty body then Err EmptyHunkBody
  else Ok ({| change_context := context; is_end_of_file := eof; hunk_lines := body |}, rest').

(** [rest] starts after the header. *)
Definition parse_hunk (header : text) (rest : list text) : result (PatchChunk * list text) PatchError :=
  if negb (starts_with hunk_prefix header) then Err (ExpectedHunkHeader header)
  else let? change_context := parse_hunk_header header in parse_hunk_body rest change_context.

Definition parse_implicit_hunk (rest : list text) : result (PatchChunk * list text) PatchError :=
  parse_hunk_body rest None.

Fixpoint parse_hunks (fuel : nat) (rest : list text) (hunks : list PatchChunk)
    : option (result (list PatchChunk * list text) PatchError) :=
  match fuel with
  | 0 => None
  | S fuel =>
    match rest with
    | [] => Some (Ok (hunks, []))
    | header :: rest' =>
      if starts_with section_prefix header then Some (Ok (hunks, rest))
      else
        match (if starts_with hunk_prefix header then parse_hunk header rest'
               else parse_implicit_hunk rest) with
        | Err e => Some (Err e)
        | Ok (hunk, rest'') => parse_hunks fuel rest'' (hunks ++ [hunk])
        end
    end
  end.

(** ** Operations *)

Fixpoint parse_add_body (rest : list text) (contents : list text)
    : result (list text * list text) PatchError :=
  match rest with
  | [] => Ok (contents, [])
  | raw_line :: rest' =>
    if starts_with section_prefix raw_line then Ok (contents, rest)
    else match strip_prefix (lit "+") raw_line with
         | None => Err (AddBodyLine raw_line)
         | Some body => parse_add_body rest' (contents ++ [body])
         end
  end.

Definition parse_move_to (rest : list text) : option text * list text :=
  match rest with
  | line :: rest' =>
    match strip_prefix move_prefix line with
    | Some target => (Some target, rest')
    | None => (None, rest)
    end
  | [] => (None, [])
  end.

Definition is_change (l : PatchLine) : bool :=
  match l with PInsert _ | PDelete _ => true | PContext _ => false end.

Definition has_change_marker (hunks : list PatchChunk) : bool :=
  existsb is_change (flat_map hunk_lines hunks).

Definition finish_update (path : text) (hunks : list PatchChunk) (move_to : option text)
    : result PatchOperation PatchError :=
  if is_empty hunks then Err (NoHunk path)
  else if negb (has_change_marker hunks) && match move_to with None => true | Some _ => false end
  then Err MissingChangeMarkers
  else Ok (PatchUpdate path hunks move_to).

Fixpoint parse_operations (fuel : nat) (rest : list text) (operations : list PatchOperation)
    : option (result (list PatchOperation) PatchError) :=
  match fuel with
  | 0 => None
  | S fuel =>
    match rest with
    | [] => Some (Ok operations)
    | line :: rest' =>
      match strip_prefix add_prefix line with
      | Some path =>
        match parse_add_body rest' [] with
        | Err e => Some (Err e)
        | Ok (contents, rest'') =>
            parse_operations fuel rest'' (operations ++ [PatchAdd path (join [LF] contents)])
        end
      | None =>
      match strip_prefix delete_prefix line with
      | Some path => parse_operations fuel rest' (operations ++ [PatchDelete path])
      | None =>
      match strip_prefix update_prefix line with
      | Some path =>
        let '(move_to, body) := parse_move_to rest' in
        match parse_hunks (S (length body)) body [] with
        | None => None
        | Some (Err e) => Some (Err e)
        | Some (Ok (hunks, rest'')) =>
          match finish_update path hunks move_to with
          | Err e => Some (Err e)
          | Ok operation => parse_operations fuel rest'' (operations ++ [operation])
          end
        end
      | None =>
        if is_empty (trim line) then parse_operations fuel rest' operations
        else Some (Err (UnexpectedPatchLine line))
      end
      end
      end
    end
  end.

Definition parse_lines (ls : list text) : option (result (list PatchOperation) PatchError) :=
  if negb (match ls with first :: _ => text_eqb first begin_marker | [] => false end)
  then Some (Err MissingBegin)
  else if negb (text_eqb (List.last ls []) end_marker) then Some (Err MissingEnd)
  else
    let body := removelast (tail ls) in
    match parse_operations (S (length body)) body [] with
    | Some (Ok []) => Some (Err EmptyPatch)
    | other => other
    end.

(** [PatchParser::parse] *)
Definition parse (s : text) : option (result (list PatchOperation) PatchError) :=
  parse_lines (lines (normalize_patch_text s)).
