(* ===== verification/PatchApply.v ===== *)
(** * Patch application (src/src/edit/patch.rs, [PatchParser::apply_to_text])

    A hunk is located in the lines of the target by the most exact of four comparisons that
    matches, then spliced into the lines of the source so that only inserted and deleted lines
    change.  Indices are list positions; [saturating_add] on them is [+] because a [Vec] never
    holds more than [isize::MAX] lines. *)
From S2P Require Import Prelude.
From S2P Require Import Text.
From S2P Require Import PatchParse.

(** ** Lines of the source *)

Inductive LineEnding := CrLf | Lf | NoEnding.
#[export] Instance LineEnding_eq_dec : EqDecision LineEnding.
Proof. solve_decision. Defined.

Definition ending_text (e : LineEnding) : text :=
  match e with CrLf => [CR; LF] | Lf => [LF] | NoEnding => [] end.
Definition ending_is_empty (e : LineEnding) : bool :=
  match e with NoEnding => true | _ => false end.

Record TextLine := { content : text; ending : LineEnding }.

(** [TextLine::from_source] *)
Definition from_source (raw : text) : TextLine :=
  match strip_suffix [CR; LF] raw with
  | Some c => {| content := c; ending := CrLf |}
  | None =>
    match strip_suffix [LF] raw with
    | Some c => {| content := c; ending := Lf |}
    | None => {| content := raw; ending := NoEnding |}
    end
  end.

Definition has_ending (l : TextLine) : bool := negb (ending_is_empty (ending l)).

Definition nearby_line_ending (source : list TextLine) (start : nat) : LineEnding :=
  match List.find has_ending (skipn start source) with
  | Some l => ending l
  | None =>
    match List.find has_ending (rev (firstn start source)) with
    | Some l => ending l
    | None => Lf
    end
  end.

Definition last_has_no_ending (source : list TextLine) : bool :=
  match last source with None => true | Some l => ending_is_empty (ending l) end.

(** [append_changed_lines]: the lines it appends to the output. *)
Fixpoint changed_lines_from (source : list TextLine) (start deleted count index : nat)
    (fallback : LineEnding) (inserted : list text) : list TextLine :=
  match inserted with
  | [] => []
  | c :: inserted' =>
    let e :=
      if (index + 1 =? count) && (start + deleted =? length source) && last_has_no_ending source
      then NoEnding
      else match source !! (start + index) with
           | Some l => if (index <? deleted) && has_ending l then ending l else fallback
           | None => fallback
           end in
    {| content := c; ending := e |}
      :: changed_lines_from source start deleted count (S index) fallback inserted'
  end.

Definition append_changed_lines (output source : list TextLine) (start deleted : nat)
    (inserted : list text) : list TextLine :=
  output ++ changed_lines_from source start deleted (length inserted) 0
              (nearby_line_ending source start) inserted.

(** The state of the loop of [replacement_lines]. *)
Record ReplacementState := {
  rs_result : list TextLine;
  old_cursor : nat;
  new_cursor : nat;
  deleted : nat;
  inserted : list text
}.

(** A context line pushes a clone of its source line; reading past the source panics. *)
Definition replacement_step (source : list TextLine) (start old_len new_len : nat)
    (s : option ReplacementState) (line : PatchLine) : option ReplacementState :=
  match s with
  | None => None
  | Some s =>
    match line with
    | PContext c =>
      let result := append_changed_lines (rs_result s) source (start + old_cursor s - deleted s)
                      (deleted s) (inserted s) in
      let next result inserted :=
        {| rs_result := result; old_cursor := Nat.min (old_cursor s + 1) old_len;
           new_cursor := Nat.min (new_cursor s + 1) new_len; deleted := 0; inserted := inserted |} in
      if (old_cursor s <? old_len) && (new_cursor s <? new_len) then
        match source !! (start + old_cursor s) with
        | Some l => Some (next (result ++ [l]) [])
        | None => None
        end
      else if new_cursor s <? new_len then Some (next result [c])
      else Some (next result [])
    | PDelete _ =>
      if old_cursor s <? old_len then
        Some {| rs_result := rs_result s; old_cursor := old_cursor s + 1; new_cursor := new_cursor s;
                deleted := deleted s + 1; inserted := inserted s |}
      else Some s
    | PInsert c =>
      if new_cursor s <? new_len then
        Some {| rs_result := rs_result s; old_cursor := old_cursor s; new_cursor := new_cursor s + 1;
                deleted := deleted s; inserted := inserted s ++ [c] |}
      else Some s
    end
  end.

Definition replacement_init : ReplacementState :=
  {| rs_result := []; old_cursor := 0; new_cursor := 0; deleted := 0; inserted := [] |}.

(** [replacement_lines]; [None] is an index panic. *)
Definition replacement_lines (source : list TextLine) (start old_len new_len : nat) (hunk : PatchChunk)
    : option (list TextLine) :=
  match fold_left (replacement_step source start old_len new_len) (hunk_lines hunk) (Some replacement_init) with
  | None => None
  | Some s =>
    Some (append_changed_lines (rs_result s) source (start + old_cursor s - deleted s)
            (deleted s) (inserted s))
  end.

(** ** Matching *)

Definition exact_line_match (actual expected : text) : bool := text_eqb actual expected.
Definition trailing_whitespace_line_match (actual expected : text) : bool :=
  text_eqb (trim_end actual) (trim_end expected).
Definition surrounding_whitespace_line_match (actual expected : text) : bool :=
  text_eqb (trim actual) (trim expected).

Definition normalize_char (c : char) : char :=
  (if (8208 <=? c) && (c <=? 8213) || (c =? 8722) then 45
   else if (8216 <=? c) && (c <=? 8219) then 39
   else if (8220 <=? c) && (c <=? 8223) then 34
   else if (c =? 160) || (8194 <=? c) && (c <=? 8202) || (c =? 8239) || (c =? 8287) || (c =? 12288) then 32
   else c)%N.
Definition normalize (value : text) : text := map normalize_char (trim value).
Definition normalized_unicode_line_match (actual expected : text) : bool :=
  text_eqb (normalize actual) (normalize expected).

Definition comparators : list (text -> text -> bool) :=
  [exact_line_match; trailing_whitespace_line_match; surrounding_whitespace_line_match;
   normalized_unicode_line_match].

(** [lines\[start_index + offset\]] is in bounds wherever the callers look. *)
Fixpoint matches_with (compare : text -> text -> bool) (lines pattern : list text) : bool :=
  match pattern, lines with
  | [], _ => true
  | expected :: pattern', actual :: lines' => compare actual expected && matches_with compare lines' pattern'
  | _ :: _, [] => false
  end.

(** The first index of [search_start..=last_start] where the pattern matches. *)
Definition seek_with (compare : text -> text -> bool) (lines pattern : list text)
    (search_start last_start : nat) : option nat :=
  List.find (fun index => matches_with compare (skipn index lines) pattern)
    (seq search_start (last_start + 1 - search_start)).

Fixpoint first_some {A B} (f : A -> option B) (l : list A) : option B :=
  match l with
  | [] => None
  | x :: l' => match f x with Some y => Some y | None => first_some f l' end
  end.

Definition seek_sequence (lines pattern : list text) (start_index : nat) (is_end_of_file : bool)
    : option nat :=
  if is_empty pattern then Some (Nat.min start_index (length lines))
  else if length lines <? length pattern then None
  else
    let last_start := length lines - length pattern in
    let search_start := if is_end_of_file then Nat.max last_start start_index
                        else Nat.min start_index (last_start + 1) in
    if last_start <? search_start then None
    else first_some (fun compare => seek_with compare lines pattern search_start last_start) comparators.

(** ** Diagnostics *)

Definition MAX_PATCH_FAILURE_CANDIDATE_LINES : nat := 3.

Definition is_blank (s : text) : bool := is_empty (trim s).

(** One comparator of [patch_candidate_start_lines]: [inl] when the limit was reached. *)
Fixpoint scan_candidates (compare : text -> text -> bool) (anchor : text) (anchor_offset cursor : nat)
    (actual_index : nat) (rest : list text) (candidates : list nat) : list nat + list nat :=
  match rest with
  | [] => inr candidates
  | actual :: rest' =>
    let continue := scan_candidates compare anchor anchor_offset cursor (S actual_index) rest' in
    if negb (compare actual anchor) then continue candidates
    else if actual_index <? anchor_offset then continue candidates
    else
      let candidate_start := actual_index - anchor_offset in
      if (candidate_start <? cursor) || existsb (Nat.eqb candidate_start) candidates
      then continue candidates
      else
        let candidates' := candidates ++ [candidate_start] in
        if length candidates' =? MAX_PATCH_FAILURE_CANDIDATE_LINES then inl candidates'
        else continue candidates'
  end.

Fixpoint scan_comparators (cs : list (text -> text -> bool)) (anchor : text)
    (anchor_offset cursor search_start : nat) (lines : list text) (candidates : list nat) : list nat :=
  match cs with
  | [] => candidates
  | compare :: cs' =>
    match scan_candidates compare anchor anchor_offset cursor search_start (skipn search_start lines) candidates with
    | inl full => full
    | inr more => scan_comparators cs' anchor anchor_offset cursor search_start lines more
    end
  end.

Definition patch_candidate_start_lines (lines pattern : list text) (cursor : nat) : option (list nat) :=
  match position (fun line => negb (is_blank line)) pattern with
  | None => None
  | Some anchor_offset =>
    let anchor := nth anchor_offset pattern [] in
    let search_start := Nat.min (cursor + anchor_offset) (length lines) in
    Some (map S (scan_comparators comparators anchor anchor_offset cursor search_start lines []))
  end.

Definition patch_context_mismatch_error (original_lines old_pattern : list text) (cursor hunk_number : nat)
    (is_end_of_file target_trailing_newline patch_tail_empty include_target_diagnostics : bool) : PatchError :=
  let kind := if is_end_of_file then lit "eof_context_mismatch" else lit "context_mismatch" in
  let expected_old_lines := length old_pattern in
  let target_lines := length original_lines in
  let target_detail :=
    if negb include_target_diagnostics then []
    else if is_end_of_file then
      let required_tail_start_line :=
        if expected_old_lines <=? target_lines then show_nat (target_lines - expected_old_lines + 1)
        else lit "none" in
      lit " search_start_line=" ++ show_nat (cursor + 1) ++ lit " target_lines=" ++ show_nat target_lines ++
      lit " required_tail_start_line=" ++ required_tail_start_line ++
      lit " target_trailing_newline=" ++ show_bool target_trailing_newline ++
      lit " patch_tail_empty=" ++ show_bool patch_tail_empty
    else
      let candidates := default [] (patch_candidate_start_lines original_lines old_pattern cursor) in
      let shown := if is_empty candidates then lit "none" else join (lit ",") (map show_nat candidates) in
      lit " search_start_line=" ++ show_nat (cursor + 1) ++ lit " target_lines=" ++ show_nat target_lines ++
      lit " candidate_start_lines=" ++ shown in
  let recovery :=
    if is_end_of_file then lit "read the final bounded range and regenerate the EOF-constrained hunk"
    else lit "read the target around the search start or candidate lines and regenerate this hunk" in
  ContextMismatch kind hunk_number expected_old_lines target_detail recovery.

(** ** Locating a hunk *)

Definition locate_change_context_start (original_lines : list text) (hunk : PatchChunk) (cursor hunk_number : nat)
    (include_target_diagnostics : bool) : result nat PatchError :=
  match change_context hunk with
  | None => Ok cursor
  | Some change_context =>
    match seek_sequence original_lines [change_context] cursor false with
    | Some found => Ok (found + 1)
    | None =>
      let target_detail :=
        if include_target_diagnostics then
          lit " search_start_line=" ++ show_nat (cursor + 1) ++
          lit " target_lines=" ++ show_nat (length original_lines)
        else [] in
      Err (NamedContextNotFound hunk_number target_detail)
    end
  end.

Definition old_segment_line (l : PatchLine) : list text :=
  match l with PContext c | PDelete c => [c] | PInsert _ => [] end.
Definition new_segment_line (l : PatchLine) : list text :=
  match l with PContext c | PInsert c => [c] | PDelete _ => [] end.
Definition old_segment_for_hunk (hunk : PatchChunk) : list text := flat_map old_segment_line (hunk_lines hunk).
Definition new_segment_for_hunk (hunk : PatchChunk) : list text := flat_map new_segment_line (hunk_lines hunk).

Definition last_is_empty_line (ls : list text) : bool :=
  match last ls with Some [] => true | _ => false end.

Definition locate_hunk_replacement (original_lines : list text) (hunk : PatchChunk) (cursor : nat)
    (old_segment new_segment : list text) (hunk_number : nat)
    (target_trailing_newline include_target_diagnostics : bool)
    : result (nat * nat * list text) PatchError :=
  let found := seek_sequence original_lines old_segment cursor (is_end_of_file hunk) in
  let '(old_pattern, new_pattern, found) :=
    match found with
    | None =>
      if last_is_empty_line old_segment then
        let old_pattern := removelast old_segment in
        let new_pattern := if last_is_empty_line new_segment then removelast new_segment else new_segment in
        (old_pattern, new_pattern, seek_sequence original_lines old_pattern cursor (is_end_of_file hunk))
      else (old_segment, new_segment, None)
    | Some start => (old_segment, new_segment, Some start)
    end in
  match found with
  | Some start => Ok (start, length old_pattern, new_pattern)
  | None =>
    Err (patch_context_mismatch_error original_lines old_pattern cursor hunk_number (is_end_of_file hunk)
           target_trailing_newline (last_is_empty_line old_segment) include_target_diagnostics)
  end.

(** ** Applying the hunks *)

Record Replacement := { rp_start : nat; rp_old_len : nat; rp_lines : list TextLine }.

(** The loop over the hunks; [None] is an index panic in [replacement_lines]. *)
Fixpoint plan_hunks (source_lines : list TextLine) (original_lines : list text)
    (target_trailing_newline include_target_diagnostics : bool)
    (hunks : list PatchChunk) (hunk_number line_index : nat) (replacements : list Replacement)
    : option (result (list Replacement) PatchError) :=
  match hunks with
  | [] => Some (Ok replacements)
  | hunk :: hunks' =>
    match locate_change_context_start original_lines hunk line_index hunk_number include_target_diagnostics with
    | Err e => Some (Err e)
    | Ok line_index =>
      let old_segment := old_segment_for_hunk hunk in
      let new_segment := new_segment_for_hunk hunk in
      let continue := plan_hunks source_lines original_lines target_trailing_newline
                        include_target_diagnostics hunks' (S hunk_number) in
      if is_empty old_segment then
        match replacement_lines source_lines (length original_lines) 0 (length new_segment) hunk with
        | None => None
        | Some replacement =>
            continue line_index (replacements ++ [{| rp_start := length original_lines; rp_old_len := 0;
                                                     rp_lines := replacement |}])
        end
      else
        match locate_hunk_replacement original_lines hunk line_index old_segment new_segment hunk_number
                target_trailing_newline include_target_diagnostics with
        | Err e => Some (Err e)
        | Ok (start, matched_old_len, replacement) =>
          match replacement_lines source_lines start matched_old_len (length replacement) hunk with
          | None => None
          | Some replacement =>
              continue (start + matched_old_len)
                (replacements ++ [{| rp_start := start; rp_old_len := matched_old_len; rp_lines := replacement |}])
          end
        end
    end
  end.

(** [sort_by_key] is stable. *)
Fixpoint insert_by_start (r : Replacement) (l : list Replacement) : list Replacement :=
  match l with
  | [] => [r]
  | x :: l' => if rp_start r <=? rp_start x then r :: l else x :: insert_by_start r l'
  end.
Fixpoint sort_by_start (l : list Replacement) : list Replacement :=
  match l with [] => [] | r :: l' => insert_by_start r (sort_by_start l') end.

(** [Vec::splice] panics when the range leaves the vector. *)
Definition splice (output : list TextLine) (r : Replacement) : option (list TextLine) :=
  if rp_start r + rp_old_len r <=? length output
  then Some (firstn (rp_start r) output ++ rp_lines r ++ skipn (rp_start r + rp_old_len r) output)
  else None.

Definition splice_all (rs : list Replacement) (output : list TextLine) : option (list TextLine) :=
  fold_left (fun o r => match o with Some o => splice o r | None => None end) (rev rs) (Some output).

Fixpoint render_lines (append_separator : LineEnding) (output : list TextLine) : text :=
  match output with
  | [] => []
  | line :: output' =>
    content line ++
    ending_text (if ending_is_empty (ending line) && negb (is_empty output') then append_separator
                 else ending line) ++
    render_lines append_separator output'
  end.

(** [PatchParser::apply_to_text_with_diagnostics] *)
Definition apply_to_text_with_diagnostics (original : text) (hunks : list PatchChunk)
    (include_target_diagnostics : bool) : option (result text PatchError) :=
  let source_lines := map from_source (split_inclusive original) in
  let original_lines := map content source_lines in
  match plan_hunks source_lines original_lines (ends_with [LF] original) include_target_diagnostics
          hunks 1 0 [] with
  | None => None
  | Some (Err e) => Some (Err e)
  | Some (Ok replacements) =>
    let append_separator := nearby_line_ending source_lines (length source_lines) in
    match splice_all (sort_by_start replacements) source_lines with
    | None => None
    | Some output => Some (Ok (render_lines append_separator output))
    end
  end.

(** [PatchParser::apply_to_text] *)
Definition apply_to_text (original : text) (hunks : list PatchChunk) : option (result text PatchError) :=
  apply_to_text_with_diagnostics original hunks false.
