(* ===== verification/PatchParseFacts.v ===== *)
(** * Correctness of the patch parser: totality, well-formedness, round trip *)
From S2P Require Import Prelude.
From S2P Require Import Text.
From S2P Require Import PatchParse.

(** ** Every patch text is parsed *)

Lemma skip_blank_length rest : length (skip_blank rest) <= length rest.
Proof. induction rest as [|l rest IH]; simpl; [done|]. case_match; simpl; lia. Qed.

Lemma hunk_body_length rest acc body eof rest' :
  hunk_body rest acc = Ok (body, eof, rest') ->
  length rest' <= length rest /\
  (match rest with l :: _ => ends_hunk l = false | [] => False end -> length rest' < length rest).
Proof.
  revert acc; induction rest as [|l rest IH]; intros acc; simpl; [intros [= <- <- <-]; by split|].
  destruct (ends_hunk l); [intros [= <- <- <-]; split; [simpl; lia|done]|].
  destruct (is_eof_line l).
  - destruct (is_empty acc); [done|]. pose proof (skip_blank_length rest).
    destruct (skip_blank rest) as [|next rest''] eqn:E; [intros [= <- <- <-]; simpl; lia|].
    destruct (negb _ && negb _); [done|]. intros [= <- <- <-]. simpl in *. lia.
  - destruct (parse_hunk_line l); simpl; [|done]. intros H%IH. lia.
Qed.

Lemma parse_hunk_body_length rest context hunk rest' :
  parse_hunk_body rest context = Ok (hunk, rest') ->
  length rest' <= length rest /\
  (match rest with l :: _ => ends_hunk l = false | [] => False end -> length rest' < length rest).
Proof.
  unfold parse_hunk_body. intros ([[body eof] r] & E & H)%and_then_ok.
  destruct (is_empty body); [done|]. injection H as <- <-. by apply hunk_body_length in E.
Qed.

Lemma parse_hunk_length header rest hunk rest' :
  parse_hunk header rest = Ok (hunk, rest') -> length rest' <= length rest.
Proof.
  unfold parse_hunk. destruct (negb _); [done|]. intros (c & _ & Hb)%and_then_ok.
  apply (parse_hunk_body_length _ _ _ _ Hb).
Qed.

Lemma parse_hunks_total fuel rest hunks :
  length rest < fuel ->
  exists r, parse_hunks fuel rest hunks = Some r /\
    forall hs rest', r = Ok (hs, rest') -> length rest' <= length rest.
Proof.
  revert rest hunks; induction fuel as [|fuel IH]; intros rest hunks Hf; [lia|]. simpl.
  destruct rest as [|header rest]; [eexists; split; [reflexivity|]; intros ? ? [= <- <-]; done|].
  destruct (starts_with section_prefix header) eqn:Es;
    [eexists; split; [reflexivity|]; intros ? ? [= <- <-]; done|].
  set (step := if starts_with hunk_prefix header then _ else _).
  assert (Hstep : forall hunk r, step = Ok (hunk, r) -> length r <= length rest).
  { intros hunk r. subst step. destruct (starts_with hunk_prefix header) eqn:Eh; [apply parse_hunk_length|].
    intros [_ H]%parse_hunk_body_length. simpl in H. unfold ends_hunk in H. rewrite Es, Eh in H.
    specialize (H eq_refl). lia. }
  destruct step as [[hunk r]|e]; [|eexists; split; [reflexivity|done]].
  specialize (Hstep _ _ eq_refl). simpl in Hf. destruct (IH r (hunks ++ [hunk])) as (x & E & Hx); [lia|].
  exists x. split; [done|]. intros hs rest' ->. specialize (Hx _ _ eq_refl). simpl. lia.
Qed.

Lemma parse_add_body_length rest acc contents rest' :
  parse_add_body rest acc = Ok (contents, rest') -> length rest' <= length rest.
Proof.
  revert acc; induction rest as [|l rest IH]; intros acc; simpl; [by intros [= <- <-]|].
  case_match; [intros [= <- <-]; simpl; lia|]. case_match; [|done]. intros Hr%IH. lia.
Qed.

Lemma parse_move_to_length rest : length (snd (parse_move_to rest)) <= length rest.
Proof. unfold parse_move_to. repeat case_match; simpl in *; lia. Qed.

Lemma parse_operations_total fuel rest ops :
  length rest < fuel -> exists r, parse_operations fuel rest ops = Some r.
Proof.
  revert rest ops; induction fuel as [|fuel IH]; intros rest ops Hf; [lia|]. cbn [parse_operations].
  destruct rest as [|line rest]; [by eexists|]. simpl in Hf.
  destruct (strip_prefix add_prefix line).
  { destruct (parse_add_body rest []) as [[c r]|] eqn:E; [|by eexists].
    apply parse_add_body_length in E. apply IH. lia. }
  destruct (strip_prefix delete_prefix line); [apply IH; lia|].
  destruct (strip_prefix update_prefix line).
  { pose proof (parse_move_to_length rest) as Hm. destruct (parse_move_to rest) as [mv body]; cbn [snd] in Hm.
    destruct (parse_hunks_total (S (length body)) body []) as (r & E & Hr); [lia|]. rewrite E.
    destruct r as [[hs r]|]; [|by eexists]. specialize (Hr _ _ eq_refl).
    destruct (finish_update _ _ _); [apply IH; lia|by eexists]. }
  case_match; [apply IH; lia|by eexists].
Qed.

(** Parsing terminates on every text: the parser returns a list of operations or a parse error,
    and never runs out of the fuel that the number of lines gives it. *)
Theorem parse_total s : exists r : result (list PatchOperation) PatchError, parse s = Some r.
Proof.
  unfold parse, parse_lines. cbv zeta. destruct (negb _); [by eexists|]. destruct (negb _); [by eexists|].
  set (body := removelast _). destruct (parse_operations_total (S (length body)) body []) as [r E]; [lia|].
  rewrite E. destruct r as [[|]|]; by eexists.
Qed.

(** ** Shape of what is parsed *)

Definition chunk_ok (h : PatchChunk) : Prop := hunk_lines h <> [].

Definition operation_ok (o : PatchOperation) : Prop :=
  match o with
  | PatchAdd _ _ | PatchDelete _ => True
  | PatchUpdate _ hunks move_to =>
      hunks <> [] /\ Forall chunk_ok hunks /\ (has_change_marker hunks = true \/ move_to <> None)
  end.

Lemma parse_hunk_body_ok rest context hunk rest' :
  parse_hunk_body rest context = Ok (hunk, rest') -> chunk_ok hunk.
Proof.
  unfold parse_hunk_body. intros ([[body eof] r] & E & H)%and_then_ok.
  destruct body; [done|]. injection H as <- <-. done.
Qed.

Lemma parse_hunks_ok fuel rest hunks hs rest' :
  parse_hunks fuel rest hunks = Some (Ok (hs, rest')) -> Forall chunk_ok hunks -> Forall chunk_ok hs.
Proof.
  revert rest hunks; induction fuel as [|fuel IH]; intros rest hunks; simpl; [done|].
  destruct rest as [|header rest]; [by intros [= <- <-]|].
  destruct (starts_with section_prefix header); [by intros [= <- <-]|].
  destruct (if starts_with hunk_prefix header then _ else _) as [[hunk r]|] eqn:E; [|done].
  intros H Hh. apply IH in H; [done|]. apply Forall_app; split; [done|]. constructor; [|done].
  destruct (starts_with hunk_prefix header); [|by eapply parse_hunk_body_ok].
  unfold parse_hunk in E. destruct (negb _); [done|]. apply and_then_ok in E as (c & _ & E).
  by eapply parse_hunk_body_ok.
Qed.

Lemma finish_update_ok path hunks move_to o :
  finish_update path hunks move_to = Ok o -> Forall chunk_ok hunks -> operation_ok o.
Proof.
  unfold finish_update. destruct hunks as [|h hs]; [done|]. simpl.
  destruct (has_change_marker (h :: hs)) eqn:E, move_to; simpl; intros [= <-] Hh; simpl; auto.
Qed.

Lemma parse_operations_ok fuel rest ops r :
  parse_operations fuel rest ops = Some (Ok r) -> Forall operation_ok ops -> Forall operation_ok r.
Proof.
  revert rest ops; induction fuel as [|fuel IH]; intros rest ops; [done|]. cbn [parse_operations].
  destruct rest as [|line rest]; [by intros [= <-]|].
  assert (Hadd : forall o, operation_ok o -> Forall operation_ok ops -> Forall operation_ok (ops ++ [o])).
  { intros o Ho Hops. apply Forall_app; auto. }
  destruct (strip_prefix add_prefix line).
  { destruct (parse_add_body rest []) as [[c x]|]; [|done]. intros H Ho. eapply IH; eauto. by apply Hadd. }
  destruct (strip_prefix delete_prefix line); [intros H Ho; eapply IH; eauto; by apply Hadd|].
  destruct (strip_prefix update_prefix line).
  { destruct (parse_move_to rest) as [mv body].
    destruct (parse_hunks (S (length body)) body []) as [[[hs x]|]|] eqn:Eh; try done.
    destruct (finish_update _ _ _) eqn:Ef; [|done]. intros H Ho. eapply IH; eauto. apply Hadd; [|done].
    eapply finish_update_ok; eauto. eapply parse_hunks_ok; [exact Eh|done]. }
  case_match; [apply IH|done].
Qed.

(** A parsed patch has at least one operation; every file update has at least one hunk, every
    hunk has at least one line, and an update that does not move its file inserts or deletes
    something. *)
Theorem parse_well_formed s ops :
  parse s = Some (Ok ops) -> ops <> [] /\ Forall operation_ok ops.
Proof.
  unfold parse, parse_lines. cbv zeta. destruct (negb _); [done|]. destruct (negb _); [done|].
  set (body := removelast _). destruct (parse_operations (S (length body)) body []) as [[[|o os]|]|] eqn:E;
    [done| |done|done]. intros [= <-]. split; [done|]. by eapply parse_operations_ok.
Qed.

Definition demo_patch : text :=
  join [LF] [lit "*** Begin Patch"; lit "*** Update File: a.txt"; lit "@@"; lit " head"; lit "-old";
             lit "+new"; lit "*** End Patch"].

Lemma parse_well_formed_witness :
  Forall operation_ok
    [PatchUpdate (lit "a.txt") [{| change_context := None; is_end_of_file := false;
       hunk_lines := [PContext (lit "head"); PDelete (lit "old"); PInsert (lit "new")] |}] None].
Proof.
  assert (E : parse demo_patch = Some (Ok
    [PatchUpdate (lit "a.txt") [{| change_context := None; is_end_of_file := false;
       hunk_lines := [PContext (lit "head"); PDelete (lit "old"); PInsert (lit "new")] |}] None]))
    by (vm_compute; reflexivity).
  exact (proj2 (parse_well_formed demo_patch _ E)).
Defined.

(** * Printing and parsing patches

    The printer writes operations the way the tool contract documents them; the parser reads them
    back exactly. *)

(** ** Printer *)

(** The pieces between line feeds. *)
Fixpoint split_lf (s : text) : list text :=
  match s with
  | [] => [[]]
  | c :: s' =>
    if N.eqb c LF then [] :: split_lf s'
    else match split_lf s' with [] => [[c]] | l :: ls => (c :: l) :: ls end
  end.

Definition print_hunk_line (l : PatchLine) : text :=
  match l with
  | PContext c => lit " " ++ c
  | PInsert c => lit "+" ++ c
  | PDelete c => lit "-" ++ c
  end.

Definition print_hunk_header (context : option text) : text :=
  match context with None => hunk_prefix | Some c => lit "@@ " ++ c end.

Definition print_hunk (h : PatchChunk) : list text :=
  print_hunk_header (change_context h) :: map print_hunk_line (hunk_lines h) ++
  if is_end_of_file h then [eof_marker] else [].

Definition print_operation (o : PatchOperation) : list text :=
  match o with
  | PatchAdd path contents =>
      (add_prefix ++ path) :: if is_empty contents then [] else map (fun l => lit "+" ++ l) (split_lf contents)
  | PatchDelete path => [delete_prefix ++ path]
  | PatchUpdate path hunks move_to =>
      (update_prefix ++ path) ::
      match move_to with Some target => [move_prefix ++ target] | None => [] end ++
      flat_map print_hunk hunks
  end.

Definition print_patch_lines (ops : list PatchOperation) : list text :=
  begin_marker :: flat_map print_operation ops ++ [end_marker].

Definition print_patch (ops : list PatchOperation) : text := join [LF] (print_patch_lines ops).

(** ** Printable operations *)

Definition no_break (s : text) : Prop := Forall (fun c => c <> LF /\ c <> CR) s.

Definition line_printable (l : PatchLine) : Prop :=
  match l with PContext c | PDelete c | PInsert c => no_break c end.

(** The parser trims the end of a named context, and an empty one is no name at all. *)
Definition context_printable (context : option text) : Prop :=
  match context with None => True | Some c => no_break c /\ c <> [] /\ trim_end c = c end.

Definition chunk_printable (h : PatchChunk) : Prop :=
  hunk_lines h <> [] /\ Forall line_printable (hunk_lines h) /\ context_printable (change_context h).

Definition operation_printable (o : PatchOperation) : Prop :=
  match o with
  | PatchAdd path contents => no_break path /\ Forall (fun c => c <> CR) contents
  | PatchDelete path => no_break path
  | PatchUpdate path hunks move_to =>
      no_break path /\ match move_to with Some target => no_break target | None => True end /\
      hunks <> [] /\ Forall chunk_printable hunks /\
      (has_change_marker hunks = true \/ move_to <> None)
  end.

(** ** Lines *)

Lemma trim_end_head c s q : trim_end s = c :: q -> exists s', s = c :: s'.
Proof.
  intros E. destruct (trim_end_by_app is_whitespace s) as (t & Ht & _). unfold trim_end in E.
  rewrite E in Ht. by eexists.
Qed.

Lemma is_eof_line_head line : is_eof_line line = true -> exists s, line = eof_marker ++ s.
Proof.
  unfold is_eof_line. intros E%text_eqb_eq. destruct (trim_end_by_app is_whitespace line) as (t & Ht & _).
  unfold trim_end in E. rewrite E in Ht. by eexists.
Qed.

Lemma trim_end_nonblank c s : is_whitespace c = false -> is_empty (trim_end (c :: s)) = false.
Proof.
  intros Hc. destruct (trim_end_by_app is_whitespace (c :: s)) as (t & Ht & Hf).
  destruct (trim_end (c :: s)) as [|d q] eqn:E; [|done]. unfold trim_end in E. rewrite E in Ht. simpl in Ht.
  subst t. inversion Hf as [|? ? H]; subst. rewrite H in Hc. done.
Qed.

Lemma print_hunk_line_neutral l :
  ends_hunk (print_hunk_line l) = false /\ is_eof_line (print_hunk_line l) = false /\
  parse_hunk_line (print_hunk_line l) = Ok l.
Proof.
  assert (He : is_eof_line (print_hunk_line l) = false).
  { destruct (is_eof_line (print_hunk_line l)) eqn:E; [|done].
    apply is_eof_line_head in E as [s E]. by destruct l. }
  split; [|split; [done|by destruct l]]. unfold ends_hunk. by destruct l.
Qed.

(** What may follow a hunk in a printed patch: nothing, another hunk or another section. *)
Definition hunk_boundary (rest : list text) : Prop :=
  match rest with
  | [] => True
  | l :: _ => ends_hunk l = true /\ exists c s, l = c :: s /\ is_whitespace c = false
  end.

Lemma hunk_body_print ls acc rest :
  hunk_body (map print_hunk_line ls ++ rest) acc = hunk_body rest (acc ++ ls).
Proof.
  revert acc; induction ls as [|l ls IH]; intros acc; [by rewrite app_nil_r|].
  cbn [map app hunk_body]. destruct (print_hunk_line_neutral l) as (-> & -> & ->).
  cbn [and_then]. by rewrite IH, <- app_assoc.
Qed.

Lemma hunk_body_boundary rest acc : hunk_boundary rest -> hunk_body rest acc = Ok (acc, false, rest).
Proof. destruct rest as [|l rest]; [done|]. intros [E _]. cbn [hunk_body]. by rewrite E. Qed.

Lemma hunk_body_eof rest acc : acc <> [] -> hunk_boundary rest ->
  hunk_body (eof_marker :: rest) acc = Ok (acc, true, rest).
Proof.
  intros Ha Hb. cbn [hunk_body]. change (ends_hunk eof_marker) with false. change (is_eof_line eof_marker) with true.
  destruct acc; [done|]. cbn [is_empty].
  assert (Hs : skip_blank rest = rest).
  { destruct rest as [|l rest]; [done|]. destruct Hb as [_ (c & s & -> & Hc)]. cbn [skip_blank].
    by rewrite trim_end_nonblank. }
  rewrite Hs. destruct rest as [|l rest]; [done|]. destruct Hb as [E _]. unfold ends_hunk in E.
  destruct (starts_with hunk_prefix l), (starts_with section_prefix l); done.
Qed.

Lemma parse_hunk_header_print context :
  context_printable context -> parse_hunk_header (print_hunk_header context) = Ok context.
Proof.
  destruct context as [c|]; [|done]. intros (_ & Hne & Ht). unfold parse_hunk_header, print_hunk_header.
  assert (Htrim : trim_end (lit "@@ " ++ c) = lit "@@ " ++ c).
  { unfold trim_end in *. apply trim_end_by_id. intros x s E.
    destruct (exists_last Hne) as (c' & y & ->). rewrite app_assoc in E. apply app_inj_tail in E as [_ <-].
    destruct (is_whitespace y) eqn:Ey; [|done]. exfalso.
    unfold trim_end_by in Ht. rewrite rev_app_distr in Ht. simpl in Ht. rewrite Ey in Ht.
    destruct (trim_start_by_suffix is_whitespace (rev c')) as (p & Hp & _).
    apply (f_equal length) in Ht, Hp. rewrite ?length_rev, ?length_app in Ht, Hp. simpl in Ht. lia. }
  rewrite Htrim. destruct (text_eqb (lit "@@ " ++ c) hunk_prefix) eqn:E; [by apply text_eqb_eq in E|].
  by rewrite strip_prefix_app.
Qed.

Lemma print_hunk_header_head context : exists s, print_hunk_header context = hunk_prefix ++ s.
Proof. destruct context as [c|]; [by exists (lit " " ++ c)|by exists []]. Qed.

Lemma parse_hunk_print h rest : chunk_printable h -> hunk_boundary rest ->
  parse_hunk (print_hunk_header (change_context h))
    (map print_hunk_line (hunk_lines h) ++ (if is_end_of_file h then [eof_marker] else []) ++ rest) = Ok (h, rest).
Proof.
  intros (Hne & _ & Hc) Hb. unfold parse_hunk.
  destruct (print_hunk_header_head (change_context h)) as [s Es]. rewrite Es at 1. rewrite starts_with_app.
  cbn [negb]. rewrite parse_hunk_header_print by done. cbn [and_then]. unfold parse_hunk_body.
  rewrite hunk_body_print. cbn [app].
  destruct h as [ctx eof ls]. simpl in *. destruct eof; cbn [app].
  - rewrite hunk_body_eof by done. simpl. by destruct ls.
  - rewrite hunk_body_boundary by done. simpl. by destruct ls.
Qed.

(** ** Hunks and operations *)

Definition section_boundary (rest : list text) : Prop :=
  match rest with
  | [] => True
  | l :: _ => starts_with section_prefix l = true /\ is_eof_line l = false /\
              exists c s, l = c :: s /\ is_whitespace c = false
  end.

Lemma section_hunk_boundary rest : section_boundary rest -> hunk_boundary rest.
Proof.
  destruct rest as [|l rest]; [done|]. intros (Hs & He & Hc). split; [|done].
  unfold ends_hunk. rewrite Hs, He. apply orb_true_r.
Qed.

Lemma print_hunks_boundary hs rest : section_boundary rest -> hunk_boundary (flat_map print_hunk hs ++ rest).
Proof.
  intros Hb. destruct hs as [|h hs]; [by apply section_hunk_boundary|]. simpl.
  destruct (print_hunk_header_head (change_context h)) as [s ->]. split; [|by eexists _, _].
  unfold ends_hunk. by rewrite starts_with_app.
Qed.

Lemma parse_hunks_print fuel hs rest acc :
  Forall chunk_printable hs -> section_boundary rest -> length hs < fuel ->
  parse_hunks fuel (flat_map print_hunk hs ++ rest) acc = Some (Ok (acc ++ hs, rest)).
Proof.
  intros Hh Hb. revert acc hs Hh; induction fuel as [|fuel IH]; intros acc hs Hh Hf; [lia|].
  destruct hs as [|h hs]; cbn [flat_map app parse_hunks].
  - rewrite app_nil_r. destruct rest as [|l rest]; [done|]. destruct Hb as [-> _]. done.
  - inversion Hh as [|? ? Hh1 Hh2]; subst. unfold print_hunk. cbn [app].
    destruct (print_hunk_header_head (change_context h)) as [s Es].
    assert (Hsec : starts_with section_prefix (print_hunk_header (change_context h)) = false) by by rewrite Es.
    assert (Hhunk : starts_with hunk_prefix (print_hunk_header (change_context h)) = true)
      by (rewrite Es; apply starts_with_app).
    rewrite Hsec, Hhunk, <- !app_assoc.
    rewrite parse_hunk_print by (done || by apply print_hunks_boundary).
    rewrite IH; [by rewrite <- app_assoc|done|simpl in Hf; lia].
Qed.

Lemma join_split_lf s : join [LF] (split_lf s) = s.
Proof.
  induction s as [|c s IH]; [done|]. cbn [split_lf]. destruct (N.eqb_spec c LF) as [->|Hc].
  - destruct (split_lf s) as [|l ls] eqn:E; [by destruct s as [|d s]; simpl in E; repeat case_match|].
    change (LF :: join [LF] (l :: ls) = LF :: s). by rewrite IH.
  - destruct (split_lf s) as [|l [|l' ls]] eqn:E; simpl in *; by rewrite <- IH.
Qed.

Lemma parse_add_body_print ls acc rest : section_boundary rest ->
  parse_add_body (map (fun l => lit "+" ++ l) ls ++ rest) acc = Ok (acc ++ ls, rest).
Proof.
  intros Hb. revert acc; induction ls as [|l ls IH]; intros acc.
  - rewrite app_nil_r. destruct rest as [|x rest]; [done|]. destruct Hb as [E _]. simpl. by rewrite E.
  - cbn [map app parse_add_body]. rewrite strip_prefix_app. rewrite IH, <- app_assoc.
    by replace (starts_with section_prefix (lit "+" ++ l)) with false.
Qed.

Lemma not_eof_line p s : (forall q, p ++ s <> eof_marker ++ q) -> is_eof_line (p ++ s) = false.
Proof.
  intros H. destruct (is_eof_line (p ++ s)) eqn:E; [|done]. apply is_eof_line_head in E as [q E]. by destruct (H q).
Qed.

Lemma marked_line_boundary p s rest :
  starts_with section_prefix p = true -> (forall q, p ++ s <> eof_marker ++ q) ->
  section_boundary ((p ++ s) :: rest).
Proof.
  intros Hp Hq. apply starts_with_true in Hp as [r ->]. split; [|split].
  - rewrite <- app_assoc. apply starts_with_app.
  - by apply not_eof_line.
  - by eexists _, _.
Qed.

Lemma print_operations_boundary ops : section_boundary (flat_map print_operation ops).
Proof.
  destruct ops as [|[path c|path hs mv|path] ops]; cbn [flat_map print_operation app]; [done|..];
    apply marked_line_boundary; done.
Qed.

Lemma parse_move_to_print mv hs rest :
  hs <> [] ->
  parse_move_to (match mv with Some target => [move_prefix ++ target] | None => [] end
                 ++ flat_map print_hunk hs ++ rest) = (mv, flat_map print_hunk hs ++ rest).
Proof.
  intros Hh. destruct mv as [target|].
  - cbn [app parse_move_to]. by rewrite strip_prefix_app.
  - destruct hs as [|h hs]; [done|]. simpl. destruct (print_hunk_header_head (change_context h)) as [s ->]. done.
Qed.

Lemma flat_map_print_hunk_length hs : length hs <= length (flat_map print_hunk hs).
Proof. induction hs as [|h hs IH]; simpl; [done|]. rewrite length_app. lia. Qed.

Lemma print_operations_length ops : length ops <= length (flat_map print_operation ops).
Proof. induction ops as [|[] ops IH]; simpl; rewrite ?length_app; simpl; lia. Qed.

Lemma parse_operations_print fuel ops acc :
  Forall operation_printable ops -> length ops < fuel ->
  parse_operations fuel (flat_map print_operation ops) acc = Some (Ok (acc ++ ops)).
Proof.
  revert acc ops; induction fuel as [|fuel IH]; intros acc ops Ho Hf; [lia|].
  destruct ops as [|o ops]; [cbn; by rewrite app_nil_r|]. inversion Ho as [|? ? Ho1 Ho2]; subst.
  assert (Hnext : forall o', parse_operations fuel (flat_map print_operation ops) (acc ++ [o'])
            = Some (Ok (acc ++ o' :: ops))).
  { intros o'. rewrite IH; [by rewrite <- app_assoc|done|simpl in Hf; lia]. }
  pose proof (print_operations_boundary ops) as Hb.
  destruct o as [path c|path hs mv|path]; cbn [flat_map print_operation app parse_operations].
  - rewrite strip_prefix_app.
    assert (Ha : exists cs, join [LF] cs = c /\
      parse_add_body ((if is_empty c then [] else map (fun l => lit "+" ++ l) (split_lf c))
                      ++ flat_map print_operation ops) [] = Ok (cs, flat_map print_operation ops)).
    { destruct c as [|x c].
      - exists []. split; [done|]. apply (parse_add_body_print [] [] _ Hb).
      - exists (split_lf (x :: c)). split; [apply join_split_lf|]. cbn [is_empty]. by rewrite parse_add_body_print. }
    destruct Ha as (cs & <- & ->). apply Hnext.
  - replace (strip_prefix add_prefix (update_prefix ++ path)) with (@None text) by done.
    replace (strip_prefix delete_prefix (update_prefix ++ path)) with (@None text) by done.
    rewrite strip_prefix_app. destruct Ho1 as (_ & _ & Hh & Hp & Hm).
    rewrite <- !app_assoc, parse_move_to_print by done.
    rewrite parse_hunks_print; [|done|done|rewrite length_app; pose proof (flat_map_print_hunk_length hs); lia].
    cbn [app]. assert (Hf' : finish_update path hs mv = Ok (PatchUpdate path hs mv)).
    { unfold finish_update. destruct hs; [done|]. cbn [is_empty].
      destruct Hm as [->|Hm]; [done|]. destruct mv; [by rewrite andb_false_r|done]. }
    rewrite Hf'. apply Hnext.
  - replace (strip_prefix add_prefix (delete_prefix ++ path)) with (@None text) by done.
    rewrite strip_prefix_app. apply Hnext.
Qed.

(** ** Text *)

Lemma split_inclusive_line l s : no_break l -> split_inclusive (l ++ LF :: s) = (l ++ [LF]) :: split_inclusive s.
Proof.
  induction 1 as [|c l [Hc _] _ IH]; [done|]. cbn [app split_inclusive].
  destruct (N.eqb_spec c LF); [done|]. by rewrite IH.
Qed.

Lemma split_inclusive_last l : no_break l -> l <> [] -> split_inclusive l = [l].
Proof.
  induction 1 as [|c l [Hc _] Hl IH]; [done|]. intros _. cbn [split_inclusive].
  destruct (N.eqb_spec c LF); [done|]. destruct l as [|d l]; [done|]. by rewrite IH.
Qed.

Lemma no_break_last l c : no_break (l ++ [c]) -> c <> LF /\ c <> CR.
Proof. intros H. apply Forall_app in H as [_ H]. by inversion H. Qed.

Lemma strip_suffix_char_None c l : (forall l', l <> l' ++ [c]) -> strip_suffix [c] l = None.
Proof. destruct (strip_suffix [c] l) as [l'|] eqn:E; [|done]. apply strip_suffix_Some in E. intros H. by destruct (H l'). Qed.

Lemma strip_line_ending_line l : no_break l -> strip_line_ending (l ++ [LF]) = l /\ strip_line_ending l = l.
Proof.
  intros Hl. unfold strip_line_ending.
  rewrite (strip_suffix_char_None LF l) by (intros l' ->; by apply no_break_last in Hl as [??]).
  replace (strip_suffix [LF] (l ++ [LF])) with (Some l) by (symmetry; by apply strip_suffix_Some).
  rewrite (strip_suffix_char_None CR l) by (intros l' ->; by apply no_break_last in Hl as [??]). done.
Qed.

Lemma lines_join ls : Forall no_break ls -> ls <> [] -> List.last ls [] <> [] -> lines (join [LF] ls) = ls.
Proof.
  unfold lines. induction 1 as [|l ls Hl Hls IH]; [done|]. intros _ Hlast.
  destruct ls as [|l' ls].
  - cbn [join]. simpl in Hlast. rewrite split_inclusive_last by done. cbn [map].
    by rewrite (proj2 (strip_line_ending_line l Hl)).
  - change (join [LF] (l :: l' :: ls)) with (l ++ LF :: join [LF] (l' :: ls)).
    rewrite split_inclusive_line by done. cbn [map]. rewrite (proj1 (strip_line_ending_line l Hl)). f_equal.
    by apply IH.
Qed.

Lemma replace_crlf_id s : Forall (fun c => c <> CR) s -> replace_crlf s = s.
Proof.
  induction 1 as [|c s Hc Hs IH]; [done|]. destruct s as [|d s]; [done|].
  change (replace_crlf (c :: d :: s)) with
    (if N.eqb c CR && N.eqb d LF then LF :: replace_crlf s else c :: replace_crlf (d :: s)).
  destruct (N.eqb_spec c CR); [done|]. cbn [andb]. by rewrite IH.
Qed.

Lemma replace_cr_id s : Forall (fun c => c <> CR) s -> replace_cr s = s.
Proof.
  induction 1 as [|c s Hc Hs IH]; [done|]. unfold replace_cr in *. cbn [map].
  destruct (N.eqb_spec c CR); [done|]. by rewrite IH.
Qed.

Lemma no_break_no_cr s : no_break s -> Forall (fun c => c <> CR) s.
Proof. intros H. eapply Forall_impl; [exact H|]. by intros c [_ Hc]. Qed.

Lemma join_no_cr ls : Forall no_break ls -> Forall (fun c => c <> CR) (join [LF] ls).
Proof.
  induction 1 as [|l ls Hl Hls IH]; [constructor|]. destruct ls as [|l' ls]; [by apply no_break_no_cr|].
  change (join [LF] (l :: l' :: ls)) with (l ++ LF :: join [LF] (l' :: ls)).
  apply Forall_app; split; [by apply no_break_no_cr|]. by constructor.
Qed.

Lemma trim_id c s d s' : s = c :: s' -> (exists q, s = q ++ [d]) ->
  is_whitespace c = false -> is_whitespace d = false -> trim s = s.
Proof.
  intros E [q Eq] Hc Hd. unfold trim, trim_start, trim_end. rewrite trim_start_by_id.
  - apply trim_end_by_id. intros x q' E'. rewrite E' in Eq. apply app_inj_tail in Eq as [_ ->]. done.
  - intros x q' E'. rewrite E in E'. by injection E' as <- <-.
Qed.

Lemma find_sub_line l s : no_break l -> find_sub [LF] (l ++ LF :: s) = Some (length l).
Proof.
  induction 1 as [|c l [Hc _] Hl IH]; [done|]. cbn [app find_sub length].
  replace (starts_with [LF] (c :: l ++ LF :: s)) with false.
  - by rewrite IH.
  - unfold starts_with. cbn [strip_prefix]. by destruct (N.eqb_spec LF c) as [<-|].
Qed.

Lemma rposition_last {A} (f : A -> bool) l x : f x = true -> rposition f (l ++ [x]) = Some (length l).
Proof. intros Hx. induction l as [|y l IH]; cbn [app rposition length]; [by rewrite Hx|by rewrite IH]. Qed.

Ltac literal_no_break := repeat (constructor; [split; discriminate|]); constructor.

(** What [print_patch] prints is normal: no fence, no heredoc, no carriage return, nothing to trim. *)
Lemma print_lines_normal body :
  Forall no_break body ->
  let ls := begin_marker :: body ++ [end_marker] in
  normalize_patch_text (join [LF] ls) = join [LF] ls /\ lines (join [LF] ls) = ls.
Proof.
  intros Hbody. cbv zeta.
  assert (Hls : Forall no_break (begin_marker :: body ++ [end_marker])).
  { constructor; [|apply Forall_app; split; [done|constructor; [|constructor]]];
      literal_no_break. }
  assert (Hlast : List.last (begin_marker :: body ++ [end_marker]) [] = end_marker)
    by (rewrite app_comm_cons; apply last_last).
  set (ls := begin_marker :: body ++ [end_marker]) in *.
  assert (Hlines : lines (join [LF] ls) = ls) by (apply lines_join; [done|done|by rewrite Hlast]).
  split; [|done].
  assert (Hshape : exists mid, join [LF] ls = begin_marker ++ LF :: mid /\ exists q, mid = q ++ end_marker).
  { subst ls. clear. destruct body as [|b body].
    - exists end_marker. split; [done|]. by exists [].
    - exists (join [LF] ((b :: body) ++ [end_marker])). split; [done|]. revert b. induction body as [|b' body IH]; intros b.
      + exists (b ++ [LF]). by rewrite <- app_assoc.
      + destruct (IH b') as [q Hq]. exists (b ++ LF :: q).
        change (join [LF] ((b :: b' :: body) ++ [end_marker])) with (b ++ LF :: join [LF] ((b' :: body) ++ [end_marker])).
        by rewrite Hq, <- app_assoc. }
  destruct Hshape as (mid & Hj & q & Hq).
  assert (Htrim : trim (join [LF] ls) = join [LF] ls).
  { eapply (trim_id 42 _ 104); [by rewrite Hj|..|done|done]. rewrite Hj, Hq.
    exists (begin_marker ++ LF :: q ++ lit "*** End Patc"). rewrite <- !app_assoc. cbn [app]. by rewrite <- !app_assoc. }
  unfold normalize_patch_text. rewrite replace_crlf_id, replace_cr_id, Htrim by by apply join_no_cr.
  assert (Hfence : strip_code_fence (join [LF] ls) = join [LF] ls).
  { unfold strip_code_fence. rewrite Hlines. subst ls. by rewrite andb_false_r. }
  rewrite Hfence, Htrim.
  assert (Hheredoc : strip_heredoc_wrapper (join [LF] ls) = join [LF] ls).
  { unfold strip_heredoc_wrapper. rewrite Htrim, Hj. rewrite find_sub_line by literal_no_break.
    rewrite take_app_length. done. }
  rewrite Hheredoc, Htrim.
  assert (Hmarked : extract_marked_patch (join [LF] ls) = join [LF] ls).
  { unfold extract_marked_patch. rewrite Hlines. subst ls.
    change (position (fun l => text_eqb (trim l) begin_marker) (begin_marker :: body ++ [end_marker])) with (Some 0).
    rewrite app_comm_cons, rposition_last by done. cbn [Nat.leb]. rewrite Nat.sub_0_r. cbn [skipn].
    f_equal. apply take_ge. rewrite length_app. simpl. lia. }
  by rewrite Hmarked.
Qed.

Lemma split_lf_no_break s : Forall (fun c => c <> CR) s -> Forall no_break (split_lf s).
Proof.
  induction 1 as [|c s Hc Hs IH]; [by repeat constructor|]. cbn [split_lf].
  destruct (N.eqb_spec c LF) as [|Hlf]; [constructor; [constructor|done]|].
  destruct (split_lf s) as [|l ls]; [by repeat constructor|].
  inversion IH; subst. constructor; [by constructor|done].
Qed.

Lemma lit_line_no_break p s : no_break (lit p) -> no_break s -> no_break (lit p ++ s).
Proof. intros. by apply Forall_app. Qed.

Lemma print_operation_no_break o : operation_printable o -> Forall no_break (print_operation o).
Proof.
  destruct o as [path c|path hs mv|path]; cbn [print_operation operation_printable].
  - intros [Hp Hc]. constructor; [apply lit_line_no_break; [literal_no_break|done]|].
    destruct (is_empty c); [done|]. apply Forall_map.
    eapply Forall_impl; [by apply split_lf_no_break|]. intros l Hl. apply lit_line_no_break; [literal_no_break|done].
  - intros (Hp & Hm & _ & Hh & _). constructor; [apply lit_line_no_break; [literal_no_break|done]|].
    apply Forall_app; split.
    + destruct mv; [|done]. constructor; [apply lit_line_no_break; [literal_no_break|done]|done].
    + induction Hh as [|h hs (_ & Hls & Hc) _ IH]; [done|]. simpl. constructor; [|rewrite <- app_assoc; apply Forall_app; split; [|apply Forall_app; split; [|done]]].
      * destruct (change_context h) as [ctx|]; [|literal_no_break]. destruct Hc as [Hc _].
        apply lit_line_no_break; [literal_no_break|done].
      * apply Forall_map. eapply Forall_impl; [exact Hls|]. intros [] Hl; apply lit_line_no_break; (literal_no_break || done).
      * destruct (is_end_of_file h); [|done]. constructor; [literal_no_break|done].
  - intros Hp. constructor; [apply lit_line_no_break; [literal_no_break|done]|done].
Qed.

(** C22. Round trip: the parser reads back exactly the operations of a printed patch, for every
    non-empty list of operations whose paths and lines hold no line break, whose named contexts
    are trimmed, and whose updates have non-empty hunks and change or move their file. *)
Theorem parse_print_roundtrip ops :
  ops <> [] -> Forall operation_printable ops -> parse (print_patch ops) = Some (Ok ops).
Proof.
  intros Hne Ho. unfold parse, print_patch, print_patch_lines.
  assert (Hbody : Forall no_break (flat_map print_operation ops)).
  { clear Hne. induction Ho; [done|]. simpl. apply Forall_app; split; [by apply print_operation_no_break|done]. }
  destruct (print_lines_normal _ Hbody) as [-> ->]. unfold parse_lines. rewrite text_eqb_refl. cbn [negb tail].
  rewrite app_comm_cons, last_last, text_eqb_refl. cbn [negb].
  rewrite removelast_last, parse_operations_print by
    (done || (pose proof (print_operations_length ops); lia)).
  by destruct ops.
Qed.

Definition demo_operations : list PatchOperation :=
  [PatchAdd (lit "new.txt") (lit "a" ++ [LF; LF] ++ lit "b");
   PatchUpdate (lit "old.txt")
     [{| change_context := Some (lit "fn main"); is_end_of_file := false;
         hunk_lines := [PContext (lit "x"); PDelete []; PInsert (lit "y")] |};
      {| change_context := None; is_end_of_file := true; hunk_lines := [PInsert (lit "*** z")] |}]
     (Some (lit "moved.txt"));
   PatchDelete (lit "gone.txt")].

Lemma parse_print_roundtrip_witness : parse (print_patch demo_operations) = Some (Ok demo_operations).
Proof.
  apply parse_print_roundtrip; [discriminate|].
  repeat (constructor || discriminate || reflexivity); simpl; try discriminate.
Defined.
