(* ===== verification/PatchApplyFacts.v ===== *)
(** * Correctness of patch application *)
From S2P Require Import Prelude.
From S2P Require Import Text.
From S2P Require Import PatchParse.
From S2P Require Import PatchApply.

(** ** Searching *)

Lemma matches_with_length compare lines pattern :
  matches_with compare lines pattern = true -> length pattern <= length lines.
Proof.
  revert lines; induction pattern as [|p ps IH]; intros [|l ls]; simpl; try lia; try done.
  intros [_ H]%andb_true_iff. apply IH in H. lia.
Qed.

Lemma seek_with_Some compare lines pattern lo hi i :
  seek_with compare lines pattern lo hi = Some i ->
  lo <= i <= hi /\ matches_with compare (skipn i lines) pattern = true /\
  forall j, lo <= j < i -> matches_with compare (skipn j lines) pattern = false.
Proof.
  unfold seek_with. intros H. pose proof H as [Hin Hm]%List.find_some. apply in_seq in Hin.
  split; [lia|]. split; [done|]. intros j Hj.
  assert (Hsplit : seq lo (hi + 1 - lo) = seq lo (j - lo) ++ j :: seq (S j) (hi + 1 - S j)).
  { replace (hi + 1 - lo) with ((j - lo) + S (hi + 1 - S j)) by lia. rewrite seq_app.
    f_equal. simpl. f_equal; [lia|]. f_equal. lia. }
  rewrite Hsplit in H. destruct (matches_with compare (skipn j lines) pattern) eqn:Ej; [|done]. exfalso.
  assert (Hf : forall l1 l2, List.find (fun index => matches_with compare (skipn index lines) pattern) (l1 ++ j :: l2) = Some i ->
    Forall (fun x => x < i) l1 -> i <= j).
  { induction l1 as [|x l1 IH]; intros l2; simpl; [rewrite Ej; intros [= ->]; done|].
    intros Hx Hl. inversion Hl; subst. case_match; [injection Hx as ->; lia|]. by eapply IH. }
  apply Hf in H; [lia|]. apply List.Forall_forall. intros x Hx%in_seq. lia.
Qed.

Lemma seek_with_None compare lines pattern lo hi :
  seek_with compare lines pattern lo hi = None <->
  forall j, lo <= j <= hi -> matches_with compare (skipn j lines) pattern = false.
Proof.
  unfold seek_with. split.
  - intros H j Hj. apply (List.find_none _ _ H). apply in_seq. lia.
  - intros H. destruct (List.find _ _) eqn:E; [|done]. apply List.find_some in E as [Hin Hm].
    apply in_seq in Hin. rewrite H in Hm; [done|lia].
Qed.

Lemma first_some_Some {A B} (f : A -> option B) l y :
  first_some f l = Some y -> exists l1 x l2, l = l1 ++ x :: l2 /\ f x = Some y /\ Forall (fun z => f z = None) l1.
Proof.
  induction l as [|x l IH]; simpl; [done|]. destruct (f x) eqn:E.
  - intros [= ->]. by exists [], x, l.
  - intros H. destruct (IH H) as (l1 & z & l2 & -> & Hz & Hf). exists (x :: l1), z, l2. by repeat constructor.
Qed.

Lemma first_some_None {A B} (f : A -> option B) l : first_some f l = None <-> Forall (fun z => f z = None) l.
Proof.
  induction l as [|x l IH]; simpl; [by split|]. destruct (f x) eqn:E.
  - split; [done|]. inversion 1; congruence.
  - rewrite IH. split; [by constructor|by inversion 1].
Qed.

(** The positions a search may return. *)
Definition in_window (lines pattern : list text) (start_index : nat) (eof : bool) (j : nat) : Prop :=
  start_index <= j /\ j + length pattern <= length lines /\
  (eof = true -> j + length pattern = length lines).

Lemma seek_sequence_window lines pattern start eof j :
  pattern <> [] ->
  in_window lines pattern start eof j <->
  length pattern <= length lines /\
  (if eof then Nat.max (length lines - length pattern) start
   else Nat.min start (length lines - length pattern + 1)) <= j <= length lines - length pattern.
Proof.
  intros Hp. unfold in_window. assert (0 < length pattern) by (destruct pattern; simpl; [done|lia]).
  destruct eof; split; intros H0; repeat split; try lia; intros; lia.
Qed.

(** A search returns the first position of the most exact comparison that matches anywhere in
    the allowed window (at or after the cursor, and only the tail for an end-of-file hunk): no
    stricter comparison matches in the window and the same one matches nowhere earlier; it fails
    exactly when no comparison matches. *)
Theorem seek_sequence_spec lines pattern start eof :
  pattern <> [] ->
  match seek_sequence lines pattern start eof with
  | Some i =>
    in_window lines pattern start eof i /\
    exists stricter compare laxer, comparators = stricter ++ compare :: laxer /\
      matches_with compare (skipn i lines) pattern = true /\
      (forall j, in_window lines pattern start eof j -> j < i ->
         matches_with compare (skipn j lines) pattern = false) /\
      (forall s j, s ∈ stricter -> in_window lines pattern start eof j ->
         matches_with s (skipn j lines) pattern = false)
  | None =>
    forall c j, c ∈ comparators -> in_window lines pattern start eof j ->
      matches_with c (skipn j lines) pattern = false
  end.
Proof.
  intros Hp. unfold seek_sequence. destruct (is_empty pattern) eqn:He; [by destruct pattern|]. cbv zeta.
  destruct (Nat.ltb_spec (length lines) (length pattern)) as [Hlt|Hle].
  { intros c j _ (_ & Hj & _). lia. }
  set (lo := if eof then _ else _). set (hi := length lines - length pattern).
  assert (Hw : forall j, in_window lines pattern start eof j <-> lo <= j <= hi).
  { intros j. rewrite seek_sequence_window by done. subst lo hi. tauto. }
  destruct (Nat.ltb_spec hi lo) as [Hlt|Hlo].
  { intros c j _ Hj%Hw. lia. }
  destruct (first_some _ comparators) as [i|] eqn:E.
  - apply first_some_Some in E as (l1 & c & l2 & El & Hc & Hf). apply seek_with_Some in Hc as (Hi & Hm & Hbefore).
    split; [by apply Hw|]. exists l1, c, l2. split; [done|]. split; [done|]. split.
    + intros j Hj%Hw Hji. apply Hbefore. lia.
    + intros s j Hs Hj%Hw. rewrite Forall_forall in Hf. by apply (proj1 (seek_with_None _ _ _ _ _) (Hf s Hs)).
  - apply first_some_None in E. intros c j Hc Hj%Hw. rewrite Forall_forall in E.
    by apply (proj1 (seek_with_None _ _ _ _ _) (E c Hc)).
Qed.

Lemma seek_sequence_spec_witness :
  in_window [lit "a "; lit "b"; lit "a"] [lit "a"] 0 false 2.
Proof.
  exact (proj1 (seek_sequence_spec [lit "a "; lit "b"; lit "a"] [lit "a"] 0 false ltac:(discriminate))).
Defined.

Lemma seek_sequence_bounds lines pattern start eof i :
  seek_sequence lines pattern start eof = Some i -> start <= length lines ->
  start <= i /\ i + length pattern <= length lines.
Proof.
  intros H Hs. destruct pattern as [|p ps].
  - unfold seek_sequence in H. simpl in H. injection H as <-. simpl. lia.
  - assert (Hw : in_window lines (p :: ps) start eof i).
    { unfold seek_sequence in H. cbn [is_empty] in H. cbv zeta in H.
      destruct (Nat.ltb_spec (length lines) (length (p :: ps))); [done|].
      match type of H with (if ?b then _ else _) = _ => destruct b eqn:Eb end; [done|]. apply Nat.ltb_ge in Eb.
      apply first_some_Some in H as (? & ? & ? & _ & Hc & _). apply seek_with_Some in Hc as (Hi & _).
      by apply seek_sequence_window. }
    destruct Hw as (? & ? & _). lia.
Qed.

(** ** Replacements *)

Lemma changed_lines_content source start deleted count index fallback ins :
  map content (changed_lines_from source start deleted count index fallback ins) = ins.
Proof. revert index; induction ins as [|c ins IH]; intros index; simpl; [done|by rewrite IH]. Qed.

Lemma append_changed_lines_content output source start deleted ins :
  map content (append_changed_lines output source start deleted ins) = map content output ++ ins.
Proof. unfold append_changed_lines. by rewrite map_app, changed_lines_content. Qed.

(** The cursors stay inside the matched segments, so no index leaves the source. *)
Definition cursors_ok (old_len new_len : nat) (s : ReplacementState) : Prop :=
  deleted s <= old_cursor s <= old_len /\ new_cursor s <= new_len.

Lemma replacement_step_total source start old_len new_len s line :
  start + old_len <= length source -> cursors_ok old_len new_len s ->
  exists s', replacement_step source start old_len new_len (Some s) line = Some s' /\ cursors_ok old_len new_len s'.
Proof.
  intros Hb (Ho & Hn). unfold replacement_step, cursors_ok. destruct line as [c|c|c].
  - destruct (Nat.ltb_spec (old_cursor s) old_len), (Nat.ltb_spec (new_cursor s) new_len); simpl;
      try (eexists; split; [reflexivity|simpl; lia]).
    destruct (lookup_lt_is_Some_2 source (start + old_cursor s)) as [l ->]; [lia|].
    eexists; split; [reflexivity|simpl; lia].
  - destruct (Nat.ltb_spec (old_cursor s) old_len); eexists; (split; [reflexivity|simpl; lia]).
  - destruct (Nat.ltb_spec (new_cursor s) new_len); eexists; (split; [reflexivity|simpl; lia]).
Qed.

Lemma replacement_fold_total source start old_len new_len ls s :
  start + old_len <= length source -> cursors_ok old_len new_len s ->
  exists s', fold_left (replacement_step source start old_len new_len) ls (Some s) = Some s' /\
             cursors_ok old_len new_len s'.
Proof.
  intros Hb. revert s; induction ls as [|l ls IH]; intros s Hs; [by exists s|]. cbn [fold_left].
  destruct (replacement_step_total source start old_len new_len s l Hb Hs) as (s' & -> & Hs'). by apply IH.
Qed.

Lemma replacement_lines_total source start old_len new_len hunk :
  start + old_len <= length source -> exists r, replacement_lines source start old_len new_len hunk = Some r.
Proof.
  intros Hb. unfold replacement_lines.
  destruct (replacement_fold_total source start old_len new_len (hunk_lines hunk) replacement_init Hb) as (s & -> & _);
    [unfold cursors_ok; simpl; lia|by eexists].
Qed.

(** ** Ordered replacements *)

Definition rp_end (r : Replacement) : nat := rp_start r + rp_old_len r.

(** The replacements, in order, touch disjoint ranges from [i] on. *)
Fixpoint chain (i : nat) (rs : list Replacement) : Prop :=
  match rs with
  | [] => True
  | r :: rs' => i <= rp_start r /\ chain (rp_end r) rs'
  end.

Lemma chain_le i j rs : i <= j -> chain j rs -> chain i rs.
Proof. destruct rs; simpl; [done|]. intros ? []. split; [lia|done]. Qed.

(** Left to right: copy up to the next range, replace it, go on. *)
Fixpoint merge (source : list TextLine) (i : nat) (rs : list Replacement) : list TextLine :=
  match rs with
  | [] => skipn i source
  | r :: rs' => firstn (rp_start r - i) (skipn i source) ++ rp_lines r ++ merge source (rp_end r) rs'
  end.

Lemma firstn_split_skipn {A} (l : list A) i j : i <= j -> firstn i l ++ firstn (j - i) (skipn i l) = firstn j l.
Proof.
  intros Hij. rewrite firstn_skipn_comm. replace (i + (j - i)) with j by lia.
  rewrite <- (firstn_skipn i (firstn j l)) at 2. rewrite firstn_firstn. by replace (Nat.min i j) with i by lia.
Qed.

Lemma splice_all_merge source rs i :
  chain i rs -> Forall (fun r => rp_end r <= length source) rs ->
  splice_all rs source = Some (firstn i source ++ merge source i rs).
Proof.
  revert i; induction rs as [|r rs IH]; intros i Hc Hb.
  - unfold splice_all. simpl. by rewrite firstn_skipn.
  - inversion Hb as [|? ? Hr Hb']; subst. destruct Hc as [Hi Hc].
    unfold splice_all in *. cbn [rev]. rewrite fold_left_app, (IH (rp_end r)) by done. cbn [fold_left].
    unfold splice. unfold rp_end in *.
    destruct (Nat.leb_spec (rp_start r + rp_old_len r)
      (length (firstn (rp_start r + rp_old_len r) source ++ merge source (rp_start r + rp_old_len r) rs))) as [_|Hl].
    2:{ rewrite length_app, length_firstn in Hl. lia. }
    f_equal. cbn [merge]. rewrite (app_assoc (firstn i source)), firstn_split_skipn by done. unfold rp_end.
    rewrite firstn_app, length_firstn, firstn_firstn.
    replace (Nat.min (rp_start r) (rp_start r + rp_old_len r)) with (rp_start r) by lia.
    replace (rp_start r - Nat.min (rp_start r + rp_old_len r) (length source)) with 0 by lia.
    rewrite skipn_app, length_firstn, skipn_all2 by (rewrite length_firstn; lia).
    replace (rp_start r + rp_old_len r - Nat.min (rp_start r + rp_old_len r) (length source)) with 0 by lia.
    simpl. by rewrite app_nil_r.
Qed.

(** What the loop over the hunks collects: a hunk without old lines is appended after the last
    line, the others follow each other. *)
Fixpoint planned (n i : nat) (rs : list Replacement) : Prop :=
  match rs with
  | [] => True
  | r :: rs' =>
    rp_end r <= n /\
    ((rp_start r = n /\ rp_old_len r = 0 /\ planned n i rs') \/ (i <= rp_start r /\ planned n (rp_end r) rs'))
  end.

Lemma planned_le n i j rs : i <= j -> planned n j rs -> planned n i rs.
Proof.
  intros Hij. induction rs as [|r rs IH]; simpl; [done|]. intros [Hr [(? & ? & H)|[? H]]]; (split; [done|]).
  - left. auto.
  - right. split; [lia|done].
Qed.

Lemma planned_Forall n i rs : planned n i rs -> Forall (fun r => rp_end r <= n) rs.
Proof. revert i; induction rs as [|r rs IH]; intros i; [constructor|]. intros [Hr [(_ & _ & H)|[_ H]]]; eauto. Qed.

Lemma insert_by_start_Forall P r rs : P r -> Forall P rs -> Forall P (insert_by_start r rs).
Proof. intros Hr. induction 1; simpl; [by repeat constructor|]. case_match; by repeat constructor. Qed.

Lemma sort_by_start_Forall P rs : Forall P rs -> Forall P (sort_by_start rs).
Proof. induction 1; simpl; [constructor|by apply insert_by_start_Forall]. Qed.

Lemma insert_by_start_head r rs : chain (rp_start r) rs -> insert_by_start r rs = r :: rs.
Proof.
  destruct rs as [|x rs]; [done|]. intros [H _]. simpl.
  by destruct (Nat.leb_spec (rp_start r) (rp_start x)); [|lia].
Qed.

Lemma insert_by_start_last n i r rs :
  i <= n -> rp_start r = n -> rp_old_len r = 0 -> Forall (fun x => rp_end x <= n) rs -> chain i rs ->
  chain i (insert_by_start r rs).
Proof.
  intros Hi Hr Hl. revert i Hi; induction rs as [|x rs IH]; intros i Hi Hf Hc; simpl; [split; [lia|done]|].
  inversion Hf as [|? ? Hx Hf']; subst. destruct Hc as [H1 H2].
  destruct (Nat.leb_spec (rp_start r) (rp_start x)); simpl; (split; [lia|]).
  - split; [unfold rp_end in *; lia|done].
  - apply IH; unfold rp_end in *; lia || done.
Qed.

Lemma sort_by_start_chain n i rs : i <= n -> planned n i rs -> chain i (sort_by_start rs).
Proof.
  revert i; induction rs as [|r rs IH]; intros i Hi; [done|].
  intros [Hr [(Hs & Hl & H)|[H1 H2]]]; cbn [sort_by_start].
  - apply (insert_by_start_last n); try done; [|by apply IH].
    eapply sort_by_start_Forall, planned_Forall, H.
  - specialize (IH (rp_end r) Hr H2). rewrite insert_by_start_head.
    + by split.
    + eapply chain_le; [|exact IH]. unfold rp_end. lia.
Qed.

(** ** The hunk loop *)

Lemma locate_change_context_bounds lines hunk cursor n diag i :
  locate_change_context_start lines hunk cursor n diag = Ok i -> cursor <= length lines ->
  cursor <= i <= length lines.
Proof.
  unfold locate_change_context_start. intros H Hc. destruct (change_context hunk); [|by injection H as <-].
  destruct (seek_sequence lines _ cursor false) as [f|] eqn:E; [|done]. injection H as <-.
  apply seek_sequence_bounds in E as [? Hb]; [|done]. simpl in Hb. lia.
Qed.

Lemma locate_hunk_bounds lines hunk cursor olds news n t d start old_len repl :
  locate_hunk_replacement lines hunk cursor olds news n t d = Ok (start, old_len, repl) ->
  cursor <= length lines -> cursor <= start /\ start + old_len <= length lines.
Proof.
  unfold locate_hunk_replacement. intros H Hc. cbv zeta in H.
  destruct (seek_sequence lines olds cursor (is_end_of_file hunk)) as [i|] eqn:E.
  - injection H as <- <- <-. by apply seek_sequence_bounds in E.
  - destruct (last_is_empty_line olds); [|done].
    destruct (seek_sequence lines (removelast olds) cursor (is_end_of_file hunk)) as [j|] eqn:E2; [|done].
    injection H as <- <- <-. by apply seek_sequence_bounds in E2.
Qed.

Lemma planned_app n i rs r :
  planned n i rs ->
  rp_end r <= n -> (rp_start r = n /\ rp_old_len r = 0) ->
  planned n i (rs ++ [r]).
Proof.
  intros Hp Hr Hn. revert i Hp; induction rs as [|x rs IH]; intros i Hp; simpl; [split; [done|left; tauto]|].
  destruct Hp as [Hx [(? & ? & H)|[? H]]]; (split; [done|]); [left|right]; eauto.
Qed.

(** * The comparators and the diagnostics of a failed hunk *)

Definition laxer (c d : text -> text -> bool) : Prop := forall a b, c a b = true -> d a b = true.

Lemma laxer_refl c : laxer c c.
Proof. by intros a b. Qed.
Lemma laxer_trans c d e : laxer c d -> laxer d e -> laxer c e.
Proof. intros H1 H2 a b H. by apply H2, H1. Qed.

Lemma exact_trailing : laxer exact_line_match trailing_whitespace_line_match.
Proof. intros a b H%text_eqb_eq. apply text_eqb_eq. by subst. Qed.

Lemma trailing_surrounding : laxer trailing_whitespace_line_match surrounding_whitespace_line_match.
Proof.
  intros a b H%text_eqb_eq. apply text_eqb_eq. unfold trim, trim_end, trim_start in *. by rewrite !trim_comm, H.
Qed.

Lemma surrounding_unicode : laxer surrounding_whitespace_line_match normalized_unicode_line_match.
Proof. intros a b H%text_eqb_eq. apply text_eqb_eq. unfold normalize. by rewrite H. Qed.

#[export] Hint Resolve laxer_refl exact_trailing trailing_surrounding surrounding_unicode : laxer.
#[export] Hint Extern 2 (laxer _ _) => eapply laxer_trans : laxer.

Lemma matches_laxer c d lines pattern :
  laxer c d -> matches_with c lines pattern = true -> matches_with d lines pattern = true.
Proof.
  intros H. revert lines; induction pattern as [|p ps IH]; intros [|l ls]; simpl; try done.
  rewrite !andb_true_iff. intros [? ?]. split; [by apply H|by apply IH].
Qed.

(** The four comparisons form a hierarchy (equal, equal up to trailing white space, up to
    surrounding white space, up to the typographic normalisation): lines that match a pattern
    under one comparison match it under every later one, so trying the comparisons in order
    prefers the most exact match. *)
Theorem comparators_hierarchy i j c d lines pattern :
  comparators !! i = Some c -> comparators !! j = Some d -> i <= j ->
  matches_with c lines pattern = true -> matches_with d lines pattern = true.
Proof.
  intros Hi Hj Hij. apply matches_laxer.
  destruct i as [|[|[|[|i]]]]; cbn in Hi; try done; destruct j as [|[|[|[|j]]]]; cbn in Hj; try done; try lia;
    injection Hi as <-; injection Hj as <-; eauto 6 with laxer.
Qed.

Lemma comparators_hierarchy_witness :
  matches_with normalized_unicode_line_match [lit "a  "; lit "b"] [lit "a"] = true.
Proof.
  exact (comparators_hierarchy 1 3 trailing_whitespace_line_match normalized_unicode_line_match
           [lit "a  "; lit "b"] [lit "a"] eq_refl eq_refl ltac:(lia) eq_refl).
Defined.

(** ** Candidate lines *)

Section Candidates.
Context (lines : list text) (anchor : text) (anchor_offset cursor : nat).

(** What every collected start line satisfies: it is not before the cursor and a line of the file
    at the anchor's offset from it matches the anchor. *)
Definition candidate_ok (c : nat) : Prop :=
  cursor <= c /\ exists actual compare, lines !! (c + anchor_offset) = Some actual /\
    compare ∈ comparators /\ compare actual anchor = true.

Definition candidates_ok (cs : list nat) : Prop :=
  Forall candidate_ok cs /\ NoDup cs.

Lemma scan_candidates_ok compare k rest cs :
  compare ∈ comparators -> rest = skipn k lines -> candidates_ok cs -> length cs < MAX_PATCH_FAILURE_CANDIDATE_LINES ->
  match scan_candidates compare anchor anchor_offset cursor k rest cs with
  | inl full => candidates_ok full /\ length full = MAX_PATCH_FAILURE_CANDIDATE_LINES
  | inr more => candidates_ok more /\ length more < MAX_PATCH_FAILURE_CANDIDATE_LINES
  end.
Proof.
  intros Hc. revert k cs; induction rest as [|actual rest IH]; intros k cs Hr Hok Hl; cbn [scan_candidates]; [done|].
  assert (Hk : lines !! k = Some actual).
  { assert (E : skipn k lines !! 0 = Some actual) by by rewrite <- Hr. rewrite lookup_drop, Nat.add_0_r in E. done. }
  assert (Hr' : rest = skipn (S k) lines).
  { replace (S k) with (k + 1) by lia. rewrite <- drop_drop, <- Hr. done. }
  destruct (compare actual anchor) eqn:Em; cbn [negb]; [|by apply IH].
  destruct (Nat.ltb_spec k anchor_offset); [by apply IH|]. cbv zeta.
  destruct (Nat.ltb_spec (k - anchor_offset) cursor); cbn [orb]; [by apply IH|].
  destruct (existsb _ cs) eqn:Ee; [by apply IH|].
  assert (Hok' : candidates_ok (cs ++ [k - anchor_offset])).
  { destruct Hok as [Hf Hn]. split.
    - apply Forall_app. split; [done|]. constructor; [|constructor]. split; [done|]. exists actual, compare.
      by replace (k - anchor_offset + anchor_offset) with k by lia.
    - apply NoDup_app. split; [done|]. split; [|apply NoDup_singleton]. intros x Hx ->%list_elem_of_singleton.
      apply not_true_iff_false in Ee. apply Ee, existsb_exists. exists (k - anchor_offset).
      split; [by apply list_elem_of_In|by apply Nat.eqb_eq]. }
  destruct (Nat.eqb_spec (length (cs ++ [k - anchor_offset])) MAX_PATCH_FAILURE_CANDIDATE_LINES) as [E|E]; [done|].
  apply IH; [done..|]. rewrite length_app in *. simpl in *. lia.
Qed.

Lemma scan_comparators_ok comps start cs :
  comps ⊆ comparators -> candidates_ok cs -> length cs < MAX_PATCH_FAILURE_CANDIDATE_LINES ->
  candidates_ok (scan_comparators comps anchor anchor_offset cursor start lines cs) /\
  length (scan_comparators comps anchor anchor_offset cursor start lines cs) <= MAX_PATCH_FAILURE_CANDIDATE_LINES.
Proof.
  revert cs; induction comps as [|c comps IH]; intros cs Hsub Hok Hl; cbn [scan_comparators]; [split; [done|lia]|].
  pose proof (scan_candidates_ok c start (skipn start lines) cs ltac:(set_solver) eq_refl Hok Hl) as H.
  destruct (scan_candidates _ _ _ _ _ _ _); [split; [tauto|lia]|]. apply IH; [set_solver|tauto|lia].
Qed.
End Candidates.

(** The candidate lines a context mismatch reports are at most three distinct one-based line
    numbers, none before the search cursor, and at each of them some line of the file matches the
    first non-blank line of the hunk's old side at the same offset; a hunk with only blank old
    lines reports none. *)
Theorem candidate_lines_sound lines pattern cursor :
  match patch_candidate_start_lines lines pattern cursor with
  | None => Forall (fun line => is_blank line = true) pattern
  | Some candidates =>
    length candidates <= MAX_PATCH_FAILURE_CANDIDATE_LINES /\ NoDup candidates /\
    exists anchor_offset anchor, pattern !! anchor_offset = Some anchor /\ is_blank anchor = false /\
      Forall (fun c => exists start, c = S start /\ candidate_ok lines anchor anchor_offset cursor start) candidates
  end.
Proof.
  unfold patch_candidate_start_lines. destruct (position _ pattern) as [k|] eqn:E.
  - cbv zeta. destruct (scan_comparators_ok lines (nth k pattern []) k cursor comparators
      (Nat.min (cursor + k) (length lines)) []) as [[Hf Hn] Hl]; [done|by repeat constructor|unfold MAX_PATCH_FAILURE_CANDIDATE_LINES; simpl; lia|].
    rewrite length_map. split; [done|]. split; [by apply NoDup_fmap_2; [intros ? ? [=]|]|].
    assert (Hp : exists a, pattern !! k = Some a /\ is_blank a = false).
    { clear -E. revert k E. induction pattern as [|p ps IH]; intros k; simpl; [done|].
      destruct (is_blank p) eqn:Ep; cbn [negb]; [|intros [= <-]; by exists p].
      destruct (position _ ps) as [j|] eqn:Ej; [|done]. intros [= <-]. by apply IH. }
    destruct Hp as (a & Ha & Hb). exists k, a. split; [done|]. split; [done|].
    rewrite (nth_lookup_Some _ _ _ _ Ha) in *. apply Forall_map. eapply Forall_impl; [exact Hf|].
    intros x Hx. by exists x.
  - clear -E. induction pattern as [|p ps IH]; [constructor|]. simpl in E.
    destruct (is_blank p) eqn:Ep; [|done]. cbn [negb] in E. destruct (position _ ps); [done|]. constructor; auto.
Qed.
