(* ===== verification/PatchEdit.v ===== *)
(** * What applying a patch does to the text

    The end-to-end theorems of [apply_to_text]: it never panics, it writes the ordered merge of
    one edit per hunk, and each edit is the hunk's own lines over the lines it was matched with. *)
From S2P Require Import Prelude.
From S2P Require Import Text.
From S2P Require Import PatchParse.
From S2P Require Import PatchApply.
From S2P Require Import PatchApplyFacts.

(** ** The contents of one edit *)

(** A hunk run over the lines it replaces: a context line is the line of the file, not the one
    of the patch; past the lines of the file it is the line of the patch. *)
Fixpoint edited (ls : list PatchLine) (olds : list text) : list text :=
  match ls with
  | [] => []
  | PContext c :: ls' =>
    match olds with o :: olds' => o :: edited ls' olds' | [] => c :: edited ls' [] end
  | PDelete _ :: ls' => edited ls' (tail olds)
  | PInsert c :: ls' => c :: edited ls' olds
  end.

Lemma edited_exact ls : edited ls (flat_map old_segment_line ls) = flat_map new_segment_line ls.
Proof. induction ls as [|[c|c|c] ls IH]; simpl; congruence. Qed.

Lemma edited_length ls olds : length (edited ls olds) = length (flat_map new_segment_line ls).
Proof.
  revert olds; induction ls as [|[c|c|c] ls IH]; intros olds; simpl; try done; [|by rewrite IH].
  destruct olds; simpl; by rewrite IH.
Qed.

Lemma map_content_sub source start k :
  map content (firstn k (skipn start source)) = firstn k (skipn start (map content source)).
Proof. by rewrite fmap_take, fmap_drop. Qed.

(** What the state of the loop has produced and what is left to produce. *)
Definition run_contents (source : list TextLine) (start old_len new_len : nat) (s : ReplacementState)
    (rest : list PatchLine) : list text :=
  map content (rs_result s) ++ inserted s ++
  firstn (new_len - new_cursor s)
    (edited rest (skipn (old_cursor s) (map content (firstn old_len (skipn start source))))).

Lemma skipn_lookup {A} (l : list A) k x : l !! k = Some x -> skipn k l = x :: skipn (S k) l.
Proof. revert k; induction l as [|y l IH]; intros [|k]; simpl; try done; [by intros [= ->]|apply IH]. Qed.

Lemma olds_lookup source start old_len k l :
  k < old_len -> source !! (start + k) = Some l ->
  map content (firstn old_len (skipn start source)) !! k = Some (content l).
Proof.
  intros Hk Hl. rewrite list_lookup_fmap, lookup_take_lt, lookup_drop, Hl by done. done.
Qed.

Lemma olds_length source start old_len :
  start + old_len <= length source -> length (map content (firstn old_len (skipn start source))) = old_len.
Proof. intros H. rewrite length_map, length_firstn, length_skipn. lia. Qed.

Lemma replacement_step_contents source start old_len new_len s s' l rest :
  start + old_len <= length source -> cursors_ok old_len new_len s ->
  replacement_step source start old_len new_len (Some s) l = Some s' ->
  run_contents source start old_len new_len s' rest = run_contents source start old_len new_len s (l :: rest).
Proof.
  intros Hb [Ho Hn] Hstep. unfold run_contents. pose proof (olds_length source start old_len Hb) as Hlen.
  set (olds := map content (firstn old_len (skipn start source))) in *.
  unfold replacement_step in Hstep. destruct l as [c|c|c].
  - destruct (Nat.ltb_spec (old_cursor s) old_len) as [H1|H1];
      destruct (Nat.ltb_spec (new_cursor s) new_len) as [H2|H2]; simpl in Hstep.
    + destruct (source !! (start + old_cursor s)) as [l|] eqn:El; [|done]. injection Hstep as <-. simpl.
      rewrite map_app, append_changed_lines_content.
      rewrite (skipn_lookup olds (old_cursor s) (content l) (olds_lookup _ _ _ _ _ H1 El)).
      replace (Nat.min (old_cursor s + 1) old_len) with (S (old_cursor s)) by lia.
      replace (Nat.min (new_cursor s + 1) new_len) with (S (new_cursor s)) by lia.
      replace (new_len - new_cursor s) with (S (new_len - S (new_cursor s))) by lia.
      simpl. by rewrite <- !app_assoc.
    + injection Hstep as <-. simpl. rewrite append_changed_lines_content.
      replace (new_len - new_cursor s) with 0 by lia. replace (new_len - Nat.min _ new_len) with 0 by lia.
      simpl. by rewrite !app_nil_r.
    + injection Hstep as <-. simpl. rewrite append_changed_lines_content.
      rewrite !(skipn_all2 olds) by lia.
      replace (Nat.min (new_cursor s + 1) new_len) with (S (new_cursor s)) by lia.
      replace (new_len - new_cursor s) with (S (new_len - S (new_cursor s))) by lia.
      simpl. by rewrite <- !app_assoc.
    + injection Hstep as <-. simpl. rewrite append_changed_lines_content.
      replace (new_len - new_cursor s) with 0 by lia. replace (new_len - Nat.min _ new_len) with 0 by lia.
      simpl. by rewrite !app_nil_r.
  - destruct (Nat.ltb_spec (old_cursor s) old_len) as [H1|H1]; injection Hstep as <-; simpl.
    + rewrite <- drop_drop. by destruct (skipn (old_cursor s) olds).
    + by rewrite (skipn_all2 olds) by lia.
  - destruct (Nat.ltb_spec (new_cursor s) new_len) as [H1|H1]; injection Hstep as <-; simpl.
    + replace (new_len - new_cursor s) with (S (new_len - (new_cursor s + 1))) by lia. simpl.
      by rewrite <- !app_assoc.
    + by replace (new_len - new_cursor s) with 0 by lia.
Qed.

Lemma replacement_fold_contents source start old_len new_len ls s s' :
  start + old_len <= length source -> cursors_ok old_len new_len s ->
  fold_left (replacement_step source start old_len new_len) ls (Some s) = Some s' ->
  map content (rs_result s') ++ inserted s' = run_contents source start old_len new_len s ls.
Proof.
  intros Hb. revert s; induction ls as [|l ls IH]; intros s Hs; cbn [fold_left].
  - intros [= ->]. unfold run_contents. simpl. by rewrite firstn_nil, app_nil_r.
  - destruct (replacement_step_total source start old_len new_len s l Hb Hs) as (s1 & E & Hs1).
    rewrite E. intros H. rewrite (IH s1 Hs1 H). by eapply replacement_step_contents.
Qed.

Lemma replacement_lines_content source start old_len new_len hunk r :
  start + old_len <= length source ->
  replacement_lines source start old_len new_len hunk = Some r ->
  map content r =
    firstn new_len (edited (hunk_lines hunk) (map content (firstn old_len (skipn start source)))).
Proof.
  intros Hb. unfold replacement_lines. destruct (fold_left _ _ _) as [s|] eqn:E; [|done]. intros [= <-].
  rewrite append_changed_lines_content.
  erewrite replacement_fold_contents; [|done| |exact E]; [|unfold cursors_ok; simpl; lia].
  unfold run_contents. simpl. by rewrite Nat.sub_0_r.
Qed.

(** ** One edit per hunk *)

Definition matched (lines pattern : list text) : Prop :=
  pattern = [] \/ exists compare, compare ∈ comparators /\ matches_with compare lines pattern = true.

(** Where a hunk went and what it writes there: an insertion after the last line, the lines its
    old side matches, or those lines without the empty one that ends the old side. *)
Definition edit_of (source : list TextLine) (hunk : PatchChunk) (r : Replacement) : Prop :=
  let olds := old_segment_for_hunk hunk in
  let news := new_segment_for_hunk hunk in
  rp_end r <= length source /\
  exists new_len,
    replacement_lines source (rp_start r) (rp_old_len r) new_len hunk = Some (rp_lines r) /\
    map content (rp_lines r) =
      firstn new_len (edited (hunk_lines hunk)
        (map content (firstn (rp_old_len r) (skipn (rp_start r) source)))) /\
    ((olds = [] /\ rp_start r = length source /\ rp_old_len r = 0 /\ new_len = length news) \/
     (matched (skipn (rp_start r) (map content source)) olds /\
      rp_old_len r = length olds /\ new_len = length news) \/
     (last olds = Some [] /\ matched (skipn (rp_start r) (map content source)) (removelast olds) /\
      rp_old_len r = length (removelast olds) /\
      new_len = length news - (if last_is_empty_line news then 1 else 0))).

Lemma seek_sequence_matched lines pattern start eof i :
  seek_sequence lines pattern start eof = Some i -> matched (skipn i lines) pattern.
Proof.
  unfold seek_sequence. destruct pattern as [|p ps]; [by left|]. cbn [is_empty]. cbv zeta.
  destruct (_ <? _); [done|]. match goal with |- (if ?b then _ else _) = _ -> _ => destruct b end; [done|].
  intros (l1 & c & l2 & El & Hc & _)%first_some_Some. apply seek_with_Some in Hc as (_ & Hm & _).
  right. exists c. split; [|done]. rewrite El. set_solver.
Qed.

Lemma last_is_empty_line_true ls : last_is_empty_line ls = true <-> last ls = Some [].
Proof. unfold last_is_empty_line. destruct (last ls) as [[|? ?]|]; naive_solver. Qed.

Lemma removelast_length {A} (l : list A) : length (removelast l) = length l - 1.
Proof. induction l as [|x [|y l] IH]; [done..|]. cbn [removelast length] in *. lia. Qed.

Lemma locate_hunk_edit source hunk cursor number t d start old_len repl rl :
  locate_hunk_replacement (map content source) hunk cursor (old_segment_for_hunk hunk)
    (new_segment_for_hunk hunk) number t d = Ok (start, old_len, repl) ->
  cursor <= length source ->
  replacement_lines source start old_len (length repl) hunk = Some rl ->
  edit_of source hunk {| rp_start := start; rp_old_len := old_len; rp_lines := rl |}.
Proof.
  intros Hl Hc Hr. pose proof Hl as Hb. apply locate_hunk_bounds in Hb as [_ Hb]; [|by rewrite length_map].
  rewrite length_map in Hb. split; [done|]. exists (length repl).
  split; [done|]. split; [by apply replacement_lines_content in Hr|]. right. simpl.
  unfold locate_hunk_replacement in Hl. cbv zeta in Hl.
  destruct (seek_sequence _ (old_segment_for_hunk hunk) _ _) as [i|] eqn:E.
  - injection Hl as <- <- <-. left. by apply seek_sequence_matched in E.
  - destruct (last_is_empty_line (old_segment_for_hunk hunk)) eqn:Ee; [|done].
    destruct (seek_sequence _ (removelast _) _ _) as [j|] eqn:E2; [|done]. injection Hl as <- <- <-. right.
    apply last_is_empty_line_true in Ee. apply seek_sequence_matched in E2. split_and!; try done.
    destruct (last_is_empty_line (new_segment_for_hunk hunk)); [by rewrite removelast_length|lia].
Qed.

(** The loop from one hunk on, with what it has collected before left in front. *)
Lemma plan_hunks_edits source t d hunks number i acc :
  i <= length source ->
  exists r, plan_hunks source (map content source) t d hunks number i acc = Some r /\
    forall rs, r = Ok rs -> exists new, rs = acc ++ new /\ planned (length source) i new /\
      Forall2 (edit_of source) hunks new.
Proof.
  revert number i acc; induction hunks as [|hunk hunks IH]; intros number i acc Hi; cbn [plan_hunks].
  { eexists; split; [reflexivity|]. intros rs [= <-]. exists []. rewrite app_nil_r. by repeat constructor. }
  destruct (locate_change_context_start _ hunk i number d) as [j|e] eqn:Ej; [|by eexists].
  apply locate_change_context_bounds in Ej; [|by rewrite length_map]. rewrite length_map in Ej. cbv zeta.
  destruct (is_empty (old_segment_for_hunk hunk)) eqn:Eo.
  - destruct (replacement_lines_total source (length (map content source)) 0 (length (new_segment_for_hunk hunk)) hunk)
      as [repl Hrepl]; [rewrite length_map; lia|]. rewrite Hrepl. rewrite length_map in *.
    edestruct (IH (S number) j) as (r & -> & Hr); [lia|]. eexists; split; [reflexivity|].
    intros rs Hrs. destruct (Hr rs Hrs) as (new & -> & Hn & Hf). eexists (_ :: new). rewrite <- app_assoc.
    split; [reflexivity|]. split.
    + split; unfold rp_end; simpl; [lia|]. left. split_and!; [done..|]. eapply planned_le; [|exact Hn]. lia.
    + constructor; [|done]. split; [unfold rp_end; simpl; lia|]. exists (length (new_segment_for_hunk hunk)).
      split; [done|]. split; [apply replacement_lines_content in Hrepl; [done|lia]|]. left.
      by destruct (old_segment_for_hunk hunk).
  - destruct (locate_hunk_replacement _ _ _ _ _ _ _ _) as [[[start old_len] repl]|e] eqn:El; [|by eexists].
    pose proof El as Hb. apply locate_hunk_bounds in Hb as [Hstart Hend]; [|rewrite length_map; lia].
    rewrite length_map in Hend.
    destruct (replacement_lines_total source start old_len (length repl) hunk) as [rl Hrl]; [lia|]. rewrite Hrl.
    edestruct (IH (S number) (start + old_len)) as (r & -> & Hr); [lia|]. eexists; split; [reflexivity|].
    intros rs Hrs. destruct (Hr rs Hrs) as (new & -> & Hn & Hf). eexists (_ :: new). rewrite <- app_assoc.
    split; [reflexivity|]. split.
    + split; unfold rp_end; simpl; [lia|]. right. split; [lia|done].
    + constructor; [|done]. eapply locate_hunk_edit; [exact El|lia|done].
Qed.

Definition source_lines_of (original : text) : list TextLine := map from_source (split_inclusive original).

(** What [apply_to_text] computes once every hunk was located. *)
Definition merged_text (source : list TextLine) (edits : list Replacement) : text :=
  render_lines (nearby_line_ending source (length source)) (merge source 0 (sort_by_start edits)).

Lemma apply_merges original hunks d :
  exists r, apply_to_text_with_diagnostics original hunks d = Some r /\
    forall t, r = Ok t ->
    let source := source_lines_of original in
    exists edits, plan_hunks source (map content source) (ends_with [LF] original) d hunks 1 0 [] = Some (Ok edits) /\
      Forall2 (edit_of source) hunks edits /\ chain 0 (sort_by_start edits) /\
      t = merged_text source edits.
Proof.
  unfold apply_to_text_with_diagnostics. cbv zeta. fold (source_lines_of original).
  set (source := source_lines_of original).
  destruct (plan_hunks_edits source (ends_with [LF] original) d hunks 1 0 []) as (r & -> & Hr); [lia|].
  destruct r as [rs|e]; [|by eexists]. destruct (Hr rs eq_refl) as (new & -> & Hp & Hf). cbn [app].
  pose proof (sort_by_start_chain _ _ _ (Nat.le_0_l _) Hp) as Hc.
  rewrite (splice_all_merge source (sort_by_start new) 0); [|done|].
  2:{ eapply sort_by_start_Forall, planned_Forall, Hp. }
  eexists; split; [reflexivity|]. intros t [= <-]. by exists new.
Qed.

(** Applying a patch never panics: every index into the lines of the file and every spliced
    range stays inside the vector, so the call always returns a text or an error. *)
Theorem apply_never_panics original hunks d :
  exists r, apply_to_text_with_diagnostics original hunks d = Some r.
Proof. destruct (apply_merges original hunks d) as (r & -> & _). by eexists. Qed.

(** C16. A successful application writes exactly one edit per hunk, in the hunk's order, each edit
    the hunk's own lines over the lines it was matched with; sorted by position the edits touch
    disjoint ranges, so the back-to-front splices produce the left-to-right merge of the file with
    the edits and every line outside them is copied. *)
Theorem apply_refines_merge original hunks d t :
  apply_to_text_with_diagnostics original hunks d = Some (Ok t) ->
  let source := source_lines_of original in
  exists edits, Forall2 (edit_of source) hunks edits /\ chain 0 (sort_by_start edits) /\
    t = merged_text source edits.
Proof.
  intros H. destruct (apply_merges original hunks d) as (r & Hr & Hok). rewrite Hr in H. injection H as ->.
  destruct (Hok t eq_refl) as (edits & _ & He). by exists edits.
Qed.

Definition sample_hunk : PatchChunk :=
  {| change_context := None; hunk_lines := [PContext (lit "a"); PDelete (lit "b"); PInsert (lit "B")];
     is_end_of_file := false |}.
Definition sample_text : text := lit "a " ++ [LF] ++ lit "b" ++ [LF] ++ lit "c".
Definition sample_result : text := lit "a " ++ [LF] ++ lit "B" ++ [LF] ++ lit "c".

Lemma apply_refines_merge_witness :
  exists edits, Forall2 (edit_of (source_lines_of sample_text)) [sample_hunk] edits /\
    sample_result = merged_text (source_lines_of sample_text) edits.
Proof.
  assert (H : apply_to_text_with_diagnostics sample_text [sample_hunk] false = Some (Ok sample_result))
    by (vm_compute; reflexivity).
  destruct (apply_refines_merge _ _ _ _ H) as (edits & Hf & _ & Ht). exact (ex_intro _ edits (conj Hf Ht)).
Defined.

(** ** Context-only hunks *)

Lemma split_inclusive_ended s :
  match split_inclusive s with
  | [] => s = []
  | p => Forall (fun l => exists c, l = c ++ [LF]) (removelast p) /\ Forall (fun l => l <> []) p
  end.
Proof.
  induction s as [|c s IH]; [done|]. cbn [split_inclusive].
  destruct (N.eqb_spec c LF) as [->|Hc].
  - destruct (split_inclusive s) as [|l ls]; [by repeat constructor|]. destruct IH as [H1 H2].
    split; [|by constructor]. change (removelast ([LF] :: l :: ls)) with ([LF] :: removelast (l :: ls)).
    constructor; [by exists []|done].
  - destruct (split_inclusive s) as [|l ls]; [by repeat constructor|]. destruct IH as [H1 H2].
    inversion H2; subst. split; [|by repeat constructor].
    destruct ls as [|l2 ls]; [constructor|].
    change (removelast ((c :: l) :: l2 :: ls)) with ((c :: l) :: removelast (l2 :: ls)).
    change (removelast (l :: l2 :: ls)) with (l :: removelast (l2 :: ls)) in H1.
    inversion H1 as [|? ? [x ->]]; subst. constructor; [by exists (c :: x)|done].
Qed.

Lemma from_source_text raw : content (from_source raw) ++ ending_text (ending (from_source raw)) = raw.
Proof.
  unfold from_source. destruct (strip_suffix [CR; LF] raw) eqn:E1; [by apply strip_suffix_Some in E1 as ->|].
  destruct (strip_suffix [LF] raw) eqn:E2; [by apply strip_suffix_Some in E2 as ->|]. simpl. apply app_nil_r.
Qed.

Lemma from_source_ended c : ending_is_empty (ending (from_source (c ++ [LF]))) = false.
Proof.
  unfold from_source. destruct (strip_suffix [CR; LF] _); [done|].
  by rewrite (proj2 (strip_suffix_Some [LF] (c ++ [LF]) c) eq_refl).
Qed.

Lemma render_pieces sep p :
  Forall (fun l => exists c, l = c ++ [LF]) (removelast p) -> render_lines sep (map from_source p) = concat p.
Proof.
  induction p as [|l p IH]; [done|]. intros H. cbn [map render_lines concat].
  destruct p as [|l2 p].
  - cbn [map is_empty negb]. rewrite andb_false_r. cbn [render_lines]. by rewrite app_nil_r, from_source_text, app_nil_r.
  - change (removelast (l :: l2 :: p)) with (l :: removelast (l2 :: p)) in H. inversion H as [|? ? [c ->] H']; subst.
    rewrite from_source_ended. cbn [andb]. rewrite IH by done. by rewrite app_assoc, from_source_text.
Qed.

Lemma render_source sep original : render_lines sep (source_lines_of original) = original.
Proof.
  unfold source_lines_of. rewrite render_pieces; [apply split_inclusive_concat|].
  pose proof (split_inclusive_ended original) as H. destruct (split_inclusive original); [apply List.Forall_nil|exact (proj1 H)].
Qed.

Definition is_context (l : PatchLine) : bool := match l with PContext _ => true | _ => false end.
Definition context_only (hunk : PatchChunk) : bool := forallb is_context (hunk_lines hunk).

Lemma context_only_segments hunk :
  context_only hunk = true -> old_segment_for_hunk hunk = new_segment_for_hunk hunk.
Proof.
  unfold context_only, old_segment_for_hunk, new_segment_for_hunk.
  induction (hunk_lines hunk) as [|[c|c|c] ls IH]; simpl; [done|intros H; by rewrite IH|done..].
Qed.

(** The loop over context lines only copies. *)
Lemma context_fold source start len ls k s :
  start + len <= length source -> forallb is_context ls = true -> k <= len ->
  fold_left (replacement_step source start len len) ls
    (Some {| rs_result := firstn k (skipn start source); old_cursor := k; new_cursor := k; deleted := 0; inserted := [] |}) = Some s ->
  s = {| rs_result := firstn (Nat.min (k + length ls) len) (skipn start source);
         old_cursor := Nat.min (k + length ls) len; new_cursor := Nat.min (k + length ls) len; deleted := 0; inserted := [] |}.
Proof.
  intros Hb. revert k; induction ls as [|[c|c|c] ls IH]; intros k Hls Hk; cbn [fold_left forallb is_context] in *; try done.
  - intros [= <-]. rewrite Nat.add_0_r. by rewrite Nat.min_l by lia.
  - unfold replacement_step at 2. cbn [old_cursor new_cursor deleted inserted rs_result andb] in *.
    destruct (Nat.ltb_spec k len) as [H1|H1]; cbn [andb]; unfold append_changed_lines; cbn [changed_lines_from length];
      rewrite app_nil_r.
    + destruct (source !! (start + k)) as [l|] eqn:El; [|apply lookup_ge_None in El; lia].
      assert (E : firstn k (skipn start source) ++ [l] = firstn (S k) (skipn start source)).
      { symmetry. apply take_S_r. by rewrite lookup_drop. }
      rewrite E. replace (Nat.min (k + 1) len) with (S k) by lia.
      intros H. rewrite (IH (S k) Hls) by (lia || done). by replace (S k + length ls) with (k + length (PContext c :: ls)) by (simpl; lia).
    + replace (Nat.min (k + 1) len) with k by lia. intros H. rewrite (IH k Hls) by (lia || done).
      by replace (Nat.min (k + length ls) len) with (Nat.min (k + length (PContext c :: ls)) len) by (simpl; lia).
Qed.

Lemma context_replacement source start len hunk r :
  start + len <= length source -> context_only hunk = true -> len <= length (hunk_lines hunk) ->
  replacement_lines source start len len hunk = Some r -> r = firstn len (skipn start source).
Proof.
  intros Hb Hc Hl. unfold replacement_lines. destruct (fold_left _ _ _) as [s|] eqn:E; [|done].
  change replacement_init with {| rs_result := firstn 0 (skipn start source); old_cursor := 0; new_cursor := 0; deleted := 0; inserted := [] |} in E.
  apply context_fold in E; [|done|done|lia]. subst s. intros [= <-]. unfold append_changed_lines. simpl.
  rewrite app_nil_r. by rewrite Nat.min_r by lia.
Qed.

Lemma merge_id source rs i :
  Forall (fun r => rp_lines r = firstn (rp_old_len r) (skipn (rp_start r) source)) rs -> chain i rs ->
  merge source i rs = skipn i source.
Proof.
  intros H. revert i; induction H as [|r rs Hr Hrs IH]; intros i; [done|]. intros [Hi Hc]. cbn [merge].
  rewrite (IH _ Hc), Hr. unfold rp_end.
  assert (E : skipn (rp_start r) source = skipn (rp_start r - i) (skipn i source))
    by (rewrite drop_drop; f_equal; lia).
  rewrite <- (firstn_skipn (rp_start r - i) (skipn i source)) at 2. f_equal. rewrite <- E.
  rewrite <- (firstn_skipn (rp_old_len r) (skipn (rp_start r) source)) at 2. by rewrite drop_drop.
Qed.

Lemma context_only_edit source hunk r :
  context_only hunk = true -> edit_of source hunk r ->
  rp_lines r = firstn (rp_old_len r) (skipn (rp_start r) source).
Proof.
  intros Hc (Hend & new_len & Hr & _ & Hcase). pose proof (context_only_segments hunk Hc) as Hseg.
  assert (Hlen : length (old_segment_for_hunk hunk) = length (hunk_lines hunk)).
  { unfold context_only, old_segment_for_hunk in *. clear -Hc.
    induction (hunk_lines hunk) as [|[c|c|c] ls IH]; simpl in *; [done|by rewrite IH|done..]. }
  assert (new_len = rp_old_len r /\ rp_old_len r <= length (hunk_lines hunk)) as [-> Hle].
  { rewrite <- Hseg in Hcase. destruct Hcase as [(Ho & _ & -> & ->)|[(_ & -> & ->)|(Hlast & _ & -> & ->)]].
    - rewrite Ho. simpl. lia.
    - lia.
    - apply last_is_empty_line_true in Hlast. rewrite Hlast, removelast_length. lia. }
  eapply context_replacement; [|done..|exact Hr]. exact Hend.
Qed.

Lemma Forall2_right {A B} (P : A -> Prop) (R : A -> B -> Prop) (Q : B -> Prop) l k :
  (forall a b, P a -> R a b -> Q b) -> Forall P l -> Forall2 R l k -> Forall Q k.
Proof. intros H Hl Hf. induction Hf; inversion Hl; subst; constructor; eauto. Qed.

(** Hunks that only quote context change nothing: whenever such a patch applies, the text it
    writes is the original text, line endings and missing final newline included, even when the
    quoted lines match only up to white space or typographic characters. *)
Theorem context_only_identity original hunks d t :
  Forall (fun hunk => context_only hunk = true) hunks ->
  apply_to_text_with_diagnostics original hunks d = Some (Ok t) -> t = original.
Proof.
  intros Hc H. destruct (apply_merges original hunks d) as (r & Hr & Hok). rewrite Hr in H. injection H as ->.
  destruct (Hok t eq_refl) as (edits & _ & Hf & Hch & ->). unfold merged_text.
  rewrite merge_id; [apply render_source| |done]. apply sort_by_start_Forall.
  eapply Forall2_right; [|exact Hc|exact Hf]. cbn beta. intros hunk e. apply context_only_edit.
Qed.

Definition context_hunk : PatchChunk :=
  {| change_context := None; hunk_lines := [PContext (lit "a"); PContext (lit "b")]; is_end_of_file := false |}.

Lemma context_only_identity_witness : exists t,
  apply_to_text_with_diagnostics sample_text [context_hunk] false = Some (Ok t) /\ t = sample_text.
Proof.
  assert (H : apply_to_text_with_diagnostics sample_text [context_hunk] false = Some (Ok sample_text))
    by (vm_compute; reflexivity).
  exists sample_text. split; [exact H|].
  apply (context_only_identity sample_text [context_hunk] false sample_text); [repeat constructor|exact H].
Defined.

(** ** An exact match *)

(** The first position at or after [i] where the lines are exactly the pattern. *)
Definition first_exact (lines pattern : list text) (i : nat) : Prop :=
  firstn (length pattern) (skipn i lines) = pattern /\
  forall j, j < i -> firstn (length pattern) (skipn j lines) <> pattern.

Lemma exact_matches lines pattern :
  matches_with exact_line_match lines pattern = true <-> firstn (length pattern) lines = pattern.
Proof.
  revert lines; induction pattern as [|p ps IH]; intros [|l ls]; simpl; try (by split).
  rewrite andb_true_iff, IH. unfold exact_line_match. rewrite text_eqb_eq. split; [intros [-> ->]; done|].
  intros [= -> Hps]. by rewrite Hps.
Qed.

Lemma seek_exact lines pattern i :
  pattern <> [] -> first_exact lines pattern i -> seek_sequence lines pattern 0 false = Some i.
Proof.
  intros Hp [Hi Hbefore]. unfold seek_sequence. destruct pattern as [|p ps]; [done|]. cbn [is_empty].
  set (pattern := p :: ps) in *. cbv zeta.
  assert (Hlen : i + length pattern <= length lines).
  { assert (length (firstn (length pattern) (skipn i lines)) = length pattern) as E by by rewrite Hi.
    rewrite length_firstn, length_skipn in E. assert (0 < length pattern) by (simpl; lia). lia. }
  destruct (Nat.ltb_spec (length lines) (length pattern)); [lia|]. rewrite Nat.min_l by lia.
  destruct (Nat.ltb_spec (length lines - length pattern) 0); [lia|]. cbn [comparators first_some].
  destruct (seek_with exact_line_match lines pattern 0 (length lines - length pattern)) as [k|] eqn:E.
  - apply seek_with_Some in E as (_ & Hm & Hmin). apply exact_matches in Hm. f_equal.
    destruct (lt_eq_lt_dec k i) as [[Hlt|?]|Hgt]; [|done|].
    + by apply Hbefore in Hlt.
    + apply exact_matches in Hi. rewrite Hmin in Hi; [done|lia].
  - apply exact_matches in Hi. rewrite (proj1 (seek_with_None _ _ _ _ _) E i) in Hi; [done|lia].
Qed.

(** A hunk without a change context whose old side occurs literally in the file replaces the
    first such occurrence by its new side and leaves every other line as it is. *)
Theorem apply_exact_hunk original hunk i d :
  change_context hunk = None -> is_end_of_file hunk = false ->
  let source := source_lines_of original in
  let lines := map content source in
  old_segment_for_hunk hunk <> [] -> first_exact lines (old_segment_for_hunk hunk) i ->
  exists repl,
    map content repl = new_segment_for_hunk hunk /\
    apply_to_text_with_diagnostics original [hunk] d =
      Some (Ok (render_lines (nearby_line_ending source (length source))
        (firstn i source ++ repl ++ skipn (i + length (old_segment_for_hunk hunk)) source))).
Proof.
  intros Hctx Heof source lines Holds Hex. pose proof (seek_exact _ _ _ Holds Hex) as Hseek.
  assert (Hb : i + length (old_segment_for_hunk hunk) <= length source).
  { apply seek_sequence_bounds in Hseek; [|lia]. subst lines. rewrite length_map in Hseek. lia. }
  unfold apply_to_text_with_diagnostics. cbv zeta. fold (source_lines_of original). fold source. fold lines.
  unfold plan_hunks, locate_change_context_start, locate_hunk_replacement. rewrite Hctx, Heof, Hseek. cbv zeta.
  destruct (is_empty (old_segment_for_hunk hunk)) eqn:Ee; [by destruct (old_segment_for_hunk hunk)|].
  destruct (replacement_lines_total source i (length (old_segment_for_hunk hunk))
              (length (new_segment_for_hunk hunk)) hunk Hb) as [rl Hrl].
  rewrite Hrl. cbn [app sort_by_start insert_by_start splice_all rev fold_left].
  unfold splice_all, splice. cbn [rev app fold_left rp_start rp_old_len rp_lines].
  rewrite (proj2 (Nat.leb_le _ _) Hb). exists rl. split; [|done].
  apply replacement_lines_content in Hrl; [|done]. rewrite Hrl, map_content_sub. fold lines.
  destruct Hex as [Hex _]. rewrite Hex. unfold old_segment_for_hunk.
  rewrite edited_exact. unfold new_segment_for_hunk. apply firstn_all.
Qed.

Definition exact_hunk : PatchChunk :=
  {| change_context := None; hunk_lines := [PContext (lit "a "); PDelete (lit "b"); PInsert (lit "B")];
     is_end_of_file := false |}.

Lemma apply_exact_hunk_witness : exists repl,
  map content repl = [lit "a "; lit "B"] /\
  apply_to_text_with_diagnostics sample_text [exact_hunk] false =
    Some (Ok (render_lines Lf (repl ++ [{| content := lit "c"; ending := NoEnding |}]))).
Proof.
  assert (Hex : first_exact (map content (source_lines_of sample_text)) (old_segment_for_hunk exact_hunk) 0)
    by (split; [vm_compute; reflexivity|intros j Hj; lia]).
  destruct (apply_exact_hunk sample_text exact_hunk 0 false eq_refl eq_refl ltac:(discriminate) Hex)
    as (repl & Hc & Ha).
  exact (ex_intro _ repl (conj Hc Ha)).
Defined.

(** ** Line endings *)

(** The endings a text written by a patch may use. *)
Definition ending_allowed (source : list TextLine) (e : LineEnding) : Prop :=
  (exists l, l ∈ source /\ ending l = e) \/ e = NoEnding \/
  (e = Lf /\ Forall (fun l => has_ending l = false) source).

Lemma nearby_allowed source i : ending_allowed source (nearby_line_ending source i).
Proof.
  unfold nearby_line_ending. destruct (List.find has_ending (skipn i source)) as [l|] eqn:E1.
  - apply List.find_some in E1 as [Hin _]. apply list_elem_of_In in Hin. left. exists l. split; [|done].
    rewrite <- (firstn_skipn i source). set_solver.
  - destruct (List.find has_ending (rev (firstn i source))) as [l|] eqn:E2.
    + apply List.find_some in E2 as [Hin _]. apply in_rev, list_elem_of_In in Hin. left. exists l. split; [|done].
      rewrite <- (firstn_skipn i source). set_solver.
    + right; right. split; [done|]. rewrite <- (firstn_skipn i source). apply Forall_app. split; apply Forall_forall.
      * intros l Hl. eapply (List.find_none _ _ E2), in_rev. rewrite rev_involutive. by apply list_elem_of_In.
      * intros l Hl. eapply (List.find_none _ _ E1). by apply list_elem_of_In.
Qed.

Definition endings_from (source : list TextLine) (l : TextLine) : Prop := ending_allowed source (ending l).

Lemma endings_from_source source l : l ∈ source -> endings_from source l.
Proof. left. by exists l. Qed.

Lemma changed_lines_endings source start deleted count index fallback ins :
  ending_allowed source fallback ->
  Forall (endings_from source) (changed_lines_from source start deleted count index fallback ins).
Proof.
  intros Hf. revert index; induction ins as [|c ins IH]; intros index; cbn [changed_lines_from]; constructor; [|done].
  unfold endings_from. cbn [ending]. destruct (_ && _ && _); [by right; left|].
  destruct (source !! (start + index)) as [l|] eqn:E; [|done]. destruct (_ && _); [|done].
  apply endings_from_source. by eapply list_elem_of_lookup_2.
Qed.

Lemma append_changed_endings source out start deleted ins :
  Forall (endings_from source) out -> Forall (endings_from source) (append_changed_lines out source start deleted ins).
Proof. intros H. apply Forall_app. split; [done|]. apply changed_lines_endings, nearby_allowed. Qed.

Lemma replacement_endings source start old_len new_len hunk r :
  replacement_lines source start old_len new_len hunk = Some r -> Forall (endings_from source) r.
Proof.
  unfold replacement_lines. destruct (fold_left _ _ _) as [s|] eqn:E; [|done]. intros [= <-].
  apply append_changed_endings.
  assert (G : forall ls o s, fold_left (replacement_step source start old_len new_len) ls o = Some s ->
    (forall s0, o = Some s0 -> Forall (endings_from source) (rs_result s0)) -> Forall (endings_from source) (rs_result s)).
  { clear. induction ls as [|l ls IH]; intros o s; cbn [fold_left]; [intros -> H; by apply H|].
    intros H Ho. eapply IH; [exact H|]. intros s1 Hs1. destruct o as [s0|]; [|done]. specialize (Ho s0 eq_refl).
    unfold replacement_step in Hs1.
    destruct l; repeat (case_match; simplify_eq/=); try done; try by apply append_changed_endings.
    apply Forall_app. split; [by apply append_changed_endings|]. constructor; [|constructor].
    apply endings_from_source. by eapply list_elem_of_lookup_2. }
  eapply G; [exact E|]. intros s0 [= <-]. constructor.
Qed.

Lemma merge_endings source rs i :
  Forall (fun r => Forall (endings_from source) (rp_lines r)) rs -> Forall (endings_from source) (merge source i rs).
Proof.
  assert (Hs : Forall (endings_from source) source) by (apply Forall_forall; apply endings_from_source).
  intros H. revert i; induction H as [|r rs Hr _ IH]; intros i; cbn [merge].
  - by apply Forall_drop.
  - apply Forall_app. split; [by apply Forall_take, Forall_drop|]. by apply Forall_app.
Qed.

(** A patch never brings a line ending of its own into a file: every line of the output, and
    the separator put after a former last line, ends the way some line of the file does, or in LF
    when the file has no line ending at all, or is left without one. *)
Theorem patch_keeps_line_endings original hunks d t :
  apply_to_text_with_diagnostics original hunks d = Some (Ok t) ->
  let source := source_lines_of original in
  exists output, t = render_lines (nearby_line_ending source (length source)) output /\
    Forall (endings_from source) output /\
    ending_allowed source (nearby_line_ending source (length source)).
Proof.
  intros H source. destruct (apply_merges original hunks d) as (r & Hr & Hok). rewrite Hr in H. injection H as ->.
  destruct (Hok t eq_refl) as (edits & _ & Hf & _ & ->). eexists. split; [reflexivity|].
  split; [|apply nearby_allowed]. apply merge_endings, sort_by_start_Forall.
  eapply (Forall2_right (fun _ => True)); [|by apply Forall_true|exact Hf].
  intros hunk e _ (_ & new_len & He & _). by eapply replacement_endings.
Qed.

Definition crlf_text : text := lit "a" ++ [CR; LF] ++ lit "b" ++ [CR; LF].
Definition insert_hunk : PatchChunk :=
  {| change_context := None; hunk_lines := [PContext (lit "a"); PInsert (lit "x")]; is_end_of_file := false |}.

Lemma patch_keeps_line_endings_witness : exists output,
  lit "a" ++ [CR; LF] ++ lit "x" ++ [CR; LF] ++ lit "b" ++ [CR; LF] = render_lines CrLf output /\
  Forall (endings_from (source_lines_of crlf_text)) output.
Proof.
  assert (H : apply_to_text_with_diagnostics crlf_text [insert_hunk] true =
    Some (Ok (lit "a" ++ [CR; LF] ++ lit "x" ++ [CR; LF] ++ lit "b" ++ [CR; LF]))) by (vm_compute; reflexivity).
  destruct (patch_keeps_line_endings _ _ _ _ H) as (output & Ht & Hf & _).
  exact (ex_intro _ output (conj Ht Hf)).
Defined.
