(* ===== verification/ContextWindow.v ===== *)
(** * Input-token accounting (src/src/context/context_window.rs)

    The estimator of a prepared request, the token status of a request, the truncation of a
    checkpoint to a token budget and the budget of the user messages a compaction keeps.
    Of [ChatRequest] and the messages the records hold the fields this module reads; a JSON value
    and its [to_string] are parameters. *)
From S2P Require Import Prelude.
From S2P Require Import Text.
From S2P Require Import Utf8.

Open Scope N_scope.

Definition REQUEST_OVERHEAD_TOKENS : N := 12.
Definition MESSAGE_OVERHEAD_TOKENS : N := 8.
Definition TOOL_SCHEMA_OVERHEAD_TOKENS : N := 16.
Definition MIN_IMAGE_RESERVATION_TOKENS : N := 1024.
Definition DECODED_IMAGE_BYTES_PER_RESERVED_TOKEN : N := 128.
Definition COMPACTION_USER_MESSAGE_MAX_TOKENS : N := 20000.

(** ** Data *)

Inductive ActiveContextTokenSource := FullPreparedRequestEstimate | ProviderUsageWithLocalEstimate.

Record ContextWindowTokenStatus := {
  token_source : ActiveContextTokenSource;
  active_context_tokens : N;
  full_context_window_limit : N;
  configured_max_output_tokens : option N;
  overflow_margin_tokens : N;
  tokens_until_limit : Z;
  token_limit_reached : bool
}.

Record ModelToolCall := { call_id : text; tool_name : text; arguments_json : text }.

Inductive ModelContentPart :=
  | TextPart (part_text : text)
  | ImagePart (mime_type data_base64 : text).

Record ChatToolContinuation := { reasoning_content : text }.

Inductive ModelMessage (Json : Type) :=
  | SystemMessage (content : text)
  | DeveloperMessage (content : text)
  | AgentMessage (content : text)
  | UserMessage (content : text)
  | UserParts (parts : list ModelContentPart)
  | AssistantMessage (content : text)
  | AssistantToolCalls (content : option text) (tool_calls : list ModelToolCall)
      (continuation : option ChatToolContinuation)
  | ToolMessage (call_id tool_name result : text) (metadata : Json).
Arguments SystemMessage {Json} content.
Arguments DeveloperMessage {Json} content.
Arguments AgentMessage {Json} content.
Arguments UserMessage {Json} content.
Arguments UserParts {Json} parts.
Arguments AssistantMessage {Json} content.
Arguments AssistantToolCalls {Json} content tool_calls continuation.
Arguments ToolMessage {Json} call_id tool_name result metadata.

Record ToolSchema (Json : Type) := { schema_name : text; description : text; input_schema : Json }.
Arguments schema_name {Json} _.
Arguments description {Json} _.
Arguments input_schema {Json} _.

Record ChatRequest (Json : Type) := {
  model_context_window : N;
  system_prompt : text;
  pending_system_prompt_tokens : option N;
  messages : list (ModelMessage Json);
  tools : list (ToolSchema Json)
}.
Arguments model_context_window {Json} _.
Arguments system_prompt {Json} _.
Arguments pending_system_prompt_tokens {Json} _.
Arguments messages {Json} _.
Arguments tools {Json} _.

(** ** Estimates *)

Definition estimate_text_tokens (s : text) : N := div_ceil (byte_len s) 4.

(** The trailing padding characters of a base64 text; they are ASCII, so characters are bytes. *)
Fixpoint take_while_padding (s : text) : N :=
  match s with c :: s' => if c =? 61 then 1 + take_while_padding s' else 0 | [] => 0 end.

Definition image_reservation (data_base64 : text) : N :=
  let padding := N.min (take_while_padding (rev data_base64)) 2 in
  let decoded_bytes := saturating_mul_usize (div_ceil (byte_len data_base64) 4) 3 - padding in
  N.max (div_ceil decoded_bytes DECODED_IMAGE_BYTES_PER_RESERVED_TOKEN) MIN_IMAGE_RESERVATION_TOKENS.

Definition part_tokens (part : ModelContentPart) : N :=
  match part with
  | TextPart s => estimate_text_tokens s
  | ImagePart _ data_base64 => image_reservation data_base64
  end.

Definition call_tokens (call : ModelToolCall) : N :=
  saturating_add_usize
    (saturating_add_usize
      (saturating_add_usize MESSAGE_OVERHEAD_TOKENS (estimate_text_tokens (call_id call)))
      (estimate_text_tokens (tool_name call)))
    (estimate_text_tokens (arguments_json call)).

Definition content_tokens {Json} (message : ModelMessage Json) : N :=
  match message with
  | SystemMessage content | DeveloperMessage content | AgentMessage content
  | UserMessage content | AssistantMessage content => estimate_text_tokens content
  | UserParts parts => saturating_sum (map part_tokens parts)
  | AssistantToolCalls content tool_calls continuation =>
      saturating_add_usize
        (saturating_add_usize
          (default 0 (estimate_text_tokens <$> content))
          (default 0 ((fun c => estimate_text_tokens (reasoning_content c)) <$> continuation)))
        (saturating_sum (map call_tokens tool_calls))
  | ToolMessage call_id tool_name result _ =>
      saturating_add_usize
        (saturating_add_usize (estimate_text_tokens call_id) (estimate_text_tokens tool_name))
        (estimate_text_tokens result)
  end.

Definition message_tokens {Json} (message : ModelMessage Json) : N :=
  saturating_add_usize MESSAGE_OVERHEAD_TOKENS (content_tokens message).

Definition estimate_model_messages_tokens {Json} (messages : list (ModelMessage Json)) : N :=
  N.min (saturating_sum (map message_tokens messages)) u32_max.

Section Requests.
Context {Json : Type} (json_to_string : Json -> text).

Definition tool_tokens (tool : ToolSchema Json) : N :=
  saturating_add_usize
    (saturating_add_usize
      (saturating_add_usize TOOL_SCHEMA_OVERHEAD_TOKENS (estimate_text_tokens (schema_name tool)))
      (estimate_text_tokens (description tool)))
    (estimate_text_tokens (json_to_string (input_schema tool))).

Definition estimate_request_tokens (request : ChatRequest Json) : N :=
  let estimated :=
    saturating_add_usize
      (saturating_add_usize
        (saturating_add_usize
          (saturating_add_usize REQUEST_OVERHEAD_TOKENS (default 0 (pending_system_prompt_tokens request)))
          (estimate_text_tokens (system_prompt request)))
        (saturating_sum (map message_tokens (messages request))))
      (saturating_sum (map tool_tokens (tools request))) in
  N.min estimated u32_max.

(** [ContextWindowTokenStatus::from_active_context_tokens] *)
Definition from_active_context_tokens (request : ChatRequest Json) (overflow_margin_tokens : N)
    (active_context_tokens : N) (source : ActiveContextTokenSource) : ContextWindowTokenStatus :=
  let full_context_window_limit := model_context_window request in
  let tokens_until_limit := (Z.of_N full_context_window_limit - Z.of_N active_context_tokens)%Z in
  {| token_source := source;
     active_context_tokens := active_context_tokens;
     full_context_window_limit := full_context_window_limit;
     configured_max_output_tokens := None;
     overflow_margin_tokens := N.min overflow_margin_tokens u32_max;
     tokens_until_limit := tokens_until_limit;
     token_limit_reached := (tokens_until_limit <=? 0)%Z |}.

(** [ContextWindowTokenStatus::for_request] *)
Definition for_request (request : ChatRequest Json) (overflow_margin_tokens : N) : ContextWindowTokenStatus :=
  from_active_context_tokens request overflow_margin_tokens (estimate_request_tokens request)
    FullPreparedRequestEstimate.

(** [ContextWindowTokenStatus::from_provider_usage] *)
Definition from_provider_usage (request : ChatRequest Json) (overflow_margin_tokens : N)
    (provider_total_tokens : N) (local_messages : list (ModelMessage Json))
    (positive_noncanonical_prepared_tokens : N) : ContextWindowTokenStatus :=
  let local_tokens := estimate_model_messages_tokens local_messages in
  let provider_usage_estimate :=
    saturating_add_u32 (saturating_add_u32 provider_total_tokens local_tokens)
      positive_noncanonical_prepared_tokens in
  let full_prepared_request_estimate := estimate_request_tokens request in
  let '(active, source) :=
    if full_prepared_request_estimate <? provider_usage_estimate
    then (provider_usage_estimate, ProviderUsageWithLocalEstimate)
    else (full_prepared_request_estimate, FullPreparedRequestEstimate) in
  from_active_context_tokens request overflow_margin_tokens active source.

End Requests.

(** ** Truncation to a token budget *)

(** The binary search both routines run over the character boundaries; [probe] slices the text
    at a boundary and measures it, [None] being a panic.  The fuel is the number of boundaries. *)
Fixpoint bisect (fuel : nat) (probe : nat -> option bool) (low high : nat) : option nat :=
  match fuel with
  | O => None
  | S fuel =>
    if (S low <? high)%nat then
      let middle := (low + (high - low) / 2)%nat in
      match probe middle with
      | None => None
      | Some true => bisect fuel probe middle high
      | Some false => bisect fuel probe low middle
      end
    else Some low
  end.

Definition prefix_at (s : text) (boundaries : list N) (i : nat) : option text :=
  match boundaries !! i with Some b => slice_to b s | None => None end.
Definition suffix_at (s : text) (boundaries : list N) (i : nat) : option text :=
  match boundaries !! (length boundaries - 1 - i)%nat with Some b => slice_from b s | None => None end.

Definition within_tokens (max_tokens : N) (s : text) : bool := estimate_text_tokens s <=? max_tokens.

Definition prefix_within_estimated_tokens (s : text) (max_tokens : N) : option text :=
  let boundaries := char_boundaries s in
  match bisect (length boundaries) (fun i => within_tokens max_tokens <$> prefix_at s boundaries i)
          0 (length boundaries) with
  | Some low => prefix_at s boundaries low
  | None => None
  end.

Definition suffix_within_estimated_tokens (s : text) (max_tokens : N) : option text :=
  let boundaries := char_boundaries s in
  match bisect (length boundaries) (fun i => within_tokens max_tokens <$> suffix_at s boundaries i)
          0 (length boundaries) with
  | Some low => suffix_at s boundaries low
  | None => None
  end.

Definition MARKER : text := [LF] ++ lit "[... compaction checkpoint truncated ...]" ++ [LF].
#[global] Arguments MARKER : simpl never.

Definition truncate_text_to_estimated_tokens (s : text) (max_tokens : N) : option text :=
  if max_tokens =? 0 then Some []
  else if estimate_text_tokens s <=? max_tokens then Some s
  else
    let marker_tokens := estimate_text_tokens MARKER in
    if max_tokens <=? marker_tokens then prefix_within_estimated_tokens s max_tokens
    else
      let content_tokens := max_tokens - marker_tokens in
      let head_budget := div_ceil content_tokens 2 in
      let tail_budget := content_tokens / 2 in
      match prefix_within_estimated_tokens s head_budget with
      | None => None
      | Some head =>
        match slice_from (byte_len head) s with
        | None => None
        | Some tail_source =>
          match suffix_within_estimated_tokens tail_source tail_budget with
          | None => None
          | Some tail => Some (head ++ MARKER ++ tail)
          end
        end
      end.

(** ** The user messages a compaction keeps *)

Record CompactionUserMessageBudget := { remaining_tokens : N; newest_first : list text }.

Definition CompactionUserMessageBudget_new : CompactionUserMessageBudget :=
  {| remaining_tokens := COMPACTION_USER_MESSAGE_MAX_TOKENS; newest_first := [] |}.

Definition push_newest (budget : CompactionUserMessageBudget) (message : text)
    : option (CompactionUserMessageBudget * bool) :=
  let message_tokens := estimate_text_tokens message in
  if message_tokens <=? remaining_tokens budget then
    let remaining := remaining_tokens budget - message_tokens in
    Some ({| remaining_tokens := remaining; newest_first := newest_first budget ++ [message] |},
          0 <? remaining)
  else
    match truncate_text_to_estimated_tokens message (remaining_tokens budget) with
    | None => None
    | Some boundary =>
      let kept := if is_empty boundary then newest_first budget else newest_first budget ++ [boundary] in
      Some ({| remaining_tokens := 0; newest_first := kept |}, false)
    end.

Definition finish (budget : CompactionUserMessageBudget) : list text := rev (newest_first budget).

Fixpoint push_while (newest_to_oldest : list text) (budget : CompactionUserMessageBudget)
    : option CompactionUserMessageBudget :=
  match newest_to_oldest with
  | [] => Some budget
  | message :: older =>
    match push_newest budget message with
    | None => None
    | Some (budget', true) => push_while older budget'
    | Some (budget', false) => Some budget'
    end
  end.

Definition bounded_compaction_user_messages (messages : list text) : option (list text) :=
  finish <$> push_while (rev messages) CompactionUserMessageBudget_new.

(** * Correctness of the input-token accounting

    The binary searches equal the reference slices [fit] and [fit_back]; a truncated checkpoint
    stays inside its budget; a compaction keeps the newest user messages; the saturating estimate
    is the exact sum capped at [u32::MAX]. *)

(** ** The binary search *)

Lemma middle_between low high : (S low < high)%nat -> (low < low + (high - low) / 2 < high)%nat.
Proof.
  intros H. pose proof (Nat.div_mod_eq (high - low) 2). pose proof (Nat.mod_upper_bound (high - low) 2 ltac:(lia)). lia.
Qed.

Lemma bisect_spec probe p n fuel low high :
  (forall i, (i < n)%nat -> probe i = Some (p i)) ->
  (low < high <= n)%nat -> (high - low <= fuel)%nat -> p low = true -> (high = n \/ p high = false) ->
  exists k, bisect fuel probe low high = Some k /\ (low <= k < high)%nat /\ p k = true /\ (S k = n \/ p (S k) = false).
Proof.
  intros Hp. revert low high; induction fuel as [|fuel IH]; intros low high H1 H2 Hl Hh; [lia|]. cbn [bisect].
  destruct (Nat.ltb_spec (S low) high) as [Hlt|Hge].
  - pose proof (middle_between low high Hlt) as Hm. rewrite Hp by lia.
    set (middle := (low + (high - low) / 2)%nat) in *. destruct (p middle) eqn:E.
    + destruct (IH middle high) as (k & ? & ? & ? & ?); auto; try lia. exists k. split_and!; auto; lia.
    + destruct (IH low middle) as (k & ? & ? & ? & ?); auto; try lia. exists k. split_and!; auto; lia.
  - exists low. split; [done|]. split; [lia|]. split; [done|]. replace (S low) with high by lia. done.
Qed.

Lemma estimate_le s m : (estimate_text_tokens s <= m <-> byte_len s <= 4 * m)%N.
Proof. unfold estimate_text_tokens. by apply div_ceil_le. Qed.

Lemma within_tokens_true m s : within_tokens m s = true <-> (byte_len s <= 4 * m)%N.
Proof. unfold within_tokens. rewrite N.leb_le. apply estimate_le. Qed.

Lemma within_tokens_false m s : within_tokens m s = false <-> (4 * m < byte_len s)%N.
Proof. rewrite <- not_true_iff_false, within_tokens_true. lia. Qed.

Lemma prefix_at_boundaries s i : (i <= length s)%nat -> prefix_at s (char_boundaries s) i = Some (firstn i s).
Proof. intros H. unfold prefix_at. by rewrite char_boundaries_lookup, slice_to_firstn. Qed.

Lemma suffix_at_boundaries s i :
  (i <= length s)%nat -> suffix_at s (char_boundaries s) i = Some (skipn (length s - i) s).
Proof.
  intros H. unfold suffix_at. rewrite char_boundaries_length. replace (S (length s) - 1 - i)%nat with (length s - i)%nat by lia.
  rewrite char_boundaries_lookup by lia. apply slice_from_firstn.
Qed.

Lemma prefix_within_fit s m : prefix_within_estimated_tokens s m = Some (fit (4 * m) s).
Proof.
  unfold prefix_within_estimated_tokens. cbv zeta. rewrite char_boundaries_length.
  destruct (bisect_spec (fun i => within_tokens m <$> prefix_at s (char_boundaries s) i)
    (fun i => within_tokens m (firstn i s)) (S (length s)) (S (length s)) 0 (S (length s))) as (k & -> & Hk & Ht & Hn).
  - intros i Hi. by rewrite prefix_at_boundaries by lia.
  - lia.
  - lia.
  - apply within_tokens_true. rewrite firstn_O. simpl. lia.
  - by left.
  - rewrite prefix_at_boundaries by lia. f_equal. symmetry. apply within_tokens_true in Ht.
    apply fit_firstn; [done|]. destruct Hn as [Hn|Hn%within_tokens_false]; [left; lia|by right].
Qed.

Lemma suffix_within_fit s m : suffix_within_estimated_tokens s m = Some (fit_back (4 * m) s).
Proof.
  unfold suffix_within_estimated_tokens. cbv zeta. rewrite char_boundaries_length.
  destruct (bisect_spec (fun i => within_tokens m <$> suffix_at s (char_boundaries s) i)
    (fun i => within_tokens m (skipn (length s - i) s)) (S (length s)) (S (length s)) 0 (S (length s)))
    as (k & -> & Hk & Ht & Hn).
  - intros i Hi. by rewrite suffix_at_boundaries by lia.
  - lia.
  - lia.
  - apply within_tokens_true. rewrite Nat.sub_0_r, skipn_all. simpl. lia.
  - by left.
  - rewrite suffix_at_boundaries by lia. f_equal. symmetry. apply within_tokens_true in Ht.
    apply fit_back_skipn; [lia|done|]. destruct Hn as [Hn|Hn%within_tokens_false]; [left; lia|right].
    by replace (length s - k - 1)%nat with (length s - S k)%nat by lia.
Qed.

(** The binary searches over the character boundaries return, without a panic and with the
    number of boundaries as fuel, exactly the longest prefix and the longest suffix of whole
    characters whose estimate is within the budget. *)
Theorem budgeted_slices_are_longest s max_tokens :
  prefix_within_estimated_tokens s max_tokens = Some (fit (4 * max_tokens) s) /\
  suffix_within_estimated_tokens s max_tokens = Some (fit_back (4 * max_tokens) s).
Proof. split; [apply prefix_within_fit|apply suffix_within_fit]. Qed.

(** ** Checkpoint truncation *)

(** The two ends that are kept and the marker between them. *)
Definition head_and_tail (s : text) (max_tokens : N) (t : text) : Prop :=
  exists middle tail, let budget := (max_tokens - estimate_text_tokens MARKER)%N in
    let head := fit (4 * div_ceil budget 2) s in
    s = head ++ middle ++ tail /\ tail = fit_back (4 * (budget / 2)) (middle ++ tail) /\ t = head ++ MARKER ++ tail.

Lemma estimate_app a b : (estimate_text_tokens (a ++ b) <= estimate_text_tokens a + estimate_text_tokens b)%N.
Proof. unfold estimate_text_tokens. rewrite byte_len_app. by apply div_ceil_add. Qed.

Lemma halves n : (div_ceil n 2 + n / 2 = n)%N.
Proof.
  unfold div_ceil. pose proof (N.div_mod n 2 ltac:(lia)). pose proof (N.mod_lt n 2 ltac:(lia)).
  set (q := (n / 2)%N) in *. set (r := (n mod 2)%N) in *. clearbody q r. destruct (N.eqb_spec r 0); lia.
Qed.

Lemma truncate_text_cases s m :
  exists t, truncate_text_to_estimated_tokens s m = Some t /\
    ((estimate_text_tokens s <= m)%N /\ t = s \/
     (m < estimate_text_tokens s)%N /\ (m <= estimate_text_tokens MARKER)%N /\ t = fit (4 * m) s \/
     (m < estimate_text_tokens s)%N /\ (estimate_text_tokens MARKER < m)%N /\ head_and_tail s m t).
Proof.
  unfold truncate_text_to_estimated_tokens. cbv zeta.
  destruct (N.eqb_spec m 0) as [->|Hm].
  - exists []. split; [done|]. destruct (N.le_gt_cases (estimate_text_tokens s) 0) as [H|H].
    + left. split; [done|]. apply estimate_le in H. symmetry. apply byte_len_nil. lia.
    + right; left. split; [done|]. split; [lia|]. destruct s as [|c s]; [done|]. cbn [fit].
      destruct (N.leb_spec (len_utf8 c) (4 * 0)); [|done]. pose proof (len_utf8_bounds c). lia.
  - destruct (N.leb_spec (estimate_text_tokens s) m); [exists s; auto|].
    destruct (N.leb_spec m (estimate_text_tokens MARKER)); [rewrite prefix_within_fit; eexists; split; [done|]; auto|].
    rewrite prefix_within_fit. set (budget := (m - estimate_text_tokens MARKER)%N).
    destruct (fit_prefix (4 * div_ceil budget 2) s) as (rest & Hs & _).
    assert (E : slice_from (byte_len (fit (4 * div_ceil budget 2) s)) s = Some rest).
    { rewrite Hs at 2. unfold slice_from. by rewrite split_bytes_app. }
    rewrite E, suffix_within_fit. eexists; split; [done|]. right; right. split; [done|]. split; [done|].
    destruct (fit_back_suffix (4 * (budget / 2)) rest) as (middle & Hmid).
    exists middle, (fit_back (4 * (budget / 2)) rest). cbv zeta. fold budget. rewrite <- Hmid. auto.
Qed.

Lemma truncate_text_bound s m t : truncate_text_to_estimated_tokens s m = Some t -> (estimate_text_tokens t <= m)%N.
Proof.
  intros H. destruct (truncate_text_cases s m) as (t' & E & Hcase). rewrite E in H. injection H as ->.
  destruct Hcase as [[? ->]|[(_ & _ & ->)|(_ & Hm & middle & tail & Hht)]]; [done|apply estimate_le, fit_byte_len|].
  cbv zeta in Hht. destruct Hht as (_ & Htail & ->). set (budget := (m - estimate_text_tokens MARKER)%N) in *.
  etransitivity; [apply estimate_app|]. etransitivity; [apply N.add_le_mono_l, estimate_app|].
  assert (estimate_text_tokens (fit (4 * div_ceil budget 2) s) <= div_ceil budget 2)%N by apply estimate_le, fit_byte_len.
  assert (estimate_text_tokens tail <= budget / 2)%N by (rewrite Htail; apply estimate_le, fit_back_byte_len).
  pose proof (halves budget). lia.
Qed.

(** Truncating a checkpoint always returns a text within the token budget: the text itself
    when it fits, otherwise its longest prefix when the budget has no room for the marker, and
    otherwise its two ends, each as long as its half of the remaining budget allows and never
    overlapping, around the marker. *)
Theorem truncate_text_to_estimated_tokens_spec s max_tokens :
  exists t, truncate_text_to_estimated_tokens s max_tokens = Some t /\
    (estimate_text_tokens t <= max_tokens)%N /\
    (if decide (estimate_text_tokens s <= max_tokens)%N then t = s
     else if decide (max_tokens <= estimate_text_tokens MARKER)%N then t = fit (4 * max_tokens) s
     else head_and_tail s max_tokens t).
Proof.
  destruct (truncate_text_cases s max_tokens) as (t & E & Hcase). exists t. split; [done|].
  split; [by eapply truncate_text_bound|]. repeat case_decide; naive_solver lia.
Qed.

(** ** The user messages a compaction keeps *)

Definition total_tokens (ms : list text) : N := sum_N (map estimate_text_tokens ms).

Lemma total_tokens_app a b : total_tokens (a ++ b) = (total_tokens a + total_tokens b)%N.
Proof. unfold total_tokens. by rewrite map_app, sum_N_app. Qed.

Lemma total_tokens_rev a : total_tokens (rev a) = total_tokens a.
Proof. induction a as [|x a IH]; [done|]. simpl. rewrite total_tokens_app, IH. unfold total_tokens. simpl. lia. Qed.

(** From newest to oldest: the messages that fit whole, then at most one truncated message. *)
Definition kept_from (ms : list text) (budget : N) (kept : list text) : Prop :=
  exists whole older, ms = whole ++ older /\ (total_tokens whole <= budget)%N /\
    ((older = [] \/ total_tokens whole = budget) /\ kept = whole \/
     exists m older', older = m :: older' /\ (budget - total_tokens whole < estimate_text_tokens m)%N /\
       exists cut, truncate_text_to_estimated_tokens m (budget - total_tokens whole) = Some cut /\
         kept = whole ++ (if is_empty cut then [] else [cut])).

Lemma push_while_spec ms budget :
  exists budget', push_while ms budget = Some budget' /\
    exists kept, newest_first budget' = newest_first budget ++ kept /\ kept_from ms (remaining_tokens budget) kept.
Proof.
  revert budget; induction ms as [|m ms IH]; intros budget; cbn [push_while].
  { exists budget. split; [done|]. exists []. rewrite app_nil_r. split; [done|]. exists [], [].
    unfold total_tokens. simpl. split; [done|]. split; [lia|]. left. auto. }
  unfold push_newest. cbv zeta. destruct (N.leb_spec (estimate_text_tokens m) (remaining_tokens budget)) as [Hle|Hgt].
  - set (b1 := {| remaining_tokens := remaining_tokens budget - estimate_text_tokens m; newest_first := newest_first budget ++ [m] |}).
    destruct (N.ltb_spec 0 (remaining_tokens budget - estimate_text_tokens m)).
    + destruct (IH b1) as (b' & -> & kept & Hn & whole & older & -> & Hw & Hk). exists b'. split; [done|].
      exists (m :: kept). simpl in Hn. rewrite Hn, <- app_assoc. split; [done|]. exists (m :: whole), older.
      assert (E : total_tokens (m :: whole) = (estimate_text_tokens m + total_tokens whole)%N) by done.
      simpl in Hw, Hk. split; [done|]. split; [lia|].
      destruct Hk as [[Hk ->]|(x & older' & -> & Hx & cut & Hcut & ->)].
      * left. split; [|done]. destruct Hk; [by left|right; lia].
      * right. exists x, older'. split; [done|].
        replace (remaining_tokens budget - total_tokens (m :: whole))%N
          with (remaining_tokens budget - estimate_text_tokens m - total_tokens whole)%N by lia.
        split; [done|]. by exists cut.
    + exists b1. split; [done|]. exists [m]. split; [done|]. exists [m], ms. unfold total_tokens. simpl.
      split; [done|]. split; [lia|]. left. split; [right; lia|done].
  - destruct (truncate_text_cases m (remaining_tokens budget)) as (cut & Hcut & _). rewrite Hcut.
    eexists; split; [done|]. exists (if is_empty cut then [] else [cut]). simpl.
    split; [destruct (is_empty cut); [by rewrite app_nil_r|done]|]. exists [], (m :: ms). unfold total_tokens. simpl.
    split; [done|]. split; [lia|]. right. exists m, ms. rewrite N.sub_0_r. split; [done|]. split; [done|]. by exists cut.
Qed.

Lemma kept_from_bound ms budget kept : kept_from ms budget kept -> (total_tokens kept <= budget)%N.
Proof.
  intros (whole & older & _ & Hw & [[_ ->]|(m & older' & _ & _ & cut & Hcut & ->)]); [done|].
  apply truncate_text_bound in Hcut. rewrite total_tokens_app.
  destruct (is_empty cut); unfold total_tokens in *; simpl; lia.
Qed.

(** The user messages a compaction keeps never exceed its token budget; they are, in their
    original order, the longest run of newest messages that fit whole, preceded by the truncation
    of the next older message to what the budget has left (dropped when nothing of it remains);
    the walk stops there, and stops early only when the budget is used up exactly. *)
Theorem bounded_compaction_user_messages_spec messages :
  exists kept, bounded_compaction_user_messages messages = Some kept /\
    (total_tokens kept <= COMPACTION_USER_MESSAGE_MAX_TOKENS)%N /\
    kept_from (rev messages) COMPACTION_USER_MESSAGE_MAX_TOKENS (rev kept).
Proof.
  unfold bounded_compaction_user_messages.
  destruct (push_while_spec (rev messages) CompactionUserMessageBudget_new) as (b & -> & kept & Hn & Hk).
  exists (rev kept). cbn [option_fmap fmap option_map]. unfold finish. rewrite Hn. split; [done|].
  rewrite rev_involutive, total_tokens_rev. split; [by eapply kept_from_bound|done].
Qed.

(** ** The estimate *)

(** The sums without saturation. *)
Definition exact_call_tokens (call : ModelToolCall) : N :=
  MESSAGE_OVERHEAD_TOKENS + estimate_text_tokens (call_id call) + estimate_text_tokens (tool_name call) +
  estimate_text_tokens (arguments_json call).

Definition exact_message_tokens {Json} (message : ModelMessage Json) : N :=
  MESSAGE_OVERHEAD_TOKENS +
  match message with
  | SystemMessage content | DeveloperMessage content | AgentMessage content
  | UserMessage content | AssistantMessage content => estimate_text_tokens content
  | UserParts parts => sum_N (map part_tokens parts)
  | AssistantToolCalls content tool_calls continuation =>
      default 0 (estimate_text_tokens <$> content) +
      default 0 ((fun c => estimate_text_tokens (reasoning_content c)) <$> continuation) +
      sum_N (map exact_call_tokens tool_calls)
  | ToolMessage call_id tool_name result _ =>
      estimate_text_tokens call_id + estimate_text_tokens tool_name + estimate_text_tokens result
  end.

Lemma sum_min {A} (f g : A -> N) M l :
  (forall x, N.min (f x) M = N.min (g x) M) -> N.min (sum_N (map f l)) M = N.min (sum_N (map g l)) M.
Proof. intros H. induction l as [|x l IH]; simpl; [done|]. specialize (H x). lia. Qed.

Ltac saturate := unfold saturating_add_usize in *; rewrite ?saturating_sum_min in *.

Lemma call_tokens_exact c : N.min (call_tokens c) usize_max = N.min (exact_call_tokens c) usize_max.
Proof. unfold call_tokens, exact_call_tokens. saturate. lia. Qed.

Lemma message_tokens_exact {Json} (m : ModelMessage Json) : N.min (message_tokens m) usize_max = N.min (exact_message_tokens m) usize_max.
Proof.
  unfold message_tokens, exact_message_tokens, content_tokens. destruct m; saturate; try lia.
  pose proof (sum_min call_tokens exact_call_tokens usize_max tool_calls call_tokens_exact). lia.
Qed.

Section Requests.
Context {Json : Type} (json_to_string : Json -> text).

Definition exact_tool_tokens (tool : ToolSchema Json) : N :=
  TOOL_SCHEMA_OVERHEAD_TOKENS + estimate_text_tokens (schema_name tool) + estimate_text_tokens (description tool) +
  estimate_text_tokens (json_to_string (input_schema tool)).

Definition exact_request_tokens (request : ChatRequest Json) : N :=
  REQUEST_OVERHEAD_TOKENS + default 0 (pending_system_prompt_tokens request) +
  estimate_text_tokens (system_prompt request) +
  sum_N (map exact_message_tokens (messages request)) + sum_N (map exact_tool_tokens (tools request)).

Lemma tool_tokens_exact t :
  N.min (tool_tokens json_to_string t) usize_max = N.min (exact_tool_tokens t) usize_max.
Proof. unfold tool_tokens, exact_tool_tokens. saturate. lia. Qed.

Lemma estimate_request_exact request :
  estimate_request_tokens json_to_string request = N.min (exact_request_tokens request) u32_max.
Proof.
  unfold estimate_request_tokens, exact_request_tokens. cbv zeta. saturate.
  pose proof (sum_min message_tokens exact_message_tokens usize_max (messages request) message_tokens_exact).
  pose proof (sum_min (tool_tokens json_to_string) exact_tool_tokens usize_max (tools request) tool_tokens_exact).
  assert (u32_max <= usize_max)%N by (unfold u32_max, usize_max, u64_max; lia). lia.
Qed.

Lemma estimate_messages_exact (ms : list (ModelMessage Json)) :
  estimate_model_messages_tokens ms = N.min (sum_N (map exact_message_tokens ms)) u32_max.
Proof.
  unfold estimate_model_messages_tokens. saturate.
  pose proof (sum_min message_tokens exact_message_tokens usize_max ms message_tokens_exact).
  assert (u32_max <= usize_max)%N by (unfold u32_max, usize_max, u64_max; lia). lia.
Qed.

(** The estimate of a prepared request is the exact sum of its parts capped at [u32::MAX]: the
    saturating folds in between lose nothing below the cap, so the estimate never shrinks when a
    message is added and never wraps. *)
Theorem estimate_request_tokens_exact request :
  estimate_request_tokens json_to_string request = N.min (exact_request_tokens request) u32_max /\
  forall m, (estimate_request_tokens json_to_string request <=
    estimate_request_tokens json_to_string
      {| model_context_window := model_context_window request; system_prompt := system_prompt request;
         pending_system_prompt_tokens := pending_system_prompt_tokens request;
         messages := messages request ++ [m]; tools := tools request |})%N.
Proof.
  split; [apply estimate_request_exact|]. intros m. rewrite !estimate_request_exact. unfold exact_request_tokens.
  cbn [messages tools system_prompt pending_system_prompt_tokens]. rewrite map_app, sum_N_app. lia.
Qed.

(** The status of a request uses whichever is larger, the provider's usage plus the local
    messages and prepared tokens (capped at [u32::MAX]) or the full local estimate, names that
    source, and reports the limit reached exactly when no token of the window is left; for a
    [u32] window the distance to the limit stays inside [i64]. *)
Theorem from_provider_usage_spec request margin provider_total local positive :
  (model_context_window request <= u32_max)%N ->
  let status := from_provider_usage json_to_string request margin provider_total local positive in
  let usage := N.min (provider_total + N.min (sum_N (map exact_message_tokens local)) u32_max + positive) u32_max in
  let full := N.min (exact_request_tokens request) u32_max in
  active_context_tokens status = N.max usage full /\
  (token_source status = ProviderUsageWithLocalEstimate <-> (full < usage)%N) /\
  (token_limit_reached status = true <-> (model_context_window request <= active_context_tokens status)%N) /\
  (- Z.of_N u32_max <= tokens_until_limit status <= Z.of_N u32_max)%Z /\
  (overflow_margin_tokens status <= u32_max)%N.
Proof.
  intros Hw. unfold from_provider_usage. cbv zeta. rewrite estimate_messages_exact, estimate_request_exact.
  unfold saturating_add_u32. set (full := N.min (exact_request_tokens request) u32_max).
  set (loc := N.min (sum_N _) u32_max).
  replace (N.min (N.min (provider_total + loc) u32_max + positive) u32_max)
    with (N.min (provider_total + loc + positive) u32_max) by lia.
  set (usage := N.min (provider_total + loc + positive) u32_max).
  assert (full <= u32_max /\ usage <= u32_max)%N as [Hf Hu] by lia.
  destruct (N.ltb_spec full usage); unfold from_active_context_tokens; cbn;
    rewrite Z.leb_le; repeat split; intros; try done; try lia; unfold u32_max in *; lia.
Qed.
End Requests.

Definition sample_request : ChatRequest text :=
  {| model_context_window := 30; system_prompt := lit "be brief"; pending_system_prompt_tokens := None;
     messages := [UserMessage (lit "hello")]; tools := [] |}.

Lemma from_provider_usage_spec_witness :
  active_context_tokens (from_provider_usage id sample_request 5 100 [] 2) = 102 /\
  token_limit_reached (from_provider_usage id sample_request 5 100 [] 2) = true.
Proof.
  destruct (from_provider_usage_spec id sample_request 5 100 [] 2 ltac:(vm_compute; discriminate))
    as (Ha & _ & Hr & _).
  split; [exact Ha|]. apply Hr. rewrite Ha. vm_compute. discriminate.
Defined.
