(* ===== verification/ModelPolicy.v ===== *)
(** * Model policy (src/src/llm/model_policy.rs, config/model.rs, system_prompt.rs)

    What a turn may send: the working and hard input limits derived from the advertised context
    window, the transport profile built from them, and the provider protocol contracts.  Of the
    configuration the record holds the fields [from_config] reads; the built-in prompt files are
    arguments. *)
From S2P Require Import Prelude.
From S2P Require Import Text.

(** ** Provider profiles *)

Inductive ProviderMetadataMode := LmStudioNativeRequired | OpenAiCompatibleOnly.
Inductive ProviderApiMode := ChatCompletions | Responses.
Inductive ProviderProfile := LmStudio | OpenAiCompatible | OpenAiResponses | LmStudioChatCompletions.
#[export] Instance ProviderProfile_eq_dec : EqDecision ProviderProfile.
Proof. solve_decision. Defined.

Definition as_str (p : ProviderProfile) : text :=
  match p with
  | LmStudio => lit "lm_studio"
  | OpenAiCompatible => lit "openai_compatible"
  | OpenAiResponses => lit "openai_responses"
  | LmStudioChatCompletions => lit "lm_studio_chat_completions"
  end.

Definition one_of (s : text) (names : list text) : bool := existsb (text_eqb s) names.

Definition parse_profile (value : text) : option ProviderProfile :=
  let s := to_ascii_lowercase (trim value) in
  if one_of s [lit "lm_studio"; lit "lm-studio"; lit "lmstudio"] then Some LmStudio
  else if one_of s [lit "openai_compatible"; lit "openai-compatible"; lit "openai"] then Some OpenAiCompatible
  else if one_of s [lit "openai_responses"; lit "openai-responses"; lit "responses"] then Some OpenAiResponses
  else if one_of s [lit "lm_studio_chat_completions"; lit "lm-studio-chat-completions"; lit "lmstudio-chat-completions"]
  then Some LmStudioChatCompletions
  else None.

Definition metadata_mode (p : ProviderProfile) : ProviderMetadataMode :=
  match p with
  | LmStudio | LmStudioChatCompletions => LmStudioNativeRequired
  | OpenAiCompatible | OpenAiResponses => OpenAiCompatibleOnly
  end.

Definition api_mode (p : ProviderProfile) : ProviderApiMode :=
  match p with
  | LmStudio | OpenAiResponses => Responses
  | OpenAiCompatible | LmStudioChatCompletions => ChatCompletions
  end.

Definition from_legacy_modes (m : ProviderMetadataMode) (a : ProviderApiMode) : ProviderProfile :=
  match m, a with
  | LmStudioNativeRequired, Responses => LmStudio
  | LmStudioNativeRequired, ChatCompletions => LmStudioChatCompletions
  | OpenAiCompatibleOnly, Responses => OpenAiResponses
  | OpenAiCompatibleOnly, ChatCompletions => OpenAiCompatible
  end.

(** ** Limits *)

Record ContextWindowLimits := { working : N; effective_full : N }.

(** The product is a [u64]; a [u32] times a percentage stays far below its width. *)
Definition percentage_of (value percent : N) : N := (N.min (value * percent / 100) u32_max)%N.

Definition resolve_limits (advertised_context_window configured_overflow_margin_tokens : N) : ContextWindowLimits :=
  let working := percentage_of advertised_context_window 90 in
  let minimum_hard := N.min (saturating_add_u32 working 1) advertised_context_window in
  let codex_effective_full := N.max (percentage_of advertised_context_window 95) minimum_hard in
  let configured_margin := N.min configured_overflow_margin_tokens u32_max in
  let margin_limited := (advertised_context_window - configured_margin)%N in
  let effective_full := if (working <? margin_limited)%N then N.min codex_effective_full margin_limited
                        else codex_effective_full in
  {| working := working; effective_full := effective_full |}.

(** ** Policies *)

Inductive InputModality := TextModality | ImageModality.
#[export] Instance InputModality_eq_dec : EqDecision InputModality.
Proof. solve_decision. Defined.

Record ModelPolicy := {
  policy_id : text;
  base_instructions : text;
  context_window : N;
  working_context_token_limit : N;
  effective_context_token_limit : N;
  input_modalities : list InputModality;
  supports_tools : bool;
  supports_parallel_tool_calls : bool
}.

Record ModelCapabilities := { cap_tools : bool; cap_reasoning : bool; cap_images : bool }.

Record ModelProfile := {
  profile_name : text;
  profile_context_window : N;
  max_output_tokens : N;
  provider_profile : ProviderProfile;
  capabilities : ModelCapabilities
}.

Record ResolvedConfig := {
  cfg_model : text;
  cfg_context_window : N;
  cfg_overflow_margin_tokens : N;
  cfg_compaction_budget_tokens : option N;
  cfg_system_prompt : text;
  cfg_supports_images : bool;
  cfg_supports_tools : bool;
  cfg_parallel_tool_calls : bool;
  cfg_provider_profile : ProviderProfile
}.

Definition RETIRED_MAX_OUTPUT_TOKENS_PLACEHOLDER : N := 1.

Definition USER_CONFIGURED_SYSTEM_PROMPT_HEADING : text := lit "## User-configured system prompt".
#[global] Arguments USER_CONFIGURED_SYSTEM_PROMPT_HEADING : simpl never.

Definition is_line_break (c : char) : bool := (c =? CR)%N || (c =? LF)%N.

Definition append_user_configured_system_prompt (base : text) (custom : option text) : text :=
  match (match custom with Some c => let c := trim c in if is_empty c then None else Some c | None => None end) with
  | None => base
  | Some custom =>
    trim_end_by is_line_break base ++ [LF; LF] ++ USER_CONFIGURED_SYSTEM_PROMPT_HEADING ++ [LF; LF] ++ custom
  end.

Definition MAX_USER_CONFIGURED_SYSTEM_PROMPT_CHARS : nat := N.to_nat 16384.

(** The error carries the limit it names. *)
Definition normalize_user_configured_system_prompt (value : option text) : result (option text) nat :=
  match (match value with Some c => let c := trim c in if is_empty c then None else Some c | None => None end) with
  | None => Ok None
  | Some value =>
    if MAX_USER_CONFIGURED_SYSTEM_PROMPT_CHARS <? length value
    then Err MAX_USER_CONFIGURED_SYSTEM_PROMPT_CHARS
    else Ok (Some value)
  end.

(** [ModelPolicy::from_config]; the three prompt files are the arguments. *)
Definition from_config (system_md profile_md documentation : text) (config : ResolvedConfig) : ModelPolicy :=
  let limits := resolve_limits (cfg_context_window config) (cfg_overflow_margin_tokens config) in
  let builtin_instructions := trim system_md ++ [LF; LF] ++ trim profile_md ++ [LF; LF] ++ trim documentation in
  {| policy_id := cfg_model config;
     base_instructions := append_user_configured_system_prompt builtin_instructions (Some (cfg_system_prompt config));
     context_window := cfg_context_window config;
     working_context_token_limit :=
       N.min (working limits) (default (working limits) (cfg_compaction_budget_tokens config));
     effective_context_token_limit := effective_full limits;
     input_modalities := TextModality :: (if cfg_supports_images config then [ImageModality] else []);
     supports_tools := cfg_supports_tools config;
     supports_parallel_tool_calls := cfg_parallel_tool_calls config |}.

Definition compaction_budget_tokens (p : ModelPolicy) : N := working_context_token_limit p.

Definition transport_profile (p : ModelPolicy) (profile : ProviderProfile) : ModelProfile :=
  {| profile_name := policy_id p;
     profile_context_window := effective_context_token_limit p;
     max_output_tokens := RETIRED_MAX_OUTPUT_TOKENS_PLACEHOLDER;
     provider_profile := profile;
     capabilities := {| cap_tools := supports_tools p; cap_reasoning := false;
                        cap_images := bool_decide (ImageModality ∈ input_modalities p) |} |}.

(** [ResolvedTurnPolicy::resolve]: the policy it admits; the provider capabilities are passed
    through and no reasoning request is made.  The error carries the refused override. *)
Definition resolve_turn_policy (model_override : option text) (model : ModelPolicy) : result ModelPolicy text :=
  match model_override with
  | Some o => if negb (text_eqb (trim o) (policy_id model)) then Err o else Ok model
  | None => Ok model
  end.

(** ** Properties *)

Lemma percentage_le v p : (p <= 100)%N -> (percentage_of v p <= v)%N.
Proof.
  intros H. unfold percentage_of. etransitivity; [apply N.le_min_l|].
  apply N.Div0.div_le_upper_bound. nia.
Qed.

Lemma percentage_lt v : (0 < v)%N -> (percentage_of v 90 < v)%N.
Proof.
  intros H. unfold percentage_of. eapply N.le_lt_trans; [apply N.le_min_l|].
  apply N.Div0.div_lt_upper_bound. lia.
Qed.

Lemma resolve_limits_cases advertised margin :
  (0 < advertised <= u32_max)%N ->
  let limits := resolve_limits advertised margin in
  (working limits < effective_full limits <= advertised)%N /\
  ((working limits < advertised - margin)%N -> (effective_full limits <= advertised - margin)%N) /\
  ((advertised - margin <= working limits)%N ->
    effective_full limits = N.max (percentage_of advertised 95) (working limits + 1)).
Proof.
  intros [Hp Hm]. unfold resolve_limits. cbv zeta. cbn [working effective_full].
  pose proof (percentage_lt advertised Hp) as Hw. pose proof (percentage_le advertised 95 ltac:(lia)) as H95.
  assert (percentage_of advertised 90 <= u32_max)%N by (unfold percentage_of; lia).
  set (w := percentage_of advertised 90) in *. set (c := percentage_of advertised 95) in *. clearbody w c.
  unfold saturating_add_u32. destruct (N.ltb_spec w (advertised - N.min margin u32_max)); lia.
Qed.

(** Automatic compaction always starts strictly before the hard input limit, whatever margin
    is configured, and the hard limit never exceeds the advertised window; the margin lowers the
    hard limit exactly when the lowered limit still lies above the compaction trigger. *)
Theorem resolve_limits_ordered advertised margin :
  (0 < advertised <= u32_max)%N ->
  let limits := resolve_limits advertised margin in
  (working limits < effective_full limits <= advertised)%N /\
  ((working limits < advertised - margin)%N -> (effective_full limits <= advertised - margin)%N) /\
  ((advertised - margin <= working limits)%N ->
    effective_full limits = N.max (percentage_of advertised 95) (working limits + 1)).
Proof.
  apply resolve_limits_cases.
Qed.

Lemma resolve_limits_ordered_witness :
  working (resolve_limits 1000 20) = 900%N /\
  (working (resolve_limits 1000 20) < effective_full (resolve_limits 1000 20) <= 1000)%N.
Proof.
  split; [reflexivity|]. exact (proj1 (resolve_limits_ordered 1000 20 ltac:(vm_compute; split; [reflexivity|discriminate]))).
Defined.

(** The policy of a turn keeps that order: its compaction budget is strictly below the window
    its transport profile advertises, an explicit compaction budget only lowers it, and images
    reach the transport exactly when the model is configured for them. *)
Theorem from_config_policy sys prof doc config target :
  (0 < cfg_context_window config <= u32_max)%N ->
  let p := from_config sys prof doc config in
  let t := transport_profile p target in
  (compaction_budget_tokens p < profile_context_window t <= cfg_context_window config)%N /\
  (forall b, cfg_compaction_budget_tokens config = Some b -> (compaction_budget_tokens p <= b)%N) /\
  cap_images (capabilities t) = cfg_supports_images config /\ cap_reasoning (capabilities t) = false.
Proof.
  intros H. unfold from_config, compaction_budget_tokens, transport_profile. cbv zeta. cbn -[resolve_limits N.min].
  pose proof (proj1 (resolve_limits_cases (cfg_context_window config) (cfg_overflow_margin_tokens config) H)) as Ho.
  split; [lia|]. split; [|split; [|done]].
  - intros b ->. cbn. lia.
  - destruct (cfg_supports_images config); [|apply bool_decide_eq_false; set_solver].
    apply bool_decide_eq_true. set_solver.
Qed.

Definition sample_config : ResolvedConfig :=
  {| cfg_model := lit "m"; cfg_context_window := 32768; cfg_overflow_margin_tokens := 1024;
     cfg_compaction_budget_tokens := Some 20000%N; cfg_system_prompt := []; cfg_supports_images := true;
     cfg_supports_tools := true; cfg_parallel_tool_calls := false; cfg_provider_profile := LmStudio |}.

Lemma from_config_policy_witness :
  compaction_budget_tokens (from_config [] [] [] sample_config) = 20000%N /\
  (compaction_budget_tokens (from_config [] [] [] sample_config) <
   profile_context_window (transport_profile (from_config [] [] [] sample_config) LmStudio) <= 32768)%N.
Proof.
  split; [vm_compute; reflexivity|].
  exact (proj1 (from_config_policy [] [] [] sample_config LmStudio ltac:(vm_compute; split; [reflexivity|discriminate]))).
Defined.

Definition shout_char (c : char) : char := if (97 <=? c)%N && (c <=? 122)%N then (c - 32)%N else c.

(** The stored profile names and the legacy pair of modes both round-trip: parsing the name of
    a profile, in any ASCII case and with white space around it, gives the profile back, and so does
    rebuilding it from its metadata and API mode. *)
Theorem provider_profile_roundtrip p :
  parse_profile (as_str p) = Some p /\ parse_profile ([32; LF]%N ++ map shout_char (as_str p) ++ [9%N]) = Some p /\
  from_legacy_modes (metadata_mode p) (api_mode p) = p /\
  forall m a, metadata_mode (from_legacy_modes m a) = m /\ api_mode (from_legacy_modes m a) = a.
Proof.
  destruct p; (split; [vm_compute; reflexivity|]); (split; [vm_compute; reflexivity|]);
    (split; [reflexivity|]); by intros [] [].
Qed.
