(* ===== verification/Truncate.v ===== *)
(** * Truncation of tool output (src/src/tool/truncate.rs)

    Byte-bounded pipe reads, the preview with its spool file, and the clip functions.  The bytes a
    pipe yields and the spool file (its lease, directory and handle) are parameters: a pipe is
    the list of its reads, a file is an abstract value that [open_spool], [write_all] and [flush]
    produce or refuse. *)
From S2P Require Import Prelude.
From S2P Require Import Text.
From S2P Require Import Utf8.

Open Scope N_scope.

(** ** Pipes *)

Record BoundedPipeOutput := { bytes : list N; pipe_truncated : bool }.

Definition nlen {A} (l : list A) : N := N.of_nat (length l).

(** [read_pipe_bounded]: a read of no byte, or the end of the list, ends the pipe. *)
Fixpoint read_pipe_bounded {E} (reads : list (result (list N) E)) (max_bytes : N) (stored : list N)
    (truncated : bool) : result BoundedPipeOutput E :=
  match reads with
  | [] => Ok {| bytes := stored; pipe_truncated := truncated |}
  | Err e :: _ => Err e
  | Ok chunk :: reads' =>
    let read := nlen chunk in
    if read =? 0 then Ok {| bytes := stored; pipe_truncated := truncated |}
    else
      let remaining := max_bytes - nlen stored in
      let retained := N.min remaining read in
      read_pipe_bounded reads' max_bytes (stored ++ firstn (N.to_nat retained) chunk)
        (truncated || (retained <? read))
  end.

(** ** Previews *)

Record ToolOutputConfig := { max_lines : N; max_bytes : N; max_results : N }.

Record PreviewState := { preview : text; newline_count : N }.

Fixpoint append_preview_bounded (limits : ToolOutputConfig) (segment : text) (s : PreviewState)
    : PreviewState * bool :=
  match segment with
  | [] => (s, true)
  | ch :: segment' =>
    if (N.max (max_bytes limits) 1 <? saturating_add_usize (byte_len (preview s)) (len_utf8 ch))
       || ((ch =? LF) && (N.max (max_lines limits) 1 <=? saturating_add_usize (newline_count s) 1))
    then (s, false)
    else append_preview_bounded limits segment'
           {| preview := preview s ++ [ch];
              newline_count := if ch =? LF then saturating_add_usize (newline_count s) 1 else newline_count s |}
  end.

Record TruncatedToolOutput (File : Type) := {
  preview_text : text;
  truncated_output_path : option text;
  output_truncated : bool;
  spooled : option File
}.
Arguments preview_text {File} _.
Arguments truncated_output_path {File} _.
Arguments output_truncated {File} _.
Arguments spooled {File} _.

Section Spool.
Context {File IoError : Type} (open_spool : result File IoError) (write_all : File -> text -> result File IoError)
  (flush : File -> result File IoError) (output_path : text).

(** [append_segment] over the preview and the spool, once one was opened. *)
Definition append_segment (limits : ToolOutputConfig) (segment : text) (s : PreviewState) (spool : option File)
    : result (PreviewState * option File) IoError :=
  match spool with
  | Some file => let? file' := write_all file segment in Ok (s, Some file')
  | None =>
    let exact_prefix := preview s in
    let '(s', complete) := append_preview_bounded limits segment s in
    if complete then Ok (s', None)
    else
      let? file := open_spool in
      let? file := write_all file exact_prefix in
      let? file := write_all file segment in
      Ok (s', Some file)
  end.

Fixpoint append_chunks (limits : ToolOutputConfig) (separator : text) (first : bool) (chunks : list text)
    (s : PreviewState) (spool : option File) : result (PreviewState * option File) IoError :=
  match chunks with
  | [] => Ok (s, spool)
  | chunk :: chunks' =>
    let? (s, spool) := (if first then Ok (s, spool) else append_segment limits separator s spool) in
    let? (s, spool) := append_segment limits chunk s spool in
    append_chunks limits separator false chunks' s spool
  end.

Definition truncation_notice : text :=
  [LF] ++ lit "[output truncated]" ++ [LF] ++ lit "Full output saved to: " ++ output_path.

Definition preview_chunks (limits : ToolOutputConfig) (separator : text) (chunks : list text)
    : result (TruncatedToolOutput File) IoError :=
  let? (s, spool) := append_chunks limits separator true chunks {| preview := []; newline_count := 0 |} None in
  match spool with
  | None =>
    Ok {| preview_text := preview s; truncated_output_path := None; output_truncated := false; spooled := None |}
  | Some file =>
    let? file := flush file in
    Ok {| preview_text := preview s ++ truncation_notice; truncated_output_path := Some output_path;
          output_truncated := true; spooled := Some file |}
  end.

(** [ToolTruncator::preview] *)
Definition preview_one (limits : ToolOutputConfig) (s : text) : result (TruncatedToolOutput File) IoError :=
  preview_chunks limits [] [s].

End Spool.

(** ** Clipping *)

(** The loop [while boundary > 0 && !is_char_boundary(boundary)], by structure of the boundary. *)
Fixpoint floor_boundary (s : text) (boundary : nat) : nat :=
  match boundary with
  | O => O
  | S b => if is_char_boundary (N.of_nat boundary) s then boundary else floor_boundary s b
  end.

Definition truncate_to_char_boundary (s : text) (max_bytes : N) : option text :=
  if byte_len s <=? max_bytes then Some s
  else slice_to (N.of_nat (floor_boundary s (N.to_nat (N.min max_bytes (byte_len s))))) s.

Definition clip_text_to_char_boundary (s : text) (max_bytes : N) : option text :=
  if byte_len s <=? max_bytes then Some s else truncate_to_char_boundary s max_bytes.

Definition clip_text_with_ellipsis (s : text) (max_bytes : N) : option text :=
  if byte_len s <=? max_bytes then Some s
  else if max_bytes <=? 3 then clip_text_to_char_boundary s max_bytes
  else match clip_text_to_char_boundary s (max_bytes - 3) with
       | Some clipped => Some (trim_end clipped ++ lit "...")
       | None => None
       end.

(** The loop [while start < len && !is_char_boundary(start)]; [distance] is [len - start]. *)
Fixpoint ceil_boundary (s : text) (distance : nat) : N :=
  match distance with
  | O => byte_len s
  | S d => let start := byte_len s - N.of_nat distance in
           if is_char_boundary start s then start else ceil_boundary s d
  end.

Definition utf8_suffix_within_bytes (s : text) (max_bytes : N) : option text :=
  if byte_len s <=? max_bytes then Some s
  else slice_from (ceil_boundary s (N.to_nat max_bytes)) s.

Definition clip_text_head_tail_with_marker (s : text) (max_bytes : N) (marker : text) : option text :=
  if byte_len s <=? max_bytes then Some s
  else if max_bytes =? 0 then Some []
  else if max_bytes <=? byte_len marker then clip_text_to_char_boundary s max_bytes
  else
    let retained_budget := max_bytes - byte_len marker in
    let head_budget := retained_budget / 3 in
    let tail_budget := retained_budget - head_budget in
    match clip_text_to_char_boundary s head_budget, utf8_suffix_within_bytes s tail_budget with
    | Some head, Some tail => Some (head ++ marker ++ tail)
    | _, _ => None
    end.

Close Scope N_scope.

(** ** Clipping is [fit] *)

Lemma floor_boundary_spec s b :
  floor_boundary s b <= b /\ is_char_boundary (N.of_nat (floor_boundary s b)) s = true /\
  forall j, floor_boundary s b < j <= b -> is_char_boundary (N.of_nat j) s = false.
Proof.
  induction b as [|b (IH1 & IH2 & IH3)]; simpl floor_boundary.
  - split; [lia|]. split; [|lia]. apply is_char_boundary_true. exists 0. split; [lia|done].
  - destruct (is_char_boundary (N.of_nat (S b)) s) eqn:E; [split; [lia|]; split; [done|lia]|].
    split; [lia|]. split; [done|]. intros j Hj. destruct (decide (j = S b)) as [->|]; [done|]. apply IH3. lia.
Qed.

Lemma slice_floor s max : slice_to (N.of_nat (floor_boundary s (N.to_nat max))) s = Some (fit max s).
Proof.
  destruct (floor_boundary_spec s (N.to_nat max)) as (Hle & Hb & Hmax).
  apply is_char_boundary_true in Hb as (k & Hk & Ek). rewrite Ek, slice_to_firstn. f_equal. symmetry.
  apply fit_firstn; [lia|]. destruct (decide (length s <= k)) as [|Hlt]; [by left|right].
  destruct (N.le_gt_cases (byte_len (firstn (S k) s)) max) as [Hge|]; [|done]. exfalso.
  pose proof (byte_len_firstn_strict s k (S k) ltac:(lia) ltac:(lia)).
  specialize (Hmax (N.to_nat (byte_len (firstn (S k) s))) ltac:(lia)). rewrite N2Nat.id in Hmax.
  apply not_true_iff_false in Hmax. apply Hmax, is_char_boundary_true. exists (S k). split; [lia|done].
Qed.

Lemma truncate_fit s max : truncate_to_char_boundary s max = Some (fit max s).
Proof.
  unfold truncate_to_char_boundary. destruct (N.leb_spec (byte_len s) max); [by rewrite fit_all|].
  rewrite N.min_l by lia. apply slice_floor.
Qed.

Lemma clip_fit s max : clip_text_to_char_boundary s max = Some (fit max s).
Proof.
  unfold clip_text_to_char_boundary. destruct (N.leb_spec (byte_len s) max); [by rewrite fit_all|apply truncate_fit].
Qed.

Lemma ceil_boundary_spec s d :
  (N.of_nat d <= byte_len s)%N ->
  (byte_len s - N.of_nat d <= ceil_boundary s d <= byte_len s)%N /\ is_char_boundary (ceil_boundary s d) s = true /\
  forall j, (byte_len s - N.of_nat d <= j < ceil_boundary s d)%N -> is_char_boundary j s = false.
Proof.
  induction d as [|d IH]; intros Hd; cbn [ceil_boundary].
  - split; [lia|]. split; [|lia]. apply is_char_boundary_true. exists (length s). by rewrite firstn_all.
  - cbv zeta. destruct (is_char_boundary (byte_len s - N.of_nat (S d)) s) eqn:E; [split; [lia|]; split; [done|lia]|].
    destruct (IH ltac:(lia)) as (H1 & H2 & H3). split; [lia|]. split; [done|]. intros j Hj.
    destruct (decide (j = byte_len s - N.of_nat (S d))%N) as [->|]; [done|]. apply H3. lia.
Qed.

Lemma suffix_fit s max : utf8_suffix_within_bytes s max = Some (fit_back max s).
Proof.
  unfold utf8_suffix_within_bytes. destruct (N.leb_spec (byte_len s) max); [by rewrite fit_back_all|].
  destruct (ceil_boundary_spec s (N.to_nat max) ltac:(lia)) as (Hr & Hb & Hmin).
  apply is_char_boundary_true in Hb as (k & Hk & Ek). rewrite Ek, slice_from_firstn. f_equal. symmetry.
  pose proof (byte_len_split s k). apply fit_back_skipn; [done|lia|].
  destruct (decide (k = 0)) as [|Hk0]; [by left|right].
  destruct (N.le_gt_cases (byte_len (skipn (k - 1) s)) max) as [Hge|]; [|done]. exfalso.
  pose proof (byte_len_split s (k - 1)). pose proof (byte_len_firstn_strict s (k - 1) k ltac:(lia) ltac:(lia)).
  specialize (Hmin (byte_len (firstn (k - 1) s)) ltac:(lia)).
  apply not_true_iff_false in Hmin. apply Hmin, is_char_boundary_true. exists (k - 1). split; [lia|done].
Qed.

(** The clip functions never slice inside a character and keep as much as the byte limit
    allows: the boundary loops compute the longest prefix and the longest suffix of whole
    characters that fit, and the original text when it fits. *)
Theorem clips_are_longest s max_bytes :
  clip_text_to_char_boundary s max_bytes = Some (fit max_bytes s) /\
  utf8_suffix_within_bytes s max_bytes = Some (fit_back max_bytes s) /\
  ((byte_len s <= max_bytes)%N -> fit max_bytes s = s /\ fit_back max_bytes s = s).
Proof. split; [apply clip_fit|]. split; [apply suffix_fit|]. intros H. by rewrite fit_all, fit_back_all. Qed.

Lemma trim_end_byte_len s : (byte_len (trim_end s) <= byte_len s)%N.
Proof.
  destruct (trim_end_by_app is_whitespace s) as (q & E & _). unfold trim_end. rewrite E at 2.
  rewrite byte_len_app. lia.
Qed.

(** A clipped text is returned for every input, is the text itself when that fits, and never
    exceeds the byte limit, with an ellipsis or with a marker of any length between its two
    ends. *)
Theorem clips_within_limit s max_bytes marker :
  exists e h, clip_text_with_ellipsis s max_bytes = Some e /\
    clip_text_head_tail_with_marker s max_bytes marker = Some h /\
    (byte_len e <= max_bytes)%N /\ (byte_len h <= max_bytes)%N /\
    ((byte_len s <= max_bytes)%N -> e = s /\ h = s) /\
    ((3 < max_bytes < byte_len s)%N -> e = trim_end (fit (max_bytes - 3) s) ++ lit "...") /\
    ((byte_len marker < max_bytes < byte_len s)%N ->
      exists head tail, h = head ++ marker ++ tail /\ head = fit ((max_bytes - byte_len marker) / 3) s /\
        tail = fit_back (max_bytes - byte_len marker - (max_bytes - byte_len marker) / 3) s).
Proof.
  unfold clip_text_with_ellipsis, clip_text_head_tail_with_marker. cbv zeta. rewrite !clip_fit, suffix_fit.
  destruct (N.leb_spec (byte_len s) max_bytes) as [Hle|Hgt].
  { exists s, s. split_and!; auto; lia. }
  assert (Hd : byte_len (lit "...") = 3%N) by done.
  pose proof (fit_byte_len max_bytes s). pose proof (fit_byte_len (max_bytes - 3) s).
  pose proof (trim_end_byte_len (fit (max_bytes - 3) s)).
  assert (exists e, (if (max_bytes <=? 3)%N then Some (fit max_bytes s) else Some (trim_end (fit (max_bytes - 3) s) ++ lit "...")) = Some e /\
    (byte_len e <= max_bytes)%N /\ ((3 < max_bytes)%N -> e = trim_end (fit (max_bytes - 3) s) ++ lit "...")) as (e & He & Hb & Hf).
  { destruct (N.leb_spec max_bytes 3); eexists; (split; [done|]).
    - split; [done|lia].
    - rewrite byte_len_app, Hd. split; [lia|done]. }
  exists e. destruct (N.eqb_spec max_bytes 0) as [->|Hz].
  { exists []. split_and!; auto; try lia; simpl; lia. }
  destruct (N.leb_spec max_bytes (byte_len marker)); eexists; split_and!; try done; try lia; try (intros; apply Hf; lia).
  - set (b := (max_bytes - byte_len marker)%N) in *. pose proof (fit_byte_len (b / 3) s).
    pose proof (fit_back_byte_len (b - b / 3) s). assert (b / 3 <= b)%N by (apply N.Div0.div_le_upper_bound; lia).
    rewrite !byte_len_app. lia.
  - intros _. eexists _, _. split; [done|]. done.
Qed.

(** * Correctness of bounded pipe reads and previews *)

(** ** Pipes *)

(** Everything the pipe delivers before it ends, or its first error. *)
Fixpoint pipe_data {E} (reads : list (result (list N) E)) : result (list N) E :=
  match reads with
  | [] | Ok [] :: _ => Ok []
  | Err e :: _ => Err e
  | Ok chunk :: reads' => let? data := pipe_data reads' in Ok (chunk ++ data)
  end.

Lemma nlen_app {A} (a b : list A) : nlen (a ++ b) = (nlen a + nlen b)%N.
Proof. unfold nlen. rewrite length_app. lia. Qed.

Lemma read_pipe_loop {E} (reads : list (result (list N) E)) max stored truncated :
  (nlen stored <= max)%N ->
  read_pipe_bounded reads max stored truncated =
    let? data := pipe_data reads in
    Ok {| bytes := stored ++ firstn (N.to_nat (max - nlen stored)) data;
          pipe_truncated := truncated || (max <? nlen stored + nlen data)%N |}.
Proof.
  revert stored truncated; induction reads as [|[chunk|e] reads IH]; intros stored truncated Hs; cbn [read_pipe_bounded pipe_data and_then].
  - rewrite firstn_nil, app_nil_r. unfold nlen at 2. simpl. rewrite N.add_0_r.
    destruct (N.ltb_spec max (nlen stored)); [lia|by rewrite orb_false_r].
  - cbv zeta. destruct chunk as [|x chunk].
    { simpl. rewrite firstn_nil, app_nil_r. unfold nlen at 2. simpl. rewrite N.add_0_r.
      destruct (N.ltb_spec max (nlen stored)); [lia|by rewrite orb_false_r]. }
    set (c := x :: chunk). assert (Hc : (0 < nlen c)%N) by (unfold nlen, c; simpl; lia).
    destruct (N.eqb_spec (nlen c) 0); [lia|].
    assert (Hl : nlen (stored ++ firstn (N.to_nat (N.min (max - nlen stored) (nlen c))) c) =
      (nlen stored + N.min (max - nlen stored) (nlen c))%N).
    { rewrite nlen_app. unfold nlen at 2. rewrite length_firstn. unfold nlen. lia. }
    rewrite IH by (rewrite Hl; lia). rewrite Hl. destruct (pipe_data reads) as [data|e']; [|done]. cbn [and_then].
    do 2 f_equal.
    + rewrite <- app_assoc. f_equal. rewrite firstn_app. unfold nlen at 2 5. unfold nlen in *. f_equal.
      * destruct (N.le_gt_cases (N.of_nat (length c)) (max - N.of_nat (length stored))).
        -- rewrite N.min_r by lia. rewrite !firstn_all2 by lia. done.
        -- by rewrite N.min_l by lia.
      * f_equal. lia.
    + rewrite nlen_app. rewrite <- orb_assoc. f_equal.
      destruct (N.ltb_spec (N.min (max - nlen stored) (nlen c)) (nlen c)),
        (N.ltb_spec max (nlen stored + N.min (max - nlen stored) (nlen c) + nlen data)),
        (N.ltb_spec max (nlen stored + (nlen c + nlen data))); try done; exfalso; lia.
  - done.
Qed.

(** A bounded pipe read drains the pipe whatever the limit: it returns the first [max_bytes]
    bytes of everything delivered, says it truncated exactly when more was delivered, and fails
    exactly when a read fails before the end. *)
Theorem read_pipe_bounded_spec {E} (reads : list (result (list N) E)) max_bytes :
  read_pipe_bounded reads max_bytes [] false =
    let? data := pipe_data reads in
    Ok {| bytes := firstn (N.to_nat max_bytes) data; pipe_truncated := (max_bytes <? nlen data)%N |}.
Proof.
  rewrite read_pipe_loop by apply N.le_0_l. change (nlen []) with 0%N. rewrite N.sub_0_r. by destruct (pipe_data reads).
Qed.

(** ** Previews *)

Definition newlines (s : text) : N := nlen (List.filter (fun c => (c =? LF)%N) s).

Lemma newlines_app a b : newlines (a ++ b) = (newlines a + newlines b)%N.
Proof. unfold newlines. by rewrite List.filter_app, nlen_app. Qed.

Lemma newlines_byte_len s : (newlines s <= byte_len s)%N.
Proof.
  induction s as [|c s IH]; [done|]. pose proof (len_utf8_bounds c). unfold newlines, nlen in *.
  cbn [List.filter byte_len]. destruct (c =? LF)%N; cbn [length]; lia.
Qed.

Definition initial_preview : PreviewState := {| preview := []; newline_count := 0 |}.

Definition counts (s : PreviewState) : Prop := newline_count s = newlines (preview s).

(** What a preview of [whole] keeps: a prefix inside both limits, after which the next character
    would break one of them. *)
Definition preview_of (limits : ToolOutputConfig) (whole p : text) (complete : bool) : Prop :=
  exists rest, whole = p ++ rest /\ complete = is_empty rest /\
    (byte_len p <= N.max (max_bytes limits) 1)%N /\ (newlines p < N.max (max_lines limits) 1)%N /\
    match rest with
    | [] => True
    | c :: _ => (N.max (max_bytes limits) 1 < byte_len p + len_utf8 c)%N \/
                (c = LF /\ (N.max (max_lines limits) 1 <= newlines p + 1)%N)
    end.

Lemma append_preview_spec limits segment s :
  (byte_len (preview s ++ segment) <= usize_max)%N -> counts s ->
  (byte_len (preview s) <= N.max (max_bytes limits) 1)%N -> (newlines (preview s) < N.max (max_lines limits) 1)%N ->
  preview_of limits (preview s ++ segment) (preview (fst (append_preview_bounded limits segment s)))
    (snd (append_preview_bounded limits segment s)) /\
  counts (fst (append_preview_bounded limits segment s)).
Proof.
  revert s; induction segment as [|c segment IH]; intros s Hu Hc Hb Hl; cbn [append_preview_bounded].
  { split; [|done]. exists []. by rewrite !app_nil_r. }
  assert (Ha : saturating_add_usize (byte_len (preview s)) (len_utf8 c) = (byte_len (preview s) + len_utf8 c)%N).
  { rewrite byte_len_app in Hu. cbn [byte_len] in Hu. unfold saturating_add_usize. lia. }
  assert (Hn : saturating_add_usize (newline_count s) 1 = (newlines (preview s) + 1)%N).
  { rewrite Hc. rewrite byte_len_app in Hu. cbn [byte_len] in Hu. pose proof (newlines_byte_len (preview s)).
    pose proof (len_utf8_bounds c). unfold saturating_add_usize. lia. }
  rewrite Ha, Hn.
  destruct (N.ltb_spec (N.max (max_bytes limits) 1) (byte_len (preview s) + len_utf8 c)) as [H1|H1]; cbn [orb].
  { cbn [fst snd]. split; [|done]. exists (c :: segment). split_and!; try done. by left. }
  destruct (N.eqb_spec c LF) as [->|Hlf]; cbn [andb].
  - destruct (N.leb_spec (N.max (max_lines limits) 1) (newlines (preview s) + 1)) as [H2|H2].
    { cbn [fst snd]. split; [|done]. exists (LF :: segment). split_and!; try done. by right. }
    set (s' := {| preview := preview s ++ [LF]; newline_count := (newlines (preview s) + 1)%N |}).
    assert (E : newlines (preview s ++ [LF]) = (newlines (preview s) + 1)%N) by by rewrite newlines_app.
    specialize (IH s'). unfold counts, s' in IH. cbn [preview newline_count] in IH.
    rewrite <- app_assoc in IH. cbn [app] in IH. apply IH; rewrite ?E; auto. rewrite byte_len_app. simpl byte_len. unfold LF in *. lia.
  - set (s' := {| preview := preview s ++ [c]; newline_count := newline_count s |}).
    assert (E : newlines (preview s ++ [c]) = newlines (preview s)).
    { rewrite newlines_app. unfold newlines at 2. cbn [List.filter]. apply N.eqb_neq in Hlf. rewrite Hlf. apply N.add_0_r. }
    specialize (IH s'). unfold counts, s' in IH. cbn [preview newline_count] in IH.
    rewrite <- app_assoc in IH. cbn [app] in IH. apply IH; rewrite ?E; auto. rewrite byte_len_app. simpl byte_len. lia.
Qed.

Lemma append_preview_app limits a b s :
  append_preview_bounded limits (a ++ b) s =
    let '(s', complete) := append_preview_bounded limits a s in
    if complete then append_preview_bounded limits b s' else (s', false).
Proof.
  revert s; induction a as [|c a IH]; intros s; [done|]. cbn [app append_preview_bounded]. case_match; [done|apply IH].
Qed.

Lemma append_preview_complete limits a s s' :
  append_preview_bounded limits a s = (s', true) -> preview s' = preview s ++ a.
Proof.
  revert s; induction a as [|c a IH]; intros s; cbn [append_preview_bounded]; [intros [= <-]; by rewrite app_nil_r|].
  case_match; [done|]. intros Hx%IH. rewrite Hx. simpl. by rewrite <- app_assoc.
Qed.

Section Spool.
Context {File IoError : Type} (open_spool : result File IoError) (write_all : File -> text -> result File IoError)
  (flush : File -> result File IoError) (output_path : text).
(** What a file holds, and what the standard library documents of its operations. *)
Context (contents : File -> text).
Hypothesis open_spool_empty : forall f, open_spool = Ok f -> contents f = [].
Hypothesis write_all_appends : forall f s f', write_all f s = Ok f' -> contents f' = contents f ++ s.
Hypothesis flush_keeps : forall f f', flush f = Ok f' -> contents f' = contents f.

Definition spool_inv (limits : ToolOutputConfig) (sofar : text) (s : PreviewState) (spool : option File) : Prop :=
  match spool with
  | None => append_preview_bounded limits sofar initial_preview = (s, true)
  | Some f => append_preview_bounded limits sofar initial_preview = (s, false) /\ contents f = sofar
  end.

Lemma append_segment_inv limits segment sofar s spool :
  spool_inv limits sofar s spool ->
  match append_segment open_spool write_all limits segment s spool with
  | Ok (s', spool') => spool_inv limits (sofar ++ segment) s' spool'
  | Err _ => snd (append_preview_bounded limits (sofar ++ segment) initial_preview) = false
  end.
Proof.
  intros Hi. unfold append_segment. destruct spool as [f|].
  - destruct Hi as [Hi Hf]. pose proof (append_preview_app limits sofar segment initial_preview) as E. rewrite Hi in E.
    destruct (write_all f segment) as [f'|] eqn:Ew; cbn [and_then].
    + split; [done|]. apply write_all_appends in Ew. by rewrite Ew, Hf.
    + by rewrite E.
  - simpl in Hi. pose proof (append_preview_app limits sofar segment initial_preview) as E. rewrite Hi in E.
    pose proof (append_preview_complete _ _ _ _ Hi) as Hp. simpl in Hp.
    destruct (append_preview_bounded limits segment s) as [s' [|]] eqn:Ea; [done|].
    destruct open_spool as [f|] eqn:Eo; cbn [and_then]; [|by rewrite E].
    destruct (write_all f (preview s)) as [f1|] eqn:E1; cbn [and_then]; [|by rewrite E].
    destruct (write_all f1 segment) as [f2|] eqn:E2; cbn [and_then]; [|by rewrite E].
    split; [done|]. rewrite (write_all_appends _ _ _ E2), (write_all_appends _ _ _ E1), (open_spool_empty _ eq_refl), Hp. done.
Qed.

Lemma bounded_false_app limits a b s :
  snd (append_preview_bounded limits a s) = false -> snd (append_preview_bounded limits (a ++ b) s) = false.
Proof. rewrite append_preview_app. destruct (append_preview_bounded limits a s) as [s' [|]]; done. Qed.

(** The text after the chunks that are still to come. *)
Fixpoint with_chunks (separator : text) (first : bool) (sofar : text) (chunks : list text) : text :=
  match chunks with
  | [] => sofar
  | c :: cs => with_chunks separator false (sofar ++ (if first then [] else separator) ++ c) cs
  end.

Lemma with_chunks_extends sep first sofar chunks : exists r, with_chunks sep first sofar chunks = sofar ++ r.
Proof.
  revert first sofar; induction chunks as [|c cs IH]; intros first sofar; simpl; [exists []; by rewrite app_nil_r|].
  destruct (IH false (sofar ++ (if first then [] else sep) ++ c)) as (r & ->). eexists. by rewrite <- app_assoc.
Qed.

Lemma with_chunks_join sep chunks sofar :
  with_chunks sep false sofar chunks = sofar ++ concat (map (app sep) chunks).
Proof.
  revert sofar; induction chunks as [|c cs IH]; intros sofar; simpl; [by rewrite app_nil_r|]. by rewrite IH, <- !app_assoc.
Qed.

Lemma join_concat sep c cs : join sep (c :: cs) = c ++ concat (map (app sep) cs).
Proof.
  revert c; induction cs as [|d cs IH]; intros c; [simpl; by rewrite app_nil_r|].
  change (join sep (c :: d :: cs)) with (c ++ sep ++ join sep (d :: cs)). rewrite IH. simpl. by rewrite <- app_assoc.
Qed.

Lemma append_chunks_inv limits sep first chunks sofar s spool :
  spool_inv limits sofar s spool ->
  match append_chunks open_spool write_all limits sep first chunks s spool with
  | Ok (s', spool') => spool_inv limits (with_chunks sep first sofar chunks) s' spool'
  | Err _ => snd (append_preview_bounded limits (with_chunks sep first sofar chunks) initial_preview) = false
  end.
Proof.
  revert first sofar s spool; induction chunks as [|c cs IH]; intros first sofar s spool Hi; cbn [append_chunks with_chunks]; [done|].
  assert (Hsep : match (if first then Ok (s, spool) else append_segment open_spool write_all limits sep s spool) with
    | Ok (s', spool') => spool_inv limits (sofar ++ (if first then [] else sep)) s' spool'
    | Err _ => snd (append_preview_bounded limits (sofar ++ (if first then [] else sep)) initial_preview) = false end).
  { destruct first; [by rewrite app_nil_r|]. by apply append_segment_inv. }
  destruct (with_chunks_extends sep false (sofar ++ (if first then [] else sep) ++ c) cs) as (r & Er).
  destruct (if first then _ else _) as [[s1 sp1]|e]; cbn [and_then].
  2:{ rewrite Er, <- app_assoc, <- app_assoc, app_assoc. by apply bounded_false_app. }
  pose proof (append_segment_inv limits c _ _ _ Hsep) as Hc. rewrite <- app_assoc in Hc.
  destruct (append_segment _ _ _ _ _ _) as [[s2 sp2]|e]; cbn [and_then].
  - by apply IH.
  - rewrite Er. by apply bounded_false_app.
Qed.

(** A preview of chunks is the preview of their concatenation: when the whole text fits both
    limits it is returned as it is and no file is opened; otherwise the preview is its longest
    prefix inside the limits, followed by the notice, and the spool file holds the complete text,
    the part already shown included; an I/O error can only come out when the text does not fit. *)
Theorem preview_chunks_spec limits separator chunks :
  let whole := join separator chunks in
  let bounded := append_preview_bounded limits whole initial_preview in
  match preview_chunks open_spool write_all flush output_path limits separator chunks with
  | Ok out =>
    if snd bounded
    then preview_text out = whole /\ output_truncated out = false /\ truncated_output_path out = None /\ spooled out = None
    else preview_text out = preview (fst bounded) ++ truncation_notice output_path /\
         output_truncated out = true /\ truncated_output_path out = Some output_path /\
         exists f, spooled out = Some f /\ contents f = whole
  | Err _ => snd bounded = false
  end.
Proof.
  cbv zeta. unfold preview_chunks.
  pose proof (append_chunks_inv limits separator true chunks [] initial_preview None eq_refl) as H.
  assert (E : with_chunks separator true [] chunks = join separator chunks).
  { destruct chunks as [|c cs]; [done|]. cbn [with_chunks]. by rewrite with_chunks_join, join_concat. }
  rewrite E in H. fold initial_preview.
  destruct (append_chunks _ _ _ _ _ _ _ _) as [[s [f|]]|e]; cbn [and_then] in *; [| |done].
  - destruct H as [-> Hf]. cbn [fst snd]. destruct (flush f) as [f'|] eqn:Ef; cbn [and_then]; [|done].
    split_and!; try done. exists f'. split; [done|]. apply flush_keeps in Ef. by rewrite Ef.
  - simpl in H. rewrite H. cbn [fst snd]. apply append_preview_complete in H. simpl in H. by rewrite H.
Qed.
End Spool.

Definition sample_limits : ToolOutputConfig := {| max_lines := 10; max_bytes := 6; max_results := 5 |}.

Lemma preview_chunks_spec_witness :
  exists out, preview_chunks (File := text) (IoError := unit) (Ok []) (fun f s => Ok (f ++ s)) Ok (lit "/t/1.txt")
      sample_limits (lit ", ") [lit "abc"; lit "def"] = Ok out /\ spooled out = Some (lit "abc, def").
Proof.
  pose proof (preview_chunks_spec (File := text) (IoError := unit) (Ok []) (fun f s => Ok (f ++ s)) Ok (lit "/t/1.txt") id
    ltac:(by intros f [= <-]) ltac:(by intros f s f' [= <-]) ltac:(by intros f f' [= <-])
    sample_limits (lit ", ") [lit "abc"; lit "def"]) as H.
  cbv zeta in H. destruct (preview_chunks _ _ _ _ _ _ _) as [out|e] eqn:E; [|vm_compute in E; discriminate E].
  exists out. split; [reflexivity|]. destruct H as (_ & _ & _ & f & Hf & Hc). rewrite Hf. f_equal. exact Hc.
Defined.

(** The bounded append keeps a prefix of the text inside the byte and line limits (each at
    least one) that cannot be extended by one more character, and reports complete exactly when
    nothing was left out; no counter saturates for a text that fits in memory. *)
Theorem append_preview_bounded_spec limits whole :
  (byte_len whole <= usize_max)%N ->
  preview_of limits whole (preview (fst (append_preview_bounded limits whole initial_preview)))
    (snd (append_preview_bounded limits whole initial_preview)).
Proof.
  intros H. apply (append_preview_spec limits whole initial_preview); [done|done|simpl; lia|].
  unfold newlines, nlen. simpl. lia.
Qed.

Lemma append_preview_bounded_spec_witness : preview_of sample_limits (lit "abc, def") (lit "abc, d") false.
Proof. exact (append_preview_bounded_spec sample_limits (lit "abc, def") ltac:(vm_compute; discriminate)). Defined.
