(* ===== verification/AgentPath.v ===== *)
(** * Agent paths (src/src/runtime/agent_control.rs, [AgentPath])

    An agent is addressed by an absolute path below [/root]; a task name is one segment of it. *)
From S2P Require Import Prelude.
From S2P Require Import Text.

Definition AgentPath : Type := text.
#[export] Instance AgentPath_eq_dec : EqDecision AgentPath := _.
#[export] Instance AgentPath_countable : Countable AgentPath := _.

Definition ROOT_SEGMENT : text := lit "root".
Definition ROOT : AgentPath := SLASH :: ROOT_SEGMENT.
#[global] Arguments ROOT_SEGMENT : simpl never.
#[global] Arguments ROOT : simpl never.

(** The messages of the validation functions. *)
Inductive AgentPathError :=
  | EmptyTaskName
  | ReservedRoot
  | ReservedDots (task_name : text)
  | SlashInTaskName
  | BadTaskNameCharacter
  | NotUnderRoot
  | AbsoluteTrailingSlash
  | RelativeTrailingSlash
  | EmptyReference.

Definition is_task_name_char (c : char) : bool :=
  (97 <=? c)%N && (c <=? 122)%N || (48 <=? c)%N && (c <=? 57)%N || (c =? 95)%N.

Definition validate_task_name (task_name : text) : result unit AgentPathError :=
  if is_empty task_name then Err EmptyTaskName
  else if text_eqb task_name ROOT_SEGMENT then Err ReservedRoot
  else if text_eqb task_name (lit ".") || text_eqb task_name (lit "..") then Err (ReservedDots task_name)
  else if contains_char SLASH task_name then Err SlashInTaskName
  else if negb (forallb is_task_name_char task_name) then Err BadTaskNameCharacter
  else Ok tt.

Fixpoint validate_segments (segments : list text) : result unit AgentPathError :=
  match segments with
  | [] => Ok tt
  | segment :: rest => let? _ := validate_task_name segment in validate_segments rest
  end.

Definition validate_absolute_path (path : text) : result unit AgentPathError :=
  match strip_prefix [SLASH] path with
  | None => Err NotUnderRoot
  | Some stripped =>
    match split_char SLASH stripped with
    | first :: segments =>
      if negb (text_eqb first ROOT_SEGMENT) then Err NotUnderRoot
      else if ends_with [SLASH] stripped then Err AbsoluteTrailingSlash
      else validate_segments segments
    | [] => Err NotUnderRoot
    end
  end.

Definition validate_relative_reference (reference : text) : result unit AgentPathError :=
  if ends_with [SLASH] reference then Err RelativeTrailingSlash
  else validate_segments (split_char SLASH reference).

Definition from_string (path : text) : result AgentPath AgentPathError :=
  let? _ := validate_absolute_path path in Ok path.

Definition is_root (p : AgentPath) : bool := text_eqb p ROOT.

(** [str::rsplit_once('/')] *)
Fixpoint rsplit_once (sep : char) (s : text) : option (text * text) :=
  match s with
  | [] => None
  | c :: s' =>
    match rsplit_once sep s' with
    | Some (a, b) => Some (c :: a, b)
    | None => if (c =? sep)%N then Some ([], s') else None
    end
  end.

Definition name (p : AgentPath) : text :=
  if is_root p then ROOT_SEGMENT
  else
    let segment := List.last (split_char SLASH p) [] in
    if is_empty segment then ROOT_SEGMENT else segment.

Definition parent (p : AgentPath) : option AgentPath :=
  if is_root p then None
  else match rsplit_once SLASH p with
       | None => None
       | Some (q, _) => match from_string q with Ok q => Some q | Err _ => None end
       end.

Definition join_path (p : AgentPath) (task_name : text) : result AgentPath AgentPathError :=
  let? _ := validate_task_name task_name in from_string (p ++ SLASH :: task_name).

Definition resolve (p : AgentPath) (reference : text) : result AgentPath AgentPathError :=
  if is_empty reference then Err EmptyReference
  else if text_eqb reference ROOT then Ok ROOT
  else if starts_with [SLASH] reference then from_string reference
  else
    let? _ := validate_relative_reference reference in from_string (p ++ SLASH :: reference).

Definition is_at_or_below (p prefix : AgentPath) : bool :=
  text_eqb p prefix ||
  match strip_prefix prefix p with Some suffix => starts_with [SLASH] suffix | None => false end.

(** ** Specification: a path is its list of task names *)

Definition task_name_ok (s : text) : Prop := s <> [] /\ s <> ROOT_SEGMENT /\ Forall (fun c => is_task_name_char c = true) s.

Definition render (names : list text) : AgentPath := ROOT ++ concat (map (cons SLASH) names).

Definition valid_path (p : AgentPath) : Prop := exists names, p = render names /\ Forall task_name_ok names.

Lemma no_slash s : Forall (fun c => is_task_name_char c = true) s -> contains_char SLASH s = false.
Proof.
  induction 1 as [|c s Hc _ IH]; [done|]. unfold contains_char in *. cbn [existsb]. rewrite IH, orb_false_r.
  apply N.eqb_neq. intros <-. by vm_compute in Hc.
Qed.

Lemma validate_task_name_ok s : validate_task_name s = Ok tt <-> task_name_ok s.
Proof.
  unfold validate_task_name, task_name_ok. split.
  - destruct s as [|c s]; [done|]. cbn [is_empty].
    destruct (text_eqb (c :: s) ROOT_SEGMENT) eqn:Er; [done|]. apply text_eqb_neq in Er.
    destruct (_ || _); [done|]. destruct (contains_char _ _); [done|].
    destruct (forallb _ _) eqn:Ef; [|done]. intros _. split; [done|]. split; [done|].
    apply Forall_forall. intros x Hx. rewrite forallb_forall in Ef. apply Ef. by apply list_elem_of_In.
  - intros (He & Hr & Hf). rewrite (no_slash s Hf). destruct s as [|c s]; [done|]. cbn [is_empty].
    apply text_eqb_neq in Hr. rewrite Hr.
    assert (Hd : forall d, is_task_name_char 46 = true -> d = true) by (intros d H; by vm_compute in H).
    assert (text_eqb (c :: s) (lit ".") || text_eqb (c :: s) (lit "..") = false) as ->.
    { apply orb_false_iff. split; apply text_eqb_neq; intros [= -> _]; inversion Hf as [|? ? Hc]; by vm_compute in Hc. }
    assert (forallb is_task_name_char (c :: s) = true) as ->; [|done].
    apply forallb_forall. intros x Hx%list_elem_of_In. rewrite Forall_forall in Hf. by apply Hf.
Qed.

Lemma validate_segments_ok ls : validate_segments ls = Ok tt <-> Forall task_name_ok ls.
Proof.
  induction ls as [|l ls IH]; simpl; [by split|]. rewrite Forall_cons, <- validate_task_name_ok, <- IH.
  destruct (validate_task_name l) as [[]|]; simpl; naive_solver.
Qed.

Lemma join_slash_render names : SLASH :: join [SLASH] (ROOT_SEGMENT :: names) = render names.
Proof.
  unfold render. assert (H : forall l ls, join [SLASH] (l :: ls) = l ++ concat (map (cons SLASH) ls)).
  { intros l ls. revert l. induction ls as [|m ls IH]; intros l; [simpl; by rewrite app_nil_r|].
    change (join [SLASH] (l :: m :: ls)) with (l ++ SLASH :: join [SLASH] (m :: ls)). by rewrite IH. }
  by rewrite H.
Qed.

Lemma names_no_slash names : Forall task_name_ok names -> Forall (fun l => contains_char SLASH l = false) names.
Proof. intros H. eapply Forall_impl; [exact H|]. intros l (_ & _ & Hl). by apply no_slash. Qed.

Lemma split_render names :
  Forall task_name_ok names -> split_char SLASH (join [SLASH] (ROOT_SEGMENT :: names)) = ROOT_SEGMENT :: names.
Proof. intros H. apply split_char_of_join; [done|]. constructor; [done|by apply names_no_slash]. Qed.

Lemma join_last_no_slash (l : text) ls :
  Forall (fun x => x <> [] /\ contains_char SLASH x = false) (l :: ls) ->
  ends_with [SLASH] (join [SLASH] (l :: ls)) = false.
Proof.
  revert l; induction ls as [|m ls IH]; intros l Hf; inversion Hf as [|? ? [Hne Hl] Hls]; subst;
    apply not_true_iff_false; intros (r & Hr)%ends_with_true.
  - cbn [join] in Hr. subst l. unfold contains_char in Hl. rewrite existsb_app in Hl. cbn [existsb] in Hl.
    rewrite N.eqb_refl, orb_true_r in Hl. done.
  - change (join [SLASH] (l :: m :: ls)) with (l ++ SLASH :: join [SLASH] (m :: ls)) in Hr.
    specialize (IH m Hls). assert (Hne' : join [SLASH] (m :: ls) <> []).
    { inversion Hls as [|? ? [Hm _]]; subst. destruct ls; destruct m; done. }
    destruct (join [SLASH] (m :: ls)) as [|x y _] using rev_ind; [done|].
    rewrite app_comm_cons, app_assoc in Hr. apply app_inj_tail in Hr as [_ ->].
    apply not_true_iff_false in IH. apply IH, ends_with_true. by exists y.
Qed.

Lemma validate_absolute_path_ok p : validate_absolute_path p = Ok tt <-> valid_path p.
Proof.
  unfold validate_absolute_path, valid_path. split.
  - destruct (strip_prefix [SLASH] p) as [stripped|] eqn:E; [|done]. apply strip_prefix_Some in E. cbn [app] in E. subst p.
    destruct (split_char_join SLASH stripped) as [Hj _].
    destruct (split_char SLASH stripped) as [|first segments]; [done|].
    destruct (text_eqb first ROOT_SEGMENT) eqn:Er; [|done]. apply text_eqb_eq in Er as ->. cbn [negb].
    destruct (ends_with [SLASH] stripped); [done|]. intros H%validate_segments_ok.
    exists segments. split; [|done]. by rewrite <- Hj, join_slash_render.
  - intros (names & -> & Hn). rewrite <- join_slash_render.
    change (SLASH :: join [SLASH] (ROOT_SEGMENT :: names)) with ([SLASH] ++ join [SLASH] (ROOT_SEGMENT :: names)).
    rewrite strip_prefix_app, split_render by done. rewrite text_eqb_refl. cbn [negb].
    rewrite join_last_no_slash; [by apply validate_segments_ok|]. constructor; [done|].
    eapply Forall_impl; [exact Hn|]. intros l (H1 & _ & H3). split; [done|by apply no_slash].
Qed.

Lemma from_string_ok p q : from_string p = Ok q <-> q = p /\ valid_path p.
Proof.
  unfold from_string. rewrite <- validate_absolute_path_ok.
  destruct (validate_absolute_path p) as [[]|]; simpl; naive_solver.
Qed.

Lemma names_snoc names x : Forall task_name_ok names -> task_name_ok x -> Forall task_name_ok (names ++ [x]).
Proof. intros H Hx. apply Forall_app. split; [done|]. apply Forall_singleton. done. Qed.

Lemma render_snoc names x : render (names ++ [x]) = render names ++ SLASH :: x.
Proof. unfold render. rewrite map_app, concat_app, <- app_assoc. simpl. by rewrite app_nil_r. Qed.

Lemma render_app a b : render (a ++ b) = render a ++ concat (map (cons SLASH) b).
Proof. unfold render. by rewrite map_app, concat_app, app_assoc. Qed.

Lemma valid_root : valid_path ROOT.
Proof. exists []. by split; [vm_compute|]. Qed.

Lemma rsplit_once_app a x : contains_char SLASH x = false -> rsplit_once SLASH (a ++ SLASH :: x) = Some (a, x).
Proof.
  intros Hx. assert (Hn : rsplit_once SLASH x = None).
  { clear a. induction x as [|c x IH]; [done|]. unfold contains_char in *. cbn [existsb] in Hx.
    apply orb_false_iff in Hx as [Hc Hx]. cbn [rsplit_once]. rewrite (IH Hx). rewrite N.eqb_sym in Hc. by rewrite Hc. }
  induction a as [|c a IH]; cbn [app rsplit_once]; [by rewrite Hn, N.eqb_refl|]. by rewrite IH.
Qed.

Lemma split_render_full names :
  Forall task_name_ok names -> split_char SLASH (render names) = [] :: ROOT_SEGMENT :: names.
Proof.
  intros H. rewrite <- join_slash_render. change (SLASH :: join [SLASH] (ROOT_SEGMENT :: names)) with ([] ++ SLASH :: join [SLASH] (ROOT_SEGMENT :: names)).
  rewrite split_char_app by done. by rewrite split_render.
Qed.

Lemma render_inj a b : Forall task_name_ok a -> Forall task_name_ok b -> render a = render b -> a = b.
Proof.
  intros Ha Hb E. apply (f_equal (split_char SLASH)) in E. rewrite !split_render_full in E by done. by injection E.
Qed.

Lemma is_root_render names : Forall task_name_ok names -> is_root (render names) = is_empty names.
Proof.
  intros H. unfold is_root. destruct names as [|x names]; [apply text_eqb_refl|]. apply text_eqb_neq. intros E.
  apply (render_inj (x :: names) []) in E; [done|done|constructor].
Qed.

Lemma join_path_ok p x q :
  valid_path p -> join_path p x = Ok q <-> task_name_ok x /\ q = p ++ SLASH :: x.
Proof.
  intros (names & -> & Hn). unfold join_path. rewrite <- validate_task_name_ok.
  destruct (validate_task_name x) as [[]|] eqn:Ex; cbn [and_then]; [|naive_solver].
  rewrite from_string_ok. apply validate_task_name_ok in Ex. split; [naive_solver|]. intros [_ ->]. split; [done|].
  exists (names ++ [x]). rewrite render_snoc. split; [done|]. by apply names_snoc.
Qed.

Lemma parent_child names x :
  Forall task_name_ok names -> task_name_ok x ->
  parent (render names ++ SLASH :: x) = Some (render names) /\ name (render names ++ SLASH :: x) = x.
Proof.
  intros Hn Hx. assert (Hall : Forall task_name_ok (names ++ [x])) by by apply names_snoc.
  assert (Hr : is_root (render names ++ SLASH :: x) = false).
  { rewrite <- render_snoc, is_root_render by done. by destruct names. }
  unfold parent, name. rewrite Hr. split.
  - rewrite rsplit_once_app by (apply no_slash; by destruct Hx as (_ & _ & ?)).
    assert (from_string (render names) = Ok (render names)) as ->; [|done]. apply from_string_ok. split; [done|by exists names].
  - rewrite <- render_snoc, split_render_full by done.
    replace ([] :: ROOT_SEGMENT :: names ++ [x]) with (([] :: ROOT_SEGMENT :: names) ++ [x]) by done.
    rewrite last_last. by destruct Hx as (? & _ & _), x.
Qed.

(** A path is accepted exactly when it is [/root] followed by valid task names, and its
    operations are those of the list of names: joining a valid name appends it, the parent and the
    name of the result are the two parts again, the root has no parent, and a name that breaks the
    rules is refused. *)
Theorem agent_path_grammar p x :
  (from_string p = Ok p <-> valid_path p) /\
  (valid_path p ->
    (task_name_ok x <-> exists q, join_path p x = Ok q) /\
    forall q, join_path p x = Ok q -> valid_path q /\ parent q = Some p /\ name q = x /\ is_root q = false) /\
  parent ROOT = None /\ name ROOT = ROOT_SEGMENT.
Proof.
  split; [rewrite from_string_ok; tauto|]. split; [|by split; vm_compute]. intros Hp. split.
  - split; [|by intros (q & [? _]%join_path_ok)]. intros Hx. eexists. by apply join_path_ok.
  - intros q Hq. apply join_path_ok in Hq as [Hx ->]; [|done]. destruct Hp as (names & -> & Hn).
    assert (Hall : Forall task_name_ok (names ++ [x])) by by apply names_snoc.
    split; [exists (names ++ [x]); by rewrite render_snoc|]. destruct (parent_child names x Hn Hx) as [-> ->].
    rewrite <- render_snoc, is_root_render by done. by destruct names.
Qed.

Lemma concat_slash_prefix a b :
  Forall task_name_ok a -> Forall task_name_ok b -> is_at_or_below (render a) (render b) = true -> exists c, a = b ++ c.
Proof.
  intros Ha Hb. unfold is_at_or_below. rewrite orb_true_iff. intros [H|H].
  - apply text_eqb_eq in H. apply render_inj in H; [|done..]. exists []. by rewrite app_nil_r.
  - destruct (strip_prefix (render b) (render a)) as [suffix|] eqn:E; [|done]. apply strip_prefix_Some in E.
    apply starts_with_true in H as [r ->]. cbn [app] in E.
    apply (f_equal (split_char SLASH)) in E. rewrite split_render_full in E by done.
    exists (split_char SLASH r). assert (Hs : split_char SLASH (render b ++ SLASH :: r) = split_char SLASH (render b) ++ split_char SLASH r).
    { generalize (render b). clear. intros s. induction s as [|c s IH]; [cbn [app split_char]; by rewrite N.eqb_refl|].
      cbn [app split_char]. rewrite IH. destruct (c =? SLASH)%N; [done|].
      destruct (split_char_join SLASH s) as [_ Hne]. by destruct (split_char SLASH s). }
    rewrite Hs, split_render_full in E by done. by injection E.
Qed.

(** Resolving a reference never leaves the tree: an absolute reference is taken as it is when
    it is a path, a relative one lies strictly below the agent it is resolved from, and whatever
    resolves is a valid path; one path is at or below another exactly when its task names extend
    the other's, so a sibling whose name merely starts the same is outside. *)
Theorem resolve_stays_in_tree p reference q names prefix_names :
  valid_path p -> resolve p reference = Ok q ->
  Forall task_name_ok names -> Forall task_name_ok prefix_names ->
  valid_path q /\
  (if starts_with [SLASH] reference then q = reference else is_at_or_below q p = true /\ q <> p) /\
  (is_at_or_below (render names) (render prefix_names) = true <-> exists below, names = prefix_names ++ below).
Proof.
  intros Hp Hr Hn Hpn. split; [|split].
  - unfold resolve in Hr. destruct (is_empty reference); [done|]. destruct (text_eqb reference ROOT); [injection Hr as <-; apply valid_root|].
    destruct (starts_with [SLASH] reference); [by apply from_string_ok in Hr as [-> ?]|].
    destruct (validate_relative_reference reference); [|done]. by apply from_string_ok in Hr as [-> ?].
  - unfold resolve in Hr. destruct (is_empty reference); [done|].
    destruct (text_eqb reference ROOT) eqn:E; [apply text_eqb_eq in E as ->; by injection Hr as <-|].
    destruct (starts_with [SLASH] reference); [by apply from_string_ok in Hr as [-> ?]|].
    destruct (validate_relative_reference reference); [|done]. apply from_string_ok in Hr as [-> ?].
    split; [|intros H0; apply (f_equal length) in H0; rewrite length_app in H0; simpl in H0; lia].
    unfold is_at_or_below. rewrite strip_prefix_app. apply orb_true_iff. right. apply starts_with_true. by eexists.
  - split; [by apply concat_slash_prefix|]. intros (below & ->). unfold is_at_or_below. rewrite render_app, strip_prefix_app.
    destruct below as [|x below]; [simpl; rewrite app_nil_r, text_eqb_refl; done|]. apply orb_true_iff. right.
    apply starts_with_true. by eexists.
Qed.

Lemma resolve_stays_in_tree_witness :
  is_at_or_below (lit "/root/build/test") (lit "/root") = true /\
  is_at_or_below (render [lit "builder"]) (render [lit "build"]) = false.
Proof.
  assert (Hb : task_name_ok (lit "build")) by (repeat split; (try discriminate); repeat constructor).
  assert (Hb' : task_name_ok (lit "builder")) by (repeat split; (try discriminate); repeat constructor).
  destruct (resolve_stays_in_tree ROOT (lit "build/test") (lit "/root/build/test") [lit "builder"] [lit "build"]
    valid_root ltac:(vm_compute; reflexivity) ltac:(repeat constructor; apply Hb') ltac:(repeat constructor; apply Hb)) as (_ & H1 & H2).
  split; [exact (proj1 H1)|].
  destruct (is_at_or_below (render [lit "builder"]) _) eqn:Eb; [|reflexivity].
  destruct (proj1 H2 eq_refl) as [below E]. discriminate E.
Defined.
