(* ===== verification/TurnOutcome.v ===== *)
(** * How a turn ends (src/src/protocol/mod.rs, src/src/session/model.rs)

    The outcome of a turn and its projections: the status of the session, the cause of an interruption and the
    text that is shown. *)
From S2P Require Import Prelude.
From S2P Require Import Text.

Inductive TurnInterruptionCause := ApprovalAborted | UserStop | AgentInterrupted | TreeStopped.
#[export] Instance TurnInterruptionCause_eq_dec : EqDecision TurnInterruptionCause.
Proof. solve_decision. Defined.

Definition interruption_summary (c : TurnInterruptionCause) : text :=
  match c with
  | ApprovalAborted => lit "permission approval aborted by user"
  | UserStop => lit "run stopped by user"
  | AgentInterrupted => lit "agent interrupted"
  | TreeStopped => lit "agent tree stopped"
  end.

Inductive TurnTerminalOutcome := OutcomeCompleted | OutcomeInterrupted (cause : TurnInterruptionCause) | OutcomeFailed (error : text).
#[export] Instance TurnTerminalOutcome_eq_dec : EqDecision TurnTerminalOutcome.
Proof. solve_decision. Defined.

Inductive SessionStatus := SessionIdle | SessionRunning | SessionCompleted | SessionCancelled | SessionFailed.

Definition session_status (o : TurnTerminalOutcome) : SessionStatus :=
  match o with OutcomeCompleted => SessionCompleted | OutcomeInterrupted _ => SessionCancelled | OutcomeFailed _ => SessionFailed end.

Definition interruption_cause (o : TurnTerminalOutcome) : option TurnInterruptionCause :=
  match o with OutcomeInterrupted cause => Some cause | OutcomeCompleted | OutcomeFailed _ => None end.

(** * Names of tools (src/src/tool/contract.rs)

    The tools the program knows, their names and the parsing of a name; any other name is [Invalid]. *)

Module ToolName.
Inductive t :=
  | List | Glob | Grep | Read | ReadHistory | InspectDirectory | ApplyPatch | Write | Shell | ShellStart
  | ShellStatus | ShellStop | CurrentTime | Skill | SecurityReview | DoclingConvert | McpCall | WaitRemoteTasks
  | TeamPcs | TeamUploadFile | TeamDelegate | TeamRetrySubmission | TeamWait | TeamReadArtifact | TeamSaveArtifact
  | TeamStopService | TeamStopConversation | SharedServices | SharedStopService | SharedDelegate | SharedUploadFile
  | SharedJobArtifacts | SharedReadArtifact | SharedSaveArtifact | SharedPublishArtifact | UpdatePlan
  | CompactContext | GetGoal | CreateGoal | UpdateGoal | SpawnAgent | SendMessage | FollowupTask | WaitAgent
  | InterruptAgent | ListAgents | Invalid.
#[export] Instance t_eq_dec : EqDecision t.
Proof. solve_decision. Defined.

(** [Display] *)
Definition fmt (name : t) : text :=
  match name with
  | List => lit "list"
  | Glob => lit "glob"
  | Grep => lit "grep"
  | Read => lit "read"
  | ReadHistory => lit "read_history"
  | InspectDirectory => lit "inspect_directory"
  | ApplyPatch => lit "apply_patch"
  | Write => lit "write"
  | Shell => lit "shell"
  | ShellStart => lit "shell_start"
  | ShellStatus => lit "shell_status"
  | ShellStop => lit "shell_stop"
  | CurrentTime => lit "current_time"
  | Skill => lit "skill"
  | SecurityReview => lit "security_review"
  | DoclingConvert => lit "docling_convert"
  | McpCall => lit "mcp_call"
  | WaitRemoteTasks => lit "wait_remote_tasks"
  | TeamPcs => lit "team_pcs"
  | TeamUploadFile => lit "team_upload_file"
  | TeamDelegate => lit "team_delegate"
  | TeamRetrySubmission => lit "team_retry_submission"
  | TeamWait => lit "team_wait"
  | TeamReadArtifact => lit "team_read_artifact"
  | TeamSaveArtifact => lit "team_save_artifact"
  | TeamStopService => lit "team_stop_service"
  | TeamStopConversation => lit "team_stop_conversation"
  | SharedServices => lit "shared_services"
  | SharedStopService => lit "shared_stop_service"
  | SharedDelegate => lit "shared_delegate"
  | SharedUploadFile => lit "shared_upload_file"
  | SharedJobArtifacts => lit "shared_job_artifacts"
  | SharedReadArtifact => lit "shared_read_artifact"
  | SharedSaveArtifact => lit "shared_save_artifact"
  | SharedPublishArtifact => lit "shared_publish_artifact"
  | UpdatePlan => lit "update_plan"
  | CompactContext => lit "compact_context"
  | GetGoal => lit "get_goal"
  | CreateGoal => lit "create_goal"
  | UpdateGoal => lit "update_goal"
  | SpawnAgent => lit "spawn_agent"
  | SendMessage => lit "send_message"
  | FollowupTask => lit "followup_task"
  | WaitAgent => lit "wait_agent"
  | InterruptAgent => lit "interrupt_agent"
  | ListAgents => lit "list_agents"
  | Invalid => lit "invalid"
  end.

(** The arms of [parse], in order; the last arm is [Invalid]. *)
Definition known : list t :=
  [List; Glob; Grep; Read; ReadHistory; InspectDirectory; ApplyPatch; Write; Shell; ShellStart; ShellStatus;
   ShellStop; CurrentTime; Skill; SecurityReview; DoclingConvert; McpCall; WaitRemoteTasks; TeamPcs;
   TeamUploadFile; TeamDelegate; TeamRetrySubmission; TeamWait; TeamReadArtifact; TeamSaveArtifact;
   TeamStopService; TeamStopConversation; SharedServices; SharedStopService; SharedDelegate; SharedUploadFile;
   SharedJobArtifacts; SharedReadArtifact; SharedSaveArtifact; SharedPublishArtifact; UpdatePlan;
   CompactContext; GetGoal; CreateGoal; UpdateGoal; SpawnAgent; SendMessage; FollowupTask; WaitAgent;
   InterruptAgent; ListAgents].
Definition parse (value : text) : t := default Invalid (find (fun name => text_eqb value (fmt name)) known).

(** Every name is parsed from what [Display] writes. *)
Lemma parse_fmt name : parse (fmt name) = name.
Proof. destruct name; vm_compute; reflexivity. Qed.
End ToolName.
