(* ===== verification/RunControl.v ===== *)
(** * Run cancellation and root admission (src/src/runtime/cancel.rs)

    One run owner ([RunControl]) classifies its turn exactly once.  [RunControlInner] is the
    state behind the [Arc]; a method that takes [&self] and locks is a function on that state
    (each lock region is one atomic step), and a [RunControl] handle is the address of the
    shared state in a [control_heap], so that two handles may alias. *)
From S2P Require Import Prelude.
From S2P Require Import Text.
From S2P Require Import TurnOutcome.

(** ** Data *)

Inductive RunCancellationCause :=
  | Interruption (cause : TurnInterruptionCause)
  | Superseded
  | Failure (message : text).

Inductive RunReservationKind :=
  | SuccessCommit | ToolEffectAdmission | ToolEffectCommit | ToolSettlement.

Record RunCancelDeferral := { primary : RunReservationKind; secondary : option RunReservationKind }.

Inductive RunCancelOutcome :=
  | Applied
  | Deferred (deferral : RunCancelDeferral)
  | Rejected.

Inductive RunClassification :=
  | Open
  | SuccessCommitting (pending_cause : option RunCancellationCause)
  | EffectAdmitting (pending_cause : option RunCancellationCause)
  | EffectCommitting (pending_cause : option RunCancellationCause)
  | ToolSettling (pending_cause : option RunCancellationCause)
  | SuccessSealed
  | Cancelled (cause : RunCancellationCause).

#[export] Instance RunCancellationCause_eq_dec : EqDecision RunCancellationCause.
Proof. solve_decision. Defined.
#[export] Instance RunReservationKind_eq_dec : EqDecision RunReservationKind.
Proof. solve_decision. Defined.
#[export] Instance RunCancelDeferral_eq_dec : EqDecision RunCancelDeferral.
Proof. solve_decision. Defined.
#[export] Instance RunCancelOutcome_eq_dec : EqDecision RunCancelOutcome.
Proof. solve_decision. Defined.
#[export] Instance RunClassification_eq_dec : EqDecision RunClassification.
Proof. solve_decision. Defined.

(** [RunCancelDeferral::single] *)
Definition single (k : RunReservationKind) : RunCancelDeferral := {| primary := k; secondary := None |}.

Definition is_success_commit_only (d : RunCancelDeferral) : bool :=
  bool_decide (primary d = SuccessCommit) &&
  match secondary d with None => true | Some k => bool_decide (k = SuccessCommit) end.

(** [RootAdmissionPlanId] and [RootAdmissionStopSealId] wrap a [u64]. *)
Record RootAdmissionPlan := { plan_id : N; plan_session_id : SessionId; plan_turn_id : TurnId }.

Record RootAdmissionReceipt :=
  { receipt_session_id : SessionId; receipt_turn_id : TurnId; receipt_revision : N }.

Record RootAdmissionStopPlan :=
  { seal_id : N; seal_last_admitted : option RootAdmissionReceipt; seal_pending : option RootAdmissionPlan }.

Record RootAdmissionSnapshot :=
  { snap_last_admitted : option RootAdmissionReceipt;
    snap_pending : option RootAdmissionPlan;
    snap_stop_seal_id : option N }.

Inductive RootAdmissionStopSealOutcome :=
  | Acquired (plan : RootAdmissionStopPlan) | AlreadySealed | RejectedClosed | SealSequenceExhausted.

Inductive RootAdmissionSettlement := SettledAdmitted (r : RootAdmissionReceipt) | Aborted.

Inductive RootAdmissionStopResolution := Continue | ResolutionCancelled.

Inductive RootAdmissionBeginError :=
  | RunClosed | StopSealed | AdmissionPending
  | SessionMismatch (expected actual : SessionId)
  | SequenceExhausted.

Inductive RootAdmissionSettleError := StalePlan.

Inductive RootAdmissionWaitError := StaleStopPlan | NoPendingAdmission | SettlementLost.

#[export] Instance RootAdmissionPlan_eq_dec : EqDecision RootAdmissionPlan.
Proof. solve_decision. Defined.
#[export] Instance RootAdmissionReceipt_eq_dec : EqDecision RootAdmissionReceipt.
Proof. solve_decision. Defined.
#[export] Instance RootAdmissionStopPlan_eq_dec : EqDecision RootAdmissionStopPlan.
Proof. solve_decision. Defined.

Record RootAdmissionStopLease :=
  { lease_plan : RootAdmissionStopPlan;
    pending_settlement : option RootAdmissionSettlement;
    committed : bool }.

Record RootAdmissionState :=
  { next_plan_id : N;
    next_stop_seal_id : N;
    adm_pending : option RootAdmissionPlan;
    adm_last_admitted : option RootAdmissionReceipt;
    stop_lease : option RootAdmissionStopLease }.

(** [impl Default for RootAdmissionState] *)
Definition RootAdmissionState_default : RootAdmissionState :=
  {| next_plan_id := 1; next_stop_seal_id := 1; adm_pending := None;
     adm_last_admitted := None; stop_lease := None |}.

(** A [Weak<RunTerminalRoute>] and an [Arc<dyn ExternalEffectAuthority>] are identities; what
    they run is a parameter of the functions that call them. *)
Abbreviation RouterId := N (only parsing).
Abbreviation AuthorityId := N (only parsing).
Abbreviation ControlId := N (only parsing).

Record RunControlInner :=
  { wake : bool;
    classification : RunClassification;
    terminal_router : option RouterId;
    root_admission : RootAdmissionState;
    root_admission_activity : N;
    effect_authority : option AuthorityId;
    approval_identity : option text }.

(** [RunControl::new] *)
Definition new : RunControlInner :=
  {| wake := false; classification := Open; terminal_router := None;
     root_admission := RootAdmissionState_default; root_admission_activity := 0;
     effect_authority := None; approval_identity := None |}.

(** Field updates of the shared state. *)
Definition set_classification (c : RunClassification) (s : RunControlInner) : RunControlInner :=
  {| wake := wake s; classification := c; terminal_router := terminal_router s;
     root_admission := root_admission s; root_admission_activity := root_admission_activity s;
     effect_authority := effect_authority s; approval_identity := approval_identity s |}.
Definition cancel_wake (s : RunControlInner) : RunControlInner :=
  {| wake := true; classification := classification s; terminal_router := terminal_router s;
     root_admission := root_admission s; root_admission_activity := root_admission_activity s;
     effect_authority := effect_authority s; approval_identity := approval_identity s |}.
Definition set_terminal_router (r : option RouterId) (s : RunControlInner) : RunControlInner :=
  {| wake := wake s; classification := classification s; terminal_router := r;
     root_admission := root_admission s; root_admission_activity := root_admission_activity s;
     effect_authority := effect_authority s; approval_identity := approval_identity s |}.
Definition set_root_admission (a : RootAdmissionState) (s : RunControlInner) : RunControlInner :=
  {| wake := wake s; classification := classification s; terminal_router := terminal_router s;
     root_admission := a; root_admission_activity := root_admission_activity s;
     effect_authority := effect_authority s; approval_identity := approval_identity s |}.
Definition set_authority (a : option AuthorityId) (s : RunControlInner) : RunControlInner :=
  {| wake := wake s; classification := classification s; terminal_router := terminal_router s;
     root_admission := root_admission s; root_admission_activity := root_admission_activity s;
     effect_authority := a; approval_identity := approval_identity s |}.
Definition set_approval_identity (a : option text) (s : RunControlInner) : RunControlInner :=
  {| wake := wake s; classification := classification s; terminal_router := terminal_router s;
     root_admission := root_admission s; root_admission_activity := root_admission_activity s;
     effect_authority := effect_authority s; approval_identity := a |}.

Definition notify_root_admission_activity (s : RunControlInner) : RunControlInner :=
  {| wake := wake s; classification := classification s; terminal_router := terminal_router s;
     root_admission := root_admission s;
     root_admission_activity := wrapping_add_u64 (root_admission_activity s) 1;
     effect_authority := effect_authority s; approval_identity := approval_identity s |}.

(** ** Effect authority and approval identity *)

Definition set_effect_authority (a : AuthorityId) (s : RunControlInner) : RunControlInner :=
  set_authority (Some a) s.

Definition record_approval_identity (id : text) (s : RunControlInner) : RunControlInner :=
  set_approval_identity (Some id) s.

Definition take_approval_identity (s : RunControlInner) : RunControlInner * option text :=
  (set_approval_identity None s, approval_identity s).

Definition is_cancelled (s : RunControlInner) : bool := wake s.

Definition cause (s : RunControlInner) : option RunCancellationCause :=
  match classification s with
  | Cancelled c => Some c
  | Open | SuccessCommitting _ | EffectAdmitting _ | EffectCommitting _ | ToolSettling _
  | SuccessSealed => None
  end.

(** [authorize] is the trait method of the installed [ExternalEffectAuthority]. *)
Definition authorize_external_effect
    (authorize : AuthorityId -> option text -> result unit text)
    (approval : option text) (s : RunControlInner) : result unit text :=
  if is_cancelled s then Err (lit "Execution was stopped")
  else
    match effect_authority s with
    | Some authority => let? _ := authorize authority approval in Ok tt
    | None => Ok tt
    end.

(** ** Root admission *)

Definition set_adm_pending (p : option RootAdmissionPlan) (a : RootAdmissionState) : RootAdmissionState :=
  {| next_plan_id := next_plan_id a; next_stop_seal_id := next_stop_seal_id a; adm_pending := p;
     adm_last_admitted := adm_last_admitted a; stop_lease := stop_lease a |}.
Definition set_stop_lease (l : option RootAdmissionStopLease) (a : RootAdmissionState) : RootAdmissionState :=
  {| next_plan_id := next_plan_id a; next_stop_seal_id := next_stop_seal_id a;
     adm_pending := adm_pending a; adm_last_admitted := adm_last_admitted a; stop_lease := l |}.

(** The state part of [RunControl::begin_root_admission]; the guard is built from the plan. *)
Definition begin_root_admission (session_id : SessionId) (turn_id : TurnId) (s : RunControlInner)
    : RunControlInner * result RootAdmissionPlan RootAdmissionBeginError :=
  match classification s with
  | Open =>
    let admission := root_admission s in
    match stop_lease admission with
    | Some _ => (s, Err StopSealed)
    | None =>
      match adm_pending admission with
      | Some _ => (s, Err AdmissionPending)
      | None =>
        let publish :=
          match checked_add_u64 (next_plan_id admission) 1 with
          | None => (s, Err SequenceExhausted)
          | Some next =>
            let plan := {| plan_id := next_plan_id admission; plan_session_id := session_id;
                           plan_turn_id := turn_id |} in
            (set_root_admission
               {| next_plan_id := next; next_stop_seal_id := next_stop_seal_id admission;
                  adm_pending := Some plan; adm_last_admitted := adm_last_admitted admission;
                  stop_lease := stop_lease admission |} s, Ok plan)
          end in
        match adm_last_admitted admission with
        | Some last_admitted =>
          if decide (receipt_session_id last_admitted <> session_id)
          then (s, Err (SessionMismatch (receipt_session_id last_admitted) session_id))
          else publish
        | None => publish
        end
      end
    end
  | _ => (s, Err RunClosed)
  end.

Definition root_admission_snapshot (s : RunControlInner) : RootAdmissionSnapshot :=
  let admission := root_admission s in
  {| snap_last_admitted := adm_last_admitted admission;
     snap_pending := adm_pending admission;
     snap_stop_seal_id := (fun l => seal_id (lease_plan l)) <$> stop_lease admission |}.

Definition root_admission_stop_is_sealed (s : RunControlInner) : bool :=
  match stop_lease (root_admission s) with Some _ => true | None => false end.

Definition seal_root_admission_for_stop (s : RunControlInner)
    : RunControlInner * RootAdmissionStopSealOutcome :=
  let admission := root_admission s in
  match stop_lease admission with
  | Some _ => (s, AlreadySealed)
  | None =>
    match classification s with
    | SuccessSealed | Cancelled _ => (s, RejectedClosed)
    | _ =>
      match checked_add_u64 (next_stop_seal_id admission) 1 with
      | None => (s, SealSequenceExhausted)
      | Some next =>
        let plan := {| seal_id := next_stop_seal_id admission;
                       seal_last_admitted := adm_last_admitted admission;
                       seal_pending := adm_pending admission |} in
        (set_root_admission
           {| next_plan_id := next_plan_id admission; next_stop_seal_id := next;
              adm_pending := adm_pending admission; adm_last_admitted := adm_last_admitted admission;
              stop_lease := Some {| lease_plan := plan; pending_settlement := None;
                                    committed := false |} |} s,
         Acquired plan)
      end
    end
  end.

(** An [async] wait is polled: [Pending] means the task sleeps until the next activity. *)
Inductive Poll (A : Type) := Ready (a : A) | Pending.
Arguments Ready {A} a.
Arguments Pending {A}.

(** One iteration of the loop of [RunControl::wait_root_admission_settlement]. *)
Definition wait_root_admission_settlement (stop_plan : RootAdmissionStopPlan) (s : RunControlInner)
    : Poll (result RootAdmissionSettlement RootAdmissionWaitError) :=
  match seal_pending stop_plan with
  | None => Ready (Err NoPendingAdmission)
  | Some expected_pending =>
    match stop_lease (root_admission s) with
    | None => Ready (Err StaleStopPlan)
    | Some lease =>
      if decide (lease_plan lease <> stop_plan) then Ready (Err StaleStopPlan)
      else
        match pending_settlement lease with
        | Some settlement => Ready (Ok settlement)
        | None =>
          if decide (adm_pending (root_admission s) <> Some expected_pending)
          then Ready (Err SettlementLost)
          else Pending
        end
    end
  end.

(** One iteration of the loop of [RunControl::wait_for_root_admission_stop_resolution]. *)
Definition wait_for_root_admission_stop_resolution (s : RunControlInner) : Poll RootAdmissionStopResolution :=
  let stop_state := committed <$> stop_lease (root_admission s) in
  if bool_decide (stop_state = Some true) || is_cancelled s then Ready ResolutionCancelled
  else match stop_state with None => Ready Continue | Some _ => Pending end.

Definition commit_root_admission_stop_seal (expected_seal_id : N) (s : RunControlInner)
    : RunControlInner * bool :=
  let admission := root_admission s in
  match stop_lease admission with
  | None => (s, false)
  | Some lease =>
    if decide (seal_id (lease_plan lease) <> expected_seal_id) then (s, false)
    else
      (notify_root_admission_activity
         (set_root_admission
            (set_stop_lease (Some {| lease_plan := lease_plan lease;
                                     pending_settlement := pending_settlement lease;
                                     committed := true |}) admission) s), true)
  end.

Definition release_root_admission_stop_seal (expected_seal_id : N) (s : RunControlInner)
    : RunControlInner * bool :=
  let admission := root_admission s in
  match stop_lease admission with
  | None => (s, false)
  | Some lease =>
    if bool_decide (seal_id (lease_plan lease) <> expected_seal_id) || committed lease then (s, false)
    else (notify_root_admission_activity (set_root_admission (set_stop_lease None admission) s), true)
  end.

(** The settlement recorded in the Stop lease when it captured this very plan. *)
Definition record_settlement (expected_plan : RootAdmissionPlan) (settlement : RootAdmissionSettlement)
    (lease : option RootAdmissionStopLease) : option RootAdmissionStopLease :=
  match lease with
  | Some l =>
    if decide (seal_pending (lease_plan l) = Some expected_plan)
    then Some {| lease_plan := lease_plan l; pending_settlement := Some settlement;
                 committed := committed l |}
    else Some l
  | None => None
  end.

Definition commit_root_admission (expected_plan : RootAdmissionPlan) (revision : N) (s : RunControlInner)
    : RunControlInner * result RootAdmissionReceipt RootAdmissionSettleError :=
  let admission := root_admission s in
  if decide (adm_pending admission <> Some expected_plan) then (s, Err StalePlan)
  else
    let receipt := {| receipt_session_id := plan_session_id expected_plan;
                      receipt_turn_id := plan_turn_id expected_plan; receipt_revision := revision |} in
    (notify_root_admission_activity
       (set_root_admission
          {| next_plan_id := next_plan_id admission; next_stop_seal_id := next_stop_seal_id admission;
             adm_pending := None; adm_last_admitted := Some receipt;
             stop_lease := record_settlement expected_plan (SettledAdmitted receipt) (stop_lease admission) |} s),
     Ok receipt).

Definition abort_root_admission (expected_plan : RootAdmissionPlan) (s : RunControlInner)
    : RunControlInner * result unit RootAdmissionSettleError :=
  let admission := root_admission s in
  if decide (adm_pending admission <> Some expected_plan) then (s, Err StalePlan)
  else
    (notify_root_admission_activity
       (set_root_admission
          (set_stop_lease (record_settlement expected_plan Aborted (stop_lease admission))
             (set_adm_pending None admission)) s),
     Ok tt).

(** ** Terminal classification *)

Inductive CancellationPlan := Apply | Defer (kind : RunReservationKind).

Definition cancellation_plan (c : RunClassification) : option CancellationPlan :=
  match c with
  | Open => Some Apply
  | SuccessCommitting pending_cause =>
      match pending_cause with None => Some (Defer SuccessCommit) | Some _ => None end
  | EffectAdmitting pending_cause =>
      match pending_cause with None => Some (Defer ToolEffectAdmission) | Some _ => None end
  | EffectCommitting pending_cause =>
      match pending_cause with None => Some (Defer ToolEffectCommit) | Some _ => None end
  | ToolSettling pending_cause =>
      match pending_cause with None => Some (Defer ToolSettlement) | Some _ => None end
  | SuccessSealed | Cancelled _ => None
  end.

(** The new classification, and whether the owner must be woken.  The [unreachable!] arm of the
    source (a deferred plan for a state without reservation) leaves the state as it is. *)
Definition apply_cancellation_plan (c : RunClassification) (cause : RunCancellationCause)
    (plan : CancellationPlan) : RunClassification * bool :=
  match plan with
  | Apply => (Cancelled cause, true)
  | Defer _ =>
    (match c with
     | SuccessCommitting _ => SuccessCommitting (Some cause)
     | EffectAdmitting _ => EffectAdmitting (Some cause)
     | EffectCommitting _ => EffectCommitting (Some cause)
     | ToolSettling _ => ToolSettling (Some cause)
     | other => other
     end, false)
  end.

Record LinkedResult :=
  { linked_primary : RunClassification; linked_secondary : RunClassification;
    linked_outcome : RunCancelOutcome; wake_primary : bool; wake_secondary : bool }.

Definition linked_cancellation_locked
    (primary : RunClassification) (primary_cause : RunCancellationCause)
    (secondary : RunClassification) (secondary_cause : RunCancellationCause) : LinkedResult :=
  let rejected := {| linked_primary := primary; linked_secondary := secondary;
                     linked_outcome := Rejected; wake_primary := false; wake_secondary := false |} in
  match cancellation_plan primary, cancellation_plan secondary with
  | None, _ => rejected
  | _, None => rejected
  | Some primary_plan, Some secondary_plan =>
    let '(primary', wake1) := apply_cancellation_plan primary primary_cause primary_plan in
    let '(secondary', wake2) := apply_cancellation_plan secondary secondary_cause secondary_plan in
    let outcome :=
      if wake1 || wake2 then Applied
      else match primary_plan, secondary_plan with
           | Defer k1, Defer k2 => Deferred {| primary := k1; secondary := Some k2 |}
           | _, _ => Rejected (* unreachable!: a plan that does not wake is a deferral *)
           end in
    {| linked_primary := primary'; linked_secondary := secondary';
       linked_outcome := outcome; wake_primary := wake1; wake_secondary := wake2 |}
  end.

(** *** Reservations

    The four [begin_*] methods open a reservation only on an open owner. *)
Definition begin_tool_effect_admission (s : RunControlInner) : RunControlInner * bool :=
  match classification s with Open => (set_classification (EffectAdmitting None) s, true) | _ => (s, false) end.

Definition begin_tool_settlement (s : RunControlInner) : RunControlInner * bool :=
  match classification s with Open => (set_classification (ToolSettling None) s, true) | _ => (s, false) end.

Definition begin_tool_effect_commit (s : RunControlInner) : RunControlInner * bool :=
  match classification s with Open => (set_classification (EffectCommitting None) s, true) | _ => (s, false) end.

Definition begin_success_commit (s : RunControlInner) : RunControlInner * bool :=
  match classification s with Open => (set_classification (SuccessCommitting None) s, true) | _ => (s, false) end.

Definition seal_success (s : RunControlInner) : RunControlInner * bool :=
  match classification s with Open => (set_classification SuccessSealed s, true) | _ => (s, false) end.

Definition success_is_sealed (s : RunControlInner) : bool :=
  match classification s with SuccessSealed => true | _ => false end.

Definition request_cancel_local (cause : RunCancellationCause) (s : RunControlInner)
    : RunControlInner * RunCancelOutcome :=
  match classification s with
  | Open => (cancel_wake (set_classification (Cancelled cause) s), Applied)
  | SuccessCommitting None =>
      (set_classification (SuccessCommitting (Some cause)) s, Deferred (single SuccessCommit))
  | SuccessCommitting (Some pending) =>
      (s, if decide (pending = cause) then Deferred (single SuccessCommit) else Rejected)
  | EffectAdmitting None =>
      (set_classification (EffectAdmitting (Some cause)) s, Deferred (single ToolEffectAdmission))
  | EffectAdmitting (Some pending) =>
      (s, if decide (pending = cause) then Deferred (single ToolEffectAdmission) else Rejected)
  | EffectCommitting None =>
      (set_classification (EffectCommitting (Some cause)) s, Deferred (single ToolEffectCommit))
  | EffectCommitting (Some pending) =>
      (s, if decide (pending = cause) then Deferred (single ToolEffectCommit) else Rejected)
  | ToolSettling None =>
      (set_classification (ToolSettling (Some cause)) s, Deferred (single ToolSettlement))
  | ToolSettling (Some pending) =>
      (s, if decide (pending = cause) then Deferred (single ToolSettlement) else Rejected)
  | SuccessSealed => (s, Rejected)
  | Cancelled _ => (s, Rejected)
  end.

(** The durable commit is a callback with effects on storage [D]. *)
Definition commit_cancel_local {D E} (cause : RunCancellationCause)
    (durable_commit : D -> D * result unit E) (s : RunControlInner) (d : D)
    : RunControlInner * D * result RunCancelOutcome E :=
  match classification s with
  | Open =>
    match durable_commit d with
    | (d', Err e) => (s, d', Err e)
    | (d', Ok _) => (cancel_wake (set_classification (Cancelled cause) s), d', Ok Applied)
    end
  | _ => (s, d, Ok Rejected)
  end.

(** [upgrade] tells whether the weakly held route is still alive; [ptr_eq] is equality of ids. *)
Definition install_terminal_router (upgrade : RouterId -> bool) (router : RouterId) (s : RunControlInner)
    : RunControlInner * result unit unit :=
  match terminal_router s with
  | Some existing =>
    if upgrade existing
    then (s, if decide (existing = router) then Ok tt else Err tt)
    else (set_terminal_router (Some router) s, Ok tt)
  | None => (set_terminal_router (Some router) s, Ok tt)
  end.

Definition seal_reserved_success (s : RunControlInner) : RunControlInner * bool :=
  match classification s with
  | SuccessCommitting _ => (set_classification SuccessSealed s, true)
  | _ => (s, false)
  end.

Definition resolve_success_commit_local (fallback_cause : RunCancellationCause) (preserve_pending : bool)
    (s : RunControlInner) : RunControlInner * option RunCancellationCause :=
  match classification s with
  | SuccessCommitting pending_cause =>
    let cause := if preserve_pending then default fallback_cause pending_cause else fallback_cause in
    (cancel_wake (set_classification (Cancelled cause) s), Some cause)
  | _ => (s, None)
  end.

Definition resolve_success_commit_authoritatively_local (cause : RunCancellationCause)
    (s : RunControlInner) : RunControlInner * bool :=
  let '(s', r) := resolve_success_commit_local cause false s in
  (s', match r with Some _ => true | None => false end).

Definition abandon_success_commit_local (fallback_cause : RunCancellationCause)
    (s : RunControlInner) : RunControlInner * option RunCancellationCause :=
  resolve_success_commit_local fallback_cause true s.

Definition release_success_commit_local (s : RunControlInner)
    : RunControlInner * option RunCancellationCause :=
  match classification s with
  | SuccessCommitting (Some cause) => (cancel_wake (set_classification (Cancelled cause) s), Some cause)
  | SuccessCommitting None => (set_classification Open s, None)
  | _ => (s, None)
  end.

Definition release_tool_settlement (s : RunControlInner) : RunControlInner :=
  match classification s with
  | ToolSettling (Some cause) => cancel_wake (set_classification (Cancelled cause) s)
  | ToolSettling None => set_classification Open s
  | _ => s
  end.

Definition release_tool_effect_commit (s : RunControlInner) : RunControlInner :=
  match classification s with
  | EffectCommitting (Some cause) => cancel_wake (set_classification (Cancelled cause) s)
  | EffectCommitting None => set_classification Open s
  | _ => s
  end.

Definition lost_owner_failure : RunCancellationCause :=
  Failure (lit "tool effect admission lost its runtime owner").

Definition resolve_tool_effect_admission (s : RunControlInner)
    : RunControlInner * result unit RunCancellationCause :=
  match classification s with
  | EffectAdmitting (Some cause) => (cancel_wake (set_classification (Cancelled cause) s), Err cause)
  | EffectAdmitting None => (set_classification Open s, Ok tt)
  | _ => (s, Err lost_owner_failure)
  end.
