(* ===== verification/RunOwners.v ===== *)
(** * Shared run owners, guards and terminal routing (src/src/runtime/cancel.rs)

    Operations that involve the identity of a [RunControl]: two owners that may be the same,
    RAII guards that keep a handle, and the terminal router an agent tree installs. *)
From S2P Require Import Prelude.
From S2P Require Import Text.
From S2P Require Import TurnOutcome.
From S2P Require Import RunControl.

(** ** The store of shared owners *)

Abbreviation control_heap := (gmap N RunControlInner).

(** Every handle is live; an address that was never written holds a fresh owner. *)
Definition read (c : ControlId) (h : control_heap) : RunControlInner := default new (h !! c).

Definition on_control {A} (c : ControlId) (m : RunControlInner -> RunControlInner * A) (h : control_heap)
    : control_heap * A :=
  let '(s, a) := m (read c h) in (<[c := s]> h, a).

Definition update_control (c : ControlId) (f : RunControlInner -> RunControlInner) (h : control_heap)
    : control_heap := <[c := f (read c h)]> h.

Definition same_owner (a b : ControlId) : bool := bool_decide (a = b).

Definition inherit_effect_authority (self source : ControlId) (h : control_heap) : control_heap :=
  let authority := effect_authority (read source h) in
  update_control self (set_authority authority) h.

Definition wake_if (w : bool) (s : RunControlInner) : RunControlInner := if w then cancel_wake s else s.

(** The address order in which the two locks are taken does not show in the result: both are
    held across [linked_cancellation_locked]. *)
Definition request_linked_cancellation
    (primary : ControlId) (primary_cause : RunCancellationCause)
    (secondary : ControlId) (secondary_cause : RunCancellationCause)
    (h : control_heap) : control_heap * RunCancelOutcome :=
  if same_owner primary secondary then
    if decide (primary_cause <> secondary_cause) then (h, Rejected)
    else
      let s := read primary h in
      match cancellation_plan (classification s) with
      | None => (h, Rejected)
      | Some plan =>
        let '(c, w) := apply_cancellation_plan (classification s) primary_cause plan in
        let h' := <[primary := wake_if w (set_classification c s)]> h in
        if w then (h', Applied)
        else match plan with
             | Defer kind => (h', Deferred (single kind))
             | Apply => (h', Rejected) (* unreachable! *)
             end
      end
  else
    let p := read primary h in
    let q := read secondary h in
    let r := linked_cancellation_locked (classification p) primary_cause
               (classification q) secondary_cause in
    let h1 := <[primary := wake_if (wake_primary r) (set_classification (linked_primary r) p)]> h in
    let h2 := <[secondary := wake_if (wake_secondary r) (set_classification (linked_secondary r) q)]> h1 in
    (h2, linked_outcome r).

(** ** Root admission guard *)

Record RootAdmissionGuard :=
  { guard_control : ControlId; guard_plan : RootAdmissionPlan; settled : bool }.

Definition begin_root_admission_guard (self : ControlId) (session_id : SessionId) (turn_id : TurnId)
    (h : control_heap) : control_heap * result RootAdmissionGuard RootAdmissionBeginError :=
  let '(h', r) := on_control self (begin_root_admission session_id turn_id) h in
  (h', let? plan := r in Ok {| guard_control := self; guard_plan := plan; settled := false |}).

(** [Drop for RootAdmissionGuard] *)
Definition guard_drop (g : RootAdmissionGuard) (h : control_heap) : control_heap :=
  if settled g then h
  else fst (on_control (guard_control g) (abort_root_admission (guard_plan g)) h).

Definition guard_settled (g : RootAdmissionGuard) : RootAdmissionGuard :=
  {| guard_control := guard_control g; guard_plan := guard_plan g; settled := true |}.

(** [RootAdmissionGuard::commit] consumes the guard, so its destructor runs at the end. *)
Definition guard_commit (g : RootAdmissionGuard) (actual_revision : N) (h : control_heap)
    : control_heap * result RootAdmissionReceipt RootAdmissionSettleError :=
  let '(h', r) := on_control (guard_control g) (commit_root_admission (guard_plan g) actual_revision) h in
  (guard_drop (guard_settled g) h', r).

Definition guard_abort (g : RootAdmissionGuard) (h : control_heap)
    : control_heap * result unit RootAdmissionSettleError :=
  let '(h', r) := on_control (guard_control g) (abort_root_admission (guard_plan g)) h in
  (guard_drop (guard_settled g) h', r).

(** ** Tool reservations *)

Record Reservation := { control : ControlId; resolved : bool }.

Definition reserve (self : ControlId) (m : RunControlInner -> RunControlInner * bool) (h : control_heap)
    : control_heap * option Reservation :=
  let '(h', opened) := on_control self m h in
  (h', if opened then Some {| control := self; resolved := false |} else None).

Definition mark_resolved (b : bool) (r : Reservation) : Reservation :=
  {| control := control r; resolved := b |}.

Definition tool_effect_admission_drop (r : Reservation) (h : control_heap) : control_heap :=
  if resolved r then h else fst (on_control (control r) resolve_tool_effect_admission h).

Definition admit_tool_effect (r : Reservation) (h : control_heap) : control_heap * result unit RunCancellationCause :=
  let '(h', outcome) := on_control (control r) resolve_tool_effect_admission h in
  (tool_effect_admission_drop (mark_resolved true r) h', outcome).

Definition tool_settlement_drop (r : Reservation) (h : control_heap) : control_heap :=
  if resolved r then h else update_control (control r) release_tool_settlement h.

Definition tool_settlement_release (r : Reservation) (h : control_heap) : control_heap :=
  tool_settlement_drop (mark_resolved true r) (update_control (control r) release_tool_settlement h).

Definition tool_effect_commit_drop (r : Reservation) (h : control_heap) : control_heap :=
  if resolved r then h else update_control (control r) release_tool_effect_commit h.

Definition tool_effect_commit_release (r : Reservation) (h : control_heap) : control_heap :=
  tool_effect_commit_drop (mark_resolved true r)
    (update_control (control r) release_tool_effect_commit h).

(** ** Terminal routing

    An owner that belongs to an agent tree carries a weak route to it.  The world a route acts
    on is the client's: it contains the store of owners, tells which routes are still alive and
    runs a route. *)
Inductive RunTerminalRouteKind :=
  | Request | ResolveSuccessCommitAuthoritatively | AbandonSuccessCommit | ReleaseSuccessCommit.

Class ControlWorld (W : Type) := {
  controls : W -> control_heap;
  set_controls : control_heap -> W -> W;
  upgrade_route : W -> RouterId -> bool;
  run_route : RouterId -> ControlId -> RunTerminalRouteKind -> RunCancellationCause -> W ->
              W * option RunCancelOutcome
}.

Class ControlWorldLaws (W : Type) `{ControlWorld W} := {
  controls_set : forall h w, controls (set_controls h w) = h;
  set_controls_twice : forall h1 h2 w, set_controls h2 (set_controls h1 w) = set_controls h2 w;
  set_controls_same : forall w, set_controls (controls w) w = w;
  upgrade_route_set : forall h w r, upgrade_route (set_controls h w) r = upgrade_route w r
}.

(** Owners outside any agent tree: no route is alive. *)
#[export] Instance heap_world : ControlWorld control_heap := {
  controls := fun h => h;
  set_controls := fun h _ => h;
  upgrade_route := fun _ _ => false;
  run_route := fun _ _ _ _ h => (h, None)
}.
#[export] Instance heap_world_laws : ControlWorldLaws control_heap.
Proof. split; reflexivity. Qed.

Section Routed.
Context {W : Type} `{ControlWorld W}.

Definition in_world {A} (m : control_heap -> control_heap * A) (w : W) : W * A :=
  let '(h, a) := m (controls w) in (set_controls h w, a).

Definition route_terminal (self : ControlId) (kind : RunTerminalRouteKind)
    (cause : RunCancellationCause) (w : W) : W * option RunCancelOutcome :=
  match terminal_router (read self (controls w)) with
  | Some router => if upgrade_route w router then run_route router self kind cause w else (w, None)
  | None => (w, None)
  end.

Definition request_cancel (self : ControlId) (cause : RunCancellationCause) (w : W)
    : W * RunCancelOutcome :=
  match route_terminal self Request cause w with
  | (w', Some outcome) => (w', outcome)
  | (w', None) => in_world (on_control self (request_cancel_local cause)) w'
  end.

Definition cancel (self : ControlId) (cause : RunCancellationCause) (w : W) : W * bool :=
  let '(w', outcome) := request_cancel self cause w in (w', bool_decide (outcome = Applied)).

Definition interrupt (self : ControlId) (cause : TurnInterruptionCause) (w : W) : W * bool :=
  cancel self (Interruption cause) w.
Definition supersede (self : ControlId) (w : W) : W * bool := cancel self Superseded w.
Definition fail (self : ControlId) (message : text) (w : W) : W * bool :=
  cancel self (Failure message) w.

(** The outcome of the route on release is ignored. *)
Definition release_success_commit (self : ControlId) (w : W) : W :=
  match in_world (on_control self release_success_commit_local) w with
  | (w', Some cause) => fst (route_terminal self ReleaseSuccessCommit cause w')
  | (w', None) => w'
  end.

(** [Drop for SuccessCommitReservation] *)
Definition success_commit_drop (r : Reservation) (w : W) : W :=
  if resolved r then w else release_success_commit (control r) w.

Definition seal (r : Reservation) (w : W) : W * bool :=
  let '(w', sealed) := in_world (on_control (control r) seal_reserved_success) w in
  (success_commit_drop (mark_resolved sealed r) w', sealed).

Definition resolve_authoritative_cancellation (r : Reservation) (cause : RunCancellationCause) (w : W)
    : W * bool :=
  let '(w', resolved') :=
    match route_terminal (control r) ResolveSuccessCommitAuthoritatively cause w with
    | (w', Some outcome) => (w', bool_decide (outcome = Applied))
    | (w', None) =>
        in_world (on_control (control r) (resolve_success_commit_authoritatively_local cause)) w'
    end in
  (success_commit_drop (mark_resolved resolved' r) w', resolved').

Definition abandon_with_cancellation (r : Reservation) (fallback_cause : RunCancellationCause) (w : W)
    : W * bool :=
  let '(w', resolved') :=
    match route_terminal (control r) AbandonSuccessCommit fallback_cause w with
    | (w', Some outcome) => (w', bool_decide (outcome = Applied))
    | (w', None) =>
        let '(w'', c) := in_world (on_control (control r) (abandon_success_commit_local fallback_cause)) w' in
        (w'', match c with Some _ => true | None => false end)
    end in
  (success_commit_drop (mark_resolved resolved' r) w', resolved').

Definition success_commit_release (r : Reservation) (w : W) : W :=
  success_commit_drop (mark_resolved true r) (release_success_commit (control r) w).
End Routed.
