(* ===== verification/RunControlFacts.v ===== *)
(** * Correctness of the run owner: traces of methods on one [RunControlInner]

    [Op] has a constructor for every method that changes the state, a trace is a list of them
    in lock order, and the invariants hold after every trace from [new]. *)
From S2P Require Import Prelude.
From S2P Require Import Text.
From S2P Require Import TurnOutcome.
From S2P Require Import RunControl.

Inductive Op :=
  | OpSetEffectAuthority (a : AuthorityId)
  | OpInheritEffectAuthority (a : option AuthorityId)
  | OpRecordApprovalIdentity (id : text)
  | OpTakeApprovalIdentity
  | OpInstallRouter (upgrade : RouterId -> bool) (r : RouterId)
  | OpBeginRootAdmission (s : SessionId) (t : TurnId)
  | OpSealForStop
  | OpCommitStopSeal (id : N)
  | OpReleaseStopSeal (id : N)
  | OpCommitRootAdmission (p : RootAdmissionPlan) (revision : N)
  | OpAbortRootAdmission (p : RootAdmissionPlan)
  | OpBeginToolEffectAdmission
  | OpBeginToolSettlement
  | OpBeginToolEffectCommit
  | OpBeginSuccessCommit
  | OpSealSuccess
  | OpRequestCancelLocal (c : RunCancellationCause)
  | OpCommitCancelLocal (c : RunCancellationCause) (durable_commit : result unit text)
  | OpLinkedCancellation (c : RunCancellationCause)
  | OpSealReservedSuccess
  | OpResolveAuthoritatively (c : RunCancellationCause)
  | OpAbandonSuccessCommit (c : RunCancellationCause)
  | OpReleaseSuccessCommit
  | OpReleaseToolSettlement
  | OpReleaseToolEffectCommit
  | OpResolveToolEffectAdmission.

(** What a linked cancellation that succeeds does to one of its two owners. *)
Definition linked_update (c : RunCancellationCause) (s : RunControlInner) : RunControlInner :=
  match cancellation_plan (classification s) with
  | None => s
  | Some plan =>
    let '(k, w) := apply_cancellation_plan (classification s) c plan in
    if w then cancel_wake (set_classification k s) else set_classification k s
  end.

Definition run_op (o : Op) (s : RunControlInner) : RunControlInner :=
  match o with
  | OpSetEffectAuthority a => set_effect_authority a s
  | OpInheritEffectAuthority a => set_authority a s
  | OpRecordApprovalIdentity id => record_approval_identity id s
  | OpTakeApprovalIdentity => fst (take_approval_identity s)
  | OpInstallRouter up r => fst (install_terminal_router up r s)
  | OpBeginRootAdmission x t => fst (begin_root_admission x t s)
  | OpSealForStop => fst (seal_root_admission_for_stop s)
  | OpCommitStopSeal id => fst (commit_root_admission_stop_seal id s)
  | OpReleaseStopSeal id => fst (release_root_admission_stop_seal id s)
  | OpCommitRootAdmission p rev => fst (commit_root_admission p rev s)
  | OpAbortRootAdmission p => fst (abort_root_admission p s)
  | OpBeginToolEffectAdmission => fst (begin_tool_effect_admission s)
  | OpBeginToolSettlement => fst (begin_tool_settlement s)
  | OpBeginToolEffectCommit => fst (begin_tool_effect_commit s)
  | OpBeginSuccessCommit => fst (begin_success_commit s)
  | OpSealSuccess => fst (seal_success s)
  | OpRequestCancelLocal c => fst (request_cancel_local c s)
  | OpCommitCancelLocal c r => fst (fst (commit_cancel_local c (fun d : unit => (d, r)) s tt))
  | OpLinkedCancellation c => linked_update c s
  | OpSealReservedSuccess => fst (seal_reserved_success s)
  | OpResolveAuthoritatively c => fst (resolve_success_commit_authoritatively_local c s)
  | OpAbandonSuccessCommit c => fst (abandon_success_commit_local c s)
  | OpReleaseSuccessCommit => fst (release_success_commit_local s)
  | OpReleaseToolSettlement => release_tool_settlement s
  | OpReleaseToolEffectCommit => release_tool_effect_commit s
  | OpResolveToolEffectAdmission => fst (resolve_tool_effect_admission s)
  end.

Definition run_trace (ops : list Op) (s : RunControlInner) : RunControlInner :=
  fold_left (fun s o => run_op o s) ops s.

Definition reachable (s : RunControlInner) : Prop := exists ops, s = run_trace ops new.

(** ** Invariants *)

(** The wake token is cancelled exactly when the owner is classified as cancelled. *)
Definition wake_wf (s : RunControlInner) : Prop :=
  wake s = true <-> exists c, classification s = Cancelled c.

(** A lease that captured a pending plan either still waits for that very plan or holds its
    settlement; plans and seals in circulation were numbered before the counters; every
    admission of one owner belongs to one session. *)
Definition lease_wf (a : RootAdmissionState) (l : RootAdmissionStopLease) : Prop :=
  (seal_id (lease_plan l) < next_stop_seal_id a)%N /\
  match pending_settlement l with
  | None => adm_pending a = seal_pending (lease_plan l)
  | Some settlement =>
      adm_pending a = None /\
      exists p, seal_pending (lease_plan l) = Some p /\
        match settlement with
        | Aborted => True
        | SettledAdmitted r => adm_last_admitted a = Some r /\
                        receipt_session_id r = plan_session_id p /\ receipt_turn_id r = plan_turn_id p
        end
  end.

Definition admission_wf (a : RootAdmissionState) : Prop :=
  (1 <= next_plan_id a <= u64_max)%N /\ (1 <= next_stop_seal_id a <= u64_max)%N /\
  (forall p, adm_pending a = Some p -> (plan_id p < next_plan_id a)%N) /\
  (forall p r, adm_pending a = Some p -> adm_last_admitted a = Some r ->
     receipt_session_id r = plan_session_id p) /\
  (forall l, stop_lease a = Some l -> lease_wf a l).

Definition control_wf (s : RunControlInner) : Prop := wake_wf s /\ admission_wf (root_admission s).

(** The terminal classifications. *)
Definition terminal (c : RunClassification) : Prop :=
  match c with SuccessSealed | Cancelled _ => True | _ => False end.

(** ** Proof automation *)

(** Evaluate one method on a state whose classification and lease are split as far as its code looks at them. *)
Ltac run_unfold :=
  unfold run_op, linked_update, begin_root_admission, seal_root_admission_for_stop,
    commit_root_admission_stop_seal, release_root_admission_stop_seal, commit_root_admission,
    abort_root_admission, begin_tool_effect_admission, begin_tool_settlement,
    begin_tool_effect_commit, begin_success_commit, seal_success, request_cancel_local,
    commit_cancel_local, seal_reserved_success, resolve_success_commit_authoritatively_local,
    abandon_success_commit_local, resolve_success_commit_local, release_success_commit_local,
    release_tool_settlement, release_tool_effect_commit, resolve_tool_effect_admission,
    install_terminal_router, take_approval_identity, record_approval_identity,
    set_effect_authority, cancellation_plan, apply_cancellation_plan in *.
Ltac run_cases := run_unfold; repeat (break_match_goal; simpl); simpl in *.

(** An operation on the admission state leaves the classification and the wake token alone. *)
Definition admission_op (o : Op) : bool :=
  match o with
  | OpBeginRootAdmission _ _ | OpSealForStop | OpCommitStopSeal _ | OpReleaseStopSeal _
  | OpCommitRootAdmission _ _ | OpAbortRootAdmission _ => true
  | _ => false
  end.

Lemma admission_op_frame o s : admission_op o = true ->
  classification (run_op o s) = classification s /\ wake (run_op o s) = wake s.
Proof. destruct o; try discriminate; intros _; run_cases; auto. Qed.

Lemma other_op_frame o s : admission_op o = false -> root_admission (run_op o s) = root_admission s.
Proof. destruct o; try discriminate; intros _; run_cases; auto. Qed.

Lemma run_trace_app ops1 ops2 s : run_trace (ops1 ++ ops2) s = run_trace ops2 (run_trace ops1 s).
Proof. apply fold_left_app. Qed.

Lemma run_trace_ind (P : RunControlInner -> Prop) ops s :
  P s -> (forall o s, P s -> P (run_op o s)) -> P (run_trace ops s).
Proof. intros Hs Hstep. revert s Hs. induction ops; simpl; auto. Qed.

Lemma reachable_ind (P : RunControlInner -> Prop) :
  P new -> (forall o s, P s -> P (run_op o s)) -> forall s, reachable s -> P s.
Proof. intros H0 Hstep s [ops ->]. by apply run_trace_ind. Qed.

(** ** Preservation *)

Lemma wake_wf_step o s : wake_wf s -> wake_wf (run_op o s).
Proof.
  unfold wake_wf. intros Hwf. destruct (admission_op o) eqn:Ho.
  { destruct (admission_op_frame o s Ho) as [-> ->]; done. }
  destruct o; try discriminate; clear Ho; run_cases; try done.
  all: split; intros Hw; first [by eexists | done | apply Hwf; by eauto | destruct Hw; congruence
    | by apply Hwf in Hw as [? ?]; congruence].
Qed.

Lemma admission_wf_new : admission_wf RootAdmissionState_default.
Proof. unfold admission_wf; simpl; unfold u64_max; repeat split; try lia; discriminate. Qed.

(** Both settlements clear the pending plan and record the outcome in the lease. *)
Lemma settle_wf a p settlement last :
  admission_wf a -> adm_pending a = Some p ->
  (settlement = Aborted /\ last = adm_last_admitted a \/
   exists r, settlement = SettledAdmitted r /\ last = Some r /\
     receipt_session_id r = plan_session_id p /\ receipt_turn_id r = plan_turn_id p) ->
  admission_wf {| next_plan_id := next_plan_id a; next_stop_seal_id := next_stop_seal_id a;
                  adm_pending := None; adm_last_admitted := last;
                  stop_lease := record_settlement p settlement (stop_lease a) |}.
Proof.
  intros (Hp & Hs & Hpend & Hsess & Hlease) Hpa Hset. repeat split; simpl; try lia; try discriminate.
  - destruct (stop_lease a) as [l'|] eqn:E; simpl in H; [|done].
    destruct (Hlease l' eq_refl) as [Hid _]. case_decide; injection H as <-; simpl; done.
  - destruct (stop_lease a) as [l'|] eqn:E; simpl in H; [|done].
    destruct (Hlease l' eq_refl) as [_ Hl]. case_decide as Hd; injection H as <-; simpl.
    + split; [done|]. exists p. split; [done|]. destruct Hset as [[-> _]|(r & -> & -> & Hr)]; done.
    + exfalso. destruct (pending_settlement l'); [destruct Hl as [Hl _]|]; congruence.
Qed.

Lemma begin_wf x t s : admission_wf (root_admission s) ->
  admission_wf (root_admission (fst (begin_root_admission x t s))).
Proof.
  intros Hwf. unfold begin_root_admission. repeat (break_match_goal; simpl; try done).
  all: match goal with H : checked_add_u64 _ _ = Some _ |- _ => apply checked_add_u64_Some in H as [-> ?] end.
  all: destruct Hwf as (Hp & Hs & Hpend & Hsess & Hlease).
  all: repeat split; simpl; try lia; try congruence; try naive_solver lia.
Qed.

Lemma seal_wf s : admission_wf (root_admission s) ->
  admission_wf (root_admission (fst (seal_root_admission_for_stop s))).
Proof.
  intros Hwf. unfold seal_root_admission_for_stop. repeat (break_match_goal; simpl; try done).
  all: match goal with H : checked_add_u64 _ _ = Some _ |- _ => apply checked_add_u64_Some in H as [-> ?] end.
  all: destruct Hwf as (Hp & Hs & Hpend & Hsess & Hlease).
  all: split_and!; simpl; try lia; auto.
  all: intros l [= <-]; split; simpl; [lia|done].
Qed.

Lemma commit_seal_wf id s : admission_wf (root_admission s) ->
  admission_wf (root_admission (fst (commit_root_admission_stop_seal id s))).
Proof.
  intros Hwf. unfold commit_root_admission_stop_seal. repeat (break_match_goal; simpl; try done).
  destruct Hwf as (Hp & Hs & Hpend & Hsess & Hlease). split_and!; simpl; try lia; auto.
  intros l [= <-]. match goal with E : stop_lease _ = Some _ |- _ => exact (Hlease _ E) end.
Qed.

Lemma release_seal_wf id s : admission_wf (root_admission s) ->
  admission_wf (root_admission (fst (release_root_admission_stop_seal id s))).
Proof.
  intros Hwf. unfold release_root_admission_stop_seal. repeat (break_match_goal; simpl; try done).
  destruct Hwf as (Hp & Hs & Hpend & Hsess & Hlease). split_and!; simpl; try lia; auto; discriminate.
Qed.

Lemma commit_admission_wf p rev s : admission_wf (root_admission s) ->
  admission_wf (root_admission (fst (commit_root_admission p rev s))).
Proof.
  intros Hwf. unfold commit_root_admission. case_decide as Hd; simpl; [done|].
  apply settle_wf; [done|done|]. right. eexists. repeat split; reflexivity.
Qed.

Lemma abort_admission_wf p s : admission_wf (root_admission s) ->
  admission_wf (root_admission (fst (abort_root_admission p s))).
Proof.
  intros Hwf. unfold abort_root_admission. case_decide as Hd; simpl; [done|].
  apply (settle_wf (root_admission s)); [done|done|]. left. by split.
Qed.

Create HintDb run_control.
#[export] Hint Resolve begin_wf seal_wf commit_seal_wf release_seal_wf commit_admission_wf
  abort_admission_wf wake_wf_step : run_control.

Lemma admission_wf_step o s :
  admission_wf (root_admission s) -> admission_wf (root_admission (run_op o s)).
Proof.
  intros Hwf. destruct (admission_op o) eqn:Ho; [|by rewrite other_op_frame].
  destruct o; try discriminate; simpl; auto with run_control.
Qed.

Lemma control_wf_reachable s : reachable s -> control_wf s.
Proof.
  apply reachable_ind.
  - split; [|apply admission_wf_new]. split; [discriminate|]. by intros [? [=]].
  - intros o s' [Hw Ha]. split; auto using admission_wf_step with run_control.
Qed.

(** ** Shared trace lemmas *)

Lemma terminal_step o s : terminal (classification s) -> classification (run_op o s) = classification s.
Proof.
  intros Ht. destruct (admission_op o) eqn:Ho; [by apply admission_op_frame|].
  destruct (classification s) eqn:E; try done;
    destruct o; try discriminate; clear Ho; run_unfold; rewrite ?E; simpl; rewrite ?E; try done;
    repeat (break_match_goal; simpl; rewrite ?E; try done).
Qed.

Lemma terminal_trace ops s : terminal (classification s) ->
  classification (run_trace ops s) = classification s.
Proof.
  intros Ht. apply (run_trace_ind (fun s' => classification s' = classification s)); [done|].
  intros o s' E. rewrite terminal_step; rewrite E; done.
Qed.

Lemma next_plan_id_step o s :
  (next_plan_id (root_admission s) <= next_plan_id (root_admission (run_op o s)))%N.
Proof.
  destruct (admission_op o) eqn:Ho; [|rewrite other_op_frame by done; lia].
  destruct o; try discriminate; clear Ho; run_cases; try lia.
  all: match goal with H : checked_add_u64 _ _ = Some _ |- _ => apply checked_add_u64_Some in H as [-> ?] end; lia.
Qed.

(** Plans published after a point of a trace are numbered from that point's counter. *)
Definition no_plan_below (n : N) (s : RunControlInner) : Prop :=
  (n <= next_plan_id (root_admission s))%N /\
  forall q, adm_pending (root_admission s) = Some q -> (n <= plan_id q)%N.

Lemma no_plan_below_step n o s : no_plan_below n s -> no_plan_below n (run_op o s).
Proof.
  intros [Hn Hq]. split; [pose proof (next_plan_id_step o s); lia|].
  destruct (admission_op o) eqn:Ho; [|by rewrite other_op_frame].
  destruct o; try discriminate; clear Ho; run_cases; auto; try discriminate.
  all: intros q Hq'; first [apply Hq; congruence | injection Hq' as <-; simpl; lia].
Qed.

(** A lease that holds its settlement keeps it until exactly this lease is released. *)
Definition holds_settlement (p : RootAdmissionStopPlan) (r : RootAdmissionSettlement) (s : RunControlInner) : Prop :=
  exists b, stop_lease (root_admission s) =
    Some {| lease_plan := p; pending_settlement := Some r; committed := b |}.

Lemma holds_settlement_step p r o s :
  admission_wf (root_admission s) -> o <> OpReleaseStopSeal (seal_id p) ->
  holds_settlement p r s -> holds_settlement p r (run_op o s).
Proof.
  intros (_ & _ & _ & _ & Hl) Hne [b E]. destruct (Hl _ E) as [_ [Hnone _]]. clear Hl. simpl in Hnone.
  destruct (admission_op o) eqn:Ho; [|unfold holds_settlement; rewrite other_op_frame by done; eauto].
  destruct o; try discriminate; clear Ho; run_unfold; unfold holds_settlement; rewrite ?E, ?Hnone; simpl.
  all: repeat (break_match_goal; simpl); eauto; try congruence.
  match goal with H : _ || _ = false |- _ => apply orb_false_iff in H as [Hid _] end.
  apply bool_decide_eq_false in Hid.
  destruct Hne. f_equal. apply dec_stable in Hid. congruence.
Qed.

Lemma holds_settlement_wait p r q s :
  seal_pending p = Some q -> holds_settlement p r s -> wait_root_admission_settlement p s = Ready (Ok r).
Proof.
  intros Hq [b E]. unfold wait_root_admission_settlement. rewrite Hq, E. simpl.
  case_decide; [congruence|done].
Qed.

Lemma reachable_step o s : reachable s -> reachable (run_op o s).
Proof. intros [ops ->]. exists (ops ++ [o]). by rewrite run_trace_app. Qed.
Lemma reachable_trace ops s : reachable s -> reachable (run_trace ops s).
Proof. intros [ops' ->]. exists (ops' ++ ops). by rewrite run_trace_app. Qed.

(** ** Properties *)

(** C21. The first terminal classification of a run is final: once an owner is cancelled or its
    success is sealed, no sequence of method calls changes the classification or the recorded
    cause. *)
Theorem first_terminal_classification_wins ops s :
  terminal (classification s) ->
  classification (run_trace ops s) = classification s /\ cause (run_trace ops s) = cause s.
Proof. intros Ht. unfold cause. by rewrite terminal_trace. Qed.

Lemma first_terminal_classification_wins_witness :
  classification (run_trace [OpBeginSuccessCommit; OpRequestCancelLocal Superseded; OpSealSuccess]
    (run_op (OpRequestCancelLocal (Interruption UserStop)) new)) = Cancelled (Interruption UserStop).
Proof.
  refine (proj1 (first_terminal_classification_wins
    [OpBeginSuccessCommit; OpRequestCancelLocal Superseded; OpSealSuccess]
    (run_op (OpRequestCancelLocal (Interruption UserStop)) new) _)). exact I.
Defined.

(** In every state that method calls can reach from a new owner: the wake token is cancelled
    exactly when a cancellation cause is recorded, plan and seal numbers in circulation are below
    their counters, one owner only ever admits turns of one session, and a Stop lease either
    still waits for the plan it captured or holds the settlement of that plan. *)
Theorem run_owner_invariant s :
  reachable s ->
  (is_cancelled s = true <-> exists c, cause s = Some c) /\ admission_wf (root_admission s).
Proof.
  intros [Hw Ha]%control_wf_reachable. split; [|done]. unfold is_cancelled, cause, wake_wf in *.
  rewrite Hw. destruct (classification s); split; intros [c' E]; first [discriminate | eauto | naive_solver].
Qed.

Lemma run_owner_invariant_witness :
  is_cancelled (run_trace [OpBeginToolSettlement; OpRequestCancelLocal Superseded; OpReleaseToolSettlement] new) = true.
Proof.
  refine (proj2 (proj1 (run_owner_invariant _
    (ex_intro _ [OpBeginToolSettlement; OpRequestCancelLocal Superseded; OpReleaseToolSettlement] eq_refl))) _).
  by exists Superseded.
Defined.

(** C11. A Stop coordinator that captured a pending admission never loses its settlement: polling
    with the captured plan either sleeps while that exact plan is still pending, or returns the
    abort, or returns the receipt of that plan, which is then the owner's last admission. *)
Theorem stop_waiter_never_loses_settlement s l p :
  reachable s -> stop_lease (root_admission s) = Some l -> seal_pending (lease_plan l) = Some p ->
  match wait_root_admission_settlement (lease_plan l) s with
  | Pending => adm_pending (root_admission s) = Some p
  | Ready (Err _) => False
  | Ready (Ok Aborted) => adm_pending (root_admission s) = None
  | Ready (Ok (SettledAdmitted r)) =>
      adm_last_admitted (root_admission s) = Some r /\
      receipt_session_id r = plan_session_id p /\ receipt_turn_id r = plan_turn_id p
  end.
Proof.
  intros [_ (_ & _ & _ & _ & Ha)]%control_wf_reachable Hl Hp. destruct (Ha l Hl) as [_ Hwf].
  unfold wait_root_admission_settlement. rewrite Hp, Hl. case_decide; [done|].
  destruct (pending_settlement l) as [r|].
  - destruct Hwf as (Hnone & q & Hq & Hr). assert (q = p) as -> by congruence. by destruct r.
  - rewrite Hwf, Hp. by case_decide.
Qed.

Definition demo_plan : RootAdmissionPlan := {| plan_id := 1; plan_session_id := 7; plan_turn_id := 8 |}.
Definition demo_stop : RootAdmissionStopPlan :=
  {| seal_id := 1; seal_last_admitted := None; seal_pending := Some demo_plan |}.

Lemma stop_waiter_never_loses_settlement_witness :
  adm_last_admitted (root_admission
    (run_trace [OpBeginRootAdmission 7 8; OpSealForStop; OpCommitRootAdmission demo_plan 5] new)) =
  Some {| receipt_session_id := 7; receipt_turn_id := 8; receipt_revision := 5 |}.
Proof.
  exact (proj1 (stop_waiter_never_loses_settlement
    (run_trace [OpBeginRootAdmission 7 8; OpSealForStop; OpCommitRootAdmission demo_plan 5] new)
    {| lease_plan := demo_stop; committed := false; pending_settlement := Some (SettledAdmitted
         {| receipt_session_id := 7; receipt_turn_id := 8; receipt_revision := 5 |}) |} demo_plan
    (ex_intro _ [OpBeginRootAdmission 7 8; OpSealForStop; OpCommitRootAdmission demo_plan 5] eq_refl)
    eq_refl eq_refl)).
Defined.

(** Settlement is delivered: once the captured plan is committed, the Stop coordinator's
    wait returns that receipt, immediately and after any further calls by other threads, until
    this exact seal is released. *)
Theorem committed_admission_reaches_stop_waiter s l p rev s' r ops :
  reachable s -> stop_lease (root_admission s) = Some l -> seal_pending (lease_plan l) = Some p ->
  commit_root_admission p rev s = (s', Ok r) ->
  OpReleaseStopSeal (seal_id (lease_plan l)) ∉ ops ->
  wait_root_admission_settlement (lease_plan l) (run_trace ops s') = Ready (Ok (SettledAdmitted r)).
Proof.
  intros Hs Hl Hp Hc Hops. apply (holds_settlement_wait _ _ p); [done|].
  assert (Hs' : reachable s').
  { replace s' with (run_op (OpCommitRootAdmission p rev) s) by (simpl; by rewrite Hc). by apply reachable_step. }
  assert (Hh : holds_settlement (lease_plan l) (SettledAdmitted r) s').
  { unfold commit_root_admission in Hc. case_decide; [done|]. injection Hc as <- <-.
    exists (committed l). simpl. rewrite Hl. simpl. by case_decide. }
  clear Hc Hs. revert s' Hs' Hh Hops. induction ops as [|o ops IH]; [done|].
  intros t Ht Hh [Hne Hops]%not_elem_of_cons. simpl. apply IH; [by apply reachable_step| |done].
  apply holds_settlement_step; [apply control_wf_reachable, Ht|congruence|done].
Qed.

Lemma committed_admission_reaches_stop_waiter_witness :
  wait_root_admission_settlement demo_stop
    (run_trace [OpBeginRootAdmission 7 9; OpSealForStop; OpReleaseStopSeal 2; OpCommitStopSeal 1]
      (fst (commit_root_admission demo_plan 5 (run_trace [OpBeginRootAdmission 7 8; OpSealForStop] new))))
  = Ready (Ok (SettledAdmitted {| receipt_session_id := 7; receipt_turn_id := 8; receipt_revision := 5 |})).
Proof.
  refine (committed_admission_reaches_stop_waiter
    (run_trace [OpBeginRootAdmission 7 8; OpSealForStop] new)
    {| lease_plan := demo_stop; pending_settlement := None; committed := false |}
    demo_plan 5 _ _ _ (ex_intro _ [OpBeginRootAdmission 7 8; OpSealForStop] eq_refl) eq_refl eq_refl eq_refl _).
  repeat (apply not_elem_of_cons; split; [intros [=]|]). apply not_elem_of_nil.
Defined.

(** A plan settles at most once and its number is never reused: after a commit or an abort of
    a plan by its guard, any later attempt to settle the same plan, whatever happened in between,
    is rejected as stale and changes nothing (so a delayed guard cannot settle a newer attempt). *)
Theorem settled_plan_is_stale_forever s p o ops rev :
  reachable s -> adm_pending (root_admission s) = Some p ->
  o = OpAbortRootAdmission p \/ (exists rev', o = OpCommitRootAdmission p rev') ->
  let s' := run_trace ops (run_op o s) in
  commit_root_admission p rev s' = (s', Err StalePlan) /\ abort_root_admission p s' = (s', Err StalePlan).
Proof.
  intros [_ (_ & _ & Hlt & _)]%control_wf_reachable Hp Ho. simpl.
  assert (Hb : no_plan_below (next_plan_id (root_admission s)) (run_trace ops (run_op o s))).
  { apply (run_trace_ind (no_plan_below _)); [|intros; by apply no_plan_below_step].
    split; [apply next_plan_id_step|]. destruct Ho as [->|[rev' ->]]; simpl;
      unfold abort_root_admission, commit_root_admission; case_decide; done. }
  specialize (Hlt _ Hp). destruct Hb as [_ Hb].
  assert (adm_pending (root_admission (run_trace ops (run_op o s))) <> Some p).
  { intros E. specialize (Hb _ E). lia. }
  unfold commit_root_admission, abort_root_admission. by case_decide.
Qed.

Lemma settled_plan_is_stale_forever_witness :
  snd (commit_root_admission demo_plan 3
    (run_trace [OpBeginRootAdmission 7 8] (run_op (OpAbortRootAdmission demo_plan)
      (run_trace [OpBeginRootAdmission 7 8] new)))) = Err StalePlan.
Proof.
  refine (f_equal snd (proj1 (settled_plan_is_stale_forever (run_trace [OpBeginRootAdmission 7 8] new)
    demo_plan (OpAbortRootAdmission demo_plan) [OpBeginRootAdmission 7 8] 3
    (ex_intro _ [OpBeginRootAdmission 7 8] eq_refl) eq_refl (or_introl eq_refl)))).
Defined.

(** The reservations of one tool call, by constructor. *)
Definition tool_reservation (mk : option RunCancellationCause -> RunClassification) : Prop :=
  mk = EffectAdmitting \/ mk = EffectCommitting \/ mk = ToolSettling.

Lemma tool_reservation_step mk c o s :
  tool_reservation mk -> classification s = mk (Some c) ->
  classification (run_op o s) = mk (Some c) \/ classification (run_op o s) = Cancelled c.
Proof.
  intros Hmk E. destruct (admission_op o) eqn:Ho; [left; rewrite <- E; by apply admission_op_frame|].
  destruct Hmk as [-> | [-> | ->]]; destruct o; try discriminate; clear Ho; run_unfold; rewrite ?E;
    simpl; auto; repeat (break_match_goal; simpl; auto).
Qed.

(** A stop request that arrives while a tool call holds a reservation (permission to start its
    effect, the commit of its effect, or its settlement) is deferred but never lost: whatever
    methods run next, the owner still holds that very cause or is cancelled with it. *)
Theorem deferred_cause_survives_tool_reservation mk c ops s :
  tool_reservation mk -> classification s = mk None ->
  let '(s', outcome) := request_cancel_local c s in
  (exists kind, outcome = Deferred (single kind)) /\ wake s' = wake s /\
  (classification (run_trace ops s') = mk (Some c) \/ classification (run_trace ops s') = Cancelled c).
Proof.
  intros Hmk E. destruct (request_cancel_local c s) as [s' outcome] eqn:Hr.
  assert (Hs' : classification s' = mk (Some c) /\ wake s' = wake s /\ exists kind, outcome = Deferred (single kind)).
  { unfold request_cancel_local in Hr.
    destruct Hmk as [-> | [-> | ->]]; rewrite E in Hr; injection Hr as <- <-; eauto. }
  destruct Hs' as (Hs' & Hw & Hk). split; [done|]. split; [done|].
  apply (run_trace_ind (fun t => classification t = mk (Some c) \/ classification t = Cancelled c)); [auto|].
  intros o t [Ht|Ht]; [by apply tool_reservation_step|].
  right. rewrite terminal_step; rewrite Ht; done.
Qed.

Lemma deferred_cause_survives_tool_reservation_witness :
  let s' := fst (request_cancel_local (Interruption UserStop) (run_trace [OpBeginToolEffectCommit] new)) in
  classification (run_trace [OpRequestCancelLocal Superseded; OpReleaseToolEffectCommit] s')
    = Cancelled (Interruption UserStop).
Proof.
  pose proof (deferred_cause_survives_tool_reservation EffectCommitting (Interruption UserStop)
    [OpRequestCancelLocal Superseded; OpReleaseToolEffectCommit] (run_trace [OpBeginToolEffectCommit] new)
    (or_intror (or_introl eq_refl)) eq_refl) as H.
  destruct H as (_ & _ & [H|H]); [discriminate H|exact H].
Defined.

(** A cause that waits behind a success commit ends in one of three ways: it still waits, the
    commit is sealed as a success, or the owner is cancelled; and it is cancelled with another
    cause only by an authoritative resolution with exactly that cause. *)
Theorem success_commit_pending_cause_fate c ops s :
  classification s = SuccessCommitting (Some c) ->
  match classification (run_trace ops s) with
  | SuccessCommitting pending => pending = Some c
  | SuccessSealed => OpSealReservedSuccess ∈ ops
  | Cancelled c' => c' = c \/ OpResolveAuthoritatively c' ∈ ops
  | _ => False
  end.
Proof.
  revert s. induction ops as [|o ops IH]; intros s E; [simpl; by rewrite E|]. simpl.
  assert (Hstep : classification (run_op o s) = SuccessCommitting (Some c) \/
    (o = OpSealReservedSuccess /\ classification (run_op o s) = SuccessSealed) \/
    (exists c', classification (run_op o s) = Cancelled c' /\ (c' = c \/ o = OpResolveAuthoritatively c'))).
  { destruct (admission_op o) eqn:Ho; [left; rewrite <- E; by apply admission_op_frame|].
    destruct o; try discriminate; clear Ho; run_unfold; rewrite ?E; simpl; eauto 6;
      repeat (break_match_goal; simpl; eauto 6). }
  destruct Hstep as [Hc|[[-> Hc]|(c' & Hc & Hor)]].
  - specialize (IH _ Hc). destruct (classification (run_trace ops (run_op o s)));
      try done; [set_solver|destruct IH; set_solver].
  - rewrite terminal_trace; rewrite Hc; [set_solver|done].
  - rewrite terminal_trace; rewrite Hc; [destruct Hor as [->| ->]; set_solver|done].
Qed.

Lemma success_commit_pending_cause_fate_witness :
  OpSealReservedSuccess ∈ [OpRequestCancelLocal (Interruption UserStop); OpSealReservedSuccess].
Proof.
  exact (success_commit_pending_cause_fate Superseded
    [OpRequestCancelLocal (Interruption UserStop); OpSealReservedSuccess]
    (run_trace [OpBeginSuccessCommit; OpRequestCancelLocal Superseded] new) eq_refl).
Defined.

(** The lease with this seal number, committed or not. *)
Definition sealed_by (n : N) (must_commit : bool) (s : RunControlInner) : Prop :=
  exists l, stop_lease (root_admission s) = Some l /\ seal_id (lease_plan l) = n /\
            (must_commit = true -> committed l = true).

Lemma sealed_by_step n b o s :
  (b = true \/ o <> OpReleaseStopSeal n) -> sealed_by n b s -> sealed_by n b (run_op o s).
Proof.
  intros Hor (l & E & Hn & Hb). destruct (admission_op o) eqn:Ho;
    [|unfold sealed_by; rewrite other_op_frame by done; eauto].
  destruct o; try discriminate; clear Ho; run_unfold; unfold sealed_by; rewrite ?E; simpl.
  all: repeat (break_match_goal; simpl); eauto; try congruence.
  all: try (eexists; split; [reflexivity|]; simpl; auto; fail).
  - match goal with H : _ || _ = false |- _ => apply orb_false_iff in H as [Hid Hc] end.
    apply bool_decide_eq_false, dec_stable in Hid. destruct Hor as [->|Hor]; [|congruence].
    rewrite Hb in Hc; done.
Qed.

(** While a Stop seal is held no root turn can be admitted, and a committed Stop is permanent:
    no call releases it, so every waiter behind it is told to give up. *)
Theorem stop_seal_blocks_admission n b ops s x t :
  sealed_by n b s -> (b = true \/ OpReleaseStopSeal n ∉ ops) ->
  let s' := run_trace ops s in
  (exists e, begin_root_admission x t s' = (s', Err e) /\ (e = RunClosed \/ e = StopSealed)) /\
  (b = true -> wait_for_root_admission_stop_resolution s' = Ready ResolutionCancelled).
Proof.
  intros Hs Hor. assert (Hl : sealed_by n b (run_trace ops s)).
  { revert s Hs. induction ops as [|o ops IH]; [done|]. intros s Hs. simpl.
    apply IH; [destruct Hor; [by left|right; set_solver]|].
    apply sealed_by_step; [destruct Hor; [by left|right; set_solver]|done]. }
  destruct Hl as (l & E & _ & Hb). simpl. split.
  - unfold begin_root_admission. rewrite E. destruct (classification (run_trace ops s)); eauto.
  - intros Hbt. unfold wait_for_root_admission_stop_resolution. rewrite E. simpl.
    by rewrite (Hb Hbt).
Qed.

Lemma stop_seal_blocks_admission_witness :
  snd (begin_root_admission 7 8 (run_trace [OpReleaseStopSeal 1; OpSealForStop]
    (run_trace [OpSealForStop; OpCommitStopSeal 1] new))) = Err StopSealed.
Proof.
  assert (Hs : sealed_by 1 true (run_trace [OpSealForStop; OpCommitStopSeal 1] new)).
  { eexists. split; [reflexivity|]. split; [reflexivity|]. reflexivity. }
  destruct (stop_seal_blocks_admission 1 true [OpReleaseStopSeal 1; OpSealForStop] _ 7 8 Hs (or_introl eq_refl))
    as [(e & E & _) _].
  rewrite E. vm_compute in E. by injection E as <-.
Defined.

(** The cause a reservation already holds. *)
Definition pending_cause (c : RunClassification) : option RunCancellationCause :=
  match c with
  | SuccessCommitting p | EffectAdmitting p | EffectCommitting p | ToolSettling p => p
  | Open | SuccessSealed | Cancelled _ => None
  end.

Definition reservation_kind (c : RunClassification) : option RunReservationKind :=
  match c with
  | SuccessCommitting _ => Some SuccessCommit
  | EffectAdmitting _ => Some ToolEffectAdmission
  | EffectCommitting _ => Some ToolEffectCommit
  | ToolSettling _ => Some ToolSettlement
  | Open | SuccessSealed | Cancelled _ => None
  end.

(** The two implementations of a cancellation agree: a local request does what the plan of the
    linked request would do (cancel and wake, or record the cause behind the reservation); the one
    difference is that a repeated request with the cause already pending is reported as deferred,
    where the plan refuses every second request. *)
Theorem local_request_follows_plan c s :
  request_cancel_local c s =
  match cancellation_plan (classification s) with
  | Some plan =>
    let '(k, w) := apply_cancellation_plan (classification s) c plan in
    ((if w then cancel_wake (set_classification k s) else set_classification k s),
     match plan with Apply => Applied | Defer kind => Deferred (single kind) end)
  | None =>
    (s, match reservation_kind (classification s) with
        | Some kind => if decide (pending_cause (classification s) = Some c)
                       then Deferred (single kind) else Rejected
        | None => Rejected
        end)
  end.
Proof.
  unfold request_cancel_local. destruct (classification s) as [|[p|]|[p|]|[p|]|[p|]| |];
    simpl; try done; by repeat case_decide; try congruence.
Qed.
