(* ===== verification/RunOwnersFacts.v ===== *)
(** * Correctness of shared owners: linked cancellation, guards and routed reservations *)
From S2P Require Import Prelude.
From S2P Require Import Text.
From S2P Require Import TurnOutcome.
From S2P Require Import RunControl.
From S2P Require Import RunOwners.
From S2P Require Import RunControlFacts.

(** ** Store lemmas *)

Lemma read_insert_eq c s h : read c (<[c := s]> h) = s.
Proof. unfold read. by rewrite lookup_insert_eq. Qed.
Lemma read_insert_ne c d s h : c <> d -> read d (<[c := s]> h) = read d h.
Proof. intros. unfold read. by rewrite lookup_insert_ne. Qed.
Lemma set_classification_id s : set_classification (classification s) s = s.
Proof. by destruct s. Qed.
#[export] Hint Rewrite read_insert_eq : run_owners.
#[export] Hint Rewrite read_insert_ne using done : run_owners.

(** Steps of a store: a method of one owner, a linked cancellation, an inherited authority. *)
Inductive heap_step : control_heap -> control_heap -> Prop :=
  | step_local c o h : heap_step h (<[c := run_op o (read c h)]> h)
  | step_linked p pc q qc h : heap_step h (fst (request_linked_cancellation p pc q qc h))
  | step_inherit a b h : heap_step h (inherit_effect_authority a b h).

Inductive heap_reachable : control_heap -> Prop :=
  | heap_reachable_empty : heap_reachable ∅
  | heap_reachable_step h h' : heap_reachable h -> heap_step h h' -> heap_reachable h'.

(** What a linked cancellation does to each owner, in terms of the single-owner update. *)
Lemma linked_pointwise p pc q qc h h' out :
  request_linked_cancellation p pc q qc h = (h', out) ->
  (out = Rejected /\ forall c, read c h' = read c h) \/
  (out <> Rejected /\
   cancellation_plan (classification (read p h)) <> None /\
   cancellation_plan (classification (read q h)) <> None /\
   read p h' = linked_update pc (read p h) /\ read q h' = linked_update qc (read q h) /\
   (forall c, c <> p -> c <> q -> read c h' = read c h) /\ (p = q -> pc = qc)).
Proof.
  unfold request_linked_cancellation, same_owner. case_bool_decide as Hpq.
  - subst q. case_decide; [intros [= <- <-]; by left|]. subst qc.
    destruct (cancellation_plan (classification (read p h))) as [plan|] eqn:Ep;
      [|intros [= <- <-]; by left].
    destruct (apply_cancellation_plan (classification (read p h)) pc plan) as [k w] eqn:Ea.
    assert (Hu : linked_update pc (read p h) = wake_if w (set_classification k (read p h))).
    { unfold linked_update. rewrite Ep, Ea. by destruct w. }
    intros Hr. right. assert (h' = <[p := wake_if w (set_classification k (read p h))]> h /\ out <> Rejected) as [-> Ho].
    { destruct w; [by injection Hr as <- <-|]. destruct plan; [|by injection Hr as <- <-].
      simpl in Ea. congruence. }
    rewrite Hu. split_and!; try done; autorewrite with run_owners; try done.
    intros c Hc _. by autorewrite with run_owners.
  - unfold linked_cancellation_locked.
    destruct (cancellation_plan (classification (read p h))) as [plan1|] eqn:Ep.
    2:{ intros [= <- <-]. left. split; [done|]. intros c. simpl. rewrite !set_classification_id.
        destruct (decide (c = q)) as [->|]; autorewrite with run_owners; [done|].
        destruct (decide (c = p)) as [->|]; by autorewrite with run_owners. }
    destruct (cancellation_plan (classification (read q h))) as [plan2|] eqn:Eq.
    2:{ intros [= <- <-]. left. split; [done|]. intros c. simpl. rewrite !set_classification_id.
        destruct (decide (c = q)) as [->|]; autorewrite with run_owners; [done|].
        destruct (decide (c = p)) as [->|]; by autorewrite with run_owners. }
    destruct (apply_cancellation_plan _ pc plan1) as [k1 w1] eqn:Ea1.
    destruct (apply_cancellation_plan _ qc plan2) as [k2 w2] eqn:Ea2. simpl.
    intros [= <- Ho]. right. split_and!; try done.
    + destruct plan1, plan2, w1, w2; simpl in *; congruence.
    + unfold linked_update. rewrite Ep, Ea1. autorewrite with run_owners. by destruct w1.
    + unfold linked_update. rewrite Eq, Ea2. autorewrite with run_owners. by destruct w2.
    + intros c H1 H2. by autorewrite with run_owners.
Qed.

Lemma heap_reachable_owner h : heap_reachable h -> forall c, reachable (read c h).
Proof.
  induction 1 as [|h h' Hh IH Hstep]; intros x; [exists []; reflexivity|]. destruct Hstep as [c o h|p pc q qc h|a b h].
  - destruct (decide (x = c)) as [->|]; autorewrite with run_owners; auto using reachable_step.
  - destruct (request_linked_cancellation p pc q qc h) as [h' out] eqn:E. simpl.
    destruct (linked_pointwise _ _ _ _ _ _ _ E) as [[_ Hr]|(_ & _ & _ & Hp & Hq & Hx & _)]; [by rewrite Hr|].
    destruct (decide (x = p)) as [->|]; [rewrite Hp; by apply (reachable_step (OpLinkedCancellation pc))|].
    destruct (decide (x = q)) as [->|]; [rewrite Hq; by apply (reachable_step (OpLinkedCancellation qc))|].
    by rewrite Hx.
  - unfold inherit_effect_authority, update_control.
    destruct (decide (x = a)) as [->|]; autorewrite with run_owners; [|done].
    by apply (reachable_step (OpInheritEffectAuthority _)).
Qed.

(** Every owner of a shared store, however its handles alias and whatever the order in which
    threads call methods, link cancellations and inherit authorities, satisfies the invariant of a
    single owner. *)
Theorem shared_owner_invariant h c :
  heap_reachable h -> control_wf (read c h).
Proof. intros H. by apply control_wf_reachable, heap_reachable_owner. Qed.

Lemma shared_owner_invariant_witness :
  control_wf (read 2 (fst (request_linked_cancellation 1 Superseded 2 (Failure (lit "child")) ∅))).
Proof.
  apply shared_owner_invariant. eapply heap_reachable_step; [apply heap_reachable_empty|apply step_linked].
Defined.

(** The cause has claimed the owner: at once if it was open, else behind its reservation. *)
Definition claimed (c : RunCancellationCause) (s s' : RunControlInner) : Prop :=
  classification s = Open /\ s' = cancel_wake (set_classification (Cancelled c) s) \/
  pending_cause (classification s') = Some c /\ wake s' = wake s.

(** A linked cancellation is all or nothing: a refusal leaves every owner as it was; otherwise
    each of the two owners is cancelled and woken if it was open, or records its cause behind its
    reservation, no third owner changes, and the action counts as applied exactly when at least one
    of the two was open. *)
Theorem linked_cancellation_all_or_nothing p pc q qc h :
  let '(h', out) := request_linked_cancellation p pc q qc h in
  (out = Rejected /\ forall c, read c h' = read c h) \/
  (out <> Rejected /\ claimed pc (read p h) (read p h') /\ claimed qc (read q h) (read q h') /\
   (forall c, c <> p -> c <> q -> read c h' = read c h) /\
   (out = Applied <-> classification (read p h) = Open \/ classification (read q h) = Open)).
Proof.
  destruct (request_linked_cancellation p pc q qc h) as [h' out] eqn:E.
  destruct (linked_pointwise _ _ _ _ _ _ _ E) as [Hr|(Ho & Hp & Hq & Hp' & Hq' & Hx & Heq)]; [by left|right].
  assert (Hone : forall c s, cancellation_plan (classification s) <> None -> claimed c s (linked_update c s)).
  { intros c s Hc. unfold claimed, linked_update. destruct (classification s) as [|[?|]|[?|]|[?|]|[?|]| |]; simpl in *; auto; done. }
  split; [done|]. split; [rewrite Hp'; by apply Hone|]. split; [rewrite Hq'; by apply Hone|]. split; [done|].
  unfold request_linked_cancellation, same_owner, linked_cancellation_locked in E. clear Hp' Hq' Hone.
  case_bool_decide as Hpq.
  - subst q. rewrite decide_False in E by tauto.
    destruct (classification (read p h)) as [|[?|]|[?|]|[?|]|[?|]| |]; simpl in *; try done;
      injection E as <- <-; split; intros H; try done; try (by left); by destruct H.
  - destruct (classification (read p h)) as [|[?|]|[?|]|[?|]|[?|]| |]; simpl in *; try done;
    destruct (classification (read q h)) as [|[?|]|[?|]|[?|]|[?|]| |]; simpl in *; try done;
      injection E as <- <-; split; intros H; try done; try (by left); try (by right); by destruct H.
Qed.

(** ** Reservations of a routed world *)

Section RoutedFacts.
Context {W : Type} `{ControlWorldLaws W}.

(** The owner has no live route to an agent tree. *)
Definition unrouted (c : ControlId) (w : W) : Prop :=
  forall r, terminal_router (read c (controls w)) = Some r -> upgrade_route w r = false.

Lemma route_terminal_unrouted c kind k w : unrouted c w -> route_terminal c kind k w = (w, None).
Proof. intros Hu. unfold route_terminal. destruct (terminal_router _) eqn:E; [|done]. by rewrite Hu. Qed.

Lemma in_world_on_control {A} c (m : RunControlInner -> RunControlInner * A) w :
  in_world (on_control c m) w =
    (set_controls (<[c := fst (m (read c (controls w)))]> (controls w)) w, snd (m (read c (controls w)))).
Proof. unfold in_world, on_control. by destruct (m _). Qed.

Lemma unrouted_update c s w :
  terminal_router s = terminal_router (read c (controls w)) ->
  unrouted c w -> unrouted c (set_controls (<[c := s]> (controls w)) w).
Proof.
  intros Hs Hu r. rewrite controls_set, read_insert_eq, upgrade_route_set, Hs. apply Hu.
Qed.

Lemma release_success_commit_unrouted c w : unrouted c w ->
  release_success_commit c w =
    set_controls (<[c := fst (release_success_commit_local (read c (controls w)))]> (controls w)) w.
Proof.
  intros Hu. unfold release_success_commit. rewrite in_world_on_control.
  destruct (snd _) eqn:Es; [|done]. rewrite route_terminal_unrouted; [done|].
  apply unrouted_update; [|done]. unfold release_success_commit_local. by repeat break_match_goal.
Qed.

(** A success-commit reservation always settles its owner, whichever way it is consumed:
    sealed it is a success (a cause that waited is discarded), resolved it is cancelled with the
    given cause, abandoned it is cancelled with the waiting cause or else the fallback, and
    released or dropped it is cancelled with the waiting cause or open again.  Nothing else of
    the world changes. *)
Theorem success_reservation_always_settles r p cause w :
  resolved r = false -> unrouted (control r) w ->
  classification (read (control r) (controls w)) = SuccessCommitting p ->
  let settled_as c w' :=
    classification (read (control r) (controls w')) = c /\
    w' = set_controls (<[control r := read (control r) (controls w')]> (controls w)) w in
  let released := match p with Some c => Cancelled c | None => Open end in
  (exists w', seal r w = (w', true) /\ settled_as SuccessSealed w') /\
  (exists w', resolve_authoritative_cancellation r cause w = (w', true) /\ settled_as (Cancelled cause) w') /\
  (exists w', abandon_with_cancellation r cause w = (w', true) /\ settled_as (Cancelled (default cause p)) w') /\
  settled_as released (success_commit_release r w) /\
  settled_as released (success_commit_drop r w).
Proof.
  intros Hr Hu Hc. simpl.
  assert (Hrel : release_success_commit (control r) w = set_controls
    (<[control r := fst (release_success_commit_local (read (control r) (controls w)))]> (controls w)) w)
    by by apply release_success_commit_unrouted.
  unfold seal, resolve_authoritative_cancellation, abandon_with_cancellation, success_commit_release,
    success_commit_drop. rewrite Hr, Hrel, !route_terminal_unrouted, !in_world_on_control by done.
  unfold seal_reserved_success, resolve_success_commit_authoritatively_local, abandon_success_commit_local,
    resolve_success_commit_local, release_success_commit_local. rewrite Hc. simpl.
  split_and!; try (eexists; split; [reflexivity|]); rewrite !controls_set, !read_insert_eq;
    try destruct p; simpl; done.
Qed.
End RoutedFacts.

Lemma success_reservation_always_settles_witness :
  let w := <[5%N := run_trace [OpBeginSuccessCommit; OpRequestCancelLocal Superseded] new]> (∅ : control_heap) in
  let r := {| control := 5; resolved := false |} in
  cause (read 5 (success_commit_drop r w)) = Some Superseded.
Proof.
  simpl. pose proof (success_reservation_always_settles (W := control_heap)
    {| control := 5; resolved := false |} (Some Superseded) (Interruption UserStop)
    (<[5%N := run_trace [OpBeginSuccessCommit; OpRequestCancelLocal Superseded] new]> ∅)
    eq_refl (fun _ _ => eq_refl) eq_refl) as H.
  simpl in H. destruct H as (_ & _ & _ & _ & [E _]). unfold cause.
  simpl in E. rewrite E. reflexivity.
Defined.

Definition others_unchanged (self : ControlId) (h h' : control_heap) : Prop :=
  forall c, c <> self -> read c h' = read c h.

(** A root-admission guard settles its plan exactly once, however it is consumed: committed it
    publishes the receipt with the revision of the database, aborted or dropped it keeps the
    previous receipt; in each case the owner has no pending plan left and no other owner changes. *)
Theorem root_admission_guard_settles self x t h h1 g rev :
  begin_root_admission_guard self x t h = (h1, Ok g) ->
  guard_control g = self /\
  adm_pending (root_admission (read self h1)) = Some (guard_plan g) /\
  (exists h2, guard_commit g rev h1 =
     (h2, Ok {| receipt_session_id := x; receipt_turn_id := t; receipt_revision := rev |}) /\
   root_admission_snapshot (read self h2) =
     {| snap_last_admitted := Some {| receipt_session_id := x; receipt_turn_id := t; receipt_revision := rev |};
        snap_pending := None; snap_stop_seal_id := None |} /\
   others_unchanged self h h2) /\
  (exists h2, guard_abort g h1 = (h2, Ok tt) /\ guard_drop g h1 = h2 /\
   root_admission_snapshot (read self h2) =
     {| snap_last_admitted := adm_last_admitted (root_admission (read self h));
        snap_pending := None; snap_stop_seal_id := None |} /\
   others_unchanged self h h2).
Proof.
  unfold begin_root_admission_guard, on_control.
  destruct (begin_root_admission x t (read self h)) as [s r] eqn:E. destruct r as [plan|]; [|done].
  simpl. intros [= <- <-]. simpl. rewrite read_insert_eq.
  assert (Hs : plan_session_id plan = x /\ plan_turn_id plan = t /\
    adm_pending (root_admission s) = Some plan /\ stop_lease (root_admission s) = None /\
    adm_last_admitted (root_admission s) = adm_last_admitted (root_admission (read self h))).
  { unfold begin_root_admission in E. repeat (break_match; try discriminate).
    all: injection E as <- <-; simpl; split_and!; first [done | congruence]. }
  destruct Hs as (<- & <- & Hp & Hl & Ha).
  unfold guard_commit, guard_abort, guard_drop, on_control, commit_root_admission, abort_root_admission,
    guard_settled, root_admission_snapshot; simpl. rewrite read_insert_eq, Hp.
  repeat case_decide; try done. simpl. rewrite Hl. simpl.
  split_and!; try done; eexists; (split_and!; [reflexivity|..]); try reflexivity;
    autorewrite with run_owners; simpl; rewrite ?Hl, ?Ha; try done;
    intros c Hc; by autorewrite with run_owners.
Qed.

Lemma root_admission_guard_settles_witness :
  snd (guard_commit {| guard_control := 3; guard_plan := demo_plan; settled := false |} 4
         (fst (begin_root_admission_guard 3 7 8 ∅))) =
    Ok {| receipt_session_id := 7; receipt_turn_id := 8; receipt_revision := 4 |}.
Proof.
  assert (E0 : begin_root_admission_guard 3 7 8 ∅ = (fst (begin_root_admission_guard 3 7 8 ∅),
    Ok {| guard_control := 3; guard_plan := demo_plan; settled := false |})) by (vm_compute; reflexivity).
  destruct (root_admission_guard_settles 3 7 8 ∅ _ _ 4 E0) as (_ & _ & (h2 & E & _) & _).
  by rewrite E.
Defined.
