(* ===== verification/ActiveRun.v ===== *)
(** * The registry of active runs (src/src/runtime/active_run.rs)

    One entry per session with an active run; a lease removes its own entry when it is dropped.
    The registry holds handles of run owners, so interrupting a turn acts on the world those
    owners live in ([RunOwners.ControlWorld]).  The steer channel of an entry is its current
    value; what an awaited [changed] delivers is an argument of the resumption. *)
From S2P Require Import Prelude.
From S2P Require Import Text.
From S2P Require Import TurnOutcome.
From S2P Require Import RunControl.
From S2P Require Import RunOwners.
From S2P Require Import RunControlFacts.
From S2P Require Import RunOwnersFacts.

(** ** Data *)

Record ActiveRunTurnTarget := { turn_id : TurnId; admission_revision : N }.
#[export] Instance ActiveRunTurnTarget_eq_dec : EqDecision ActiveRunTurnTarget.
Proof. solve_decision. Defined.

Record ActiveRunEntry := {
  generation : N;
  control : ControlId;
  steer_activity : N;
  turn_target : option ActiveRunTurnTarget
}.

Record ActiveRunState := { next_generation : N; runs : gmap SessionId ActiveRunEntry }.

Definition ActiveRunState_default : ActiveRunState := {| next_generation := 0; runs := ∅ |}.

Record ActiveRunLease := { lease_session_id : SessionId; lease_generation : N }.
#[export] Instance ActiveRunLease_eq_dec : EqDecision ActiveRunLease.
Proof. solve_decision. Defined.

Inductive ActiveRunInterruptOutcome :=
  | InterruptApplied
  | InterruptDeferred
  | AlreadyClassified
  | TargetChanged
  | NotActive.

(** The [RuntimeError::Message]s of the registry. *)
Inductive RegistryError :=
  | AlreadyActive (session_id : SessionId)
  | NoActiveRunToSteer (session_id : SessionId)
  | TurnNotStarted (session_id : SessionId)
  | UnexpectedTurn (expected actual : TurnId)
  | NoActiveRunToObserve (session_id : SessionId)
  | StoppedWhileWaiting (session_id : SessionId)
  | RunDisappeared (session_id : SessionId)
  | GenerationChanged (session_id : SessionId).

(** ** Operations *)

Definition try_start (session_id : SessionId) (c : ControlId) (s : ActiveRunState)
    : ActiveRunState * result ActiveRunLease RegistryError :=
  match runs s !! session_id with
  | Some _ => (s, Err (AlreadyActive session_id))
  | None =>
    let generation := wrapping_add_u64 (next_generation s) 1 in
    ({| next_generation := generation;
        runs := <[session_id := {| generation := generation; control := c; steer_activity := 0;
                                   turn_target := None |}]> (runs s) |},
     Ok {| lease_session_id := session_id; lease_generation := generation |})
  end.

Definition is_active (session_id : SessionId) (s : ActiveRunState) : bool :=
  bool_decide (is_Some (runs s !! session_id)).

Definition interrupt_outcome (o : RunCancelOutcome) : ActiveRunInterruptOutcome :=
  match o with Applied => InterruptApplied | Deferred _ => InterruptDeferred | Rejected => AlreadyClassified end.

Section Interrupt.
Context {W : Type} `{ControlWorld W}.

(** [cancel_turn] *)
Definition cancel_turn (session_id : SessionId) (expected_turn_id : TurnId) (cause : TurnInterruptionCause)
    (s : ActiveRunState) (w : W) : W * ActiveRunInterruptOutcome :=
  match runs s !! session_id with
  | None => (w, NotActive)
  | Some run =>
    if decide (turn_id <$> turn_target run <> Some expected_turn_id) then (w, TargetChanged)
    else
      let '(w', o) := request_cancel (control run) (Interruption cause) w in (w', interrupt_outcome o)
  end.

Definition cancel_turn_at_target (session_id : SessionId) (expected_target : ActiveRunTurnTarget)
    (cause : TurnInterruptionCause) (s : ActiveRunState) (w : W) : W * ActiveRunInterruptOutcome :=
  match runs s !! session_id with
  | None => (w, NotActive)
  | Some run =>
    if decide (turn_target run <> Some expected_target) then (w, TargetChanged)
    else
      let '(w', o) := request_cancel (control run) (Interruption cause) w in (w', interrupt_outcome o)
  end.
End Interrupt.

Definition run_control (session_id : SessionId) (s : ActiveRunState) : option ControlId :=
  control <$> runs s !! session_id.

Definition active_turn_target (session_id : SessionId) (s : ActiveRunState) : option ActiveRunTurnTarget :=
  match runs s !! session_id with Some run => turn_target run | None => None end.

Definition active_turn_id (session_id : SessionId) (s : ActiveRunState) : option TurnId :=
  turn_id <$> active_turn_target session_id s.

Definition active_session_ids (s : ActiveRunState) : gset SessionId := dom (runs s).

Definition bump_steer (run : ActiveRunEntry) : ActiveRunEntry :=
  {| generation := generation run; control := control run;
     steer_activity := wrapping_add_u64 (steer_activity run) 1; turn_target := turn_target run |}.

Definition notify_steer_activity (session_id : SessionId) (expected_turn_id : TurnId) (s : ActiveRunState)
    : ActiveRunState * result unit RegistryError :=
  match runs s !! session_id with
  | None => (s, Err (NoActiveRunToSteer session_id))
  | Some run =>
    match turn_target run with
    | None => (s, Err (TurnNotStarted session_id))
    | Some target =>
      if decide (turn_id target <> expected_turn_id)
      then (s, Err (UnexpectedTurn expected_turn_id (turn_id target)))
      else ({| next_generation := next_generation s; runs := <[session_id := bump_steer run]> (runs s) |}, Ok tt)
    end
  end.

Definition steer_generation (session_id : SessionId) (s : ActiveRunState) : result N RegistryError :=
  match runs s !! session_id with
  | None => Err (NoActiveRunToObserve session_id)
  | Some run => Ok (steer_activity run)
  end.

(** [wait_for_steer_activity] up to its first suspension: a value, or a wait on the channel of the
    entry of this generation; and its resumption with what the channel delivered. *)
Inductive SteerWait := SteerReady (generation : N) | SteerWaiting (entry_generation : N).

Definition begin_wait_for_steer_activity (session_id : SessionId) (observed_generation : N)
    (s : ActiveRunState) : result SteerWait RegistryError :=
  match runs s !! session_id with
  | None => Err (NoActiveRunToObserve session_id)
  | Some run =>
    if decide (steer_activity run <> observed_generation) then Ok (SteerReady (steer_activity run))
    else Ok (SteerWaiting (generation run))
  end.

Definition resume_wait_for_steer_activity (session_id : SessionId) (changed : option N) : result N RegistryError :=
  match changed with Some current => Ok current | None => Err (StoppedWhileWaiting session_id) end.

Definition with_target (target : ActiveRunTurnTarget) (run : ActiveRunEntry) : ActiveRunEntry :=
  {| generation := generation run; control := control run; steer_activity := steer_activity run;
     turn_target := Some target |}.

Definition set_turn_target (session_id : SessionId) (expected_generation : N) (target : ActiveRunTurnTarget)
    (s : ActiveRunState) : ActiveRunState * result unit RegistryError :=
  match runs s !! session_id with
  | None => (s, Err (RunDisappeared session_id))
  | Some run =>
    if decide (generation run <> expected_generation) then (s, Err (GenerationChanged session_id))
    else ({| next_generation := next_generation s; runs := <[session_id := with_target target run]> (runs s) |}, Ok tt)
  end.

Definition remove_if_generation (session_id : SessionId) (expected_generation : N) (s : ActiveRunState)
    : ActiveRunState :=
  match runs s !! session_id with
  | Some run =>
    if decide (generation run = expected_generation)
    then {| next_generation := next_generation s; runs := delete session_id (runs s) |}
    else s
  | None => s
  end.

Definition lease_set_turn_target (l : ActiveRunLease) (t : TurnId) (revision : N) (s : ActiveRunState)
    : ActiveRunState * result unit RegistryError :=
  set_turn_target (lease_session_id l) (lease_generation l) {| turn_id := t; admission_revision := revision |} s.

Definition lease_set_turn_id (l : ActiveRunLease) (t : TurnId) (s : ActiveRunState)
    : ActiveRunState * result unit RegistryError := lease_set_turn_target l t 0 s.

(** [Drop for ActiveRunLease] *)
Definition lease_drop (l : ActiveRunLease) (s : ActiveRunState) : ActiveRunState :=
  remove_if_generation (lease_session_id l) (lease_generation l) s.

(** ** Executions

    The registry with the leases that are alive.  A lease is created by a start and dropped
    once; everything else can happen at any time, in any order. *)

Record RegistryWorld := { registry : ActiveRunState; leases : list ActiveRunLease }.

Inductive registry_step : RegistryWorld -> RegistryWorld -> Prop :=
  | step_start x c s l r ls :
      try_start x c r = (s, Ok l) ->
      registry_step {| registry := r; leases := ls |} {| registry := s; leases := l :: ls |}
  | step_target r l ls t rev :
      l ∈ ls ->
      registry_step {| registry := r; leases := ls |}
                    {| registry := fst (lease_set_turn_target l t rev r); leases := ls |}
  | step_notify r ls x t :
      registry_step {| registry := r; leases := ls |}
                    {| registry := fst (notify_steer_activity x t r); leases := ls |}
  | step_drop r ls1 l ls2 :
      registry_step {| registry := r; leases := ls1 ++ l :: ls2 |}
                    {| registry := lease_drop l r; leases := ls1 ++ ls2 |}.

Inductive registry_reachable : RegistryWorld -> Prop :=
  | reachable_initial : registry_reachable {| registry := ActiveRunState_default; leases := [] |}
  | reachable_next w w' : registry_reachable w -> registry_step w w' -> registry_reachable w'.

(** The live leases are exactly the entries of the registry, one each. *)
Definition leases_own_runs (w : RegistryWorld) : Prop :=
  NoDup (lease_session_id <$> leases w) /\
  (forall x, is_Some (runs (registry w) !! x) <-> x ∈ lease_session_id <$> leases w) /\
  forall l, l ∈ leases w ->
    exists run, runs (registry w) !! lease_session_id l = Some run /\ generation run = lease_generation l.

Lemma own_update x run run' w n :
  runs (registry w) !! x = Some run -> generation run' = generation run -> leases_own_runs w ->
  leases_own_runs {| registry := {| next_generation := n; runs := <[x := run']> (runs (registry w)) |}; leases := leases w |}.
Proof.
  intros Hx Hg (Hn & Hd & Hl). split; [done|]. cbn [registry leases runs]. split.
  - intros y. destruct (decide (x = y)) as [<-|].
    + rewrite lookup_insert_eq. rewrite <- Hd, Hx. split; intros; by eexists.
    + by rewrite lookup_insert_ne.
  - intros l H. destruct (Hl l H) as (r & Hr & Hgr). destruct (decide (x = lease_session_id l)) as [->|].
    + rewrite lookup_insert_eq. exists run'. split; [done|]. rewrite Hx in Hr. injection Hr as <-. congruence.
    + rewrite lookup_insert_ne by done. by exists r.
Qed.

Lemma own_step w w' : leases_own_runs w -> registry_step w w' -> leases_own_runs w'.
Proof.
  intros Hw Hs. destruct Hs as [x c s l r ls Hst|r l ls t rev Hl|r ls x t|r ls1 l ls2].
  - unfold try_start in Hst. destruct (runs r !! x) eqn:Ex; [done|]. injection Hst as <- <-.
    destruct Hw as (Hn & Hd & Hl). cbn [registry leases runs] in *.
    assert (Hx : x ∉ lease_session_id <$> ls) by (rewrite <- Hd, Ex; by intros [? ?]).
    split; [by constructor|]. split.
    + intros y. cbn [registry leases runs fmap list_fmap lease_session_id]. rewrite elem_of_cons, <- Hd.
      destruct (decide (x = y)) as [<-|]; [rewrite lookup_insert_eq; split; [by left|by eexists]|].
      rewrite lookup_insert_ne by done. naive_solver.
    + intros l H. cbn [leases] in H. cbn [registry runs]. apply elem_of_cons in H as [->|H].
      * cbn. rewrite lookup_insert_eq. by eexists.
      * rewrite lookup_insert_ne; [by apply Hl|]. intros ->. apply Hx. by apply list_elem_of_fmap_2.
  - unfold lease_set_turn_target, set_turn_target.
    destruct (runs r !! lease_session_id l) eqn:E; [|done]. case_decide; [done|]. cbn [fst].
    by eapply (own_update _ _ _ {| registry := r; leases := ls |}).
  - unfold notify_steer_activity. destruct (runs r !! x) eqn:E; [|done]. destruct (turn_target _); [|done].
    case_decide; [done|]. cbn [fst]. by eapply (own_update _ _ _ {| registry := r; leases := ls |}).
  - destruct Hw as (Hn & Hd & Hl). cbn [registry leases runs] in *.
    destruct (Hl l ltac:(set_solver)) as (run & Hrun & Hg).
    unfold lease_drop, remove_if_generation. rewrite Hrun, decide_True by done.
    rewrite fmap_app, fmap_cons in Hn, Hd. apply NoDup_app in Hn as (Hn1 & Hdis & Hn2). apply NoDup_cons in Hn2 as [Hnl Hn2].
    assert (Hnotin : lease_session_id l ∉ lease_session_id <$> ls1 ++ ls2).
    { rewrite fmap_app, elem_of_app. intros [H|H]; [|done]. eapply Hdis; [exact H|]. left. }
    split; [|split].
    + cbn [leases]. rewrite fmap_app. apply NoDup_app. split; [done|]. split; [|done]. intros y Hy Hy2.
      eapply Hdis; [exact Hy|]. by right.
    + intros y. cbn [registry leases runs]. destruct (decide (lease_session_id l = y)) as [<-|Hne].
      * rewrite lookup_delete_eq. split; [by intros []|]. by intros ?%Hnotin.
      * rewrite lookup_delete_ne, Hd, fmap_app, !elem_of_app, elem_of_cons by done. naive_solver.
    + intros l' H'. cbn [registry leases runs] in *. rewrite lookup_delete_ne; [apply Hl; set_solver|].
      intros E. apply Hnotin. rewrite E. by apply list_elem_of_fmap_2.
Qed.

Lemma own_reachable w : registry_reachable w -> leases_own_runs w.
Proof.
  induction 1 as [|w w' _ IH Hs]; [|by eapply own_step].
  split; [constructor|]. split; [|intros l; by intros ?%elem_of_nil].
  intros x. cbn. rewrite lookup_empty. split; [by intros []|by intros ?%elem_of_nil].
Qed.

(** In every reachable state the live leases are exactly the active runs, one per session:
    through its lease a run can always set its turn target, dropping a lease ends its own run and
    no other one, and the session can then be started again, even after the generation counter
    has wrapped around. *)
Theorem leases_own_their_runs w :
  registry_reachable w ->
  leases_own_runs w /\
  forall l, l ∈ leases w ->
    (forall t rev, snd (lease_set_turn_target l t rev (registry w)) = Ok tt /\
       active_turn_target (lease_session_id l) (fst (lease_set_turn_target l t rev (registry w))) =
         Some {| turn_id := t; admission_revision := rev |}) /\
    runs (lease_drop l (registry w)) = delete (lease_session_id l) (runs (registry w)) /\
    forall c, exists l', snd (try_start (lease_session_id l) c (lease_drop l (registry w))) = Ok l'.
Proof.
  intros Hr%own_reachable. split; [done|]. intros l Hl. destruct Hr as (_ & _ & Hown).
  destruct (Hown l Hl) as (run & Hrun & Hg). split.
  - intros t rev. unfold lease_set_turn_target, set_turn_target. rewrite Hrun, decide_False by auto.
    cbn. split; [done|]. unfold active_turn_target. cbn [runs]. by rewrite lookup_insert_eq.
  - unfold lease_drop, remove_if_generation. rewrite Hrun, decide_True by done. split; [done|]. intros c.
    unfold try_start. cbn [runs]. rewrite lookup_delete_eq. by eexists.
Qed.

Lemma leases_own_their_runs_witness :
  exists w l, registry_reachable w /\ l ∈ leases w /\ is_Some (runs (registry w) !! 7%N) /\
    runs (lease_drop l (registry w)) = delete 7%N (runs (registry w)).
Proof.
  destruct (try_start 7%N 1%N ActiveRunState_default) as [s r] eqn:E. pose proof E as E0. vm_compute in E.
  destruct r as [l|]; [|discriminate E].
  assert (Hr : registry_reachable {| registry := s; leases := [l] |}).
  { eapply reachable_next; [apply reachable_initial|]. by eapply step_start. }
  assert (Hl : l ∈ [l]) by constructor.
  exists {| registry := s; leases := [l] |}, l. split; [exact Hr|]. split; [exact Hl|].
  destruct (leases_own_their_runs _ Hr) as [_ H]. destruct (H l Hl) as (_ & Hd & _). cbn [registry] in *.
  assert (lease_session_id l = 7%N) as E7 by (injection E as _ <-; reflexivity). rewrite E7 in Hd. split; [|exact Hd].
  destruct (leases_own_their_runs _ Hr) as [(_ & Hdom & _) _]. apply Hdom. cbn. rewrite E7. constructor.
Defined.

(** Interrupting a turn reaches the owner of that very turn or nothing: without an active run,
    or when the run has moved to another turn (or another admission of it), the world is left as
    it is; otherwise, for a run outside any agent tree, the outcome is the one of cancelling its
    owner, whose classification changes exactly as that cancellation says, and no other owner is
    touched. *)
Theorem cancel_turn_hits_its_turn x t target cause s (h : control_heap) :
  (active_turn_id x s <> Some t ->
     fst (cancel_turn x t cause s h) = h /\
     snd (cancel_turn x t cause s h) = if is_active x s then TargetChanged else NotActive) /\
  (active_turn_target x s <> Some target ->
     fst (cancel_turn_at_target x target cause s h) = h /\
     snd (cancel_turn_at_target x target cause s h) = if is_active x s then TargetChanged else NotActive) /\
  (active_turn_target x s = Some target ->
     cancel_turn_at_target x target cause s h = cancel_turn x (turn_id target) cause s h /\
     exists c, run_control x s = Some c /\
       let '(s', o) := request_cancel_local (Interruption cause) (read c h) in
       snd (cancel_turn x (turn_id target) cause s h) = interrupt_outcome o /\
       read c (fst (cancel_turn x (turn_id target) cause s h)) = s' /\
       forall d, d <> c -> read d (fst (cancel_turn x (turn_id target) cause s h)) = read d h).
Proof.
  unfold active_turn_id, active_turn_target, is_active, cancel_turn, cancel_turn_at_target, run_control.
  destruct (runs s !! x) as [run|] eqn:E; [|rewrite bool_decide_eq_false_2 by (by intros []); by repeat split].
  rewrite bool_decide_eq_true_2 by by eexists. split; [intros Ht; by rewrite decide_True|].
  split; [intros Ht; by rewrite decide_True|]. intros Ht. rewrite Ht. cbn [fmap option_fmap option_map].
  rewrite !decide_False by auto. split; [done|]. exists (control run). split; [done|].
  unfold request_cancel. rewrite (route_terminal_unrouted (W := control_heap)) by (intros r Hr; reflexivity).
  unfold in_world, on_control. change (controls h) with h.
  destruct (request_cancel_local (Interruption cause) (read (control run) h)) as [s' o]. cbn [fst snd set_controls heap_world].
  split; [done|]. split; [apply read_insert_eq|]. intros d Hd. by apply read_insert_ne.
Qed.
