(* ===== verification/AgentTree.v ===== *)
(** * The agent tree: state and the functions run under its lock
    (src/src/runtime/agent_control.rs)

    One process-local tree holds an entry per retained agent.  An execution of an agent is owned
    by a marker: [Arc<()>] identities are numbers handed out once.  Run controls are addresses in
    the store of [RunOwners]; a new one gets the next free address.  Maps keep no order; every
    iteration the code sorts is sorted here, and no result depends on the rest. *)
From S2P Require Import Prelude.
From S2P Require Import TurnOutcome.
From S2P Require Import Text.
From S2P Require Import AgentPath.
From S2P Require Import RunControl.
From S2P Require Import RunOwners.

Abbreviation HistoryItemId := N (only parsing).
Abbreviation OwnerResumeRequestId := N (only parsing).
Abbreviation Marker := N (only parsing).

Definition MAX_AGENT_MAILBOX_NOTICES : nat := 128.
Definition MAX_RETAINED_AGENTS : nat := 256.

(** ** Statuses *)

Inductive AgentStatus :=
  | PendingInit
  | Running
  | AwaitingDescendants
  | Interrupted
  | Completed (result : option text)
  | Errored (message : text)
  | Shutdown.
#[export] Instance AgentStatus_eq_dec : EqDecision AgentStatus.
Proof. solve_decision. Defined.

Inductive ActiveAgentStatus := ActivePendingInit | ActiveRunning.
Definition of_active (s : ActiveAgentStatus) : AgentStatus :=
  match s with ActivePendingInit => PendingInit | ActiveRunning => Running end.

Inductive InactiveAgentStatus :=
  | InactivePendingInit
  | InactiveAwaitingDescendants (turn : TurnId)
  | InactiveInterrupted
  | InactiveCompleted (result : option text)
  | InactiveErrored (message : text)
  | InactiveShutdown.
Definition of_inactive (s : InactiveAgentStatus) : AgentStatus :=
  match s with
  | InactivePendingInit => PendingInit
  | InactiveAwaitingDescendants _ => AwaitingDescendants
  | InactiveInterrupted => Interrupted
  | InactiveCompleted r => Completed r
  | InactiveErrored m => Errored m
  | InactiveShutdown => Shutdown
  end.

(** ** Entries *)

Record AgentMailboxNotice := {
  history_item_id : HistoryItemId;
  trigger_turn : bool;
  schedule_ready : bool;
  notice_generation : N
}.

Inductive AgentExecutionWakeCause :=
  | ExplicitTask (item : HistoryItemId)
  | OwnerResume (request : OwnerResumeRequestId).

(** The mailbox activity channel of an entry is its last sent value. *)
Record AgentEntry := {
  session_id : SessionId;
  parent_path : option AgentPath;
  spawn_order : N;
  status : AgentStatus;
  last_activity : option text;
  execution_marker : option Marker;
  run_control : ControlId;
  mailbox : list AgentMailboxNotice;
  pending_owner_resume_request_id : option OwnerResumeRequestId;
  active_durable_turn_id : option TurnId;
  awaiting_deferred_turn_id : option TurnId;
  pending_deferred_release : option TurnId;
  mailbox_generation : N;
  trigger_admission_epoch : N;
  trigger_purge_pending : N;
  mailbox_activity : N
}.

Record AgentTreeState := {
  max_concurrent_agents : nat;
  next_spawn_order : N;
  pending_capacity_reservations : nat;
  root_scope_control : ControlId;
  pending_root_durable_turn : option (TurnId * N);
  agents : gmap AgentPath AgentEntry
}.

(** The tree in its world: the store of run controls, the next free address and marker, the
    identity of the tree (its terminal router) and the activity counter. *)
Record AgentWorld := {
  heap : control_heap;
  next_control : ControlId;
  next_marker : Marker;
  tree_id : RouterId;
  activity : N;
  tree : AgentTreeState
}.

Record AgentExecutionLease := {
  lease_path : AgentPath;
  lease_marker : Marker;
  lease_control : ControlId;
  wake_cause : option AgentExecutionWakeCause
}.

Record AgentExecutionScope := { scope_tree : RouterId; scope_path : AgentPath; scope_marker : Marker }.

Inductive AgentControlError :=
  | InvalidCapacity (requested max_retained_agents : nat)
  | InvalidPath (e : AgentPathError)
  | AgentNotFound (p : AgentPath)
  | AgentAlreadyExists (p : AgentPath)
  | SessionAlreadyRegistered (s : SessionId)
  | AgentAlreadyActive (p : AgentPath)
  | AgentShutdown (p : AgentPath)
  | AgentNotActive (p : AgentPath)
  | AgentLimitReached (max : nat)
  | AgentRegistryFull (max_retained_agents : nat)
  | SpawnOrderExhausted
  | SpawnOrderAlreadyUsed (order : N)
  | TreeCancelled
  | MailboxClosed (p : AgentPath)
  | MailboxFull (recipient : AgentPath) (capacity : nat)
  | DurableMailboxCommit (message : text)
  | DurableOwnerResumeRead (message : text)
  | DurableAdmissionCommit (message : text)
  | DurableInterruptCommit (message : text)
  | DurableSpawnCommit (message : text)
  | LockPoisoned
  | StaleExecution (p : AgentPath)
  | AgentNotAwaitingDescendants (p : AgentPath)
  | RootAgentCannotBeRemoved
  | AgentRollbackRejected (p : AgentPath)
  | RunControlOwnedByDifferentTree
  | RootTurnRequiresScope.

(** ** Field updates *)

Definition set_heap (h : control_heap) (w : AgentWorld) : AgentWorld :=
  {| heap := h; next_control := next_control w; next_marker := next_marker w; tree_id := tree_id w;
     activity := activity w; tree := tree w |}.
Definition set_tree (t : AgentTreeState) (w : AgentWorld) : AgentWorld :=
  {| heap := heap w; next_control := next_control w; next_marker := next_marker w; tree_id := tree_id w;
     activity := activity w; tree := t |}.
Definition set_agents (m : gmap AgentPath AgentEntry) (t : AgentTreeState) : AgentTreeState :=
  {| max_concurrent_agents := max_concurrent_agents t; next_spawn_order := next_spawn_order t;
     pending_capacity_reservations := pending_capacity_reservations t; root_scope_control := root_scope_control t;
     pending_root_durable_turn := pending_root_durable_turn t; agents := m |}.
Definition set_next_spawn_order (n : N) (t : AgentTreeState) : AgentTreeState :=
  {| max_concurrent_agents := max_concurrent_agents t; next_spawn_order := n;
     pending_capacity_reservations := pending_capacity_reservations t; root_scope_control := root_scope_control t;
     pending_root_durable_turn := pending_root_durable_turn t; agents := agents t |}.
Definition set_reservations (n : nat) (t : AgentTreeState) : AgentTreeState :=
  {| max_concurrent_agents := max_concurrent_agents t; next_spawn_order := next_spawn_order t;
     pending_capacity_reservations := n; root_scope_control := root_scope_control t;
     pending_root_durable_turn := pending_root_durable_turn t; agents := agents t |}.
Definition set_root_scope (c : ControlId) (t : AgentTreeState) : AgentTreeState :=
  {| max_concurrent_agents := max_concurrent_agents t; next_spawn_order := next_spawn_order t;
     pending_capacity_reservations := pending_capacity_reservations t; root_scope_control := c;
     pending_root_durable_turn := pending_root_durable_turn t; agents := agents t |}.
Definition set_pending_root (p : option (TurnId * N)) (t : AgentTreeState) : AgentTreeState :=
  {| max_concurrent_agents := max_concurrent_agents t; next_spawn_order := next_spawn_order t;
     pending_capacity_reservations := pending_capacity_reservations t; root_scope_control := root_scope_control t;
     pending_root_durable_turn := p; agents := agents t |}.
Definition update_agent (p : AgentPath) (a : AgentEntry) (t : AgentTreeState) : AgentTreeState :=
  set_agents (<[p := a]> (agents t)) t.

Definition set_execution (status : AgentStatus) (marker : option Marker) (control : ControlId) (a : AgentEntry) : AgentEntry :=
  {| session_id := session_id a; parent_path := parent_path a; spawn_order := spawn_order a; status := status;
     last_activity := last_activity a; execution_marker := marker; run_control := control; mailbox := mailbox a;
     pending_owner_resume_request_id := pending_owner_resume_request_id a;
     active_durable_turn_id := active_durable_turn_id a; awaiting_deferred_turn_id := awaiting_deferred_turn_id a;
     pending_deferred_release := pending_deferred_release a; mailbox_generation := mailbox_generation a;
     trigger_admission_epoch := trigger_admission_epoch a; trigger_purge_pending := trigger_purge_pending a;
     mailbox_activity := mailbox_activity a |}.
Definition set_last_activity (s : option text) (a : AgentEntry) : AgentEntry :=
  {| session_id := session_id a; parent_path := parent_path a; spawn_order := spawn_order a; status := status a;
     last_activity := s; execution_marker := execution_marker a; run_control := run_control a; mailbox := mailbox a;
     pending_owner_resume_request_id := pending_owner_resume_request_id a;
     active_durable_turn_id := active_durable_turn_id a; awaiting_deferred_turn_id := awaiting_deferred_turn_id a;
     pending_deferred_release := pending_deferred_release a; mailbox_generation := mailbox_generation a;
     trigger_admission_epoch := trigger_admission_epoch a; trigger_purge_pending := trigger_purge_pending a;
     mailbox_activity := mailbox_activity a |}.
Definition set_turns (active awaiting deferred : option TurnId) (a : AgentEntry) : AgentEntry :=
  {| session_id := session_id a; parent_path := parent_path a; spawn_order := spawn_order a; status := status a;
     last_activity := last_activity a; execution_marker := execution_marker a; run_control := run_control a;
     mailbox := mailbox a; pending_owner_resume_request_id := pending_owner_resume_request_id a;
     active_durable_turn_id := active; awaiting_deferred_turn_id := awaiting;
     pending_deferred_release := deferred; mailbox_generation := mailbox_generation a;
     trigger_admission_epoch := trigger_admission_epoch a; trigger_purge_pending := trigger_purge_pending a;
     mailbox_activity := mailbox_activity a |}.
Definition set_mailbox (m : list AgentMailboxNotice) (a : AgentEntry) : AgentEntry :=
  {| session_id := session_id a; parent_path := parent_path a; spawn_order := spawn_order a; status := status a;
     last_activity := last_activity a; execution_marker := execution_marker a; run_control := run_control a;
     mailbox := m; pending_owner_resume_request_id := pending_owner_resume_request_id a;
     active_durable_turn_id := active_durable_turn_id a; awaiting_deferred_turn_id := awaiting_deferred_turn_id a;
     pending_deferred_release := pending_deferred_release a; mailbox_generation := mailbox_generation a;
     trigger_admission_epoch := trigger_admission_epoch a; trigger_purge_pending := trigger_purge_pending a;
     mailbox_activity := mailbox_activity a |}.
Definition set_owner_resume (r : option OwnerResumeRequestId) (a : AgentEntry) : AgentEntry :=
  {| session_id := session_id a; parent_path := parent_path a; spawn_order := spawn_order a; status := status a;
     last_activity := last_activity a; execution_marker := execution_marker a; run_control := run_control a;
     mailbox := mailbox a; pending_owner_resume_request_id := r;
     active_durable_turn_id := active_durable_turn_id a; awaiting_deferred_turn_id := awaiting_deferred_turn_id a;
     pending_deferred_release := pending_deferred_release a; mailbox_generation := mailbox_generation a;
     trigger_admission_epoch := trigger_admission_epoch a; trigger_purge_pending := trigger_purge_pending a;
     mailbox_activity := mailbox_activity a |}.
Definition set_purge (epoch pending : N) (a : AgentEntry) : AgentEntry :=
  {| session_id := session_id a; parent_path := parent_path a; spawn_order := spawn_order a; status := status a;
     last_activity := last_activity a; execution_marker := execution_marker a; run_control := run_control a;
     mailbox := mailbox a; pending_owner_resume_request_id := pending_owner_resume_request_id a;
     active_durable_turn_id := active_durable_turn_id a; awaiting_deferred_turn_id := awaiting_deferred_turn_id a;
     pending_deferred_release := pending_deferred_release a; mailbox_generation := mailbox_generation a;
     trigger_admission_epoch := epoch; trigger_purge_pending := pending; mailbox_activity := mailbox_activity a |}.

(** [mailbox_generation] is bumped and sent to the waiters. *)
Definition bump_mailbox (a : AgentEntry) : AgentEntry :=
  let generation := wrapping_add_u64 (mailbox_generation a) 1 in
  {| session_id := session_id a; parent_path := parent_path a; spawn_order := spawn_order a; status := status a;
     last_activity := last_activity a; execution_marker := execution_marker a; run_control := run_control a;
     mailbox := mailbox a; pending_owner_resume_request_id := pending_owner_resume_request_id a;
     active_durable_turn_id := active_durable_turn_id a; awaiting_deferred_turn_id := awaiting_deferred_turn_id a;
     pending_deferred_release := pending_deferred_release a; mailbox_generation := generation;
     trigger_admission_epoch := trigger_admission_epoch a; trigger_purge_pending := trigger_purge_pending a;
     mailbox_activity := generation |}.

Definition notify_activity (w : AgentWorld) : AgentWorld :=
  {| heap := heap w; next_control := next_control w; next_marker := next_marker w; tree_id := tree_id w;
     activity := wrapping_add_u64 (activity w) 1; tree := tree w |}.

(** [RunControl::new()] followed by [inherit_effect_authority], and [Arc::new(())]. *)
Definition new_control (authority_of : ControlId) (w : AgentWorld) : AgentWorld * ControlId :=
  let c := next_control w in
  ({| heap := inherit_effect_authority c authority_of (<[c := new]> (heap w)); next_control := (c + 1)%N;
      next_marker := next_marker w; tree_id := tree_id w; activity := activity w; tree := tree w |}, c).
Definition new_arc (w : AgentWorld) : AgentWorld * Marker :=
  ({| heap := heap w; next_control := next_control w; next_marker := (next_marker w + 1)%N; tree_id := tree_id w;
      activity := activity w; tree := tree w |}, next_marker w).

(** ** Queries under the lock *)

Definition control_of (c : ControlId) (w : AgentWorld) : RunControlInner := read c (heap w).

Definition tree_cancelled (w : AgentWorld) : bool := is_cancelled (control_of (root_scope_control (tree w)) w).

Definition has_marker (a : AgentEntry) : bool := match execution_marker a with Some _ => true | None => false end.
Definition owns_marker (m : Marker) (a : AgentEntry) : bool := bool_decide (execution_marker a = Some m).
Definition is_shutdown (a : AgentEntry) : bool := match status a with Shutdown => true | _ => false end.

Definition counted (p : AgentPath) (a : AgentEntry) : bool := negb (is_root p) && has_marker a.
Definition active_paths (t : AgentTreeState) : gset AgentPath :=
  dom (filter (fun pa => counted (fst pa) (snd pa) = true) (agents t)).

Definition active_agent_count (t : AgentTreeState) : nat :=
  pending_capacity_reservations t + size (active_paths t).

Definition descendant_capacity (t : AgentTreeState) : nat := max_concurrent_agents t - 1.

Definition any_agent (f : AgentEntry -> bool) (t : AgentTreeState) : bool :=
  existsb (fun pa => f (snd pa)) (map_to_list (agents t)).

Definition session_taken (s : SessionId) (t : AgentTreeState) : bool :=
  any_agent (fun a => bool_decide (session_id a = s)) t.
Definition order_taken (o : N) (t : AgentTreeState) : bool :=
  any_agent (fun a => bool_decide (spawn_order a = o)) t.

(** [slice::sort_by_key], stable. *)
Fixpoint insert_by_key {A} (key : A -> N) (x : A) (l : list A) : list A :=
  match l with
  | [] => [x]
  | y :: l' => if (key x <=? key y)%N then x :: l else y :: insert_by_key key x l'
  end.
Fixpoint sort_by_key {A} (key : A -> N) (l : list A) : list A :=
  match l with [] => [] | x :: l' => insert_by_key key x (sort_by_key key l') end.

(** ** Mailbox readiness *)

(** [Iterator::max_by_key] keeps the last of the greatest; the key is the generation, then the index. *)
Fixpoint latest_ready (best : option AgentMailboxNotice) (l : list AgentMailboxNotice) : option AgentMailboxNotice :=
  match l with
  | [] => best
  | n :: l' =>
    let best' :=
      if trigger_turn n && schedule_ready n then
        match best with
        | Some b => if (notice_generation b <=? notice_generation n)%N then Some n else Some b
        | None => Some n
        end
      else best in
    latest_ready best' l'
  end.

Definition pending_execution_wake_cause (a : AgentEntry) : option AgentExecutionWakeCause :=
  match latest_ready None (mailbox a) with
  | Some n => Some (ExplicitTask (history_item_id n))
  | None =>
    if existsb trigger_turn (mailbox a) then None
    else OwnerResume <$> pending_owner_resume_request_id a
  end.

Definition agent_has_live_work (a : AgentEntry) : bool :=
  has_marker a ||
  match status a with AwaitingDescendants => true | _ => false end ||
  match pending_execution_wake_cause a with Some _ => true | None => false end.

Definition set_ready (ready : bool) (n : AgentMailboxNotice) : AgentMailboxNotice :=
  if trigger_turn n
  then {| history_item_id := history_item_id n; trigger_turn := trigger_turn n; schedule_ready := ready;
          notice_generation := notice_generation n |}
  else n.
Definition set_triggers_ready (ready : bool) (a : AgentEntry) : AgentEntry :=
  set_mailbox (map (set_ready ready) (mailbox a)) a.

Definition clear_cancelled_active_generation_state (a : AgentEntry) : AgentEntry :=
  set_turns None (awaiting_deferred_turn_id a) None a.

(** [project_deferred_owner_release]; the cause of the agent's run control is an argument. *)
Definition project_deferred_owner_release (control_cause : option RunCancellationCause) (a : AgentEntry)
    (released_turn_id : option TurnId) : AgentEntry * bool :=
  match released_turn_id with
  | None => (a, false)
  | Some released =>
    if is_shutdown a || match control_cause with Some _ => true | None => false end then (a, false)
    else if has_marker a then
      (if decide (active_durable_turn_id a = Some released)
       then set_turns (active_durable_turn_id a) (awaiting_deferred_turn_id a) (Some released) a
       else a, false)
    else if negb (bool_decide (status a = AwaitingDescendants)) ||
            negb (bool_decide (awaiting_deferred_turn_id a = Some released))
    then (a, false)
    else (a, true)
  end.

Definition project_owner_resume_request (a : AgentEntry) (request_id : option OwnerResumeRequestId)
    : AgentEntry * bool :=
  match request_id with
  | None => (a, false)
  | Some request =>
    match pending_owner_resume_request_id a with
    | Some existing => (a, bool_decide (existing = request))
    | None => (set_owner_resume (Some request) a, true)
    end
  end.

Definition reconcile_current_owner_resume_request (a : AgentEntry) (request_id : option OwnerResumeRequestId)
    : AgentEntry * bool :=
  (set_owner_resume request_id a, match request_id with Some _ => true | None => false end).

(** ** Scheduling *)

Definition is_candidate (p : AgentPath) (a : AgentEntry) : bool :=
  negb (is_root p) && negb (has_marker a) && negb (is_shutdown a) &&
  match pending_execution_wake_cause a with Some _ => true | None => false end.

Definition candidates (t : AgentTreeState) : list AgentPath :=
  map fst (sort_by_key (fun pa => spawn_order (snd pa))
             (List.filter (fun pa => is_candidate (fst pa) (snd pa)) (map_to_list (agents t)))).

(** What every acquisition of an execution does to its entry. *)
Definition start_execution (marker : Marker) (control : ControlId) (a : AgentEntry) : AgentEntry :=
  set_turns None None None (set_execution PendingInit (Some marker) control a).

(** The loop over the candidates; a candidate is still in the registry, the [expect]s hold. *)
Fixpoint reserve_loop (paths : list AgentPath) (w : AgentWorld) (leases : list AgentExecutionLease)
    : AgentWorld * list AgentExecutionLease :=
  match paths with
  | [] => (w, leases)
  | p :: paths' =>
    if descendant_capacity (tree w) <=? active_agent_count (tree w) then (w, leases)
    else
      match agents (tree w) !! p with
      | None => (w, leases)
      | Some a =>
        let '(w, marker) := new_arc w in
        let '(w, control) := new_control (root_scope_control (tree w)) w in
        reserve_loop paths' (set_tree (update_agent p (start_execution marker control a) (tree w)) w)
          (leases ++ [{| lease_path := p; lease_marker := marker; lease_control := control;
                         wake_cause := pending_execution_wake_cause a |}])
      end
  end.

Definition reserve_pending_triggered_executions_locked (w : AgentWorld) : AgentWorld * list AgentExecutionLease :=
  if tree_cancelled w then (w, []) else reserve_loop (candidates (tree w)) w [].

(** ** Validation under the lock *)

Section Scopes.
(** Whether a weak marker still upgrades: some lease, entry or captured target keeps it alive. *)
Context (upgrade_marker : Marker -> bool).

Definition validate_execution_scope_locked (w : AgentWorld) (scope : AgentExecutionScope) (expected_path : AgentPath)
    : result unit AgentControlError :=
  if negb (bool_decide (tree_id w = scope_tree scope)) || negb (bool_decide (scope_path scope = expected_path))
  then Err (StaleExecution expected_path)
  else if negb (upgrade_marker (scope_marker scope)) then Err (StaleExecution expected_path)
  else
    match agents (tree w) !! expected_path with
    | None => Err (AgentNotFound expected_path)
    | Some a =>
      let c := control_of (run_control a) w in
      if negb (owns_marker (scope_marker scope) a) || is_cancelled c || success_is_sealed c
      then Err (StaleExecution expected_path)
      else Ok tt
    end.
End Scopes.

Definition validate_child_registration_locked (w : AgentWorld) (parent child_path : AgentPath) (session : SessionId)
    : result unit AgentControlError :=
  let t := tree w in
  if tree_cancelled w then Err TreeCancelled
  else if negb (bool_decide (is_Some (agents t !! parent))) then Err (AgentNotFound parent)
  else if bool_decide (is_Some (agents t !! child_path)) then Err (AgentAlreadyExists child_path)
  else if session_taken session t then Err (SessionAlreadyRegistered session)
  else if MAX_RETAINED_AGENTS <=? size (agents t) then Err (AgentRegistryFull MAX_RETAINED_AGENTS)
  else if descendant_capacity t <=? active_agent_count t then Err (AgentLimitReached (max_concurrent_agents t))
  else Ok tt.

Definition allocate_spawn_order (t : AgentTreeState) : result (AgentTreeState * N) AgentControlError :=
  match checked_add_u64 (next_spawn_order t) 1 with
  | None => Err SpawnOrderExhausted
  | Some next => Ok (set_next_spawn_order next t, next_spawn_order t)
  end.

(** The order of a new entry: the durable one, checked, or the next one. *)
Definition choose_spawn_order (durable_spawn_order : option N) (t : AgentTreeState)
    : result (AgentTreeState * N) AgentControlError :=
  match durable_spawn_order with
  | Some order =>
    if (order =? 0)%N || order_taken order t then Err (SpawnOrderAlreadyUsed order)
    else match checked_add_u64 order 1 with
         | None => Err SpawnOrderExhausted
         | Some next => Ok (set_next_spawn_order (N.max (next_spawn_order t) next) t, order)
         end
  | None => allocate_spawn_order t
  end.

Definition new_entry (session : SessionId) (parent : option AgentPath) (order : N) (status : AgentStatus)
    (initial_activity : option text) (marker : option Marker) (control : ControlId) (awaiting : option TurnId)
    : AgentEntry :=
  {| session_id := session; parent_path := parent; spawn_order := order; status := status;
     last_activity := initial_activity; execution_marker := marker; run_control := control; mailbox := [];
     pending_owner_resume_request_id := None; active_durable_turn_id := None; awaiting_deferred_turn_id := awaiting;
     pending_deferred_release := None; mailbox_generation := 0; trigger_admission_epoch := 0;
     trigger_purge_pending := 0; mailbox_activity := 0 |}.

Record AgentSnapshot := {
  snap_path : AgentPath;
  snap_session_id : SessionId;
  snap_parent : option AgentPath;
  snap_children : list AgentPath;
  snap_spawn_order : N;
  snap_status : AgentStatus;
  snap_last_activity : option text;
  snap_is_active : bool;
  snap_mailbox_generation : N;
  snap_pending_mail_count : nat
}.

Definition children_of (p : AgentPath) (t : AgentTreeState) : list AgentPath :=
  map fst (sort_by_key (fun pa => spawn_order (snd pa))
             (List.filter (fun pa => bool_decide (parent_path (snd pa) = Some p)) (map_to_list (agents t)))).

Definition snapshot_agent (t : AgentTreeState) (p : AgentPath) : option AgentSnapshot :=
  match agents t !! p with
  | None => None
  | Some a =>
    Some {| snap_path := p; snap_session_id := session_id a; snap_parent := parent_path a;
            snap_children := children_of p t; snap_spawn_order := spawn_order a; snap_status := status a;
            snap_last_activity := last_activity a; snap_is_active := has_marker a;
            snap_mailbox_generation := mailbox_generation a; snap_pending_mail_count := length (mailbox a) |}
  end.

Definition insert_child_locked (w : AgentWorld) (parent child_path : AgentPath) (session : SessionId)
    (initial_activity : option text) (durable_spawn_order : option N)
    : AgentWorld * result (option AgentSnapshot * Marker * ControlId) AgentControlError :=
  match choose_spawn_order durable_spawn_order (tree w) with
  | Err e => (w, Err e)
  | Ok (t, order) =>
    let '(w, marker) := new_arc (set_tree t w) in
    let '(w, control) := new_control (root_scope_control (tree w)) w in
    let w := set_tree (update_agent child_path
               (new_entry session (Some parent) order PendingInit initial_activity (Some marker) control None)
               (tree w)) w in
    (w, Ok (snapshot_agent (tree w) child_path, marker, control))
  end.
