(* ===== verification/AgentOps.v ===== *)
(** * The operations of the agent tree (src/src/runtime/agent_control.rs, [AgentControl])

    One definition per method, from its first lock to its return; [notify_activity] comes where
    the code sends it.  A durable commit or read is a function on the durable store with its
    result: the store shows whether the closure ran.  Methods that release the lock around the
    durable commit are split there, so other operations can come in between.  A lease taken by
    value is dropped at the end of the method, which is [release_execution]. *)
From S2P Require Import Prelude.
From S2P Require Import TurnOutcome.
From S2P Require Import Text.
From S2P Require Import AgentPath.
From S2P Require Import RunControl.
From S2P Require Import RunOwners.
From S2P Require Import AgentTree.

(** ** The world of the tree's run controls *)

(** [release_execution], also [Drop for AgentExecutionLease]. *)
Definition release_execution (p : AgentPath) (marker : Marker) (w : AgentWorld) : AgentWorld :=
  match agents (tree w) !! p with
  | None => w
  | Some a =>
    if owns_marker marker a then
      let a := set_turns None None None (set_execution Interrupted None (run_control a) a) in
      let t := update_agent p a (tree w) in
      let t := if is_root p then set_pending_root None t else t in
      notify_activity (set_tree t w)
    else w
  end.

Definition lease_drop (l : AgentExecutionLease) (w : AgentWorld) : AgentWorld :=
  release_execution (lease_path l) (lease_marker l) w.

Definition is_request (k : RunTerminalRouteKind) : bool := match k with Request => true | _ => false end.

(** [route_terminal_outcome]: the route of the root's controls, re-entered from [RunControl].  The
    code reads the tree and then classifies the control it captured; here that is one step. *)
Definition route_terminal_outcome (source : ControlId) (kind : RunTerminalRouteKind) (cause : RunCancellationCause)
    (w : AgentWorld) : AgentWorld * option RunCancelOutcome :=
  match agents (tree w) !! ROOT with
  | None => (w, None)
  | Some root =>
    let source_is_scope := same_owner (root_scope_control (tree w)) source in
    let source_is_root_turn := same_owner (run_control root) source in
    if negb source_is_scope && negb source_is_root_turn then (w, None)
    else if source_is_scope && negb (is_request kind) then (w, None)
    else
      let root_control := run_control root in
      match kind with
      | Request =>
        let '(h, o) := on_control root_control (request_cancel_local cause) (heap w) in (set_heap h w, Some o)
      | ResolveSuccessCommitAuthoritatively =>
        let '(h, b) := on_control root_control (resolve_success_commit_authoritatively_local cause) (heap w) in
        (set_heap h w, Some (if b then Applied else Rejected))
      | AbandonSuccessCommit =>
        let '(h, r) := on_control root_control (abandon_success_commit_local cause) (heap w) in
        (set_heap h w, Some (match r with Some _ => Applied | None => Rejected end))
      | ReleaseSuccessCommit => (w, Some Applied)
      end
  end.

(** The run controls of the tree live in this world; the tree is alive, so its own router
    upgrades and no other one does. *)
#[export] Instance agent_world : ControlWorld AgentWorld := {
  controls := heap;
  set_controls := set_heap;
  upgrade_route := fun w r => bool_decide (r = tree_id w);
  run_route := fun _ source kind cause w => route_terminal_outcome source kind cause w
}.
#[export] Instance agent_world_laws : ControlWorldLaws AgentWorld.
Proof. split; [done|done|by intros []|done]. Qed.

Definition install_root_terminal_router (c : ControlId) (w : AgentWorld) : AgentWorld * result unit AgentControlError :=
  let '(h, r) := on_control c (install_terminal_router (upgrade_route w) (tree_id w)) (heap w) in
  (set_heap h w, match r with Ok _ => Ok tt | Err _ => Err RunControlOwnedByDifferentTree end).

Definition mk_lease (p : AgentPath) (m : Marker) (c : ControlId) : AgentExecutionLease :=
  {| lease_path := p; lease_marker := m; lease_control := c; wake_cause := None |}.

(** The leases the scheduler reserves unless the tree was cancelled; both the guard and the
    function check. *)
Definition schedule_unless_cancelled (guard : bool) (w : AgentWorld) : AgentWorld * list AgentExecutionLease :=
  if guard && negb (tree_cancelled w) then reserve_pending_triggered_executions_locked w else (w, []).

(** ** Creating the tree *)

(** [with_root_control], after the checks that need no tree; the store, the next address and
    marker and the identity of the new tree are the surroundings it is created in. *)
Definition with_root_control (root_session_id : SessionId) (max_agents : nat) (root_scope : ControlId)
    (h : control_heap) (next_control : ControlId) (next_marker : Marker) (tree_id : RouterId)
    : result (AgentWorld * AgentExecutionLease) AgentControlError :=
  if negb ((1 <=? max_agents) && (max_agents <=? MAX_RETAINED_AGENTS)) then Err (InvalidCapacity max_agents MAX_RETAINED_AGENTS)
  else if is_cancelled (read root_scope h) || success_is_sealed (read root_scope h) then Err TreeCancelled
  else
    let w0 := {| heap := h; next_control := next_control; next_marker := next_marker; tree_id := tree_id;
                 activity := 0;
                 tree := {| max_concurrent_agents := max_agents; next_spawn_order := 1;
                            pending_capacity_reservations := 0; root_scope_control := root_scope;
                            pending_root_durable_turn := None; agents := ∅ |} |} in
    let '(w1, root_turn) := new_control root_scope w0 in
    let root := new_entry root_session_id None 0 PendingInit None None root_turn None in
    let w2 := set_tree (update_agent ROOT root (tree w1)) w1 in
    let '(w3, r1) := install_root_terminal_router root_scope w2 in
    let? _ := r1 in
    let '(w4, r2) := install_root_terminal_router root_turn w3 in
    let? _ := r2 in
    if is_cancelled (control_of root_scope w4) then Err TreeCancelled
    else
      let '(w5, marker) := new_arc w4 in
      Ok (set_tree (update_agent ROOT (set_execution PendingInit (Some marker) root_turn root) (tree w5)) w5,
          mk_lease ROOT marker root_turn).

(** ** Registering children *)

Definition register_child_with_order (parent : AgentPath) (task_name : text) (session : SessionId)
    (initial_activity : option text) (durable_spawn_order : option N) (w : AgentWorld)
    : AgentWorld * result (option AgentSnapshot * AgentExecutionLease) AgentControlError :=
  match join_path parent task_name with
  | Err e => (w, Err (InvalidPath e))
  | Ok child_path =>
    match validate_child_registration_locked w parent child_path session with
    | Err e => (w, Err e)
    | Ok _ =>
      match insert_child_locked w parent child_path session initial_activity durable_spawn_order with
      | (w, Err e) => (w, Err e)
      | (w, Ok (snapshot, marker, control)) =>
        (notify_activity w, Ok (snapshot, mk_lease child_path marker control))
      end
    end
  end.

Definition register_child (parent : AgentPath) (task_name : text) (session : SessionId)
    (initial_activity : option text) (w : AgentWorld)
    : AgentWorld * result (option AgentSnapshot * AgentExecutionLease) AgentControlError :=
  register_child_with_order parent task_name session initial_activity None w.

(** Restores a durable child without an execution. *)
Definition restore_inactive_child_with_order (parent : AgentPath) (task_name : text) (session : SessionId)
    (st : InactiveAgentStatus) (initial_activity : option text) (durable_spawn_order : option N) (w : AgentWorld)
    : AgentWorld * result (option AgentSnapshot) AgentControlError :=
  match join_path parent task_name with
  | Err e => (w, Err (InvalidPath e))
  | Ok child_path =>
    let t := tree w in
    if negb (bool_decide (is_Some (agents t !! parent))) then (w, Err (AgentNotFound parent))
    else if bool_decide (is_Some (agents t !! child_path)) then (w, Err (AgentAlreadyExists child_path))
    else if session_taken session t then (w, Err (SessionAlreadyRegistered session))
    else if MAX_RETAINED_AGENTS <=? size (agents t) then (w, Err (AgentRegistryFull MAX_RETAINED_AGENTS))
    else
      match choose_spawn_order durable_spawn_order t with
      | Err e => (w, Err e)
      | Ok (t, order) =>
        let '(w, control) := new_control (root_scope_control t) (set_tree t w) in
        let awaiting := match st with InactiveAwaitingDescendants turn => Some turn | _ => None end in
        let w := set_tree (update_agent child_path
                   (new_entry session (Some parent) order (of_inactive st) initial_activity None control awaiting)
                   (tree w)) w in
        (notify_activity w, Ok (snapshot_agent (tree w) child_path))
      end
  end.

Definition restore_inactive_child (parent : AgentPath) (task_name : text) (session : SessionId)
    (st : InactiveAgentStatus) (initial_activity : option text) (w : AgentWorld)
    : AgentWorld * result (option AgentSnapshot) AgentControlError :=
  restore_inactive_child_with_order parent task_name session st initial_activity None w.

(** ** Acquiring executions *)

Definition try_acquire_execution (p : AgentPath) (w : AgentWorld)
    : AgentWorld * result AgentExecutionLease AgentControlError :=
  if is_root p then (w, Err RootTurnRequiresScope)
  else if tree_cancelled w then (w, Err TreeCancelled)
  else
    match agents (tree w) !! p with
    | None => (w, Err (AgentNotFound p))
    | Some a =>
      if has_marker a then (w, Err (AgentAlreadyActive p))
      else if is_shutdown a then (w, Err (AgentShutdown p))
      else if descendant_capacity (tree w) <=? active_agent_count (tree w)
      then (w, Err (AgentLimitReached (max_concurrent_agents (tree w))))
      else
        let '(w, control) := new_control (root_scope_control (tree w)) w in
        let '(w, marker) := new_arc w in
        (notify_activity (set_tree (update_agent p (start_execution marker control a) (tree w)) w),
         Ok (mk_lease p marker control))
    end.

Definition try_acquire_root_execution (root_scope : ControlId) (w : AgentWorld)
    : AgentWorld * result AgentExecutionLease AgentControlError :=
  if tree_cancelled w then (w, Err TreeCancelled)
  else
    match agents (tree w) !! ROOT with
    | None => (w, Err (AgentNotFound ROOT)) (* expect: a tree retains its root *)
    | Some root =>
      if has_marker root then (w, Err (AgentAlreadyActive ROOT))
      else
        let scope := control_of root_scope w in
        if is_cancelled scope || success_is_sealed scope || root_admission_stop_is_sealed scope
        then (w, Err TreeCancelled)
        else
          let '(w, root_turn) := new_control root_scope w in
          match install_root_terminal_router root_scope w with
          | (w, Err e) => (w, Err e)
          | (w, Ok _) =>
            match install_root_terminal_router root_turn w with
            | (w, Err e) => (w, Err e)
            | (w, Ok _) =>
              if is_cancelled (control_of root_scope w) then (w, Err TreeCancelled)
              else
                let '(w, marker) := new_arc w in
                let t := set_pending_root None (set_root_scope root_scope (tree w)) in
                (notify_activity (set_tree (update_agent ROOT (start_execution marker root_turn root) t) w),
                 Ok (mk_lease ROOT marker root_turn))
            end
          end
    end.

Inductive AgentRootContinuationOutcome :=
  | ContinuationAdmitted (lease : AgentExecutionLease)
  | Blocked
  | NotReady
  | ContinuationInvalid.

Definition is_completed (a : AgentEntry) : bool := match status a with Completed _ => true | _ => false end.

Definition try_acquire_root_continuation (root_scope : ControlId) (w : AgentWorld)
    : AgentWorld * result AgentRootContinuationOutcome AgentControlError :=
  let scope := root_scope_control (tree w) in
  if negb (same_owner scope root_scope) then (w, Ok ContinuationInvalid)
  else if tree_cancelled w || root_admission_stop_is_sealed (control_of scope w) then (w, Ok Blocked)
  else
    match agents (tree w) !! ROOT with
    | None => (w, Err (AgentNotFound ROOT))
    | Some root =>
      if negb (success_is_sealed (control_of (run_control root) w)) || negb (is_completed root)
      then (w, Ok ContinuationInvalid)
      else
        let c := next_control w in
        let w := {| heap := <[c := new]> (heap w); next_control := (c + 1)%N; next_marker := next_marker w;
                    tree_id := tree_id w; activity := activity w; tree := tree w |} in
        match install_root_terminal_router c w with
        | (w, Err e) => (w, Err e)
        | (w, Ok _) =>
          let w := set_heap (inherit_effect_authority c scope (heap w)) w in
          let '(w, marker) := new_arc w in
          (notify_activity (set_tree (update_agent ROOT (start_execution marker c root) (tree w)) w),
           Ok (ContinuationAdmitted (mk_lease ROOT marker c)))
        end
    end.
