(* ===== verification/AgentMail.v ===== *)
(** * Mail, admission and settlement of agent executions (src/src/runtime/agent_control.rs)

    The operations that take the delivery fence, the interruption of a captured execution and
    the durable terminal of an agent. *)
From S2P Require Import Prelude.
From S2P Require Import TurnOutcome.
From S2P Require Import Text.
From S2P Require Import AgentPath.
From S2P Require Import RunControl.
From S2P Require Import RunOwners.
From S2P Require Import AgentTree.
From S2P Require Import AgentOps.

(** ** Restoring durable wakes *)

Definition has_notice (item : HistoryItemId) (a : AgentEntry) : bool :=
  existsb (fun n => (history_item_id n =? item)%N) (mailbox a).

(** A notice pushed with the next generation. *)
Definition push_notice (item : HistoryItemId) (trigger ready : bool) (a : AgentEntry) : AgentEntry :=
  let a := bump_mailbox a in
  set_mailbox (mailbox a ++ [{| history_item_id := item; trigger_turn := trigger; schedule_ready := ready;
                                notice_generation := mailbox_generation a |}]) a.

Definition restore_pending_mail (recipient : AgentPath) (item : HistoryItemId) (ready : bool) (w : AgentWorld)
    : AgentWorld * result unit AgentControlError :=
  match agents (tree w) !! recipient with
  | None => (w, Err (AgentNotFound recipient))
  | Some a =>
    if has_notice item a then (w, Ok tt)
    else if MAX_AGENT_MAILBOX_NOTICES <=? length (mailbox a) then (w, Err (MailboxFull recipient MAX_AGENT_MAILBOX_NOTICES))
    else (notify_activity (set_tree (update_agent recipient (push_notice item true ready a) (tree w)) w), Ok tt)
  end.

Definition restore_pending_owner_resume (owner : AgentPath) (request : OwnerResumeRequestId) (w : AgentWorld)
    : AgentWorld * result unit AgentControlError :=
  match agents (tree w) !! owner with
  | None => (w, Err (AgentNotFound owner))
  | Some a =>
    match pending_owner_resume_request_id a with
    | Some existing => if decide (existing <> request) then (w, Err (StaleExecution owner)) else (w, Ok tt)
    | None => (notify_activity (set_tree (update_agent owner (set_owner_resume (Some request) a) (tree w)) w), Ok tt)
    end
  end.

Definition cause_of (a : AgentEntry) (w : AgentWorld) : option RunCancellationCause :=
  cause (control_of (run_control a) w).

Definition promote_if (b : bool) (a : AgentEntry) : AgentEntry := if b then set_triggers_ready true a else a.

Section Durable.
(** The durable store, and whether a weak marker upgrades. *)
Context {D : Type} (upgrade_marker : Marker -> bool).

Definition restore_current_owner_resume (owner : AgentPath)
    (durable_read : D -> D * result (option OwnerResumeRequestId) text) (w : AgentWorld) (d : D)
    : AgentWorld * D * result (list AgentExecutionLease) AgentControlError :=
  match durable_read d with
  | (d, Err m) => (w, d, Err (DurableOwnerResumeRead m))
  | (d, Ok request) =>
    match agents (tree w) !! owner with
    | None => (w, d, Err (AgentNotFound owner))
    | Some a =>
      let '(a, schedulable) := reconcile_current_owner_resume_request a request in
      let '(w, scheduled) := schedule_unless_cancelled schedulable (set_tree (update_agent owner a (tree w)) w) in
      (notify_activity w, d, Ok scheduled)
    end
  end.

Definition restore_released_owner_wake (owner : AgentPath) (released : option TurnId)
    (durable_read : D -> D * result (option OwnerResumeRequestId) text) (w : AgentWorld) (d : D)
    : AgentWorld * D * result (list AgentExecutionLease) AgentControlError :=
  match durable_read d with
  | (d, Err m) => (w, d, Err (DurableOwnerResumeRead m))
  | (d, Ok request) =>
    match agents (tree w) !! owner with
    | None => (w, d, Err (AgentNotFound owner))
    | Some a =>
      let '(a, promotes) := project_deferred_owner_release (cause_of a w) a released in
      let '(a, schedulable) := reconcile_current_owner_resume_request a request in
      let a := promote_if promotes a in
      let '(w, scheduled) := schedule_unless_cancelled (promotes || schedulable)
                               (set_tree (update_agent owner a (tree w)) w) in
      (notify_activity w, d, Ok scheduled)
    end
  end.

(** ** Admission *)

Definition mark_execution_admitted (scope : AgentExecutionScope) (turn : TurnId) (new_activity : option text)
    (durable_read : D -> D * result (option OwnerResumeRequestId) text) (w : AgentWorld) (d : D)
    : AgentWorld * D * result (list AgentExecutionLease) AgentControlError :=
  match durable_read d with
  | (d, Err m) => (w, d, Err (DurableOwnerResumeRead m))
  | (d, Ok request) =>
    if negb (upgrade_marker (scope_marker scope)) then (w, d, Err (StaleExecution (scope_path scope)))
    else
      match validate_execution_scope_locked upgrade_marker w scope (scope_path scope) with
      | Err e => (w, d, Err e)
      | Ok _ =>
        match agents (tree w) !! scope_path scope with
        | None => (w, d, Err (AgentNotFound (scope_path scope))) (* expect: validated *)
        | Some a =>
          let a := set_owner_resume request a in
          let a := set_last_activity new_activity (set_execution Running (execution_marker a) (run_control a) a) in
          let a := set_turns (Some turn) None None a in
          let '(w, scheduled) := schedule_unless_cancelled true
                                   (set_tree (update_agent (scope_path scope) a (tree w)) w) in
          (notify_activity w, d, Ok scheduled)
        end
      end
  end.

Definition publish_root_execution_plan (scope : AgentExecutionScope) (turn : TurnId) (revision : N) (w : AgentWorld)
    : AgentWorld * result unit AgentControlError :=
  if negb (is_root (scope_path scope)) then (w, Err RootTurnRequiresScope)
  else if tree_cancelled w then (w, Err TreeCancelled)
  else
    match validate_execution_scope_locked upgrade_marker w scope (scope_path scope) with
    | Err e => (w, Err e)
    | Ok _ =>
      match pending_root_durable_turn (tree w) with
      | None => (set_tree (set_pending_root (Some (turn, revision)) (tree w)) w, Ok tt)
      | Some pending =>
        if decide (pending = (turn, revision)) then (w, Ok tt) else (w, Err (StaleExecution (scope_path scope)))
      end
    end.

Definition mark_root_execution_admitted (scope : AgentExecutionScope) (turn : TurnId) (revision : N) (w : AgentWorld)
    : AgentWorld * result (list AgentExecutionLease) AgentControlError :=
  if negb (is_root (scope_path scope)) then (w, Err RootTurnRequiresScope)
  else if negb (upgrade_marker (scope_marker scope)) then (w, Err (StaleExecution (scope_path scope)))
  else if tree_cancelled w then (w, Err TreeCancelled)
  else
    match validate_execution_scope_locked upgrade_marker w scope (scope_path scope) with
    | Err e => (w, Err e)
    | Ok _ =>
      if decide (pending_root_durable_turn (tree w) <> Some (turn, revision))
      then (w, Err (StaleExecution (scope_path scope)))
      else
        match agents (tree w) !! scope_path scope with
        | None => (w, Err (AgentNotFound (scope_path scope))) (* expect: validated *)
        | Some root =>
          let root := set_turns (Some turn) None None
                        (set_execution Running (execution_marker root) (run_control root) root) in
          let t := set_pending_root None (tree w) in
          let '(w, scheduled) := schedule_unless_cancelled true (set_tree (update_agent (scope_path scope) root t) w) in
          (notify_activity w, Ok scheduled)
        end
    end.

(** ** Spawning *)

(** [commit_spawn]: the fence and the tree lock are held across the durable commit. *)
Definition commit_spawn {T} (caller : AgentExecutionScope) (parent : AgentPath) (task_name : text)
    (session : SessionId) (initial_activity : option text) (durable_commit : D -> D * result (T * N) text)
    (w : AgentWorld) (d : D)
    : AgentWorld * D * result (T * option AgentSnapshot * AgentExecutionLease) AgentControlError :=
  match join_path parent task_name with
  | Err e => (w, d, Err (InvalidPath e))
  | Ok child_path =>
    match validate_execution_scope_locked upgrade_marker w caller parent with
    | Err e => (w, d, Err e)
    | Ok _ =>
      match validate_child_registration_locked w parent child_path session with
      | Err e => (w, d, Err e)
      | Ok _ =>
        match durable_commit d with
        | (d, Err m) => (w, d, Err (DurableSpawnCommit m))
        | (d, Ok (durable, order)) =>
          match insert_child_locked w parent child_path session initial_activity (Some order) with
          | (w, Err e) => (w, d, Err e)
          | (w, Ok (snapshot, marker, control)) =>
            (notify_activity w, d, Ok (durable, snapshot, mk_lease child_path marker control))
          end
        end
      end
    end
  end.

(** ** Mail *)

Record AgentMailCommit := {
  mail_item : HistoryItemId;
  schedule_turn : bool;
  mail_owner_resume : option OwnerResumeRequestId
}.

Inductive AgentMailDeliveryOutcome := Enqueued (generation : N) (scheduled : list AgentExecutionLease).

(** What [commit_and_enqueue_mail_internal] carries from its first critical section, over the
    durable commit, into its second one. *)
Record MailToken := {
  mail_recipient : AgentPath;
  mail_trigger : bool;
  mail_released : option TurnId;
  mail_completion_handoff : bool;
  mail_session : SessionId;
  capacity_granted : bool;
  capacity_reserved : bool;
  committed_generation : N
}.

Definition begin_mail (author_path recipient_path : AgentPath) (trigger : bool) (released : option TurnId)
    (completion_handoff : bool) (author_execution : option AgentExecutionScope) (w : AgentWorld)
    : AgentWorld * result MailToken AgentControlError :=
  match (match author_execution with
         | Some scope => validate_execution_scope_locked upgrade_marker w scope author_path
         | None => Ok tt
         end) with
  | Err e => (w, Err e)
  | Ok _ =>
    if trigger && tree_cancelled w then (w, Err TreeCancelled)
    else if negb (bool_decide (is_Some (agents (tree w) !! author_path))) then (w, Err (AgentNotFound author_path))
    else
      match agents (tree w) !! recipient_path with
      | None => (w, Err (AgentNotFound recipient_path))
      | Some a =>
        if trigger && (0 <? trigger_purge_pending a)%N then (w, Err (MailboxClosed recipient_path))
        else if trigger && is_shutdown a then (w, Err (AgentShutdown recipient_path))
        else if negb completion_handoff && (MAX_AGENT_MAILBOX_NOTICES <=? length (mailbox a))
        then (w, Err (MailboxFull recipient_path MAX_AGENT_MAILBOX_NOTICES))
        else
          let requires_new_slot := trigger && negb (has_marker a) in
          let granted := negb requires_new_slot || (active_agent_count (tree w) <? descendant_capacity (tree w)) in
          let reserved := requires_new_slot && granted in
          let t := if reserved then set_reservations (S (pending_capacity_reservations (tree w))) (tree w)
                   else tree w in
          (set_tree t w,
           Ok {| mail_recipient := recipient_path; mail_trigger := trigger; mail_released := released;
                 mail_completion_handoff := completion_handoff; mail_session := session_id a;
                 capacity_granted := granted; capacity_reserved := reserved;
                 committed_generation := wrapping_add_u64 (mailbox_generation a) 1 |})
      end
  end.

(** The reservation is given back, on failure and before the notice is enqueued. *)
Definition give_back (token : MailToken) (w : AgentWorld) : AgentWorld :=
  if capacity_reserved token
  then set_tree (set_reservations (pending_capacity_reservations (tree w) - 1) (tree w)) w
  else w.

Definition finish_mail (token : MailToken) (c : AgentMailCommit) (w : AgentWorld)
    : AgentWorld * AgentMailDeliveryOutcome :=
  let w := give_back token w in
  match agents (tree w) !! mail_recipient token with
  | None => (notify_activity w, Enqueued (committed_generation token) [])
  | Some a =>
    if decide (session_id a <> mail_session token) then (notify_activity w, Enqueued (committed_generation token) [])
    else
      let '(a, promotes) :=
        if mail_completion_handoff token
        then project_deferred_owner_release (cause_of a w) a (mail_released token) else (a, false) in
      let a := if negb (has_notice (mail_item c) a) && (length (mailbox a) <? MAX_AGENT_MAILBOX_NOTICES)
               then push_notice (mail_item c) (mail_trigger token) (schedule_turn c) a else a in
      let generation := mailbox_generation a in
      let a := promote_if promotes a in
      let '(a, owner_resume_schedulable) :=
        if mail_completion_handoff token
        then reconcile_current_owner_resume_request a (mail_owner_resume c)
        else project_owner_resume_request a (mail_owner_resume c) in
      let '(w, scheduled) :=
        schedule_unless_cancelled (schedule_turn c || owner_resume_schedulable || promotes)
          (set_tree (update_agent (mail_recipient token) a (tree w)) w) in
      (notify_activity w, Enqueued generation scheduled)
  end.

(** [commit_and_enqueue_mail_internal] when nothing comes in between. *)
Definition commit_and_enqueue_mail_internal (author_path recipient_path : AgentPath) (trigger : bool)
    (released : option TurnId) (completion_handoff : bool) (author_execution : option AgentExecutionScope)
    (durable_commit : bool -> D -> D * result AgentMailCommit AgentControlError) (w : AgentWorld) (d : D)
    : AgentWorld * D * result AgentMailDeliveryOutcome AgentControlError :=
  match begin_mail author_path recipient_path trigger released completion_handoff author_execution w with
  | (w, Err e) => (w, d, Err e)
  | (w, Ok token) =>
    match durable_commit (capacity_granted token) d with
    | (d, Err e) => (give_back token w, d, Err e)
    | (d, Ok c) => let '(w, o) := finish_mail token c w in (w, d, Ok o)
    end
  end.

Definition mailbox_commit_error {A} (r : D * result A text) : D * result A AgentControlError :=
  let '(d, r) := r in (d, match r with Ok a => Ok a | Err m => Err (DurableMailboxCommit m) end).

Definition commit_and_enqueue_mail (author_path recipient_path : AgentPath) (trigger : bool)
    (durable_commit : D -> D * result AgentMailCommit text) (w : AgentWorld) (d : D) :=
  commit_and_enqueue_mail_internal author_path recipient_path trigger None false None
    (fun _ d => mailbox_commit_error (durable_commit d)) w d.

Definition commit_and_enqueue_mail_with_capacity (author_execution : AgentExecutionScope)
    (author_path recipient_path : AgentPath) (trigger : bool)
    (durable_commit : bool -> D -> D * result AgentMailCommit AgentControlError) (w : AgentWorld) (d : D) :=
  commit_and_enqueue_mail_internal author_path recipient_path trigger None false (Some author_execution)
    durable_commit w d.

Definition commit_and_enqueue_completion_handoff (author_path recipient_path : AgentPath)
    (released : option TurnId) (durable_commit : D -> D * result AgentMailCommit text) (w : AgentWorld) (d : D) :=
  commit_and_enqueue_mail_internal author_path recipient_path false released true None
    (fun _ d => mailbox_commit_error (durable_commit d)) w d.

Record AgentMailboxDeliveryCommit := { delivered_ids : list HistoryItemId; has_more : bool }.

Definition duplicate_delivery : text :=
  lit "durable mailbox delivery returned duplicate message identities".

Definition keep_notices (f : AgentMailboxNotice -> bool) (a : AgentEntry) : AgentEntry :=
  let kept := List.filter f (mailbox a) in
  let a' := set_mailbox kept a in
  if length kept =? length (mailbox a) then a' else bump_mailbox a'.

Definition commit_pending_mailbox_delivery (execution : AgentExecutionScope)
    (durable_commit : D -> D * result AgentMailboxDeliveryCommit text) (w : AgentWorld) (d : D)
    : AgentWorld * D * result AgentMailboxDeliveryCommit AgentControlError :=
  match validate_execution_scope_locked upgrade_marker w execution (scope_path execution) with
  | Err e => (w, d, Err e)
  | Ok _ =>
    match durable_commit d with
    | (d, Err m) => (w, d, Err (DurableMailboxCommit m))
    | (d, Ok c) =>
      if negb (bool_decide (NoDup (delivered_ids c))) then (w, d, Err (DurableMailboxCommit duplicate_delivery))
      else
        match agents (tree w) !! scope_path execution with
        | None => (w, d, Err (AgentNotFound (scope_path execution))) (* expect: validated *)
        | Some a =>
          let a := keep_notices (fun n => negb (existsb (N.eqb (history_item_id n)) (delivered_ids c))) a in
          let w := set_tree (update_agent (scope_path execution) a (tree w)) w in
          (if is_empty (delivered_ids c) then w else notify_activity w, d, Ok c)
        end
    end
  end.

(** ** Settlement of executions that own a trigger *)

Inductive PendingTriggerTerminalCommit (T : Type) :=
  | TerminalApplied (payload : T)
  | BlockedByPendingDeferredCompletion (deferred_turn_id : TurnId)
  | WakeOwnedOrResolved.
Arguments TerminalApplied {T} payload.
Arguments BlockedByPendingDeferredCompletion {T} deferred_turn_id.
Arguments WakeOwnedOrResolved {T}.

(** The wake that a settled execution consumed is removed from its owner. *)
Definition consume_wake (wake : AgentExecutionWakeCause) (a : AgentEntry) : AgentEntry :=
  match wake with
  | ExplicitTask item => keep_notices (fun n => negb (trigger_turn n && (history_item_id n =? item)%N)) a
  | OwnerResume request =>
    if decide (pending_owner_resume_request_id a = Some request) then set_owner_resume None a else a
  end.

Definition idle (status : AgentStatus) (new_activity : option text) (awaiting : option TurnId) (a : AgentEntry)
    : AgentEntry :=
  set_turns None awaiting None (set_last_activity new_activity (set_execution status None (run_control a) a)).

Definition begin_pending_trigger_terminal (lease : AgentExecutionLease) (w : AgentWorld)
    : result SessionId AgentControlError :=
  let p := lease_path lease in
  if is_root p then Err (AgentNotFound p)
  else
    match agents (tree w) !! p with
    | None => Err (AgentNotFound p)
    | Some a => if owns_marker (lease_marker lease) a then Ok (session_id a) else Err (StaleExecution p)
    end.

(** The second critical section, after the durable commit returned [committed]. *)
Definition finish_pending_trigger_terminal {T} (lease : AgentExecutionLease) (blocked_activity : option text)
    (session : SessionId) (committed : PendingTriggerTerminalCommit T) (w : AgentWorld)
    : AgentWorld * result (PendingTriggerTerminalCommit T) AgentControlError :=
  let p := lease_path lease in
  match committed with
  | WakeOwnedOrResolved => (w, Ok WakeOwnedOrResolved)
  | TerminalApplied _ | BlockedByPendingDeferredCompletion _ =>
    match wake_cause lease with
    | None => (w, Err (StaleExecution p))
    | Some wake =>
      match agents (tree w) !! p with
      | None => (w, Err (AgentNotFound p))
      | Some a =>
        if decide (session_id a <> session) then (w, Err (AgentNotFound p))
        else if negb (owns_marker (lease_marker lease) a) then (w, Err (StaleExecution p))
        else
          match committed with
          | BlockedByPendingDeferredCompletion deferred =>
            match wake with
            | OwnerResume _ => (w, Err (StaleExecution p))
            | ExplicitTask expected =>
              if negb (existsb (fun n => trigger_turn n && (history_item_id n =? expected)%N) (mailbox a))
              then (w, Err (StaleExecution p))
              else
                let '(w, _) := supersede (run_control a) w in
                let '(w, fresh) := new_control (run_control a) w in
                let a := set_triggers_ready false (set_execution (status a) (execution_marker a) fresh a) in
                let a := idle AwaitingDescendants blocked_activity (Some deferred) a in
                (notify_activity (set_tree (update_agent p a (tree w)) w),
                 Ok (BlockedByPendingDeferredCompletion deferred))
            end
          | other =>
            let '(w, _) := supersede (run_control a) w in
            (notify_activity (set_tree (update_agent p (consume_wake wake a) (tree w)) w), Ok other)
          end
      end
    end
  end.

Definition commit_pending_trigger_terminal {T} (lease : AgentExecutionLease) (blocked_activity : option text)
    (durable_commit : D -> D * result (PendingTriggerTerminalCommit T) text) (w : AgentWorld) (d : D)
    : AgentWorld * D * result (PendingTriggerTerminalCommit T) AgentControlError :=
  match begin_pending_trigger_terminal lease w with
  | Err e => (w, d, Err e)
  | Ok session =>
    match durable_commit d with
    | (d, Err m) => (w, d, Err (DurableMailboxCommit m))
    | (d, Ok committed) =>
      let '(w, r) := finish_pending_trigger_terminal lease blocked_activity session committed w in (w, d, r)
    end
  end.

Definition retire_resolved_wake_execution (lease : AgentExecutionLease) (new_activity : option text) (w : AgentWorld)
    : AgentWorld * result (list AgentExecutionLease) AgentControlError :=
  let p := lease_path lease in
  if is_root p then (lease_drop lease w, Err (AgentNotFound p))
  else
    match wake_cause lease with
    | None => (lease_drop lease w, Err (StaleExecution p))
    | Some wake =>
      match agents (tree w) !! p with
      | None => (lease_drop lease w, Err (AgentNotFound p))
      | Some a =>
        if negb (owns_marker (lease_marker lease) a) then (lease_drop lease w, Err (StaleExecution p))
        else
          let '(w, _) := supersede (run_control a) w in
          let a := idle (Completed None) new_activity None (consume_wake wake a) in
          let '(w, scheduled) := schedule_unless_cancelled true (set_tree (update_agent p a (tree w)) w) in
          (lease_drop lease (notify_activity w), Ok scheduled)
      end
    end.

Definition release_unsettled_trigger_execution (lease : AgentExecutionLease) (new_activity : option text)
    (w : AgentWorld) : AgentWorld * result unit AgentControlError :=
  let p := lease_path lease in
  if is_root p then (lease_drop lease w, Err (AgentNotFound p))
  else
    match agents (tree w) !! p with
    | None => (lease_drop lease w, Err (AgentNotFound p))
    | Some a =>
      if negb (owns_marker (lease_marker lease) a) then (lease_drop lease w, Err (StaleExecution p))
      else
        let '(w, _) := supersede (run_control a) w in
        let a := idle PendingInit new_activity None a in
        (lease_drop lease (notify_activity (set_tree (update_agent p a (tree w)) w)), Ok tt)
    end.

(** ** Completion *)

Definition promotes_on_completion (s : InactiveAgentStatus) : bool :=
  match s with InactiveInterrupted | InactiveCompleted _ | InactiveErrored _ => true | _ => false end.

Definition complete_execution (lease : AgentExecutionLease) (st : InactiveAgentStatus) (new_activity : option text)
    (w : AgentWorld) : AgentWorld * result (list AgentExecutionLease) AgentControlError :=
  let p := lease_path lease in
  match agents (tree w) !! p with
  | None => (lease_drop lease w, Err (AgentNotFound p))
  | Some a =>
    if negb (owns_marker (lease_marker lease) a) then (lease_drop lease w, Err (StaleExecution p))
    else
      match (match st with
             | InactiveAwaitingDescendants turn =>
               if decide (active_durable_turn_id a <> Some turn) then None
               else Some (bool_decide (pending_deferred_release a = Some turn), Some turn)
             | _ => Some (promotes_on_completion st, None)
             end) with
      | None => (lease_drop lease w, Err (StaleExecution p))
      | Some (promotes, awaiting) =>
        let a := idle (of_inactive st) new_activity awaiting (promote_if promotes a) in
        let t := update_agent p a (tree w) in
        let t := if is_root p then set_pending_root None t else t in
        let '(w, scheduled) := schedule_unless_cancelled true (set_tree t w) in
        (lease_drop lease (notify_activity w), Ok scheduled)
      end
  end.

(** The warning of a parent projection that is skipped. *)
Definition parent_warning (parent : AgentPath) (parent_session : SessionId) (t : AgentTreeState) : option text :=
  let skipped suffix := lit "parent wake skipped: " ++ parent ++ suffix in
  match agents t !! parent with
  | None => Some (skipped (lit " is absent"))
  | Some a =>
    if decide (session_id a <> parent_session) then Some (skipped (lit " session identity changed"))
    else if is_shutdown a then Some (skipped (lit " is shutdown"))
    else None
  end.

Definition with_warning (new_activity warning : option text) : option text :=
  match new_activity, warning with
  | Some a, Some m => Some (a ++ lit "; " ++ m)
  | None, Some m => Some m
  | a, None => a
  end.

(** The wake of the parent: its release, its owner-resume identity, the notice and the promotion;
    skipped with a warning when the parent is gone, replaced or shut down. *)
Definition project_parent_wake (parent : AgentPath) (parent_session : SessionId) (item : HistoryItemId)
    (released : option TurnId) (request : option OwnerResumeRequestId) (w : AgentWorld) : AgentWorld :=
  match parent_warning parent parent_session (tree w), agents (tree w) !! parent with
  | None, Some b =>
    let '(b, promotes) := project_deferred_owner_release (cause_of b w) b released in
    let '(b, _) := reconcile_current_owner_resume_request b request in
    let b := if negb (has_notice item b) && (length (mailbox b) <? MAX_AGENT_MAILBOX_NOTICES)
             then push_notice item false false b else b in
    set_tree (update_agent parent (promote_if promotes b) (tree w)) w
  | _, _ => w
  end.

(** The released child itself. *)
Definition settle_released (st : AgentStatus) (new_activity : option text) (a : AgentEntry) : AgentEntry :=
  let a := set_triggers_ready true a in
  set_turns None None None (set_last_activity new_activity (set_execution st (execution_marker a) (run_control a) a)).

Definition is_released_status (st : InactiveAgentStatus) : bool :=
  match st with InactivePendingInit | InactiveAwaitingDescendants _ => false | _ => true end.

Definition project_released_deferred_completion (deferred_path : AgentPath) (deferred_session : SessionId)
    (deferred_turn : TurnId) (parent : AgentPath) (parent_session : SessionId) (st : InactiveAgentStatus)
    (new_activity : option text) (item : HistoryItemId) (released : option TurnId)
    (durable_read : D -> D * result (option OwnerResumeRequestId) text) (w : AgentWorld) (d : D)
    : AgentWorld * D * result (list AgentExecutionLease) AgentControlError :=
  if negb (is_released_status st) then (w, d, Err (AgentNotAwaitingDescendants deferred_path))
  else
    match durable_read d with
    | (d, Err m) => (w, d, Err (DurableOwnerResumeRead m))
    | (d, Ok request) =>
      if tree_cancelled w then (w, d, Err TreeCancelled)
      else
        match agents (tree w) !! deferred_path with
        | None => (w, d, Err (AgentNotFound deferred_path))
        | Some a =>
          if negb (bool_decide (session_id a = deferred_session)) || negb (bool_decide (parent_path a = Some parent))
          then (w, d, Err (AgentNotAwaitingDescendants deferred_path))
          else if has_marker a || negb (bool_decide (status a = AwaitingDescendants)) ||
                  negb (bool_decide (awaiting_deferred_turn_id a = Some deferred_turn))
          then (w, d, Ok [])
          else
            let warning := parent_warning parent parent_session (tree w) in
            let w := project_parent_wake parent parent_session item released request w in
            match agents (tree w) !! deferred_path with
            | None => (w, d, Err (AgentNotFound deferred_path)) (* expect: validated *)
            | Some a =>
              let a := settle_released (of_inactive st) (with_warning new_activity warning) a in
              let '(w, scheduled) := reserve_pending_triggered_executions_locked
                                       (set_tree (update_agent deferred_path a (tree w)) w) in
              (notify_activity w, d, Ok scheduled)
            end
        end
    end.

Definition rollback_child_registration (lease : AgentExecutionLease) (session : SessionId) (w : AgentWorld)
    : AgentWorld * result unit AgentControlError :=
  let p := lease_path lease in
  if is_root p then (w, Err RootAgentCannotBeRemoved)
  else
    match agents (tree w) !! p with
    | None => (w, Err (AgentNotFound p))
    | Some a =>
      if negb (bool_decide (session_id a = session)) || negb (owns_marker (lease_marker lease) a) ||
         negb (bool_decide (status a = PendingInit)) || negb (is_empty (mailbox a)) ||
         match pending_owner_resume_request_id a with Some _ => true | None => false end
      then (w, Err (AgentRollbackRejected p))
      else
        let w := set_tree (set_agents (delete p (agents (tree w))) (tree w)) w in
        let '(w, _) := supersede (run_control a) w in
        (notify_activity w, Ok tt)
    end.

(** ** Interruption *)

Record AgentInterruptTarget := {
  target_path : AgentPath;
  target_session : SessionId;
  target_status : AgentStatus;
  target_marker : option Marker;
  target_control : ControlId
}.

Definition capture_interrupt_target (caller : AgentExecutionScope) (p : AgentPath) (w : AgentWorld)
    : result AgentInterruptTarget AgentControlError :=
  match validate_execution_scope_locked upgrade_marker w caller (scope_path caller) with
  | Err e => Err e
  | Ok _ =>
    match agents (tree w) !! p with
    | None => Err (AgentNotFound p)
    | Some a => Ok {| target_path := p; target_session := session_id a; target_status := status a;
                      target_marker := execution_marker a; target_control := run_control a |}
    end
  end.

Definition commit_and_interrupt_captured (caller : AgentExecutionScope) (target : AgentInterruptTarget)
    (durable_commit : D -> D * result unit text) (w : AgentWorld) (d : D)
    : AgentWorld * D * result unit AgentControlError :=
  let p := target_path target in
  let durable d := let '(d, r) := durable_commit d in
                   (d, match r with Ok u => Ok u | Err m => Err (DurableInterruptCommit m) end) in
  match validate_execution_scope_locked upgrade_marker w caller (scope_path caller) with
  | Err e => (w, d, Err e)
  | Ok _ =>
    match agents (tree w) !! p with
    | None => (w, d, Err (AgentNotFound p))
    | Some a =>
      if negb (bool_decide (session_id a = target_session target)) ||
         negb (bool_decide (execution_marker a = target_marker target))
      then (w, d, Err (StaleExecution p))
      else
        match target_marker target with
        | None =>
          match durable d with
          | (d, Err e) => (w, d, Err e)
          | (d, Ok _) => (w, d, Ok tt)
          end
        | Some _ =>
          let c := target_control target in
          let '(s, d, r) := commit_cancel_local (Interruption AgentInterrupted) durable (control_of c w) d in
          let w := set_heap (<[c := s]> (heap w)) w in
          match r with
          | Err e => (w, d, Err e)
          | Ok outcome =>
            if negb (bool_decide (outcome = Applied)) then (w, d, Err (StaleExecution p))
            else
              (notify_activity (set_tree (update_agent p (clear_cancelled_active_generation_state a) (tree w)) w),
               d, Ok tt)
          end
        end
    end
  end.
End Durable.

(** ** Durable terminal of an agent *)

(** What [cancel_for_durable_terminal] carries between its two critical sections. *)
Record TerminalToken := {
  terminal_path : AgentPath;
  terminal_session : SessionId;
  terminal_epoch : N;
  purge_through_generation : N;
  terminal_owner_resume : option OwnerResumeRequestId
}.

Definition u32_saturating_succ (n : N) : N := N.min (n + 1) u32_max.

Definition begin_durable_terminal (p : AgentPath) (w : AgentWorld)
    : AgentWorld * result TerminalToken AgentControlError :=
  match agents (tree w) !! p with
  | None => (w, Err (AgentNotFound p))
  | Some a =>
    let '(h, _) := on_control (run_control a) (request_cancel_local Superseded) (heap w) in
    let a := clear_cancelled_active_generation_state a in
    let epoch := if (trigger_purge_pending a =? 0)%N then wrapping_add_u64 (trigger_admission_epoch a) 1
                 else trigger_admission_epoch a in
    let a := set_purge epoch (u32_saturating_succ (trigger_purge_pending a)) a in
    (notify_activity (set_tree (update_agent p a (tree w)) (set_heap h w)),
     Ok {| terminal_path := p; terminal_session := session_id a; terminal_epoch := epoch;
           purge_through_generation := mailbox_generation a;
           terminal_owner_resume := pending_owner_resume_request_id a |})
  end.

Definition finish_durable_terminal (token : TerminalToken) (w : AgentWorld) : AgentWorld :=
  let p := terminal_path token in
  match agents (tree w) !! p with
  | None => w
  | Some a =>
    if negb (bool_decide (session_id a = terminal_session token)) ||
       negb (bool_decide (trigger_admission_epoch a = terminal_epoch token))
    then w
    else
      let kept := List.filter
        (fun n => negb (trigger_turn n) || (purge_through_generation token <? notice_generation n)%N) (mailbox a) in
      let changed := negb (length kept =? length (mailbox a)) in
      let a := set_mailbox kept a in
      let a := if decide (pending_owner_resume_request_id a = terminal_owner_resume token)
               then set_owner_resume None a else a in
      let a := set_purge (trigger_admission_epoch a) (trigger_purge_pending a - 1)%N a in
      let a := if changed then bump_mailbox a else a in
      notify_activity (set_tree (update_agent p a (tree w)) w)
  end.

(** ** Stop of the root execution *)

Inductive RootExecutionStopDisposition :=
  | StopApplied | StopDeferred | AlreadyUserStopped | StopAlreadyClassified | TerminalAlreadySettled.

Definition stop_accepted (d : RootExecutionStopDisposition) : bool :=
  match d with StopAlreadyClassified => false | _ => true end.

Definition cancel_root_execution_at_scope_control (expected_scope : ControlId) (root_cause : TurnInterruptionCause)
    (terminal_already_settled : bool) (w : AgentWorld)
    : AgentWorld * result (option RootExecutionStopDisposition) AgentControlError :=
  if negb (same_owner (root_scope_control (tree w)) expected_scope) then (w, Ok None)
  else
    match agents (tree w) !! ROOT with
    | None => (w, Err (AgentNotFound ROOT))
    | Some root =>
      let c := run_control root in
      let k := Interruption root_cause in
      let '(w, disposition) :=
        if terminal_already_settled then (w, TerminalAlreadySettled)
        else
          let '(h, o) := on_control c (request_cancel_local k) (heap w) in
          (set_heap h w,
           match o with
           | Applied => StopApplied
           | Deferred _ => StopDeferred
           | Rejected => if decide (cause (read c h) = Some k) then AlreadyUserStopped else StopAlreadyClassified
           end) in
      (if stop_accepted disposition then notify_activity w else w, Ok (Some disposition))
    end.

(** ** Exact mutation and queries *)

(** [mutate_execution] *)
Definition mutate_execution (p : AgentPath) (marker : Marker) (mutation : AgentEntry -> AgentEntry) (w : AgentWorld)
    : AgentWorld * result unit AgentControlError :=
  match agents (tree w) !! p with
  | None => (w, Err (AgentNotFound p))
  | Some a =>
    if negb (owns_marker marker a) then (w, Err (StaleExecution p))
    else (notify_activity (set_tree (update_agent p (mutation a) (tree w)) w), Ok tt)
  end.

Definition with_status (s : ActiveAgentStatus) (a : AgentEntry) : AgentEntry :=
  set_execution (of_active s) (execution_marker a) (run_control a) a.

Definition lease_set_status (l : AgentExecutionLease) (s : ActiveAgentStatus) (w : AgentWorld) :=
  mutate_execution (lease_path l) (lease_marker l) (with_status s) w.
Definition lease_set_activity (l : AgentExecutionLease) (x : option text) (w : AgentWorld) :=
  mutate_execution (lease_path l) (lease_marker l) (set_last_activity x) w.

Definition scope_set_status_and_activity (upgrade_marker : Marker -> bool) (s : AgentExecutionScope)
    (st : ActiveAgentStatus) (x : option text) (w : AgentWorld) : AgentWorld * result unit AgentControlError :=
  if negb (upgrade_marker (scope_marker s)) then (w, Err (StaleExecution (scope_path s)))
  else mutate_execution (scope_path s) (scope_marker s) (fun a => set_last_activity x (with_status st a)) w.

Definition scope_set_status (upgrade_marker : Marker -> bool) (s : AgentExecutionScope) (st : ActiveAgentStatus)
    (w : AgentWorld) : AgentWorld * result unit AgentControlError :=
  if negb (upgrade_marker (scope_marker s)) then (w, Err (StaleExecution (scope_path s)))
  else mutate_execution (scope_path s) (scope_marker s) (with_status st) w.
Definition scope_set_activity (upgrade_marker : Marker -> bool) (s : AgentExecutionScope) (x : option text)
    (w : AgentWorld) : AgentWorld * result unit AgentControlError :=
  if negb (upgrade_marker (scope_marker s)) then (w, Err (StaleExecution (scope_path s)))
  else mutate_execution (scope_path s) (scope_marker s) (set_last_activity x) w.

Definition lease_scope (id : RouterId) (l : AgentExecutionLease) : AgentExecutionScope :=
  {| scope_tree := id; scope_path := lease_path l; scope_marker := lease_marker l |}.

Definition drain_mailbox (recipient : AgentPath) (w : AgentWorld)
    : AgentWorld * result (list AgentMailboxNotice) AgentControlError :=
  match agents (tree w) !! recipient with
  | None => (w, Err (AgentNotFound recipient))
  | Some a => (notify_activity (set_tree (update_agent recipient (set_mailbox [] a) (tree w)) w), Ok (mailbox a))
  end.

Definition is_quiescent (w : AgentWorld) : bool :=
  negb (any_agent has_marker (tree w)) && (tree_cancelled w || negb (any_agent agent_has_live_work (tree w))).

Definition active_or_awaiting_root_turn_id (w : AgentWorld) : result (option TurnId) AgentControlError :=
  match agents (tree w) !! ROOT with
  | None => Err (AgentNotFound ROOT)
  | Some root => Ok (match active_durable_turn_id root with Some t => Some t | None => awaiting_deferred_turn_id root end)
  end.

Definition cancelled_execution_paths (w : AgentWorld) : list AgentPath :=
  map fst (List.filter (fun pa => has_marker (snd pa) && is_cancelled (control_of (run_control (snd pa)) w))
             (map_to_list (agents (tree w)))).

Definition list_agents (prefix : option AgentPath) (w : AgentWorld) : list AgentSnapshot :=
  sort_by_key snap_spawn_order
    (omap (fun pa => if match prefix with Some q => is_at_or_below (fst pa) q | None => true end
                     then snapshot_agent (tree w) (fst pa) else None)
          (map_to_list (agents (tree w)))).

Record AgentTreeSnapshot := {
  snapshot_root : AgentPath;
  snapshot_max_concurrent_agents : nat;
  snapshot_active_agent_count : nat;
  snapshot_agents : list AgentSnapshot
}.

Definition snapshot (w : AgentWorld) : AgentTreeSnapshot :=
  let all := list_agents None w in
  {| snapshot_root := ROOT; snapshot_max_concurrent_agents := max_concurrent_agents (tree w);
     snapshot_active_agent_count :=
       length (List.filter (fun s => negb (is_root (snap_path s)) && snap_is_active s) all);
     snapshot_agents := all |}.

Definition path_for_session (s : SessionId) (w : AgentWorld) : option AgentPath :=
  fst <$> List.find (fun pa => bool_decide (session_id (snd pa) = s)) (map_to_list (agents (tree w))).

(** [try_bind_trigger_history_item_id]: the lease comes back unchanged when it was bound already. *)
Definition try_bind_trigger_history_item_id (item : HistoryItemId) (l : AgentExecutionLease)
    : result AgentExecutionLease AgentExecutionLease :=
  match wake_cause l with
  | Some _ => Err l
  | None => Ok {| lease_path := lease_path l; lease_marker := lease_marker l; lease_control := lease_control l;
                  wake_cause := Some (ExplicitTask item) |}
  end.

Definition status_of (p : AgentPath) (w : AgentWorld) : result AgentStatus AgentControlError :=
  match agents (tree w) !! p with None => Err (AgentNotFound p) | Some a => Ok (status a) end.

Definition mailbox_history_item_ids (p : AgentPath) (w : AgentWorld) : result (list HistoryItemId) AgentControlError :=
  match agents (tree w) !! p with None => Err (AgentNotFound p) | Some a => Ok (map history_item_id (mailbox a)) end.

Definition mailbox_has_trigger_turn (p : AgentPath) (w : AgentWorld) : result bool AgentControlError :=
  match agents (tree w) !! p with None => Err (AgentNotFound p) | Some a => Ok (existsb trigger_turn (mailbox a)) end.

Definition mailbox_has_ready_trigger_turn (p : AgentPath) (w : AgentWorld) : result bool AgentControlError :=
  match agents (tree w) !! p with
  | None => Err (AgentNotFound p)
  | Some a => Ok (existsb (fun n => trigger_turn n && schedule_ready n) (mailbox a))
  end.
