(* ===== verification/AgentTreeFacts.v ===== *)
(** * The invariant of the agent tree *)
From S2P Require Import Prelude.
From S2P Require Import TurnOutcome.
From S2P Require Import Text.
From S2P Require Import AgentPath.
From S2P Require Import RunControl.
From S2P Require Import RunOwners.
From S2P Require Import AgentTree.
From S2P Require Import AgentOps.

(** ** Well-formed trees *)

(** The status an execution may show, and the turns that go with it. *)
Record lifecycle_ok (a : AgentEntry) : Prop := {
  active_status : has_marker a = true -> status a = PendingInit \/ status a = Running;
  inactive_status : has_marker a = false -> status a <> Running;
  awaiting_turn : status a = AwaitingDescendants <-> is_Some (awaiting_deferred_turn_id a);
  active_turn : is_Some (active_durable_turn_id a) -> has_marker a = true;
  deferred_latch : forall t, pending_deferred_release a = Some t -> active_durable_turn_id a = Some t
}.

Definition mailbox_ok (a : AgentEntry) : Prop :=
  length (mailbox a) <= MAX_AGENT_MAILBOX_NOTICES /\ NoDup (map history_item_id (mailbox a)).

(** Where an entry stands in the tree. *)
Definition placed (p : AgentPath) (a : AgentEntry) : Prop :=
  match parent_path a with
  | None => p = ROOT
  | Some q => exists x, task_name_ok x /\ p = q ++ SLASH :: x
  end.

Record entry_wf (next : Marker) (p : AgentPath) (a : AgentEntry) : Prop := {
  entry_lifecycle : lifecycle_ok a;
  entry_mailbox : mailbox_ok a;
  entry_placed : placed p a;
  entry_marker : forall m, execution_marker a = Some m -> (m < next)%N
}.

Record tree_wf (next : Marker) (t : AgentTreeState) : Prop := {
  wf_root : is_Some (agents t !! ROOT);
  wf_entry : forall p a, agents t !! p = Some a -> entry_wf next p a;
  wf_order : forall p a, agents t !! p = Some a -> (spawn_order a < next_spawn_order t)%N;
  wf_session_inj : forall p q a b, agents t !! p = Some a -> agents t !! q = Some b -> session_id a = session_id b -> p = q;
  wf_order_inj : forall p q a b, agents t !! p = Some a -> agents t !! q = Some b -> spawn_order a = spawn_order b -> p = q;
  wf_marker_inj : forall p q a b m, agents t !! p = Some a -> agents t !! q = Some b ->
    execution_marker a = Some m -> execution_marker b = Some m -> p = q;
  wf_size : size (agents t) <= MAX_RETAINED_AGENTS;
  wf_capacity : active_agent_count t <= descendant_capacity t
}.

Lemma lifecycle_inactive_turns a : lifecycle_ok a -> has_marker a = false ->
  active_durable_turn_id a = None /\ pending_deferred_release a = None.
Proof.
  intros H Hm. assert (active_durable_turn_id a = None) as E.
  { destruct (active_durable_turn_id a) eqn:E; [|done]. rewrite (active_turn _ H) in Hm; [done|by rewrite E]. }
  split; [done|]. destruct (pending_deferred_release a) eqn:E2; [|done]. apply (deferred_latch _ H) in E2. congruence.
Qed.

(** What an update leaves in the registry. *)
Lemma update_lookup p a t q b :
  agents (update_agent p a t) !! q = Some b <-> q = p /\ b = a \/ q <> p /\ agents t !! q = Some b.
Proof.
  unfold update_agent. simpl. destruct (decide (p = q)) as [<-|Hne].
  - rewrite lookup_insert_eq. naive_solver.
  - rewrite lookup_insert_ne by done. naive_solver.
Qed.

Lemma update_root p a t : is_Some (agents t !! ROOT) -> is_Some (agents (update_agent p a t) !! ROOT).
Proof.
  intros H. unfold update_agent. simpl. destruct (decide (p = ROOT)) as [->|]; [rewrite lookup_insert_eq; by eexists|].
  by rewrite lookup_insert_ne.
Qed.

(** ** Counting active agents *)

Lemma active_paths_elem t p : p ∈ active_paths t <-> exists a, agents t !! p = Some a /\ counted p a = true.
Proof.
  unfold active_paths. rewrite elem_of_dom. split.
  - intros [a [Ha Hc]%map_lookup_filter_Some]. by exists a.
  - intros (a & Ha & Hc). exists a. by apply map_lookup_filter_Some.
Qed.

Lemma active_paths_update t p a a' :
  agents t !! p = Some a -> (has_marker a' = true -> has_marker a = true) ->
  active_paths (update_agent p a' t) ⊆ active_paths t.
Proof.
  intros Ha Hm q (b & Hb & Hc)%active_paths_elem. apply active_paths_elem.
  apply update_lookup in Hb as [[-> ->]|[_ Hb]]; [|by exists b]. exists a. split; [done|]. unfold counted in *.
  apply andb_true_iff in Hc as [H1 H2]. apply andb_true_iff. auto.
Qed.

Lemma active_paths_insert t p a : active_paths (update_agent p a t) ⊆ {[p]} ∪ active_paths t.
Proof.
  intros q (b & Hb & Hc)%active_paths_elem. apply update_lookup in Hb as [[-> ->]|[_ Hb]]; [set_solver|].
  apply elem_of_union_r, active_paths_elem. by exists b.
Qed.

Lemma active_count_update t p a a' :
  agents t !! p = Some a -> (has_marker a' = true -> has_marker a = true) ->
  active_agent_count (update_agent p a' t) <= active_agent_count t.
Proof.
  intros Ha Hm. unfold active_agent_count. pose proof (subseteq_size _ _ (active_paths_update t p a a' Ha Hm)).
  simpl. lia.
Qed.

Lemma active_count_insert t p a : active_agent_count (update_agent p a t) <= S (active_agent_count t).
Proof.
  unfold active_agent_count. pose proof (subseteq_size _ _ (active_paths_insert t p a)) as H.
  pose proof (size_union_alt {[p]} (active_paths t)) as H2. rewrite size_singleton in H2.
  pose proof (subseteq_size (active_paths t ∖ {[p]}) (active_paths t) ltac:(set_solver)). simpl. lia.
Qed.

Lemma active_count_root t a : active_agent_count (update_agent ROOT a t) <= active_agent_count t.
Proof.
  unfold active_agent_count. simpl. apply Nat.add_le_mono_l, subseteq_size.
  intros q (b & Hb & Hc)%active_paths_elem. apply active_paths_elem.
  apply update_lookup in Hb as [[-> ->]|[_ Hb]]; [|by exists b].
  unfold counted, is_root in Hc. by rewrite text_eqb_refl in Hc.
Qed.

(** ** Steps that keep the tree well formed *)

(** Neither the limit nor the reservations change, and well-formedness is kept. *)
Definition preserves (w w' : AgentWorld) : Prop :=
  max_concurrent_agents (tree w') = max_concurrent_agents (tree w) /\
  pending_capacity_reservations (tree w') = pending_capacity_reservations (tree w) /\
  (tree_wf (next_marker w) (tree w) -> tree_wf (next_marker w') (tree w')).

Lemma preserves_refl w : preserves w w.
Proof. split; [done|]. split; done. Qed.

Lemma preserves_trans a b c : preserves a b -> preserves b c -> preserves a c.
Proof. intros (H1 & H2 & H3) (H4 & H5 & H6). split_and!; [congruence..|auto]. Qed.

(** The tree and the marker counter are the same. *)
Definition same_tree (w w' : AgentWorld) : Prop := tree w' = tree w /\ next_marker w' = next_marker w.

Lemma same_tree_preserves w w' : same_tree w w' -> preserves w w'.
Proof. intros [H1 H2]. unfold preserves. rewrite H1, H2. split; [done|]. split; done. Qed.

Lemma same_tree_trans a b c : same_tree a b -> same_tree b c -> same_tree a c.
Proof. intros [H1 H2] [H3 H4]. split; congruence. Qed.

Lemma same_tree_notify w : same_tree w (notify_activity w).
Proof. by split. Qed.
Lemma same_tree_heap h w : same_tree w (set_heap h w).
Proof. by split. Qed.
Lemma same_tree_control c w : same_tree w (fst (new_control c w)).
Proof. by split. Qed.

Lemma route_same_tree source kind k w : same_tree w (fst (route_terminal_outcome source kind k w)).
Proof.
  unfold route_terminal_outcome. destruct (agents (tree w) !! ROOT); [|by split]. cbv zeta.
  destruct (_ && _); [by split|]. destruct (_ && _); [by split|]. destruct kind; try (by split);
    (destruct (on_control _ _ _) as [h r]; by split).
Qed.

Lemma route_terminal_same_tree c kind k w : same_tree w (fst (route_terminal c kind k w)).
Proof.
  unfold route_terminal. destruct (terminal_router _); [|by split]. destruct (upgrade_route _ _); [|by split].
  apply route_same_tree.
Qed.

Lemma supersede_same_tree c w : same_tree w (fst (supersede c w)).
Proof.
  unfold supersede, cancel, request_cancel. pose proof (route_terminal_same_tree c Request Superseded w) as H.
  destruct (route_terminal c Request Superseded w) as [w1 [o|]]; cbn [fst] in *; [done|].
  unfold in_world. destruct (on_control _ _ _) as [h o]. cbn. exact H.
Qed.

Lemma preserves_notify w w' : preserves w w' -> preserves w (notify_activity w').
Proof. intros H. eapply preserves_trans; [exact H|]. apply same_tree_preserves, same_tree_notify. Qed.

(** An entry changes, keeping its identity; its execution stays, ends or starts. *)
Definition same_identity (a a' : AgentEntry) : Prop :=
  session_id a' = session_id a /\ parent_path a' = parent_path a /\ spawn_order a' = spawn_order a.

Lemma update_wf next t p a a' next' :
  tree_wf next t -> agents t !! p = Some a -> same_identity a a' -> (next <= next')%N ->
  lifecycle_ok a' -> mailbox_ok a' ->
  (execution_marker a' = execution_marker a \/ execution_marker a' = None \/
   (execution_marker a' = Some next /\ (next < next')%N /\ (is_root p = true \/ active_agent_count t < descendant_capacity t))) ->
  tree_wf next' (update_agent p a' t).
Proof.
  intros Hwf Ha (Hs & Hp & Ho) Hn Hl Hm Hex.
  assert (Hlk : forall q b, agents (update_agent p a' t) !! q = Some b ->
    exists b0, agents t !! q = Some b0 /\ session_id b = session_id b0 /\ spawn_order b = spawn_order b0 /\
      (q = p /\ b = a' \/ q <> p /\ b = b0)).
  { intros q b [[-> ->]|[Hne Hq]]%update_lookup; [exists a|exists b]; auto 10. }
  assert (Hfresh : forall q b m, agents t !! q = Some b -> execution_marker b = Some m -> (m < next)%N).
  { intros q b m Hq Hb. eapply entry_marker; [|exact Hb]. by eapply wf_entry. }
  constructor.
  - apply update_root, (wf_root _ _ Hwf).
  - intros q b Hq. apply Hlk in Hq as (b0 & Hb0 & _ & _ & [[-> ->]|[Hne ->]]).
    + pose proof (wf_entry _ _ Hwf p a Ha) as [_ _ Hpl Hmk]. constructor; [done|done| |].
      * unfold placed in *. by rewrite Hp.
      * intros m Hm'. destruct Hex as [E|[E|(E & Hlt & _)]]; rewrite E in Hm'; [|done|injection Hm' as <-; lia].
        apply Hmk in Hm'. lia.
    + pose proof (wf_entry _ _ Hwf q b0 Hb0) as [H1 H2 H3 H4]. constructor; try done. intros m Hm'%H4. lia.
  - intros q b Hq. apply Hlk in Hq as (b0 & Hb0 & _ & -> & _). simpl. by eapply wf_order.
  - intros q1 q2 b1 b2 H1 H2 E. apply Hlk in H1 as (c1 & Hc1 & E1 & _ & _), H2 as (c2 & Hc2 & E2 & _ & _).
    eapply wf_session_inj; [exact Hwf|exact Hc1|exact Hc2|congruence].
  - intros q1 q2 b1 b2 H1 H2 E. apply Hlk in H1 as (c1 & Hc1 & _ & E1 & _), H2 as (c2 & Hc2 & _ & E2 & _).
    eapply wf_order_inj; [exact Hwf|exact Hc1|exact Hc2|congruence].
  - intros q1 q2 b1 b2 m H1 H2 E1 E2.
    apply Hlk in H1 as (c1 & Hc1 & _ & _ & C1), H2 as (c2 & Hc2 & _ & _ & C2).
    assert (Hold : forall q b c, agents t !! q = Some c -> execution_marker b = Some m ->
      q = p /\ b = a' \/ q <> p /\ b = c -> execution_marker c = Some m \/ (q = p /\ m = next)).
    { intros q b c Hc Eb [[-> ->]|[_ ->]]; [|by left]. destruct Hex as [E|[E|(E & _)]]; rewrite E in Eb; [|done|].
      - left. rewrite Hc in Ha. injection Ha as ->. done.
      - right. by injection Eb as <-. }
    destruct (Hold _ _ _ Hc1 E1 C1) as [D1|[-> ->]], (Hold _ _ _ Hc2 E2 C2) as [D2|[-> D2]]; [|subst m|..|done].
    + by eapply wf_marker_inj.
    + pose proof (Hfresh _ _ _ Hc1 D1). lia.
    + pose proof (Hfresh _ _ _ Hc2 D2). lia.
  - unfold update_agent. simpl. rewrite map_size_insert_Some by by eexists. apply (wf_size _ _ Hwf).
  - change (descendant_capacity (update_agent p a' t)) with (descendant_capacity t). pose proof (wf_capacity _ _ Hwf).
    destruct Hex as [E|[E|(_ & _ & [Hr|Hlt])]].
    + pose proof (active_count_update t p a a' Ha) as H1. unfold has_marker in H1. rewrite E in H1. specialize (H1 id). lia.
    + pose proof (active_count_update t p a a' Ha) as H1. unfold has_marker in H1. rewrite E in H1. specialize (H1 ltac:(done)). lia.
    + apply text_eqb_eq in Hr as ->. pose proof (active_count_root t a'). lia.
    + pose proof (active_count_insert t p a'). lia.
Qed.

(** ** New and removed entries *)

Lemma any_agent_false f t p a : any_agent f t = false -> agents t !! p = Some a -> f a = false.
Proof.
  unfold any_agent. intros H Ha. apply not_true_iff_false. intros Hf. apply not_true_iff_false in H. apply H.
  apply existsb_exists. exists (p, a). split; [|done]. apply list_elem_of_In. by apply elem_of_map_to_list.
Qed.

Lemma raise_order_wf next t n : (next_spawn_order t <= n)%N -> tree_wf next t -> tree_wf next (set_next_spawn_order n t).
Proof.
  intros Hn [H1 H2 H3 H4 H5 H6 H7 H8]. constructor; try done. intros p a Ha. specialize (H3 p a Ha). simpl. lia.
Qed.

Lemma other_fields_wf next t t' :
  agents t' = agents t -> next_spawn_order t' = next_spawn_order t -> max_concurrent_agents t' = max_concurrent_agents t ->
  pending_capacity_reservations t' <= pending_capacity_reservations t -> tree_wf next t -> tree_wf next t'.
Proof.
  intros Ea Eo Em Er [H1 H2 H3 H4 H5 H6 H7 H8].
  constructor; rewrite ?Ea, ?Eo; try done.
  unfold active_agent_count, descendant_capacity, active_paths in *. rewrite Ea, Em. lia.
Qed.

Lemma choose_spawn_order_spec d t t' o :
  choose_spawn_order d t = Ok (t', o) -> (forall p a, agents t !! p = Some a -> (spawn_order a < next_spawn_order t)%N) ->
  exists n, t' = set_next_spawn_order n t /\ (next_spawn_order t <= n)%N /\ (o < n)%N /\
    forall p a, agents t !! p = Some a -> spawn_order a <> o.
Proof.
  unfold choose_spawn_order, allocate_spawn_order. intros H Hlt. destruct d as [order|].
  - destruct (order =? 0)%N; [done|]. destruct (order_taken order t) eqn:E; [done|]. cbn [orb] in H.
    destruct (checked_add_u64 order 1) as [n|] eqn:En; [|done]. injection H as <- <-.
    apply checked_add_u64_Some in En as [-> _]. eexists. split; [done|]. split; [lia|]. split; [lia|].
    intros p a Ha Eo. pose proof (any_agent_false _ _ _ _ E Ha) as E2. cbv beta in E2. by apply bool_decide_eq_false in E2.
  - destruct (checked_add_u64 _ 1) as [n|] eqn:En; [|done]. injection H as <- <-.
    apply checked_add_u64_Some in En as [-> _]. eexists. split; [done|]. split; [lia|]. split; [lia|].
    intros p a Ha E. apply Hlt in Ha. lia.
Qed.

Lemma insert_wf next next' t p a :
  tree_wf next t -> agents t !! p = None -> (next <= next')%N ->
  entry_wf next' p a -> (spawn_order a < next_spawn_order t)%N ->
  (forall q b, agents t !! q = Some b -> session_id b <> session_id a /\ spawn_order b <> spawn_order a) ->
  (execution_marker a = None \/ execution_marker a = Some next /\ active_agent_count t < descendant_capacity t) ->
  size (agents t) < MAX_RETAINED_AGENTS ->
  tree_wf next' (update_agent p a t).
Proof.
  intros Hwf Hp Hn He Ho Hfresh Hm Hsz.
  assert (Hlk := fun q b => proj1 (update_lookup p a t q b)).
  assert (Hmk : forall q b m, agents t !! q = Some b -> execution_marker b = Some m -> execution_marker a = Some m -> False).
  { intros q b m Hq Hb Ha. destruct Hm as [E|[E _]]; rewrite E in Ha; [done|]. injection Ha as <-.
    pose proof (entry_marker _ _ _ (wf_entry _ _ Hwf q b Hq) _ Hb). lia. }
  constructor.
  - apply update_root, (wf_root _ _ Hwf).
  - intros q b Hq. destruct (Hlk q b Hq) as [[-> ->]|[_ Hb]]; [done|].
    pose proof (wf_entry _ _ Hwf q b Hb) as [E1 E2 E3 E4]. constructor; try done. intros m H%E4. lia.
  - intros q b Hq. destruct (Hlk q b Hq) as [[-> ->]|[_ Hb]]; [done|]. simpl. by eapply wf_order.
  - intros q1 q2 b1 b2 H1 H2 E. destruct (Hlk _ _ H1) as [[-> ->]|[_ Hb1]], (Hlk _ _ H2) as [[-> ->]|[_ Hb2]]; [done|..].
    + destruct (Hfresh _ _ Hb2). congruence.
    + destruct (Hfresh _ _ Hb1). congruence.
    + by eapply wf_session_inj.
  - intros q1 q2 b1 b2 H1 H2 E. destruct (Hlk _ _ H1) as [[-> ->]|[_ Hb1]], (Hlk _ _ H2) as [[-> ->]|[_ Hb2]]; [done|..].
    + destruct (Hfresh _ _ Hb2). congruence.
    + destruct (Hfresh _ _ Hb1). congruence.
    + by eapply wf_order_inj.
  - intros q1 q2 b1 b2 m H1 H2 E1 E2. destruct (Hlk _ _ H1) as [[-> ->]|[_ Hb1]], (Hlk _ _ H2) as [[-> ->]|[_ Hb2]]; [done|..].
    + destruct (Hmk _ _ _ Hb2 E2 E1).
    + destruct (Hmk _ _ _ Hb1 E1 E2).
    + by eapply wf_marker_inj.
  - unfold update_agent. simpl. rewrite map_size_insert_None by done. lia.
  - change (descendant_capacity (update_agent p a t)) with (descendant_capacity t). pose proof (wf_capacity _ _ Hwf).
    destruct Hm as [E|[_ Hlt]]; [|pose proof (active_count_insert t p a); lia].
    assert (active_paths (update_agent p a t) ⊆ active_paths t) as Hsub.
    { intros q Hq. apply active_paths_elem in Hq as (b & Hb & Hc). apply active_paths_elem.
      destruct (Hlk _ _ Hb) as [[-> ->]|[_ Hb']]; [|by exists b]. unfold counted, has_marker in Hc. rewrite E, andb_false_r in Hc. done. }
    pose proof (subseteq_size _ _ Hsub). unfold active_agent_count in *. simpl. lia.
Qed.

Lemma delete_wf next t p :
  tree_wf next t -> p <> ROOT -> tree_wf next (set_agents (delete p (agents t)) t).
Proof.
  intros [H1 H2 H3 H4 H5 H6 H7 H8] Hp.
  assert (Hlk : forall q b, delete p (agents t) !! q = Some b -> agents t !! q = Some b).
  { intros q b [_ H]%lookup_delete_Some. done. }
  constructor; simpl; eauto.
  - by rewrite lookup_delete_ne.
  - pose proof (subseteq_size (dom (delete p (agents t))) (dom (agents t))) as Hsz.
    rewrite dom_delete, <- dom_delete, !size_dom in Hsz. specialize (Hsz ltac:(rewrite dom_delete; set_solver)). lia.
  - unfold active_agent_count in *. simpl. eapply Nat.le_trans; [|exact H8]. apply Nat.add_le_mono_l, subseteq_size.
    intros q Hq. apply active_paths_elem in Hq as (b & Hb & Hc). apply active_paths_elem. simpl in Hb. exists b. eauto.
Qed.
