(* ===== verification/AgentSteps.v ===== *)
(** * Every operation keeps the tree well formed *)
From S2P Require Import Prelude.
From S2P Require Import TurnOutcome.
From S2P Require Import Text.
From S2P Require Import AgentPath.
From S2P Require Import RunControl.
From S2P Require Import RunOwners.
From S2P Require Import AgentTree.
From S2P Require Import AgentOps.
From S2P Require Import AgentMail.
From S2P Require Import AgentTreeFacts.

(** ** Entries *)

(** The fields of the lifecycle are the same. *)
Definition same_lifecycle (a a' : AgentEntry) : Prop :=
  status a' = status a /\ execution_marker a' = execution_marker a /\
  active_durable_turn_id a' = active_durable_turn_id a /\ awaiting_deferred_turn_id a' = awaiting_deferred_turn_id a /\
  pending_deferred_release a' = pending_deferred_release a.

Lemma same_lifecycle_ok a a' : same_lifecycle a a' -> lifecycle_ok a -> lifecycle_ok a'.
Proof.
  intros (H1 & H2 & H3 & H4 & H5) [L1 L2 L3 L4 L5]. unfold has_marker in *.
  constructor; unfold has_marker; rewrite ?H1, ?H2, ?H3, ?H4, ?H5; done.
Qed.

Lemma start_lifecycle m c a : lifecycle_ok (start_execution m c a).
Proof.
  constructor; simpl; try done; try (by left).
Qed.

Lemma idle_lifecycle st act awaiting a :
  st <> Running -> (st = AwaitingDescendants <-> is_Some awaiting) -> lifecycle_ok (idle st act awaiting a).
Proof. intros H1 H2. constructor; simpl; done. Qed.

Lemma running_lifecycle a turn : has_marker a = true ->
  lifecycle_ok (set_turns (Some turn) None None (set_execution Running (execution_marker a) (run_control a) a)).
Proof.
  unfold has_marker. intros H. constructor; unfold has_marker; simpl; try done; try (by right). by rewrite H.
Qed.

Lemma cleared_lifecycle a : lifecycle_ok a -> lifecycle_ok (clear_cancelled_active_generation_state a).
Proof. intros [L1 L2 L3 L4 L5]. constructor; simpl; done. Qed.

Lemma status_lifecycle a st : has_marker a = true -> lifecycle_ok a -> lifecycle_ok (with_status st a).
Proof.
  intros Hm [L1 L2 L3 L4 L5]. constructor; unfold has_marker in *; simpl; try done.
  - intros _. destruct st; auto.
  - by rewrite Hm.
  - destruct (L1 Hm) as [E|E]; rewrite E in L3; destruct st; simpl; (split; [done|]); intros H%L3; done.
Qed.

Lemma mailbox_sublist a ns :
  mailbox_ok a -> sublist ns (mailbox a) -> length ns <= MAX_AGENT_MAILBOX_NOTICES /\ NoDup (map history_item_id ns).
Proof.
  intros [H1 H2] Hs. split; [apply sublist_length in Hs; lia|]. eapply sublist_NoDup; [exact H2|].
  exact (fmap_sublist history_item_id _ _ Hs).
Qed.

Lemma filter_sublist {A} (f : A -> bool) l : sublist (List.filter f l) l.
Proof. induction l as [|x l IH]; simpl; [constructor|]. destruct (f x); by constructor. Qed.

Lemma keep_mailbox f a : mailbox_ok a -> mailbox_ok (keep_notices f a).
Proof.
  intros H. unfold keep_notices, mailbox_ok. cbv zeta.
  pose proof (mailbox_sublist a _ H (filter_sublist f (mailbox a))). by case_match.
Qed.

Lemma set_ready_ids r l : map history_item_id (map (set_ready r) l) = map history_item_id l.
Proof. induction l as [|n l IH]; simpl; [done|]. rewrite IH. f_equal. unfold set_ready. by destruct (trigger_turn n). Qed.

Lemma ready_mailbox r a : mailbox_ok a -> mailbox_ok (set_triggers_ready r a).
Proof. intros [H1 H2]. split; simpl; [by rewrite length_map|by rewrite set_ready_ids]. Qed.

Lemma promote_mailbox b a : mailbox_ok a -> mailbox_ok (promote_if b a).
Proof. destruct b; [apply ready_mailbox|done]. Qed.

Lemma push_mailbox item t r a :
  mailbox_ok a -> has_notice item a = false -> length (mailbox a) < MAX_AGENT_MAILBOX_NOTICES ->
  mailbox_ok (push_notice item t r a).
Proof.
  intros [H1 H2] Hn Hl. split; simpl; [rewrite length_app; simpl; lia|]. rewrite map_app. apply NoDup_app.
  split; [done|]. split; [|apply NoDup_singleton]. intros x Hx Hx2. simpl in Hx2. apply list_elem_of_singleton in Hx2 as ->.
  apply not_true_iff_false in Hn. apply Hn, existsb_exists. apply list_elem_of_In, in_map_iff in Hx as (n & <- & Hin).
  exists n. split; [done|apply N.eqb_refl].
Qed.

Lemma keep_same f a : same_lifecycle a (keep_notices f a) /\ same_identity a (keep_notices f a).
Proof. unfold keep_notices. cbv zeta. case_match; by repeat split. Qed.
Lemma promote_same b a : same_lifecycle a (promote_if b a) /\ same_identity a (promote_if b a).
Proof. destruct b; by repeat split. Qed.
Lemma consume_same wake a : same_lifecycle a (consume_wake wake a) /\ same_identity a (consume_wake wake a).
Proof. destruct wake; simpl; [apply keep_same|]. case_decide; by repeat split. Qed.
Lemma consume_mailbox wake a : mailbox_ok a -> mailbox_ok (consume_wake wake a).
Proof. destruct wake; simpl; [apply keep_mailbox|]. by case_decide. Qed.

(** The deferred release latch is set only for the turn that owns it. *)
Lemma project_deferred_same k a r :
  let a' := fst (project_deferred_owner_release k a r) in
  same_identity a a' /\ mailbox a' = mailbox a /\ execution_marker a' = execution_marker a /\
  run_control a' = run_control a /\ (lifecycle_ok a -> lifecycle_ok a').
Proof.
  unfold project_deferred_owner_release. destruct r as [r|]; [|by split_and!]. destruct (_ || _); [by split_and!|].
  destruct (has_marker a); [|destruct (_ || _); by split_and!]. case_decide as E; [|by split_and!]. simpl.
  split_and!; try done. intros [L1 L2 L3 L4 L5]. constructor; simpl; try done. intros t [= <-]. done.
Qed.

Lemma identity_trans a b c : same_identity a b -> same_identity b c -> same_identity a c.
Proof. unfold same_identity. intros (? & ? & ?) (? & ? & ?). split_and!; congruence. Qed.
Lemma identity_refl a : same_identity a a.
Proof. done. Qed.

(** ** Updates of one entry *)

Lemma update_preserves w w1 p a a' :
  same_tree w w1 -> agents (tree w) !! p = Some a -> same_identity a a' ->
  (lifecycle_ok a -> lifecycle_ok a') -> (mailbox_ok a -> mailbox_ok a') ->
  (execution_marker a' = execution_marker a \/ execution_marker a' = None) ->
  preserves w (set_tree (update_agent p a' (tree w1)) w1).
Proof.
  intros [Ht Hn] Ha Hi Hl Hm Hx. rewrite Ht. split; [done|]. split; [done|]. intros Hwf. cbn. rewrite Hn.
  destruct (wf_entry _ _ Hwf p a Ha) as [H1 H2 _ _]. eapply update_wf; try done; auto. tauto.
Qed.

Lemma pending_root_preserves w p : preserves w (set_tree (set_pending_root p (tree w)) w).
Proof. split; [done|]. split; [done|]. intros Hwf. apply (other_fields_wf _ (tree w)); done || (simpl; lia). Qed.

Lemma reserve_loop_preserves paths w ls :
  Forall (fun p => exists a, agents (tree w) !! p = Some a /\ has_marker a = false) paths -> NoDup paths ->
  preserves w (fst (reserve_loop paths w ls)).
Proof.
  revert w ls; induction paths as [|p paths IH]; intros w ls Hf Hn; cbn [reserve_loop]; [apply preserves_refl|].
  destruct (Nat.leb_spec (descendant_capacity (tree w)) (active_agent_count (tree w))) as [|Hlt]; [apply preserves_refl|].
  inversion Hf as [|? ? (a & Ha & Hm) Hf']; subst. apply NoDup_cons in Hn as [Hp Hn]. rewrite Ha. cbv zeta.
  unfold new_arc, new_control. cbv beta iota zeta. cbn [tree root_scope_control set_tree].
  match goal with |- preserves w (fst (reserve_loop paths ?w' ?ls')) => set (w1 := w'); set (l1 := ls') end.
  eapply (preserves_trans w w1).
  - split; [done|]. split; [done|]. intros Hwf. cbn.
    destruct (wf_entry _ _ Hwf p a Ha) as [H1 H2 _ _].
    eapply update_wf; try done; [lia|apply start_lifecycle|]. right; right. split; [done|]. split; [lia|by right].
  - apply IH; [|done]. apply Forall_forall. intros q Hq. rewrite Forall_forall in Hf'. destruct (Hf' q Hq) as (b & Hb & Hbm).
    exists b. split; [|done]. cbn. rewrite lookup_insert_ne; [done|]. by intros ->.
Qed.

Lemma insert_by_key_perm {A} (key : A -> N) x l : Permutation (insert_by_key key x l) (x :: l).
Proof. induction l as [|y l IH]; simpl; [done|]. case_match; [done|]. rewrite IH. apply Permutation_swap. Qed.

Lemma sort_by_key_perm {A} (key : A -> N) l : Permutation (sort_by_key key l) l.
Proof. induction l as [|x l IH]; simpl; [done|]. by rewrite insert_by_key_perm, IH. Qed.

Lemma filter_filter_eq {A} (f : A -> bool) l : List.filter f l = filter (fun x => f x = true) l.
Proof. induction l as [|x l IH]; simpl; [done|]. rewrite filter_cons. destruct (f x) eqn:E; [rewrite decide_True|rewrite decide_False]; congruence. Qed.

Lemma candidates_perm t :
  Permutation (candidates t) (map fst (List.filter (fun pa => is_candidate (fst pa) (snd pa)) (map_to_list (agents t)))).
Proof. unfold candidates. by rewrite sort_by_key_perm. Qed.

Lemma candidates_NoDup t : NoDup (candidates t).
Proof.
  rewrite candidates_perm. eapply sublist_NoDup; [apply (NoDup_fst_map_to_list (agents t))|].
  exact (fmap_sublist fst _ _ (filter_sublist _ _)).
Qed.

Lemma candidates_elem t p : p ∈ candidates t <-> exists a, agents t !! p = Some a /\ is_candidate p a = true.
Proof.
  rewrite candidates_perm. rewrite list_elem_of_In, in_map_iff. split.
  - intros ([q a] & <- & [Hin Hc]%filter_In). exists a. split; [|done]. by apply elem_of_map_to_list, list_elem_of_In.
  - intros (a & Ha & Hc). exists (p, a). split; [done|]. apply filter_In. split; [|done].
    by apply list_elem_of_In, elem_of_map_to_list.
Qed.

Lemma candidate_inactive p a : is_candidate p a = true -> has_marker a = false.
Proof. unfold is_candidate. destruct (has_marker a); [rewrite andb_false_r; done|done]. Qed.

Lemma reserve_preserves w : preserves w (fst (reserve_pending_triggered_executions_locked w)).
Proof.
  unfold reserve_pending_triggered_executions_locked. destruct (tree_cancelled w); [apply preserves_refl|].
  apply reserve_loop_preserves; [|apply candidates_NoDup]. apply Forall_forall. intros p (a & Ha & Hc)%candidates_elem.
  exists a. split; [done|by eapply candidate_inactive].
Qed.

Lemma schedule_preserves g w : preserves w (fst (schedule_unless_cancelled g w)).
Proof. unfold schedule_unless_cancelled. destruct (_ && _); [apply reserve_preserves|apply preserves_refl]. Qed.

(** An update, then the scheduler, then the notification: how most operations end. *)
Lemma settle_preserves g w w1 :
  preserves w w1 -> preserves w (notify_activity (fst (schedule_unless_cancelled g w1))).
Proof. intros H. apply preserves_notify. eapply preserves_trans; [exact H|apply schedule_preserves]. Qed.

(** ** Operations on one entry *)

Lemma release_preserves p m w : preserves w (release_execution p m w).
Proof.
  unfold release_execution. destruct (agents (tree w) !! p) as [a|] eqn:Ha; [|apply preserves_refl].
  destruct (owns_marker m a); [|apply preserves_refl]. cbv zeta. apply preserves_notify.
  assert (H : preserves w (set_tree (update_agent p (set_turns None None None (set_execution Interrupted None (run_control a) a)) (tree w)) w)).
  { apply (update_preserves w w p a); try done; auto. intros _. constructor; simpl; done. }
  destruct (is_root p); [|exact H]. eapply preserves_trans; [exact H|].
  match goal with |- preserves ?x _ => apply (pending_root_preserves x) end.
Qed.

Lemma mutate_preserves p m f w :
  (forall a, same_identity a (f a) /\ mailbox (f a) = mailbox a /\ execution_marker (f a) = execution_marker a /\
    (has_marker a = true -> lifecycle_ok a -> lifecycle_ok (f a))) ->
  preserves w (fst (mutate_execution p m f w)).
Proof.
  intros Hf. unfold mutate_execution. destruct (agents (tree w) !! p) as [a|] eqn:Ha; [|apply preserves_refl].
  destruct (owns_marker m a) eqn:Ho; cbn [negb]; [|apply preserves_refl]. apply preserves_notify.
  destruct (Hf a) as (Hi & Hb & Hx & Hl). apply (update_preserves w w p a); try done; auto.
  - apply Hl. unfold owns_marker in Ho. apply bool_decide_eq_true in Ho. unfold has_marker. by rewrite Ho.
  - unfold mailbox_ok. by rewrite Hb.
Qed.

Lemma with_status_preserves p m st w : preserves w (fst (mutate_execution p m (with_status st) w)).
Proof. apply mutate_preserves. intros a. split_and!; try done. apply status_lifecycle. Qed.

Lemma set_activity_preserves p m x w : preserves w (fst (mutate_execution p m (set_last_activity x) w)).
Proof. apply mutate_preserves. intros a. split_and!; try done. intros _. by apply same_lifecycle_ok. Qed.

Lemma status_activity_preserves p m st x w :
  preserves w (fst (mutate_execution p m (fun a => set_last_activity x (with_status st a)) w)).
Proof.
  apply mutate_preserves. intros a. split_and!; try done. intros Hm Hl.
  apply (same_lifecycle_ok (with_status st a)); [done|by apply status_lifecycle].
Qed.

Lemma drain_preserves p w : preserves w (fst (drain_mailbox p w)).
Proof.
  unfold drain_mailbox. destruct (agents (tree w) !! p) as [a|] eqn:Ha; [|apply preserves_refl]. apply preserves_notify.
  apply (update_preserves w w p a); try done; auto.
  - by apply same_lifecycle_ok.
  - intros _. split; simpl; [apply Nat.le_0_l|constructor].
Qed.

Lemma restore_pending_mail_preserves p i r w : preserves w (fst (restore_pending_mail p i r w)).
Proof.
  unfold restore_pending_mail. destruct (agents (tree w) !! p) as [a|] eqn:Ha; [|apply preserves_refl].
  destruct (has_notice i a) eqn:Hn; [apply preserves_refl|].
  destruct (Nat.leb_spec MAX_AGENT_MAILBOX_NOTICES (length (mailbox a))); [apply preserves_refl|]. apply preserves_notify.
  apply (update_preserves w w p a); try done; auto.
  - by apply same_lifecycle_ok.
  - intros Hm. by apply push_mailbox.
Qed.

Lemma restore_pending_owner_resume_preserves p r w : preserves w (fst (restore_pending_owner_resume p r w)).
Proof.
  unfold restore_pending_owner_resume. destruct (agents (tree w) !! p) as [a|] eqn:Ha; [|apply preserves_refl].
  destruct (pending_owner_resume_request_id a); [case_decide; apply preserves_refl|]. apply preserves_notify.
  apply (update_preserves w w p a); try done; auto. by apply same_lifecycle_ok.
Qed.

Lemma begin_terminal_preserves p w : preserves w (fst (begin_durable_terminal p w)).
Proof.
  unfold begin_durable_terminal. destruct (agents (tree w) !! p) as [a|] eqn:Ha; [|apply preserves_refl].
  destruct (on_control _ _ _) as [h o]. cbv zeta. apply preserves_notify.
  apply (update_preserves w (set_heap h w) p a); try done; auto. intros Hl.
  apply (same_lifecycle_ok (clear_cancelled_active_generation_state a)); [done|by apply cleared_lifecycle].
Qed.

Lemma finish_terminal_preserves token w : preserves w (finish_durable_terminal token w).
Proof.
  unfold finish_durable_terminal. cbv zeta. destruct (agents (tree w) !! terminal_path token) as [a|] eqn:Ha; [|apply preserves_refl].
  destruct (_ || _); [apply preserves_refl|]. apply preserves_notify.
  set (kept := List.filter _ (mailbox a)).
  match goal with |- preserves w (set_tree (update_agent _ ?x _) _) => set (a' := x) end.
  assert (H : same_lifecycle a a' /\ same_identity a a' /\ mailbox a' = kept).
  { unfold a'. repeat case_match; by repeat split. }
  destruct H as (H1 & H2 & H3). apply (update_preserves w w (terminal_path token) a); try done.
  - by apply same_lifecycle_ok.
  - intros Hm. unfold mailbox_ok. rewrite H3. eapply mailbox_sublist; [exact Hm|apply filter_sublist].
  - left. by destruct H1 as (_ & ? & _).
Qed.

Lemma cancel_root_preserves c k s w : preserves w (fst (cancel_root_execution_at_scope_control c k s w)).
Proof.
  unfold cancel_root_execution_at_scope_control. destruct (negb _); [apply preserves_refl|].
  destruct (agents (tree w) !! ROOT) as [root|]; [|apply preserves_refl]. cbv zeta.
  destruct s; [apply preserves_notify, preserves_refl|]. destruct (on_control _ _ _) as [h o].
  cbn [fst]. case_match; [apply preserves_notify|]; apply same_tree_preserves; done.
Qed.

Lemma route_preserves c kind k w : preserves w (fst (route_terminal_outcome c kind k w)).
Proof. apply same_tree_preserves, route_same_tree. Qed.

(** ** New children and executions *)

Lemma insert_child_preserves w parent name session act order child w' r :
  insert_child_locked w parent child session act order = (w', r) ->
  task_name_ok name -> child = parent ++ SLASH :: name ->
  validate_child_registration_locked w parent child session = Ok tt -> preserves w w'.
Proof.
  unfold insert_child_locked. intros H Hname Hchild Hv.
  destruct (choose_spawn_order order (tree w)) as [[t o]|e] eqn:Ec; [|injection H as <- _; apply preserves_refl].
  unfold validate_child_registration_locked in Hv. cbv zeta in Hv. destruct (tree_cancelled w); [done|].
  destruct (negb _); [done|]. destruct (bool_decide (is_Some (agents (tree w) !! child))) eqn:Ex; [done|].
  destruct (session_taken session (tree w)) eqn:Es; [done|].
  destruct (Nat.leb_spec MAX_RETAINED_AGENTS (size (agents (tree w)))); [done|].
  destruct (Nat.leb_spec (descendant_capacity (tree w)) (active_agent_count (tree w))); [done|].
  apply bool_decide_eq_false in Ex. rewrite <- eq_None_not_Some in Ex.
  assert (Hshape : exists n, t = set_next_spawn_order n (tree w)).
  { revert Ec. unfold choose_spawn_order, allocate_spawn_order. repeat case_match; intros Ec; simplify_eq; by eexists. }
  unfold new_arc, new_control in H. cbv beta iota zeta in H. injection H as <- _.
  destruct Hshape as [n0 En0]. split; [by rewrite En0|]. split; [by rewrite En0|]. intros Hwf. cbn.
  destruct (choose_spawn_order_spec _ _ _ _ Ec (wf_order _ _ Hwf)) as (n & -> & Hn & Ho & Hfresh).
  pose proof (raise_order_wf _ _ n Hn Hwf) as Hwf'.
  eapply insert_wf; [exact Hwf'|done|lia| |done| | |done].
  - constructor; [|by split; simpl; [apply Nat.le_0_l|constructor]| |].
    + constructor; simpl; try done. by left.
    + exists name. done.
    + intros m. simpl. intros [= <-]. lia.
  - intros q b Hq. simpl in Hq. split; simpl; [|by eapply Hfresh].
    intros E. pose proof (any_agent_false _ _ _ _ Es Hq) as E2. cbv beta in E2. by apply bool_decide_eq_false in E2.
  - right. split; [done|]. done.
Qed.

Lemma validated_unit {E} (r : result unit E) u : r = Ok u -> r = Ok tt.
Proof. by destruct u. Qed.

Lemma join_path_shape p x q : join_path p x = Ok q -> task_name_ok x /\ q = p ++ SLASH :: x.
Proof.
  unfold join_path. rewrite <- validate_task_name_ok. destruct (validate_task_name x) as [[]|]; [|done]. cbn [and_then].
  by intros [-> _]%from_string_ok.
Qed.

Lemma register_preserves parent name session act order w :
  preserves w (fst (register_child_with_order parent name session act order w)).
Proof.
  unfold register_child_with_order. destruct (join_path parent name) as [child|] eqn:Ej; [|apply preserves_refl].
  apply join_path_shape in Ej as [Hname Hchild].
  destruct (validate_child_registration_locked w parent child session) as [u|] eqn:Ev; [|apply preserves_refl].
  apply validated_unit in Ev. destruct (insert_child_locked _ _ _ _ _ _) as [w' [[[snap m] c]|]] eqn:Ei;
    pose proof (insert_child_preserves _ _ _ _ _ _ _ _ _ Ei Hname Hchild Ev) as H; [by apply preserves_notify|done].
Qed.

Lemma restore_inactive_preserves parent name session st act order w :
  preserves w (fst (restore_inactive_child_with_order parent name session st act order w)).
Proof.
  unfold restore_inactive_child_with_order. destruct (join_path parent name) as [child|] eqn:Ej; [|apply preserves_refl].
  apply join_path_shape in Ej as [Hname Hchild]. cbv zeta.
  destruct (negb _); [apply preserves_refl|].
  destruct (bool_decide (is_Some (agents (tree w) !! child))) eqn:Ex; [apply preserves_refl|].
  destruct (session_taken session (tree w)) eqn:Es; [apply preserves_refl|].
  destruct (Nat.leb_spec MAX_RETAINED_AGENTS (size (agents (tree w)))); [apply preserves_refl|].
  apply bool_decide_eq_false in Ex. rewrite <- eq_None_not_Some in Ex.
  destruct (choose_spawn_order order (tree w)) as [[t o]|e] eqn:Ec; [|apply preserves_refl].
  assert (Hshape : exists n, t = set_next_spawn_order n (tree w)).
  { revert Ec. unfold choose_spawn_order, allocate_spawn_order. repeat case_match; intros Ec; simplify_eq; by eexists. }
  unfold new_control. cbv beta iota zeta. apply preserves_notify.
  destruct Hshape as [n0 En0]. split; [by rewrite En0|]. split; [by rewrite En0|]. intros Hwf. cbn.
  destruct (choose_spawn_order_spec _ _ _ _ Ec (wf_order _ _ Hwf)) as (n & -> & Hn & Ho & Hfresh).
  pose proof (raise_order_wf _ _ n Hn Hwf) as Hwf'.
  eapply insert_wf; [exact Hwf'|done|lia| |done| | |done].
  - constructor; [|by split; simpl; [apply Nat.le_0_l|constructor]| |done].
    + destruct st; constructor; simpl; try done; (split; [done|]); by intros [].
    + exists name. done.
  - intros q b Hq. simpl in Hq. split; simpl; [|by eapply Hfresh].
    intros E. pose proof (any_agent_false _ _ _ _ Es Hq) as E2. cbv beta in E2. by apply bool_decide_eq_false in E2.
  - by left.
Qed.

Lemma install_same_tree c w : same_tree w (fst (install_root_terminal_router c w)).
Proof. unfold install_root_terminal_router. destruct (on_control _ _ _) as [h r]. by split. Qed.

(** An execution starts at an inactive entry that may take one. *)
Lemma start_preserves w w1 p a c :
  same_tree w w1 -> agents (tree w) !! p = Some a ->
  (is_root p = true \/ active_agent_count (tree w) < descendant_capacity (tree w)) ->
  preserves w (let '(w2, m) := new_arc w1 in set_tree (update_agent p (start_execution m c a) (tree w2)) w2).
Proof.
  intros [Ht Hn] Ha Hc. unfold new_arc. cbv beta iota zeta. cbn [tree]. rewrite Ht. split; [done|]. split; [done|].
  intros Hwf. cbn. rewrite Hn. destruct (wf_entry _ _ Hwf p a Ha) as [H1 H2 _ _].
  eapply update_wf; try done; [lia|apply start_lifecycle|]. right; right. split; [done|]. split; [lia|done].
Qed.

Lemma acquire_preserves p w : preserves w (fst (try_acquire_execution p w)).
Proof.
  unfold try_acquire_execution. destruct (is_root p); [apply preserves_refl|].
  destruct (tree_cancelled w); [apply preserves_refl|]. destruct (agents (tree w) !! p) as [a|] eqn:Ha; [|apply preserves_refl].
  destruct (has_marker a); [apply preserves_refl|]. destruct (is_shutdown a); [apply preserves_refl|].
  destruct (Nat.leb_spec (descendant_capacity (tree w)) (active_agent_count (tree w))); [apply preserves_refl|].
  pose proof (start_preserves w (fst (new_control (root_scope_control (tree w)) w)) p a
    (snd (new_control (root_scope_control (tree w)) w)) (same_tree_control _ _) Ha ltac:(by right)) as Hs.
  unfold new_control, new_arc in *. cbv beta iota zeta in *. by apply preserves_notify.
Qed.

Lemma acquire_root_preserves c w : preserves w (fst (try_acquire_root_execution c w)).
Proof.
  unfold try_acquire_root_execution. destruct (tree_cancelled w); [apply preserves_refl|].
  destruct (agents (tree w) !! ROOT) as [root|] eqn:Ha; [|apply preserves_refl].
  destruct (has_marker root); [apply preserves_refl|]. cbv zeta. destruct (_ || _); [apply preserves_refl|].
  pose proof (same_tree_control c w) as H1. destruct (new_control c w) as [w1 turn]. cbn [fst] in H1.
  pose proof (install_same_tree c w1) as H2. destruct (install_root_terminal_router c w1) as [w2 [[]|e]]; cbn [fst] in H2;
    pose proof (same_tree_trans _ _ _ H1 H2) as H12; [|by apply same_tree_preserves].
  pose proof (install_same_tree turn w2) as H3. destruct (install_root_terminal_router turn w2) as [w3 [[]|e]]; cbn [fst] in H3;
    pose proof (same_tree_trans _ _ _ H12 H3) as H13; [|by apply same_tree_preserves].
  destruct (is_cancelled _); [by apply same_tree_preserves|].
  pose proof (start_preserves w w3 ROOT root turn H13 Ha ltac:(left; apply text_eqb_refl)) as H.
  unfold new_arc in *. cbv beta iota zeta in *. cbn [fst]. apply preserves_notify. eapply preserves_trans; [exact H|].
  split; [done|]. split; [done|]. intros Hwf. cbn in *.
  apply (other_fields_wf _ (update_agent ROOT (start_execution (next_marker w3) turn root) (tree w3))); done || (simpl; lia).
Qed.

Lemma continuation_preserves c w : preserves w (fst (try_acquire_root_continuation c w)).
Proof.
  unfold try_acquire_root_continuation. cbv zeta. destruct (negb _); [apply preserves_refl|].
  destruct (_ || _); [apply preserves_refl|]. destruct (agents (tree w) !! ROOT) as [root|] eqn:Ha; [|apply preserves_refl].
  destruct (_ || _); [apply preserves_refl|].
  match goal with |- context [install_root_terminal_router _ ?x] => set (w1 := x) end.
  assert (H1 : same_tree w w1) by by split.
  pose proof (install_same_tree (next_control w) w1) as H2.
  destruct (install_root_terminal_router (next_control w) w1) as [w2 [[]|e]]; cbn [fst] in H2;
    pose proof (same_tree_trans _ _ _ H1 H2) as H12; [|by apply same_tree_preserves].
  match goal with |- context [new_arc ?x] => set (w3 := x) end.
  assert (H3 : same_tree w w3) by done.
  pose proof (start_preserves w w3 ROOT root (next_control w) H3 Ha ltac:(left; apply text_eqb_refl)) as H.
  unfold new_arc in *. cbv beta iota zeta in *. by apply preserves_notify.
Qed.

Lemma cancelled_update_preserves w h p a :
  agents (tree w) !! p = Some a ->
  preserves w (notify_activity (set_tree (update_agent p (clear_cancelled_active_generation_state a) (tree (set_heap h w))) (set_heap h w))).
Proof.
  intros Ha. apply preserves_notify. apply (update_preserves w (set_heap h w) p a); try done; auto.
  apply cleared_lifecycle.
Qed.

Section Durable.
Context {D : Type} (upgrade_marker : Marker -> bool).

Lemma commit_spawn_preserves {T} caller parent name session act (commit : D -> D * result (T * N) text) w d :
  preserves w (fst (fst (commit_spawn upgrade_marker caller parent name session act commit w d))).
Proof.
  unfold commit_spawn. destruct (join_path parent name) as [child|] eqn:Ej; [|apply preserves_refl].
  apply join_path_shape in Ej as [Hname Hchild].
  destruct (validate_execution_scope_locked _ _ _ _) as [[]|]; [|apply preserves_refl].
  destruct (validate_child_registration_locked w parent child session) as [u|] eqn:Ev; [|apply preserves_refl].
  apply validated_unit in Ev. destruct (commit d) as [d' [[x o]|]]; [|apply preserves_refl].
  destruct (insert_child_locked _ _ _ _ _ _) as [w' [[[snap m] c]|]] eqn:Ei;
    pose proof (insert_child_preserves _ _ _ _ _ _ _ _ _ Ei Hname Hchild Ev) as H; [by apply preserves_notify|done].
Qed.

Lemma restore_current_preserves owner (rd : D -> D * result (option OwnerResumeRequestId) text) w d :
  preserves w (fst (fst (restore_current_owner_resume owner rd w d))).
Proof.
  unfold restore_current_owner_resume. destruct (rd d) as [d' [request|]]; [|apply preserves_refl].
  destruct (agents (tree w) !! owner) as [a|] eqn:Ha; [|apply preserves_refl]. cbn [reconcile_current_owner_resume_request].
  match goal with |- context [schedule_unless_cancelled ?g ?x] =>
    pose proof (settle_preserves g w x) as Hsettle; destruct (schedule_unless_cancelled g x) end. apply Hsettle.
  apply (update_preserves w w owner a); try done; auto. by apply same_lifecycle_ok.
Qed.

Lemma owner_projection_ok k a r request b :
  let a' := promote_if b (set_owner_resume request (fst (project_deferred_owner_release k a r))) in
  same_identity a a' /\ execution_marker a' = execution_marker a /\ (lifecycle_ok a -> lifecycle_ok a') /\
  (mailbox_ok a -> mailbox_ok a').
Proof.
  cbv zeta. destruct (project_deferred_same k a r) as (H1 & H2 & H3 & _ & H5).
  set (a1 := fst (project_deferred_owner_release k a r)) in *. split_and!.
  - eapply identity_trans; [exact H1|]. by destruct b.
  - rewrite <- H3. by destruct b.
  - intros Hl%H5. apply (same_lifecycle_ok a1); [by destruct b|done].
  - intros Hm. apply promote_mailbox. unfold mailbox_ok in *. simpl. by rewrite H2.
Qed.

Lemma restore_released_preserves owner r (rd : D -> D * result (option OwnerResumeRequestId) text) w d :
  preserves w (fst (fst (restore_released_owner_wake owner r rd w d))).
Proof.
  unfold restore_released_owner_wake. destruct (rd d) as [d' [request|]]; [|apply preserves_refl].
  destruct (agents (tree w) !! owner) as [a|] eqn:Ha; [|apply preserves_refl].
  pose proof (owner_projection_ok (cause_of a w) a r request) as Hp. unfold reconcile_current_owner_resume_request.
  destruct (project_deferred_owner_release (cause_of a w) a r) as [a1 promotes]. cbn [fst] in Hp.
  destruct (Hp promotes) as (H1 & H2 & H3 & H4).
  match goal with |- context [schedule_unless_cancelled ?g ?x] =>
    pose proof (settle_preserves g w x) as Hsettle; destruct (schedule_unless_cancelled g x) end. apply Hsettle.
  apply (update_preserves w w owner a); try done; auto.
Qed.

Lemma scope_active w scope p a :
  validate_execution_scope_locked upgrade_marker w scope p = Ok tt -> agents (tree w) !! p = Some a ->
  execution_marker a = Some (scope_marker scope) /\ is_cancelled (control_of (run_control a) w) = false /\
  success_is_sealed (control_of (run_control a) w) = false.
Proof.
  unfold validate_execution_scope_locked. destruct (_ || _); [done|]. destruct (negb _); [done|]. intros H Ha.
  rewrite Ha in H. cbv zeta in H. destruct (owns_marker _ _) eqn:Eo; [|done]. cbn [negb orb] in H.
  destruct (is_cancelled _); [done|]. destruct (success_is_sealed _); [done|].
  by apply bool_decide_eq_true in Eo.
Qed.

Lemma mark_admitted_preserves scope turn act (rd : D -> D * result (option OwnerResumeRequestId) text) w d :
  preserves w (fst (fst (mark_execution_admitted upgrade_marker scope turn act rd w d))).
Proof.
  unfold mark_execution_admitted. destruct (rd d) as [d' [request|]]; [|apply preserves_refl].
  destruct (negb _); [apply preserves_refl|].
  destruct (validate_execution_scope_locked upgrade_marker w scope (scope_path scope)) as [[]|] eqn:Ev; [|apply preserves_refl].
  destruct (agents (tree w) !! scope_path scope) as [a|] eqn:Ha; [|apply preserves_refl]. cbv zeta.
  destruct (scope_active _ _ _ _ Ev Ha) as (Hm & _).
  match goal with |- context [schedule_unless_cancelled ?g ?x] =>
    pose proof (settle_preserves g w x) as Hsettle; destruct (schedule_unless_cancelled g x) end. apply Hsettle.
  apply (update_preserves w w (scope_path scope) a); try done; auto. intros _.
  assert (Hh : has_marker (set_owner_resume request a) = true) by (unfold has_marker; simpl; by rewrite Hm).
  pose proof (running_lifecycle (set_owner_resume request a) turn Hh) as Hr.
  eapply same_lifecycle_ok; [|exact Hr]. by repeat split.
Qed.

Lemma publish_plan_preserves scope turn rev w :
  preserves w (fst (publish_root_execution_plan upgrade_marker scope turn rev w)).
Proof.
  unfold publish_root_execution_plan. destruct (negb _); [apply preserves_refl|].
  destruct (tree_cancelled w); [apply preserves_refl|]. destruct (validate_execution_scope_locked _ _ _ _) as [[]|]; [|apply preserves_refl].
  destruct (pending_root_durable_turn (tree w)); [case_decide; apply preserves_refl|]. apply pending_root_preserves.
Qed.

Lemma mark_root_preserves scope turn rev w :
  preserves w (fst (mark_root_execution_admitted upgrade_marker scope turn rev w)).
Proof.
  unfold mark_root_execution_admitted. destruct (negb (is_root _)); [apply preserves_refl|].
  destruct (negb _); [apply preserves_refl|]. destruct (tree_cancelled w); [apply preserves_refl|].
  destruct (validate_execution_scope_locked upgrade_marker w scope (scope_path scope)) as [[]|] eqn:Ev; [|apply preserves_refl].
  case_decide; [apply preserves_refl|].
  destruct (agents (tree w) !! scope_path scope) as [a|] eqn:Ha; [|apply preserves_refl]. cbv zeta.
  destruct (scope_active _ _ _ _ Ev Ha) as (Hm & _).
  match goal with |- context [schedule_unless_cancelled ?g ?x] =>
    pose proof (settle_preserves g w x) as Hsettle; destruct (schedule_unless_cancelled g x) end. apply Hsettle.
  set (w1 := set_tree (set_pending_root None (tree w)) w).
  eapply (preserves_trans w w1); [apply pending_root_preserves|].
  apply (update_preserves w1 w1 (scope_path scope) a); try done; auto. intros _. apply running_lifecycle.
  unfold has_marker. by rewrite Hm.
Qed.

Lemma delivery_preserves scope (commit : D -> D * result AgentMailboxDeliveryCommit text) w d :
  preserves w (fst (fst (commit_pending_mailbox_delivery upgrade_marker scope commit w d))).
Proof.
  unfold commit_pending_mailbox_delivery. destruct (validate_execution_scope_locked _ _ _ _) as [[]|]; [|apply preserves_refl].
  destruct (commit d) as [d' [c|]]; [|apply preserves_refl]. destruct (negb _); [apply preserves_refl|].
  destruct (agents (tree w) !! scope_path scope) as [a|] eqn:Ha; [|apply preserves_refl]. cbv zeta.
  match goal with |- context [keep_notices ?f a] => destruct (keep_same f a) as [H1 H2]; set (a' := keep_notices f a) in *;
    assert (Hm : mailbox_ok a -> mailbox_ok a') by apply keep_mailbox end.
  assert (H : preserves w (set_tree (update_agent (scope_path scope) a' (tree w)) w)).
  { apply (update_preserves w w (scope_path scope) a); try done; [by apply same_lifecycle_ok|left; by destruct H1 as (_ & ? & _)]. }
  cbn [fst]. destruct (is_empty _); [exact H|by apply preserves_notify].
Qed.

Lemma finish_terminal_commit_preserves {T} lease act session (c : PendingTriggerTerminalCommit T) w :
  preserves w (fst (finish_pending_trigger_terminal lease act session c w)).
Proof.
  unfold finish_pending_trigger_terminal. cbv zeta.
  assert (Hdone : forall wake (r : result (PendingTriggerTerminalCommit T) AgentControlError) a,
    agents (tree w) !! lease_path lease = Some a ->
    preserves w (fst (let '(w', _) := supersede (run_control a) w in
      (notify_activity (set_tree (update_agent (lease_path lease) (consume_wake wake a) (tree w')) w'), r)))).
  { intros wake r a Ha. pose proof (supersede_same_tree (run_control a) w) as Hs.
    destruct (supersede (run_control a) w) as [w1 b]. cbn [fst] in *. apply preserves_notify.
    destruct (consume_same wake a) as [H1 H2]. apply (update_preserves w w1 (lease_path lease) a); try done.
    - by apply same_lifecycle_ok.
    - apply consume_mailbox.
    - left. by destruct H1 as (_ & ? & _). }
  destruct c as [x|turn|]; [..|apply preserves_refl]; (destruct (wake_cause lease) as [wake|]; [|apply preserves_refl]).
  - destruct (agents (tree w) !! lease_path lease) as [a|] eqn:Ha; [|apply preserves_refl].
    case_decide; [apply preserves_refl|]. destruct (negb _); [apply preserves_refl|]. by apply Hdone.
  - clear Hdone. destruct (agents (tree w) !! lease_path lease) as [a|] eqn:Ha; [|apply preserves_refl].
    case_decide; [apply preserves_refl|]. destruct (negb _); [apply preserves_refl|].
    destruct wake as [item|]; [|apply preserves_refl]. destruct (negb _); [apply preserves_refl|].
    pose proof (supersede_same_tree (run_control a) w) as Hs. destruct (supersede (run_control a) w) as [w1 b]. cbn [fst] in Hs.
    unfold new_control. cbv beta iota zeta. cbn [fst]. apply preserves_notify.
    match goal with |- preserves w (set_tree (update_agent _ ?x (tree ?y)) ?y) => set (a' := x); set (w2 := y) end.
    apply (update_preserves w w2 (lease_path lease) a); try done; [| |by right].
    + intros _. apply idle_lifecycle; [done|split; [by eexists|done]].
    + intros [H1 H2]. split; simpl; [by rewrite length_map|by rewrite set_ready_ids].
Qed.

Lemma lease_drop_preserves l w : preserves w (lease_drop l w).
Proof. apply release_preserves. Qed.

Lemma then_drop l w w' : preserves w w' -> preserves w (lease_drop l w').
Proof. intros H. eapply preserves_trans; [exact H|apply lease_drop_preserves]. Qed.

Lemma retire_preserves lease act w : preserves w (fst (retire_resolved_wake_execution lease act w)).
Proof.
  unfold retire_resolved_wake_execution. cbv zeta. destruct (is_root _); [apply lease_drop_preserves|].
  destruct (wake_cause lease) as [wake|]; [|apply lease_drop_preserves].
  destruct (agents (tree w) !! lease_path lease) as [a|] eqn:Ha; [|apply lease_drop_preserves].
  destruct (negb _); [apply lease_drop_preserves|].
  pose proof (supersede_same_tree (run_control a) w) as Hs. destruct (supersede (run_control a) w) as [w1 b]. cbn [fst] in Hs.
  match goal with |- context [schedule_unless_cancelled ?g ?x] =>
    pose proof (settle_preserves g w x) as Hsettle; destruct (schedule_unless_cancelled g x) end.
  cbn [fst] in *. apply then_drop, Hsettle. destruct (consume_same wake a) as [H1 H2].
  apply (update_preserves w w1 (lease_path lease) a); try done; [| |by right].
  - intros _. apply idle_lifecycle; [done|split; [done|by intros []]].
  - intros Hm. apply (consume_mailbox wake) in Hm. exact Hm.
Qed.

Lemma release_unsettled_preserves lease act w : preserves w (fst (release_unsettled_trigger_execution lease act w)).
Proof.
  unfold release_unsettled_trigger_execution. cbv zeta. destruct (is_root _); [apply lease_drop_preserves|].
  destruct (agents (tree w) !! lease_path lease) as [a|] eqn:Ha; [|apply lease_drop_preserves].
  destruct (negb _); [apply lease_drop_preserves|].
  pose proof (supersede_same_tree (run_control a) w) as Hs. destruct (supersede (run_control a) w) as [w1 b]. cbn [fst] in *.
  apply then_drop, preserves_notify. apply (update_preserves w w1 (lease_path lease) a); try done; [|by right].
  intros _. apply idle_lifecycle; [done|split; [done|by intros []]].
Qed.

Lemma of_inactive_not_running st : of_inactive st <> Running.
Proof. by destruct st. Qed.

Lemma complete_preserves lease st act w : preserves w (fst (complete_execution lease st act w)).
Proof.
  unfold complete_execution. cbv zeta.
  destruct (agents (tree w) !! lease_path lease) as [a|] eqn:Ha; [|apply lease_drop_preserves].
  destruct (negb _); [apply lease_drop_preserves|].
  match goal with |- context [match ?x with Some _ => _ | None => _ end] => destruct x as [[promotes awaiting]|] eqn:Eo end;
    [|apply lease_drop_preserves].
  assert (Haw : of_inactive st = AwaitingDescendants <-> is_Some awaiting).
  { destruct st; simpl in Eo; try (injection Eo as <- <-; simpl; split; [done|by intros []]).
    case_decide; [done|]. injection Eo as <- <-. split; [by eexists|done]. }
  match goal with |- context [schedule_unless_cancelled ?g ?x] =>
    pose proof (settle_preserves g w x) as Hsettle; destruct (schedule_unless_cancelled g x) end.
  cbn [fst] in *. apply then_drop, Hsettle.
  assert (H : preserves w (set_tree (update_agent (lease_path lease) (idle (of_inactive st) act awaiting (promote_if promotes a)) (tree w)) w)).
  { apply (update_preserves w w (lease_path lease) a); try done; [by destruct promotes| | |by right].
    - intros _. apply idle_lifecycle; [apply of_inactive_not_running|done].
    - intros Hm. apply (promote_mailbox promotes) in Hm. exact Hm. }
  destruct (is_root _); [|exact H]. eapply preserves_trans; [exact H|].
  match goal with |- preserves ?x _ => apply (pending_root_preserves x) end.
Qed.

Lemma rollback_preserves lease session w : preserves w (fst (rollback_child_registration lease session w)).
Proof.
  unfold rollback_child_registration. cbv zeta. destruct (is_root (lease_path lease)) eqn:Er; [apply preserves_refl|].
  destruct (agents (tree w) !! lease_path lease) as [a|]; [|apply preserves_refl]. destruct (_ || _); [apply preserves_refl|].
  match goal with |- context [supersede _ ?x] => set (w1 := x) end.
  pose proof (supersede_same_tree (run_control a) w1) as Hs. destruct (supersede (run_control a) w1) as [w2 b]. cbn [fst] in *.
  apply preserves_notify. eapply preserves_trans; [|by apply same_tree_preserves].
  split; [done|]. split; [done|]. intros Hwf. cbn. apply delete_wf; [done|]. by apply text_eqb_neq.
Qed.

Lemma interrupt_preserves caller target (commit : D -> D * result unit text) w d :
  preserves w (fst (fst (commit_and_interrupt_captured upgrade_marker caller target commit w d))).
Proof.
  unfold commit_and_interrupt_captured. cbv zeta. destruct (validate_execution_scope_locked _ _ _ _) as [[]|]; [|apply preserves_refl].
  destruct (agents (tree w) !! target_path target) as [a|] eqn:Ha; [|apply preserves_refl].
  destruct (_ || _); [apply preserves_refl|]. destruct (target_marker target) as [m|].
  - destruct (commit_cancel_local _ _ _ _) as [[s d'] [o|e]]; [|by apply same_tree_preserves].
    destruct (negb _); [by apply same_tree_preserves|]. by apply cancelled_update_preserves.
  - destruct (commit d) as [d' [u|]]; apply preserves_refl.
Qed.

(** A notice that is pushed when there is room and it is not there yet. *)
Lemma maybe_push_ok item t rdy a :
  let a' := if negb (has_notice item a) && (length (mailbox a) <? MAX_AGENT_MAILBOX_NOTICES)
            then push_notice item t rdy a else a in
  same_lifecycle a a' /\ same_identity a a' /\ (mailbox_ok a -> mailbox_ok a').
Proof.
  cbv zeta. destruct (has_notice item a) eqn:Hn; [by split_and!|]. cbn [negb andb].
  destruct (Nat.ltb_spec (length (mailbox a)) MAX_AGENT_MAILBOX_NOTICES); [|by split_and!].
  split; [by repeat split|]. split; [done|]. intros Hm. by apply push_mailbox.
Qed.

Lemma parent_wake_entry k b r request item :
  let b1 := fst (project_deferred_owner_release k b r) in
  let b2 := set_owner_resume request b1 in
  let b3 := if negb (has_notice item b2) && (length (mailbox b2) <? MAX_AGENT_MAILBOX_NOTICES)
            then push_notice item false false b2 else b2 in
  forall promotes, same_identity b (promote_if promotes b3) /\
    execution_marker (promote_if promotes b3) = execution_marker b /\
    (lifecycle_ok b -> lifecycle_ok (promote_if promotes b3)) /\ (mailbox_ok b -> mailbox_ok (promote_if promotes b3)).
Proof.
  cbv zeta. intros promotes. destruct (project_deferred_same k b r) as (H1 & H2 & H3 & _ & H5).
  set (b1 := fst (project_deferred_owner_release k b r)) in *.
  destruct (maybe_push_ok item false false (set_owner_resume request b1)) as (P1 & P2 & P3).
  match type of P1 with same_lifecycle _ ?x => set (b3 := x) in * end. destruct (promote_same promotes b3) as [Q1 Q2]. split_and!.
  - eapply identity_trans; [exact H1|]. eapply identity_trans; [exact P2|exact Q2].
  - destruct Q1 as (_ & -> & _). destruct P1 as (_ & -> & _). exact H3.
  - intros Hl%H5. eapply same_lifecycle_ok; [exact Q1|]. eapply same_lifecycle_ok; [exact P1|].
    by apply (same_lifecycle_ok b1).
  - intros Hm. apply promote_mailbox, P3. unfold mailbox_ok in *. simpl. by rewrite H2.
Qed.

Lemma parent_wake_preserves parent ps item r request w :
  preserves w (project_parent_wake parent ps item r request w).
Proof.
  unfold project_parent_wake. destruct (parent_warning _ _ _); [apply preserves_refl|].
  destruct (agents (tree w) !! parent) as [b|] eqn:Hb; [|apply preserves_refl].
  pose proof (parent_wake_entry (cause_of b w) b r request item) as H. unfold reconcile_current_owner_resume_request.
  destruct (project_deferred_owner_release (cause_of b w) b r) as [b1 promotes]. cbv zeta in H. cbn [fst] in H.
  destruct (H promotes) as (H1 & H2 & H3 & H4). apply (update_preserves w w parent b); try done. by left.
Qed.

Lemma parent_wake_marker parent ps item r request w p a b :
  agents (tree w) !! p = Some a -> agents (tree (project_parent_wake parent ps item r request w)) !! p = Some b ->
  execution_marker b = execution_marker a.
Proof.
  unfold project_parent_wake. intros Ha. destruct (parent_warning _ _ _); [rewrite Ha; by intros [= ->]|].
  destruct (agents (tree w) !! parent) as [b0|] eqn:Hb; [|rewrite Ha; by intros [= ->]].
  pose proof (parent_wake_entry (cause_of b0 w) b0 r request item) as H. unfold reconcile_current_owner_resume_request.
  destruct (project_deferred_owner_release (cause_of b0 w) b0 r) as [b1 promotes]. cbv zeta in H. cbn [fst] in H.
  destruct (H promotes) as (_ & H2 & _). unfold update_agent. cbn [tree set_tree agents set_agents]. destruct (decide (parent = p)) as [->|].
  - rewrite lookup_insert_eq. intros E%(inj Some). rewrite <- E. etransitivity; [exact H2|congruence].
  - rewrite lookup_insert_ne, Ha by done. by intros [= ->].
Qed.

Lemma project_released_preserves dp ds dt pp ps st act item r (rd : D -> D * result (option OwnerResumeRequestId) text) w d :
  preserves w (fst (fst (project_released_deferred_completion dp ds dt pp ps st act item r rd w d))).
Proof.
  unfold project_released_deferred_completion. destruct (is_released_status st) eqn:Est; [|apply preserves_refl]. cbn [negb].
  destruct (rd d) as [d' [request|]]; [|apply preserves_refl]. destruct (tree_cancelled w); [apply preserves_refl|].
  destruct (agents (tree w) !! dp) as [a|] eqn:Ha; [|apply preserves_refl].
  destruct (_ || _); [apply preserves_refl|].
  destruct (has_marker a) eqn:Hm; [apply preserves_refl|]. cbn [orb]. destruct (_ || _); [apply preserves_refl|]. cbv zeta.
  pose proof (parent_wake_preserves pp ps item r request w) as Hp.
  pose proof (parent_wake_marker pp ps item r request w dp) as Hmk.
  set (w1 := project_parent_wake pp ps item r request w) in *.
  destruct (agents (tree w1) !! dp) as [b|] eqn:Hb; [|exact Hp].
  assert (Hbm : has_marker b = false) by (unfold has_marker in *; rewrite (Hmk a b Ha eq_refl); done).
  set (st' := of_inactive st). set (act' := with_warning _ _).
  assert (H : preserves w (set_tree (update_agent dp (settle_released st' act' b) (tree w1)) w1)).
  { eapply preserves_trans; [exact Hp|]. apply (update_preserves w1 w1 dp b); try done; [|apply ready_mailbox|by left].
    intros _. unfold has_marker in Hbm. constructor; unfold has_marker; simpl; try done.
    - intros E. by rewrite E in Hbm.
    - intros _. apply of_inactive_not_running.
    - subst st'. split; [by destruct st|by intros []]. }
  match goal with |- context [reserve_pending_triggered_executions_locked ?x] =>
    pose proof (reserve_preserves x) as Hr; destruct (reserve_pending_triggered_executions_locked x) end.
  apply preserves_notify. eapply preserves_trans; [exact H|exact Hr].
Qed.

(** The two halves of a mail delivery move the reservation. *)
Lemma begin_mail_wf author recipient trigger released handoff scope w w' token :
  begin_mail upgrade_marker author recipient trigger released handoff scope w = (w', Ok token) ->
  next_marker w' = next_marker w /\
  pending_capacity_reservations (tree w') =
    pending_capacity_reservations (tree w) + (if capacity_reserved token then 1 else 0) /\
  (tree_wf (next_marker w) (tree w) -> tree_wf (next_marker w') (tree w')).
Proof.
  unfold begin_mail. destruct (match scope with Some _ => _ | None => _ end) as [u|e0]; [|done].
  destruct (_ && _); [done|]. destruct (negb _); [done|]. destruct (agents (tree w) !! recipient) as [a|]; [|done].
  destruct (_ && _); [done|]. destruct (_ && _); [done|]. destruct (_ && _); [done|]. cbv zeta.
  intros [= <- <-]. cbn [capacity_reserved]. split; [done|].
  destruct (trigger && negb (has_marker a)) eqn:Er; cbn [negb andb orb].
  - destruct (Nat.ltb_spec (active_agent_count (tree w)) (descendant_capacity (tree w))) as [Hlt|].
    + split; [simpl; lia|]. intros [H1 H2 H3 H4 H5 H6 H7 H8]. by constructor.
    + split; [simpl; lia|done].
  - split; [simpl; lia|done].
Qed.

Lemma begin_mail_limit author recipient trigger released handoff scope w w' token :
  begin_mail upgrade_marker author recipient trigger released handoff scope w = (w', Ok token) ->
  max_concurrent_agents (tree w') = max_concurrent_agents (tree w).
Proof.
  unfold begin_mail. destruct (match scope with Some _ => _ | None => _ end) as [u|e0]; [|done].
  destruct (_ && _); [done|]. destruct (negb _); [done|]. destruct (agents (tree w) !! recipient) as [a|]; [|done].
  destruct (_ && _); [done|]. destruct (_ && _); [done|]. destruct (_ && _); [done|]. cbv zeta.
  intros [= <- <-]. cbn [tree set_tree]. by destruct (_ && _).
Qed.

Lemma begin_mail_err author recipient trigger released handoff scope w w' e :
  begin_mail upgrade_marker author recipient trigger released handoff scope w = (w', Err e) -> w' = w.
Proof.
  unfold begin_mail. intros H. destruct (match scope with Some _ => _ | None => _ end) as [u|e0]; [|by injection H].
  destruct (_ && _); [by injection H|]. destruct (negb _); [by injection H|].
  destruct (agents (tree w) !! recipient) as [a|]; [|by injection H].
  repeat (destruct (_ && _); [by injection H|]). done.
Qed.
End Durable.

Lemma give_back_wf token w :
  next_marker (give_back token w) = next_marker w /\
  pending_capacity_reservations (tree (give_back token w)) =
    pending_capacity_reservations (tree w) - (if capacity_reserved token then 1 else 0) /\
  max_concurrent_agents (tree (give_back token w)) = max_concurrent_agents (tree w) /\
  (tree_wf (next_marker w) (tree w) -> tree_wf (next_marker (give_back token w)) (tree (give_back token w))).
Proof.
  unfold give_back. destruct (capacity_reserved token); [|split_and!; [done|lia|done..]].
  split_and!; try done. intros Hwf. apply (other_fields_wf _ (tree w)); done || (simpl; lia).
Qed.

Lemma finish_mail_preserves token c w : preserves (give_back token w) (fst (finish_mail token c w)).
Proof.
  unfold finish_mail. cbv zeta. set (w1 := give_back token w). clearbody w1.
  destruct (agents (tree w1) !! mail_recipient token) as [a|] eqn:Ha; [|by apply same_tree_preserves].
  case_decide; [by apply same_tree_preserves|].
  match goal with |- context [let '(_, _) := ?x in _] => destruct x as [a1 promotes] eqn:E1 end.
  assert (H1 : same_identity a a1 /\ mailbox a1 = mailbox a /\ execution_marker a1 = execution_marker a /\
    (lifecycle_ok a -> lifecycle_ok a1)).
  { destruct (mail_completion_handoff token); [|injection E1 as <- <-; by split_and!].
    pose proof (project_deferred_same (cause_of a w1) a (mail_released token)) as (P1 & P2 & P3 & _ & P5).
    rewrite E1 in *. by split_and!. }
  destruct (maybe_push_ok (mail_item c) (mail_trigger token) (schedule_turn c) a1) as (P1 & P2 & P3).
  set (a2 := if negb (has_notice (mail_item c) a1) && _ then _ else _) in *.
  destruct (promote_same promotes a2) as [Q1 Q2].
  match goal with |- context [let '(_, _) := ?x in _] => destruct x as [a3 sched] eqn:E3 end.
  assert (H3 : same_lifecycle (promote_if promotes a2) a3 /\ same_identity (promote_if promotes a2) a3 /\
    mailbox a3 = mailbox (promote_if promotes a2)).
  { destruct (mail_completion_handoff token); unfold reconcile_current_owner_resume_request, project_owner_resume_request in E3;
      repeat case_match; simplify_eq; by repeat split. }
  destruct H1 as (I1 & B1 & X1 & L1), H3 as (L3 & I3 & B3).
  match goal with |- context [schedule_unless_cancelled ?g ?x] =>
    pose proof (settle_preserves g w1 x) as Hsettle; destruct (schedule_unless_cancelled g x) end.
  apply Hsettle. apply (update_preserves w1 w1 (mail_recipient token) a); try done.
  - eapply identity_trans; [exact I1|]. eapply identity_trans; [exact P2|]. eapply identity_trans; [exact Q2|exact I3].
  - intros Hl%L1. eapply same_lifecycle_ok; [exact L3|]. eapply same_lifecycle_ok; [exact Q1|]. by eapply same_lifecycle_ok.
  - intros Hm. unfold mailbox_ok. rewrite B3. apply promote_mailbox, P3. unfold mailbox_ok in *. by rewrite B1.
  - left. destruct L3 as (_ & -> & _), Q1 as (_ & -> & _), P1 as (_ & -> & _). done.
Qed.

(** Every method at once. *)
Create HintDb agent_tree.
#[export] Hint Resolve register_preserves commit_spawn_preserves restore_inactive_preserves acquire_preserves
  acquire_root_preserves continuation_preserves restore_pending_mail_preserves restore_pending_owner_resume_preserves
  publish_plan_preserves mark_root_preserves cancel_root_preserves route_preserves interrupt_preserves drain_preserves
  with_status_preserves set_activity_preserves status_activity_preserves release_preserves : agent_tree.
#[export] Hint Resolve restore_current_preserves restore_released_preserves mark_admitted_preserves delivery_preserves
  retire_preserves release_unsettled_preserves complete_preserves project_released_preserves rollback_preserves
  finish_terminal_commit_preserves finish_terminal_preserves : agent_tree.
