(* ===== verification/AgentSystem.v ===== *)
(** * The agent tree under interleaving

    The methods of [AgentControl] as the steps of one system.  The lock of the tree makes each
    critical section one step.  A mail delivery holds the delivery fence over its durable commit,
    so steps that need no fence come in between and fenced ones do not; a durable terminal of an
    agent releases the tree between its two sections and carries a token.  Workers act on run
    controls at any time, and durable closures, upgrades of weak markers and arguments are
    arbitrary. *)
From S2P Require Import Prelude.
From S2P Require Import TurnOutcome.
From S2P Require Import Text.
From S2P Require Import AgentPath.
From S2P Require Import RunControl.
From S2P Require Import RunOwners.
From S2P Require Import AgentTree.
From S2P Require Import AgentOps.
From S2P Require Import AgentMail.
From S2P Require Import AgentTreeFacts.
From S2P Require Import AgentSteps.

(** What the holder of the delivery fence is doing. *)
Inductive Fence :=
  | Free
  | Delivering (token : MailToken)
  | Terminating (lease : AgentExecutionLease) (session : SessionId).

Record AgentSystem := { world : AgentWorld; fence : Fence; purges : list TerminalToken }.

Section System.
(** The durable store of the tree and the payload of its commits. *)
Context {D T : Type}.

(** Critical sections that take the lock of the tree only. *)
Inductive lock_step (w : AgentWorld) : AgentWorld -> Prop :=
  | l_workers h : lock_step w (set_heap h w)
  | l_register parent name s act order : lock_step w (fst (register_child_with_order parent name s act order w))
  | l_commit_spawn up caller parent name s act (commit : D -> D * result (T * N) text) d :
      lock_step w (fst (fst (commit_spawn up caller parent name s act commit w d)))
  | l_restore_child parent name s st act order :
      lock_step w (fst (restore_inactive_child_with_order parent name s st act order w))
  | l_acquire p : lock_step w (fst (try_acquire_execution p w))
  | l_acquire_root c : lock_step w (fst (try_acquire_root_execution c w))
  | l_continue_root c : lock_step w (fst (try_acquire_root_continuation c w))
  | l_restore_mail p item ready : lock_step w (fst (restore_pending_mail p item ready w))
  | l_restore_resume p request : lock_step w (fst (restore_pending_owner_resume p request w))
  | l_publish_plan up scope turn revision : lock_step w (fst (publish_root_execution_plan up scope turn revision w))
  | l_mark_root up scope turn revision : lock_step w (fst (mark_root_execution_admitted up scope turn revision w))
  | l_stop_root c cause settled : lock_step w (fst (cancel_root_execution_at_scope_control c cause settled w))
  | l_route c kind cause : lock_step w (fst (route_terminal_outcome c kind cause w))
  | l_interrupt up caller target (commit : D -> D * result unit text) d :
      lock_step w (fst (fst (commit_and_interrupt_captured up caller target commit w d)))
  | l_drain p : lock_step w (fst (drain_mailbox p w))
  | l_status p m st : lock_step w (fst (mutate_execution p m (with_status st) w))
  | l_activity p m act : lock_step w (fst (mutate_execution p m (set_last_activity act) w))
  | l_status_activity p m st act :
      lock_step w (fst (mutate_execution p m (fun a => set_last_activity act (with_status st a)) w))
  | l_release p m : lock_step w (release_execution p m w).

(** Methods that hold the delivery fence and nothing can come in between. *)
Inductive fenced_step (w : AgentWorld) : AgentWorld -> Prop :=
  | f_restore_current owner (rd : D -> D * result (option OwnerResumeRequestId) text) d :
      fenced_step w (fst (fst (restore_current_owner_resume owner rd w d)))
  | f_restore_released owner released (rd : D -> D * result (option OwnerResumeRequestId) text) d :
      fenced_step w (fst (fst (restore_released_owner_wake owner released rd w d)))
  | f_mark_admitted up scope turn act (rd : D -> D * result (option OwnerResumeRequestId) text) d :
      fenced_step w (fst (fst (mark_execution_admitted up scope turn act rd w d)))
  | f_deliver up scope (commit : D -> D * result AgentMailboxDeliveryCommit text) d :
      fenced_step w (fst (fst (commit_pending_mailbox_delivery up scope commit w d)))
  | f_retire lease act : fenced_step w (fst (retire_resolved_wake_execution lease act w))
  | f_release_unsettled lease act : fenced_step w (fst (release_unsettled_trigger_execution lease act w))
  | f_complete lease st act : fenced_step w (fst (complete_execution lease st act w))
  | f_released dp ds dt pp ps st act item r (rd : D -> D * result (option OwnerResumeRequestId) text) d :
      fenced_step w (fst (fst (project_released_deferred_completion dp ds dt pp ps st act item r rd w d)))
  | f_rollback lease s : fenced_step w (fst (rollback_child_registration lease s w)).

Inductive step : AgentSystem -> AgentSystem -> Prop :=
  | s_lock w w' f ts : lock_step w w' ->
      step {| world := w; fence := f; purges := ts |} {| world := w'; fence := f; purges := ts |}
  | s_fenced w w' ts : fenced_step w w' ->
      step {| world := w; fence := Free; purges := ts |} {| world := w'; fence := Free; purges := ts |}
  | s_begin_mail up author p trigger released handoff scope w w' token ts :
      begin_mail up author p trigger released handoff scope w = (w', Ok token) ->
      step {| world := w; fence := Free; purges := ts |} {| world := w'; fence := Delivering token; purges := ts |}
  | s_fail_mail w token ts :
      step {| world := w; fence := Delivering token; purges := ts |} {| world := give_back token w; fence := Free; purges := ts |}
  | s_finish_mail c w token ts :
      step {| world := w; fence := Delivering token; purges := ts |}
           {| world := fst (finish_mail token c w); fence := Free; purges := ts |}
  | s_begin_terminal lease w s ts :
      begin_pending_trigger_terminal lease w = Ok s ->
      step {| world := w; fence := Free; purges := ts |} {| world := w; fence := Terminating lease s; purges := ts |}
  | s_fail_terminal w lease s ts :
      step {| world := w; fence := Terminating lease s; purges := ts |} {| world := w; fence := Free; purges := ts |}
  | s_finish_terminal act (c : PendingTriggerTerminalCommit T) w lease s ts :
      step {| world := w; fence := Terminating lease s; purges := ts |}
           {| world := fst (finish_pending_trigger_terminal lease act s c w); fence := Free; purges := ts |}
  | s_begin_purge p w w' token f ts :
      begin_durable_terminal p w = (w', Ok token) ->
      step {| world := w; fence := f; purges := ts |} {| world := w'; fence := f; purges := token :: ts |}
  | s_finish_purge w token ts ts' ts'' : ts = ts' ++ token :: ts'' ->
      step {| world := w; fence := Free; purges := ts |}
           {| world := finish_durable_terminal token w; fence := Free; purges := ts' ++ ts'' |}.

Definition initial (w : AgentWorld) : Prop :=
  exists root max scope h c m id lease, with_root_control root max scope h c m id = Ok (w, lease).

Inductive reachable : AgentSystem -> Prop :=
  | reach_init w : initial w -> reachable {| world := w; fence := Free; purges := [] |}
  | reach_step s s' : reachable s -> step s s' -> reachable s'.
End System.

(** ** The invariant *)

Definition reserved_in_flight (f : Fence) : nat :=
  match f with Delivering token => if capacity_reserved token then 1 else 0 | _ => 0 end.

Record system_ok (s : AgentSystem) : Prop := {
  ok_tree : tree_wf (next_marker (world s)) (tree (world s));
  ok_reserved : pending_capacity_reservations (tree (world s)) = reserved_in_flight (fence s);
  ok_limit : 1 <= max_concurrent_agents (tree (world s)) <= MAX_RETAINED_AGENTS
}.

Lemma with_root_tree root max scope h c m id w lease :
  with_root_control root max scope h c m id = Ok (w, lease) ->
  1 <= max <= MAX_RETAINED_AGENTS /\ next_marker w = (m + 1)%N /\
  tree w = {| max_concurrent_agents := max; next_spawn_order := 1; pending_capacity_reservations := 0;
              root_scope_control := scope; pending_root_durable_turn := None;
              agents := {[ROOT := new_entry root None 0 PendingInit None (Some m) c None]} |} /\
  lease = mk_lease ROOT m c.
Proof.
  unfold with_root_control. destruct ((1 <=? max) && (max <=? MAX_RETAINED_AGENTS)) eqn:Hm; [|done].
  apply andb_true_iff in Hm as [H1%Nat.leb_le H2%Nat.leb_le]. cbn [negb]. destruct (_ || _); [done|]. cbv zeta.
  unfold new_control. cbn beta iota. match goal with |- context [install_root_terminal_router scope ?x] => set (w2 := x) end.
  pose proof (install_same_tree scope w2) as S1. destruct (install_root_terminal_router scope w2) as [w3 [[]|]]; [|done].
  pose proof (install_same_tree c w3) as S2. cbn [next_control]. destruct (install_root_terminal_router c w3) as [w4 [[]|]]; [|done].
  cbn [fst] in *. destruct S1 as [T1 N1], S2 as [T2 N2]. cbn beta iota. destruct (is_cancelled _); [done|].
  unfold new_arc. cbn beta iota. intros [= <- <-]. cbn [tree next_marker set_tree]. rewrite T2, T1, N2, N1.
  split; [done|]. split; [done|]. split; [|done]. unfold w2, update_agent, set_agents. cbn. by rewrite !insert_insert_eq.
Qed.

Lemma root_lifecycle s m c : entry_wf (m + 1) ROOT (new_entry s None 0 PendingInit None (Some m) c None).
Proof.
  constructor; [constructor; simpl; try done; by left| |done|].
  - split; [apply Nat.le_0_l|constructor].
  - simpl. intros m' [= <-]. lia.
Qed.

Lemma with_root_wf root max scope h c m id w lease :
  with_root_control root max scope h c m id = Ok (w, lease) ->
  tree_wf (next_marker w) (tree w) /\ pending_capacity_reservations (tree w) = 0.
Proof.
  intros H. apply with_root_tree in H as ([H1 H2] & -> & -> & _). split; [|done].
  assert (Hlk : forall p a, ({[ROOT := new_entry root None 0 PendingInit None (Some m) c None]} : gmap AgentPath AgentEntry) !! p = Some a ->
    p = ROOT /\ a = new_entry root None 0 PendingInit None (Some m) c None).
  { intros p a. by intros [<- <-]%lookup_singleton_Some. }
  constructor; cbn [agents].
  - rewrite lookup_singleton_eq. by eexists.
  - intros p a [-> ->]%Hlk. apply root_lifecycle.
  - intros p a [-> ->]%Hlk. simpl. lia.
  - by intros p q a b [-> ->]%Hlk [-> ->]%Hlk.
  - by intros p q a b [-> ->]%Hlk [-> ->]%Hlk.
  - by intros p q a b m' [-> ->]%Hlk [-> ->]%Hlk.
  - rewrite map_size_singleton. unfold MAX_RETAINED_AGENTS. lia.
  - unfold active_agent_count. replace (active_paths _) with (∅ : gset AgentPath); [rewrite size_empty; simpl; lia|].
    symmetry. apply elem_of_equiv_empty_L. intros q Hq. apply active_paths_elem in Hq as (b & Hb & Hc).
    apply Hlk in Hb as [-> ->]. unfold counted, is_root in Hc. by rewrite text_eqb_refl in Hc.
Qed.

Section Steps.
Context {D T : Type}.

Lemma lock_step_preserves w w' : @lock_step D T w w' -> preserves w w'.
Proof. destruct 1; [by apply same_tree_preserves|auto with agent_tree..]. Qed.

Lemma fenced_step_preserves w w' : @fenced_step D w w' -> preserves w w'.
Proof. destruct 1; auto with agent_tree. Qed.

Lemma preserves_ok w w' f ts ts' : preserves w w' ->
  system_ok {| world := w; fence := f; purges := ts |} -> system_ok {| world := w'; fence := f; purges := ts' |}.
Proof. intros (H1 & H2 & H3) [H4 H5 H6]. simpl in *. constructor; simpl; [auto|congruence|by rewrite H1]. Qed.

Lemma step_ok s s' : @step D T s s' -> system_ok s -> system_ok s'.
Proof.
  destruct 1; intros Hok.
  - eapply preserves_ok; [by apply lock_step_preserves|done].
  - eapply preserves_ok; [by apply fenced_step_preserves|done].
  - destruct Hok as [H1 H2 H3]. simpl in *. pose proof (begin_mail_limit _ _ _ _ _ _ _ _ _ _ H) as Hl.
    apply begin_mail_wf in H as (Hn & Hr & Hwf). constructor; simpl; [auto|lia|by rewrite Hl].
  - destruct Hok as [H1 H2 H3]. simpl in *. destruct (give_back_wf token w) as (Hn & Hr & Hl & Hwf).
    constructor; simpl; [auto| |by rewrite Hl]. rewrite Hr, H2. destruct (capacity_reserved token); lia.
  - destruct Hok as [H1 H2 H3]. simpl in *. destruct (give_back_wf token w) as (Hn & Hr & Hl & Hwf).
    destruct (finish_mail_preserves token c w) as (Hl' & Hr' & Hwf'). constructor; simpl; [auto| |by rewrite Hl', Hl].
    rewrite Hr', Hr, H2. destruct (capacity_reserved token); lia.
  - destruct Hok as [H1 H2 H3]. by constructor.
  - destruct Hok as [H1 H2 H3]. by constructor.
  - eapply (preserves_ok w _ Free ts); [apply finish_terminal_commit_preserves|]. destruct Hok as [H1 H2 H3]. by constructor.
  - eapply preserves_ok; [|done]. pose proof (begin_terminal_preserves p w) as Hp. by rewrite H in Hp.
  - eapply preserves_ok; [|done]. apply finish_terminal_preserves.
Qed.

Lemma reachable_ok s : @reachable D T s -> system_ok s.
Proof.
  induction 1 as [w (root & max & scope & h & c & m & id & lease & H)|s s' _ IH Hstep]; [|by eapply step_ok].
  pose proof (with_root_wf _ _ _ _ _ _ _ _ _ H) as [H1 H2]. constructor; [done|done|].
  apply with_root_tree in H as (Hm & _ & E & _). cbn [world]. by rewrite E.
Qed.
End Steps.

(** ** The properties *)

(** C1. Every reachable state of the agent tree is well formed, whatever the interleaving of its
    methods with deliveries in flight, durable terminals and workers: the root is there, every
    entry stands below its parent's path, sessions, spawn orders and execution markers belong to
    one agent each, the status of an entry fits its execution and its turns, mailboxes hold at
    most 128 notices and no duplicate, the registry at most 256 agents, and the counted
    reservations are the ones of the delivery in flight. *)
Theorem reachable_trees_are_well_formed {D T} s : @reachable D T s -> system_ok s.
Proof. apply reachable_ok. Qed.

(** Capacity is never exceeded: at every reachable state the descendants that run, together
    with the slot a delivery in flight holds, fit into the limit of the tree less its root. *)
Theorem running_descendants_fit_the_limit {D T} s :
  @reachable D T s ->
  size (active_paths (tree (world s))) + reserved_in_flight (fence s) <= max_concurrent_agents (tree (world s)) - 1.
Proof.
  intros [H1 H2 H3]%reachable_ok. rewrite <- H2. pose proof (wf_capacity _ _ H1) as H.
  unfold active_agent_count, descendant_capacity in H. lia.
Qed.

(** A tree of two agents: the child's first execution has ended and a trigger for it is in
    flight, so its slot is held. *)
Definition demo_lease : AgentExecutionLease := mk_lease (lit "/root/a") 1 2.
Definition demo_start : AgentWorld :=
  match with_root_control 7 2 0 ∅ 1 0 0 with
  | Ok (w, _) => w
  | Err _ => {| heap := ∅; next_control := 0; next_marker := 0; tree_id := 0; activity := 0;
                tree := {| max_concurrent_agents := 0; next_spawn_order := 0; pending_capacity_reservations := 0;
                           root_scope_control := 0; pending_root_durable_turn := None; agents := ∅ |} |}
  end.
Definition demo_child : AgentWorld := fst (register_child_with_order ROOT (lit "a") 8 None None demo_start).
Definition demo_idle : AgentWorld := release_execution (lit "/root/a") 1 demo_child.
Definition demo_token : MailToken :=
  {| mail_recipient := lit "/root/a"; mail_trigger := true; mail_released := None; mail_completion_handoff := false;
     mail_session := 8; capacity_granted := true; capacity_reserved := true; committed_generation := 1 |}.
Definition demo_mail : AgentWorld := fst (begin_mail (fun _ => true) ROOT (lit "/root/a") true None false None demo_idle).

Lemma demo_child_reachable : @reachable unit unit {| world := demo_child; fence := Free; purges := [] |}.
Proof.
  eapply reach_step; [apply (reach_init demo_start)|].
  - exists 7%N, 2, 0%N, ∅, 1%N, 0%N, 0%N, (mk_lease ROOT 0 1). vm_compute. reflexivity.
  - apply s_lock. apply (l_register demo_start ROOT (lit "a") 8 None None).
Qed.

Lemma demo_reachable :
  @reachable unit unit {| world := demo_mail; fence := Delivering demo_token; purges := [] |}.
Proof.
  eapply reach_step; [eapply reach_step; [apply demo_child_reachable|]|].
  - apply s_lock. apply (l_release _ (lit "/root/a") 1).
  - apply (s_begin_mail (fun _ => true) ROOT (lit "/root/a") true None false None). vm_compute. reflexivity.
Qed.

Lemma reachable_trees_are_well_formed_witness :
  system_ok {| world := demo_mail; fence := Delivering demo_token; purges := [] |} /\
  size (agents (tree demo_mail)) = 2 /\ pending_capacity_reservations (tree demo_mail) = 1.
Proof.
  split; [apply (reachable_trees_are_well_formed (D:=unit) (T:=unit)), demo_reachable|]. by vm_compute.
Defined.

Lemma running_descendants_fit_the_limit_witness :
  size (active_paths (tree demo_mail)) + reserved_in_flight (Delivering demo_token) <=
    max_concurrent_agents (tree demo_mail) - 1 /\ max_concurrent_agents (tree demo_mail) = 2.
Proof.
  split; [|vm_compute; reflexivity].
  exact (running_descendants_fit_the_limit (D:=unit) (T:=unit)
           {| world := demo_mail; fence := Delivering demo_token; purges := [] |} demo_reachable).
Defined.
