(* ===== verification/AgentFacts.v ===== *)
(** * What the methods of the agent tree do *)
From Stdlib Require Import Sorted.
From S2P Require Import Prelude.
From S2P Require Import TurnOutcome.
From S2P Require Import Text.
From S2P Require Import AgentPath.
From S2P Require Import RunControl.
From S2P Require Import RunOwners.
From S2P Require Import AgentTree.
From S2P Require Import AgentOps.
From S2P Require Import AgentMail.
From S2P Require Import AgentTreeFacts.
From S2P Require Import AgentSteps.
From S2P Require Import AgentSystem.

(** ** Scheduling *)

(** The leases of a scheduling pass and the registry after it, for the agents it starts. *)
Fixpoint scheduled_leases (ag : gmap AgentPath AgentEntry) (paths : list AgentPath) (m : Marker) (c : ControlId)
    : list AgentExecutionLease :=
  match paths with
  | [] => []
  | p :: ps =>
    {| lease_path := p; lease_marker := m; lease_control := c; wake_cause := ag !! p ≫= pending_execution_wake_cause |}
    :: scheduled_leases ag ps (m + 1) (c + 1)
  end.

Fixpoint started_agents (ag : gmap AgentPath AgentEntry) (paths : list AgentPath) (m : Marker) (c : ControlId)
    : gmap AgentPath AgentEntry :=
  match paths with
  | [] => ag
  | p :: ps => started_agents (alter (start_execution m c) p ag) ps (m + 1) (c + 1)
  end.

Definition by_spawn_order (t : AgentTreeState) (p q : AgentPath) : Prop :=
  exists a b, agents t !! p = Some a /\ agents t !! q = Some b /\ (spawn_order a <= spawn_order b)%N.

Definition free_slots (t : AgentTreeState) : nat := descendant_capacity t - active_agent_count t.

(** Starting an inactive agent takes one slot. *)
Lemma active_paths_start t p a m c :
  agents t !! p = Some a -> has_marker a = false -> is_root p = false ->
  active_agent_count (update_agent p (start_execution m c a) t) = S (active_agent_count t).
Proof.
  intros Ha Hm Hr. unfold active_agent_count.
  assert (E : active_paths (update_agent p (start_execution m c a) t) = {[p]} ∪ active_paths t).
  { apply set_eq. intros q. rewrite elem_of_union, elem_of_singleton, !active_paths_elem. unfold update_agent. simpl.
    destruct (decide (p = q)) as [<-|Hne].
    - rewrite lookup_insert_eq. split; [by left|]. intros _. eexists. split; [done|]. unfold counted. by rewrite Hr.
    - rewrite lookup_insert_ne by done. split; [by right|]. intros [->|H]; done. }
  rewrite E, size_union.
  - rewrite size_singleton. simpl. lia.
  - intros q ->%elem_of_singleton (b & Hb & Hc)%active_paths_elem. rewrite Hb in Ha. injection Ha as ->.
    unfold counted in Hc. by rewrite Hm, andb_false_r in Hc.
Qed.

Lemma scheduled_other ag p f ps m c : p ∉ ps ->
  scheduled_leases (alter f p ag) ps m c = scheduled_leases ag ps m c.
Proof.
  revert m c. induction ps as [|q ps IH]; intros m c Hp; [done|]. apply not_elem_of_cons in Hp as [Hne Hp]. simpl.
  rewrite IH by done. by rewrite lookup_alter_ne.
Qed.

Lemma reserve_loop_spec paths w ls :
  NoDup paths ->
  (forall p, p ∈ paths -> exists a, agents (tree w) !! p = Some a /\ has_marker a = false /\ is_root p = false) ->
  exists w', let ps := take (free_slots (tree w)) paths in
    reserve_loop paths w ls = (w', ls ++ scheduled_leases (agents (tree w)) ps (next_marker w) (next_control w)) /\
    agents (tree w') = started_agents (agents (tree w)) ps (next_marker w) (next_control w).
Proof.
  revert w ls. induction paths as [|p paths IH]; intros w ls Hnd Hin.
  - exists w. rewrite take_nil. simpl. by rewrite app_nil_r.
  - apply NoDup_cons in Hnd as [Hp Hnd]. destruct (Hin p ltac:(left)) as (a & Ha & Hm & Hr). simpl. unfold free_slots.
    destruct (Nat.leb_spec (descendant_capacity (tree w)) (active_agent_count (tree w))) as [Hle|Hlt].
    + exists w. replace (_ - _) with 0 by lia. simpl. by rewrite app_nil_r.
    + rewrite Ha. unfold new_arc, new_control. cbv beta iota zeta. cbn [next_control next_marker tree heap].
      match goal with |- context [reserve_loop paths ?x _] => set (w1 := x) end.
      destruct (IH w1 (ls ++ [{| lease_path := p; lease_marker := next_marker w; lease_control := next_control w;
                                  wake_cause := pending_execution_wake_cause a |}]) Hnd) as (w' & Hl & Hag).
      { intros q Hq. destruct (Hin q ltac:(by right)) as (b & Hb & H1 & H2). exists b. split; [|done].
        unfold w1. simpl. rewrite lookup_insert_ne; [done|]. intros ->. by apply Hp. }
      assert (Hs : descendant_capacity (tree w) - active_agent_count (tree w) = S (free_slots (tree w1))).
      { unfold free_slots, w1. cbn [tree set_tree]. rewrite (active_paths_start _ _ a) by done.
        change (descendant_capacity (update_agent _ _ _)) with (descendant_capacity (tree w)). lia. }
      assert (Ew : agents (tree w1) = alter (start_execution (next_marker w) (next_control w)) p (agents (tree w))).
      { unfold w1. cbn. apply map_eq. intros q. destruct (decide (p = q)) as [<-|Hne].
        - by rewrite lookup_insert_eq, lookup_alter_eq, Ha.
        - by rewrite lookup_insert_ne, lookup_alter_ne. }
      exists w'. rewrite Hs. cbn [take scheduled_leases started_agents]. rewrite Hl, Hag, Ew. split; [|done].
      rewrite scheduled_other, Ha by (intros Hq; apply Hp; rewrite <- (take_drop (free_slots (tree w1)) paths); apply elem_of_app; by left). rewrite <- app_assoc. done.
Qed.

Lemma insert_by_key_sorted {A} (key : A -> N) x l :
  StronglySorted (fun a b => key a <= key b)%N l -> StronglySorted (fun a b => key a <= key b)%N (insert_by_key key x l).
Proof.
  induction l as [|y l IH]; intros H; simpl; [by repeat constructor|]. inversion H as [|? ? Hs Hf]; subst.
  destruct (N.leb_spec (key x) (key y)).
  - constructor; [done|]. constructor; [done|]. eapply Forall_impl; [exact Hf|]. simpl. lia.
  - constructor; [auto|]. rewrite (insert_by_key_perm key x l). constructor; [lia|done].
Qed.

Lemma sort_by_key_sorted {A} (key : A -> N) l : StronglySorted (fun a b => key a <= key b)%N (sort_by_key key l).
Proof. induction l; simpl; [constructor|by apply insert_by_key_sorted]. Qed.

Lemma StronglySorted_weaken {A B} (f : A -> B) (R : A -> A -> Prop) (S : B -> B -> Prop) l :
  (forall x y, x ∈ l -> y ∈ l -> R x y -> S (f x) (f y)) -> StronglySorted R l -> StronglySorted S (map f l).
Proof.
  intros HRS. induction 1 as [|x l Hs IH Hf]; simpl; constructor.
  - apply IH. intros a b Ha Hb. apply HRS; by right.
  - apply List.Forall_map. apply Forall_forall. intros y Hy. rewrite Forall_forall in Hf.
    apply HRS; [left|by right|by apply Hf].
Qed.

Lemma candidates_sorted t : StronglySorted (by_spawn_order t) (candidates t).
Proof.
  unfold candidates. eapply StronglySorted_weaken; [|apply sort_by_key_sorted].
  assert (Hin : forall x, x ∈ sort_by_key (fun pa => spawn_order (snd pa))
      (List.filter (fun pa => is_candidate (fst pa) (snd pa)) (map_to_list (agents t))) -> agents t !! fst x = Some (snd x)).
  { intros [p a] Hx. rewrite sort_by_key_perm, filter_filter_eq in Hx. apply list_elem_of_filter in Hx as [_ Hx].
    by apply elem_of_map_to_list in Hx. }
  intros x y Hx%Hin Hy%Hin H. by exists (snd x), (snd y).
Qed.

(** A scheduling pass of a tree that is not cancelled starts as many ready agents as there
    are free slots, in spawn order: exactly those that are not the root, run nothing, are not shut
    down and have a pending wake cause.  Each gets a fresh marker and run control and a lease with
    its wake cause; no other entry changes. *)
Theorem scheduler_starts_ready_agents_in_spawn_order w :
  tree_cancelled w = false ->
  (exists w', let ps := take (free_slots (tree w)) (candidates (tree w)) in
    reserve_pending_triggered_executions_locked w =
      (w', scheduled_leases (agents (tree w)) ps (next_marker w) (next_control w)) /\
    agents (tree w') = started_agents (agents (tree w)) ps (next_marker w) (next_control w)) /\
  NoDup (candidates (tree w)) /\ StronglySorted (by_spawn_order (tree w)) (candidates (tree w)) /\
  (forall p, p ∈ candidates (tree w) <->
    exists a, agents (tree w) !! p = Some a /\ p <> ROOT /\ execution_marker a = None /\ status a <> Shutdown /\
              is_Some (pending_execution_wake_cause a)).
Proof.
  intros Hc. split.
  - unfold reserve_pending_triggered_executions_locked. rewrite Hc.
    apply (reserve_loop_spec (candidates (tree w)) w []); [apply candidates_NoDup|].
    intros p (a & Ha & Hca)%candidates_elem. exists a. split; [done|]. split; [by eapply candidate_inactive|].
    unfold is_candidate in Hca. by destruct (is_root p).
  - split; [apply candidates_NoDup|]. split; [apply candidates_sorted|]. intros p. rewrite candidates_elem.
    assert (E : forall a, is_candidate p a = true <->
      p <> ROOT /\ execution_marker a = None /\ status a <> Shutdown /\ is_Some (pending_execution_wake_cause a));
      [intros a|by setoid_rewrite E]. unfold is_candidate, has_marker, is_shutdown, is_root.
    rewrite !andb_true_iff, !negb_true_iff, text_eqb_neq.
    destruct (execution_marker a), (status a), (pending_execution_wake_cause a); naive_solver.
Qed.

(** The idle child of the small tree, after a restart that found a trigger for it. *)
Definition demo_ready : AgentWorld := fst (restore_pending_mail (lit "/root/a") 5 true demo_idle).

Lemma scheduler_starts_ready_agents_witness :
  (exists w', reserve_pending_triggered_executions_locked demo_ready =
    (w', [{| lease_path := lit "/root/a"; lease_marker := 2; lease_control := 3; wake_cause := Some (ExplicitTask 5) |}])) /\
  candidates (tree demo_ready) = [lit "/root/a"].
Proof.
  split; [|vm_compute; reflexivity].
  destruct (scheduler_starts_ready_agents_in_spawn_order demo_ready ltac:(vm_compute; reflexivity)) as [(w' & H & _) _].
  exists w'. rewrite H. apply (f_equal (pair w')). vm_compute. reflexivity.
Defined.

(** ** Leases that lost their execution *)

Lemma stale_marker m a : execution_marker a <> Some m -> owns_marker m a = false.
Proof. intros H. by apply bool_decide_eq_false. Qed.

Lemma stale_release p m w a :
  agents (tree w) !! p = Some a -> execution_marker a <> Some m -> release_execution p m w = w.
Proof. intros Ha Hm. unfold release_execution. by rewrite Ha, stale_marker. Qed.

Lemma stale_mutate p m f w a :
  agents (tree w) !! p = Some a -> execution_marker a <> Some m -> mutate_execution p m f w = (w, Err (StaleExecution p)).
Proof. intros Ha Hm. unfold mutate_execution. by rewrite Ha, stale_marker. Qed.

(** Once an agent runs another execution, or none, the lease and the scope of the old one
    can do nothing: dropping the lease, publishing a status or an activity, completing, retiring,
    releasing or rolling back leave the whole tree as it is and report a stale execution, and no
    method that takes the scope accepts it. *)
Theorem stale_lease_is_powerless w lease a :
  agents (tree w) !! lease_path lease = Some a -> execution_marker a <> Some (lease_marker lease) ->
  let stale := StaleExecution (lease_path lease) in
  lease_drop lease w = w /\
  (forall st, lease_set_status lease st w = (w, Err stale)) /\
  (forall act, lease_set_activity lease act w = (w, Err stale)) /\
  (forall st act, complete_execution lease st act w = (w, Err stale)) /\
  (forall up id p, validate_execution_scope_locked up w (lease_scope id lease) p <> Ok tt) /\
  (lease_path lease <> ROOT ->
    begin_pending_trigger_terminal lease w = Err stale /\
    (forall act, release_unsettled_trigger_execution lease act w = (w, Err stale)) /\
    (forall act, retire_resolved_wake_execution lease act w = (w, Err stale)) /\
    (forall s, rollback_child_registration lease s w = (w, Err (AgentRollbackRejected (lease_path lease))))).
Proof.
  intros Ha Hm stale. pose proof (stale_marker _ _ Hm) as Ho.
  assert (Hd : lease_drop lease w = w) by by eapply stale_release.
  split_and!; [done|intros; by eapply stale_mutate|intros; by eapply stale_mutate| | |].
  - intros st act. unfold complete_execution. cbv zeta. by rewrite Ha, Ho, Hd.
  - intros up id p. unfold validate_execution_scope_locked. cbn [lease_scope scope_tree scope_path scope_marker].
    destruct (bool_decide (tree_id w = id)); [|done]. destruct (decide (lease_path lease = p)) as [<-|Hp].
    + rewrite bool_decide_true by done. cbn [negb orb]. destruct (up _); [|done]. by rewrite Ha, Ho.
    + by rewrite bool_decide_false by done.
  - intros Hr. apply text_eqb_neq in Hr.
    assert (Hr' : is_root (lease_path lease) = false) by exact Hr.
    split_and!; [unfold begin_pending_trigger_terminal|intros act; unfold release_unsettled_trigger_execution
                |intros act; unfold retire_resolved_wake_execution|intros s; unfold rollback_child_registration];
      cbv zeta; rewrite Hr', ?Ha, ?Ho, ?Hd; try done.
    + by destruct (wake_cause lease).
    + by rewrite orb_true_r.
Qed.

Lemma stale_lease_witness :
  lease_drop demo_lease demo_idle = demo_idle /\
  complete_execution demo_lease (InactiveCompleted None) None demo_idle = (demo_idle, Err (StaleExecution (lit "/root/a"))).
Proof.
  assert (H : exists a, agents (tree demo_idle) !! lease_path demo_lease = Some a /\ execution_marker a = None).
  { eexists. split; vm_compute; reflexivity. }
  destruct H as (a & Ha & Hm).
  destruct (stale_lease_is_powerless demo_idle demo_lease a Ha ltac:(by rewrite Hm)) as (H1 & _ & _ & H2 & _).
  split; [exact H1|apply H2].
Defined.

(** ** Stop of the tree *)

(** A cancellation request on the scope of the tree or on the current turn of its root
    classifies the root's run control and nothing else: no entry changes and no descendant's run
    control does.  On any other owner routed to the tree, such as an earlier root turn, it acts
    on that owner alone. *)
Theorem stop_hits_the_root_turn_only w root c k :
  agents (tree w) !! ROOT = Some root -> terminal_router (control_of c w) = Some (tree_id w) ->
  let target := if same_owner (root_scope_control (tree w)) c || same_owner (run_control root) c
                then run_control root else c in
  let '(w', o) := request_cancel c k w in
  tree w' = tree w /\
  request_cancel_local k (control_of target w) = (control_of target w', o) /\
  (forall c', c' <> target -> control_of c' w' = control_of c' w).
Proof.
  intros Hr Ht target. unfold request_cancel, route_terminal. change (controls w) with (heap w). unfold control_of in Ht.
  rewrite Ht. cbn [upgrade_route agent_world run_route]. rewrite bool_decide_true by done.
  unfold route_terminal_outcome. rewrite Hr. cbv zeta. unfold target, in_world, on_control, control_of, read.
  destruct (same_owner (root_scope_control (tree w)) c) eqn:E1, (same_owner (run_control root) c) eqn:E2; cbn [negb andb orb is_request];
    (destruct (request_cancel_local k _) as [s o] eqn:E; cbn [controls set_controls set_heap heap tree agent_world] in *;
     split; [done|]; split; [by rewrite lookup_insert_eq|]; intros c' Hc; by rewrite lookup_insert_ne).
Qed.

Lemma stop_hits_the_root_turn_witness :
  match agents (tree demo_child) !! ROOT with Some root => run_control root = 1%N | None => False end /\
  let '(w', o) := request_cancel 0%N Superseded demo_child in
  o = Applied /\ control_of 2 w' = control_of 2 demo_child.
Proof.
  assert (H : exists root, agents (tree demo_child) !! ROOT = Some root /\ run_control root = 1%N).
  { eexists. split; vm_compute; reflexivity. }
  destruct H as (root & Hr & Hc). rewrite Hr. split; [exact Hc|].
  pose proof (stop_hits_the_root_turn_only demo_child root 0 Superseded Hr ltac:(vm_compute; reflexivity)) as H.
  cbv zeta in H. rewrite Hc in H. destruct (request_cancel 0%N Superseded demo_child) as [w' o] eqn:E.
  change (root_scope_control (tree demo_child)) with 0%N in H. cbn [same_owner orb] in H.
  destruct H as (_ & H1 & H2). split; [|apply H2; vm_compute; discriminate].
  apply (f_equal snd) in H1. change (snd (_, o)) with o in H1. rewrite <- H1. vm_compute. reflexivity.
Defined.
