(* ===== verification/AgentMailFacts.v ===== *)
(** * Spawns, mail, terminals and completions of agents *)
From S2P Require Import Prelude.
From S2P Require Import TurnOutcome.
From S2P Require Import Text.
From S2P Require Import AgentPath.
From S2P Require Import RunControl.
From S2P Require Import RunOwners.
From S2P Require Import AgentTree.
From S2P Require Import AgentOps.
From S2P Require Import AgentMail.
From S2P Require Import AgentTreeFacts.
From S2P Require Import AgentSteps.
From S2P Require Import AgentSystem.
From S2P Require Import AgentFacts.

(** ** Spawning *)

(** A durable spawn order the tree cannot take. *)
Definition unusable_order (order : N) (t : AgentTreeState) : Prop :=
  order = 0%N \/ order_taken order t = true \/ checked_add_u64 order 1 = None.

Lemma insert_child_spec w parent child s act order :
  match insert_child_locked w parent child s act (Some order) with
  | (w', Ok (snapshot, marker, control)) =>
    marker = next_marker w /\ control = next_control w /\
    agents (tree w') = <[child := new_entry s (Some parent) order PendingInit act (Some marker) control None]> (agents (tree w)) /\
    is_Some snapshot
  | (w', Err _) => w' = w /\ unusable_order order (tree w)
  end.
Proof.
  unfold insert_child_locked, choose_spawn_order, unusable_order.
  destruct (N.eqb_spec order 0) as [->|]; [cbn; by auto|]. destruct (order_taken order (tree w)); [cbn; by auto|].
  cbn [orb]. destruct (checked_add_u64 order 1); [|cbn; by auto]. unfold new_arc, new_control. cbv beta iota zeta.
  split_and!; try done. unfold snapshot_agent. cbn. rewrite lookup_insert_eq. by eexists.
Qed.

(** A durable spawn is all or nothing.  When it succeeds, every check of the caller and of
    the registration had passed, the durable commit ran exactly once and its child, fresh in the
    registry, is the only entry that changed, running under the lease that is returned.  When it
    fails the tree is unchanged, and the durable store is unchanged too unless the commit itself
    failed or returned a spawn order the tree cannot take; in particular a stopped tree or a
    caller whose execution was replaced never reaches the commit. *)
Theorem spawn_is_all_or_nothing {D T} up caller parent name s act (commit : D -> D * result (T * N) text) w d :
  let validated child :=
    join_path parent name = Ok child /\ validate_execution_scope_locked up w caller parent = Ok tt /\
    validate_child_registration_locked w parent child s = Ok tt in
  match commit_spawn up caller parent name s act commit w d with
  | (w', d', Ok (x, snapshot, lease)) =>
    exists child order, validated child /\ commit d = (d', Ok (x, order)) /\
      agents (tree w) !! child = None /\ is_Some snapshot /\ lease = mk_lease child (next_marker w) (next_control w) /\
      agents (tree w') =
        <[child := new_entry s (Some parent) order PendingInit act (Some (next_marker w)) (next_control w) None]> (agents (tree w))
  | (w', d', Err e) =>
    w' = w /\
    (d' = d /\ (forall child, ~ validated child) \/
     d' = fst (commit d) /\
       ((exists m, snd (commit d) = Err m /\ e = DurableSpawnCommit m) \/
        (exists x order, snd (commit d) = Ok (x, order) /\ unusable_order order (tree w))))
  end /\
  (tree_cancelled w = true \/ validate_execution_scope_locked up w caller parent <> Ok tt ->
   exists e, commit_spawn up caller parent name s act commit w d = (w, d, Err e)).
Proof.
  intros validated. unfold commit_spawn. destruct (join_path parent name) as [child|e] eqn:Ej.
  2:{ split; [|by eexists]. split; [done|]. left. split; [done|]. intros c (H & _). congruence. }
  destruct (validate_execution_scope_locked up w caller parent) as [[]|e] eqn:Es.
  2:{ split; [|by eexists]. split; [done|]. left. split; [done|]. intros c (_ & H & _). congruence. }
  destruct (validate_child_registration_locked w parent child s) as [[]|e] eqn:Ev.
  2:{ split; [|by eexists]. split; [done|]. left. split; [done|]. intros c (H1 & _ & H). congruence. }
  assert (Hfree : tree_cancelled w = false /\ agents (tree w) !! child = None).
  { revert Ev. unfold validate_child_registration_locked. cbv zeta. destruct (tree_cancelled w); [done|].
    destruct (negb _); [done|]. destruct (bool_decide (is_Some (agents (tree w) !! child))) eqn:Ex; [done|].
    intros _. split; [done|]. apply bool_decide_eq_false in Ex. by apply eq_None_not_Some. }
  destruct Hfree as [Hc Hn]. split; [|intros [H|H]; congruence].
  assert (Hval : validated child) by done.
  destruct (commit d) as [d' [[x order]|m]] eqn:Ec.
  2:{ split; [done|]. right. split; [done|]. left. by exists m. }
  pose proof (insert_child_spec w parent child s act order) as Hi.
  destruct (insert_child_locked _ _ _ _ _ _) as [w' [[[snap mk] c]|e]].
  - destruct Hi as (-> & -> & Ha & Hs). exists child, order. by split_and!.
  - destruct Hi as [-> Hu]. split; [done|]. right. split; [done|]. right. by exists x, order.
Qed.

(** ** Mail *)

(** Scheduling never touches a mailbox. *)
Lemma started_lookup ag ps m c p b :
  started_agents ag ps m c !! p = Some b ->
  exists a, ag !! p = Some a /\ mailbox b = mailbox a /\ session_id b = session_id a /\
    pending_owner_resume_request_id b = pending_owner_resume_request_id a /\
    (b = a \/ exists m', (m <= m')%N /\ execution_marker b = Some m').
Proof.
  revert ag m c. induction ps as [|q ps IH]; intros ag m c H; simpl in H; [exists b; by split_and!; auto|].
  apply IH in H as (a & Ha & H1 & H2 & H3 & H4). destruct (decide (q = p)) as [->|Hne].
  - rewrite lookup_alter_eq in Ha. destruct (ag !! p) as [a0|]; [|done]. injection Ha as <-. exists a0. split_and!; try done.
    right. destruct H4 as [->|(m' & Hm & E)]; [exists m; split; [lia|done]|]. exists m'. split; [lia|done].
  - rewrite lookup_alter_ne in Ha by done. exists a. split_and!; try done. destruct H4 as [|(m' & Hm & E)]; [by left|].
    right. exists m'. split; [lia|done].
Qed.

Lemma started_dom ag ps m c p : is_Some (started_agents ag ps m c !! p) <-> is_Some (ag !! p).
Proof.
  revert ag m c. induction ps as [|q ps IH]; intros ag m c; simpl; [done|]. rewrite IH, lookup_alter_is_Some. done.
Qed.

Lemma schedule_agents g w :
  exists ps, agents (tree (fst (schedule_unless_cancelled g w))) =
             started_agents (agents (tree w)) ps (next_marker w) (next_control w).
Proof.
  unfold schedule_unless_cancelled. destruct (g && _); [|by exists []].
  unfold reserve_pending_triggered_executions_locked. destruct (tree_cancelled w); [by exists []|].
  destruct (reserve_loop_spec (candidates (tree w)) w [] (candidates_NoDup _)) as (w' & H & Ha).
  { intros p (a & Ha & Hca)%candidates_elem. exists a. split; [done|]. split; [by eapply candidate_inactive|].
    unfold is_candidate in Hca. by destruct (is_root p). }
  rewrite H. by eexists.
Qed.

Definition mail_ids (p : AgentPath) (w : AgentWorld) : option (list HistoryItemId) :=
  (fun a => map history_item_id (mailbox a)) <$> agents (tree w) !! p.

Lemma schedule_mail g w p : mail_ids p (fst (schedule_unless_cancelled g w)) = mail_ids p w.
Proof.
  destruct (schedule_agents g w) as [ps H]. unfold mail_ids. rewrite H.
  destruct (started_agents _ ps _ _ !! p) as [b|] eqn:Eb.
  - apply started_lookup in Eb as (a & -> & E & _). simpl. by rewrite E.
  - destruct (agents (tree w) !! p) eqn:Ea; [|done]. exfalso. apply eq_None_not_Some in Eb. apply Eb, started_dom. by eexists.
Qed.

Lemma restore_reservation w n : n = pending_capacity_reservations (tree w) -> set_tree (set_reservations n (tree w)) w = w.
Proof. intros ->. destruct w as [h c m i a t]. by destruct t. Qed.

(** The identities in a mailbox after a notice for [item] was offered. *)
Definition offered_ids (item : HistoryItemId) (a : AgentEntry) : list HistoryItemId :=
  if has_notice item a || (MAX_AGENT_MAILBOX_NOTICES <=? length (mailbox a)) then map history_item_id (mailbox a)
  else map history_item_id (mailbox a) ++ [item].

Lemma promote_ids b a : map history_item_id (mailbox (promote_if b a)) = map history_item_id (mailbox a).
Proof. destruct b; [|done]. simpl. apply set_ready_ids. Qed.

Lemma offer_ids item t r a a' :
  mailbox a' = mailbox a ->
  map history_item_id (mailbox (if negb (has_notice item a') && (length (mailbox a') <? MAX_AGENT_MAILBOX_NOTICES)
                                then push_notice item t r a' else a')) = offered_ids item a.
Proof.
  intros E. unfold offered_ids, has_notice. rewrite E. destruct (existsb _ _); cbn [negb andb orb]; [by rewrite E|].
  destruct (Nat.ltb_spec (length (mailbox a)) MAX_AGENT_MAILBOX_NOTICES) as [H|H], (Nat.leb_spec MAX_AGENT_MAILBOX_NOTICES (length (mailbox a)));
    [lia| |by rewrite E|lia]. unfold push_notice. simpl. by rewrite map_app, E.
Qed.

Lemma mail_ids_update p a w h q :
  mail_ids q (set_tree (update_agent p a (tree w)) (set_heap h w)) =
  if decide (q = p) then Some (map history_item_id (mailbox a)) else mail_ids q w.
Proof.
  unfold mail_ids. simpl. destruct (decide (q = p)) as [->|Hne]; [by rewrite lookup_insert_eq|by rewrite lookup_insert_ne].
Qed.

(** The second half of a delivery, whatever happened since the first. *)
Lemma finish_mail_ids token c w a :
  agents (tree w) !! mail_recipient token = Some a -> session_id a = mail_session token ->
  forall q, mail_ids q (fst (finish_mail token c w)) =
    if decide (q = mail_recipient token) then Some (offered_ids (mail_item c) a) else mail_ids q w.
Proof.
  intros Ha Hs q. unfold finish_mail. cbv zeta.
  assert (Ha' : agents (tree (give_back token w)) !! mail_recipient token = Some a) by by (unfold give_back; destruct (capacity_reserved token)).
  assert (Hq : mail_ids q (give_back token w) = mail_ids q w) by by (unfold give_back; destruct (capacity_reserved token)).
  rewrite Ha'. rewrite decide_False by (by intros H).
  match goal with |- context [let '(_, _) := ?x in _] => destruct x as [a1 promotes] eqn:E1 end.
  assert (H1 : mailbox a1 = mailbox a).
  { destruct (mail_completion_handoff token); [|by injection E1 as <- <-].
    pose proof (project_deferred_same (cause_of a (give_back token w)) a (mail_released token)) as (_ & P2 & _).
    by rewrite E1 in P2. }
  pose proof (offer_ids (mail_item c) (mail_trigger token) (schedule_turn c) a a1 H1) as H2.
  set (a2 := if negb (has_notice (mail_item c) a1) && _ then _ else _) in *. rewrite <- H2.
  match goal with |- context [let '(_, _) := ?x in _] => destruct x as [a3 sched] eqn:E3 end.
  assert (H3 : mailbox a3 = mailbox (promote_if promotes a2)).
  { destruct (mail_completion_handoff token); unfold reconcile_current_owner_resume_request, project_owner_resume_request in E3;
      repeat case_match; by simplify_eq. }
  match goal with |- context [schedule_unless_cancelled ?g ?x] =>
    pose proof (schedule_mail g x q) as Hm; destruct (schedule_unless_cancelled g x) as [w2 ls] end.
  change (mail_ids q (fst (notify_activity w2, _))) with (mail_ids q w2).
  cbn [fst] in *. change (mail_ids q (notify_activity w2)) with (mail_ids q w2). rewrite Hm.
  rewrite <- (promote_ids promotes a2), <- H3, <- Hq.
  exact (mail_ids_update (mail_recipient token) a3 (give_back token w) (heap (give_back token w)) q).
Qed.

Lemma finish_mail_reservations token c w :
  pending_capacity_reservations (tree (fst (finish_mail token c w))) =
  pending_capacity_reservations (tree w) - (if capacity_reserved token then 1 else 0).
Proof.
  destruct (finish_mail_preserves token c w) as (_ & H & _). destruct (give_back_wf token w) as (_ & H2 & _). congruence.
Qed.

(** What the first half of a delivery checked, and what it carries over. *)
Lemma begin_mail_spec up author p trigger released handoff scope w w' token :
  begin_mail up author p trigger released handoff scope w = (w', Ok token) ->
  mail_recipient token = p /\
  (exists a, agents (tree w) !! p = Some a /\ mail_session token = session_id a /\
    (capacity_granted token = true <->
       trigger = false \/ has_marker a = true \/ active_agent_count (tree w) < descendant_capacity (tree w)) /\
    (handoff = false -> length (mailbox a) < MAX_AGENT_MAILBOX_NOTICES) /\
    (trigger = true -> tree_cancelled w = false /\ status a <> Shutdown /\ trigger_purge_pending a = 0%N)) /\
  w' = set_tree (set_reservations (pending_capacity_reservations (tree w) + (if capacity_reserved token then 1 else 0)) (tree w)) w.
Proof.
  unfold begin_mail. destruct (match scope with Some _ => _ | None => _ end) as [u|e0]; [|done].
  destruct (trigger && tree_cancelled w) eqn:Ec; [done|]. destruct (negb (bool_decide (is_Some _))); [done|].
  destruct (agents (tree w) !! p) as [a|]; [|done].
  destruct (trigger && (0 <? trigger_purge_pending a)%N) eqn:Ep; [done|].
  destruct (trigger && is_shutdown a) eqn:Esd; [done|].
  destruct (negb handoff && (MAX_AGENT_MAILBOX_NOTICES <=? length (mailbox a))) eqn:Em; [done|]. cbv zeta. intros [= <- <-].
  cbn [mail_recipient mail_session capacity_granted capacity_reserved]. split; [done|]. split.
  - exists a. split; [done|]. split; [done|]. split_and!.
    + rewrite orb_true_iff, negb_true_iff, andb_false_iff, negb_false_iff, Nat.ltb_lt. tauto.
    + intros ->. apply andb_false_iff in Em as [Em|Em]; [done|]. by apply Nat.leb_gt in Em.
    + intros ->. cbn [andb] in *. split; [done|]. split; [by intros E; unfold is_shutdown in Esd; rewrite E in Esd|].
      apply N.ltb_ge in Ep. lia.
  - match goal with |- context [if ?b then set_reservations _ _ else _] => destruct b end.
    + f_equal. f_equal. simpl. lia.
    + rewrite Nat.add_0_r, restore_reservation by done. by destruct w.
Qed.

(** A mail delivery takes effect once or not at all.  When it fails nothing in the tree
    changes, the reserved slot included, and the durable store only by what a failed commit did.
    When it succeeds the durable commit ran once, told whether an idle recipient may start, and
    its item is in the recipient's mailbox once, after all older ones and within the bound;
    every other mailbox and the reservations are as before. *)
Theorem mail_takes_effect_once_or_not_at_all {D} up author p trigger released handoff scope
    (commit : bool -> D -> D * result AgentMailCommit AgentControlError) w d :
  match commit_and_enqueue_mail_internal up author p trigger released handoff scope commit w d with
  | (w', d', Err e) => w' = w /\ (d' = d \/ exists granted, commit granted d = (d', Err e))
  | (w', d', Ok _) =>
    exists a granted c, agents (tree w) !! p = Some a /\ commit granted d = (d', Ok c) /\
      (granted = true <-> trigger = false \/ has_marker a = true \/ active_agent_count (tree w) < descendant_capacity (tree w)) /\
      (handoff = false -> length (mailbox a) < MAX_AGENT_MAILBOX_NOTICES) /\
      (forall q, mail_ids q w' = if decide (q = p) then Some (offered_ids (mail_item c) a) else mail_ids q w) /\
      pending_capacity_reservations (tree w') = pending_capacity_reservations (tree w)
  end.
Proof.
  unfold commit_and_enqueue_mail_internal.
  destruct (begin_mail up author p trigger released handoff scope w) as [w1 [token|e]] eqn:Eb.
  - apply begin_mail_spec in Eb as (<- & (a & Ha & Hs & Hg & Hroom & _) & ->).
    destruct (commit (capacity_granted token) d) as [d' [c|e]] eqn:Ec.
    + set (w1 := set_tree _ w) in *.
      assert (Ha' : agents (tree w1) !! mail_recipient token = Some a) by done.
      pose proof (finish_mail_ids token c w1 a Ha' (eq_sym Hs)) as Hids.
      pose proof (finish_mail_reservations token c w1) as Hres.
      destruct (finish_mail token c w1) as [w' o]. cbn [fst] in *. exists a, (capacity_granted token), c.
      split_and!; try done. rewrite Hres. unfold w1. cbn [tree set_tree set_reservations pending_capacity_reservations]. lia.
    + split; [|right; by eexists]. unfold give_back. destruct (capacity_reserved token); cbn [tree set_tree].
      * transitivity (set_tree (set_reservations (pending_capacity_reservations (tree w) + 1 - 1) (tree w)) w); [done|].
        rewrite Nat.add_sub. by apply restore_reservation.
      * rewrite Nat.add_0_r. by apply restore_reservation.
  - apply begin_mail_err in Eb as ->. by auto.
Qed.

(** ** Durable terminals *)

Lemma set_mailbox_bump (b : bool) ns a :
  mailbox (if b then bump_mailbox (set_mailbox ns a) else set_mailbox ns a) = ns.
Proof. by destruct b. Qed.

(** A durable terminal closes its agent to new triggers at once and cancels its execution;
    when its purge runs, at whatever later state still has the same session and admission epoch,
    exactly the triggers the mailbox held at the terminal are gone: informational notices and
    triggers committed since stay, in their order, the owner-resume identity is cleared only
    when it is still the one of then, one pending purge is settled, and no other agent changes. *)
Theorem durable_terminal_purges_only_older_triggers p w w1 token w2 b :
  begin_durable_terminal p w = (w1, Ok token) ->
  agents (tree w2) !! p = Some b -> session_id b = terminal_session token ->
  trigger_admission_epoch b = terminal_epoch token ->
  exists a a1 b', agents (tree w) !! p = Some a /\ agents (tree w1) !! p = Some a1 /\
    control_of (run_control a) w1 = fst (request_cancel_local Superseded (control_of (run_control a) w)) /\
    active_durable_turn_id a1 = None /\ (0 < trigger_purge_pending a1)%N /\
    (forall up author released handoff w1' token', tree w1' = tree w1 ->
       snd (begin_mail up author p true released handoff None w1') <> Ok token') /\
    agents (tree (finish_durable_terminal token w2)) !! p = Some b' /\
    mailbox b' = List.filter (fun n => negb (trigger_turn n) || (mailbox_generation a <? notice_generation n)%N) (mailbox b) /\
    pending_owner_resume_request_id b' =
      (if decide (pending_owner_resume_request_id b = pending_owner_resume_request_id a) then None
       else pending_owner_resume_request_id b) /\
    trigger_purge_pending b' = (trigger_purge_pending b - 1)%N /\
    (forall q, q <> p -> agents (tree (finish_durable_terminal token w2)) !! q = agents (tree w2) !! q).
Proof.
  unfold begin_durable_terminal. destruct (agents (tree w) !! p) as [a|] eqn:Ha; [|done].
  unfold on_control. destruct (request_cancel_local Superseded (read (run_control a) (heap w))) as [s o] eqn:Ec.
  cbv zeta. intros [= <- <-] Hb Hs He. cbn [terminal_session terminal_epoch] in Hs, He.
  assert (Hpos : (0 < u32_saturating_succ (trigger_purge_pending (clear_cancelled_active_generation_state a)))%N)
    by (unfold u32_saturating_succ, u32_max; lia).
  exists a. eexists. eexists. split; [done|]. split; [apply lookup_insert_eq|]. split_and!.
  - unfold control_of, read in *. cbn. rewrite lookup_insert_eq, Ec. done.
  - done.
  - exact Hpos.
  - intros up author released handoff w1' token' Ht H. unfold begin_mail in H. rewrite Ht in H. cbn [andb] in H.
    destruct (tree_cancelled w1'); [done|]. destruct (negb _); [done|].
    cbn [tree notify_activity set_tree update_agent set_agents agents] in H. rewrite lookup_insert_eq in H.
    match type of H with context [(0 <? ?n)%N] => assert (E : (0 <? n)%N = true) by by apply N.ltb_lt end.
    by rewrite E in H.
  - unfold finish_durable_terminal. cbn [terminal_path]. rewrite Hb. cbn [terminal_session terminal_epoch]. rewrite Hs, He.
    rewrite !bool_decide_true by done. cbn [negb orb]. cbv zeta. apply lookup_insert_eq.
  - cbn [purge_through_generation]. by destruct (negb _), (decide _).
  - cbn [terminal_owner_resume purge_through_generation]. by destruct (negb _), (decide _).
  - by destruct (negb _), (decide _).
  - intros q Hq. unfold finish_durable_terminal. cbn [terminal_path]. rewrite Hb. destruct (_ || _); [done|]. cbv zeta.
    by apply lookup_insert_ne.
Qed.

(** ** Completion *)

Lemma scheduled_marker g w p a m :
  agents (tree w) !! p = Some a -> execution_marker a <> Some m -> (m < next_marker w)%N ->
  release_execution p m (fst (schedule_unless_cancelled g w)) = fst (schedule_unless_cancelled g w).
Proof.
  intros Ha Hm Hlt. destruct (schedule_agents g w) as [ps Hs].
  destruct (agents (tree (fst (schedule_unless_cancelled g w))) !! p) as [b|] eqn:Hb.
  - eapply stale_release; [exact Hb|]. rewrite Hs in Hb. apply started_lookup in Hb as (a' & Ha' & _ & _ & _ & H).
    destruct H as [->|(m' & Hle & ->)]; [congruence|]. intros [= ->]. lia.
  - unfold release_execution. by rewrite Hb.
Qed.

Lemma release_notify p m w : release_execution p m w = w -> release_execution p m (notify_activity w) = notify_activity w.
Proof.
  unfold release_execution. cbn [tree notify_activity]. destruct (agents (tree w) !! p) as [a|] eqn:Ha; [|done].
  destruct (owns_marker m a) eqn:Ho; [|done]. cbv zeta. intros E.
  apply (f_equal (fun w => agents (tree w) !! p)) in E. rewrite Ha in E. exfalso. revert E.
  assert (Hup : forall x t, agents (tree (notify_activity (set_tree (if is_root p then set_pending_root None (update_agent p x t)
                else update_agent p x t) w))) !! p = Some x) by (intros; destruct (is_root p); apply lookup_insert_eq).
  rewrite Hup. intros E%(inj Some). apply bool_decide_eq_true in Ho. rewrite <- E in Ho. done.
Qed.

(** Completing the execution that owns an agent settles exactly that agent and then lets the
    scheduler run once.  The dropped lease undoes nothing, not even when the scheduler starts
    the same agent again at once.  An agent that waits for its descendants keeps its turn, and
    its triggers become ready only when the release of that very turn came in before; a wait for
    any turn but the running one is refused. *)
Theorem completion_settles_the_owned_execution w lease st act a :
  tree_wf (next_marker w) (tree w) ->
  agents (tree w) !! lease_path lease = Some a -> execution_marker a = Some (lease_marker lease) ->
  let settle promotes awaiting :=
    let t := update_agent (lease_path lease) (idle (of_inactive st) act awaiting (promote_if promotes a)) (tree w) in
    let t := if is_root (lease_path lease) then set_pending_root None t else t in
    let '(w', scheduled) := schedule_unless_cancelled true (set_tree t w) in
    (notify_activity w', Ok scheduled) in
  match st with
  | InactiveAwaitingDescendants turn =>
    (active_durable_turn_id a = Some turn ->
     complete_execution lease st act w = settle (bool_decide (pending_deferred_release a = Some turn)) (Some turn)) /\
    (active_durable_turn_id a <> Some turn ->
     complete_execution lease st act w = (release_execution (lease_path lease) (lease_marker lease) w,
                                          Err (StaleExecution (lease_path lease))))
  | _ => complete_execution lease st act w = settle (promotes_on_completion st) None
  end.
Proof.
  intros Hwf Ha Hm settle.
  assert (Ho : owns_marker (lease_marker lease) a = true) by by apply bool_decide_eq_true.
  pose proof (entry_marker _ _ _ (wf_entry _ _ Hwf _ _ Ha) _ Hm) as Hlt.
  assert (Hs : forall promotes awaiting,
    (let a' := idle (of_inactive st) act awaiting (promote_if promotes a) in
     let t := update_agent (lease_path lease) a' (tree w) in
     let t := if is_root (lease_path lease) then set_pending_root None t else t in
     let '(w', scheduled) := schedule_unless_cancelled true (set_tree t w) in
     (lease_drop lease (notify_activity w'), Ok scheduled)) = settle promotes awaiting).
  { intros promotes awaiting. unfold settle. cbv zeta.
    match goal with |- context [schedule_unless_cancelled true ?x] => set (w1 := x) end.
    assert (Ha1 : agents (tree w1) !! lease_path lease = Some (idle (of_inactive st) act awaiting (promote_if promotes a))).
    { unfold w1. cbn [tree set_tree]. destruct (is_root _); apply lookup_insert_eq. }
    pose proof (scheduled_marker true w1 (lease_path lease) _ (lease_marker lease) Ha1 ltac:(done) Hlt) as Hr.
    destruct (schedule_unless_cancelled true w1) as [w' ls]. cbn [fst] in Hr. unfold lease_drop.
    by rewrite (release_notify _ _ _ Hr). }
  unfold complete_execution. cbv zeta. rewrite Ha, Ho. cbn [negb].
  destruct st; try (apply (Hs _ None)).
  split; intros Ht; [rewrite decide_False by (by intros H)|rewrite decide_True by done]; [apply (Hs _ (Some turn))|done].
Qed.

(** The release of a waiting generation and its completion commute.  A release that reaches
    the agent while the turn still runs is latched and the completion promotes its triggers; one
    that comes after the completion promotes them then, with the same entry either way.  A
    release of any other turn, of a cancelled run or of a shut-down agent changes nothing. *)
Theorem deferred_release_commutes_with_completion a turn act :
  lifecycle_ok a -> active_durable_turn_id a = Some turn ->
  let await x := idle AwaitingDescendants act (Some turn)
                   (promote_if (bool_decide (pending_deferred_release x = Some turn)) x) in
  let released_first := fst (project_deferred_owner_release None a (Some turn)) in
  let completed_first := project_deferred_owner_release None (await (set_turns (Some turn) None None a)) (Some turn) in
  await released_first = promote_if (snd completed_first) (fst completed_first) /\
  pending_deferred_release released_first = Some turn /\
  (forall k r x, Some turn <> r \/ is_Some k -> lifecycle_ok x ->
     active_durable_turn_id x = Some turn -> project_deferred_owner_release k x r = (x, false)) /\
  (forall k r x, lifecycle_ok x -> is_shutdown x = true -> project_deferred_owner_release k x r = (x, false)).
Proof.
  intros Hl Ht await released_first completed_first.
  assert (Hm : has_marker a = true) by (apply (active_turn _ Hl); by rewrite Ht).
  assert (Hsd : is_shutdown a = false).
  { unfold is_shutdown. by destruct (active_status _ Hl Hm) as [-> | ->]. }
  split_and!.
  - unfold completed_first, released_first, await, project_deferred_owner_release. rewrite Hsd, Hm, decide_True by done.
    simpl. rewrite !bool_decide_true by done. done.
  - unfold released_first, project_deferred_owner_release. by rewrite Hsd, Hm, decide_True by done.
  - intros k r x Hr Hx Hxt. unfold project_deferred_owner_release. destruct r as [r|]; [|done].
    assert (Hxm : has_marker x = true) by (apply (active_turn _ Hx); by rewrite Hxt). rewrite Hxm.
    destruct Hr as [Hr|[k' ->]]; [|by rewrite orb_true_r]. destruct (_ || _); [done|].
    rewrite decide_False; [done|]. intros E. rewrite Hxt in E. done.
  - intros k [r|] x Hx Hxs; [|done]. unfold project_deferred_owner_release. by rewrite Hxs.
Qed.

(** ** The properties at small states *)

Definition demo_later (token_and_world : AgentWorld * result TerminalToken AgentControlError) : AgentWorld :=
  fst (restore_pending_mail (lit "/root/a") 6 true (fst token_and_world)).
Definition demo_terminal := begin_durable_terminal (lit "/root/a") demo_ready.
Definition demo_purge : TerminalToken :=
  {| terminal_path := lit "/root/a"; terminal_session := 8; terminal_epoch := 1; purge_through_generation := 1;
     terminal_owner_resume := None |}.

Lemma durable_terminal_purges_witness :
  exists w1 b b', demo_terminal = (w1, Ok demo_purge) /\
    agents (tree (demo_later demo_terminal)) !! lit "/root/a" = Some b /\
    map history_item_id (mailbox b) = [5%N; 6%N] /\
    agents (tree (finish_durable_terminal demo_purge (demo_later demo_terminal))) !! lit "/root/a" = Some b' /\
    map history_item_id (mailbox b') = [6%N].
Proof.
  assert (H : exists b, agents (tree (demo_later demo_terminal)) !! lit "/root/a" = Some b /\
    session_id b = 8%N /\ trigger_admission_epoch b = 1%N /\
    map (fun n => (history_item_id n, trigger_turn n, notice_generation n)) (mailbox b) = [(5%N, true, 1%N); (6%N, true, 2%N)] /\
    map history_item_id (mailbox b) = [5%N; 6%N] /\
    map history_item_id (List.filter (fun n => negb (trigger_turn n) || (1 <? notice_generation n)%N) (mailbox b)) = [6%N]).
  { eexists. split_and!; vm_compute; reflexivity. }
  destruct H as (b & Hb & Hs & He & _ & Hids & Hkept).
  assert (E : exists w1, demo_terminal = (w1, Ok demo_purge)) by (eexists; vm_compute; reflexivity).
  destruct E as [w1 E].
  destruct (durable_terminal_purges_only_older_triggers _ _ _ _ _ _ E Hb Hs He)
    as (a & a1 & b' & Ha & _ & _ & _ & _ & _ & Hb' & Hm & _).
  exists w1, b, b'. split; [exact E|]. split; [exact Hb|]. split; [exact Hids|]. split; [exact Hb'|].
  rewrite Hm, <- Hkept.
  replace (mailbox_generation a) with 1%N; [done|].
  assert (Eg : exists x, agents (tree demo_ready) !! lit "/root/a" = Some x /\ mailbox_generation x = 1%N)
    by (eexists; split; vm_compute; reflexivity).
  destruct Eg as (x & Ex & Eg). pose proof (eq_trans (eq_sym Ha) Ex) as Eax%(inj Some). by rewrite Eax.
Defined.

Lemma completion_settles_witness :
  snd (complete_execution demo_lease (InactiveCompleted None) None demo_child) = Ok [] /\
  (forall p, status <$> agents (tree (fst (complete_execution demo_lease (InactiveCompleted None) None demo_child))) !! lit "/root/a" = Some p ->
    p = Completed None).
Proof.
  assert (H : exists a, agents (tree demo_child) !! lit "/root/a" = Some a /\ execution_marker a = Some 1%N).
  { eexists. split; vm_compute; reflexivity. }
  destruct H as (a & Ha & Hm).
  assert (Hwf : tree_wf (next_marker demo_child) (tree demo_child))
    by exact (ok_tree _ (reachable_ok (D:=unit) (T:=unit) _ demo_child_reachable)).
  pose proof (completion_settles_the_owned_execution demo_child demo_lease (InactiveCompleted None) None a Hwf Ha Hm) as H.
  cbv zeta in H. rewrite H. clear H. assert (E : agents (tree demo_child) !! lit "/root/a" =
    Some (new_entry 8 (Some ROOT) 1 PendingInit None (Some 1%N) 2 None)) by (vm_compute; reflexivity).
  rewrite E in Ha. injection Ha as <-. split; [vm_compute; reflexivity|].
  intros p Hp. vm_compute in Hp. by injection Hp.
Defined.

Definition demo_waiting : AgentEntry :=
  set_turns (Some 9%N) None None (push_notice 5 true false (set_execution Running (Some 1%N) 2
    (new_entry 8 (Some ROOT) 1 PendingInit None (Some 1%N) 2 None))).

Lemma deferred_release_commutes_witness :
  pending_deferred_release (fst (project_deferred_owner_release None demo_waiting (Some 9%N))) = Some 9%N /\
  map schedule_ready (mailbox demo_waiting) = [false].
Proof.
  split; [|reflexivity]. apply (deferred_release_commutes_with_completion demo_waiting 9 None); [|reflexivity].
  constructor; simpl; try done. by right.
Defined.
