(* ===== verification/PermissionFence.v ===== *)
(** * The permission retry fence (src/src/storage/permission_retry_fence.rs)

    A table of SQLite with one row per root session and effect family.  A review claims its
    family, the row then records what became of it, and as long as the user has not spoken again
    (the authority item of the root session is the same) the family stays fenced.  The table is a
    finite map from its primary key; the statements of the store are functions on it, with the
    constraints and triggers of migrations/V54__permission_retry_fences.sql written out.  A
    statement or transaction may fail for reasons of its own (argument [io]); it is then rolled
    back.  Identifiers are ULIDs stored as text; their codec is a third-party crate and an
    interface here. *)
From S2P Require Import Prelude.
From S2P Require Import Text.

(** [Ulid::to_string] and [Ulid::from_string], with the text of a decoding error. *)
Class Ulid := {
  ulid_to_string : N -> text;
  ulid_from_string : text -> result N text
}.
Class UlidLaws (U : Ulid) : Prop := {
  ulid_round_trip u : ulid_from_string (ulid_to_string u) = Ok u;
  ulid_not_empty u : ulid_to_string u <> []
}.

Abbreviation HistoryItemId := N (only parsing).
Abbreviation PermissionReviewId := N (only parsing).

(** ** Data *)

(** The variants of [StorageError] this store produces. *)
Inductive StorageError :=
  | Sqlite (error : text)
  | Message (message : text).

Record PermissionRetryFenceKey :=
  { root_session_id : SessionId; family_version : N; family_sha256 : text }.

Inductive PermissionRetryFenceState := Reviewing | AllowedPending | StateAdmitted | Denied.

Inductive PermissionRetryFenceOutcome :=
  | GuardianDenied | InvalidDecision | DeadlineExceeded | GuardianError.

Record PermissionRetryFenceRecord := {
  record_key : PermissionRetryFenceKey;
  record_authority : HistoryItemId;
  record_state : PermissionRetryFenceState;
  record_review_id : PermissionReviewId;
  record_identity_sha256 : text;
  record_outcome : option PermissionRetryFenceOutcome;
  record_created_at_ms : Z;
  record_updated_at_ms : Z
}.

Record PermissionReviewClaim := {
  claim_key : PermissionRetryFenceKey;
  claim_authority : HistoryItemId;
  claim_review_id : PermissionReviewId;
  claim_identity_sha256 : text
}.

(** A [PermissionReviewLease] is a handle on the store and this claim. *)
Inductive BeginPermissionReview :=
  | Claimed (lease : PermissionReviewClaim)
  | Blocked (record : PermissionRetryFenceRecord)
  | BeginAuthorityChanged (current_authority_history_item_id : option HistoryItemId).

Inductive PermissionReviewTransition := TransitionApplied | TransitionNotOwned.

Inductive PermissionEffectAdmission :=
  | EffectAdmitted
  | AuthorityChanged (current_authority_history_item_id : option HistoryItemId)
  | EffectNotOwned.

#[export] Instance PermissionRetryFenceKey_eq_dec : EqDecision PermissionRetryFenceKey.
Proof. solve_decision. Defined.
#[export] Instance PermissionRetryFenceState_eq_dec : EqDecision PermissionRetryFenceState.
Proof. solve_decision. Defined.
#[export] Instance PermissionRetryFenceOutcome_eq_dec : EqDecision PermissionRetryFenceOutcome.
Proof. solve_decision. Defined.
#[export] Instance PermissionReviewClaim_eq_dec : EqDecision PermissionReviewClaim.
Proof. solve_decision. Defined.

(** ** Validation *)

(** The bytes of a scalar outside ASCII are no hexadecimal digits. *)
Definition is_lower_hex (c : char) : bool :=
  (48 <=? c)%N && (c <=? 57)%N || (97 <=? c)%N && (c <=? 102)%N.

Definition validate_sha256 (value label : text) : result unit StorageError :=
  if negb (byte_len value =? 64)%N || negb (forallb is_lower_hex value)
  then Err (Message (label ++ lit " SHA-256 must be exactly 64 lowercase hexadecimal characters"))
  else Ok tt.

Definition validate_timestamp (value : Z) : result unit StorageError :=
  if (value <? 0)%Z then Err (Message (lit "permission retry fence timestamp must be non-negative")) else Ok tt.

(** [PermissionRetryFenceKey::new] *)
Definition key_new (root : SessionId) (version : N) (sha : text) : result PermissionRetryFenceKey StorageError :=
  if (version =? 0)%N then Err (Message (lit "permission retry fence family version must be positive"))
  else
    let? _ := validate_sha256 sha (lit "permission retry fence family") in
    Ok {| root_session_id := root; family_version := version; family_sha256 := sha |}.

(** ** Text of the enums *)

(** The literals of the SQL statements. *)
Definition state_text (s : PermissionRetryFenceState) : text :=
  match s with
  | Reviewing => lit "reviewing"
  | AllowedPending => lit "allowed_pending"
  | StateAdmitted => lit "admitted"
  | Denied => lit "denied"
  end.

Definition state_parse (value : text) : result PermissionRetryFenceState StorageError :=
  if text_eqb value (lit "reviewing") then Ok Reviewing
  else if text_eqb value (lit "allowed_pending") then Ok AllowedPending
  else if text_eqb value (lit "admitted") then Ok StateAdmitted
  else if text_eqb value (lit "denied") then Ok Denied
  else Err (Message (lit "permission retry fence has invalid state `" ++ value ++ lit "`")).

Definition outcome_text (o : PermissionRetryFenceOutcome) : text :=
  match o with
  | GuardianDenied => lit "guardian_denied"
  | InvalidDecision => lit "invalid_decision"
  | DeadlineExceeded => lit "deadline_exceeded"
  | GuardianError => lit "guardian_error"
  end.

Definition outcome_parse (value : text) : result PermissionRetryFenceOutcome StorageError :=
  if text_eqb value (lit "guardian_denied") then Ok GuardianDenied
  else if text_eqb value (lit "invalid_decision") then Ok InvalidDecision
  else if text_eqb value (lit "deadline_exceeded") then Ok DeadlineExceeded
  else if text_eqb value (lit "guardian_error") then Ok GuardianError
  else Err (Message (lit "permission retry fence has invalid outcome `" ++ value ++ lit "`")).
#[global] Arguments state_text : simpl never.
#[global] Arguments outcome_text : simpl never.

(** ** The database *)

(** [PRIMARY KEY(root_session_id, family_version, family_sha256)] *)
Definition FencePk : Type := text * Z * text.

Record FenceRow := {
  authority_history_item_id : text;
  state : text;
  review_id : text;
  identity_sha256 : text;
  outcome : option text;
  created_at_ms : Z;
  updated_at_ms : Z
}.

(** A row of [protocol_history_items] joined with its row of [protocol_item_append_order]. *)
Record HistoryRow := { history_session_id : text; history_id : text; history_kind : text }.

(** The history is kept in append order. *)
Record Connection := {
  fences : gmap FencePk FenceRow;
  history : list HistoryRow;
  busy_timeout_ms : N
}.

Record SqlitePermissionRetryFenceStore := { poisoned : bool; connection : Connection }.

Definition set_fences (f : gmap FencePk FenceRow) (c : Connection) : Connection :=
  {| fences := f; history := history c; busy_timeout_ms := busy_timeout_ms c |}.
Definition set_connection (c : Connection) (s : SqlitePermissionRetryFenceStore) : SqlitePermissionRetryFenceStore :=
  {| poisoned := poisoned s; connection := c |}.

(** [json_extract(history.payload_json, '$.kind') IN ('user_turn', 'steer_turn')] *)
Definition is_authority_kind (kind : text) : bool :=
  text_eqb kind (lit "user_turn") || text_eqb kind (lit "steer_turn").
Definition is_authority_of (root : text) (row : HistoryRow) : bool :=
  text_eqb (history_session_id row) root && is_authority_kind (history_kind row).

(** The [EXISTS] of both triggers. *)
Definition is_authority_item (root item : text) (c : Connection) : bool :=
  existsb (fun row => is_authority_of root row && text_eqb (history_id row) item) (history c).

(** The [CHECK] constraints of the table. *)
Definition glob_sha256 (value : text) : bool :=
  (length value =? 64) && forallb is_lower_hex value.
Definition row_check (pk : FencePk) (row : FenceRow) : bool :=
  let '(_, version, sha) := pk in
  ((0 <? version) && (version <=? 4294967295))%Z
  && glob_sha256 sha
  && existsb (text_eqb (state row)) (map state_text [Reviewing; AllowedPending; StateAdmitted; Denied])
  && negb (is_empty (review_id row))
  && glob_sha256 (identity_sha256 row)
  && match outcome row with
     | None => true
     | Some o => existsb (text_eqb o) (map outcome_text [GuardianDenied; InvalidDecision; DeadlineExceeded; GuardianError])
     end
  && (0 <=? created_at_ms row)%Z && (0 <=? updated_at_ms row)%Z && (created_at_ms row <=? updated_at_ms row)%Z
  && match outcome row with
     | Some _ => text_eqb (state row) (state_text Denied)
     | None => negb (text_eqb (state row) (state_text Denied))
     end.

(** The trigger [validate_permission_retry_fence_before_insert]. *)
Definition insert_trigger_aborts (pk : FencePk) (row : FenceRow) (c : Connection) : bool :=
  let '(root, _, _) := pk in
  negb (text_eqb (state row) (state_text Reviewing))
  || match outcome row with Some _ => true | None => false end
  || negb (is_authority_item root (authority_history_item_id row) c).

(** The trigger [validate_permission_retry_fence_before_update]; the statements do not assign the
    key. *)
Definition lifecycle_allows (old new : FenceRow) : bool :=
  text_eqb (state old) (state_text Reviewing) && text_eqb (state new) (state_text AllowedPending)
    && match outcome new with None => true | Some _ => false end
  || text_eqb (state old) (state_text Reviewing) && text_eqb (state new) (state_text Denied)
    && match outcome new with None => false | Some _ => true end
  || text_eqb (state old) (state_text AllowedPending) && text_eqb (state new) (state_text StateAdmitted)
    && match outcome new with None => true | Some _ => false end.
Definition update_trigger_allows (pk : FencePk) (old new : FenceRow) (c : Connection) : bool :=
  let '(root, _, _) := pk in
  text_eqb (authority_history_item_id old) (authority_history_item_id new)
  && text_eqb (review_id old) (review_id new)
  && text_eqb (identity_sha256 old) (identity_sha256 new)
  && (created_at_ms old =? created_at_ms new)%Z
  && (updated_at_ms old <=? updated_at_ms new)%Z
  && is_authority_item root (authority_history_item_id new) c
  && lifecycle_allows old new.

Definition insert_fence (pk : FencePk) (row : FenceRow) (c : Connection) : result Connection StorageError :=
  if insert_trigger_aborts pk row c
  then Err (Sqlite (lit "permission retry fence must start as reviewing at an exact canonical root authority item"))
  else if bool_decide (is_Some (fences c !! pk)) then Err (Sqlite (lit "UNIQUE constraint failed"))
  else if negb (row_check pk row) then Err (Sqlite (lit "CHECK constraint failed"))
  else Ok (set_fences (<[pk := row]> (fences c)) c).

(** [UPDATE ... SET ... WHERE] key and condition; the number of changed rows. *)
Definition update_fence (pk : FencePk) (cond : FenceRow -> bool) (assign : FenceRow -> FenceRow) (c : Connection)
    : result (Connection * nat) StorageError :=
  match fences c !! pk with
  | Some row =>
    if cond row then
      if negb (update_trigger_allows pk row (assign row) c)
      then Err (Sqlite (lit "invalid permission retry fence lifecycle transition"))
      else if negb (row_check pk (assign row)) then Err (Sqlite (lit "CHECK constraint failed"))
      else Ok (set_fences (<[pk := assign row]> (fences c)) c, 1)
    else Ok (c, 0)
  | None => Ok (c, 0)
  end.

(** [DELETE ... WHERE] key and condition; the number of deleted rows. *)
Definition delete_fence (pk : FencePk) (cond : FenceRow -> bool) (c : Connection) : Connection * nat :=
  match fences c !! pk with
  | Some row => if cond row then (set_fences (delete pk (fences c)) c, 1) else (c, 0)
  | None => (c, 0)
  end.

(** ** Reading *)

Section Store.
Context `{Ulid}.

Definition key_pk (key : PermissionRetryFenceKey) : FencePk :=
  (ulid_to_string (root_session_id key), Z.of_N (family_version key), family_sha256 key).

Definition latest_authority_history_item_id (root : SessionId) (c : Connection)
    : result (option HistoryItemId) StorageError :=
  match last (filter (fun row => is_authority_of (ulid_to_string root) row = true) (history c)) with
  | None => Ok None
  | Some row =>
    match ulid_from_string (history_id row) with
    | Ok id => Ok (Some id)
    | Err error => Err (Message (lit "canonical permission authority item id `" ++ history_id row ++
                                 lit "` is invalid: " ++ error))
    end
  end.

(** [value.parse()] with the message of [what]. *)
Definition parse_id (what value : text) : result N StorageError :=
  match ulid_from_string value with
  | Ok id => Ok id
  | Err error => Err (Message (lit "permission retry fence " ++ what ++ lit " `" ++ value ++
                               lit "` is invalid: " ++ error))
  end.

(** [u32::try_from] *)
Definition u32_try_from (value : Z) : result N StorageError :=
  if ((0 <=? value) && (value <=? Z.of_N u32_max))%Z then Ok (Z.to_N value)
  else Err (Message (lit "permission retry fence family version `" ++ lit (pretty value) ++ lit "` is invalid")).

Definition decode_record (pk : FencePk) (row : FenceRow) : result PermissionRetryFenceRecord StorageError :=
  let '(root, version, sha) := pk in
  let? root_session_id := parse_id (lit "root session id") root in
  let? family_version := u32_try_from version in
  let? key := key_new root_session_id family_version sha in
  let? authority := parse_id (lit "authority item id") (authority_history_item_id row) in
  let? review := parse_id (lit "review id") (review_id row) in
  let? _ := validate_sha256 (identity_sha256 row) (lit "permission retry fence identity") in
  let? st := state_parse (state row) in
  let? out := match outcome row with
              | None => Ok None
              | Some value => let? o := outcome_parse value in Ok (Some o)
              end in
  let? _ := validate_timestamp (created_at_ms row) in
  let? _ := validate_timestamp (updated_at_ms row) in
  if (updated_at_ms row <? created_at_ms row)%Z
  then Err (Message (lit "permission retry fence update precedes its creation"))
  else if negb (Bool.eqb (bool_decide (st = Denied)) (match out with Some _ => true | None => false end))
  then Err (Message (lit "permission retry fence state and outcome disagree"))
  else Ok {| record_key := key; record_authority := authority; record_state := st;
             record_review_id := review; record_identity_sha256 := identity_sha256 row;
             record_outcome := out; record_created_at_ms := created_at_ms row;
             record_updated_at_ms := updated_at_ms row |}.

Definition record_for_key (key : PermissionRetryFenceKey) (c : Connection)
    : result (option PermissionRetryFenceRecord) StorageError :=
  match fences c !! key_pk key with
  | None => Ok None
  | Some row => let? r := decode_record (key_pk key) row in Ok (Some r)
  end.

(** ** Statements about one claim *)

(** The part of a [WHERE] clause that compares the row with a claim. *)
Definition claim_matches (claim : PermissionReviewClaim) (row : FenceRow) : bool :=
  text_eqb (authority_history_item_id row) (ulid_to_string (claim_authority claim))
  && text_eqb (review_id row) (ulid_to_string (claim_review_id claim))
  && text_eqb (identity_sha256 row) (claim_identity_sha256 claim).

Definition in_states (states : list PermissionRetryFenceState) (row : FenceRow) : bool :=
  existsb (text_eqb (state row)) (map state_text states).

Definition delete_owned_non_denied (claim : PermissionReviewClaim) (c : Connection) : Connection * nat :=
  delete_fence (key_pk (claim_key claim))
    (fun row => claim_matches claim row && in_states [Reviewing; AllowedPending; StateAdmitted] row) c.

Definition delete_owned_approved_effect (claim : PermissionReviewClaim) (c : Connection) : Connection * nat :=
  delete_fence (key_pk (claim_key claim))
    (fun row => claim_matches claim row && in_states [AllowedPending; StateAdmitted] row) c.

(** The [UPDATE] of [transition_reviewing] and the one of [admit_if_authority_current]. *)
Definition assign_transition (st : PermissionRetryFenceState) (out : option PermissionRetryFenceOutcome) (now_ms : Z)
    (row : FenceRow) : FenceRow :=
  {| authority_history_item_id := authority_history_item_id row; state := state_text st;
     review_id := review_id row; identity_sha256 := identity_sha256 row;
     outcome := outcome_text <$> out; created_at_ms := created_at_ms row; updated_at_ms := now_ms |}.
Definition assign_admitted (now_ms : Z) (row : FenceRow) : FenceRow :=
  {| authority_history_item_id := authority_history_item_id row; state := state_text StateAdmitted;
     review_id := review_id row; identity_sha256 := identity_sha256 row;
     outcome := outcome row; created_at_ms := created_at_ms row; updated_at_ms := now_ms |}.

(** [SELECT EXISTS] of the admitted row of a claim. *)
Definition already_admitted (claim : PermissionReviewClaim) (c : Connection) : bool :=
  match fences c !! key_pk (claim_key claim) with
  | Some row => claim_matches claim row && in_states [StateAdmitted] row
  | None => false
  end.

(** ** The operations of the store *)

(** Lock the connection and run one transaction or one statement: it commits, or fails and is
    rolled back. *)
Definition with_transaction {A} (io : option text) (body : Connection -> result (Connection * A) StorageError)
    (s : SqlitePermissionRetryFenceStore) : SqlitePermissionRetryFenceStore * result A StorageError :=
  if poisoned s then (s, Err (Message (lit "permission retry fence storage mutex is poisoned")))
  else
    match io with
    | Some error => (s, Err (Sqlite error))
    | None =>
      match body (connection s) with
      | Ok (c, a) => (set_connection c s, Ok a)
      | Err e => (s, Err e)
      end
    end.

Definition reviewing_row (authority : HistoryItemId) (review : PermissionReviewId) (identity : text) (now_ms : Z) : FenceRow :=
  {| authority_history_item_id := ulid_to_string authority; state := state_text Reviewing;
     review_id := ulid_to_string review; identity_sha256 := identity; outcome := None;
     created_at_ms := now_ms; updated_at_ms := now_ms |}.

(** [review] is the identifier drawn by [PermissionReviewId::new]. *)
Definition claim_family (key : PermissionRetryFenceKey) (authority : HistoryItemId) (identity : text) (now_ms : Z)
    (review : PermissionReviewId) (c : Connection) : result (Connection * BeginPermissionReview) StorageError :=
  let? c := insert_fence (key_pk key) (reviewing_row authority review identity now_ms) c in
  Ok (c, Claimed {| claim_key := key; claim_authority := authority; claim_review_id := review;
                    claim_identity_sha256 := identity |}).

Definition begin_review_body (key : PermissionRetryFenceKey) (authority : HistoryItemId) (identity : text) (now_ms : Z)
    (review : PermissionReviewId) (c : Connection) : result (Connection * BeginPermissionReview) StorageError :=
  let? current := latest_authority_history_item_id (root_session_id key) c in
  if bool_decide (current <> Some authority) then Ok (c, BeginAuthorityChanged current)
  else
    let? existing := record_for_key key c in
    match existing with
    | Some existing =>
      if bool_decide (record_authority existing = authority) then Ok (c, Blocked existing)
      else claim_family key authority identity now_ms review (fst (delete_fence (key_pk key) (fun _ => true) c))
    | None => claim_family key authority identity now_ms review c
    end.

Definition begin_review_at (io : option text) (key : PermissionRetryFenceKey) (authority : HistoryItemId)
    (identity : text) (now_ms : Z) (review : PermissionReviewId) (s : SqlitePermissionRetryFenceStore)
    : SqlitePermissionRetryFenceStore * result BeginPermissionReview StorageError :=
  match (let? _ := validate_timestamp now_ms in
         validate_sha256 identity (lit "permission retry fence identity")) with
  | Err e => (s, Err e)
  | Ok _ => with_transaction io (begin_review_body key authority identity now_ms review) s
  end.

(** [if updated == 1 { Applied } else { NotOwned }] *)
Definition transition_of (n : nat) : PermissionReviewTransition :=
  if n =? 1 then TransitionApplied else TransitionNotOwned.

Definition transition_reviewing (io : option text) (claim : PermissionReviewClaim) (st : PermissionRetryFenceState)
    (out : option PermissionRetryFenceOutcome) (now_ms : Z) (s : SqlitePermissionRetryFenceStore)
    : SqlitePermissionRetryFenceStore * result PermissionReviewTransition StorageError :=
  match validate_timestamp now_ms with
  | Err e => (s, Err e)
  | Ok _ =>
    with_transaction io
      (fun c =>
         let? (c, updated) := update_fence (key_pk (claim_key claim))
                                (fun row => claim_matches claim row && in_states [Reviewing] row)
                                (assign_transition st out now_ms) c in
         Ok (c, transition_of updated)) s
  end.

Definition mark_allowed_pending (io : option text) (claim : PermissionReviewClaim) (now_ms : Z) :=
  transition_reviewing io claim AllowedPending None now_ms.

Definition mark_denied (io : option text) (claim : PermissionReviewClaim) (out : PermissionRetryFenceOutcome)
    (now_ms : Z) :=
  transition_reviewing io claim Denied (Some out) now_ms.

Definition admit_body (claim : PermissionReviewClaim) (now_ms : Z) (c : Connection)
    : result (Connection * PermissionEffectAdmission) StorageError :=
  let? current := latest_authority_history_item_id (root_session_id (claim_key claim)) c in
  if bool_decide (current <> Some (claim_authority claim))
  then Ok (fst (delete_owned_non_denied claim c), AuthorityChanged current)
  else
    let? (c, updated) := update_fence (key_pk (claim_key claim))
                           (fun row => claim_matches claim row && in_states [AllowedPending] row)
                           (assign_admitted now_ms) c in
    let already_admitted := if updated =? 0 then already_admitted claim c else false in
    Ok (c, if (updated =? 1) || already_admitted then EffectAdmitted else EffectNotOwned).

Definition admit_if_authority_current (io : option text) (claim : PermissionReviewClaim) (now_ms : Z)
    (s : SqlitePermissionRetryFenceStore) : SqlitePermissionRetryFenceStore * result PermissionEffectAdmission StorageError :=
  match validate_timestamp now_ms with
  | Err e => (s, Err e)
  | Ok _ => with_transaction io (admit_body claim now_ms) s
  end.

Definition release (io : option text) (claim : PermissionReviewClaim) (s : SqlitePermissionRetryFenceStore)
    : SqlitePermissionRetryFenceStore * result PermissionReviewTransition StorageError :=
  with_transaction io
    (fun c => let '(c, deleted) := delete_owned_non_denied claim c in Ok (c, transition_of deleted)) s.

Definition record (io : option text) (key : PermissionRetryFenceKey) (s : SqlitePermissionRetryFenceStore)
    : SqlitePermissionRetryFenceStore * result (option PermissionRetryFenceRecord) StorageError :=
  with_transaction io (fun c => let? r := record_for_key key c in Ok (c, r)) s.

(** ** Cleanup *)

Definition set_busy_timeout (ms : N) (s : SqlitePermissionRetryFenceStore) : SqlitePermissionRetryFenceStore :=
  set_connection {| fences := fences (connection s); history := history (connection s); busy_timeout_ms := ms |} s.

(** [busy]: another handle holds the lock.  Each statement has its own failure: reading the
    timeout, setting it to zero, the [DELETE], restoring the timeout. *)
Definition release_approved_effect (busy : bool) (io_read io_zero io_delete io_restore : option text)
    (claim : PermissionReviewClaim) (s : SqlitePermissionRetryFenceStore)
    : SqlitePermissionRetryFenceStore * result PermissionReviewTransition StorageError :=
  if busy then (s, Err (Message (lit "permission retry fence storage is busy")))
  else if poisoned s then (s, Err (Message (lit "permission retry fence storage mutex is poisoned")))
  else
    match io_read with
    | Some error => (s, Err (Sqlite error))
    | None =>
      let timeout := busy_timeout_ms (connection s) in
      match io_zero with
      | Some error => (s, Err (Sqlite error))
      | None =>
        let s := set_busy_timeout 0 s in
        let '(s, delete_result) :=
          match io_delete with
          | Some error => (s, Err (Sqlite error))
          | None => let '(c, deleted) := delete_owned_approved_effect claim (connection s) in
                    (set_connection c s, Ok deleted)
          end in
        let '(s, restore_result) :=
          match io_restore with
          | Some error => (s, Err (Sqlite error))
          | None => (set_busy_timeout timeout s, Ok tt)
          end in
        (s, let? deleted := delete_result in
            let? _ := restore_result in
            Ok (transition_of deleted))
      end
    end.

(** [Drop for PermissionReviewLeaseInner] ignores the result. *)
Definition lease_drop (busy : bool) (io_read io_zero io_delete io_restore : option text)
    (claim : PermissionReviewClaim) (s : SqlitePermissionRetryFenceStore) : SqlitePermissionRetryFenceStore :=
  fst (release_approved_effect busy io_read io_zero io_delete io_restore claim s).
End Store.
