(* ===== verification/PermissionFenceFacts.v ===== *)
(** * The retry fence: its rows as records, and what the operations do to them

    Every row the store can reach is the encoding of a valid record ([fences_ok]); under that
    invariant the statements of the store are exactly the lifecycle of [spec_begin],
    [spec_transition], [spec_admit] and [spec_release] on records. *)
From S2P Require Import Prelude.
From S2P Require Import Text.
From S2P Require Import PermissionFence.

(** ** Validation *)

Lemma hex_len_utf8 c : is_lower_hex c = true -> len_utf8 c = 1%N.
Proof.
  unfold is_lower_hex, len_utf8. intros E.
  destruct (N.ltb_spec c 128) as [|Hc]; [done|].
  destruct (N.leb_spec c 57), (N.leb_spec c 102); try lia; rewrite ?andb_false_r in E; done.
Qed.

Lemma hex_byte_len v : forallb is_lower_hex v = true -> byte_len v = N.of_nat (length v).
Proof.
  induction v as [|c v IH]; [done|]. cbn [forallb]. intros [Hc Hv]%andb_true_iff.
  cbn [byte_len length]. rewrite (hex_len_utf8 _ Hc), (IH Hv). lia.
Qed.

(** The check of the code and the constraint of the table agree. *)
Lemma validate_sha256_glob v l : validate_sha256 v l = Ok tt <-> glob_sha256 v = true.
Proof.
  unfold validate_sha256, glob_sha256.
  destruct (forallb is_lower_hex v) eqn:E; rewrite ?orb_true_r, ?andb_false_r, ?andb_true_r, ?orb_false_r; [|done].
  rewrite (hex_byte_len _ E). destruct (N.eqb_spec (N.of_nat (length v)) 64), (Nat.eqb_spec (length v) 64); simpl; try done; lia.
Qed.

Lemma validate_timestamp_ok z : validate_timestamp z = Ok tt <-> (0 <= z)%Z.
Proof. unfold validate_timestamp. destruct (Z.ltb_spec z 0); split; try done; lia. Qed.

Lemma state_parse_text s : state_parse (state_text s) = Ok s.
Proof. by destruct s. Qed.
Lemma outcome_parse_text o : outcome_parse (outcome_text o) = Ok o.
Proof. by destruct o. Qed.

Lemma state_text_eqb a b : text_eqb (state_text a) (state_text b) = bool_decide (a = b).
Proof. by destruct a, b. Qed.

#[export] Hint Rewrite state_parse_text outcome_parse_text state_text_eqb text_eqb_refl : fence.

Section Facts.
Context {U : Ulid} {UL : UlidLaws U}.
Implicit Types (c : Connection) (s : SqlitePermissionRetryFenceStore) (key : PermissionRetryFenceKey)
  (claim : PermissionReviewClaim).
Local Abbreviation Record' := PermissionRetryFenceRecord (only parsing).

Lemma ulid_to_string_inj a b : ulid_to_string a = ulid_to_string b -> a = b.
Proof. intros E. apply (f_equal ulid_from_string) in E. rewrite !ulid_round_trip in E. by injection E. Qed.

Lemma ulid_text_eqb a b : text_eqb (ulid_to_string a) (ulid_to_string b) = bool_decide (a = b).
Proof.
  case_bool_decide as E; [by subst; apply text_eqb_refl|].
  apply text_eqb_neq. intros F. by apply E, ulid_to_string_inj.
Qed.

Lemma key_pk_inj k k' : key_pk k = key_pk k' -> k = k'.
Proof.
  destruct k as [a b d], k' as [a' b' d']. unfold key_pk; cbn. intros [= E1%ulid_to_string_inj E2 ->].
  apply N2Z.inj in E2. by subst.
Qed.

(** ** Valid records and their rows *)

Definition valid_key (key : PermissionRetryFenceKey) : Prop :=
  (0 < family_version key <= u32_max)%N /\ glob_sha256 (family_sha256 key) = true.

Record valid_record (r : Record') : Prop := {
  valid_record_key : valid_key (record_key r);
  valid_identity : glob_sha256 (record_identity_sha256 r) = true;
  valid_times : (0 <= record_created_at_ms r <= record_updated_at_ms r)%Z;
  valid_outcome : record_state r = Denied <-> is_Some (record_outcome r)
}.

Definition row_of (r : Record') : FenceRow :=
  {| authority_history_item_id := ulid_to_string (record_authority r); state := state_text (record_state r);
     review_id := ulid_to_string (record_review_id r); identity_sha256 := record_identity_sha256 r;
     outcome := outcome_text <$> record_outcome r; created_at_ms := record_created_at_ms r;
     updated_at_ms := record_updated_at_ms r |}.

Lemma valid_key_new key : valid_key key -> key_new (root_session_id key) (family_version key) (family_sha256 key) = Ok key.
Proof.
  intros [Hv Hs]. unfold key_new. destruct (N.eqb_spec (family_version key) 0); [lia|].
  rewrite (proj2 (validate_sha256_glob _ _) Hs). by destruct key.
Qed.

Lemma decode_row_of r : valid_record r -> decode_record (key_pk (record_key r)) (row_of r) = Ok r.
Proof.
  intros [Hk Hi Ht Ho]. unfold decode_record, key_pk, row_of, parse_id; cbn [and_then].
  rewrite !ulid_round_trip; cbn [and_then]. unfold u32_try_from.
  replace ((0 <=? Z.of_N (family_version (record_key r))) && (Z.of_N (family_version (record_key r)) <=? Z.of_N u32_max))%Z
    with true by (destruct Hk as [Hk _]; symmetry; apply andb_true_iff; lia).
  cbn [and_then]. rewrite N2Z.id, (valid_key_new _ Hk); cbn [and_then].
  cbn [authority_history_item_id state review_id identity_sha256 outcome created_at_ms updated_at_ms].
  rewrite !ulid_round_trip; cbn [and_then]. rewrite (proj2 (validate_sha256_glob _ _) Hi), state_parse_text; cbn [and_then].
  rewrite !(proj2 (validate_timestamp_ok _)) by lia.
  destruct (Z.ltb_spec (record_updated_at_ms r) (record_created_at_ms r)); [lia|].
  destruct r as [k a st rv i [o|] cr up]; cbn in *; rewrite ?outcome_parse_text; cbn [and_then].
  - by rewrite (proj2 Ho ltac:(done)).
  - case_bool_decide as E; [by destruct (proj1 Ho E)|done].
Qed.

Lemma row_check_of r : valid_record r -> row_check (key_pk (record_key r)) (row_of r) = true.
Proof.
  intros [[Hv Hs] Hi Ht Ho]. unfold row_check, key_pk, row_of; cbn [state review_id identity_sha256 outcome created_at_ms updated_at_ms].
  rewrite Hs, Hi. unfold u32_max in Hv.
  assert (negb (is_empty (ulid_to_string (record_review_id r))) = true) as ->.
  { pose proof (ulid_not_empty (record_review_id r)). by destruct (ulid_to_string (record_review_id r)). }
  destruct (Z.ltb_spec 0 (Z.of_N (family_version (record_key r)))); [|lia].
  destruct (Z.leb_spec (Z.of_N (family_version (record_key r))) 4294967295); [|lia].
  destruct (Z.leb_spec 0 (record_created_at_ms r)); [|lia].
  destruct (Z.leb_spec 0 (record_updated_at_ms r)); [|lia].
  destruct (Z.leb_spec (record_created_at_ms r) (record_updated_at_ms r)); [|lia].
  destruct (record_outcome r) as [o|] eqn:Eo; cbn [fmap option_fmap option_map].
  - rewrite (proj2 Ho ltac:(done)). by destruct o.
  - destruct (record_state r) eqn:Es; try done. by destruct (proj1 Ho ltac:(done)).
Qed.

(** ** The invariant of the table *)

Definition fences_ok (c : Connection) : Prop :=
  map_Forall (fun pk row => exists r, valid_record r /\ pk = key_pk (record_key r) /\ row = row_of r
    /\ is_authority_item (ulid_to_string (root_session_id (record_key r))) (ulid_to_string (record_authority r)) c = true)
    (fences c).

(** The record of a key, as [record] reads it. *)
Definition fence (c : Connection) (key : PermissionRetryFenceKey) : option Record' :=
  match record_for_key key c with Ok r => r | Err _ => None end.

Lemma fences_ok_row c key row : fences_ok c -> fences c !! key_pk key = Some row ->
  exists r, row = row_of r /\ record_key r = key /\ valid_record r /\
    is_authority_item (ulid_to_string (root_session_id key)) (ulid_to_string (record_authority r)) c = true.
Proof. intros H E. destruct (H _ _ E) as (r & Hr & ->%key_pk_inj & -> & Hh). eauto. Qed.

Lemma record_for_key_ok c key : fences_ok c ->
  record_for_key key c = Ok (fence c key) /\ fences c !! key_pk key = row_of <$> fence c key.
Proof.
  intros H. unfold fence, record_for_key. destruct (fences c !! key_pk key) as [row|] eqn:E; [|done].
  destruct (fences_ok_row _ _ _ H E) as (r & -> & <- & Hr & _). by rewrite (decode_row_of _ Hr).
Qed.

Lemma fence_Some c key r : fences_ok c -> fence c key = Some r ->
  record_key r = key /\ valid_record r /\
  is_authority_item (ulid_to_string (root_session_id key)) (ulid_to_string (record_authority r)) c = true.
Proof.
  intros H E. pose proof (proj2 (record_for_key_ok _ key H)) as L. rewrite E in L. change (fences c !! key_pk key = Some (row_of r)) in L.
  destruct (fences_ok_row _ _ _ H L) as (r' & Er & Ek & Hr & Hh).
  enough (r = r') as -> by done.
  unfold fence, record_for_key in E. rewrite L, Er, <- Ek, (decode_row_of _ Hr) in E. by injection E.
Qed.

(** The table with the record of one key replaced. *)
Definition put (key : PermissionRetryFenceKey) (f : option Record') (c : Connection) : Connection :=
  set_fences (match f with Some r => <[key_pk key := row_of r]> (fences c) | None => delete (key_pk key) (fences c) end) c.

Lemma history_put key f c : history (put key f c) = history c.
Proof. done. Qed.

Lemma put_ok key f c : fences_ok c ->
  (forall r, f = Some r -> record_key r = key /\ valid_record r /\
     is_authority_item (ulid_to_string (root_session_id key)) (ulid_to_string (record_authority r)) c = true) ->
  fences_ok (put key f c).
Proof.
  intros H Hf. unfold fences_ok, put, set_fences; cbn. destruct f as [r|].
  - apply map_Forall_insert_2; [|exact H]. destruct (Hf r ltac:(done)) as (<- & Hr & Hh). eauto.
  - by apply map_Forall_delete.
Qed.

Lemma fence_put key f c key' : fences_ok (put key f c) -> fences_ok c -> (forall r, f = Some r -> record_key r = key /\ valid_record r) ->
  fence (put key f c) key' = if decide (key' = key) then f else fence c key'.
Proof.
  intros H Hc Hf. unfold fence, record_for_key, put, set_fences; cbn [fences]. case_decide as E.
  - subst. destruct f as [r|]; [rewrite lookup_insert_eq|by rewrite lookup_delete_eq].
    destruct (Hf r ltac:(done)) as [<- Hr]. by rewrite (decode_row_of _ Hr).
  - destruct f; [rewrite lookup_insert_ne|rewrite lookup_delete_ne]; try done; by intros ?%key_pk_inj.
Qed.

(** ** The statements on records *)

Definition claim_of (r : Record') : PermissionReviewClaim :=
  {| claim_key := record_key r; claim_authority := record_authority r;
     claim_review_id := record_review_id r; claim_identity_sha256 := record_identity_sha256 r |}.

Lemma claim_matches_row claim r : record_key r = claim_key claim ->
  claim_matches claim (row_of r) = bool_decide (claim_of r = claim).
Proof.
  destruct r as [k a st rv i o cr up], claim as [k' a' rv' i']. unfold claim_matches, claim_of, row_of; cbn. intros ->.
  rewrite !ulid_text_eqb. destruct (text_eqb i i') eqn:Ei.
  - apply text_eqb_eq in Ei. subst. apply Bool.eq_iff_eq_true. rewrite !andb_true_iff, !bool_decide_eq_true. naive_solver.
  - apply text_eqb_neq in Ei. rewrite andb_false_r. symmetry. apply bool_decide_eq_false. naive_solver.
Qed.

Lemma in_states_row sts r : in_states sts (row_of r) = bool_decide (record_state r ∈ sts).
Proof.
  unfold in_states, row_of; cbn [state]. induction sts as [|st sts IH]; cbn [map existsb]; [by rewrite bool_decide_eq_false_2 by (by intros ?%elem_of_nil)|].
  rewrite IH, state_text_eqb. apply Bool.eq_iff_eq_true. rewrite orb_true_iff, !bool_decide_eq_true, elem_of_cons. done.
Qed.

(** The record after a state change. *)
Definition set_state (st : PermissionRetryFenceState) (out : option PermissionRetryFenceOutcome) (now_ms : Z)
    (r : Record') : Record' :=
  {| record_key := record_key r; record_authority := record_authority r; record_state := st;
     record_review_id := record_review_id r; record_identity_sha256 := record_identity_sha256 r;
     record_outcome := out; record_created_at_ms := record_created_at_ms r; record_updated_at_ms := now_ms |}.

Definition lifecycle (old new : PermissionRetryFenceState) (out : option PermissionRetryFenceOutcome) : bool :=
  match old, new, out with
  | Reviewing, AllowedPending, None | Reviewing, Denied, Some _ | AllowedPending, StateAdmitted, None => true
  | _, _, _ => false
  end.

Lemma lifecycle_allows_row r st out now_ms :
  lifecycle_allows (row_of r) (row_of (set_state st out now_ms r)) = lifecycle (record_state r) st out.
Proof.
  unfold lifecycle_allows, row_of, set_state; cbn [state outcome record_state record_outcome].
  rewrite !state_text_eqb. by destruct (record_state r), st, out.
Qed.

Lemma update_trigger_row key r st out now_ms c :
  update_trigger_allows (key_pk key) (row_of r) (row_of (set_state st out now_ms r)) c =
  (record_updated_at_ms r <=? now_ms)%Z
  && is_authority_item (ulid_to_string (root_session_id key)) (ulid_to_string (record_authority r)) c
  && lifecycle (record_state r) st out.
Proof.
  unfold update_trigger_allows, key_pk. rewrite lifecycle_allows_row.
  unfold row_of, set_state; cbn [authority_history_item_id review_id identity_sha256 created_at_ms updated_at_ms
    record_authority record_review_id record_identity_sha256 record_created_at_ms record_updated_at_ms].
  by rewrite !text_eqb_refl, Z.eqb_refl.
Qed.

Lemma set_state_valid r st out now_ms : valid_record r -> lifecycle (record_state r) st out = true ->
  (record_updated_at_ms r <= now_ms)%Z -> valid_record (set_state st out now_ms r).
Proof.
  intros [Hk Hi Ht Ho] Hl Hn. split; cbn; try done; [lia|].
  destruct (record_state r), st, out; try done; split; try done; by intros [? ?].
Qed.

Definition stale_clock : StorageError := Sqlite (lit "invalid permission retry fence lifecycle transition").

(** An [UPDATE] guarded by a claim and one state. *)
Lemma update_claim claim from st out now_ms assign c : fences_ok c -> lifecycle from st out = true ->
  (forall r, valid_record r -> record_state r = from -> assign (row_of r) = row_of (set_state st out now_ms r)) ->
  update_fence (key_pk (claim_key claim)) (fun row => claim_matches claim row && in_states [from] row) assign c =
  match fence c (claim_key claim) with
  | Some r =>
    if decide (claim_of r = claim /\ record_state r ∈ [from]) then
      if (now_ms <? record_updated_at_ms r)%Z then Err stale_clock
      else Ok (put (claim_key claim) (Some (set_state st out now_ms r)) c, 1)
    else Ok (c, 0)
  | None => Ok (c, 0)
  end.
Proof.
  intros H Hl Ha. unfold update_fence. rewrite (proj2 (record_for_key_ok _ _ H)).
  destruct (fence c (claim_key claim)) as [r|] eqn:E; cbn [fmap option_fmap option_map]; [|done].
  destruct (fence_Some _ _ _ H E) as (Ek & Hr & Hh).
  rewrite (claim_matches_row _ _ Ek), in_states_row. case_decide as D.
  - destruct D as [Ec Es]. rewrite !bool_decide_eq_true_2 by done. apply list_elem_of_singleton in Es.
    cbn [andb]. rewrite (Ha r Hr Es), update_trigger_row, Hh, Es, Hl, !andb_true_r.
    destruct (Z.leb_spec (record_updated_at_ms r) now_ms), (Z.ltb_spec now_ms (record_updated_at_ms r)); try lia; cbn [negb]; [|done].
    assert (record_key (set_state st out now_ms r) = claim_key claim) as Ek' by done.
    pose proof (row_check_of (set_state st out now_ms r)) as C. rewrite Ek' in C.
    rewrite C by (apply set_state_valid; [done|by rewrite Es|lia]). done.
  - case_bool_decide as Ec; [|done]. cbn [andb]. rewrite bool_decide_eq_false_2; [done|].
    intros ?. by apply D.
Qed.

Lemma delete_claim claim sts c : fences_ok c ->
  delete_fence (key_pk (claim_key claim)) (fun row => claim_matches claim row && in_states sts row) c =
  match fence c (claim_key claim) with
  | Some r => if decide (claim_of r = claim /\ record_state r ∈ sts) then (put (claim_key claim) None c, 1) else (c, 0)
  | None => (c, 0)
  end.
Proof.
  intros H. unfold delete_fence. rewrite (proj2 (record_for_key_ok _ _ H)).
  destruct (fence c (claim_key claim)) as [r|] eqn:E; cbn [fmap option_fmap option_map]; [|done].
  destruct (fence_Some _ _ _ H E) as (Ek & _ & _). rewrite (claim_matches_row _ _ Ek), in_states_row.
  rewrite <- bool_decide_and. case_bool_decide; by case_decide.
Qed.

(** ** The specification: one family *)

Definition new_record (key : PermissionRetryFenceKey) (authority : N) (identity : text) (now_ms : Z) (review : N) : Record' :=
  {| record_key := key; record_authority := authority; record_state := Reviewing; record_review_id := review;
     record_identity_sha256 := identity; record_outcome := None; record_created_at_ms := now_ms;
     record_updated_at_ms := now_ms |}.

Definition spec_begin (key : PermissionRetryFenceKey) (authority : N) (identity : text) (now_ms : Z) (review : N)
    (current : option N) (f : option Record') : option Record' * BeginPermissionReview :=
  if decide (current = Some authority) then
    match f with
    | Some r => if decide (record_authority r = authority) then (f, Blocked r)
                else (Some (new_record key authority identity now_ms review),
                      Claimed (claim_of (new_record key authority identity now_ms review)))
    | None => (Some (new_record key authority identity now_ms review),
               Claimed (claim_of (new_record key authority identity now_ms review)))
    end
  else (f, BeginAuthorityChanged current).

(** The claim owns the family in one of the given states. *)
Definition owned_in (claim : PermissionReviewClaim) (sts : list PermissionRetryFenceState) (f : option Record') : option Record' :=
  match f with
  | Some r => if decide (claim_of r = claim /\ record_state r ∈ sts) then Some r else None
  | None => None
  end.

Definition spec_transition (claim : PermissionReviewClaim) (st : PermissionRetryFenceState)
    (out : option PermissionRetryFenceOutcome) (now_ms : Z) (f : option Record')
    : result (option Record' * PermissionReviewTransition) StorageError :=
  match owned_in claim [Reviewing] f with
  | Some r => if (now_ms <? record_updated_at_ms r)%Z then Err stale_clock
              else Ok (Some (set_state st out now_ms r), TransitionApplied)
  | None => Ok (f, TransitionNotOwned)
  end.

Definition spec_release (claim : PermissionReviewClaim) (sts : list PermissionRetryFenceState) (f : option Record')
    : option Record' * PermissionReviewTransition :=
  match owned_in claim sts f with
  | Some _ => (None, TransitionApplied)
  | None => (f, TransitionNotOwned)
  end.

Definition live_states : list PermissionRetryFenceState := [Reviewing; AllowedPending; StateAdmitted].
Definition approved_states : list PermissionRetryFenceState := [AllowedPending; StateAdmitted].

Definition spec_admit (claim : PermissionReviewClaim) (now_ms : Z) (current : option N) (f : option Record')
    : result (option Record' * PermissionEffectAdmission) StorageError :=
  if decide (current = Some (claim_authority claim)) then
    match owned_in claim [AllowedPending] f with
    | Some r => if (now_ms <? record_updated_at_ms r)%Z then Err stale_clock
                else Ok (Some (set_state StateAdmitted None now_ms r), EffectAdmitted)
    | None =>
      match owned_in claim [StateAdmitted] f with
      | Some _ => Ok (f, EffectAdmitted)
      | None => Ok (f, EffectNotOwned)
      end
    end
  else Ok (fst (spec_release claim live_states f), AuthorityChanged current).

(** ** The bodies of the operations implement it *)

Lemma put_same key c : fences_ok c -> put key (fence c key) c = c.
Proof.
  intros H. pose proof (proj2 (record_for_key_ok _ key H)) as L. unfold put, set_fences.
  destruct (fence c key); cbn in L; [rewrite (insert_id _ _ _ L)|rewrite (delete_id _ _ L)]; by destruct c.
Qed.

(** History items are written by the protocol store, their identifiers with [to_string]. *)
Definition history_ok (c : Connection) : Prop :=
  Forall (fun row => exists id, history_id row = ulid_to_string id) (history c).

Record database_ok (c : Connection) : Prop := { rows_ok : fences_ok c; items_ok : history_ok c }.

Lemma latest_authority_ok root c : history_ok c ->
  exists current, latest_authority_history_item_id root c = Ok current /\ forall authority, current = Some authority ->
      is_authority_item (ulid_to_string root) (ulid_to_string authority) c = true.
Proof.
  intros H. unfold latest_authority_history_item_id. destruct (last _) as [row|] eqn:E; [|by exists None].
  pose proof (last_Some_elem_of _ _ E) as [Ha Hin]%list_elem_of_filter.
  destruct (proj1 (Forall_forall _ _) H row Hin) as [id Ei]. rewrite Ei, ulid_round_trip.
  exists (Some id). split; [done|]. intros ? [= <-]. apply existsb_exists. exists row.
  apply list_elem_of_In in Hin. split; [done|]. rewrite Ha, Ei. apply text_eqb_refl.
Qed.

(** The authority of a root session, [None] before its first user turn. *)
Definition authority (root : SessionId) (c : Connection) : option N :=
  match latest_authority_history_item_id root c with Ok current => current | Err _ => None end.

Lemma latest_authority_eq root c : history_ok c -> latest_authority_history_item_id root c = Ok (authority root c).
Proof. intros H. unfold authority. by destruct (latest_authority_ok root c H) as (? & -> & _). Qed.

Lemma authority_is_item root c a : history_ok c -> authority root c = Some a ->
  is_authority_item (ulid_to_string root) (ulid_to_string a) c = true.
Proof.
  intros H E. unfold authority in E. destruct (latest_authority_ok root c H) as (current & L & Hi). rewrite L in E. by apply Hi.
Qed.

(** What the statements of one call do to the table, given its specification. *)
Definition implements {A} (key : PermissionRetryFenceKey) (c : Connection)
    (spec : result (option Record' * A) StorageError) (body : result (Connection * A) StorageError) : Prop :=
  body = match spec with
         | Ok (f, a) => Ok (put key f c, a)
         | Err e => Err e
         end.

Lemma new_record_valid key a identity now_ms review : valid_key key -> glob_sha256 identity = true -> (0 <= now_ms)%Z ->
  valid_record (new_record key a identity now_ms review).
Proof. intros Hk Hi Ht. split; cbn; [done|done|lia|]. split; [done|]. by intros [? ?]. Qed.

Lemma insert_trigger_row key a identity now_ms review c :
  insert_trigger_aborts (key_pk key) (row_of (new_record key a identity now_ms review)) c =
  negb (is_authority_item (ulid_to_string (root_session_id key)) (ulid_to_string a) c).
Proof. done. Qed.

Lemma claim_family_insert key a identity now_ms review c : database_ok c -> valid_key key -> glob_sha256 identity = true ->
  (0 <= now_ms)%Z -> authority (root_session_id key) c = Some a -> fences c !! key_pk key = None ->
  claim_family key a identity now_ms review c =
  Ok (put key (Some (new_record key a identity now_ms review)) c, Claimed (claim_of (new_record key a identity now_ms review))).
Proof.
  intros [Hf Hh] Hk Hi Ht Ha En. unfold claim_family, insert_fence.
  change (reviewing_row a review identity now_ms) with (row_of (new_record key a identity now_ms review)).
  rewrite insert_trigger_row, (authority_is_item _ _ _ Hh Ha). cbn [negb].
  rewrite En, bool_decide_eq_false_2 by (by intros [? ?]).
  pose proof (row_check_of (new_record key a identity now_ms review) (new_record_valid _ _ _ _ _ Hk Hi Ht)) as C.
  cbn [record_key new_record] in C. by rewrite C.
Qed.

Lemma begin_implements key a identity now_ms review c : database_ok c -> valid_key key -> glob_sha256 identity = true ->
  (0 <= now_ms)%Z ->
  implements key c (Ok (spec_begin key a identity now_ms review (authority (root_session_id key) c) (fence c key)))
    (begin_review_body key a identity now_ms review c).
Proof.
  intros [Hf Hh] Hk Hi Ht. unfold implements, begin_review_body, spec_begin.
  rewrite (latest_authority_eq _ _ Hh); cbn [and_then].
  destruct (decide (authority (root_session_id key) c = Some a)) as [Ea|Na].
  - rewrite bool_decide_eq_false_2 by tauto. destruct (record_for_key_ok _ key Hf) as [-> L]; cbn [and_then].
    destruct (fence c key) as [r|] eqn:E.
    + case_decide as D.
      * rewrite bool_decide_eq_true_2 by done. by rewrite <- E, put_same.
      * rewrite bool_decide_eq_false_2 by done. unfold delete_fence. rewrite L; cbn [fmap option_fmap option_map fst].
        rewrite claim_family_insert; try done.
        -- unfold put, set_fences; cbn [fences history busy_timeout_ms]. by rewrite insert_delete_eq.
        -- split; [by apply (put_ok key None)|done].
        -- cbn. apply lookup_delete_eq.
    + by rewrite claim_family_insert.
  - rewrite bool_decide_eq_true_2 by done. by rewrite put_same.
Qed.

Lemma transition_implements claim st out now_ms c : fences_ok c -> lifecycle Reviewing st out = true ->
  implements (claim_key claim) c (spec_transition claim st out now_ms (fence c (claim_key claim)))
    (let? (c, updated) := update_fence (key_pk (claim_key claim))
                            (fun row => claim_matches claim row && in_states [Reviewing] row)
                            (assign_transition st out now_ms) c in
     Ok (c, transition_of updated)).
Proof.
  intros H Hl. unfold implements, spec_transition, owned_in. rewrite (update_claim _ _ _ _ _ _ _ H Hl) by done.
  destruct (fence c (claim_key claim)) as [r|] eqn:E; [|by rewrite <- E, put_same].
  destruct (decide _); [|by cbn; rewrite <- E, put_same].
  by destruct (_ <? _)%Z.
Qed.

Lemma release_implements claim sts c : fences_ok c ->
  implements (claim_key claim) c (Ok (spec_release claim sts (fence c (claim_key claim))))
    (let '(c, deleted) := delete_fence (key_pk (claim_key claim))
                            (fun row => claim_matches claim row && in_states sts row) c in
     Ok (c, transition_of deleted)).
Proof.
  intros H. unfold implements, spec_release, owned_in. rewrite (delete_claim _ _ _ H).
  destruct (fence c (claim_key claim)) as [r|] eqn:E; [|by rewrite <- E, put_same].
  destruct (decide _); [done|by rewrite <- E, put_same].
Qed.

Lemma already_admitted_owned claim c : fences_ok c ->
  already_admitted claim c = match owned_in claim [StateAdmitted] (fence c (claim_key claim)) with Some _ => true | None => false end.
Proof.
  intros H. unfold already_admitted, owned_in. rewrite (proj2 (record_for_key_ok _ _ H)).
  destruct (fence c (claim_key claim)) as [r|] eqn:E; cbn [fmap option_fmap option_map]; [|done].
  destruct (fence_Some _ _ _ H E) as (Ek & _ & _). rewrite (claim_matches_row _ _ Ek), in_states_row, <- bool_decide_and.
  case_bool_decide; by case_decide.
Qed.

Lemma admit_implements claim now_ms c : database_ok c ->
  implements (claim_key claim) c
    (spec_admit claim now_ms (authority (root_session_id (claim_key claim)) c) (fence c (claim_key claim)))
    (admit_body claim now_ms c).
Proof.
  intros [Hf Hh]. unfold implements, admit_body, spec_admit. rewrite (latest_authority_eq _ _ Hh); cbn [and_then].
  destruct (decide (authority _ c = Some (claim_authority claim))) as [Ea|Na].
  - rewrite bool_decide_eq_false_2 by tauto.
    rewrite (update_claim claim AllowedPending StateAdmitted None now_ms (assign_admitted now_ms) c Hf).
    2: done.
    2: { intros r Hr Es. unfold assign_admitted, row_of, set_state; cbn.
         destruct (record_outcome r) eqn:Eo; [|done]. pose proof (proj2 (valid_outcome r Hr)) as D. rewrite Eo, Es in D. by discriminate D. }
    pose proof (already_admitted_owned claim c Hf) as AA. unfold owned_in in *.
    destruct (fence c (claim_key claim)) as [r|] eqn:E; [|cbn; by rewrite AA, <- E, put_same].
    destruct (decide (claim_of r = claim /\ record_state r ∈ [AllowedPending])).
    + by destruct (_ <? _)%Z.
    + cbn. rewrite AA. destruct (decide _); by rewrite <- E, put_same.
  - rewrite bool_decide_eq_true_2 by done. unfold delete_owned_non_denied, spec_release, owned_in.
    rewrite (delete_claim _ _ _ Hf). destruct (fence c (claim_key claim)) as [r|] eqn:E;
      [|cbn [fst]; by rewrite <- E, put_same].
    unfold live_states. destruct (decide _); [done|cbn [fst]; by rewrite <- E, put_same].
Qed.
End Facts.
