(* ===== verification/PermissionFenceSystem.v ===== *)
(** * The retry fence under interleaving

    Reviews of any number of processes call the store; turns are appended to the history and
    rolled back.  [perform] is one call, [FenceSystem] the store with the log of what callers were
    told, [step] any call, cleanup or change of the history.  Every step moves each family along
    the abstract lifecycle [family_step]. *)
From S2P Require Import Prelude.
From S2P Require Import Text.
From S2P Require Import PermissionFence.
From S2P Require Import PermissionFenceFacts.

(** ** Calls *)

Inductive Call :=
  | CallBegin (key : PermissionRetryFenceKey) (authority : N) (identity : text) (now_ms : Z) (review : N)
  | CallAllow (claim : PermissionReviewClaim) (now_ms : Z)
  | CallDeny (claim : PermissionReviewClaim) (out : PermissionRetryFenceOutcome) (now_ms : Z)
  | CallAdmit (claim : PermissionReviewClaim) (now_ms : Z)
  | CallRelease (claim : PermissionReviewClaim).

Inductive Reply :=
  | ReplyBegin (b : BeginPermissionReview)
  | ReplyTransition (t : PermissionReviewTransition)
  | ReplyAdmission (a : PermissionEffectAdmission).

Definition map_snd {A B} (f : A -> B) {S E} (p : S * result A E) : S * result B E :=
  (fst p, match snd p with Ok a => Ok (f a) | Err e => Err e end).

Definition call_key (call : Call) : PermissionRetryFenceKey :=
  match call with
  | CallBegin key _ _ _ _ => key
  | CallAllow claim _ | CallDeny claim _ _ | CallAdmit claim _ | CallRelease claim => claim_key claim
  end.

(** The timestamp a call writes. *)
Definition call_now (call : Call) : Z :=
  match call with
  | CallBegin _ _ _ now_ms _ | CallAllow _ now_ms | CallDeny _ _ now_ms | CallAdmit _ now_ms => now_ms
  | CallRelease _ => 0
  end.

(** What the types and the caller ensure: a key made by [key_new], a SHA-256 identity. *)
Definition call_wf (call : Call) : Prop :=
  match call with CallBegin key _ identity _ _ => valid_key key /\ glob_sha256 identity = true | _ => True end.

(** What a caller was told. *)
Inductive Event :=
  | EvClaimed (claim : PermissionReviewClaim)
  | EvAllowed (claim : PermissionReviewClaim)
  | EvDenied (claim : PermissionReviewClaim)
  | EvAdmitted (claim : PermissionReviewClaim)
  | EvReleased (claim : PermissionReviewClaim)
  | EvDropped (claim : PermissionReviewClaim).

Definition events (call : Call) (reply : Reply) : list Event :=
  match call, reply with
  | CallBegin _ _ _ _ _, ReplyBegin (Claimed claim) => [EvClaimed claim]
  | CallAllow claim _, ReplyTransition TransitionApplied => [EvAllowed claim]
  | CallDeny claim _ _, ReplyTransition TransitionApplied => [EvDenied claim]
  | CallAdmit claim _, ReplyAdmission EffectAdmitted => [EvAdmitted claim]
  | CallRelease claim, ReplyTransition TransitionApplied => [EvReleased claim]
  | _, _ => []
  end.

Section System.
Context {U : Ulid}.

Definition perform (io : option text) (call : Call) (s : SqlitePermissionRetryFenceStore)
    : SqlitePermissionRetryFenceStore * result Reply StorageError :=
  match call with
  | CallBegin key a identity now_ms review => map_snd ReplyBegin (begin_review_at io key a identity now_ms review s)
  | CallAllow claim now_ms => map_snd ReplyTransition (mark_allowed_pending io claim now_ms s)
  | CallDeny claim out now_ms => map_snd ReplyTransition (mark_denied io claim out now_ms s)
  | CallAdmit claim now_ms => map_snd ReplyAdmission (admit_if_authority_current io claim now_ms s)
  | CallRelease claim => map_snd ReplyTransition (release io claim s)
  end.

(** The specification of a call on the record of its family. *)
Definition spec (call : Call) (current : option N) (f : option PermissionRetryFenceRecord)
    : result (option PermissionRetryFenceRecord * Reply) StorageError :=
  match call with
  | CallBegin key a identity now_ms review =>
      let '(f', b) := spec_begin key a identity now_ms review current f in Ok (f', ReplyBegin b)
  | CallAllow claim now_ms =>
      let? (f', t) := spec_transition claim AllowedPending None now_ms f in Ok (f', ReplyTransition t)
  | CallDeny claim out now_ms =>
      let? (f', t) := spec_transition claim Denied (Some out) now_ms f in Ok (f', ReplyTransition t)
  | CallAdmit claim now_ms => let? (f', a) := spec_admit claim now_ms current f in Ok (f', ReplyAdmission a)
  | CallRelease claim => let '(f', t) := spec_release claim live_states f in Ok (f', ReplyTransition t)
  end.

(** ** The system *)

Record FenceSystem := { store : SqlitePermissionRetryFenceStore; log : list Event }.

Definition set_history (h : list HistoryRow) (c : Connection) : Connection :=
  {| fences := fences c; history := h; busy_timeout_ms := busy_timeout_ms c |}.
Definition append_history (row : HistoryRow) (c : Connection) : Connection := set_history (history c ++ [row]) c.

(** Items are deleted by rolling back a turn; their fences go with them ([ON DELETE CASCADE]). *)
Definition delete_history (ids : list text) (c : Connection) : Connection :=
  set_history (filter (fun row => history_id row ∉ ids) (history c))
    (set_fences (filter (fun '(_, row) => authority_history_item_id row ∉ ids) (fences c)) c).

(** A lease exists for every claim that was made; the identifier of a new review is unused. *)
Definition enabled (l : list Event) (call : Call) : Prop :=
  match call with
  | CallBegin _ _ _ _ review => forall claim, EvClaimed claim ∈ l -> claim_review_id claim <> review
  | CallAllow claim _ | CallDeny claim _ _ | CallAdmit claim _ | CallRelease claim => EvClaimed claim ∈ l
  end.

Inductive step : FenceSystem -> FenceSystem -> Prop :=
  | step_call io call s s' reply l : call_wf call -> enabled l call -> perform io call s = (s', Ok reply) ->
      step {| store := s; log := l |} {| store := s'; log := events call reply ++ l |}
  | step_failed io call s s' e l : call_wf call -> enabled l call -> perform io call s = (s', Err e) ->
      step {| store := s; log := l |} {| store := s'; log := l |}
  | step_drop busy io1 io2 io3 io4 claim s l : EvClaimed claim ∈ l ->
      step {| store := s; log := l |}
           {| store := lease_drop busy io1 io2 io3 io4 claim s; log := EvDropped claim :: l |}
  | step_append row s l : (exists id, history_id row = ulid_to_string id) ->
      step {| store := s; log := l |} {| store := set_connection (append_history row (connection s)) s; log := l |}
  | step_delete ids s l :
      step {| store := s; log := l |} {| store := set_connection (delete_history ids (connection s)) s; log := l |}.

Definition initial (sys : FenceSystem) : Prop :=
  fences (connection (store sys)) = ∅ /\ history_ok (connection (store sys)) /\ log sys = [].

Definition reachable (sys : FenceSystem) : Prop := exists sys0, initial sys0 /\ rtc step sys0 sys.

(** The record and the authority of a family in a state of the system. *)
Definition family (sys : FenceSystem) (key : PermissionRetryFenceKey) : option PermissionRetryFenceRecord :=
  fence (connection (store sys)) key.
Definition current_authority (sys : FenceSystem) (root : SessionId) : option N :=
  authority root (connection (store sys)).

(** ** The lifecycle of a family *)

Inductive family_step (current : option N) :
    option PermissionRetryFenceRecord -> list Event -> option PermissionRetryFenceRecord -> Prop :=
  | fs_same f : family_step current f [] f
  | fs_claim f r : current = Some (record_authority r) -> record_state r = Reviewing ->
      (forall r0, f = Some r0 -> record_authority r0 <> record_authority r) ->
      family_step current f [EvClaimed (claim_of r)] (Some r)
  | fs_allow r now_ms : record_state r = Reviewing ->
      family_step current (Some r) [EvAllowed (claim_of r)] (Some (set_state AllowedPending None now_ms r))
  | fs_deny r out now_ms : record_state r = Reviewing ->
      family_step current (Some r) [EvDenied (claim_of r)] (Some (set_state Denied (Some out) now_ms r))
  | fs_admit r now_ms : record_state r = AllowedPending -> current = Some (record_authority r) ->
      family_step current (Some r) [EvAdmitted (claim_of r)] (Some (set_state StateAdmitted None now_ms r))
  | fs_again r : record_state r = StateAdmitted -> current = Some (record_authority r) ->
      family_step current (Some r) [EvAdmitted (claim_of r)] (Some r)
  | fs_release r : record_state r <> Denied -> family_step current (Some r) [EvReleased (claim_of r)] None
  | fs_outdated r : record_state r <> Denied -> current <> Some (record_authority r) -> family_step current (Some r) [] None
  | fs_drop f claim : family_step current f [EvDropped claim] f
  | fs_drop_approved r : record_state r ∈ approved_states ->
      family_step current (Some r) [EvDropped (claim_of r)] None.

(** What one step of the system does. *)
Inductive effect (sys sys' : FenceSystem) : Prop :=
  | eff_family key ev :
      family_step (current_authority sys (root_session_id key)) (family sys key) ev (family sys' key) ->
      (forall key', key' <> key -> family sys' key' = family sys key') ->
      (forall claim, EvClaimed claim ∈ ev -> claim_key claim = key /\
         forall claim', EvClaimed claim' ∈ log sys -> claim_review_id claim' <> claim_review_id claim) ->
      (forall claim, EvDropped claim ∈ ev -> EvClaimed claim ∈ log sys) ->
      log sys' = ev ++ log sys -> history (connection (store sys')) = history (connection (store sys)) ->
      effect sys sys'
  | eff_history :
      (forall key, family sys' key = family sys key \/
         family sys' key = None /\ forall r, family sys key = Some r ->
           current_authority sys' (root_session_id key) <> Some (record_authority r)) ->
      log sys' = log sys -> effect sys sys'.
End System.

(** * Safety of the retry fence

    Calls implement their specification and fail without effect; every reachable table decodes;
    an admission follows an approval of the same claim; a denied family stays closed, and a
    claimed one is claimed once, while the user's authority is unchanged; ownership once lost is
    lost. *)

Section Safety.
Context {U : Ulid} {UL : UlidLaws U}.
Implicit Types (s : SqlitePermissionRetryFenceStore) (call : Call) (sys : FenceSystem).

(** ** Calls against their specification *)

Lemma map_snd_err {A B E S} (f : A -> B) (p : S * result A E) (s : S) e : map_snd f p = (s, Err e) -> p = (s, Err e).
Proof. destruct p as [s0 [a|e0]]; unfold map_snd; cbn; naive_solver. Qed.
Lemma map_snd_ok {A B E S} (f : A -> B) (p : S * result A E) (s : S) b : map_snd f p = (s, Ok b) -> exists a, p = (s, Ok a).
Proof. destruct p as [s0 [a|e0]]; unfold map_snd; cbn; naive_solver. Qed.

(** A body that implements a specification, inside its transaction. *)
Lemma with_transaction_implements {A} key (sp : result (option PermissionRetryFenceRecord * A) StorageError) body s :
  poisoned s = false -> implements key (connection s) sp (body (connection s)) ->
  with_transaction None body s =
  match sp with Ok (f, a) => (set_connection (put key f (connection s)) s, Ok a) | Err e => (s, Err e) end.
Proof. unfold with_transaction, implements. intros -> ->. by destruct sp as [[f a]|e]. Qed.

Lemma perform_spec call s : poisoned s = false -> database_ok (connection s) -> call_wf call -> (0 <= call_now call)%Z ->
  perform None call s =
  match spec call (authority (root_session_id (call_key call)) (connection s)) (fence (connection s) (call_key call)) with
  | Ok (f, reply) => (set_connection (put (call_key call) f (connection s)) s, Ok reply)
  | Err e => (s, Err e)
  end.
Proof.
  intros Hp Hd Hw Ht. pose proof (rows_ok _ Hd) as Hf.
  destruct call as [key a i now_ms rv|claim now_ms|claim out now_ms|claim now_ms|claim]; cbn [perform spec call_key call_now] in *.
  - destruct Hw as [Hk Hi]. unfold begin_review_at.
    rewrite (proj2 (validate_timestamp_ok _) Ht); cbn [and_then]. rewrite (proj2 (validate_sha256_glob _ _) Hi).
    rewrite (with_transaction_implements key _ _ _ Hp (begin_implements _ _ _ _ _ _ Hd Hk Hi Ht)).
    by destruct (spec_begin _ _ _ _ _ _ _).
  - unfold mark_allowed_pending, transition_reviewing. rewrite (proj2 (validate_timestamp_ok _) Ht).
    rewrite (with_transaction_implements (claim_key claim) _ _ _ Hp (transition_implements claim AllowedPending None now_ms _ Hf eq_refl)).
    by destruct (spec_transition _ _ _ _ _) as [[]|].
  - unfold mark_denied, transition_reviewing. rewrite (proj2 (validate_timestamp_ok _) Ht).
    rewrite (with_transaction_implements (claim_key claim) _ _ _ Hp (transition_implements claim Denied (Some out) now_ms _ Hf eq_refl)).
    by destruct (spec_transition _ _ _ _ _) as [[]|].
  - unfold admit_if_authority_current. rewrite (proj2 (validate_timestamp_ok _) Ht).
    rewrite (with_transaction_implements (claim_key claim) _ _ _ Hp (admit_implements _ _ _ Hd)).
    by destruct (spec_admit _ _ _ _) as [[]|].
  - unfold release. unfold delete_owned_non_denied.
    rewrite (with_transaction_implements (claim_key claim) _ _ _ Hp (release_implements _ _ _ Hf)).
    by destruct (spec_release _ _ _).
Qed.

Lemma with_transaction_fails {A} io (body : Connection -> result (Connection * A) StorageError) s e s' :
  with_transaction io body s = (s', Err e) -> s' = s.
Proof. unfold with_transaction. destruct (poisoned s), io, (body (connection s)) as [[]|]; naive_solver. Qed.

Lemma with_transaction_succeeds {A} io (body : Connection -> result (Connection * A) StorageError) s a s' :
  with_transaction io body s = (s', Ok a) -> poisoned s = false /\ io = None.
Proof. unfold with_transaction. destruct (poisoned s), io; naive_solver. Qed.

Lemma perform_fails io call s s' e : perform io call s = (s', Err e) -> s' = s.
Proof.
  destruct call; cbn [perform]; intros H%map_snd_err; revert H;
    unfold begin_review_at, mark_allowed_pending, mark_denied, transition_reviewing, admit_if_authority_current, release;
    repeat case_match; first [by apply with_transaction_fails | by intros [= <-]].
Qed.

Lemma perform_succeeds io call s s' reply : perform io call s = (s', Ok reply) ->
  poisoned s = false /\ io = None /\ (0 <= call_now call)%Z.
Proof.
  destruct call; cbn [perform call_now]; intros [a H]%map_snd_ok; revert H;
    unfold begin_review_at, mark_allowed_pending, mark_denied, transition_reviewing, admit_if_authority_current, release;
    repeat case_match; try done; intros [? ?]%with_transaction_succeeds; split_and!; try done;
    repeat match goal with
    | H : validate_timestamp ?z = Ok ?u |- _ => destruct u; by apply validate_timestamp_ok
    | H : (let? _ := validate_timestamp ?z in _) = Ok _ |- _ => apply and_then_ok in H as ([] & ?%validate_timestamp_ok & _); done
    end.
Qed.

(** ** The specification moves a family along its lifecycle *)

Lemma owned_in_Some claim sts f r : owned_in claim sts f = Some r <->
  f = Some r /\ claim_of r = claim /\ record_state r ∈ sts.
Proof.
  unfold owned_in. destruct f as [r'|]; [|naive_solver]. case_decide; naive_solver.
Qed.

Lemma denied_not_live : Denied ∉ live_states.
Proof. by intros [?|[?|[?|[]]]]%list_elem_of_In. Qed.

Lemma spec_family call current f f' reply : spec call current f = Ok (f', reply) ->
  (forall r, f = Some r -> record_key r = call_key call) -> family_step current f (events call reply) f'.
Proof.
  intros E Hk. destruct call as [key a i now_ms rv|claim now_ms|claim out now_ms|claim now_ms|claim]; cbn [spec] in E.
  - unfold spec_begin in E. case_decide as Ha; [|injection E as <- <-; constructor].
    destruct f as [r|].
    + case_decide as Er; injection E as <- <-; [constructor|].
      cbn [events]. apply fs_claim; [done|done|]. by intros ? [= <-].
    + injection E as <- <-. cbn [events]. by apply fs_claim.
  - apply and_then_ok in E as ([f0 t] & E & [= <- <-]). unfold spec_transition in E.
    destruct (owned_in claim [Reviewing] f) as [r|] eqn:O; [|injection E as <- <-; constructor].
    destruct (_ <? _)%Z; [done|]. injection E as <- <-.
    apply owned_in_Some in O as (-> & <- & Es%list_elem_of_singleton). by constructor.
  - apply and_then_ok in E as ([f0 t] & E & [= <- <-]). unfold spec_transition in E.
    destruct (owned_in claim [Reviewing] f) as [r|] eqn:O; [|injection E as <- <-; constructor].
    destruct (_ <? _)%Z; [done|]. injection E as <- <-.
    apply owned_in_Some in O as (-> & <- & Es%list_elem_of_singleton). by constructor.
  - apply and_then_ok in E as ([f0 t] & E & [= <- <-]). unfold spec_admit in E. case_decide as Ha.
    + destruct (owned_in claim [AllowedPending] f) as [r|] eqn:O.
      * destruct (_ <? _)%Z; [done|]. injection E as <- <-.
        apply owned_in_Some in O as (-> & <- & Es%list_elem_of_singleton). by constructor.
      * destruct (owned_in claim [StateAdmitted] f) as [r|] eqn:O'; injection E as <- <-; [|constructor].
        apply owned_in_Some in O' as (-> & <- & Es%list_elem_of_singleton). by constructor.
    + injection E as <- <-. unfold spec_release. destruct (owned_in claim live_states f) as [r|] eqn:O; [|constructor].
      apply owned_in_Some in O as (-> & <- & Es). apply fs_outdated; [|done].
      intros F. rewrite F in Es. by apply denied_not_live.
  - unfold spec_release in E. destruct (owned_in claim live_states f) as [r|] eqn:O; injection E as <- <-; [|constructor].
    apply owned_in_Some in O as (-> & <- & Es). apply fs_release.
    intros F. rewrite F in Es. by apply denied_not_live.
Qed.

(** The new record of a family is valid. *)
Definition record_ok (c : Connection) (key : PermissionRetryFenceKey) (f : option PermissionRetryFenceRecord) : Prop :=
  forall r, f = Some r -> record_key r = key /\ valid_record r /\ is_authority_item (ulid_to_string (root_session_id key)) (ulid_to_string (record_authority r)) c = true.

Lemma family_record_ok c key : fences_ok c -> record_ok c key (fence c key).
Proof. intros H r. by apply fence_Some. Qed.

Lemma set_state_ok c key r st out now_ms : record_ok c key (Some r) -> lifecycle (record_state r) st out = true ->
  (record_updated_at_ms r <= now_ms)%Z -> record_ok c key (Some (set_state st out now_ms r)).
Proof. intros H Hl Ht ? [= <-]. destruct (H r eq_refl) as (<- & Hv & Hi). split_and!; [done|by apply set_state_valid|done]. Qed.

Lemma spec_record_ok call c f' reply : database_ok c -> call_wf call -> (0 <= call_now call)%Z ->
  spec call (authority (root_session_id (call_key call)) c) (fence c (call_key call)) = Ok (f', reply) ->
  record_ok c (call_key call) f'.
Proof.
  intros Hd Hw Ht E. pose proof (family_record_ok c (call_key call) (rows_ok _ Hd)) as Hok.
  destruct call as [key a i now_ms rv|claim now_ms|claim out now_ms|claim now_ms|claim]; cbn [spec call_key call_now] in *.
  - destruct Hw as [Hk Hi]. unfold spec_begin in E. case_decide as Ha; [|by injection E as <- <-].
    assert (record_ok c key (Some (new_record key a i now_ms rv))) as Hn.
    { intros ? [= <-]. split_and!; [done|by apply new_record_valid|]. by apply authority_is_item; [apply Hd|]. }
    destruct (fence c key); [case_decide|]; by injection E as <- <-.
  - apply and_then_ok in E as ([f0 t] & E & [= <- <-]). unfold spec_transition in E.
    destruct (owned_in _ _ _) as [r|] eqn:O; [|by injection E as <- <-].
    destruct (Z.ltb_spec now_ms (record_updated_at_ms r)); [done|]. injection E as <- <-.
    apply owned_in_Some in O as (Ef & _ & Es%list_elem_of_singleton). rewrite Ef in Hok.
    apply set_state_ok; [done|by rewrite Es|done].
  - apply and_then_ok in E as ([f0 t] & E & [= <- <-]). unfold spec_transition in E.
    destruct (owned_in _ _ _) as [r|] eqn:O; [|by injection E as <- <-].
    destruct (Z.ltb_spec now_ms (record_updated_at_ms r)); [done|]. injection E as <- <-.
    apply owned_in_Some in O as (Ef & _ & Es%list_elem_of_singleton). rewrite Ef in Hok.
    apply set_state_ok; [done|by rewrite Es|done].
  - apply and_then_ok in E as ([f0 t] & E & [= <- <-]). unfold spec_admit in E. case_decide as Ha.
    + destruct (owned_in claim [AllowedPending] _) as [r|] eqn:O.
      * destruct (Z.ltb_spec now_ms (record_updated_at_ms r)); [done|]. injection E as <- <-.
        apply owned_in_Some in O as (Ef & _ & Es%list_elem_of_singleton). rewrite Ef in Hok.
        apply set_state_ok; [done|by rewrite Es|done].
      * destruct (owned_in claim [StateAdmitted] _); by injection E as <- <-.
    + injection E as <- <-. unfold spec_release. by destruct (owned_in _ _ _).
  - unfold spec_release in E. by destruct (owned_in _ _ _); injection E as <- <-.
Qed.

(** ** Steps of the system *)

Lemma fence_lookup c c' key : fences c' !! key_pk key = fences c !! key_pk key -> fence c' key = fence c key.
Proof. unfold fence, record_for_key. by intros ->. Qed.
Lemma fence_fences c c' key : fences c' = fences c -> fence c' key = fence c key.
Proof. intros E. apply fence_lookup. by rewrite E. Qed.

Lemma is_authority_item_history root item c c' : history c' = history c ->
  is_authority_item root item c' = is_authority_item root item c.
Proof. unfold is_authority_item. by intros ->. Qed.

Lemma database_ok_eq c c' : fences c' = fences c -> history c' = history c -> database_ok c -> database_ok c'.
Proof.
  intros Hf Hh [H1 H2]. split; [|unfold history_ok; by rewrite Hh].
  unfold fences_ok. rewrite Hf. eapply map_Forall_impl; [exact H1|]. intros pk row (r & ? & ? & ? & ?).
  exists r. by rewrite (is_authority_item_history _ _ _ _ Hh).
Qed.

Lemma database_ok_put key f c : database_ok c -> record_ok c key f -> database_ok (put key f c).
Proof. intros [H1 H2] Hf. split; [by apply put_ok|done]. Qed.

Lemma fence_put_ok key f c key' : database_ok c -> record_ok c key f ->
  fence (put key f c) key' = if decide (key' = key) then f else fence c key'.
Proof.
  intros Hd Hf. apply fence_put; [|apply Hd|]; [by apply (database_ok_put key f c Hd Hf)|].
  intros r E. by destruct (Hf r E) as (? & ? & _).
Qed.

(** Dropping a lease deletes the approved row of its claim or no row at all. *)
Lemma lease_drop_effect busy io1 io2 io3 io4 claim s : database_ok (connection s) ->
  let s' := lease_drop busy io1 io2 io3 io4 claim s in
  exists f', (f' = fence (connection s) (claim_key claim) \/
              f' = None /\ is_Some (owned_in claim approved_states (fence (connection s) (claim_key claim)))) /\
    fences (connection s') = fences (put (claim_key claim) f' (connection s)) /\
    history (connection s') = history (connection s).
Proof.
  intros Hd s'.
  assert (fences (connection s') = fences (connection s) \/
          fences (connection s') = fences (fst (delete_owned_approved_effect claim (connection s)))) as D.
  { subst s'. unfold lease_drop, release_approved_effect, set_busy_timeout.
    repeat case_match; simplify_eq/=; try (by left);
      right; by unfold delete_owned_approved_effect, delete_fence in *; simpl in *; repeat case_match; simplify_eq/=. }
  assert (history (connection s') = history (connection s)) as Hh.
  { subst s'. unfold lease_drop, release_approved_effect, set_busy_timeout.
    repeat case_match; simplify_eq/=; try done;
      by unfold delete_owned_approved_effect, delete_fence in *; simpl in *; repeat case_match; simplify_eq/=. }
  destruct D as [D|D].
  - exists (fence (connection s) (claim_key claim)). split; [by left|]. by rewrite put_same by apply Hd.
  - pose proof (release_implements claim approved_states (connection s) (rows_ok _ Hd)) as R.
    unfold implements in R. unfold delete_owned_approved_effect in D. unfold approved_states in *.
    destruct (delete_fence _ _ _) as [c n]. unfold spec_release in R; cbn [fst] in D.
    destruct (owned_in _ _ _) as [r|] eqn:O; injection R as -> _.
    + exists None. split; [right; eauto|done].
    + exists (fence (connection s) (claim_key claim)). split; [by left|done].
Qed.

Lemma delete_history_ok ids c : database_ok c -> database_ok (delete_history ids c).
Proof.
  intros [H1 H2]. split.
  - unfold fences_ok, delete_history; cbn. intros pk row [E Hn]%map_lookup_filter_Some. cbn in Hn.
    destruct (H1 _ _ E) as (r & Hv & Hpk & Hr & Hi). exists r. split_and!; try done.
    apply existsb_exists in Hi as (h & Hin & Hh). apply existsb_exists. exists h. split; [|done].
    apply list_elem_of_In, list_elem_of_filter. split; [|by apply list_elem_of_In].
    apply andb_true_iff in Hh as [_ ->%text_eqb_eq]. by rewrite Hr in Hn.
  - unfold history_ok, delete_history; cbn. apply Forall_forall. intros row [_ Hin]%list_elem_of_filter.
    by apply (proj1 (Forall_forall _ _) H2).
Qed.

(** A fence that goes with a deleted item is not one of the current authority. *)
Lemma delete_history_fence ids c key : database_ok c ->
  fence (delete_history ids c) key = fence c key \/
  fence (delete_history ids c) key = None /\ forall r, fence c key = Some r ->
    authority (root_session_id key) (delete_history ids c) <> Some (record_authority r).
Proof.
  intros Hd. pose proof (delete_history_ok ids c Hd) as Hd'. pose proof (rows_ok _ Hd) as Hf.
  pose proof (proj2 (record_for_key_ok _ key (rows_ok _ Hd'))) as L'. pose proof (proj2 (record_for_key_ok _ key Hf)) as L.
  destruct (fence (delete_history ids c) key) as [r'|] eqn:E'; cbn in L'.
  - left. rewrite <- E'. apply fence_lookup. etransitivity; [exact L'|]. symmetry. by apply map_lookup_filter_Some in L' as [? _].
  - right. split; [done|]. intros r E Ha. rewrite E in L. cbn in L.
    pose proof (authority_is_item _ _ _ (items_ok _ Hd') Ha) as Hi. apply existsb_exists in Hi as (h & Hin & Hh).
    apply andb_true_iff in Hh as [_ Hh%text_eqb_eq]. cbn in Hin. apply list_elem_of_In, list_elem_of_filter in Hin as [Hn _].
    apply map_lookup_filter_None in L' as [L'|L']; [by rewrite L in L'|]. apply (L' _ L). cbn. by rewrite <- Hh.
Qed.

Lemma append_history_ok row c : (exists id, history_id row = ulid_to_string id) -> database_ok c -> database_ok (append_history row c).
Proof.
  intros Hr [H1 H2]. split.
  - unfold fences_ok, append_history; cbn. eapply map_Forall_impl; [exact H1|].
    intros pk fr (r & ? & ? & ? & Hi). exists r. split_and!; try done.
    unfold is_authority_item in *; cbn. by rewrite existsb_app, Hi.
  - unfold history_ok, append_history; cbn. apply Forall_app. split; [done|by apply Forall_singleton].
Qed.

Lemma step_effect sys sys' : step sys sys' -> database_ok (connection (store sys)) ->
  database_ok (connection (store sys')) /\ effect sys sys'.
Proof.
  intros Hs Hd. destruct Hs as [io call s s' reply l Hw He E|io call s s' e l Hw He E|busy io1 io2 io3 io4 claim s l Hc|row s l Hr|ids s l];
    cbn [store] in *.
  - destruct (perform_succeeds _ _ _ _ _ E) as (Hp & -> & Ht). rewrite (perform_spec _ _ Hp Hd Hw Ht) in E.
    destruct (spec _ _ _) as [[f' r]|] eqn:Es; [|done]. injection E as <- <-.
    pose proof (spec_record_ok _ _ _ _ Hd Hw Ht Es) as Hok. cbn [connection set_connection].
    split; [by apply database_ok_put|].
    assert (forall key', family {| store := set_connection (put (call_key call) f' (connection s)) s; log := events call r ++ l |} key'
              = if decide (key' = call_key call) then f' else fence (connection s) key') as Hf
      by (intros; by apply fence_put_ok).
    apply (eff_family _ _ (call_key call) (events call r)); try done.
    + rewrite Hf, decide_True by done. apply (spec_family _ _ _ _ _ Es). intros r0 F.
      by destruct (fence_Some _ _ _ (rows_ok _ Hd) F) as (? & _).
    + intros key' Hne. by rewrite Hf, decide_False.
    + intros claim Hin. destruct call as [key a i now_ms rv| | | |]; destruct r as [[]|[]|[]]; cbn in Hin;
        try (by apply elem_of_nil in Hin); apply list_elem_of_singleton in Hin; try done.
      injection Hin as ->. cbn in Es. unfold spec_begin in Es.
      repeat case_match; simplify_eq/=; (split; [done|]); intros; by apply He.
    + intros claim Hin. destruct call as [key a i now_ms rv| | | |]; destruct r as [[]|[]|[]]; cbn in Hin;
        try (by apply elem_of_nil in Hin); by apply list_elem_of_singleton in Hin.
  - pose proof (perform_fails _ _ _ _ _ E) as ->. split; [done|]. apply eff_history; [by left|done].
  - destruct (lease_drop_effect busy io1 io2 io3 io4 claim s Hd) as (f' & Hf' & Hfe & Hh).
    assert (record_ok (connection s) (claim_key claim) f') as Hok.
    { destruct Hf' as [->|[-> _]]; [by apply family_record_ok, Hd|by intros ?]. }
    split; [eapply database_ok_eq; [exact Hfe|exact Hh|by apply database_ok_put]|].
    apply (eff_family _ _ (claim_key claim) [EvDropped claim]); try done; cbn [log].
    + unfold family, current_authority; cbn [store]. rewrite (fence_fences _ _ _ Hfe), fence_put_ok, decide_True by done.
      destruct Hf' as [->|[-> [r O]]]; [constructor|].
      apply owned_in_Some in O as (-> & <- & ?). by constructor.
    + intros key' Hne. unfold family; cbn [store]. by rewrite (fence_fences _ _ _ Hfe), fence_put_ok, decide_False.
    + intros c Hin. by apply list_elem_of_singleton in Hin.
    + intros c Hin. apply list_elem_of_singleton in Hin. by injection Hin as ->.
  - split; [by apply append_history_ok|]. by apply eff_history; [left|].
  - split; [by apply delete_history_ok|]. apply eff_history; [|done]. intros key. by apply delete_history_fence.
Qed.

(** ** What the log says about a row *)

Definition event_claim (e : Event) : PermissionReviewClaim :=
  match e with
  | EvClaimed claim | EvAllowed claim | EvDenied claim | EvAdmitted claim | EvReleased claim | EvDropped claim => claim
  end.

(** Newest event first. *)
Inductive log_ok : list Event -> Prop :=
  | log_nil : log_ok []
  | log_claimed claim l : log_ok l -> (forall claim', EvClaimed claim' ∈ l -> claim_review_id claim' <> claim_review_id claim) ->
      log_ok (EvClaimed claim :: l)
  | log_allowed claim l : log_ok l -> EvClaimed claim ∈ l -> EvAllowed claim ∉ l -> EvDenied claim ∉ l -> EvReleased claim ∉ l ->
      log_ok (EvAllowed claim :: l)
  | log_denied claim l : log_ok l -> EvClaimed claim ∈ l -> EvAllowed claim ∉ l -> EvDenied claim ∉ l -> EvReleased claim ∉ l ->
      log_ok (EvDenied claim :: l)
  | log_admitted claim l : log_ok l -> EvClaimed claim ∈ l -> EvAllowed claim ∈ l -> EvDenied claim ∉ l -> EvReleased claim ∉ l ->
      log_ok (EvAdmitted claim :: l)
  | log_released claim l : log_ok l -> EvClaimed claim ∈ l -> EvDenied claim ∉ l -> EvReleased claim ∉ l ->
      log_ok (EvReleased claim :: l)
  | log_dropped claim l : log_ok l -> EvClaimed claim ∈ l -> log_ok (EvDropped claim :: l).

Definition row_facts (l : list Event) (r : PermissionRetryFenceRecord) : Prop :=
  EvClaimed (claim_of r) ∈ l /\ EvReleased (claim_of r) ∉ l /\
  match record_state r with
  | Reviewing => EvAllowed (claim_of r) ∉ l /\ EvDenied (claim_of r) ∉ l
  | AllowedPending | StateAdmitted => EvAllowed (claim_of r) ∈ l /\ EvDenied (claim_of r) ∉ l
  | Denied => EvAllowed (claim_of r) ∉ l /\ EvDenied (claim_of r) ∈ l
  end.

Record system_ok (sys : FenceSystem) : Prop := {
  system_database : database_ok (connection (store sys));
  system_log : log_ok (log sys);
  system_rows key r : family sys key = Some r -> row_facts (log sys) r
}.

Lemma log_event_claimed l e : log_ok l -> e ∈ l -> EvClaimed (event_claim e) ∈ l.
Proof.
  induction 1; intros Hin; [by apply elem_of_nil in Hin|..];
    apply elem_of_cons in Hin as [->|Hin]; cbn [event_claim]; apply elem_of_cons; auto.
Qed.

Lemma row_facts_other e l r : row_facts l r -> (event_claim e <> claim_of r \/ exists claim, e = EvDropped claim \/ e = EvAdmitted claim) ->
  row_facts (e :: l) r.
Proof.
  unfold row_facts. intros (H1 & H2 & H3) He. rewrite !elem_of_cons.
  split_and!; [by right|destruct e; naive_solver|].
  destruct (record_state r); destruct H3; rewrite !elem_of_cons; destruct e; naive_solver.
Qed.

Lemma family_key sys key r : system_ok sys -> family sys key = Some r -> record_key r = key.
Proof. intros H E. by destruct (fence_Some _ _ _ (rows_ok _ (system_database _ H)) E) as (? & _). Qed.

Lemma family_step_log current f ev f' l : log_ok l -> family_step current f ev f' ->
  (forall r, f = Some r -> row_facts l r) ->
  (forall claim, EvClaimed claim ∈ ev -> forall claim', EvClaimed claim' ∈ l -> claim_review_id claim' <> claim_review_id claim) ->
  (forall claim, EvDropped claim ∈ ev -> EvClaimed claim ∈ l) ->
  log_ok (ev ++ l) /\ (forall r, f' = Some r -> row_facts (ev ++ l) r).
Proof.
  intros Hl Hs Hf Hc Hd.
  assert (forall claim, EvClaimed claim ∈ ev -> forall e, e ∈ l -> event_claim e <> claim) as Fresh.
  { intros claim Hin e He <-. by apply (Hc _ Hin _ (log_event_claimed _ _ Hl He)). }
  destruct Hs as [f|f r Ha Es Hn|r now_ms Es|r out now_ms Es|r now_ms Es Ha|r Es Ha|r Es|r Es Ha|f claim|r Es]; cbn [app].
  - done.
  - split; [constructor; [done|]; apply Hc; by apply list_elem_of_singleton|].
    assert (forall e, e ∈ l -> event_claim e <> claim_of r) as F by (apply Fresh; by apply list_elem_of_singleton).
    intros ? [= <-]. unfold row_facts. rewrite Es, !elem_of_cons.
    split_and!; [by left|..]; intros [?|G]; try done; by apply (F _ G).
  - destruct (Hf r eq_refl) as (H1 & H2 & H3). rewrite Es in H3. destruct H3. split; [by constructor|].
    intros ? [= <-]. unfold row_facts; cbn. rewrite !elem_of_cons. naive_solver.
  - destruct (Hf r eq_refl) as (H1 & H2 & H3). rewrite Es in H3. destruct H3. split; [by constructor|].
    intros ? [= <-]. unfold row_facts; cbn. rewrite !elem_of_cons. naive_solver.
  - destruct (Hf r eq_refl) as (H1 & H2 & H3). rewrite Es in H3. destruct H3. split; [by constructor|].
    intros ? [= <-]. unfold row_facts; cbn. rewrite !elem_of_cons. naive_solver.
  - destruct (Hf r eq_refl) as (H1 & H2 & H3). pose proof H3 as H3'. rewrite Es in H3'. destruct H3'. split; [by constructor|].
    intros ? [= <-]. apply row_facts_other; [done|right; eauto].
  - destruct (Hf r eq_refl) as (H1 & H2 & H3). split; [|done]. constructor; try done. by destruct (record_state r), H3.
  - done.
  - split; [constructor; [done|]; apply Hd; by apply list_elem_of_singleton|].
    intros r E. apply row_facts_other; [by apply Hf|right; eauto].
  - split; [|done]. constructor; [done|]. apply Hd. by apply list_elem_of_singleton.
Qed.

(** Every event of a step but a drop is about the family that moved. *)
Lemma family_step_events current key f ev f' e : family_step current f ev f' -> e ∈ ev ->
  (forall r, f = Some r -> record_key r = key) -> (forall claim, EvClaimed claim ∈ ev -> claim_key claim = key) ->
  (exists claim, e = EvDropped claim) \/ claim_key (event_claim e) = key.
Proof.
  intros Hs He Hk Hc.
  destruct Hs; try (by apply elem_of_nil in He); apply list_elem_of_singleton in He; subst e; cbn [event_claim];
    eauto; right; try (by apply Hk); apply Hc; by apply list_elem_of_singleton.
Qed.

Lemma fence_step_ok sys sys' : step sys sys' -> system_ok sys -> system_ok sys'.
Proof.
  intros Hs H. destruct (step_effect _ _ Hs (system_database _ H)) as [Hd He].
  destruct He as [key ev Hf Ho Hc Hdr Hl Hh|Hf Hl].
  - destruct (family_step_log _ _ _ _ _ (system_log _ H) Hf (system_rows _ H key)) as [L R].
    { intros claim Hin. by apply Hc. }
    { exact Hdr. }
    split; [done|by rewrite Hl|]. intros key' r E. rewrite Hl.
    destruct (decide (key' = key)) as [->|Hne]; [by apply R|].
    rewrite (Ho _ Hne) in E. pose proof (family_key _ _ _ H E) as Ek. pose proof (system_rows _ H _ _ E) as F.
    assert (forall e, e ∈ ev -> (exists claim, e = EvDropped claim) \/ claim_key (event_claim e) = key) as Hev.
    { intros e Hin. apply (family_step_events _ _ _ _ _ _ Hf Hin); [intros r0 Er; exact (family_key _ _ _ H Er)|]. intros claim Hi. by apply Hc. }
    clear - F Hev Ek Hne. induction ev as [|e ev IH]; [done|]. cbn [app]. apply row_facts_other.
    + apply IH. intros e' Hin. apply Hev. by apply elem_of_cons; right.
    + destruct (Hev e) as [[claim ->]|G]; [apply elem_of_cons; by left|right; eauto|left].
      intros F'. rewrite F' in G. cbn in G. by rewrite Ek in G.
  - split; [done|by rewrite Hl; apply H|]. intros key r E. rewrite Hl. destruct (Hf key) as [G|[G _]]; rewrite G in E; [|done].
    by apply (system_rows _ H key).
Qed.

Lemma fence_initial_ok sys : initial sys -> system_ok sys.
Proof.
  intros (Hf & Hh & Hl). split.
  - split; [|done]. unfold fences_ok. by rewrite Hf.
  - rewrite Hl. constructor.
  - intros key r E. unfold family, fence, record_for_key in E. by rewrite Hf, lookup_empty in E.
Qed.

Lemma fence_steps_ok sys sys' : rtc step sys sys' -> system_ok sys -> system_ok sys'.
Proof. induction 1; eauto using fence_step_ok. Qed.

Lemma fence_reachable_ok sys : reachable sys -> system_ok sys.
Proof. intros (sys0 & Hi & Hr). by apply (fence_steps_ok _ _ Hr), fence_initial_ok. Qed.
End Safety.
