(* ===== verification/PermissionFenceTheorems.v ===== *)
(** * What the retry fence guarantees

    The properties of the store and of the system of its callers, each with a run of it on a
    database of one root session. *)
From S2P Require Import Prelude.
From S2P Require Import Text.
From S2P Require Import PermissionFence.
From S2P Require Import PermissionFenceFacts.
From S2P Require Import PermissionFenceSystem.

(** ** Statements *)

Section Statements.
Context {U : Ulid}.

(** The clock of the owner of a row runs behind the row. *)
Definition clock_behind (call : Call) (current : option N) (f : option PermissionRetryFenceRecord) : Prop :=
  match call with
  | CallAllow claim now_ms | CallDeny claim _ now_ms =>
      exists r, owned_in claim [Reviewing] f = Some r /\ (now_ms < record_updated_at_ms r)%Z
  | CallAdmit claim now_ms =>
      current = Some (claim_authority claim) /\
      exists r, owned_in claim [AllowedPending] f = Some r /\ (now_ms < record_updated_at_ms r)%Z
  | _ => False
  end.

(** What a call does to a healthy database. *)
Definition refines_spec (call : Call) (s : SqlitePermissionRetryFenceStore) : Prop :=
  let '(s', r) := perform None call s in
  let key := call_key call in
  database_ok (connection s') /\ history (connection s') = history (connection s) /\
  match spec call (authority (root_session_id key) (connection s)) (fence (connection s) key) with
  | Ok (f', reply) =>
      r = Ok reply /\
      forall key', fence (connection s') key' = if decide (key' = key) then f' else fence (connection s) key'
  | Err e => r = Err e /\ s' = s
  end.

Definition fails (call : Call) (s : SqlitePermissionRetryFenceStore) : Prop := exists e, snd (perform None call s) = Err e.
Definition must_fail (call : Call) (s : SqlitePermissionRetryFenceStore) : Prop :=
  poisoned s = true \/ (call_now call < 0)%Z \/
  clock_behind call (authority (root_session_id (call_key call)) (connection s)) (fence (connection s) (call_key call)).

(** Steps during which the authority of a root session does not change. *)
Definition stays (root : SessionId) (a : N) : FenceSystem -> FenceSystem -> Prop :=
  rtc (fun x y => step x y /\ current_authority y root = Some a).

Definition owns (sys : FenceSystem) (claim : PermissionReviewClaim) : Prop :=
  exists r, family sys (claim_key claim) = Some r /\ claim_of r = claim.

(** No caller was told anything about a claim but that its lease is gone. *)
Definition silent (claim : PermissionReviewClaim) (new : list Event) : Prop :=
  forall e, e ∈ new -> event_claim e = claim -> e = EvDropped claim.
End Statements.

Section Theorems.
Context {U : Ulid} {UL : UlidLaws U}.
Implicit Types (s : SqlitePermissionRetryFenceStore) (call : Call) (sys : FenceSystem).

(** ** Calls *)

Lemma transition_errors claim st out now_ms f : (exists e, spec_transition claim st out now_ms f = Err e) <->
  exists r, owned_in claim [Reviewing] f = Some r /\ (now_ms < record_updated_at_ms r)%Z.
Proof.
  unfold spec_transition. destruct (owned_in _ _ _) as [r|]; [|naive_solver].
  destruct (Z.ltb_spec now_ms (record_updated_at_ms r)); split; intros [? E]; eauto; [done|].
  destruct E as [[= <-] ?]. lia.
Qed.

Lemma admit_errors claim now_ms current f : (exists e, spec_admit claim now_ms current f = Err e) <->
  clock_behind (CallAdmit claim now_ms) current f.
Proof.
  unfold spec_admit, clock_behind. case_decide; [|naive_solver].
  destruct (owned_in claim [AllowedPending] f) as [r|].
  - destruct (Z.ltb_spec now_ms (record_updated_at_ms r)); split; [eauto|eauto|by intros [? ?]|].
    intros (_ & ? & [= <-] & ?). lia.
  - destruct (owned_in claim [StateAdmitted] f); naive_solver.
Qed.

Lemma spec_errors call current f : (exists e, spec call current f = Err e) <-> clock_behind call current f.
Proof.
  destruct call as [key a i now_ms rv|claim now_ms|claim out now_ms|claim now_ms|claim]; cbn [spec].
  - destruct (spec_begin _ _ _ _ _ _ _). split; [by intros [? ?]|done].
  - unfold clock_behind. rewrite <- (transition_errors claim AllowedPending None). destruct (spec_transition _ _ _ _ _) as [[]|]; cbn;
      split; intros [? ?]; by eauto.
  - unfold clock_behind. rewrite <- (transition_errors claim Denied (Some out)). destruct (spec_transition _ _ _ _ _) as [[]|]; cbn;
      split; intros [? ?]; by eauto.
  - rewrite <- admit_errors. destruct (spec_admit _ _ _ _) as [[]|]; cbn;
      split; intros [? ?]; by eauto.
  - destruct (spec_release _ _ _). split; [by intros [? ?]|done].
Qed.

(** C35. A call on a healthy database does to the record of its family, and answers, what the
    specification of the call says; other families, the history and the well-formedness of the
    database are kept. *)
Theorem fence_calls_implement_spec call s : poisoned s = false -> database_ok (connection s) -> call_wf call ->
  (0 <= call_now call)%Z -> refines_spec call s.
Proof.
  intros Hp Hd Hw Ht. unfold refines_spec. rewrite (perform_spec _ _ Hp Hd Hw Ht).
  cbv zeta. destruct (spec _ _ _) as [[f' r]|e] eqn:E; [|done].
  pose proof (spec_record_ok _ _ _ _ Hd Hw Ht E) as Hok. cbn [connection set_connection].
  split; [by apply database_ok_put|]. split; [done|]. split; [done|]. intros key'. by apply fence_put_ok.
Qed.

(** A call that fails changes nothing, whatever failed; on a healthy database, with SQLite
    doing its part, a call fails exactly when the lock is poisoned, the clock is before the epoch,
    or the clock of the row's owner runs behind the row. *)
Theorem fence_call_errors call s : database_ok (connection s) -> call_wf call ->
  (forall io s' e, perform io call s = (s', Err e) -> s' = s) /\ (fails call s <-> must_fail call s).
Proof.
  intros Hd Hw. split; [intros io s' e; apply perform_fails|]. unfold fails, must_fail. split.
  - intros [e E]. destruct (poisoned s) eqn:Hp; [by left|]. destruct (Z.lt_ge_cases (call_now call) 0) as [|Ht]; [by right; left|].
    right; right. apply spec_errors. rewrite (perform_spec _ _ Hp Hd Hw Ht) in E.
    destruct (spec _ _ _) as [[f' r]|e'] eqn:Es; [done|eauto].
  - intros H. destruct (perform None call s) as [s' [reply|e]] eqn:E; [|by exists e].
    destruct (perform_succeeds _ _ _ _ _ E) as (Hp & _ & Ht).
    destruct H as [H|[H|H]]; [by rewrite Hp in H|lia|].
    apply spec_errors in H as [e He]. by rewrite (perform_spec _ _ Hp Hd Hw Ht), He in E.
Qed.

(** C40. In every reachable state every row of the table decodes to a record of its own primary key,
    with an outcome exactly when it is denied, timestamps in order and an authority item that is a
    user turn or steer turn of the root session. *)
Theorem reachable_fences_decode sys pk row : reachable sys -> fences (connection (store sys)) !! pk = Some row ->
  exists r, decode_record pk row = Ok r /\ pk = key_pk (record_key r) /\
    (record_state r = Denied <-> is_Some (record_outcome r)) /\
    (0 <= record_created_at_ms r <= record_updated_at_ms r)%Z /\
    is_authority_item (fst (fst pk)) (authority_history_item_id row) (connection (store sys)) = true.
Proof.
  intros Hr E. destruct (rows_ok _ (system_database _ (fence_reachable_ok _ Hr)) _ _ E) as (r & Hv & -> & -> & Hi).
  exists r. rewrite (decode_row_of _ Hv). by split_and!; try apply Hv.
Qed.

(** ** Callers *)

Lemma log_ok_app l1 l2 : log_ok (l1 ++ l2) -> log_ok l2.
Proof. induction l1 as [|e l1 IH]; cbn; [done|]. intros H. apply IH. by inversion H. Qed.

Lemma log_not_both l claim : log_ok l -> EvAllowed claim ∈ l -> EvDenied claim ∈ l -> False.
Proof.
  intros Hl. induction Hl; intros HA HD; [by apply elem_of_nil in HA|..];
    apply elem_of_cons in HA as [EA|HA]; apply elem_of_cons in HD as [ED|HD]; simplify_eq; auto.
Qed.

(** C18. An effect is admitted for a claim only after the same claim was allowed, which was after it
    was made; a claim that is admitted was never denied, before or since, and was not released
    before. *)
Theorem admission_follows_approval sys claim later earlier :
  reachable sys -> log sys = later ++ EvAdmitted claim :: earlier ->
  (exists l1 l2, earlier = l1 ++ EvAllowed claim :: l2 /\ EvClaimed claim ∈ l2) /\
  EvDenied claim ∉ log sys /\ EvReleased claim ∉ earlier.
Proof.
  intros Hr E. pose proof (system_log _ (fence_reachable_ok _ Hr)) as L.
  pose proof L as L'. rewrite E in L'. apply log_ok_app in L'. inversion L' as [| | | |claim' l Hl Hc Ha Hd Hn| |]; subst.
  apply list_elem_of_split in Ha as (l1 & l2 & ->).
  split_and!; [|intros Hin|done].
  - exists l1, l2. split; [done|]. apply log_ok_app in Hl. by inversion Hl.
  - apply (log_not_both _ claim L); [|done]. rewrite E. apply elem_of_app; right. apply elem_of_cons; right.
    apply elem_of_app; right. by apply elem_of_cons; left.
Qed.

(** The family of a row whose authority stays current. *)
Definition kept (key : PermissionRetryFenceKey) (r : PermissionRetryFenceRecord) (l : list Event) (sys : FenceSystem) : Prop :=
  exists new r', log sys = new ++ l /\ family sys key = Some r' /\ claim_of r' = claim_of r /\
    (record_state r = Denied -> r' = r) /\ forall claim, EvClaimed claim ∈ new -> claim_key claim <> key.

Definition given_up (r : PermissionRetryFenceRecord) (l : list Event) (sys : FenceSystem) : Prop :=
  record_state r <> Denied /\ exists new, log sys = new ++ l /\ (EvReleased (claim_of r) ∈ new \/ EvDropped (claim_of r) ∈ new).

Lemma log_grows x y : step x y -> exists ev, log y = ev ++ log x.
Proof. destruct 1; cbn; [by eexists|by exists []|by exists [EvDropped claim]|by exists []..]. Qed.

Lemma claim_of_authority r r' : claim_of r' = claim_of r -> record_authority r' = record_authority r.
Proof. by intros [=]. Qed.

Lemma family_step_kept a r f ev f' : family_step (Some a) f ev f' -> f = Some r -> record_authority r = a ->
  (exists r', f' = Some r' /\ claim_of r' = claim_of r /\ (record_state r = Denied -> r' = r) /\
              forall claim, EvClaimed claim ∉ ev) \/
  record_state r <> Denied /\ (EvReleased (claim_of r) ∈ ev \/ EvDropped (claim_of r) ∈ ev).
Proof.
  intros Hs E Ha.
  destruct Hs as [f|f r1 Ha1 Es Hn|r1 now_ms Es|r1 out now_ms Es|r1 now_ms Es Ha1|r1 Es Ha1|r1 Es|r1 Es Ha1|f claim|r1 Es]; subst.
  - left. exists r. split_and!; try done. intros claim. apply not_elem_of_nil.
  - exfalso. apply (Hn r eq_refl). by injection Ha1.
  - injection E as ->. left. eexists. split_and!; [done|done|by rewrite Es|intros claim F; by apply list_elem_of_singleton in F].
  - injection E as ->. left. eexists. split_and!; [done|done|by rewrite Es|intros claim F; by apply list_elem_of_singleton in F].
  - injection E as ->. left. eexists. split_and!; [done|done|by rewrite Es|intros claim F; by apply list_elem_of_singleton in F].
  - injection E as ->. left. eexists. split_and!; [done|done|done|intros claim F; by apply list_elem_of_singleton in F].
  - injection E as ->. right. split; [done|left; by apply list_elem_of_singleton].
  - injection E as ->. by destruct Ha1.
  - left. eexists. split_and!; [done|done|done|intros claim' F; by apply list_elem_of_singleton in F].
  - injection E as ->. right. split; [|right; by apply list_elem_of_singleton].
    intros F. rewrite F in Es. by apply list_elem_of_In in Es as [?|[?|[]]].
Qed.

Lemma stays_kept a key r l sys sys' : system_ok sys -> stays (root_session_id key) a sys sys' ->
  current_authority sys (root_session_id key) = Some a -> record_authority r = a ->
  kept key r l sys \/ given_up r l sys -> kept key r l sys' \/ given_up r l sys'.
Proof.
  intros Hok Hs Ha Hr. induction Hs as [x|x y z [Hxy Hay] _ IH]; [done|]. intros Hk.
  apply IH; [by apply (fence_step_ok _ _ Hxy)|done|]. clear IH.
  destruct Hk as [(new & r' & Hl & Hf & Hc & Hd & Hn)|(Hd & new & Hl & Hg)].
  2: { right. split; [done|]. destruct (log_grows _ _ Hxy) as [ev Hev]. exists (ev ++ new). rewrite Hev, Hl, app_assoc.
       split; [done|]. rewrite !elem_of_app. tauto. }
  destruct (proj2 (step_effect _ _ Hxy (system_database _ Hok))) as [key' ev Hfs Ho He Hdr Hl' Hh|Hh Hl'].
  - destruct (decide (key' = key)) as [->|Hne].
    + rewrite Ha in Hfs. destruct (family_step_kept a r' _ _ _ Hfs Hf) as [(r2 & E2 & C2 & D2 & N2)|[D2 G2]].
      { by rewrite (claim_of_authority _ _ Hc). }
      * left. exists (ev ++ new), r2. rewrite Hl', Hl, app_assoc. split_and!; try done; [by rewrite C2| |].
        { intros D. pose proof (Hd D) as ->. by apply D2. }
        intros claim [F|F]%elem_of_app; [by destruct (N2 _ F)|by apply Hn].
      * right. assert (record_state r <> Denied) as D by (intros F; pose proof (Hd F) as ->; done).
        split; [done|]. exists (ev ++ new). rewrite Hl', Hl, app_assoc. split; [done|]. rewrite Hc in G2. rewrite !elem_of_app. tauto.
    + left. exists (ev ++ new), r'. rewrite Hl', Hl, app_assoc. split_and!; try done; [by rewrite Ho|].
      intros claim [F|F]%elem_of_app; [by rewrite (proj1 (He _ F))|by apply Hn].
  - destruct (Hh key) as [G|[_ G]].
    + left. exists new, r'. by rewrite Hl', G.
    + destruct (G _ Hf). by rewrite (claim_of_authority _ _ Hc), Hr.
Qed.

Lemma kept_refl key r sys : family sys key = Some r -> kept key r (log sys) sys.
Proof. intros E. exists [], r. split_and!; try done. intros claim F. by apply elem_of_nil in F. Qed.

(** A denied family stays denied, with its outcome and its review, and nobody claims it, for as
    long as the authority of the root session does not change: no call, cleanup, other review,
    rollback or appended item reopens it. *)
Theorem denied_family_stays_denied sys sys' key r a :
  reachable sys -> current_authority sys (root_session_id key) = Some a ->
  family sys key = Some r -> record_state r = Denied -> record_authority r = a ->
  stays (root_session_id key) a sys sys' ->
  family sys' key = Some r /\
  exists new, log sys' = new ++ log sys /\ forall claim, EvClaimed claim ∈ new -> claim_key claim <> key.
Proof.
  intros Hr Ha Hf Hd Hra Hs.
  destruct (stays_kept a key r (log sys) _ _ (fence_reachable_ok _ Hr) Hs Ha Hra (or_introl (kept_refl _ _ _ Hf)))
    as [(new & r' & Hl & Hf' & _ & E & Hn)|[F _]]; [|done].
  rewrite <- (E Hd). eauto.
Qed.

(** While the authority of a root session does not change, a claimed family is claimed again
    only after the lease of the first claim was released or dropped. *)
Theorem family_is_claimed_once sys sys' key r a new claim :
  reachable sys -> current_authority sys (root_session_id key) = Some a ->
  family sys key = Some r -> record_authority r = a ->
  stays (root_session_id key) a sys sys' -> log sys' = new ++ log sys ->
  EvClaimed claim ∈ new -> claim_key claim = key ->
  record_state r <> Denied /\ (EvReleased (claim_of r) ∈ new \/ EvDropped (claim_of r) ∈ new).
Proof.
  intros Hr Ha Hf Hra Hs Hl Hc Hk.
  destruct (stays_kept a key r (log sys) _ _ (fence_reachable_ok _ Hr) Hs Ha Hra (or_introl (kept_refl _ _ _ Hf)))
    as [(new' & r' & Hl' & _ & _ & _ & Hn)|(Hd & new' & Hl' & Hg)]; rewrite Hl in Hl'; apply app_inv_tail in Hl' as <-.
  - by destruct (Hn _ Hc).
  - done.
Qed.

(** An event about a claim comes from its owner. *)
Lemma family_step_owner current key f ev f' claim e : family_step current f ev f' -> e ∈ ev -> event_claim e = claim ->
  claim_key claim = key -> (forall claim', EvClaimed claim' ∈ ev -> claim' <> claim) ->
  e = EvDropped claim \/ exists r, f = Some r /\ claim_of r = claim.
Proof.
  intros Hs He Hc Hk Hn.
  destruct Hs; try (by apply elem_of_nil in He); apply list_elem_of_singleton in He as He'; subst e; cbn [event_claim] in Hc;
    eauto; try (by left; f_equal); by destruct (Hn _ He).
Qed.

Lemma family_step_no_owner current f ev f' r : family_step current f ev f' -> f' = Some r ->
  (exists r0, f = Some r0 /\ claim_of r0 = claim_of r) \/ EvClaimed (claim_of r) ∈ ev.
Proof.
  intros Hs E. destruct Hs; simplify_eq; eauto; right; by apply list_elem_of_singleton.
Qed.

(** A claim that no longer owns the row of its family never owns it again: whatever happens
    afterwards, no call made with it is applied or admits an effect. *)
Theorem lost_claim_is_powerless sys sys' claim new :
  reachable sys -> EvClaimed claim ∈ log sys -> ~ owns sys claim -> rtc step sys sys' -> log sys' = new ++ log sys ->
  ~ owns sys' claim /\ silent claim new.
Proof.
  intros Hr Hc Hn Hs. pose proof (fence_reachable_ok _ Hr) as Hok. clear Hr. revert new.
  induction Hs as [x|x y z Hxy Hyz IH]; intros new Hl.
  { rewrite <- (app_nil_l (log x)) in Hl at 1. apply app_inv_tail in Hl as <-. split; [done|]. intros e F. by apply elem_of_nil in F. }
  assert (~ owns y claim /\ exists ev, log y = ev ++ log x /\ silent claim ev) as (Hny & ev & Hev & Hsil).
  { destruct (proj2 (step_effect _ _ Hxy (system_database _ Hok))) as [key ev Hfs Ho He Hdr Hl' Hh|Hh Hl'].
    - assert (forall claim', EvClaimed claim' ∈ ev -> claim' <> claim) as Hnew.
      { intros claim' F ->. by destruct (proj2 (He _ F) _ Hc). }
      split.
      + intros (r & Hf & Hcr). destruct (decide (claim_key claim = key)) as [Hk|Hk].
        * rewrite Hk in Hf. destruct (family_step_no_owner _ _ _ _ _ Hfs Hf) as [(r0 & Hf0 & Hc0)|F].
          -- apply Hn. exists r0. rewrite Hk. split; [done|]. by rewrite Hc0.
          -- by apply (Hnew _ F).
        * apply Hn. exists r. by rewrite <- Ho.
      + exists ev. split; [done|]. intros e Hin Hec.
        destruct (family_step_events _ key _ _ _ e Hfs Hin) as [[c ->]|Hk].
        * intros r Hf. exact (family_key _ _ _ Hok Hf).
        * intros c F. by apply He.
        * cbn in Hec. by subst c.
        * rewrite Hec in Hk. destruct (family_step_owner _ _ _ _ _ _ _ Hfs Hin Hec Hk Hnew) as [->|(r & Hf & Hcr)]; [done|].
          destruct Hn. exists r. by rewrite Hk.
    - split.
      + intros (r & Hf & Hcr). apply Hn. exists r. destruct (Hh (claim_key claim)) as [G|[G _]]; [by rewrite <- G|by rewrite G in Hf].
      + exists []. split; [done|]. intros e F. by apply elem_of_nil in F. }
  assert (exists new', log z = new' ++ log y) as [new' Hz].
  { clear - Hyz. induction Hyz as [x|x y z Hxy _ [n IH]]; [by exists []|].
    destruct (log_grows _ _ Hxy) as [ev Hev]. exists (n ++ ev). by rewrite IH, Hev, app_assoc. }
  rewrite Hz, Hev, app_assoc in Hl. apply app_inv_tail in Hl as <-.
  destruct (IH ltac:(rewrite Hev; apply elem_of_app; by right) Hny (fence_step_ok _ _ Hxy Hok) new' Hz) as [H1 H2].
  split; [done|]. intros e [F|F]%elem_of_app; auto.
Qed.

Lemma last_snoc_filter {A} (P : A -> Prop) `{!forall x, Decision (P x)} l x : P x -> last (filter P (l ++ [x])) = Some x.
Proof. intros HP. rewrite filter_app, filter_cons_True, filter_nil by done. apply last_snoc. Qed.

Lemma spec_begin_claims key a identity now_ms review f : (forall r, f = Some r -> record_authority r <> a) ->
  spec_begin key a identity now_ms review (Some a) f =
  (Some (new_record key a identity now_ms review), Claimed (claim_of (new_record key a identity now_ms review))).
Proof.
  intros Hf. unfold spec_begin. rewrite decide_True by done. destruct f as [r|]; [|done].
  by rewrite decide_False by (by apply Hf).
Qed.

(** A new user turn reopens every family of its root session: whatever is recorded for the
    family under earlier items, a review under the new item claims it. *)
Theorem new_authority_reopens sys key a row identity now_ms review :
  reachable sys -> poisoned (store sys) = false -> valid_key key -> glob_sha256 identity = true -> (0 <= now_ms)%Z ->
  row = {| history_session_id := ulid_to_string (root_session_id key); history_id := ulid_to_string a;
           history_kind := lit "user_turn" |} ->
  (forall r, family sys key = Some r -> record_authority r <> a) ->
  let s := set_connection (append_history row (connection (store sys))) (store sys) in
  let '(s', r) := begin_review_at None key a identity now_ms review s in
  r = Ok (Claimed {| claim_key := key; claim_authority := a; claim_review_id := review; claim_identity_sha256 := identity |}) /\
  fence (connection s') key = Some (new_record key a identity now_ms review).
Proof.
  intros Hr Hp Hk Hi Ht -> Hf. set (row := Build_HistoryRow _ _ _). intros s.
  assert (database_ok (connection s)) as Hd.
  { apply append_history_ok; [by eexists|]. apply (system_database _ (fence_reachable_ok _ Hr)). }
  assert (authority (root_session_id key) (connection s) = Some a) as Ha.
  { unfold authority, latest_authority_history_item_id. cbn [connection set_connection s append_history history set_history].
    rewrite last_snoc_filter by (unfold is_authority_of; subst row; cbn; by rewrite text_eqb_refl).
    subst row; cbn [history_id]. by rewrite ulid_round_trip. }
  pose proof (perform_spec (CallBegin key a identity now_ms review) s Hp Hd (conj Hk Hi) Ht) as E.
  cbn [perform spec call_key] in E. rewrite Ha in E.
  assert (fence (connection s) key = family sys key) as Hfs by (by apply fence_fences).
  rewrite Hfs, (spec_begin_claims _ _ _ _ _ _ Hf) in E.
  unfold map_snd in E. destruct (begin_review_at _ _ _ _ _ _ _) as [s' [b|e]]; cbn in E; [|done]. injection E as -> ->.
  split; [done|]. cbn [connection set_connection]. rewrite fence_put_ok, decide_True; try done. intros ? [= <-].
  split_and!; [done|by apply new_record_valid|]. apply authority_is_item; [apply Hd|done].
Qed.
End Theorems.

(** ** A run *)

(** A codec that satisfies the laws. *)
#[local] Instance demo_ulid : Ulid :=
  {| ulid_to_string u := [u]; ulid_from_string t := match t with [u] => Ok u | _ => Err (lit "invalid length") end |}.
#[local] Instance demo_ulid_laws : UlidLaws demo_ulid.
Proof. by split. Qed.

(** A call that finds the lock and SQLite in order. *)
Definition run_call (call : Call) (sys : FenceSystem) : FenceSystem :=
  let '(s', r) := perform None call (store sys) in
  {| store := s'; log := match r with Ok reply => events call reply ++ log sys | Err _ => log sys end |}.

Lemma run_call_step call sys : call_wf call -> enabled (log sys) call -> step sys (run_call call sys).
Proof.
  intros Hw He. unfold run_call. destruct sys as [s l]; cbn [store log] in *.
  destruct (perform None call s) as [s' [reply|e]] eqn:E; [by eapply step_call|by eapply step_failed].
Qed.

Definition demo_sha : text := repeat 97%N 64.
Definition demo_key : PermissionRetryFenceKey := {| root_session_id := 1; family_version := 1; family_sha256 := demo_sha |}.
Definition demo_claim (review : N) : PermissionReviewClaim :=
  {| claim_key := demo_key; claim_authority := 7; claim_review_id := review; claim_identity_sha256 := demo_sha |}.
Definition demo_row (item : N) : HistoryRow :=
  {| history_session_id := [1%N]; history_id := [item]; history_kind := lit "user_turn" |}.
Definition demo_start : FenceSystem :=
  {| store := {| poisoned := false; connection := {| fences := ∅; history := [demo_row 7]; busy_timeout_ms := 5000 |} |};
     log := [] |}.
Definition demo_claimed : FenceSystem := run_call (CallBegin demo_key 7 demo_sha 10 100) demo_start.
Definition demo_denied : FenceSystem := run_call (CallDeny (demo_claim 100) GuardianDenied 20) demo_claimed.
Definition demo_allowed : FenceSystem := run_call (CallAllow (demo_claim 100) 20) demo_claimed.
Definition demo_admitted : FenceSystem := run_call (CallAdmit (demo_claim 100) 30) demo_allowed.
Definition demo_released : FenceSystem := run_call (CallRelease (demo_claim 100)) demo_admitted.
Definition demo_again : FenceSystem := run_call (CallBegin demo_key 7 demo_sha 50 101) demo_released.

Definition demo_record (st : PermissionRetryFenceState) (out : option PermissionRetryFenceOutcome) (now_ms : Z)
    : PermissionRetryFenceRecord := set_state st out now_ms (new_record demo_key 7 demo_sha 10 100).

Lemma demo_wf : valid_key demo_key /\ glob_sha256 demo_sha = true.
Proof. by split. Qed.

Lemma demo_start_reachable : reachable demo_start.
Proof.
  exists demo_start. split; [|constructor]. split_and!; [done| |done]. constructor; [by exists 7%N|constructor].
Qed.

Lemma fence_reachable_step sys sys' : reachable sys -> step sys sys' -> reachable sys'.
Proof. intros (sys0 & Hi & Hr) Hs. exists sys0. split; [done|]. by eapply rtc_r. Qed.

Lemma demo_claimed_step : step demo_start demo_claimed.
Proof. apply run_call_step; [apply demo_wf|]. intros c F. by apply elem_of_nil in F. Qed.
Lemma demo_claimed_log : log demo_claimed = [EvClaimed (demo_claim 100)].
Proof. vm_compute. reflexivity. Qed.
Lemma demo_claimed_reachable : reachable demo_claimed.
Proof. exact (fence_reachable_step _ _ demo_start_reachable demo_claimed_step). Qed.

Lemma demo_denied_reachable : reachable demo_denied.
Proof.
  apply (fence_reachable_step _ _ demo_claimed_reachable), run_call_step; [done|]. rewrite demo_claimed_log. by apply list_elem_of_singleton.
Qed.

Lemma demo_denied_row : fences (connection (store demo_denied)) !! key_pk demo_key =
  Some (row_of (demo_record Denied (Some GuardianDenied) 20)).
Proof. vm_compute. reflexivity. Qed.

Lemma demo_allowed_step : step demo_claimed demo_allowed.
Proof. apply run_call_step; [done|]. rewrite demo_claimed_log. by apply list_elem_of_singleton. Qed.
Lemma demo_allowed_log : log demo_allowed = [EvAllowed (demo_claim 100); EvClaimed (demo_claim 100)].
Proof. vm_compute. reflexivity. Qed.

Lemma demo_admitted_step : step demo_allowed demo_admitted.
Proof. apply run_call_step; [done|]. rewrite demo_allowed_log. apply elem_of_cons; right. by apply list_elem_of_singleton. Qed.
Lemma demo_admitted_log :
  log demo_admitted = [EvAdmitted (demo_claim 100); EvAllowed (demo_claim 100); EvClaimed (demo_claim 100)].
Proof. vm_compute. reflexivity. Qed.
Lemma demo_admitted_reachable : reachable demo_admitted.
Proof.
  exact (fence_reachable_step _ _ (fence_reachable_step _ _ demo_claimed_reachable demo_allowed_step) demo_admitted_step).
Qed.

Lemma demo_released_step : step demo_admitted demo_released.
Proof.
  apply run_call_step; [done|]. rewrite demo_admitted_log. do 2 (apply elem_of_cons; right). by apply list_elem_of_singleton.
Qed.
Lemma demo_released_log : log demo_released = EvReleased (demo_claim 100) :: log demo_admitted.
Proof. vm_compute. reflexivity. Qed.

Lemma demo_again_step : step demo_released demo_again.
Proof.
  apply run_call_step; [apply demo_wf|]. rewrite demo_released_log, demo_admitted_log.
  intros c F. rewrite !elem_of_cons, elem_of_nil in F. destruct F as [F|[F|[F|[F|[]]]]]; by simplify_eq.
Qed.
Lemma demo_again_log : log demo_again = [EvClaimed (demo_claim 101); EvReleased (demo_claim 100)] ++ log demo_admitted.
Proof. vm_compute. reflexivity. Qed.

Lemma fence_calls_implement_spec_witness : refines_spec (CallAllow (demo_claim 100) 20) (store demo_claimed).
Proof.
  apply (fence_calls_implement_spec (CallAllow (demo_claim 100) 20) (store demo_claimed)); [by vm_compute| |done|done].
  exact (system_database _ (fence_reachable_ok _ demo_claimed_reachable)).
Defined.

Lemma fence_call_errors_witness :
  fails (CallAllow (demo_claim 100) 5) (store demo_claimed) <-> must_fail (CallAllow (demo_claim 100) 5) (store demo_claimed).
Proof.
  apply (fence_call_errors (CallAllow (demo_claim 100) 5) (store demo_claimed)); [|done].
  exact (system_database _ (fence_reachable_ok _ demo_claimed_reachable)).
Defined.

Lemma reachable_fences_decode_witness : exists r,
  decode_record (key_pk demo_key) (row_of (demo_record Denied (Some GuardianDenied) 20)) = Ok r /\ key_pk demo_key = key_pk (record_key r).
Proof.
  destruct (reachable_fences_decode demo_denied (key_pk demo_key) (row_of (demo_record Denied (Some GuardianDenied) 20))
              demo_denied_reachable demo_denied_row) as (r & E & K & _).
  exists r. exact (conj E K).
Defined.

Lemma admission_follows_approval_witness : EvDenied (demo_claim 100) ∉ log demo_admitted.
Proof.
  exact (proj1 (proj2 (admission_follows_approval demo_admitted (demo_claim 100) [] _ demo_admitted_reachable demo_admitted_log))).
Defined.

(** An authorised user turn of another session comes in between. *)
Definition demo_other : FenceSystem :=
  {| store := set_connection (append_history {| history_session_id := [2%N]; history_id := [9%N]; history_kind := lit "user_turn" |}
                (connection (store demo_denied))) (store demo_denied);
     log := log demo_denied |}.
Lemma demo_other_stays : stays 1 7 demo_denied demo_other.
Proof.
  eapply rtc_l; [|constructor]. split; [|by vm_compute].
  pose proof (step_append {| history_session_id := [2%N]; history_id := [9%N]; history_kind := lit "user_turn" |}
                (store demo_denied) (log demo_denied)) as S.
  destruct demo_denied as [s l] eqn:E. unfold demo_other. rewrite E. apply S. by exists 9%N.
Qed.

Lemma denied_family_stays_denied_witness : family demo_other demo_key = Some (demo_record Denied (Some GuardianDenied) 20).
Proof.
  apply (denied_family_stays_denied demo_denied demo_other demo_key _ 7 demo_denied_reachable); try (vm_compute; reflexivity).
  exact demo_other_stays.
Defined.

Lemma demo_again_stays : stays 1 7 demo_admitted demo_again.
Proof.
  eapply rtc_l; [split; [exact demo_released_step|by vm_compute]|].
  eapply rtc_l; [split; [exact demo_again_step|by vm_compute]|constructor].
Qed.

Lemma family_is_claimed_once_witness :
  EvReleased (demo_claim 100) ∈ [EvClaimed (demo_claim 101); EvReleased (demo_claim 100)] \/
  EvDropped (demo_claim 100) ∈ [EvClaimed (demo_claim 101); EvReleased (demo_claim 100)].
Proof.
  apply (family_is_claimed_once demo_admitted demo_again demo_key (demo_record StateAdmitted None 30) 7 _ (demo_claim 101)
           demo_admitted_reachable); try (vm_compute; reflexivity).
  - exact demo_again_stays.
  - apply elem_of_cons. by left.
Defined.

Lemma demo_released_reachable : reachable demo_released.
Proof. exact (fence_reachable_step _ _ demo_admitted_reachable demo_released_step). Qed.

Lemma lost_claim_is_powerless_witness : ~ owns demo_again (demo_claim 100).
Proof.
  apply (lost_claim_is_powerless demo_released demo_again (demo_claim 100) [EvClaimed (demo_claim 101)] demo_released_reachable).
  - rewrite demo_released_log, demo_admitted_log. do 3 (apply elem_of_cons; right). by apply list_elem_of_singleton.
  - intros (r & E & _). vm_compute in E. discriminate E.
  - eapply rtc_l; [exact demo_again_step|constructor].
  - vm_compute. reflexivity.
Defined.

Lemma demo_row_turn a : demo_row a = {| history_session_id := ulid_to_string (root_session_id demo_key);
  history_id := ulid_to_string a; history_kind := lit "user_turn" |}.
Proof. reflexivity. Qed.
Lemma demo_denied_older r : family demo_denied demo_key = Some r -> record_authority r <> 8%N.
Proof.
  assert (family demo_denied demo_key = Some (demo_record Denied (Some GuardianDenied) 20)) as -> by (vm_compute; reflexivity).
  by intros [= <-].
Qed.
Lemma demo_denied_poisoned : poisoned (store demo_denied) = false.
Proof. vm_compute. reflexivity. Qed.

Lemma new_authority_reopens_witness :
  let '(s', r) := begin_review_at None demo_key 8 demo_sha 60 102
                    (set_connection (append_history (demo_row 8) (connection (store demo_denied))) (store demo_denied)) in
  r = Ok (Claimed (claim_of (new_record demo_key 8 demo_sha 60 102))) /\
  fence (connection s') demo_key = Some (new_record demo_key 8 demo_sha 60 102).
Proof.
  exact (new_authority_reopens demo_denied demo_key 8 (demo_row 8) demo_sha 60 102 demo_denied_reachable
           demo_denied_poisoned (proj1 demo_wf) (proj2 demo_wf) ltac:(done) (demo_row_turn 8) demo_denied_older).
Defined.
