(* ===== verification/PermissionFlow.v ===== *)
(** * Permission of a tool effect (src/src/tool/context.rs, src/src/agent/mod.rs,
    src/src/tool/permission_guardian.rs)

    From the request of a tool to the moment its effect starts: the access mode and the workspace
    boundary, the automatic reviewer ([AgentPermissionGuardian]) and its claim on the retry fence,
    the hand-over to the human prompt, the ticket ([ToolEffectAdmission]) and its admission.  The
    asynchronous flow is cut at the points where it waits: [begin_guardian_review], the answer of
    the model (an argument of [settle_review]), [confirm_after_review], the answer of the prompt
    (an argument of [confirm_after_prompt]) and [admit_effect] may be separated by steps of others.  The
    run owner is the one of [RunOwners], reached through its interface [ControlWorld]. *)
From S2P Require Import Prelude.
From S2P Require Import Text.
From S2P Require Import TurnOutcome.
From S2P Require Import RunControl.
From S2P Require Import RunOwners.
From S2P Require Import RunOwnersFacts.
From S2P Require Import PermissionFence.
From S2P Require Import PermissionFenceFacts.
From S2P Require Import PermissionFenceSystem.
From S2P Require Import PermissionFenceTheorems.

(** ** Requests and the workspace boundary *)

Inductive AccessKind := List | Search | Read | Edit | Shell.
Inductive AccessMode := DefaultMode | AutoReview | FullAccess.
#[export] Instance AccessKind_eq_dec : EqDecision AccessKind.
Proof. solve_decision. Defined.
#[export] Instance AccessMode_eq_dec : EqDecision AccessMode.
Proof. solve_decision. Defined.

Inductive PermissionRisk :=
  | DestructiveDelete | MoveOrRename | Network | ExternalConnection | ConfiguredLocalService
  | ProtectedWorkspaceAuthority | ExternalMutation | ExternalDestructiveOperation | UnclassifiedShell.

(** The fields of [PermissionRequest] that decide; the others are shown to the reviewer. *)
Record PermissionRequest := { access : AccessKind; outside_workspace : bool; risks : list PermissionRisk }.

(** [WorkspaceWrite] carries a sandbox profile, an identity here. *)
Inductive ProcessSandboxPlan := NoProcess | WorkspaceWrite (profile : N) | Unrestricted.

Definition workspace_boundary_allows (request : PermissionRequest) : bool :=
  if outside_workspace request || negb (is_empty (risks request)) then false
  else match access request with List | Search | Read | Edit | Shell => true end.

Definition access_mode_allows_permission (access_mode : AccessMode) (request : PermissionRequest) : bool :=
  match access_mode with
  | FullAccess => true
  | DefaultMode | AutoReview => workspace_boundary_allows request
  end.

Definition approved_process_sandbox_plan (access : AccessKind) : ProcessSandboxPlan :=
  match access with Shell => Unrestricted | _ => NoProcess end.

(** ** The automatic reviewer *)

Inductive PermissionRiskLevel := Low | Medium | High | Critical | Unknown.
Inductive PermissionGuardianDecision := Allow | AskUser | Deny.

Record PermissionGuardianAssessment := { risk_level : PermissionRiskLevel; rationale : text }.

(** [PermissionGuardianAssessment::decision] *)
Definition decision (a : PermissionGuardianAssessment) : PermissionGuardianDecision :=
  match risk_level a with
  | Low | Medium => Allow
  | High | Unknown => AskUser
  | Critical => Deny
  end.

Inductive PermissionGuardianError :=
  | GuardianRequest (reason : text)
  | GuardianCancelled
  | GuardianInvalidDecision (reason : text)
  | TotalDeadline (milliseconds : N)
  | RetryFenced (reason : text)
  | UnfencedAdmission (reason : text).

(** [Display for PermissionGuardianError] and [Display for StorageError] *)
Definition guardian_error_text (e : PermissionGuardianError) : text :=
  match e with
  | GuardianRequest r => lit "guardian request failed: " ++ r
  | GuardianCancelled => lit "permission review was cancelled"
  | GuardianInvalidDecision r => lit "guardian returned an invalid risk assessment: " ++ r
  | TotalDeadline ms => lit "permission review exceeded its total deadline of " ++ show_N ms ++ lit " milliseconds"
  | RetryFenced r => lit "permission retry fence blocked the equivalent elevated effect: " ++ r
  | UnfencedAdmission r => lit "automatic permission admission failed before a durable retry fence could be established: " ++ r
  end.
Definition storage_error_text (e : StorageError) : text :=
  match e with Sqlite m => lit "storage sqlite error: " ++ m | Message m => m end.

Definition permission_retry_fence_outcome (r : result PermissionGuardianAssessment PermissionGuardianError)
    : option PermissionRetryFenceOutcome :=
  match r with
  | Ok assessment => match decision assessment with Allow => None | Deny | AskUser => Some GuardianDenied end
  | Err (GuardianInvalidDecision _) => Some InvalidDecision
  | Err (TotalDeadline _) => Some DeadlineExceeded
  | Err (GuardianRequest _) => Some GuardianError
  | Err (GuardianCancelled | RetryFenced _ | UnfencedAdmission _) => None
  end.

Definition require_owned_permission_fence_transition (transition : result PermissionReviewTransition StorageError)
    (operation : text) : result unit PermissionGuardianError :=
  match transition with
  | Ok TransitionApplied => Ok tt
  | Ok TransitionNotOwned =>
      Err (UnfencedAdmission (lit "permission retry fence lost durable ownership while " ++ operation))
  | Err error =>
      Err (UnfencedAdmission (lit "could not prove durable permission retry-fence ownership while " ++ operation ++
                              lit ": " ++ storage_error_text error))
  end.

(** The leases [AgentPermissionGuardian] holds. *)
Record AgentPermissionGuardian :=
  { pending_retry_lease : option PermissionReviewClaim; review_retry_lease : option PermissionReviewClaim }.

(** What the clock and SQLite do during one segment: the time, the failure of the statement, and
    whether the lock is busy and which statements fail when a lease is dropped. *)
Record Env := { env_now : Z; env_io : option text; env_busy : bool; env_drop_io : option text * option text * option text * option text }.

Section Guardian.
Context `{Ulid}.

Definition drop_lease (e : Env) (lease : PermissionReviewClaim) (s : SqlitePermissionRetryFenceStore)
    : SqlitePermissionRetryFenceStore :=
  let '(io1, io2, io3, io4) := env_drop_io e in lease_drop (env_busy e) io1 io2 io3 io4 lease s.

(** Assignment to a field drops the lease it held. *)
Definition drop_held (e : Env) (held : option PermissionReviewClaim) (s : SqlitePermissionRetryFenceStore)
    : SqlitePermissionRetryFenceStore :=
  match held with Some lease => drop_lease e lease s | None => s end.

(** [review_inner] up to the claim; [show_blocked] and [show_changed] render the refusals. *)
Definition begin_guardian_review (show_blocked : PermissionRetryFenceRecord -> text) (show_changed : option N -> text)
    (e : Env) (root : SessionId) (generation : N) (family_version : N) (family_sha256 identity_sha256 : text) (review : N)
    (g : AgentPermissionGuardian) (s : SqlitePermissionRetryFenceStore)
    : SqlitePermissionRetryFenceStore * AgentPermissionGuardian * result unit PermissionGuardianError :=
  match key_new root family_version family_sha256 with
  | Err error => (s, g, Err (GuardianRequest (storage_error_text error)))
  | Ok fence_key =>
    match begin_review_at (env_io e) fence_key generation identity_sha256 (env_now e) review s with
    | (s, Err error) => (s, g, Err (GuardianRequest (storage_error_text error)))
    | (s, Ok (Claimed lease)) =>
        (drop_held e (pending_retry_lease g) s,
         {| pending_retry_lease := Some lease; review_retry_lease := review_retry_lease g |}, Ok tt)
    | (s, Ok (Blocked record)) => (s, g, Err (RetryFenced (show_blocked record)))
    | (s, Ok (BeginAuthorityChanged current)) => (s, g, Err (GuardianRequest (show_changed current)))
    end
  end.

(** [AgentPermissionGuardian::review] once [review_inner] has ended with [r]; [None] is a panic. *)
Definition settle_review (e : Env) (r : result PermissionGuardianAssessment PermissionGuardianError)
    (g : AgentPermissionGuardian) (s : SqlitePermissionRetryFenceStore)
    : option (SqlitePermissionRetryFenceStore * AgentPermissionGuardian * result PermissionGuardianAssessment PermissionGuardianError) :=
  match pending_retry_lease g with
  | None =>
    Some (s, g,
      match r with
      | Err (GuardianCancelled | RetryFenced _) => r
      | Err (UnfencedAdmission _) => r
      | Err error => Err (UnfencedAdmission (guardian_error_text error))
      | Ok _ => Err (UnfencedAdmission (lit "Guardian returned a decision without a durable retry-fence claim"))
      end)
  | Some lease =>
    let taken := {| pending_retry_lease := None; review_retry_lease := review_retry_lease g |} in
    let keep s := (drop_held e (review_retry_lease g) s,
                   {| pending_retry_lease := None; review_retry_lease := Some lease |}, r) in
    let settle (p : SqlitePermissionRetryFenceStore * result PermissionReviewTransition StorageError) operation :=
      let '(s, t) := p in
      match require_owned_permission_fence_transition t (lit operation) with
      | Ok _ => (drop_lease e lease s, taken, r)
      | Err error => (drop_lease e lease s, taken, Err error)
      end in
    let fence_outcome := permission_retry_fence_outcome r in
    match r with
    | Ok assessment =>
      match decision assessment with
      | Allow =>
        let '(s, t) := mark_allowed_pending (env_io e) lease (env_now e) s in
        match require_owned_permission_fence_transition t (lit "recording Guardian Allow") with
        | Ok _ => Some (keep s)
        | Err error => Some (drop_lease e lease s, taken, Err error)
        end
      | AskUser => Some (keep s)
      | Deny =>
        match fence_outcome with
        | Some out => Some (settle (mark_denied (env_io e) lease out (env_now e) s) "recording Guardian non-allow")
        | None => None
        end
      end
    | Err (GuardianInvalidDecision _ | TotalDeadline _ | GuardianRequest _) => Some (keep s)
    | Err _ =>
      match fence_outcome with
      | Some out => Some (settle (mark_denied (env_io e) lease out (env_now e) s) "recording Guardian non-allow")
      | None => Some (settle (release (env_io e) lease s) "releasing cancelled or failed Guardian review")
      end
    end
  end.

(** [take_retry_lease] *)
Definition take_retry_lease (g : AgentPermissionGuardian) : AgentPermissionGuardian * option PermissionReviewClaim :=
  ({| pending_retry_lease := pending_retry_lease g; review_retry_lease := None |}, review_retry_lease g).
End Guardian.

(** ** Tickets *)

(** [ToolEffectAdmission] *)
Record ToolEffectAdmission := {
  control : ControlId;
  sandbox_plan : ProcessSandboxPlan;
  permission_retry_lease : option PermissionReviewClaim;
  external_approval_id : option text
}.

(** The messages of this file that end a run or a tool call. *)
Inductive PermissionMessage :=
  | IncompleteEvidence (reason : text)
  | GuardianUnavailable
  | AllowedWithoutLease
  | HandoffWithoutLease
  | Unfenced (reason : text)
  | CriticalRisk (rationale : text)
  | UnresolvedFence
  | PromptFailed (error : text)
  | HumanDeclined (reason : text)
  | DeclinedAfterReview (reason : text)
  | UnprovenReviewTransition (transition : result PermissionReviewTransition StorageError)
  | UnprovenEffectAdmission (error : StorageError)
  | EffectAuthorityChanged (current : option N)
  | EffectOwnershipLost
  | UnconfirmedSettlement (transition : result PermissionReviewTransition StorageError)
  | AuthorityRefused (message : text).

(** The variants of [ToolError] these functions return. *)
Inductive ToolError :=
  | ToolMessage (message : PermissionMessage)
  | ToolStorage (error : StorageError)
  | SandboxProfile (error : text)
  | RunInterrupted
  | PermissionAborted
  | PermissionDenied (reason : PermissionMessage) (settlement : RunOwners.Reservation).

Inductive ConfirmationOutcome :=
  | ResolvedApproved
  | ResolvedDenied (reason : text)
  | AbortRequested
  | PromptAborted
  | PromptInterrupted.

(** The state of a run owner's world and of the fence store. *)
Section Flow.
Context `{Ulid} {W : Type} `{ControlWorld W}.
(** The text of a message. *)
Variable render : PermissionMessage -> text.

Record FlowState := { world : W; fence_store : SqlitePermissionRetryFenceStore }.
Definition set_world (w : W) (st : FlowState) : FlowState := {| world := w; fence_store := fence_store st |}.
Definition set_store (s : SqlitePermissionRetryFenceStore) (st : FlowState) : FlowState := {| world := world st; fence_store := s |}.

Definition fail_run (c : ControlId) (m : PermissionMessage) (st : FlowState) : FlowState :=
  set_world (fst (fail c (render m) (world st))) st.

Definition drop_in (e : Env) (lease : option PermissionReviewClaim) (st : FlowState) : FlowState :=
  set_store (drop_held e lease (fence_store st)) st.

(** A call of the fence store inside the flow. *)
Definition on_store {A} (m : SqlitePermissionRetryFenceStore -> SqlitePermissionRetryFenceStore * A) (st : FlowState) : FlowState * A :=
  let '(s, a) := m (fence_store st) in (set_store s st, a).

(** [ToolEffectAdmission::new] and [with_permission_retry_lease], as [accept_tool_effect] uses them. *)
Definition accept_tool_effect (c : ControlId) (plan : ProcessSandboxPlan) (lease : option PermissionReviewClaim) (st : FlowState)
    : FlowState * result ToolEffectAdmission ToolError :=
  let '(w, approval) := in_world (on_control c take_approval_identity) (world st) in
  (set_world w st,
   Ok {| control := c; sandbox_plan := plan; permission_retry_lease := lease; external_approval_id := approval |}).

Definition decline_permission (c : ControlId) (reason : PermissionMessage) (st : FlowState)
    : FlowState * result ToolEffectAdmission ToolError :=
  let '(w, settlement) := in_world (reserve c begin_tool_settlement) (world st) in
  (set_world w st,
   match settlement with Some r => Err (PermissionDenied reason r) | None => Err RunInterrupted end).

Definition stop_permission_work (c : ControlId) (reason : PermissionMessage) (st : FlowState)
    : FlowState * result ToolEffectAdmission ToolError :=
  let '(st, r) := decline_permission c reason st in (fail_run c reason st, r).

Definition fail_unfenced_auto_review (c : ControlId) (reason : PermissionMessage) (st : FlowState)
    : FlowState * result ToolEffectAdmission ToolError :=
  (fail_run c reason st, Err (ToolMessage reason)).

Definition require_owned_review_transition (c : ControlId) (transition : result PermissionReviewTransition StorageError)
    (st : FlowState) : FlowState * result unit ToolError :=
  match transition with
  | Ok TransitionApplied => (st, Ok tt)
  | other => (fail_run c (UnprovenReviewTransition other) st, Err (ToolMessage (UnprovenReviewTransition other)))
  end.

(** ** [confirm_if_needed_with_details_and_guardian_evidence] *)

Inductive Confirmation :=
  | Done (r : result ToolEffectAdmission ToolError)
  | AwaitReview
  | AwaitPrompt (human_review_lease : option (PermissionReviewClaim * PermissionRetryFenceOutcome)).

(** [shell_plan] is [ProcessSandboxPlan::for_access_mode_with_config] of the workspace. *)
Definition process_sandbox_plan_for_admission (access : AccessKind) (shell_plan : result ProcessSandboxPlan text)
    : result ProcessSandboxPlan ToolError :=
  match access with
  | Shell => match shell_plan with Ok plan => Ok plan | Err error => Err (SandboxProfile error) end
  | _ => Ok NoProcess
  end.

(** Up to the review or the prompt.  [mode] is what [current_permission_access_mode] read;
    [evidence] and [guardian] tell whether the evidence is complete and a reviewer exists. *)
Definition confirm_start (c : ControlId) (mode : result AccessMode StorageError) (request : PermissionRequest)
    (shell_plan : AccessMode -> result ProcessSandboxPlan text) (evidence : result unit text) (guardian : bool)
    (st : FlowState) : FlowState * Confirmation :=
  match mode with
  | Err error => (st, Done (Err (ToolStorage error)))
  | Ok access_mode =>
  if access_mode_allows_permission access_mode request then
    match process_sandbox_plan_for_admission (access request) (shell_plan access_mode) with
    | Err error => (st, Done (Err error))
    | Ok plan => let '(st, r) := accept_tool_effect c plan None st in (st, Done r)
    end
  else if bool_decide (access_mode = AutoReview) then
    match evidence with
    | Err reason => let '(st, r) := fail_unfenced_auto_review c (IncompleteEvidence reason) st in (st, Done r)
    | Ok _ =>
      if guardian then (st, AwaitReview)
      else let '(st, r) := fail_unfenced_auto_review c GuardianUnavailable st in (st, Done r)
    end
  else (st, AwaitPrompt None)
  end.

(** The hand-over to the human prompt. *)
Definition hand_over (c : ControlId) (out : PermissionRetryFenceOutcome) (g : AgentPermissionGuardian) (st : FlowState)
    : FlowState * AgentPermissionGuardian * Confirmation :=
  match take_retry_lease g with
  | (g, None) => let '(st, r) := fail_unfenced_auto_review c HandoffWithoutLease st in (st, g, Done r)
  | (g, Some lease) => (st, g, AwaitPrompt (Some (lease, out)))
  end.

(** After [guardian.review] returned [decision]. *)
Definition confirm_after_review (e : Env) (c : ControlId) (request : PermissionRequest)
    (review : result PermissionGuardianAssessment PermissionGuardianError) (g : AgentPermissionGuardian) (st : FlowState)
    : FlowState * AgentPermissionGuardian * Confirmation :=
  if is_cancelled (read c (controls (world st))) then
    match take_retry_lease g with
    | (g, Some lease) =>
      let '(st, t) := on_store (release (env_io e) lease) st in
      let '(st, r) := require_owned_review_transition c t st in
      (drop_in e (Some lease) st, g, Done (let? _ := r in Err RunInterrupted))
    | (g, None) => (st, g, Done (Err RunInterrupted))
    end
  else
    match review with
    | Ok assessment =>
      match decision assessment with
      | Allow =>
        match take_retry_lease g with
        | (g, None) => let '(st, r) := fail_unfenced_auto_review c AllowedWithoutLease st in (st, g, Done r)
        | (g, Some lease) =>
          let '(st, r) := accept_tool_effect c (approved_process_sandbox_plan (access request)) (Some lease) st in (st, g, Done r)
        end
      | AskUser => hand_over c GuardianDenied g st
      | Deny => let '(st, r) := stop_permission_work c (CriticalRisk (rationale assessment)) st in (st, g, Done r)
      end
    | Err (UnfencedAdmission reason) => let '(st, r) := fail_unfenced_auto_review c (Unfenced reason) st in (st, g, Done r)
    | Err (RetryFenced _) => let '(st, r) := stop_permission_work c UnresolvedFence st in (st, g, Done r)
    | Err GuardianCancelled => (set_world (fst (interrupt c AgentInterrupted (world st))) st, g, Done (Err RunInterrupted))
    | Err (GuardianRequest _) => hand_over c GuardianError g st
    | Err (GuardianInvalidDecision _) => hand_over c InvalidDecision g st
    | Err (TotalDeadline _) => hand_over c DeadlineExceeded g st
    end.

(** A transition of the lease under human review, if there is one, which must be applied. *)
Definition settle_human_review (e : Env) (c : ControlId)
    (m : PermissionReviewClaim -> PermissionRetryFenceOutcome -> SqlitePermissionRetryFenceStore ->
         SqlitePermissionRetryFenceStore * result PermissionReviewTransition StorageError)
    (human : option (PermissionReviewClaim * PermissionRetryFenceOutcome)) (st : FlowState) : FlowState * result unit ToolError :=
  match human with
  | None => (st, Ok tt)
  | Some (lease, out) =>
    let '(st, t) := on_store (m lease out) st in
    require_owned_review_transition c t st
  end.

(** After the prompt ended with [outcome]; a lease that is not passed on is dropped. *)
Definition confirm_after_prompt (e : Env) (c : ControlId) (request : PermissionRequest)
    (human : option (PermissionReviewClaim * PermissionRetryFenceOutcome)) (outcome : result ConfirmationOutcome text)
    (st : FlowState) : FlowState * result ToolEffectAdmission ToolError :=
  let lease := fst <$> human in
  let release_human := settle_human_review e c (fun lease _ => release (env_io e) lease) human in
  match outcome with
  | Err error => (drop_in e lease (fail_run c (PromptFailed error) st), Err (ToolMessage (PromptFailed error)))
  | Ok ResolvedApproved =>
    match settle_human_review e c (fun lease _ => mark_allowed_pending (env_io e) lease (env_now e)) human st with
    | (st, Ok _) => accept_tool_effect c (approved_process_sandbox_plan (access request)) lease st
    | (st, Err error) => (drop_in e lease st, Err error)
    end
  | Ok (ResolvedDenied reason) =>
    match human with
    | Some _ =>
      match settle_human_review e c (fun lease out => mark_denied (env_io e) lease out (env_now e)) human st with
      | (st, Ok _) =>
        let '(st, r) := decline_permission c (DeclinedAfterReview reason) st in
        (drop_in e lease (set_world (fst (interrupt c ApprovalAborted (world st))) st), r)
      | (st, Err error) => (drop_in e lease st, Err error)
      end
    | None => decline_permission c (HumanDeclined reason) st
    end
  | Ok AbortRequested =>
    match release_human st with
    | (st, Ok _) =>
      let '(w, outcome) := request_cancel c (Interruption ApprovalAborted) (world st) in
      (drop_in e lease (set_world w st),
       match outcome with RunControl.Applied | Deferred _ => Err PermissionAborted | Rejected => Err RunInterrupted end)
    | (st, Err error) => (drop_in e lease st, Err error)
    end
  | Ok ((PromptAborted | PromptInterrupted) as o) =>
    match release_human st with
    | (st, Ok _) =>
      (drop_in e lease st, match o with PromptAborted => Err PermissionAborted | _ => Err RunInterrupted end)
    | (st, Err error) => (drop_in e lease st, Err error)
    end
  end.

(** ** Starting an effect *)

(** [authorize] is the installed external authority. *)
Definition admit_effect (authorize : AuthorityId -> option text -> result unit text) (e : Env) (ticket : ToolEffectAdmission)
    (st : FlowState) : FlowState * result unit ToolError :=
  let c := control ticket in
  match authorize_external_effect authorize (external_approval_id ticket) (read c (controls (world st))) with
  | Err message =>
    if is_cancelled (read c (controls (world st))) then (st, Err RunInterrupted)
    else (fail_run c (AuthorityRefused message) st, Err (ToolMessage (AuthorityRefused message)))
  | Ok _ =>
    let start st :=
      match in_world (reserve c begin_tool_effect_admission) (world st) with
      | (w, None) => (set_world w st, Err RunInterrupted)
      | (w, Some reservation) =>
        let '(w, r) := in_world (admit_tool_effect reservation) w in
        (set_world w st, match r with Ok _ => Ok tt | Err _ => Err RunInterrupted end)
      end in
    match permission_retry_lease ticket with
    | None => start st
    | Some lease =>
      match on_store (admit_if_authority_current (env_io e) lease (env_now e)) st with
      | (st, Err error) => (fail_run c (UnprovenEffectAdmission error) st, Err (ToolMessage (UnprovenEffectAdmission error)))
      | (st, Ok EffectAdmitted) => start st
      | (st, Ok (AuthorityChanged current)) =>
        match in_world (reserve c begin_tool_settlement) (world st) with
        | (w, None) => (set_world w st, Err RunInterrupted)
        | (w, Some settlement) => (set_world w st, Err (PermissionDenied (EffectAuthorityChanged current) settlement))
        end
      | (st, Ok EffectNotOwned) => (fail_run c EffectOwnershipLost st, Err (ToolMessage EffectOwnershipLost))
      end
    end
  end.

(** [finish_started_effect] consumes the ticket; [last] tells whether it held the last handle of
    its lease. *)
Definition finish_started_effect (e : Env) (last : bool) (ticket : ToolEffectAdmission) (st : FlowState)
    : FlowState * result unit ToolError :=
  match permission_retry_lease ticket with
  | None => (st, Ok tt)
  | Some lease =>
    let '(st, t) := on_store (release (env_io e) lease) st in
    let '(st, r) :=
      match t with
      | Ok TransitionApplied => (st, Ok tt)
      | other => (fail_run (control ticket) (UnconfirmedSettlement other) st, Err (ToolMessage (UnconfirmedSettlement other)))
      end in
    (drop_in e (if last then Some lease else None) st, r)
  end.
End Flow.

(** * What a permission flow guarantees

    A ticket comes from the access mode, from a reviewer's Allow whose claim is durably allowed, or
    from the user; an effect starts only while the run is open, its authority agrees and the claim
    of the ticket owns its family under the current user turn; what cannot be proved stops the
    run. *)

Section Facts.
Context {U : Ulid} {W : Type} `{CW : ControlWorld W, !ControlWorldLaws W}.
Variable render : PermissionMessage -> text.
Implicit Types (st : FlowState (W := W)) (g : AgentPermissionGuardian) (e : Env).

(** ** The reviewer *)

Lemma settle_review_total e r g s : is_Some (settle_review e r g s).
Proof.
  unfold settle_review. destruct (pending_retry_lease g); [|by eexists].
  destruct r as [a|[]]; cbn [permission_retry_fence_outcome]; try destruct (decision a); repeat case_match; by eexists.
Qed.

(** An Allow that survives the settlement was durably recorded for the lease handed on. *)
Lemma settled_allow e r g s s' g' a : settle_review e r g s = Some (s', g', Ok a) -> decision a = Allow ->
  exists lease, pending_retry_lease g = Some lease /\ r = Ok a /\ review_retry_lease g' = Some lease /\
    snd (mark_allowed_pending (env_io e) lease (env_now e) s) = Ok TransitionApplied.
Proof.
  unfold settle_review. destruct (pending_retry_lease g) as [lease|]; [|by intros [= _ _ ?]; repeat case_match].
  intros E Hd.
  assert (r = Ok a) as ->.
  { destruct r as [a0|[]]; cbn [permission_retry_fence_outcome] in E; [destruct (decision a0)|..]; repeat case_match; by simplify_eq. }
  rewrite Hd in E. destruct (mark_allowed_pending _ _ _ _) as [s1 [[]|]] eqn:Em; cbn in E; try (by injection E).
  injection E as <- <-. exists lease. split_and!; try done. by rewrite Em.
Qed.

(** ** Tickets *)

(** What stands behind a ticket for [request]. *)
Definition granted_by_mode (mode : result AccessMode StorageError) (request : PermissionRequest) (ticket : ToolEffectAdmission) : Prop :=
  exists access_mode, mode = Ok access_mode /\ access_mode_allows_permission access_mode request = true /\
    permission_retry_lease ticket = None.

Definition granted_by_reviewer (review : result PermissionGuardianAssessment PermissionGuardianError)
    (g : AgentPermissionGuardian) (ticket : ToolEffectAdmission) : Prop :=
  exists a lease, review = Ok a /\ (risk_level a = Low \/ risk_level a = Medium) /\
    review_retry_lease g = Some lease /\ permission_retry_lease ticket = Some lease.

Definition granted_by_user (e : Env) (human : option (PermissionReviewClaim * PermissionRetryFenceOutcome))
    (outcome : result ConfirmationOutcome text) (s : SqlitePermissionRetryFenceStore) (ticket : ToolEffectAdmission) : Prop :=
  outcome = Ok ResolvedApproved /\ permission_retry_lease ticket = fst <$> human /\
  forall lease, permission_retry_lease ticket = Some lease ->
    snd (mark_allowed_pending (env_io e) lease (env_now e) s) = Ok TransitionApplied.

Lemma accept_ticket c plan lease st st' ticket : accept_tool_effect c plan lease st = (st', Ok ticket) ->
  permission_retry_lease ticket = lease /\ control ticket = c.
Proof. unfold accept_tool_effect. destruct (in_world _ _) as [w a]. by intros [= <- <-]. Qed.

Lemma decline_no_ticket c m st st' ticket : decline_permission c m st <> (st', Ok ticket).
Proof. unfold decline_permission. destruct (in_world _ _) as [w [|]]; by intros [=]. Qed.

Lemma stop_no_ticket c m st st' ticket : stop_permission_work render c m st <> (st', Ok ticket).
Proof.
  unfold stop_permission_work. destruct (decline_permission c m st) as [s r] eqn:E. intros [= <- ->].
  by apply decline_no_ticket in E.
Qed.

Lemma hand_over_no_ticket c out g st st' g' ticket : hand_over render c out g st <> (st', g', Done (Ok ticket)).
Proof. unfold hand_over, take_retry_lease, fail_unfenced_auto_review. destruct (review_retry_lease g); by intros [=]. Qed.

Lemma reviewed_ticket e c request review g st st' g' ticket :
  confirm_after_review render e c request review g st = (st', g', Done (Ok ticket)) ->
  granted_by_reviewer review g ticket /\ control ticket = c.
Proof.
  unfold confirm_after_review, take_retry_lease, fail_unfenced_auto_review.
  destruct (is_cancelled _).
  { destruct (review_retry_lease g); [|by intros [=]].
    destruct (on_store _ _) as [s1 t], (require_owned_review_transition _ _ _ _) as [s2 [|]]; by intros [=]. }
  destruct review as [a|[]]; try (by intros [=]); try (by intros F%hand_over_no_ticket).
  - destruct (decision a) eqn:Ea; [|by intros F%hand_over_no_ticket|].
    + destruct (review_retry_lease g) as [lease|] eqn:Eg; [|by intros [=]].
      destruct (accept_tool_effect _ _ _ _) as [s1 r] eqn:E. intros [= <- <- ->].
      destruct (accept_ticket _ _ _ _ _ _ E) as [E1 E2]. split; [|done]. exists a, lease. split_and!; try done.
      unfold decision in Ea. destruct (risk_level a); auto; done.
    + destruct (stop_permission_work _ _ _ _) as [s1 r] eqn:E. intros [= <- <- ->]. by apply stop_no_ticket in E.
  - destruct (stop_permission_work _ _ _ _) as [s1 r] eqn:E. intros [= <- <- ->]. by apply stop_no_ticket in E.
Qed.

Lemma settled_human e c m human st st' : settle_human_review render e c m human st = (st', Ok tt) ->
  forall lease out, human = Some (lease, out) -> snd (m lease out (fence_store st)) = Ok TransitionApplied.
Proof.
  unfold settle_human_review, require_owned_review_transition, on_store. intros E lease out ->.
  destruct (m lease out (fence_store st)) as [s [[]|]]; by simplify_eq/=.
Qed.

Lemma prompted_ticket e c request human outcome st st' ticket :
  confirm_after_prompt render e c request human outcome st = (st', Ok ticket) ->
  granted_by_user e human outcome (fence_store st) ticket /\ control ticket = c.
Proof.
  unfold confirm_after_prompt. destruct outcome as [[|reason| | |]|error]; cbv zeta.
  - destruct (settle_human_review _ _ _ _ _ _) as [s1 [[]|]] eqn:E; [|by intros [=]]. intros Ha.
    destruct (accept_ticket _ _ _ _ _ _ Ha) as [E1 E2]. split; [|done]. split_and!; [done|done|].
    rewrite E1. destruct human as [[lease out]|]; [|done]. intros ? [= <-]. by apply (settled_human _ _ _ _ _ _ E lease out).
  - destruct human as [h|].
    + destruct (settle_human_review _ _ _ _ _ _) as [s1 [[]|]]; [|by intros [=]].
      destruct (decline_permission _ _ _) as [s2 r] eqn:E. intros [= <- ->]. by apply decline_no_ticket in E.
    + by intros F%decline_no_ticket.
  - destruct (settle_human_review _ _ _ _ _ _) as [s1 [[]|]]; [|by intros [=]].
    destruct (request_cancel _ _ _) as [w []]; by intros [=].
  - destruct (settle_human_review _ _ _ _ _ _) as [s1 [[]|]]; by intros [=].
  - destruct (settle_human_review _ _ _ _ _ _) as [s1 [[]|]]; by intros [=].
  - by intros [=].
Qed.

(** Every ticket for a tool effect has an approval behind it: the access mode admits the request
    within the workspace boundary (or everything), or the reviewer rated it low or medium and its
    lease was handed over, or the user approved and, if a review was pending, its claim was
    durably allowed.  No other outcome of a review or a prompt yields a ticket. *)
Theorem tickets_are_approved e c request g st st' ticket :
  (forall mode shell_plan evidence guardian,
     confirm_start render c mode request shell_plan evidence guardian st = (st', Done (Ok ticket)) ->
     granted_by_mode mode request ticket) /\
  (forall review g', confirm_after_review render e c request review g st = (st', g', Done (Ok ticket)) ->
     granted_by_reviewer review g ticket) /\
  (forall human outcome, confirm_after_prompt render e c request human outcome st = (st', Ok ticket) ->
     granted_by_user e human outcome (fence_store st) ticket).
Proof.
  split_and!.
  - intros mode shell_plan evidence guardian. unfold confirm_start, fail_unfenced_auto_review.
    destruct mode as [m|]; [|by intros [=]]. destruct (access_mode_allows_permission m request) eqn:Em.
    + destruct (process_sandbox_plan_for_admission _ _) as [plan|]; [|by intros [=]].
      destruct (accept_tool_effect _ _ _ _) as [s1 r] eqn:E. intros [= <- ->].
      destruct (accept_ticket _ _ _ _ _ _ E) as [E1 _]. by exists m.
    + case_bool_decide; [|by intros [=]]. destruct evidence; [|by intros [=]]. destruct guardian; by intros [=].
  - intros review g' E. by apply reviewed_ticket in E as [? _].
  - intros human outcome E. by apply prompted_ticket in E as [? _].
Qed.

(** The reviewer's ticket carries the very claim the review made, and that claim had been
    durably allowed when the review was settled. *)
Theorem reviewer_ticket_is_recorded e e' c request r g s s' g' review st st' g'' ticket :
  settle_review e r g s = Some (s', g', review) ->
  confirm_after_review render e' c request review g' st = (st', g'', Done (Ok ticket)) ->
  exists lease, pending_retry_lease g = Some lease /\ permission_retry_lease ticket = Some lease /\
    snd (mark_allowed_pending (env_io e) lease (env_now e) s) = Ok TransitionApplied.
Proof.
  intros Hs Hc. apply reviewed_ticket in Hc as [(a & lease & -> & Hr & Hg & Ht) _].
  destruct (settled_allow _ _ _ _ _ _ _ Hs) as (lease' & Hp & _ & Hg' & Hm).
  { unfold decision. by destruct Hr as [-> | ->]. }
  rewrite Hg in Hg'. injection Hg' as <-. eauto.
Qed.

(** ** Starting an effect *)

Lemma reserve_open c w : classification (read c (controls w)) = Open ->
  exists w1 w2, in_world (reserve c begin_tool_effect_admission) w = (w1, Some {| RunOwners.control := c; resolved := false |}) /\
    in_world (admit_tool_effect {| RunOwners.control := c; resolved := false |}) w1 = (w2, Ok tt) /\
    classification (read c (controls w2)) = Open.
Proof.
  intros E. unfold in_world, reserve, on_control, begin_tool_effect_admission, admit_tool_effect, tool_effect_admission_drop,
    mark_resolved, on_control. rewrite E; cbn. eexists _, _. split; [done|].
  rewrite controls_set, read_insert_eq; cbn. split; [done|]. by rewrite controls_set, read_insert_eq.
Qed.

Lemma reserve_closed c w : classification (read c (controls w)) <> Open ->
  snd (in_world (reserve c begin_tool_effect_admission) w) = None.
Proof.
  intros E. unfold in_world, reserve, on_control, begin_tool_effect_admission.
  by destruct (classification (read c (controls w))).
Qed.

(** What the external authority of a run says. *)
Definition authorized (authorize : AuthorityId -> option text -> result unit text) (approval : option text)
    (s : RunControlInner) : Prop :=
  is_cancelled s = false /\ forall a, effect_authority s = Some a -> authorize a approval = Ok tt.

Lemma authorize_ok authorize approval s :
  (exists u, authorize_external_effect authorize approval s = Ok u) <-> authorized authorize approval s.
Proof.
  unfold authorize_external_effect, authorized. destruct (is_cancelled s); [split; [by intros [? ?]|by intros [? _]]|].
  destruct (effect_authority s) as [a|]; [|split; [by intros _|by exists tt]].
  destruct (authorize a approval) as [[]|m] eqn:Ea; cbn.
  - split; [|by exists tt]. intros _. split; [done|]. by intros ? [= <-].
  - split; [by intros [? ?]|]. intros [_ F]. by rewrite (F a eq_refl) in Ea.
Qed.

Definition fence_admits (e : Env) (ticket : ToolEffectAdmission) (s : SqlitePermissionRetryFenceStore) : Prop :=
  forall lease, permission_retry_lease ticket = Some lease ->
    snd (admit_if_authority_current (env_io e) lease (env_now e) s) = Ok EffectAdmitted.

(** An effect starts exactly when its run is not cancelled and is open, the external authority
    agrees with the recorded approval, and the retry fence admits the lease of the ticket, if it
    has one; the run is open again afterwards. *)
Theorem effect_starts_iff authorize e ticket st :
  let run := read (control ticket) (controls (world st)) in
  let '(st', r) := admit_effect render authorize e ticket st in
  (r = Ok tt <-> authorized authorize (external_approval_id ticket) run /\ classification run = Open /\
                 fence_admits e ticket (fence_store st)) /\
  (r = Ok tt -> classification (read (control ticket) (controls (world st'))) = Open).
Proof.
  cbv zeta. destruct (admit_effect render authorize e ticket st) as [st' r] eqn:E. unfold admit_effect in E. unfold fence_admits.
  set (c := control ticket) in *.
  pose proof (authorize_ok authorize (external_approval_id ticket) (read c (controls (world st)))) as HA.
  destruct (authorize_external_effect _ _ _) as [u|m].
  2: { assert (~ authorized authorize (external_approval_id ticket) (read c (controls (world st)))) as N
         by (by intros [? ?]%HA).
       destruct (is_cancelled _); injection E as <- <-; split; try done; split; [done|tauto|done|tauto]. }
  assert (authorized authorize (external_approval_id ticket) (read c (controls (world st)))) as A by (apply HA; eauto).
  assert (forall s, match in_world (reserve c begin_tool_effect_admission) (world st) with
      | (w, None) => (set_world w (set_store s st), Err RunInterrupted)
      | (w, Some reservation) =>
        let '(w, r) := in_world (admit_tool_effect reservation) w in
        (set_world w (set_store s st), match r with Ok _ => Ok tt | Err _ => Err RunInterrupted end)
      end = (st', r) ->
      (r = Ok tt <-> classification (read c (controls (world st))) = Open) /\
      (r = Ok tt -> classification (read c (controls (world st'))) = Open)) as Start.
  { intros s. destruct (decide (classification (read c (controls (world st))) = Open)) as [O|O].
    - destruct (reserve_open _ _ O) as (w1 & w2 & -> & -> & O2). by intros [= <- <-].
    - pose proof (reserve_closed _ _ O) as R. destruct (in_world _ _) as [w o]. cbn in R. subst o.
      intros [= <- <-]. split; [by split|done]. }
  destruct (permission_retry_lease ticket) as [lease|].
  - unfold on_store in E. destruct (admit_if_authority_current _ _ _ _) as [s a] eqn:Ea.
    destruct a as [[|cur|]|err].
    + destruct (Start s E) as [S1 S2]. split; [|done]. rewrite S1. split; [|tauto]. intros O. split_and!; [done|done|].
      intros ? [= <-]. by rewrite Ea.
    + assert (r <> Ok tt) as N. { destruct (in_world _ _) as [w [|]]; by injection E as <- <-. }
      split; [|done]. split; [done|]. intros (_ & _ & F). specialize (F _ eq_refl). by rewrite Ea in F.
    + injection E as <- <-. split; [|done]. split; [done|]. intros (_ & _ & F). specialize (F _ eq_refl). by rewrite Ea in F.
    + injection E as <- <-. split; [|done]. split; [done|]. intros (_ & _ & F). specialize (F _ eq_refl). by rewrite Ea in F.
  - destruct (Start (fence_store st)) as [S1 S2]; [by destruct st|]. split; [|done]. rewrite S1. split; [|tauto]. intros O.
    by split_and!.
Qed.

Lemma admit_fence authorize e ticket lease st st' : permission_retry_lease ticket = Some lease ->
  admit_effect render authorize e ticket st = (st', Ok tt) ->
  admit_if_authority_current (env_io e) lease (env_now e) (fence_store st) = (fence_store st', Ok EffectAdmitted).
Proof.
  intros Hl E. unfold admit_effect in E. rewrite Hl in E. unfold on_store in E.
  destruct (authorize_external_effect _ _ _); [|by destruct (is_cancelled _)].
  destruct (admit_if_authority_current _ _ _ _) as [s [[|cur|]|err]].
  - destruct (in_world (reserve _ _) _) as [w [rsv|]]; [|done]. destruct (in_world _ w) as [w' [u|]]; [|done]. by injection E as <-.
  - by destruct (in_world _ _) as [w [|]].
  - done.
  - done.
Qed.

(** C37. When an effect with a lease starts, the claim of the lease owns its family, approved or
    already admitted, under the user turn that is current at that moment; the family is then
    recorded as admitted for this claim. *)
Theorem started_effect_is_fenced {UL : UlidLaws U} authorize e ticket lease st st' :
  permission_retry_lease ticket = Some lease -> database_ok (connection (fence_store st)) ->
  admit_effect render authorize e ticket st = (st', Ok tt) ->
  authority (root_session_id (claim_key lease)) (connection (fence_store st)) = Some (claim_authority lease) /\
  (exists r, fence (connection (fence_store st)) (claim_key lease) = Some r /\ claim_of r = lease /\ record_state r ∈ approved_states) /\
  exists r, fence (connection (fence_store st')) (claim_key lease) = Some r /\ claim_of r = lease /\ record_state r = StateAdmitted.
Proof.
  intros Hl Hd E. pose proof (admit_fence _ _ _ _ _ _ Hl E) as A. clear E.
  assert (perform (env_io e) (CallAdmit lease (env_now e)) (fence_store st) = (fence_store st', Ok (ReplyAdmission EffectAdmitted))) as P
    by (cbn [perform]; by rewrite A).
  destruct (perform_succeeds _ _ _ _ _ P) as (Hp & Hio & Ht). rewrite Hio in P.
  rewrite (perform_spec (CallAdmit lease (env_now e)) _ Hp Hd I Ht) in P. cbn [call_key spec] in P. unfold spec_admit in P.
  pose proof (family_record_ok _ (claim_key lease) (rows_ok _ Hd)) as Hok.
  destruct (decide (authority _ _ = _)) as [Ha|]; [|by cbn in P]. split; [done|].
  destruct (owned_in lease [AllowedPending] _) as [r|] eqn:O.
  - apply owned_in_Some in O as (Ef & Hc & Es%list_elem_of_singleton). destruct (Z.ltb_spec (env_now e) (record_updated_at_ms r)); [done|].
    cbn in P. injection P as <-. split; [exists r; split_and!; try done; rewrite Es; by apply elem_of_cons; left|].
    eexists. cbn [connection set_connection]. rewrite fence_put_ok, decide_True; [done|done|done|].
    rewrite Ef in Hok. apply set_state_ok; [done|by rewrite Es|done].
  - destruct (owned_in lease [StateAdmitted] _) as [r|] eqn:O'; cbn in P; [|done]. injection P as <-.
    apply owned_in_Some in O' as (Ef & Hc & Es%list_elem_of_singleton).
    split; [exists r; split_and!; try done; rewrite Es; apply elem_of_cons; right; by apply list_elem_of_singleton|].
    exists r. cbn [connection set_connection]. by rewrite put_same by apply Hd.
Qed.
End Facts.

(** ** What cannot be proved stops the run *)

Section Stopping.
Context {U : Ulid}.
Variable render : PermissionMessage -> text.
Implicit Types (st : FlowState (W := control_heap)).

Lemma request_cancel_local_closes cause s : classification (fst (request_cancel_local cause s)) <> Open.
Proof. unfold request_cancel_local. destruct (classification s) as [|[]|[]|[]|[]| |] eqn:E; cbn; try rewrite E; done. Qed.

(** The run [c] is closed. *)
Definition stopped (c : ControlId) (st : FlowState (W := control_heap)) : Prop := classification (read c (world st)) <> Open.

Lemma fail_run_stops c m st : stopped c (fail_run render c m st).
Proof.
  unfold stopped, fail_run, fail, cancel, request_cancel, route_terminal; cbn.
  destruct (terminal_router _); cbn; unfold in_world, on_control; cbn;
    destruct (request_cancel_local _ _) as [s o] eqn:E; cbn; rewrite read_insert_eq;
    pose proof (request_cancel_local_closes (Failure (render m)) (read c (world st))) as F; by rewrite E in F.
Qed.

Lemma require_owned_stops c t st st' m : require_owned_review_transition render c t st = (st', Err (ToolMessage m)) -> stopped c st'.
Proof. unfold require_owned_review_transition. destruct t as [[]|]; intros [= <- _]; apply fail_run_stops. Qed.

Lemma settle_human_stops e c mm human st st' m : settle_human_review render e c mm human st = (st', Err (ToolMessage m)) -> stopped c st'.
Proof.
  unfold settle_human_review. destruct human as [[lease out]|]; [|done]. destruct (on_store _ _) as [s1 t].
  apply require_owned_stops.
Qed.

Lemma require_owned_error c t st st' err : require_owned_review_transition render c t st = (st', Err err) -> exists m, err = ToolMessage m.
Proof. unfold require_owned_review_transition. destruct t as [[]|]; intros [= _ <-]; eauto. Qed.

Lemma settle_human_error e c mm human st st' err : settle_human_review render e c mm human st = (st', Err err) -> exists m, err = ToolMessage m.
Proof.
  unfold settle_human_review. destruct human as [[lease out]|]; [|done]. destruct (on_store _ _) as [s1 t]. apply require_owned_error.
Qed.

Lemma stopped_drop e lease c st : stopped c (drop_in e lease st) <-> stopped c st.
Proof. done. Qed.

Lemma decline_error c m st st' m' : decline_permission c m st <> (st', Err (ToolMessage m')).
Proof. unfold decline_permission. destruct (in_world _ _) as [w [|]]; by intros [=]. Qed.

Lemma stop_error c m st st' m' : stop_permission_work render c m st <> (st', Err (ToolMessage m')).
Proof.
  unfold stop_permission_work. destruct (decline_permission c m st) as [s1 r1] eqn:E. intros [= _ ->].
  by apply decline_error in E.
Qed.

Lemma accept_error c plan lease st st' m : accept_tool_effect c plan lease st <> (st', Err (ToolMessage m)).
Proof. unfold accept_tool_effect. destruct (in_world _ _) as [w a]. by intros [=]. Qed.

Lemma start_stops c mode request shell_plan evidence guardian st st' m :
  confirm_start render c mode request shell_plan evidence guardian st = (st', Done (Err (ToolMessage m))) -> stopped c st'.
Proof.
  unfold confirm_start, fail_unfenced_auto_review.
  destruct mode as [md|]; [|by intros [=]]. destruct (access_mode_allows_permission md request).
  + unfold process_sandbox_plan_for_admission. destruct (access request); try destruct (shell_plan md); try (by intros [=]);
      destruct (accept_tool_effect _ _ _ _) as [s1 r] eqn:E; intros [= <- ->]; by apply accept_error in E.
  + case_bool_decide; [|by intros [=]]. destruct evidence; [destruct guardian; [by intros [=]|]|]; intros [= <- _]; apply fail_run_stops.
Qed.

Lemma review_stops e c request review g st st' g' m :
  confirm_after_review render e c request review g st = (st', g', Done (Err (ToolMessage m))) -> stopped c st'.
Proof.
  unfold confirm_after_review, take_retry_lease, fail_unfenced_auto_review, hand_over, take_retry_lease.
  destruct (is_cancelled _).
  { destruct (review_retry_lease g); [|by intros [=]]. destruct (on_store _ _) as [s1 t].
    destruct (require_owned_review_transition _ _ _ _) as [s2 [[]|]] eqn:E; [by intros [=]|]. intros [= <- _ ->].
    by apply require_owned_stops in E. }
  destruct review as [a|[]]; try (by intros [=]).
  + destruct (decision a).
    * destruct (review_retry_lease g); [|intros [= <- _ _]; apply fail_run_stops].
      destruct (accept_tool_effect _ _ _ _) as [s1 r] eqn:E. intros [= <- _ ->]. by apply accept_error in E.
    * destruct (review_retry_lease g); [by intros [=]|]. intros [= <- _ _]; apply fail_run_stops.
    * destruct (stop_permission_work _ _ _ _) as [s1 r] eqn:E. intros [= <- _ ->]. by apply stop_error in E.
  + destruct (review_retry_lease g); [by intros [=]|]. intros [= <- _ _]; apply fail_run_stops.
  + destruct (review_retry_lease g); [by intros [=]|]. intros [= <- _ _]; apply fail_run_stops.
  + destruct (review_retry_lease g); [by intros [=]|]. intros [= <- _ _]; apply fail_run_stops.
  + destruct (stop_permission_work _ _ _ _) as [s1 r] eqn:E. intros [= <- _ ->]. by apply stop_error in E.
  + intros [= <- _ _]; apply fail_run_stops.
Qed.

Lemma prompt_stops e c request human outcome st st' m :
  confirm_after_prompt render e c request human outcome st = (st', Err (ToolMessage m)) -> stopped c st'.
Proof.
  unfold confirm_after_prompt; cbv zeta.
  destruct outcome as [[|reason| | |]|error]; [| |..|intros [= <- _]; apply stopped_drop, fail_run_stops].
  2: destruct human as [h|]; [|by intros F%decline_error].
  all: destruct (settle_human_review _ _ _ _ _ _) as [s1 [[]|err]] eqn:E;
    try (intros [= <- ->]; by apply settle_human_stops in E).
  - destruct (decline_permission _ _ _) as [s2 r] eqn:E2. intros [= <- ->]. by apply decline_error in E2.
  - destruct (request_cancel _ _ _) as [w []]; by intros [=].
Qed.

Lemma admit_stops authorize e ticket st st' m :
  admit_effect render authorize e ticket st = (st', Err (ToolMessage m)) -> stopped (control ticket) st'.
Proof.
  unfold admit_effect.
  destruct (authorize_external_effect _ _ _) as [u|msg].
  2: { destruct (is_cancelled _); [by intros [=]|]. intros [= <- _]; apply fail_run_stops. }
  assert (forall st0, match in_world (reserve (control ticket) begin_tool_effect_admission) (world st0) with
    | (w, None) => (set_world w st0, Err RunInterrupted)
    | (w, Some reservation) =>
      let '(w, r) := in_world (admit_tool_effect reservation) w in
      (set_world w st0, match r with Ok _ => Ok tt | Err _ => Err RunInterrupted end)
    end <> (st', Err (ToolMessage m))) as Start.
  { intros st0. destruct (in_world (reserve _ _) _) as [w [rsv|]]; [|by intros [=]].
    destruct (in_world _ w) as [w' [|]]; by intros [=]. }
  destruct (permission_retry_lease ticket) as [lease|]; [|by intros F%Start].
  destruct (on_store _ _) as [s1 [[|cur|]|err]]; [by intros F%Start| | |]; try (intros [= <- _]; apply fail_run_stops).
  destruct (in_world _ _) as [w [|]]; by intros [=].
Qed.

Lemma finish_stops e last ticket st st' m :
  finish_started_effect render e last ticket st = (st', Err (ToolMessage m)) -> stopped (control ticket) st'.
Proof.
  unfold finish_started_effect. destruct (permission_retry_lease ticket); [|by intros [=]].
  destruct (on_store _ _) as [s1 [[]|]]; intros [= <- _]; apply stopped_drop, fail_run_stops.
Qed.

(** Whenever a step of the flow ends with a message instead of a decision - a review without a
    claim, a transition or an admission whose ownership could not be proved, a prompt that broke,
    an authority that refused, a settlement that was not confirmed - the run is stopped. *)
Theorem unproven_permission_stops_the_run e c request g st st' m :
  (forall mode shell_plan evidence guardian,
     confirm_start render c mode request shell_plan evidence guardian st = (st', Done (Err (ToolMessage m))) -> stopped c st') /\
  (forall review g', confirm_after_review render e c request review g st = (st', g', Done (Err (ToolMessage m))) -> stopped c st') /\
  (forall human outcome, confirm_after_prompt render e c request human outcome st = (st', Err (ToolMessage m)) -> stopped c st') /\
  (forall authorize ticket, control ticket = c -> admit_effect render authorize e ticket st = (st', Err (ToolMessage m)) -> stopped c st') /\
  (forall last ticket, control ticket = c -> finish_started_effect render e last ticket st = (st', Err (ToolMessage m)) -> stopped c st').
Proof.
  split_and!; intros; subst; eauto using start_stops, review_stops, prompt_stops, admit_stops, finish_stops.
Qed.
End Stopping.

(** ** A reviewed effect *)

#[local] Existing Instance demo_ulid.
#[local] Existing Instance demo_ulid_laws.

Definition demo_env (now_ms : Z) : Env :=
  {| env_now := now_ms; env_io := None; env_busy := false; env_drop_io := (None, None, None, None) |}.
Definition demo_guardian : AgentPermissionGuardian :=
  {| pending_retry_lease := Some (demo_claim 100); review_retry_lease := None |}.
Definition demo_assessment : PermissionGuardianAssessment := {| risk_level := Low; rationale := lit "reads a file" |}.
Definition demo_request : PermissionRequest := {| access := Shell; outside_workspace := true; risks := [] |}.
Definition demo_render (m : PermissionMessage) : text := lit "stopped".

(** The states after the settlement and after the confirmation. *)
Definition demo_settled := default (store demo_claimed, demo_guardian, Err GuardianCancelled)
  (settle_review (demo_env 20) (Ok demo_assessment) demo_guardian (store demo_claimed)).
Definition demo_flow : FlowState (W := control_heap) := {| world := ∅; fence_store := fst (fst demo_settled) |}.
Definition demo_confirmed :=
  confirm_after_review demo_render (demo_env 25) 0 demo_request (snd demo_settled) (snd (fst demo_settled)) demo_flow.
Definition demo_ticket : ToolEffectAdmission :=
  {| control := 0; sandbox_plan := Unrestricted; permission_retry_lease := Some (demo_claim 100); external_approval_id := None |}.
Definition demo_started := admit_effect demo_render (fun _ _ => Ok tt) (demo_env 30) demo_ticket (fst (fst demo_confirmed)).

(** One evaluation, by the kernel. *)
Ltac by_evaluation := match goal with |- ?a = ?b => exact (@eq_refl _ b <: a = b) end.

Lemma demo_settled_eq :
  settle_review (demo_env 20) (Ok demo_assessment) demo_guardian (store demo_claimed) =
  Some (fst (fst demo_settled), snd (fst demo_settled), Ok demo_assessment).
Proof. by_evaluation. Qed.
Lemma demo_confirmed_eq :
  confirm_after_review demo_render (demo_env 25) 0 demo_request (Ok demo_assessment) (snd (fst demo_settled)) demo_flow =
  (fst (fst demo_confirmed), snd (fst demo_confirmed), Done (Ok demo_ticket)).
Proof. by_evaluation. Qed.
Lemma demo_started_eq :
  admit_effect demo_render (fun _ _ => Ok tt) (demo_env 30) demo_ticket (fst (fst demo_confirmed)) = (fst demo_started, Ok tt).
Proof. by_evaluation. Qed.
Lemma demo_confirmed_store : fence_store (fst (fst demo_confirmed)) = store demo_allowed.
Proof. by_evaluation. Qed.

Lemma reviewer_ticket_is_recorded_witness :
  exists lease, pending_retry_lease demo_guardian = Some lease /\ permission_retry_lease demo_ticket = Some lease /\
    snd (mark_allowed_pending None lease 20 (store demo_claimed)) = Ok TransitionApplied.
Proof.
  exact (reviewer_ticket_is_recorded demo_render (demo_env 20) (demo_env 25) 0 demo_request _ _ _ _ _ _ _ _ _ _
           demo_settled_eq demo_confirmed_eq).
Defined.

Lemma started_effect_is_fenced_witness :
  authority 1 (connection (fence_store (fst (fst demo_confirmed)))) = Some 7%N.
Proof.
  apply (started_effect_is_fenced demo_render (fun _ _ => Ok tt) (demo_env 30) demo_ticket (demo_claim 100) _ (fst demo_started)).
  - reflexivity.
  - rewrite demo_confirmed_store. apply (system_database _ (fence_reachable_ok _ (fence_reachable_step _ _ demo_claimed_reachable demo_allowed_step))).
  - exact demo_started_eq.
Defined.
