(* ===== verification/FileLocks.v ===== *)
(** * File locks of edits (src/src/edit/safety.rs, [EditSafety::with_file_locks])

    Edits of the same file exclude each other through a registry of weak references to
    asynchronous mutexes, one per path.  A task looks its locks up under the registry's own lock,
    acquires them in the order of the paths, runs, and on the way out - finished or cancelled at
    any wait - drops its guards, its references and then cleans the registry.  Other tasks may
    run between any two of these steps.  [with_file_lock] is the case of one path.  The mutex is
    the runtime's: it is held by at most one task and granted when it is free. *)
From stdpp Require Import sorting fin_maps.
From Stdlib Require Import Sorted.
From S2P Require Import Prelude.

(** [Utf8PathBuf] has a total order; nothing else of it matters here. *)
Class PathOrder (P : Type) := {
  path_eq_dec : EqDecision P;
  path_countable : Countable P;
  path_le : relation P;
  path_le_dec : RelDecision path_le;
  path_le_total : TotalOrder path_le
}.
#[export] Existing Instances path_eq_dec path_countable path_le_dec path_le_total.

(** The order of numbers, for concrete paths. *)
Lemma N_le_total_order : TotalOrder N.le.
Proof.
  split.
  - split; [split; [intros ?; lia|intros ? ? ?; lia]|intros ? ? ? ?; lia].
  - intros a b. unfold strict. destruct (N.lt_trichotomy a b) as [|[|]]; [left|right; left|right; right]; lia.
Qed.

Abbreviation LockId := N (only parsing).
Abbreviation TaskId := N (only parsing).

(** ** Data *)

Section Locks.
Context {P : Type} `{PathOrder P}.

Inductive Phase := Acquiring | Running | Leaving.
#[export] Instance Phase_eq_dec : EqDecision Phase.
Proof. solve_decision. Defined.

(** The locals of one call: the ordered paths of its cleanup, the references to the locks - each
    with the path it was looked up for - and the guards acquired so far. *)
Record Task := {
  task_paths : list P;
  task_arcs : list (P * LockId);
  task_guards : list LockId;
  task_phase : Phase
}.

(** [registry] is [file_locks]; [holders] tells who holds a mutex. *)
Record FileLocks := {
  registry : gmap P LockId;
  holders : gmap LockId TaskId;
  tasks : gmap TaskId Task;
  next_lock : LockId
}.

Definition set_registry (r : gmap P LockId) (st : FileLocks) : FileLocks :=
  {| registry := r; holders := holders st; tasks := tasks st; next_lock := next_lock st |}.
Definition set_tasks (ts : gmap TaskId Task) (st : FileLocks) : FileLocks :=
  {| registry := registry st; holders := holders st; tasks := ts; next_lock := next_lock st |}.
Definition set_holders (h : gmap LockId TaskId) (st : FileLocks) : FileLocks :=
  {| registry := registry st; holders := h; tasks := tasks st; next_lock := next_lock st |}.

Definition with_guards (gs : list LockId) (ph : Phase) (t : Task) : Task :=
  {| task_paths := task_paths t; task_arcs := task_arcs t; task_guards := gs; task_phase := ph |}.
Definition with_arcs (arcs : list (P * LockId)) (t : Task) : Task :=
  {| task_paths := task_paths t; task_arcs := arcs; task_guards := task_guards t; task_phase := task_phase t |}.

(** ** Looking locks up *)

(** [Vec::dedup] removes consecutive repetitions. *)
Fixpoint dedup (l : list P) : list P :=
  match l with
  | a :: ((b :: _) as rest) => if decide (a = b) then dedup rest else a :: dedup rest
  | _ => l
  end.

(** [ordered_paths.sort(); ordered_paths.dedup()] *)
Definition ordered_paths (paths : list P) : list P := dedup (merge_sort path_le paths).

(** [Weak::strong_count], with the references [acc] of the call that is looking locks up. *)
Definition arcs_of (st : FileLocks) : list (P * LockId) := concat (task_arcs <$> (snd <$> map_to_list (tasks st))).
Definition strong_count (l : LockId) (acc : list (P * LockId)) (st : FileLocks) : nat :=
  length (filter (fun a => snd a = l) (arcs_of st ++ acc)).

(** [locks.get(path).and_then(Weak::upgrade)], or a new lock. *)
Definition lookup_lock (path : P) (acc : list (P * LockId)) (st : FileLocks) : FileLocks * LockId :=
  let fresh :=
    ({| registry := <[path := next_lock st]> (registry st); holders := holders st; tasks := tasks st;
        next_lock := next_lock st + 1 |}, next_lock st) in
  match registry st !! path with
  | Some l => if strong_count l acc st =? 0 then fresh else (st, l)
  | None => fresh
  end.

Fixpoint lookup_locks (paths : list P) (acc : list (P * LockId)) (st : FileLocks) : FileLocks * list (P * LockId) :=
  match paths with
  | [] => (st, acc)
  | path :: rest => let '(st, l) := lookup_lock path acc st in lookup_locks rest (acc ++ [(path, l)]) st
  end.

(** The critical section at the start of the call. *)
Definition begin (t : TaskId) (paths : list P) (st : FileLocks) : FileLocks :=
  let ordered := ordered_paths paths in
  let '(st, locks) := lookup_locks ordered [] st in
  set_tasks (<[t := {| task_paths := ordered; task_arcs := locks; task_guards := []; task_phase := Acquiring |}]> (tasks st)) st.

(** [Drop for FileLockRegistryCleanup] *)
Fixpoint cleanup (paths : list P) (st : FileLocks) : FileLocks :=
  match paths with
  | [] => st
  | path :: rest =>
    cleanup rest
      match registry st !! path with
      | Some l => if strong_count l [] st =? 0 then set_registry (delete path (registry st)) st else st
      | None => st
      end
  end.

(** ** Steps *)

(** [lock.lock().await] for the next lock, [None] while another task holds it. *)
Definition next_lock_of (task : Task) : option LockId := snd <$> task_arcs task !! length (task_guards task).
Definition acquire (t : TaskId) (st : FileLocks) : option FileLocks :=
  match tasks st !! t with
  | Some task =>
    match task_phase task, next_lock_of task with
    | Acquiring, Some l =>
      match holders st !! l with
      | None => Some (set_tasks (<[t := with_guards (task_guards task ++ [l]) Acquiring task]> (tasks st))
                        (set_holders (<[l := t]> (holders st)) st))
      | Some _ => None
      end
    | _, _ => None
    end
  | None => None
  end.

(** All guards are held: [op] starts. *)
Definition start_op (t : TaskId) (st : FileLocks) : option FileLocks :=
  match tasks st !! t with
  | Some task =>
    match task_phase task, next_lock_of task with
    | Acquiring, None => Some (set_tasks (<[t := with_guards (task_guards task) Running task]> (tasks st)) st)
    | _, _ => None
    end
  | None => None
  end.

(** [op] returns ([finish]); the future is dropped at a wait ([drop_future]). *)
Definition leave (from : Phase -> bool) (t : TaskId) (st : FileLocks) : option FileLocks :=
  match tasks st !! t with
  | Some task =>
    if from (task_phase task)
    then Some (set_tasks (<[t := with_guards (task_guards task) Leaving task]> (tasks st)) st)
    else None
  | None => None
  end.
Definition finish : TaskId -> FileLocks -> option FileLocks :=
  leave (fun ph => match ph with Running => true | _ => false end).
Definition drop_future : TaskId -> FileLocks -> option FileLocks :=
  leave (fun ph => match ph with Leaving => false | _ => true end).

(** The next destructor of a task on its way out: a guard, a reference, the cleanup. *)
Definition unwind (t : TaskId) (st : FileLocks) : option FileLocks :=
  match tasks st !! t with
  | Some task =>
    match task_phase task, task_guards task, task_arcs task with
    | Leaving, l :: guards, _ =>
        Some (set_tasks (<[t := with_guards guards Leaving task]> (tasks st)) (set_holders (delete l (holders st)) st))
    | Leaving, [], _ :: arcs => Some (set_tasks (<[t := with_arcs arcs task]> (tasks st)) st)
    | Leaving, [], [] => Some (cleanup (task_paths task) (set_tasks (delete t (tasks st)) st))
    | _, _, _ => None
    end
  | None => None
  end.

(** What a task does by itself. *)
Definition advance (t : TaskId) (st st' : FileLocks) : Prop :=
  acquire t st = Some st' \/ start_op t st = Some st' \/ finish t st = Some st' \/ unwind t st = Some st'.

Inductive step (st : FileLocks) : FileLocks -> Prop :=
  | step_begin t paths : tasks st !! t = None -> step st (begin t paths st)
  | step_advance t st' : advance t st st' -> step st st'
  | step_cancel t st' : drop_future t st = Some st' -> step st st'.

Definition initial : FileLocks := {| registry := ∅; holders := ∅; tasks := ∅; next_lock := 0 |}.

Definition reachable (st : FileLocks) : Prop := rtc step initial st.
End Locks.

(** * File locks exclude, do not deadlock and do not leak

    The invariant [locks_ok] of every reachable state, and what follows: two edits of one file
    never run together, some task can always go on, and the registry is empty when all calls have
    returned. *)

Section Facts.
Context {P : Type} `{PathOrder P}.
Implicit Types (st : FileLocks (P := P)) (task : Task (P := P)) (acc : list (P * LockId)).

(** ** Ordered paths *)

Definition path_lt (a b : P) : Prop := path_le a b /\ a <> b.

#[local] Instance path_le_partial : PartialOrder path_le.
Proof. apply path_le_total. Qed.
#[local] Instance path_le_trans : Transitive path_le.
Proof. apply path_le_partial. Qed.
#[local] Instance path_le_antisymm : AntiSymm (=) path_le.
Proof. apply path_le_partial. Qed.

Lemma path_lt_trans a b c : path_lt a b -> path_lt b c -> path_lt a c.
Proof.
  intros [H1 N1] [H2 N2]. split; [by transitivity b|]. intros ->. apply N1. by apply (anti_symm path_le).
Qed.

Lemma path_lt_irrefl a : ~ path_lt a a.
Proof. by intros [_ F]. Qed.

Lemma dedup_cons (a b : P) l : dedup (a :: b :: l) = if decide (a = b) then dedup (b :: l) else a :: dedup (b :: l).
Proof. done. Qed.

Lemma elem_of_dedup (l : list P) x : x ∈ dedup l <-> x ∈ l.
Proof.
  induction l as [|a [|b l] IH]; [done|done|]. rewrite dedup_cons. case_decide as E.
  - subst. rewrite IH, !elem_of_cons. tauto.
  - rewrite !elem_of_cons, IH, !elem_of_cons. done.
Qed.

Lemma dedup_sorted (l : list P) : StronglySorted path_le l -> StronglySorted path_lt (dedup l).
Proof.
  induction l as [|a [|b l] IH]; intros S; [constructor|by repeat constructor|].
  apply StronglySorted_inv in S as [S F]. specialize (IH S). rewrite dedup_cons. case_decide as E; [done|].
  constructor; [done|]. apply Forall_forall. intros x Hx. apply (proj1 (elem_of_dedup _ _)) in Hx.
  pose proof (proj1 (Forall_forall _ _) F x Hx) as Hax. split; [done|]. intros ->.
  apply StronglySorted_inv in S as [_ Fb]. apply elem_of_cons in Hx as [->|Hx]; [done|].
  pose proof (proj1 (Forall_forall _ _) Fb x Hx) as Hbx. apply E. apply (anti_symm path_le); [|done].
  apply (proj1 (Forall_forall _ _) F). by apply elem_of_cons; left.
Qed.

(** The order of acquisition: strictly increasing, with exactly the paths asked for. *)
Lemma ordered_paths_spec (paths : list P) :
  StronglySorted path_lt (ordered_paths paths) /\ forall x, x ∈ ordered_paths paths <-> x ∈ paths.
Proof.
  unfold ordered_paths. split.
  - apply dedup_sorted, StronglySorted_merge_sort; apply _.
  - intros x. rewrite elem_of_dedup. by rewrite merge_sort_Permutation.
Qed.

Lemma sorted_NoDup (l : list P) : StronglySorted path_lt l -> NoDup l.
Proof.
  induction 1 as [|a l _ IH F]; constructor; [|done]. intros Hin.
  by apply (path_lt_irrefl a), (proj1 (Forall_forall _ _) F).
Qed.

Lemma sorted_lookup (l : list P) i j a b : StronglySorted path_lt l -> i < j -> l !! i = Some a -> l !! j = Some b -> path_lt a b.
Proof.
  intros S. revert i j. induction S as [|x l _ IH F]; intros i j Hij Ha Hb; [done|].
  destruct j as [|j]; [lia|]. destruct i as [|i]; cbn in *.
  - injection Ha as <-. apply (proj1 (Forall_forall _ _) F). by eapply list_elem_of_lookup_2.
  - apply (IH i j); [lia|done|done].
Qed.

(** ** References *)

Lemma elem_of_arcs st a : a ∈ arcs_of st <-> exists t task, tasks st !! t = Some task /\ a ∈ task_arcs task.
Proof.
  unfold arcs_of. rewrite list_elem_of_In, in_concat. setoid_rewrite <- list_elem_of_In. split.
  - intros (l & Hl & Ha). apply list_elem_of_fmap in Hl as (task & -> & Ht). apply list_elem_of_fmap in Ht as ([t task'] & -> & Ht).
    apply elem_of_map_to_list in Ht. eauto.
  - intros (t & task & Ht & Ha). exists (task_arcs task). split; [|done]. apply list_elem_of_fmap. exists task. split; [done|].
    apply list_elem_of_fmap. exists (t, task). split; [done|]. by apply elem_of_map_to_list.
Qed.

Lemma strong_count_0 l acc st : strong_count l acc st = 0 <-> forall p, (p, l) ∉ arcs_of st ++ acc.
Proof.
  unfold strong_count. rewrite length_zero_iff_nil. split.
  - intros E p Hin. assert ((p, l) ∈ filter (fun a => snd a = l) (arcs_of st ++ acc)) as F by by apply list_elem_of_filter.
    rewrite E in F. by apply elem_of_nil in F.
  - intros F. destruct (filter _ _) as [|[p l'] rest] eqn:E; [done|].
    assert ((p, l') ∈ filter (fun a => snd a = l) (arcs_of st ++ acc)) as Hin by (rewrite E; by apply elem_of_cons; left).
    apply list_elem_of_filter in Hin as [<- Hin]. by apply F in Hin.
Qed.

(** What holds of the registry and the live references, [acc] being those of a call in progress. *)
Record registry_ok st acc : Prop := {
  live_registered p l : (p, l) ∈ arcs_of st ++ acc -> registry st !! p = Some l;
  one_path p1 p2 l : registry st !! p1 = Some l -> registry st !! p2 = Some l -> p1 = p2;
  registered_old p l : registry st !! p = Some l -> (l < next_lock st)%N
}.

Lemma arcs_of_tasks st st' : tasks st' = tasks st -> arcs_of st' = arcs_of st.
Proof. unfold arcs_of. by intros ->. Qed.

Lemma lookup_lock_ok path acc st st' l : registry_ok st acc -> lookup_lock path acc st = (st', l) ->
  registry_ok st' (acc ++ [(path, l)]) /\ tasks st' = tasks st /\ holders st' = holders st /\ (next_lock st <= next_lock st')%N /\
  (forall p, p <> path -> registry st' !! p = registry st !! p).
Proof.
  intros [Hl Ho Hf] E. unfold lookup_lock in E.
  assert (forall st0, st0 = {| registry := <[path := next_lock st]> (registry st); holders := holders st; tasks := tasks st;
                              next_lock := next_lock st + 1 |} ->
            (forall l0, registry st !! path = Some l0 -> strong_count l0 acc st = 0) ->
            registry_ok st0 (acc ++ [(path, next_lock st)]) /\ tasks st0 = tasks st /\ holders st0 = holders st /\
            (next_lock st <= next_lock st0)%N /\ forall p, p <> path -> registry st0 !! p = registry st !! p) as Fresh.
  { intros st0 -> Hdead. split_and!; cbn; try done; [|lia|intros p Hp; by rewrite lookup_insert_ne].
    split; cbn.
    - intros p l0 Hin. rewrite app_assoc in Hin. apply elem_of_app in Hin as [Hin|Hin].
      + pose proof (Hl _ _ Hin) as R. destruct (decide (p = path)) as [->|Hne]; [|by rewrite lookup_insert_ne].
        apply Hdead in R. by apply (proj1 (strong_count_0 _ _ _) R) in Hin.
      + apply list_elem_of_singleton in Hin. injection Hin as -> ->. by rewrite lookup_insert_eq.
    - intros p1 p2 l0. rewrite !lookup_insert. do 2 case_decide; subst; [done| | |by apply Ho].
      + intros [= <-] F%Hf. lia.
      + intros F%Hf [= <-]. lia.
    - intros p l0. rewrite lookup_insert. case_decide; [intros [= <-]; lia|]. intros F%Hf. lia. }
  destruct (registry st !! path) as [l0|] eqn:Er.
  - destruct (strong_count l0 acc st) eqn:Ec; cbn in E.
    + injection E as <- <-. apply Fresh; [done|]. by intros ? [= <-].
    + injection E as <- <-. split_and!; try done. split; [|done|done].
      intros p l1 Hin. rewrite app_assoc in Hin. apply elem_of_app in Hin as [Hin|Hin]; [by apply Hl|].
      apply list_elem_of_singleton in Hin. by injection Hin as -> ->.
  - injection E as <- <-. by apply Fresh.
Qed.

Lemma lookup_locks_ok paths acc st st' acc' : registry_ok st acc -> lookup_locks paths acc st = (st', acc') ->
  registry_ok st' acc' /\ tasks st' = tasks st /\ holders st' = holders st /\ (next_lock st <= next_lock st')%N /\
  acc'.*1 = acc.*1 ++ paths /\ (forall p, p ∉ paths -> registry st' !! p = registry st !! p).
Proof.
  revert acc st. induction paths as [|path paths IH]; intros acc st Hok E; cbn [lookup_locks] in E.
  - injection E as <- <-. rewrite app_nil_r. by split_and!.
  - destruct (lookup_lock path acc st) as [st1 l] eqn:E1.
    destruct (lookup_lock_ok _ _ _ _ _ Hok E1) as (H1 & Ht & Hh & Hn & Hr).
    destruct (IH _ _ H1 E) as (H2 & Ht2 & Hh2 & Hn2 & Ha & Hr2). split_and!; [done|congruence|congruence|lia| |].
    + by rewrite Ha, fmap_app, <- app_assoc.
    + intros p Hp. rewrite not_elem_of_cons in Hp. destruct Hp. rewrite Hr2, Hr; done.
Qed.

(** ** The invariant *)

Record task_ok task : Prop := {
  paths_sorted : StronglySorted path_lt (task_paths task);
  arcs_paths p l : (p, l) ∈ task_arcs task -> p ∈ task_paths task;
  guards_distinct : NoDup (task_guards task);
  task_shape : task_phase task = Leaving \/
    (task_arcs task).*1 = task_paths task /\ task_guards task = take (length (task_guards task)) (task_arcs task).*2 /\
    (task_phase task = Running -> length (task_guards task) = length (task_arcs task))
}.

Record locks_ok st : Prop := {
  ok_registry : registry_ok st [];
  ok_tasks t task : tasks st !! t = Some task -> task_ok task;
  ok_held l t : holders st !! l = Some t <-> exists task, tasks st !! t = Some task /\ l ∈ task_guards task;
  ok_cover p l : registry st !! p = Some l -> exists t task, tasks st !! t = Some task /\ p ∈ task_paths task;
  ok_old l t : holders st !! l = Some t -> (l < next_lock st)%N
}.

Lemma registry_ok_mono st st' acc : registry st' = registry st -> (next_lock st <= next_lock st')%N ->
  (forall a, a ∈ arcs_of st' -> a ∈ arcs_of st) -> registry_ok st acc -> registry_ok st' acc.
Proof.
  intros Hr Hn Ha [H1 H2 H3]. split; rewrite ?Hr; [|done|].
  - intros p l. rewrite elem_of_app. intros Hin. apply H1, elem_of_app. naive_solver.
  - intros p l E%H3. lia.
Qed.

(** A task that keeps some of its references changes. *)
Lemma arcs_of_update st t task task' : tasks st !! t = Some task -> (forall a, a ∈ task_arcs task' -> a ∈ task_arcs task) ->
  forall h a, a ∈ arcs_of (set_tasks (<[t := task']> (tasks st)) (set_holders h st)) -> a ∈ arcs_of st.
Proof.
  intros Ht Hsub h a. rewrite !elem_of_arcs. cbn. intros (u & task0 & Hu & Ha).
  rewrite lookup_insert in Hu. case_decide; [injection Hu as <-; subst; eauto|eauto].
Qed.

(** One task moves on within its call, keeping its paths. *)
Lemma update_task_ok st t task task' h : locks_ok st -> tasks st !! t = Some task -> task_paths task' = task_paths task ->
  (forall a, a ∈ task_arcs task' -> a ∈ task_arcs task) -> task_ok task' ->
  (forall l u, h !! l = Some u <-> if decide (u = t) then l ∈ task_guards task' else holders st !! l = Some u) ->
  (forall l, l ∈ task_guards task' -> (l < next_lock st)%N) ->
  locks_ok (set_tasks (<[t := task']> (tasks st)) (set_holders h st)).
Proof.
  intros [Hr Hts Hh Hc Hold] Ht Hp Ha Hok Hh' Hlt. split; cbn.
  - apply (registry_ok_mono st); try done. by apply (arcs_of_update st t task).
  - intros u task0. rewrite lookup_insert. case_decide; [by intros [= <-]|by apply Hts].
  - intros l u. rewrite Hh', lookup_insert. case_decide; subst.
    + rewrite decide_True by done. naive_solver.
    + rewrite decide_False by done. apply Hh.
  - intros p l Hreg. destruct (Hc _ _ Hreg) as (u & task0 & Hu & Hin). exists u. rewrite lookup_insert.
    case_decide; subst; [|by eauto]. exists task'. split; [done|]. rewrite Hp. by simplify_eq.
  - intros l u. rewrite Hh'. case_decide; [by intros ?%Hlt|by apply Hold].
Qed.

Lemma set_holders_same st : set_holders (holders st) st = st.
Proof. by destruct st. Qed.

Lemma holders_self st t task : locks_ok st -> tasks st !! t = Some task ->
  forall l u, holders st !! l = Some u <-> if decide (u = t) then l ∈ task_guards task else holders st !! l = Some u.
Proof. intros Hok Ht l u. case_decide; subst; [|done]. rewrite (ok_held _ Hok). naive_solver. Qed.

Lemma guards_old st t task l : locks_ok st -> tasks st !! t = Some task -> l ∈ task_guards task -> (l < next_lock st)%N.
Proof. intros Hok Ht Hl. apply (ok_old _ Hok l t), (ok_held _ Hok). eauto. Qed.

Lemma next_lock_lookup task l : next_lock_of task = Some l -> exists p, task_arcs task !! length (task_guards task) = Some (p, l).
Proof. unfold next_lock_of. destruct (_ !! _) as [[p l']|] eqn:E; cbn; [intros [= ->]; eauto|done]. Qed.

Lemma acquire_ok t st st' : locks_ok st -> acquire t st = Some st' -> locks_ok st'.
Proof.
  intros Hok E. unfold acquire in E. destruct (tasks st !! t) as [task|] eqn:Ht; [|done].
  destruct (task_phase task) eqn:Hph; try done. destruct (next_lock_of task) as [l|] eqn:Hn; [|done].
  destruct (holders st !! l) eqn:Hl; [done|]. injection E as <-.
  destruct (next_lock_lookup _ _ Hn) as [p Hp]. pose proof (ok_tasks _ Hok _ _ Ht) as [T1 T2 T3 T4].
  assert (l ∉ task_guards task) as Hnew.
  { intros F. assert (holders st !! l = Some t) as E by (apply (ok_held _ Hok); eauto). by rewrite Hl in E. }
  apply (update_task_ok st t task); cbn; try done.
  - split; cbn; [done|done| |right].
    + apply NoDup_app. split_and!; [done|by intros x ? ->%list_elem_of_singleton|apply NoDup_singleton].
    + destruct T4 as [F|(A1 & A2 & _)]; [congruence|]. split_and!; [done| |done].
      rewrite length_app, Nat.add_1_r. erewrite take_S_r; [by rewrite <- A2|]. by rewrite list_lookup_fmap, Hp.
  - intros l0 u. rewrite lookup_insert. case_decide as E1; case_decide as E2; subst.
    + rewrite elem_of_app, list_elem_of_singleton. tauto.
    + rewrite Hl. naive_solver.
    + rewrite elem_of_app, list_elem_of_singleton, (ok_held _ Hok). naive_solver.
    + done.
  - intros l0 [Hin|Hin]%elem_of_app; [by apply (guards_old st t task)|]. apply list_elem_of_singleton in Hin as ->.
    apply (registered_old _ _ (ok_registry _ Hok) p). apply (live_registered _ _ (ok_registry _ Hok)).
    rewrite app_nil_r. apply elem_of_arcs. exists t, task. split; [done|]. by eapply list_elem_of_lookup_2.
Qed.

Lemma phase_ok t st task ph : locks_ok st -> tasks st !! t = Some task ->
  (ph = Leaving \/ ph = Running /\ task_phase task = Acquiring /\ next_lock_of task = None) ->
  locks_ok (set_tasks (<[t := with_guards (task_guards task) ph task]> (tasks st)) st).
Proof.
  intros Hok Ht Hph. rewrite <- (set_holders_same st) at 2. pose proof (ok_tasks _ Hok _ _ Ht) as [T1 T2 T3 T4].
  apply (update_task_ok st t task); cbn; try done; [|by apply holders_self|by intros l; apply (guards_old st t task)].
  split; cbn; [done|done|done|]. destruct Hph as [->|(-> & Ha & Hn)]; [by left|]. right.
  destruct T4 as [F|(A1 & A2 & _)]; [congruence|]. split_and!; [done|done|]. intros _.
  unfold next_lock_of in Hn. apply fmap_None, lookup_ge_None in Hn.
  apply (f_equal length) in A2. rewrite length_take, length_fmap in A2. lia.
Qed.

Lemma start_op_ok t st st' : locks_ok st -> start_op t st = Some st' -> locks_ok st'.
Proof.
  intros Hok E. unfold start_op in E. destruct (tasks st !! t) as [task|] eqn:Ht; [|done].
  destruct (task_phase task) eqn:Hph; try done. destruct (next_lock_of task) eqn:Hn; [done|]. injection E as <-.
  apply phase_ok; [done|done|by right].
Qed.

Lemma leave_ok from t st st' : locks_ok st -> leave from t st = Some st' -> locks_ok st'.
Proof.
  intros Hok E. unfold leave in E. destruct (tasks st !! t) as [task|] eqn:Ht; [|done].
  destruct (from _); [|done]. injection E as <-. apply phase_ok; [done|done|by left].
Qed.

(** ** Cleanup *)

Lemma cleanup_ok paths st : registry_ok st [] ->
  registry_ok (cleanup paths st) [] /\ tasks (cleanup paths st) = tasks st /\ holders (cleanup paths st) = holders st /\
  next_lock (cleanup paths st) = next_lock st /\
  forall p l, registry (cleanup paths st) !! p = Some l -> registry st !! p = Some l /\ (p ∈ paths -> (p, l) ∈ arcs_of st).
Proof.
  revert st. induction paths as [|path paths IH]; intros st Hok; cbn [cleanup].
  { split_and!; try done. intros p l E. split; [done|]. by intros ?%elem_of_nil. }
  set (st1 := match registry st !! path with Some l => _ | None => st end).
  assert (registry_ok st1 [] /\ tasks st1 = tasks st /\ holders st1 = holders st /\ next_lock st1 = next_lock st /\
          forall p l, registry st1 !! p = Some l -> registry st !! p = Some l /\ (p = path -> (p, l) ∈ arcs_of st)) as (H1 & H2 & H3 & H4 & H5).
  { subst st1. destruct (registry st !! path) as [l0|] eqn:Er; [|by split_and!; try done; intros p l E; split; [done|intros ->; congruence]].
    destruct (strong_count l0 [] st) eqn:Ec; cbn.
    - destruct Hok as [L O F]. pose proof (proj1 (strong_count_0 _ _ _) Ec) as Hdead. split_and!; try done.
      + split; cbn.
        * intros p l Hin. pose proof (L _ _ Hin) as R. rewrite lookup_delete_ne; [done|]. intros <-. rewrite Er in R. injection R as <-.
          by apply (Hdead path).
        * intros p1 p2 l A%lookup_delete_Some B%lookup_delete_Some. naive_solver.
        * intros p l A%lookup_delete_Some. naive_solver.
      + intros p l A%lookup_delete_Some. naive_solver.
    - split_and!; try done. intros p l E. split; [done|]. intros ->. rewrite Er in E. injection E as <-.
      destruct (decide ((path, l0) ∈ arcs_of st)) as [|Hno]; [done|]. exfalso.
      assert (strong_count l0 [] st = 0) as Z; [|by rewrite Z in Ec].
      apply strong_count_0. intros p Hin. apply Hno. pose proof (live_registered _ _ Hok _ _ Hin) as R.
      rewrite (one_path _ _ Hok _ _ _ Er R). by rewrite app_nil_r in Hin. }
  destruct (IH st1 H1) as (I1 & I2 & I3 & I4 & I5). split_and!; [done|congruence|congruence|congruence|].
  intros p l E. destruct (I5 _ _ E) as [E1 A1]. destruct (H5 _ _ E1) as [E2 A2]. split; [done|].
  intros [->|Hin]%elem_of_cons; [by apply A2|]. rewrite (arcs_of_tasks st st1 H2) in A1. by apply A1.
Qed.

(** ** Every step keeps the invariant *)

Lemma unwind_ok t st st' : locks_ok st -> unwind t st = Some st' -> locks_ok st'.
Proof.
  intros Hok E. unfold unwind in E. destruct (tasks st !! t) as [task|] eqn:Ht; [|done].
  pose proof (ok_tasks _ Hok _ _ Ht) as [T1 T2 T3 T4].
  destruct (task_phase task) eqn:Hph; try done. destruct (task_guards task) as [|l guards] eqn:Hg.
  - destruct (task_arcs task) as [|a arcs] eqn:Ha; injection E as <-.
    + (* the cleanup *)
      set (st1 := set_tasks (delete t (tasks st)) st).
      assert (forall a, a ∈ arcs_of st1 <-> a ∈ arcs_of st) as Harcs.
      { intros a. rewrite !elem_of_arcs. cbn. split; intros (u & task0 & Hu & Hin).
        - apply lookup_delete_Some in Hu as [_ Hu]. eauto.
        - exists u, task0. split; [|done]. rewrite lookup_delete_ne; [done|]. intros ->. simplify_eq. rewrite Ha in Hin. by apply elem_of_nil in Hin. }
      assert (registry_ok st1 []) as Hr1 by (apply (registry_ok_mono st); [done|done|by intros a ?%Harcs|apply Hok]).
      destruct (cleanup_ok (task_paths task) st1 Hr1) as (C1 & C2 & C3 & C4 & C5). split; [done|..].
      * intros u task0 Hu. rewrite C2 in Hu. cbn in Hu. apply lookup_delete_Some in Hu as [_ Hu]. by apply (ok_tasks _ Hok u).
      * intros l u. rewrite C3, C2. cbn. rewrite (ok_held _ Hok). split; intros (task0 & Hu & Hin).
        -- exists task0. split; [|done]. rewrite lookup_delete_ne; [done|]. intros ->. simplify_eq. rewrite Hg in Hin. by apply elem_of_nil in Hin.
        -- apply lookup_delete_Some in Hu as [_ Hu]. eauto.
      * intros p l Hreg. destruct (C5 _ _ Hreg) as [R A]. rewrite C2. cbn.
        destruct (ok_cover _ Hok p l R) as (u & task0 & Hu & Hin). destruct (decide (u = t)) as [->|Hne].
        -- simplify_eq. apply A, Harcs, elem_of_arcs in Hin as (v & task1 & Hv & Hav). exists v, task1.
           split; [|by apply (arcs_paths _ (ok_tasks _ Hok _ _ Hv) p l)]. rewrite lookup_delete_ne; [done|].
           intros ->. simplify_eq. rewrite Ha in Hav. by apply elem_of_nil in Hav.
        -- exists u, task0. by rewrite lookup_delete_ne.
      * intros l u. rewrite C3, C4. apply Hok.
    + rewrite <- (set_holders_same st) at 2.
      apply (update_task_ok st t task); cbn; try done.
      * intros a' Hin. rewrite Ha. by apply elem_of_cons; right.
      * split; cbn; [done| |by rewrite Hg; constructor|by left]. intros p l Hin. apply (T2 p l). by apply elem_of_cons; right.
      * by apply holders_self.
      * intros l. by apply (guards_old st t task).
  - injection E as <-. apply (update_task_ok st t task); cbn; try done.
    + apply NoDup_cons in T3 as [T3 T3']. split; cbn; [done|done|done|by left].
    + intros l0 u. apply NoDup_cons in T3 as [T3 T3']. rewrite lookup_delete. case_decide as E1; case_decide as E2; subst.
      * split; [done|]. intros F. by destruct (T3 F).
      * split; [done|]. intros F. apply (ok_held _ Hok) in F as (task0 & Hu & Hin).
        assert (holders st !! l0 = Some t) as G by (apply (ok_held _ Hok); exists task; rewrite Hg; split; [done|by apply elem_of_cons; left]).
        assert (holders st !! l0 = Some u) as G' by (apply (ok_held _ Hok); eauto). rewrite G in G'. by injection G'.
      * rewrite (ok_held _ Hok). split.
        -- intros (task0 & Hu & Hin). simplify_eq. rewrite Hg in Hin. by apply elem_of_cons in Hin as [->|Hin].
        -- intros Hin. exists task. rewrite Hg. split; [done|by apply elem_of_cons; right].
      * done.
    + intros l0 Hin. apply (guards_old st t task); [done|done|]. rewrite Hg. by apply elem_of_cons; right.
Qed.

Lemma begin_ok t paths st : locks_ok st -> tasks st !! t = None -> locks_ok (begin t paths st).
Proof.
  intros Hok Ht. unfold begin. destruct (lookup_locks (ordered_paths paths) [] st) as [st1 arcs] eqn:E.
  destruct (lookup_locks_ok _ _ _ _ _ (ok_registry _ Hok) E) as (Hr & Hts & Hh & Hn & Ha & Hreg). cbn in Ha.
  destruct (ordered_paths_spec paths) as [Hs _].
  set (task := {| task_paths := ordered_paths paths; task_arcs := arcs; task_guards := []; task_phase := Acquiring |}).
  split; cbn.
  - destruct Hr as [L O F]. split; cbn; [|done|done]. intros p l. rewrite app_nil_r. intros Hin.
    apply elem_of_arcs in Hin as (u & task0 & Hu & Hin). cbn in Hu. apply L, elem_of_app.
    rewrite lookup_insert in Hu. case_decide; [injection Hu as <-; by right|]. left. apply elem_of_arcs. eauto.
  - intros u task0. rewrite lookup_insert. case_decide; [|rewrite Hts; apply Hok]. intros [= <-]. split; cbn; [done| |constructor|].
    + intros p l Hin. rewrite <- Ha. apply list_elem_of_fmap. by exists (p, l).
    + right. by rewrite Ha.
  - intros l u. rewrite Hh, lookup_insert, (ok_held _ Hok), Hts. case_decide; subst; [|done].
    split; intros (task0 & Hu & Hin); [by simplify_eq|]. injection Hu as <-. by apply elem_of_nil in Hin.
  - intros p l E1. destruct (decide (p ∈ ordered_paths paths)) as [Hp|Hp].
    + exists t, task. by rewrite lookup_insert_eq.
    + rewrite (Hreg _ Hp) in E1. destruct (ok_cover _ Hok _ _ E1) as (u & task0 & Hu & Hin). exists u, task0.
      rewrite lookup_insert_ne, Hts by (intros ->; simplify_eq). done.
  - intros l u. rewrite Hh. intros F%(ok_old _ Hok). lia.
Qed.

Lemma locks_step_ok st st' : step st st' -> locks_ok st -> locks_ok st'.
Proof.
  intros [t paths Ht|t st1 [E|[E|[E|E]]]|t st1 E] Hok.
  - by apply begin_ok.
  - by eapply acquire_ok.
  - by eapply start_op_ok.
  - by eapply leave_ok.
  - by eapply unwind_ok.
  - by eapply leave_ok.
Qed.

Lemma locks_initial_ok : locks_ok initial.
Proof.
  split; cbn; try done.
  - split; cbn; try done. intros p l. rewrite app_nil_r. by intros (t & task & F & _)%elem_of_arcs.
  - intros l t. split; [done|]. by intros (task & F & _).
Qed.

Lemma locks_steps_ok st st' : rtc step st st' -> locks_ok st -> locks_ok st'.
Proof. induction 1; eauto using locks_step_ok. Qed.

Lemma locks_reachable_ok st : reachable st -> locks_ok st.
Proof. intros Hr. by apply (locks_steps_ok _ _ Hr), locks_initial_ok. Qed.

(** ** What callers rely on *)

Definition running st (t : TaskId) (p : P) : Prop :=
  exists task, tasks st !! t = Some task /\ task_phase task = Running /\ p ∈ task_paths task.

(** A task that runs holds the registered lock of each of its paths. *)
Lemma running_holds st t p : locks_ok st -> running st t p -> exists l, registry st !! p = Some l /\ holders st !! l = Some t.
Proof.
  intros Hok (task & Ht & Hph & Hp). destruct (task_shape _ (ok_tasks _ Hok _ _ Ht)) as [F|(A1 & A2 & A3)]; [congruence|].
  rewrite <- A1 in Hp. apply list_elem_of_fmap in Hp as ([p' l] & -> & Hin). exists l. split.
  - apply (live_registered _ _ (ok_registry _ Hok)). rewrite app_nil_r. apply elem_of_arcs. eauto.
  - apply (ok_held _ Hok). exists task. split; [done|]. rewrite A2, (A3 Hph), take_ge by (by rewrite length_fmap).
    apply list_elem_of_fmap. by exists (p', l).
Qed.

(** C39. Two edits that share a path never run at the same time, whatever calls begin, finish, are
    cancelled, drop their references or clean the registry in between. *)
Theorem file_locks_exclude st t1 t2 p : reachable st -> running st t1 p -> running st t2 p -> t1 = t2.
Proof.
  intros Hr H1 H2. pose proof (locks_reachable_ok _ Hr) as Hok.
  destruct (running_holds _ _ _ Hok H1) as (l1 & R1 & L1), (running_holds _ _ _ Hok H2) as (l2 & R2 & L2). congruence.
Qed.

(** When every call has returned, no lock is held and the registry is empty: nothing leaks, however
    the calls ended. *)
Theorem file_locks_do_not_leak st : reachable st -> tasks st = ∅ -> registry st = ∅ /\ holders st = ∅.
Proof.
  intros Hr Ht. pose proof (locks_reachable_ok _ Hr) as Hok. split; apply map_empty; intros i.
  - destruct (registry st !! i) as [l|] eqn:E; [|done]. apply (ok_cover _ Hok) in E as (t & task & F & _). by rewrite Ht in F.
  - destruct (holders st !! i) as [t|] eqn:E; [|done]. apply (ok_held _ Hok) in E as (task & F & _). by rewrite Ht in F.
Qed.

(** The path a task waits for. *)
Definition next_path task : option P := fst <$> task_arcs task !! length (task_guards task).

(** A blocked task waits for a lock whose holder, if it waits too, waits for a greater path. *)
Lemma blocked_by st t task p l : locks_ok st -> tasks st !! t = Some task -> task_phase task = Acquiring ->
  task_arcs task !! length (task_guards task) = Some (p, l) ->
  is_Some (acquire t st) \/
  exists u task', tasks st !! u = Some task' /\ holders st !! l = Some u /\
    (task_phase task' = Acquiring -> forall q, next_path task' = Some q -> path_lt p q).
Proof.
  intros Hok Ht Hph Hp. unfold acquire. rewrite Ht, Hph. unfold next_lock_of. rewrite Hp; cbn.
  destruct (holders st !! l) as [u|] eqn:Hl; [|left; by eexists]. right.
  destruct (proj1 (ok_held _ Hok l u) Hl) as (task' & Hu & Hin). exists u, task'. split_and!; [done|done|].
  intros Hph' q Hq. pose proof (ok_tasks _ Hok _ _ Hu) as [S _ _ [F|(A1 & A2 & _)]]; [congruence|].
  assert (registry st !! p = Some l) as Rp.
  { apply (live_registered _ _ (ok_registry _ Hok)). rewrite app_nil_r. apply elem_of_arcs. exists t, task. split; [done|].
    by eapply list_elem_of_lookup_2. }
  rewrite A2 in Hin. apply list_elem_of_lookup in Hin as [i Hi]. apply lookup_take_Some in Hi as [Hi Hlt].
  rewrite list_lookup_fmap in Hi. destruct (task_arcs task' !! i) as [[p' l']|] eqn:Ei; [|done]. injection Hi as ->.
  assert (p' = p) as ->.
  { apply (one_path _ _ (ok_registry _ Hok) _ _ l); [|done]. apply (live_registered _ _ (ok_registry _ Hok)). rewrite app_nil_r.
    apply elem_of_arcs. exists u, task'. split; [done|]. by eapply list_elem_of_lookup_2. }
  unfold next_path in Hq. destruct (task_arcs task' !! length (task_guards task')) as [[q' m]|] eqn:Eq; [|done]. injection Hq as ->.
  apply (sorted_lookup (task_paths task') i (length (task_guards task'))); [done|done|..]; rewrite <- A1, list_lookup_fmap.
  - by rewrite Ei.
  - by rewrite Eq.
Qed.

(** A task that is not waiting for a lock can go on. *)
Lemma unblocked_advances st t task : tasks st !! t = Some task -> (task_phase task = Acquiring -> next_path task = None) ->
  exists st', advance t st st'.
Proof.
  intros Ht Hn. unfold advance. destruct (task_phase task) eqn:Hph.
  - specialize (Hn eq_refl). unfold next_path in Hn. apply fmap_None in Hn. eexists. right; left. unfold start_op, next_lock_of.
    rewrite Ht, Hph, Hn. done.
  - eexists. right; right; left. unfold finish, leave. by rewrite Ht, Hph.
  - destruct (task_guards task) as [|l gs] eqn:Hg; [destruct (task_arcs task) as [|a arcs] eqn:Ha|];
      eexists; right; right; right; unfold unwind; by rewrite Ht, Hph, Hg, ?Ha.
Qed.

(** Following the holders ends, for the paths grow: [paths] bounds those still to come. *)
Lemma chase st (paths : list P) : locks_ok st -> forall t task, tasks st !! t = Some task ->
  (forall u task', tasks st !! u = Some task' -> forall q, next_path task' = Some q -> (forall p, next_path task = Some p -> path_lt p q) -> q ∈ paths) ->
  exists u st', advance u st st'.
Proof.
  intros Hok. remember (length paths) as n eqn:Hn. revert paths Hn.
  induction (lt_wf n) as [n _ IH]. intros paths -> t task Ht Hb.
  destruct (decide (task_phase task = Acquiring /\ is_Some (next_path task))) as [[Hph [p Hp]]|Hno].
  2: { exists t. apply (unblocked_advances st t task Ht). intros Hph. destruct (next_path task) eqn:E; [|done]. destruct Hno. eauto. }
  unfold next_path in Hp. destruct (task_arcs task !! length (task_guards task)) as [[p' l]|] eqn:Ea; [|done]. injection Hp as ->.
  destruct (blocked_by st t task p l Hok Ht Hph Ea) as [[st' Hacq]|(u & task' & Hu & _ & Hgt)].
  { exists t, st'. by left. }
  destruct (decide (task_phase task' = Acquiring /\ is_Some (next_path task'))) as [[Hph' [q Hq]]|Hno].
  2: { exists u. apply (unblocked_advances st u task' Hu). intros Hph'. destruct (next_path task') eqn:E; [|done]. destruct Hno. eauto. }
  assert (path_lt p q) as Hpq by (by apply Hgt).
  assert (next_path task = Some p) as Hp by (unfold next_path; by rewrite Ea).
  assert (q ∈ paths) as Hqin by (apply (Hb u task' Hu q Hq); intros p0 E; rewrite Hp in E; by injection E as <-).
  apply (IH (length (filter (fun x => x <> q) paths))) with (paths := filter (fun x => x <> q) paths) (t := u) (task := task'); [|done|done|].
  - apply (length_filter_lt _ _ q); [done|]. intros F; by apply F.
  - intros v task2 Hv r Hrn Hlt. specialize (Hlt q Hq). apply list_elem_of_filter. split.
    + intros ->. by apply (path_lt_irrefl q).
    + apply (Hb v task2 Hv r Hrn). intros p0 E. rewrite Hp in E. injection E as <-. by apply (path_lt_trans p q r).
Qed.

(** No deadlock: as long as a call is under way, some task can take its next step by itself, be
    it to acquire a lock, start or end its operation, or release what it holds. *)
Theorem file_locks_never_deadlock st : reachable st -> tasks st <> ∅ -> exists t st', advance t st st'.
Proof.
  intros Hr Hne. pose proof (locks_reachable_ok _ Hr) as Hok. apply map_choose in Hne as (t & task & Ht).
  apply (chase st ((concat (task_arcs <$> (snd <$> map_to_list (tasks st)))).*1) Hok t task Ht).
  intros u task' Hu q Hq _. unfold next_path in Hq.
  destruct (task_arcs task' !! length (task_guards task')) as [a|] eqn:Ea; [|done]. injection Hq as <-.
  apply list_elem_of_fmap. exists a. split; [done|]. apply elem_of_arcs. exists u, task'. split; [done|]. by eapply list_elem_of_lookup_2.
Qed.
End Facts.

(** ** Two overlapping edits *)

#[local] Instance demo_paths : PathOrder N := {| path_le := N.le; path_le_total := N_le_total_order |}.

Definition do_step (o : option (FileLocks (P := N))) (st : FileLocks (P := N)) : FileLocks (P := N) := default st o.
Definition demo_begun : FileLocks (P := N) := begin 2 [3%N] (begin 1 [5%N; 3%N; 5%N] initial).
Definition demo_one : FileLocks (P := N) := do_step (acquire 1 demo_begun) demo_begun.
Definition demo_two : FileLocks (P := N) := do_step (acquire 1 demo_one) demo_one.
Definition demo_running : FileLocks (P := N) := do_step (start_op 1 demo_two) demo_two.

Lemma begin_step t paths (st : FileLocks (P := N)) : tasks st !! t = None -> step st (begin t paths st).
Proof. apply step_begin. Qed.

Lemma demo_begun_reachable : reachable demo_begun.
Proof.
  apply (rtc_l _ _ (begin 1 [5%N; 3%N; 5%N] initial)); [by apply begin_step|].
  apply (rtc_l _ _ demo_begun); [|constructor]. apply begin_step. vm_compute. reflexivity.
Qed.
Lemma demo_running_reachable : reachable demo_running.
Proof.
  apply (rtc_r _ demo_two); [|apply (step_advance _ 1); right; left; vm_compute; reflexivity].
  apply (rtc_r _ demo_one); [|apply (step_advance _ 1); left; vm_compute; reflexivity].
  apply (rtc_r _ demo_begun); [exact demo_begun_reachable|apply (step_advance _ 1); left; vm_compute; reflexivity].
Qed.

Lemma demo_running_runs : running demo_running 1 3%N.
Proof.
  exists {| task_paths := [3%N; 5%N]; task_arcs := [(3%N, 0%N); (5%N, 1%N)]; task_guards := [0%N; 1%N]; task_phase := Running |}.
  split; [vm_compute; reflexivity|]. split; [done|]. apply elem_of_cons. by left.
Qed.

Lemma file_locks_exclude_witness : running demo_running 1 3%N /\ ~ running demo_running 2 3%N.
Proof.
  split; [exact demo_running_runs|]. intros F.
  discriminate (file_locks_exclude demo_running 1 2 3%N demo_running_reachable demo_running_runs F).
Defined.

Lemma file_locks_never_deadlock_witness : exists t st', advance t demo_running st'.
Proof. apply (file_locks_never_deadlock demo_running demo_running_reachable). intros F. apply (f_equal size) in F. vm_compute in F. discriminate F. Defined.

(** One call from its beginning to its end. *)
Fixpoint unwind_all (n : nat) (t : TaskId) (st : FileLocks (P := N)) : FileLocks (P := N) :=
  match n with O => st | S n => unwind_all n t (do_step (unwind t st) st) end.
Lemma unwind_steps n t st : rtc step st (unwind_all n t st).
Proof.
  revert st. induction n as [|n IH]; intros st; cbn [unwind_all]; [constructor|].
  destruct (unwind t st) as [st'|] eqn:E; cbn; [|by apply IH]. apply (rtc_l _ _ st'); [|apply IH].
  apply (step_advance _ t). by right; right; right.
Qed.
Definition demo_single : FileLocks (P := N) := begin 1 [4%N] initial.
Definition demo_cancelled : FileLocks (P := N) := do_step (drop_future 1 demo_single) demo_single.
Definition demo_over : FileLocks (P := N) := unwind_all 3 1 demo_cancelled.
Lemma demo_over_reachable : reachable demo_over.
Proof.
  unfold reachable. transitivity demo_cancelled; [|apply unwind_steps].
  apply (rtc_l _ _ demo_single); [by apply begin_step|]. apply (rtc_l _ _ demo_cancelled); [|constructor].
  apply (step_cancel _ 1). vm_compute. reflexivity.
Qed.
Lemma file_locks_do_not_leak_witness : registry demo_over = ∅ /\ holders demo_over = ∅.
Proof. apply (file_locks_do_not_leak demo_over demo_over_reachable). vm_compute. reflexivity. Defined.
