(* ===== verification/EditStamps.v ===== *)
(** * Read baselines of edits (src/src/edit/safety.rs, [EditSafety] and its file reads)

    A session may replace a file only against the contents it read: the identity of a file at its
    last full read is kept per session and path, at most [MAX_EDIT_READ_BASELINES] of them, the
    least recently used going first.  The file system is an argument: what opening a file, its
    metadata and each [read] return at the moment they are called.  SHA-256 is a third-party
    function and an argument too. *)
From stdpp Require Import fin_maps.
From Stdlib Require Import Sorted.
From S2P Require Import Prelude.
From S2P Require Import Text.
From S2P Require Import FileLocks.

Definition MAX_EDIT_READ_BASELINES : nat := N.to_nat 4096.
#[global] Arguments MAX_EDIT_READ_BASELINES : simpl never.

(** [Utf8Path]: an order, and [starts_with] by components. *)
Class PathPrefix (P : Type) := { path_starts_with : P -> P -> bool; path_text : P -> text }.

(** ** Data *)

Inductive IoError := NotFound | OtherIo (error : text).

(** The variants of [EditError] these functions produce. *)
Inductive EditError (P : Type) :=
  | EditIo (error : IoError)
  | CommitConflict (path : P)
  | EditMessage (message : text).
Arguments EditIo {P} error.
Arguments CommitConflict {P} path.
Arguments EditMessage {P} message.

Record FileContentIdentity := { mtime_ms : option Z; size_bytes : N; content_sha256 : text }.
#[export] Instance FileContentIdentity_eq_dec : EqDecision FileContentIdentity.
Proof. solve_decision. Defined.

(** [fs::Metadata]: the length, whether it is a regular file, [modified().ok()] in nanoseconds from
    the epoch, negative before it. *)
Record Metadata := { meta_len : N; meta_is_file : bool; meta_modified : option Z }.

(** [u128 as i64] *)
Definition as_i64 (z : Z) : Z := ((z + 2 ^ 63) mod 2 ^ 64 - 2 ^ 63)%Z.

(** [duration_since(UNIX_EPOCH).ok()] and [as_millis() as i64]. *)
Definition epoch_millis (modified : option Z) : option Z :=
  match modified with
  | Some ns => if (ns <? 0)%Z then None else Some (as_i64 (ns / 1000000))
  | None => None
  end.

Section Stamps.
Context {P : Type} `{PathOrder P, PathPrefix P}.

Record FileReadStamp := {
  stamp_path : P;
  read_at_ms : Z;
  stamp_mtime_ms : option Z;
  stamp_size_bytes : option N;
  stamp_sha256 : option text
}.

Inductive CommittedFileMutation :=
  | Present (path : P) (identity : FileContentIdentity)
  | Absent (path : P).

Record CachedReadStamp := { stamp : FileReadStamp; last_access : N }.

Abbreviation Key := (SessionId * P)%type (only parsing).

Record ReadStampCache := { entries : gmap (SessionId * P) CachedReadStamp; access_clock : N }.

(** ** The cache *)

Definition saturating_add_u64 (a b : N) : N := N.min (a + b) u64_max.

Definition next_access (c : ReadStampCache) : ReadStampCache * N :=
  let now := saturating_add_u64 (access_clock c) 1 in ({| entries := entries c; access_clock := now |}, now).

(** [Iterator::min_by_key]: the first of the least.  The order in which a [HashMap] iterates is
    not specified; it is that of [map_to_list] here. *)
Fixpoint min_by_key {A} (key : A -> N) (l : list A) : option A :=
  match l with
  | [] => None
  | a :: rest =>
    match min_by_key key rest with
    | Some b => if (key a <=? key b)%N then Some a else Some b
    | None => Some a
    end
  end.

Definition evict_oldest (m : gmap (SessionId * P) CachedReadStamp) : gmap (SessionId * P) CachedReadStamp :=
  match fst <$> min_by_key (fun e => last_access (snd e)) (map_to_list m) with
  | Some oldest => delete oldest m
  | None => m
  end.

(** [ReadStampCache::insert] *)
Definition cache_insert (session : SessionId) (st : FileReadStamp) (c : ReadStampCache) : ReadStampCache :=
  let key := (session, stamp_path st) in
  let '(c, now) := next_access c in
  let m := if bool_decide (entries c !! key = None) && (MAX_EDIT_READ_BASELINES <=? size (entries c))
           then evict_oldest (entries c) else entries c in
  {| entries := <[key := {| stamp := st; last_access := now |}]> m; access_clock := access_clock c |}.

(** [ReadStampCache::get] *)
Definition cache_get (session : SessionId) (path : P) (c : ReadStampCache) : ReadStampCache * option FileReadStamp :=
  let key := (session, path) in
  let '(c, now) := next_access c in
  match entries c !! key with
  | Some e => ({| entries := <[key := {| stamp := stamp e; last_access := now |}]> (entries c); access_clock := access_clock c |},
               Some (stamp e))
  | None => (c, None)
  end.

(** [ReadStampCache::remove] *)
Definition cache_remove (session : SessionId) (path : P) (c : ReadStampCache) : ReadStampCache :=
  {| entries := delete (session, path) (entries c); access_clock := access_clock c |}.

Definition cache_retain (keep : SessionId * P -> bool) (c : ReadStampCache) : ReadStampCache :=
  {| entries := filter (fun '(k, _) => keep k = true) (entries c); access_clock := access_clock c |}.

Definition empty_cache : ReadStampCache := {| entries := ∅; access_clock := 0 |}.

(** ** Baselines of a session *)

Definition record_read (session : SessionId) (st : FileReadStamp) (c : ReadStampCache) : ReadStampCache := cache_insert session st c.

Definition get_stamp (session : SessionId) (path : P) (c : ReadStampCache) : ReadStampCache * option FileReadStamp :=
  cache_get session path c.

Fixpoint snapshot_paths (session : SessionId) (paths : list P) (c : ReadStampCache)
    : ReadStampCache * list (P * option FileReadStamp) :=
  match paths with
  | [] => (c, [])
  | path :: rest =>
    let '(c, st) := cache_get session path c in
    let '(c, tail) := snapshot_paths session rest c in
    (c, (path, st) :: tail)
  end.
Definition snapshot_path_stamps (session : SessionId) (paths : list P) (c : ReadStampCache)
    : ReadStampCache * list (P * option FileReadStamp) := snapshot_paths session (ordered_paths paths) c.

Definition restore_path_stamps (session : SessionId) (snapshot : list (P * option FileReadStamp)) (c : ReadStampCache)
    : ReadStampCache :=
  fold_left (fun c '(path, st) => match st with Some st => cache_insert session st c | None => cache_remove session path c end)
    snapshot c.

Definition invalidate_paths (session : SessionId) (paths : list P) (c : ReadStampCache) : ReadStampCache :=
  fold_left (fun c path => cache_remove session path c) paths c.

Definition invalidate_roots (session : SessionId) (roots : list P) (c : ReadStampCache) : ReadStampCache :=
  cache_retain (fun '(entry_session, path) =>
    negb (N.eqb entry_session session) || negb (existsb (fun root => path_starts_with path root) roots)) c.

Definition invalidate_session (session : SessionId) (c : ReadStampCache) : ReadStampCache :=
  cache_retain (fun '(entry_session, _) => negb (N.eqb entry_session session)) c.

Definition quoted (path : P) : text := lit "`" ++ path_text path ++ lit "`".

Definition assert_fresh_write (session : SessionId) (path : P) (current : FileContentIdentity) (c : ReadStampCache)
    : ReadStampCache * result unit (EditError P) :=
  let '(c, st) := get_stamp session path c in
  (c,
   match st with
   | None => Err (EditMessage (lit "no full-content write baseline exists for path " ++ quoted path ++
       lit " in this session; read the complete UTF-8 file before replacing it, or use apply_patch for a targeted update when the file does not fit in one read"))
   | Some st =>
     if bool_decide (stamp_mtime_ms st <> mtime_ms current)
        || bool_decide (stamp_size_bytes st <> Some (size_bytes current))
        || bool_decide (stamp_sha256 st <> Some (content_sha256 current))
     then Err (EditMessage (lit "the edit baseline for path " ++ quoted path ++ lit " does not match its current contents"))
     else Ok tt
   end).

Definition assert_fresh_create (session : SessionId) (path : P) (c : ReadStampCache)
    : ReadStampCache * result unit (EditError P) :=
  let '(c, st) := get_stamp session path c in
  (c,
   match st with
   | Some _ => Err (EditMessage (lit "the edit baseline for path " ++ quoted path ++
       lit " does not match its current contents because the previously present target is now absent; inspect the current path and use an explicit apply_patch Add operation if recreating it is intentional"))
   | None => Ok tt
   end).

(** ** Reading files *)

(** An opened file: its metadata before and after the reads, and what the reads return in order
    until the end of the file; no read is interrupted by a signal. *)
Record OpenFile := {
  file_before : result Metadata IoError;
  file_reads : list (result (list N) IoError);
  file_after : result Metadata IoError
}.

Record FileSystem := {
  fs_open : P -> result OpenFile IoError;
  fs_metadata : P -> result Metadata IoError;
  fs_symlink_metadata : P -> result unit IoError
}.

Section Reading.
Context (sha256 : list N -> text) (fs : FileSystem).

Definition io {A} (r : result A IoError) : result A (EditError P) :=
  match r with Ok a => Ok a | Err e => Err (EditIo e) end.

Definition ensure_edit_read_limit (path : P) (actual maximum : N) : result unit (EditError P) :=
  if (maximum <? actual)%N
  then Err (EditMessage (lit "path " ++ quoted path ++ lit " is " ++ show_N actual ++
              lit " bytes, exceeding the configured edit read limit of " ++ show_N maximum ++ lit " bytes"))
  else Ok tt.

Definition checked_file_metadata (path : P) (file : OpenFile) (maximum_bytes : N) : result Metadata (EditError P) :=
  let? metadata := io (file_before file) in
  if negb (meta_is_file metadata) then Err (EditMessage (lit "path " ++ quoted path ++ lit " is not a regular file"))
  else let? _ := ensure_edit_read_limit path (meta_len metadata) maximum_bytes in Ok metadata.

Definition ensure_stable_file_read (path : P) (before after : Metadata) (bytes_read : N) : result unit (EditError P) :=
  if negb (meta_len before =? meta_len after)%N || negb (meta_len after =? bytes_read)%N
     || bool_decide (meta_modified before <> meta_modified after)
  then Err (EditMessage (lit "path " ++ quoted path ++ lit " changed while its contents were being read"))
  else Ok tt.

Definition identity_from_metadata_and_hash (metadata : Metadata) (hash : text) : FileContentIdentity :=
  {| mtime_ms := epoch_millis (meta_modified metadata); size_bytes := meta_len metadata; content_sha256 := hash |}.

(** [take(limit).read_to_end]: the first [limit] bytes; reads beyond them do not happen. *)
Fixpoint read_to_end (limit : N) (reads : list (result (list N) IoError)) : result (list N) IoError :=
  if (limit =? 0)%N then Ok []
  else
    match reads with
    | [] => Ok []
    | Err e :: _ => Err e
    | Ok bytes :: rest =>
      if is_empty bytes then Ok [] else
      let? tail := read_to_end (limit - N.of_nat (length bytes)) rest in
      Ok (take (N.to_nat limit) (bytes ++ tail))
    end.

Definition read_file_with_identity (path : P) (maximum_bytes : N) : result (list N * FileContentIdentity) (EditError P) :=
  let? file := io (fs_open fs path) in
  let? before := checked_file_metadata path file maximum_bytes in
  let? bytes := io (read_to_end (saturating_add_u64 maximum_bytes 1) (file_reads file)) in
  let? _ := ensure_edit_read_limit path (N.of_nat (length bytes)) maximum_bytes in
  let? after := io (file_after file) in
  let? _ := ensure_stable_file_read path before after (N.of_nat (length bytes)) in
  Ok (bytes, identity_from_metadata_and_hash after (sha256 bytes)).

(** The loop of [read_file_identity_bounded]: [hashed] is what went into the hasher. *)
Fixpoint hash_reads (path : P) (maximum_bytes total : N) (hashed : list N) (reads : list (result (list N) IoError))
    : result (N * list N) (EditError P) :=
  match reads with
  | [] => Ok (total, hashed)
  | Err e :: _ => Err (EditIo e)
  | Ok bytes :: rest =>
    if is_empty bytes then Ok (total, hashed)
    else
      let total := saturating_add_u64 total (N.of_nat (length bytes)) in
      let? _ := ensure_edit_read_limit path total maximum_bytes in
      hash_reads path maximum_bytes total (hashed ++ bytes) rest
  end.

Definition read_file_identity_bounded (path : P) (maximum_bytes : N) : result FileContentIdentity (EditError P) :=
  let? file := io (fs_open fs path) in
  let? before := checked_file_metadata path file maximum_bytes in
  let? (total, hashed) := hash_reads path maximum_bytes 0 [] (file_reads file) in
  let? after := io (file_after file) in
  let? _ := ensure_stable_file_read path before after total in
  Ok (identity_from_metadata_and_hash after (sha256 hashed)).

(** ** Baselines and files *)

Definition stamp_of (path : P) (now_ms : Z) (identity : FileContentIdentity) : FileReadStamp :=
  {| stamp_path := path; read_at_ms := now_ms; stamp_mtime_ms := mtime_ms identity;
     stamp_size_bytes := Some (size_bytes identity); stamp_sha256 := Some (content_sha256 identity) |}.

Definition record_current_file_state (session : SessionId) (path : P) (maximum_bytes : N) (now_ms : Z) (c : ReadStampCache)
    : ReadStampCache * result unit (EditError P) :=
  match read_file_identity_bounded path maximum_bytes with
  | Err e => (c, Err e)
  | Ok identity => (record_read session (stamp_of path now_ms identity) c, Ok tt)
  end.

Definition path_changed_before_commit (path : P) : EditError P :=
  EditMessage (lit "path " ++ quoted path ++ lit " changed while the edit was being prepared; the commit was not applied").

(** [Display] of an [EditError], [show_io] being that of an [io::Error]. *)
Definition show_edit_error (show_io : IoError -> text) (e : EditError P) : text :=
  match e with
  | EditIo error => lit "edit io error: " ++ show_io error
  | CommitConflict path => lit "path " ++ quoted path ++
      lit " changed while the edit was being prepared; external content was preserved and the commit was not applied"
  | EditMessage message => message
  end.

Definition assert_path_unchanged (show_io : IoError -> text) (path : P) (expected : option FileContentIdentity)
    : result unit (EditError P) :=
  let revalidation message := EditMessage (lit "path " ++ quoted path ++ lit " could not be revalidated before commit: " ++ message) in
  match expected with
  | Some expected =>
    match fs_metadata fs path with
    | Err e => Err (revalidation (show_io e))
    | Ok metadata =>
      if negb (meta_len metadata =? size_bytes expected)%N then Err (path_changed_before_commit path)
      else
        match read_file_identity_bounded path (size_bytes expected) with
        | Err e => Err (revalidation (show_edit_error show_io e))
        | Ok current => if bool_decide (current <> expected) then Err (path_changed_before_commit path) else Ok tt
        end
    end
  | None =>
    match fs_symlink_metadata fs path with
    | Ok _ => Err (EditMessage (lit "path " ++ quoted path ++
                lit " was created while the edit was being prepared; the commit was not applied"))
    | Err NotFound => Ok tt
    | Err error => Err (EditIo error)
    end
  end.

Definition verify_committed_file_mutation (mutation : CommittedFileMutation) (maximum_bytes : N) (now_ms : Z)
    : result (P * option FileReadStamp) (EditError P) :=
  match mutation with
  | Present path identity =>
    let? _ := ensure_edit_read_limit path (size_bytes identity) maximum_bytes in
    match read_file_identity_bounded path maximum_bytes with
    | Err (EditIo NotFound) => Err (CommitConflict path)
    | Err (EditMessage _) => Err (CommitConflict path)
    | Err error => Err error
    | Ok current =>
      if bool_decide (current <> identity) then Err (CommitConflict path)
      else Ok (path, Some (stamp_of path now_ms identity))
    end
  | Absent path =>
    match fs_symlink_metadata fs path with
    | Ok _ => Err (CommitConflict path)
    | Err NotFound => Ok (path, None)
    | Err error => Err (EditIo error)
    end
  end.

Fixpoint verify_mutations (mutations : list CommittedFileMutation) (maximum_bytes : N) (now_ms : Z)
    : result (list (P * option FileReadStamp)) (EditError P) :=
  match mutations with
  | [] => Ok []
  | m :: rest =>
    let? v := verify_committed_file_mutation m maximum_bytes now_ms in
    let? vs := verify_mutations rest maximum_bytes now_ms in
    Ok (v :: vs)
  end.

Definition sync_file_mutations (session : SessionId) (mutations : list CommittedFileMutation) (maximum_bytes : N) (now_ms : Z)
    (c : ReadStampCache) : ReadStampCache * result unit (EditError P) :=
  match verify_mutations mutations maximum_bytes now_ms with
  | Err e => (c, Err e)
  | Ok verified => (restore_path_stamps session verified c, Ok tt)
  end.
End Reading.
End Stamps.

(** * Read baselines: least recently used, fresh, and read consistently

    The cache of baselines behaves as a list in order of use, cut at its limit; a replacement is
    admitted exactly against the identity recorded last; the two ways of reading a file agree. *)

Section Cache.
Context {P : Type} `{PathOrder P}.
Implicit Types (c : ReadStampCache (P := P)) (k : SessionId * P) (st : FileReadStamp (P := P)).
Abbreviation Stamp := (FileReadStamp (P := P)) (only parsing).
Abbreviation Entry := ((SessionId * P) * CachedReadStamp (P := P))%type (only parsing).

(** ** The least element *)

Lemma min_by_key_Some {A} (key : A -> N) l a : min_by_key key l = Some a -> a ∈ l /\ Forall (fun b => (key a <= key b)%N) l.
Proof.
  revert a. induction l as [|x l IH]; intros a; [done|]. cbn [min_by_key].
  destruct (min_by_key key l) as [b|] eqn:E.
  - destruct (IH b eq_refl) as [Hb Fb]. destruct (N.leb_spec (key x) (key b)) as [Hle|Hlt]; intros [= <-].
    + split; [by apply elem_of_cons; left|]. constructor; [lia|]. eapply Forall_impl; [exact Fb|]. cbn. lia.
    + split; [by apply elem_of_cons; right|]. constructor; [lia|done].
  - intros [= <-]. destruct l as [|y l]; [|cbn in E; by repeat case_match].
    split; [by apply elem_of_cons; left|]. by repeat constructor.
Qed.

Lemma min_by_key_None {A} (key : A -> N) l : min_by_key key l = None -> l = [].
Proof. destruct l; [done|]. cbn. by repeat case_match. Qed.

(** ** The entries in order of use *)

Definition newer (x y : Entry) : Prop := (last_access (snd y) < last_access (snd x))%N.

Record recency c (al : list Entry) : Prop := {
  recency_entries : map_to_list (entries c) ≡ₚ al;
  recency_sorted : StronglySorted newer al;
  recency_clock : Forall (fun x => (last_access (snd x) <= access_clock c)%N) al;
  recency_bound : length al <= MAX_EDIT_READ_BASELINES
}.

(** What a client can see of an entry. *)
Definition visible (x : Entry) : (SessionId * P) * Stamp := (fst x, stamp (snd x)).
Definition in_order_of_use c (l : list ((SessionId * P) * Stamp)) : Prop :=
  exists al, recency c al /\ l = visible <$> al.

Definition not_key k {A} (x : (SessionId * P) * A) : Prop := fst x <> k.

(** ** The specification: a list in order of use, newest first *)

Definition lru_insert k st (l : list ((SessionId * P) * Stamp)) : list ((SessionId * P) * Stamp) :=
  take MAX_EDIT_READ_BASELINES ((k, st) :: filter (fun x => fst x <> k) l).
Definition lru_lookup k (l : list ((SessionId * P) * Stamp)) : option Stamp :=
  snd <$> head (filter (fun x => fst x = k) l).
Definition lru_get k (l : list ((SessionId * P) * Stamp))
    : list ((SessionId * P) * Stamp) * option Stamp :=
  match lru_lookup k l with
  | Some st => ((k, st) :: filter (fun x => fst x <> k) l, Some st)
  | None => (l, None)
  end.
Definition lru_retain (keep : SessionId * P -> bool) (l : list ((SessionId * P) * Stamp))
    : list ((SessionId * P) * Stamp) := filter (fun x => keep (fst x) = true) l.

(** ** Lists that list a map *)

Lemma filter_visible (Q : SessionId * P -> Prop) `{!forall k, Decision (Q k)} (al : list Entry) :
  filter (fun x => Q (fst x)) (visible <$> al) = visible <$> filter (fun x => Q (fst x)) al.
Proof.
  induction al as [|x al IH]; [done|]. rewrite fmap_cons, !filter_cons. cbn [visible fst]. case_decide; by rewrite ?fmap_cons, IH.
Qed.

Lemma filter_visible_other k (al : list Entry) :
  filter (fun x => fst x <> k) (visible <$> al) = visible <$> filter (fun x => fst x <> k) al.
Proof. exact (filter_visible (fun k0 => k0 <> k) al). Qed.

Lemma filter_visible_same k (al : list Entry) :
  filter (fun x => fst x = k) (visible <$> al) = visible <$> filter (fun x => fst x = k) al.
Proof. exact (filter_visible (fun k0 => k0 = k) al). Qed.

Lemma StronglySorted_filter {A} (R : relation A) (Q : A -> Prop) `{!forall x, Decision (Q x)} l :
  StronglySorted R l -> StronglySorted R (filter Q l).
Proof.
  induction 1 as [|x l _ IH F]; [constructor|]. rewrite filter_cons. case_decide; [|done]. constructor; [done|].
  apply Forall_forall. intros y [_ Hy]%list_elem_of_filter. by apply (proj1 (Forall_forall _ _) F).
Qed.

Lemma Forall_filter' {A} (R Q : A -> Prop) `{!forall x, Decision (Q x)} l : Forall R l -> Forall R (filter Q l).
Proof. rewrite !Forall_forall. intros F x [_ Hx]%list_elem_of_filter. by apply F. Qed.

Lemma recency_lookup c al k e : recency c al -> entries c !! k = Some e <-> (k, e) ∈ al.
Proof. intros HR. rewrite <- elem_of_map_to_list. by rewrite (recency_entries _ _ HR). Qed.

Lemma recency_keys c al : recency c al -> NoDup (al.*1).
Proof. intros HR. rewrite <- (recency_entries _ _ HR). apply NoDup_fst_map_to_list. Qed.

(** Keeping the entries whose key satisfies [Q]. *)
Lemma recency_filter c al (Q : SessionId * P -> Prop) `{!forall k, Decision (Q k)} m clock : recency c al ->
  (forall k e, m !! k = Some e <-> entries c !! k = Some e /\ Q k) -> (access_clock c <= clock)%N ->
  recency {| entries := m; access_clock := clock |} (filter (fun x => Q (fst x)) al).
Proof.
  intros HR Hm Hc. split; cbn.
  - apply NoDup_Permutation; [apply NoDup_map_to_list| |].
    + apply NoDup_filter. apply (NoDup_fmap_1 fst), (recency_keys _ _ HR).
    + intros [k e]. rewrite elem_of_map_to_list, Hm, list_elem_of_filter, (recency_lookup _ _ _ _ HR). cbn. tauto.
  - apply StronglySorted_filter, HR.
  - apply Forall_filter'. eapply Forall_impl; [apply HR|]. cbn. lia.
  - etransitivity; [apply length_filter|apply HR].
Qed.

(** Putting one entry in front. *)
Lemma recency_push c al k st now : recency c al -> entries c !! k = None -> access_clock c = now ->
  Forall (fun x => (last_access (snd x) < now)%N) al -> length al < MAX_EDIT_READ_BASELINES ->
  recency {| entries := <[k := {| stamp := st; last_access := now |}]> (entries c); access_clock := now |}
    ((k, {| stamp := st; last_access := now |}) :: al).
Proof.
  intros HR Hk <- Hlt Hlen. split; cbn.
  - rewrite map_to_list_insert by done. by rewrite (recency_entries _ _ HR).
  - constructor; [apply HR|exact Hlt].
  - constructor; [done|apply HR].
  - lia.
Qed.

Lemma recency_size c al : recency c al -> size (entries c) = length al.
Proof. intros HR. rewrite <- length_map_to_list. by rewrite (recency_entries _ _ HR). Qed.

Lemma filter_other_id k al : k ∉ al.*1 -> filter (fun x : Entry => fst x <> k) al = al.
Proof.
  intros Hk. induction al as [|x al IH]; [done|]. cbn in Hk. rewrite not_elem_of_cons in Hk. destruct Hk as [Hx Hk].
  rewrite filter_cons_True by congruence. by rewrite IH.
Qed.

Lemma filter_last k (e : CachedReadStamp (P := P)) al : NoDup ((al ++ [(k, e)]).*1) -> filter (fun x : Entry => fst x <> k) (al ++ [(k, e)]) = al.
Proof.
  rewrite fmap_app. intros (_ & Hd & _)%NoDup_app. rewrite filter_app, filter_cons_False, filter_nil, app_nil_r by (intros F; by apply F).
  apply filter_other_id. intros F. apply (Hd k F). by apply elem_of_cons; left.
Qed.

Lemma sorted_last al x : StronglySorted newer (al ++ [x]) -> Forall (fun y => newer y x) al.
Proof.
  induction al as [|y al IH]; cbn; intros S; [constructor|]. apply StronglySorted_inv in S as [S F].
  constructor; [|by apply IH]. apply (proj1 (Forall_forall _ _) F). apply elem_of_app; right. by apply elem_of_cons; left.
Qed.

(** The entry with the least access is the last in order of use. *)
Lemma evict_oldest_last c al x : recency c (al ++ [x]) -> evict_oldest (entries c) = delete (fst x) (entries c).
Proof.
  intros HR. unfold evict_oldest. destruct (min_by_key _ _) as [y|] eqn:E; cbn.
  - apply min_by_key_Some in E as [Hy Fy]. rewrite (recency_entries _ _ HR) in Hy, Fy.
    apply elem_of_app in Hy as [Hy|Hy]; [|by apply list_elem_of_singleton in Hy as ->].
    pose proof (proj1 (Forall_forall _ _) (sorted_last _ _ (recency_sorted _ _ HR)) _ Hy) as Hlt. unfold newer in Hlt.
    assert (x ∈ al ++ [x]) as Hx by (apply elem_of_app; right; by apply elem_of_cons; left).
    pose proof (proj1 (Forall_forall _ _) Fy x Hx) as Fx. cbn in Fx. lia.
  - apply min_by_key_None in E. pose proof (recency_entries _ _ HR) as F. rewrite E in F. apply Permutation_nil in F.
    by destruct al.
Qed.

Lemma next_access_succ c : (access_clock c < u64_max)%N ->
  next_access c = ({| entries := entries c; access_clock := access_clock c + 1 |}, (access_clock c + 1)%N).
Proof.
  intros Hc. unfold next_access, saturating_add_u64.
  assert (N.min (access_clock c + 1) u64_max = (access_clock c + 1)%N) as -> by lia. done.
Qed.

(** One entry moves to the front of [m], which keeps the entries [Q] of the cache. *)
Lemma recency_use c al (Q : SessionId * P -> Prop) `{!forall k, Decision (Q k)} m k st : recency c al ->
  (forall k e, m !! k = Some e <-> entries c !! k = Some e /\ Q k) -> m !! k = None ->
  length (filter (fun x : Entry => Q (fst x)) al) < MAX_EDIT_READ_BASELINES ->
  recency {| entries := <[k := {| stamp := st; last_access := access_clock c + 1 |}]> m; access_clock := access_clock c + 1 |}
    ((k, {| stamp := st; last_access := access_clock c + 1 |}) :: filter (fun x : Entry => Q (fst x)) al).
Proof.
  intros HR Hm Hk Hlen. set (now := (access_clock c + 1)%N).
  assert (recency {| entries := m; access_clock := now |} (filter (fun x : Entry => Q (fst x)) al)) as HR'
    by (apply (recency_filter c); [done|done|unfold now; lia]).
  apply (recency_push _ _ k st now HR' Hk eq_refl); [|done].
  apply Forall_filter'. eapply Forall_impl; [apply (recency_clock _ _ HR)|]. cbn. unfold now. lia.
Qed.

Lemma length_filter_present k e al : (k, e) ∈ al -> length al <= MAX_EDIT_READ_BASELINES ->
  length (filter (fun x : Entry => fst x <> k) al) < MAX_EDIT_READ_BASELINES.
Proof.
  intros Hin Hb. eapply Nat.lt_le_trans; [|exact Hb]. apply (length_filter_lt _ _ (k, e)); [done|]. intros F; by apply F.
Qed.

Lemma lookup_delete_other {A} (m : gmap (SessionId * P) A) k0 k e : delete k0 m !! k = Some e <-> m !! k = Some e /\ k <> k0.
Proof. rewrite lookup_delete_Some. naive_solver. Qed.

(** A key that is present, or absent in a cache with room, goes to the front of the others. *)
Lemma use_in_place c al k st : recency c al -> is_Some (entries c !! k) \/ length al < MAX_EDIT_READ_BASELINES ->
  in_order_of_use {| entries := <[k := {| stamp := st; last_access := access_clock c + 1 |}]> (entries c);
                     access_clock := access_clock c + 1 |}
    (lru_insert k st (visible <$> al)) /\
  lru_insert k st (visible <$> al) = (k, st) :: filter (fun x => fst x <> k) (visible <$> al).
Proof.
  intros HR Hk.
  assert (length (filter (fun x : Entry => fst x <> k) al) < MAX_EDIT_READ_BASELINES) as Hlen.
  { destruct Hk as [[e He]|Hlt]; [apply (length_filter_present k e); [by apply (recency_lookup _ _ _ _ HR)|apply HR]|].
    eapply Nat.le_lt_trans; [apply length_filter|done]. }
  assert (lru_insert k st (visible <$> al) = (k, st) :: filter (fun x => fst x <> k) (visible <$> al)) as E.
  { unfold lru_insert. apply take_ge. cbn [length]. rewrite filter_visible_other, length_fmap. lia. }
  split; [|done]. rewrite E, filter_visible_other, <- (insert_delete_eq (entries c) k).
  eexists. split; [apply (recency_use c al (fun k0 => k0 <> k)); try done|done].
  - intros k0 e. apply lookup_delete_other.
  - apply lookup_delete_eq.
Qed.

Lemma insert_refines c l session st : in_order_of_use c l -> (access_clock c < u64_max)%N ->
  in_order_of_use (cache_insert session st c) (lru_insert (session, stamp_path st) st l).
Proof.
  intros (al & HR & ->) Hc. unfold cache_insert. rewrite (next_access_succ _ Hc). set (k := (session, stamp_path st)). cbn [entries access_clock].
  destruct (entries c !! k) as [e|] eqn:Ek.
  - rewrite bool_decide_eq_false_2 by done. cbn [andb]. apply use_in_place; [done|left; by eexists].
  - rewrite bool_decide_eq_true_2 by done. cbn [andb]. rewrite (recency_size _ _ HR).
    destruct (Nat.leb_spec MAX_EDIT_READ_BASELINES (length al)) as [Hfull|Hroom]; [|by apply use_in_place; [|right]].
    pose proof (recency_bound _ _ HR) as Hb. destruct (exists_last (l := al)) as (al0 & x & ->).
    { intros ->. cbn in Hfull. unfold MAX_EDIT_READ_BASELINES in Hfull. lia. }
    rewrite (evict_oldest_last _ _ _ HR). destruct x as [k0 e0]. cbn [fst].
    pose proof (filter_last _ _ _ (recency_keys _ _ HR)) as Hf. rewrite length_app in Hb, Hfull. cbn in Hb, Hfull.
    assert (k ∉ (al0 ++ [(k0, e0)]).*1) as Hnk.
    { intros F. apply list_elem_of_fmap in F as ([k1 e1] & -> & F). apply (recency_lookup _ _ _ _ HR) in F. cbn in Ek. by rewrite F in Ek. }
    eexists. split.
    + apply (recency_use c (al0 ++ [(k0, e0)]) (fun k1 => k1 <> k0)); [done|intros; apply lookup_delete_other| |].
      * apply lookup_delete_None. by right.
      * rewrite Hf. lia.
    + unfold lru_insert. rewrite filter_visible_other, filter_other_id, Hf by done.
      destruct MAX_EDIT_READ_BASELINES as [|n] eqn:En; [lia|]. cbn [take]. f_equal.
      rewrite fmap_app, take_app_le, take_ge; [done|..]; rewrite length_fmap; lia.
Qed.

Lemma lru_lookup_visible c al k : recency c al -> lru_lookup k (visible <$> al) = stamp <$> entries c !! k.
Proof.
  intros HR. unfold lru_lookup. rewrite filter_visible_same.
  destruct (entries c !! k) as [e|] eqn:E.
  - pose proof (proj1 (recency_lookup _ _ k e HR) E) as Hin.
    destruct (filter (fun x : Entry => fst x = k) al) as [|[k1 e1] rest] eqn:Ef.
    + assert ((k, e) ∈ filter (fun x : Entry => fst x = k) al) as F by (by apply list_elem_of_filter).
      rewrite Ef in F. by apply elem_of_nil in F.
    + assert ((k1, e1) ∈ filter (fun x : Entry => fst x = k) al) as F by (rewrite Ef; by apply elem_of_cons; left).
      apply list_elem_of_filter in F as [Ek F]. cbn in Ek. subst k1. apply (recency_lookup _ _ _ _ HR) in F.
      rewrite E in F. by injection F as ->.
  - destruct (filter (fun x : Entry => fst x = k) al) as [|[k1 e1] rest] eqn:Ef; [done|].
    assert ((k1, e1) ∈ filter (fun x : Entry => fst x = k) al) as F by (rewrite Ef; by apply elem_of_cons; left).
    apply list_elem_of_filter in F as [Ek F]. cbn in Ek. subst k1. apply (recency_lookup _ _ _ _ HR) in F. by rewrite E in F.
Qed.

Lemma get_refines c l session path : in_order_of_use c l -> (access_clock c < u64_max)%N ->
  snd (cache_get session path c) = snd (lru_get (session, path) l) /\
  in_order_of_use (fst (cache_get session path c)) (fst (lru_get (session, path) l)).
Proof.
  intros (al & HR & ->) Hc. unfold cache_get, lru_get. rewrite (next_access_succ _ Hc), (lru_lookup_visible c) by done.
  cbn [entries access_clock]. destruct (entries c !! (session, path)) as [e|] eqn:Ek; cbn [fmap option_fmap option_map fst snd].
  - split; [done|]. destruct (use_in_place c al (session, path) (stamp e) HR) as [U E]; [left; by eexists|].
    rewrite <- E. exact U.
  - split; [done|]. exists al. split; [|done]. destruct HR as [H1 H2 H3 H4]. split; cbn; try done.
    eapply Forall_impl; [exact H3|]. cbn. lia.
Qed.

Lemma retain_refines c l keep : in_order_of_use c l -> in_order_of_use (cache_retain keep c) (lru_retain keep l).
Proof.
  intros (al & HR & ->). unfold cache_retain, lru_retain. eexists. split; [|exact (filter_visible (fun k => keep k = true) al)].
  apply (recency_filter c al (fun k => keep k = true)); [done| |lia]. intros k e. rewrite map_lookup_filter_Some. done.
Qed.

Lemma remove_refines c l session path : in_order_of_use c l ->
  in_order_of_use (cache_remove session path c) (filter (fun x => fst x <> (session, path)) l).
Proof.
  intros (al & HR & ->). rewrite filter_visible_other. eexists. split; [|done]. unfold cache_remove.
  refine (recency_filter c al (fun k => k <> (session, path)) (delete (session, path) (entries c)) (access_clock c) HR _ _); [|lia].
  intros k e. apply lookup_delete_other.
Qed.

(** ** Any use of the cache *)

Inductive CacheOp :=
  | OpInsert (session : SessionId) (st : Stamp)
  | OpGet (session : SessionId) (path : P)
  | OpRemove (session : SessionId) (path : P)
  | OpRetain (keep : SessionId * P -> bool).

Definition cache_op (op : CacheOp) c : ReadStampCache * option Stamp :=
  match op with
  | OpInsert session st => (cache_insert session st c, None)
  | OpGet session path => cache_get session path c
  | OpRemove session path => (cache_remove session path c, None)
  | OpRetain keep => (cache_retain keep c, None)
  end.
Definition lru_op (op : CacheOp) (l : list ((SessionId * P) * Stamp)) : list ((SessionId * P) * Stamp) * option Stamp :=
  match op with
  | OpInsert session st => (lru_insert (session, stamp_path st) st l, None)
  | OpGet session path => lru_get (session, path) l
  | OpRemove session path => (filter (fun x => fst x <> (session, path)) l, None)
  | OpRetain keep => (lru_retain keep l, None)
  end.

Fixpoint run_ops {S} (op : CacheOp -> S -> S * option Stamp) (ops : list CacheOp) (s : S) : S * list (option Stamp) :=
  match ops with
  | [] => (s, [])
  | o :: ops => let '(s, r) := op o s in let '(s, rs) := run_ops op ops s in (s, r :: rs)
  end.

Lemma op_refines op c l : in_order_of_use c l -> (access_clock c < u64_max)%N ->
  snd (cache_op op c) = snd (lru_op op l) /\ in_order_of_use (fst (cache_op op c)) (fst (lru_op op l)) /\
  (access_clock (fst (cache_op op c)) <= access_clock c + 1)%N.
Proof.
  intros HR Hc. destruct op as [session st|session path|session path|keep]; cbn [cache_op lru_op fst snd].
  - split; [done|]. split; [by apply insert_refines|]. unfold cache_insert. rewrite (next_access_succ _ Hc). cbn. lia.
  - destruct (get_refines _ _ session path HR Hc) as [E1 E2]. split; [done|]. split; [done|].
    unfold cache_get. rewrite (next_access_succ _ Hc). cbn [entries access_clock]. destruct (entries c !! _); cbn; lia.
  - split; [done|]. split; [by apply remove_refines|]. cbn. lia.
  - split; [done|]. split; [by apply retain_refines|]. cbn. lia.
Qed.

Lemma run_refines ops c l : in_order_of_use c l -> (access_clock c + N.of_nat (length ops) <= u64_max)%N ->
  snd (run_ops cache_op ops c) = snd (run_ops lru_op ops l) /\
  in_order_of_use (fst (run_ops cache_op ops c)) (fst (run_ops lru_op ops l)).
Proof.
  revert c l. induction ops as [|op ops IH]; intros c l HR Hc; [done|]. cbn [run_ops length] in *.
  destruct (op_refines op c l HR) as (E1 & E2 & E3); [lia|].
  destruct (cache_op op c) as [c1 r1], (lru_op op l) as [l1 r2]. cbn [fst snd] in *. subst r2.
  destruct (IH c1 l1 E2) as [F1 F2]; [lia|].
  destruct (run_ops cache_op ops c1), (run_ops lru_op ops l1). cbn in *. by rewrite F1.
Qed.

Lemma empty_in_order : in_order_of_use empty_cache [].
Proof. exists []. split; [|done]. split; cbn; [done|constructor|constructor|lia]. Qed.

(** The cache of read baselines is a list in order of use: for every sequence of operations short of
    2^64 it answers as the list that puts a recorded or looked-up baseline in front, keeps the
    first [MAX_EDIT_READ_BASELINES] and forgets the rest; so exactly the least recently used
    baseline is evicted, and no order of iteration shows. *)
Theorem baselines_are_least_recently_used ops : (N.of_nat (length ops) <= u64_max)%N ->
  snd (run_ops cache_op ops empty_cache) = snd (run_ops lru_op ops []) /\
  in_order_of_use (fst (run_ops cache_op ops empty_cache)) (fst (run_ops lru_op ops [])).
Proof. intros Hc. apply run_refines; [apply empty_in_order|cbn; lia]. Qed.

(** ** The bound holds whatever the clock *)

Lemma size_evict c : MAX_EDIT_READ_BASELINES <= size (entries c) -> size (evict_oldest (entries c)) = size (entries c) - 1.
Proof.
  intros Hs. unfold evict_oldest. destruct (min_by_key _ _) as [x|] eqn:E; cbn.
  - apply min_by_key_Some in E as [Hx _]. destruct x as [k e]. apply elem_of_map_to_list in Hx. cbn.
    rewrite map_size_delete, Hx. cbn. lia.
  - apply min_by_key_None, map_to_list_empty_iff in E. rewrite E, map_size_empty in Hs. unfold MAX_EDIT_READ_BASELINES in Hs. lia.
Qed.

Lemma op_bound op c : size (entries c) <= MAX_EDIT_READ_BASELINES -> size (entries (fst (cache_op op c))) <= MAX_EDIT_READ_BASELINES.
Proof.
  intros Hs. assert (0 < MAX_EDIT_READ_BASELINES) as Hpos by (unfold MAX_EDIT_READ_BASELINES; lia).
  destruct op as [session st|session path|session path|keep]; cbn [cache_op fst].
  - assert (forall (m : gmap (SessionId * P) (CachedReadStamp (P := P))) (k : SessionId * P) e, size m < MAX_EDIT_READ_BASELINES ->
      size (<[k := e]> m) <= MAX_EDIT_READ_BASELINES) as Hroom.
    { intros m k e Hm. rewrite map_size_insert. destruct (m !! k); cbn; lia. }
    unfold cache_insert, next_access. cbn [entries access_clock].
    destruct (entries c !! (session, stamp_path st)) as [e|] eqn:E.
    + rewrite bool_decide_eq_false_2 by done. cbn [andb]. rewrite map_size_insert, E. exact Hs.
    + rewrite bool_decide_eq_true_2 by done. cbn [andb].
      destruct (Nat.leb_spec MAX_EDIT_READ_BASELINES (size (entries c))) as [Hf|Hr]; apply Hroom; [|done].
      rewrite (size_evict c Hf). lia.
  - unfold cache_get, next_access. cbn [entries access_clock]. destruct (entries c !! _) as [e|] eqn:E; cbn; [|done].
    by rewrite map_size_insert, E.
  - cbn. rewrite map_size_delete. destruct (_ !! _); unfold id; lia.
  - cbn. etransitivity; [|exact Hs]. apply map_subseteq_size, map_filter_subseteq.
Qed.

(** No sequence of operations makes the cache exceed its limit, not even with an exhausted clock. *)
Theorem baselines_are_bounded ops : size (entries (fst (run_ops cache_op ops empty_cache))) <= MAX_EDIT_READ_BASELINES.
Proof.
  assert (forall c, size (entries c) <= MAX_EDIT_READ_BASELINES -> size (entries (fst (run_ops cache_op ops c))) <= MAX_EDIT_READ_BASELINES) as G.
  { induction ops as [|op ops IH]; intros c Hc; [done|]. cbn [run_ops]. pose proof (op_bound op c Hc) as B.
    destruct (cache_op op c) as [c1 r]. specialize (IH c1 B). by destruct (run_ops cache_op ops c1). }
  apply G. cbn. rewrite map_size_empty. lia.
Qed.
End Cache.

(** ** What a replacement is checked against *)

Section Fresh.
Context {P : Type} `{PathOrder P, PathPrefix P}.
Implicit Types (c : ReadStampCache (P := P)) (k : SessionId * P) (st : FileReadStamp (P := P)).

Definition op_baseline k (b : option FileReadStamp) (op : CacheOp (P := P)) : option FileReadStamp :=
  match op with
  | OpInsert session st => if decide ((session, stamp_path st) = k) then Some st else b
  | OpGet _ _ => b
  | OpRemove session path => if decide ((session, path) = k) then None else b
  | OpRetain keep => if keep k then b else None
  end.

(** The last baseline recorded for [k] and not invalidated since, forgetting no one. *)
Definition last_baseline k (ops : list (CacheOp (P := P))) : option FileReadStamp := fold_left (op_baseline k) ops None.

Definition inserts (ops : list (CacheOp (P := P))) : nat :=
  length (filter (fun op => is_true (match op with OpInsert _ _ => true | _ => false end)) ops).

Definition identity_of st (identity : FileContentIdentity) : Prop :=
  stamp_mtime_ms st = mtime_ms identity /\ stamp_size_bytes st = Some (size_bytes identity) /\
  stamp_sha256 st = Some (content_sha256 identity).

Lemma evict_lookup c k e : evict_oldest (entries c) !! k = Some e -> entries c !! k = Some e.
Proof. unfold evict_oldest. destruct (fst <$> _); [|done]. by intros [_ ?]%lookup_delete_Some. Qed.

Lemma op_tracks k op c b : (forall e, entries c !! k = Some e -> b = Some (stamp e)) ->
  forall e, entries (fst (cache_op op c)) !! k = Some e -> op_baseline k b op = Some (stamp e).
Proof.
  intros Hc e. destruct op as [session st|session path|session path|keep]; cbn [cache_op op_baseline fst].
  - unfold cache_insert, next_access. cbn [entries access_clock]. intros [[<- <-]|[Hne He]]%lookup_insert_Some.
    + by rewrite decide_True.
    + rewrite decide_False by done. case_match; [|by apply Hc]. apply Hc. by apply evict_lookup.
  - unfold cache_get, next_access. cbn [entries access_clock].
    destruct (entries c !! (session, path)) as [e0|] eqn:E0; cbn [fst entries]; [|apply Hc].
    intros [[<- <-]|[Hne He]]%lookup_insert_Some; cbn [stamp]; [by apply Hc|by apply Hc].
  - cbn [cache_remove entries]. intros [Hne He]%lookup_delete_Some. rewrite decide_False by done. by apply Hc.
  - cbn [cache_retain entries]. intros [He Hk]%map_lookup_filter_Some. rewrite Hk. by apply Hc.
Qed.

Lemma run_tracks k ops c b : (forall e, entries c !! k = Some e -> b = Some (stamp e)) ->
  forall e, entries (fst (run_ops cache_op ops c)) !! k = Some e -> fold_left (op_baseline k) ops b = Some (stamp e).
Proof.
  revert c b. induction ops as [|op ops IH]; intros c b Hc e; [apply Hc|]. cbn [run_ops fold_left].
  pose proof (op_tracks k op c b Hc) as Hop. destruct (cache_op op c) as [c1 r]. specialize (IH c1 _ Hop e).
  by destruct (run_ops cache_op ops c1).
Qed.

(** With room for every recorded baseline nothing is forgotten. *)
Lemma op_remembers k op c b : (if op is OpInsert _ _ then size (entries c) < MAX_EDIT_READ_BASELINES else True) ->
  stamp <$> entries c !! k = b -> stamp <$> entries (fst (cache_op op c)) !! k = op_baseline k b op.
Proof.
  intros Hroom Hc. destruct op as [session st|session path|session path|keep]; cbn [cache_op op_baseline fst].
  - unfold cache_insert, next_access. cbn [entries access_clock].
    rewrite (proj2 (Nat.leb_gt _ _) Hroom), andb_false_r. case_decide as Hk.
    + by rewrite <- Hk, lookup_insert_eq.
    + by rewrite lookup_insert_ne.
  - unfold cache_get, next_access. cbn [entries access_clock].
    destruct (entries c !! (session, path)) as [e0|] eqn:E0; cbn [fst entries]; [|done].
    destruct (decide ((session, path) = k)) as [<-|Hne]; [by rewrite lookup_insert_eq, <- Hc, E0|by rewrite lookup_insert_ne].
  - cbn [cache_remove entries]. case_decide as Hk; [by rewrite <- Hk, lookup_delete_eq|by rewrite lookup_delete_ne].
  - cbn [cache_retain entries]. rewrite <- Hc. destruct (entries c !! k) as [e|] eqn:E.
    + destruct (keep k) eqn:Hk; [erewrite map_lookup_filter_Some_2; [done|done|done]|].
      rewrite map_lookup_filter_None_2; [done|]. right. intros e' _. by rewrite Hk.
    + rewrite map_lookup_filter_None_2 by (by left). by destruct (keep k).
Qed.

Lemma size_insert_le (m : gmap (SessionId * P) (CachedReadStamp (P := P))) k e : size (<[k := e]> m) <= size m + 1.
Proof. rewrite map_size_insert. destruct (m !! k); cbn; lia. Qed.

Lemma size_evict_le (m : gmap (SessionId * P) (CachedReadStamp (P := P))) : size (evict_oldest m) <= size m.
Proof. unfold evict_oldest. destruct (fst <$> _); [|done]. apply map_subseteq_size, delete_subseteq. Qed.

Lemma op_size op c : size (entries (fst (cache_op op c))) <= size (entries c) + inserts [op].
Proof.
  destruct op as [session st|session path|session path|keep]; cbn [cache_op fst].
  - unfold cache_insert, next_access. cbn [entries access_clock]. change (inserts [OpInsert session st]) with 1.
    etransitivity; [apply size_insert_le|]. destruct (_ && _); [|done]. pose proof (size_evict_le (entries c)). lia.
  - unfold cache_get, next_access. cbn [entries access_clock]. destruct (entries c !! _) as [e|] eqn:E; cbn; [|lia].
    rewrite map_size_insert, E. unfold id. lia.
  - cbn. etransitivity; [apply map_subseteq_size, delete_subseteq|lia].
  - cbn. etransitivity; [apply map_subseteq_size, map_filter_subseteq|lia].
Qed.

Lemma inserts_cons op ops : inserts (op :: ops) = inserts [op] + inserts ops.
Proof. unfold inserts. rewrite !filter_cons. destruct op; reflexivity. Qed.

Lemma run_remembers k ops c b : size (entries c) + inserts ops <= MAX_EDIT_READ_BASELINES ->
  stamp <$> entries c !! k = b -> stamp <$> entries (fst (run_ops cache_op ops c)) !! k = fold_left (op_baseline k) ops b.
Proof.
  revert c b. induction ops as [|op ops IH]; intros c b Hs Hc; [done|]. cbn [run_ops fold_left]. rewrite inserts_cons in Hs.
  pose proof (op_size op c) as Hsize.
  assert (stamp <$> entries (fst (cache_op op c)) !! k = op_baseline k b op) as Hop.
  { apply op_remembers; [|done]. destruct op; [|done..]. change (inserts [OpInsert session st]) with 1 in Hs. lia. }
  destruct (cache_op op c) as [c1 r]. cbn [fst] in *. specialize (IH c1 _ ltac:(lia) Hop).
  by destruct (run_ops cache_op ops c1).
Qed.

Lemma get_stamp_snd session path c : snd (get_stamp session path c) = stamp <$> entries c !! (session, path).
Proof. unfold get_stamp, cache_get, next_access. cbn [entries access_clock]. by destruct (entries c !! _). Qed.

Lemma assert_fresh_write_Ok session path current c :
  snd (assert_fresh_write session path current c) = Ok tt <->
  exists st, stamp <$> entries c !! (session, path) = Some st /\ identity_of st current.
Proof.
  unfold assert_fresh_write. rewrite <- get_stamp_snd. destruct (get_stamp session path c) as [c' [st|]]; cbn [snd].
  - unfold identity_of. repeat case_bool_decide; cbn; split; try done; intros; naive_solver.
  - split; [done|]. by intros (? & ? & _).
Qed.

Lemma assert_fresh_create_Ok session path c :
  snd (assert_fresh_create (P := P) session path c) = Ok tt <-> entries c !! (session, path) = None.
Proof.
  unfold assert_fresh_create. pose proof (get_stamp_snd session path c) as E. destruct (get_stamp session path c) as [c' [st|]]; cbn [snd] in *.
  - split; [done|]. intros F. by rewrite F in E.
  - split; [|done]. intros _. by destruct (entries c !! _).
Qed.

(** After any use of the cache, a replacement of a file is admitted only against the identity of the
    baseline the session recorded last for that path and did not invalidate since; and while no more
    than [MAX_EDIT_READ_BASELINES] baselines were recorded it is admitted against exactly that one. *)
Theorem replacements_match_their_baseline ops session path current :
  let c := fst (run_ops cache_op ops empty_cache) in
  let baseline := exists st, last_baseline (session, path) ops = Some st /\ identity_of st current in
  (snd (assert_fresh_write session path current c) = Ok tt -> baseline) /\
  (inserts ops <= MAX_EDIT_READ_BASELINES -> snd (assert_fresh_write session path current c) = Ok tt <-> baseline).
Proof.
  cbv zeta. rewrite assert_fresh_write_Ok. split.
  - intros (st & E & Hid). destruct (entries _ !! _) as [e|] eqn:Ee; [|done]. injection E as <-.
    exists (stamp e). split; [|done]. by eapply run_tracks; [|exact Ee].
  - intros Hs. rewrite (run_remembers _ ops empty_cache None); [done| |done]. cbn. rewrite map_size_empty. lia.
Qed.

End Fresh.

(** ** The two ways of reading a file *)

Section ReadFile.
Context {P : Type} `{PathOrder P, PathPrefix P} (sha256 : list N -> text) (fs : FileSystem (P := P)).

(** What the reads deliver up to the end of the file. *)
Fixpoint contents (reads : list (result (list N) IoError)) : option (list N) :=
  match reads with
  | [] => Some []
  | Err _ :: _ => None
  | Ok bytes :: rest => if is_empty bytes then Some [] else app bytes <$> contents rest
  end.

(** A regular file whose reads deliver [bytes], no more than [maximum], and whose length and
    modification time are the same before and after and agree with what was read. *)
Definition stable_read (path : P) (maximum : N) (bytes : list N) (identity : FileContentIdentity) : Prop :=
  exists file before after,
    fs_open fs path = Ok file /\ file_before file = Ok before /\ file_after file = Ok after /\
    meta_is_file before = true /\ contents (file_reads file) = Some bytes /\
    meta_len before = N.of_nat (length bytes) /\ meta_len after = N.of_nat (length bytes) /\
    meta_modified before = meta_modified after /\ (N.of_nat (length bytes) <= maximum)%N /\
    identity = {| mtime_ms := epoch_millis (meta_modified after); size_bytes := N.of_nat (length bytes); content_sha256 := sha256 bytes |}.

Ltac destruct_exists := repeat match goal with F : exists _, _ |- _ => destruct F | F : _ /\ _ |- _ => destruct F end; congruence.

Lemma ensure_limit_Ok (path : P) actual maximum u : ensure_edit_read_limit path actual maximum = Ok u <-> (actual <= maximum)%N.
Proof. unfold ensure_edit_read_limit. destruct u. destruct (N.ltb_spec maximum actual); split; try done; lia. Qed.

Lemma ensure_stable_Ok (path : P) before after n u : ensure_stable_file_read path before after n = Ok u <->
  meta_len before = n /\ meta_len after = n /\ meta_modified before = meta_modified after.
Proof.
  unfold ensure_stable_file_read. destruct u. destruct (N.eqb_spec (meta_len before) (meta_len after)) as [E1|E1]; cbn; [|split; [done|intros (? & ? & ?); congruence]].
  destruct (N.eqb_spec (meta_len after) n) as [E2|E2]; cbn; [|split; [done|intros (? & ? & ?); congruence]].
  case_bool_decide as E3; [split; [done|intros (? & ? & ?); congruence]|]. split; [|done]. intros _. split_and!; [congruence|done|]. by destruct (decide (meta_modified before = meta_modified after)).
Qed.

Lemma checked_metadata_Ok (path : P) file maximum m : checked_file_metadata path file maximum = Ok m <->
  file_before file = Ok m /\ meta_is_file m = true /\ (meta_len m <= maximum)%N.
Proof.
  unfold checked_file_metadata. destruct (file_before file) as [m0|e]; cbn; [|split; [done|intros (? & ? & ?); congruence]].
  destruct (meta_is_file m0) eqn:Ef; cbn; [|split; [done|intros (? & ? & ?); congruence]].
  destruct (ensure_edit_read_limit path (meta_len m0) maximum) as [u|e] eqn:El; cbn.
  - apply ensure_limit_Ok in El. split; [intros [= <-]; by split_and!|intros ([= <-] & _ & _); done].
  - split; [done|]. intros ([= ->] & _ & Hle). apply (ensure_limit_Ok path _ _ tt) in Hle. congruence.
Qed.

Lemma take_cut {A} n (a b : list A) : length (take n (a ++ b)) < n -> take n (a ++ b) = a ++ b.
Proof. intros Hlt. apply take_ge. rewrite length_take in Hlt. lia. Qed.

Lemma read_to_end_contents limit reads bytes : (N.of_nat (length bytes) < limit)%N ->
  read_to_end limit reads = Ok bytes <-> contents reads = Some bytes.
Proof.
  revert limit bytes. induction reads as [|[b|e] rest IH]; intros limit bytes Hlt; cbn [read_to_end contents];
    (destruct (N.eqb_spec limit 0) as [->|Hl]; [lia|]); [split; congruence| |done].
  destruct b as [|x b]; cbn [is_empty]; [split; congruence|]. remember (x :: b) as a eqn:Ea. clear Ea.
  destruct (decide (N.of_nat (length a) < limit)%N) as [Ha|Ha].
  - split.
    + destruct (read_to_end _ rest) as [tail|e] eqn:Et; cbn; [|done]. intros [= <-].
      pose proof Hlt as Hcut. rewrite take_cut in Hlt |- * by lia. rewrite length_app in Hlt. apply IH in Et; [by rewrite Et|lia].
    + intros (tail & Et & ->)%fmap_Some. rewrite length_app in Hlt. apply (IH (limit - N.of_nat (length a))%N) in Et; [|lia].
      rewrite Et. cbn [and_then]. rewrite take_ge; [done|]. rewrite length_app. lia.
  - split.
    + destruct (read_to_end _ rest) as [tail|e]; cbn; [|done]. intros [= <-]. rewrite length_take, length_app in Hlt. lia.
    + intros (tail & Et & ->)%fmap_Some. rewrite length_app in Hlt. lia.
Qed.

Lemma hash_reads_contents (path : P) maximum reads total hashed t h : (maximum < u64_max)%N ->
  total = N.of_nat (length hashed) -> (total <= maximum)%N ->
  hash_reads path maximum total hashed reads = Ok (t, h) <->
  exists bytes, contents reads = Some bytes /\ h = hashed ++ bytes /\ t = N.of_nat (length h) /\ (t <= maximum)%N.
Proof.
  intros Hmax. revert total hashed. induction reads as [|[b|e] rest IH]; intros total hashed Ht Hle; cbn [hash_reads contents].
  - split; [intros [= <- <-]; exists []; by rewrite app_nil_r|]. intros (bytes & [= <-] & -> & -> & _). by rewrite app_nil_r, Ht.
  - destruct b as [|x b]; cbn [is_empty].
    { split; [intros [= <- <-]; exists []; by rewrite app_nil_r|]. intros (bytes & [= <-] & -> & -> & _). by rewrite app_nil_r, Ht. }
    remember (x :: b) as a eqn:Ea. clear Ea. cbv zeta. unfold saturating_add_u64.
    destruct (ensure_edit_read_limit path _ maximum) as [u|er] eqn:El; cbn [and_then].
    + apply ensure_limit_Ok in El.
      assert (N.min (total + N.of_nat (length a)) u64_max = N.of_nat (length (hashed ++ a))) as Et by (rewrite length_app; lia).
      rewrite Et, (IH _ _ eq_refl) by lia. split.
      * intros (bytes & E & -> & -> & Hb). exists (a ++ bytes). rewrite E. by rewrite <- app_assoc in *.
      * intros (bytes & (tail & E & ->)%fmap_Some & -> & -> & Hb). exists tail. by rewrite <- app_assoc.
    + split; [done|]. intros (bytes & (tail & E & ->)%fmap_Some & -> & -> & Hb). exfalso.
      rewrite !length_app in Hb. assert (N.min (total + N.of_nat (length a)) u64_max <= maximum)%N as F by lia.
      apply (ensure_limit_Ok path _ _ tt) in F. congruence.
  - split; [done|]. by intros (? & ? & _).
Qed.

Lemma read_with_identity_stable path maximum bytes identity : (maximum < u64_max)%N ->
  read_file_with_identity sha256 fs path maximum = Ok (bytes, identity) <-> stable_read path maximum bytes identity.
Proof.
  intros Hmax. unfold read_file_with_identity, stable_read.
  assert (saturating_add_u64 maximum 1 = (maximum + 1)%N) as -> by (unfold saturating_add_u64; lia).
  destruct (fs_open fs path) as [file|e]; cbn [io and_then]; [|by split; [|intros; destruct_exists]].
  destruct (checked_file_metadata path file maximum) as [m|e] eqn:Em; cbn [and_then].
  2:{ split; [done|]. intros (? & m & after & [= <-] & E1 & _ & E2 & _ & E3 & _ & _ & E4 & _).
      assert (checked_file_metadata path file maximum = Ok m) as F by (apply checked_metadata_Ok; split_and!; [done|done|lia]). congruence. }
  apply checked_metadata_Ok in Em as (Eb & Ef & Elen). split.
  - destruct (read_to_end _ _) as [bs|e] eqn:Er; cbn [io and_then]; [|done].
    destruct (ensure_edit_read_limit _ _ _) eqn:El; cbn [and_then]; [|done]. apply ensure_limit_Ok in El.
    destruct (file_after file) as [after|e] eqn:Ea; cbn [io and_then]; [|done].
    destruct (ensure_stable_file_read _ _ _ _) eqn:Es; cbn [and_then]; [|done]. apply ensure_stable_Ok in Es as (S1 & S2 & S3).
    intros [= <- <-]. apply read_to_end_contents in Er; [|lia]. exists file, m, after. unfold identity_from_metadata_and_hash. rewrite S2.
    by split_and!.
  - intros (? & m' & after & [= <-] & Eb' & Ea & _ & Ec & L1 & L2 & Emod & Hle & ->). assert (m' = m) as -> by congruence.
    apply (read_to_end_contents (maximum + 1)) in Ec; [|lia]. rewrite Ec. cbn [io and_then].
    rewrite (proj2 (ensure_limit_Ok path _ _ tt) Hle). cbn [and_then]. rewrite Ea. cbn [io and_then].
    rewrite (proj2 (ensure_stable_Ok path m after _ tt)) by done. cbn [and_then].
    unfold identity_from_metadata_and_hash. by rewrite L2.
Qed.

Lemma read_identity_stable path maximum identity : (maximum < u64_max)%N ->
  read_file_identity_bounded sha256 fs path maximum = Ok identity <-> exists bytes, stable_read path maximum bytes identity.
Proof.
  intros Hmax. unfold read_file_identity_bounded, stable_read.
  destruct (fs_open fs path) as [file|e]; cbn [io and_then]; [|by split; [|intros; destruct_exists]].
  destruct (checked_file_metadata path file maximum) as [m|e] eqn:Em; cbn [and_then].
  2:{ split; [done|]. intros (bytes & ? & m & after & [= <-] & E1 & _ & E2 & _ & E3 & _ & _ & E4 & _).
      assert (checked_file_metadata path file maximum = Ok m) as F by (apply checked_metadata_Ok; split_and!; [done|done|lia]). congruence. }
  apply checked_metadata_Ok in Em as (Eb & Ef & Elen). split.
  - destruct (hash_reads _ _ _ _ _) as [[total hashed]|e] eqn:Er; cbn [and_then]; [|done].
    apply hash_reads_contents in Er as (bytes & Ec & -> & -> & Hle); [|done|done|lia].
    destruct (file_after file) as [after|e] eqn:Ea; cbn [io and_then]; [|done].
    destruct (ensure_stable_file_read _ _ _ _) eqn:Es; cbn [and_then]; [|done]. apply ensure_stable_Ok in Es as (S1 & S2 & S3).
    intros [= <-]. exists bytes, file, m, after. unfold identity_from_metadata_and_hash. rewrite S2. by split_and!.
  - intros (bytes & ? & m' & after & [= <-] & Eb' & Ea & _ & Ec & L1 & L2 & Emod & Hle & ->). assert (m' = m) as -> by congruence.
    assert (hash_reads path maximum 0 [] (file_reads file) = Ok (N.of_nat (length bytes), bytes)) as ->
      by (apply hash_reads_contents; [done|done|lia|]; exists bytes; by split_and!).
    cbn [and_then]. rewrite Ea. cbn [io and_then].
    rewrite (proj2 (ensure_stable_Ok path m after _ tt)) by done. cbn [and_then].
    unfold identity_from_metadata_and_hash. by rewrite L2.
Qed.

(** Reading a file whole and hashing it in pieces agree: below a limit of 2^64-1 either succeeds exactly
    when the file is regular, does not change while it is read, and has at most the allowed length,
    and both then give the length, the modification time and the hash of all of its contents. *)
Theorem file_identities_agree path maximum bytes identity : (maximum < u64_max)%N ->
  (read_file_with_identity sha256 fs path maximum = Ok (bytes, identity) <-> stable_read path maximum bytes identity) /\
  (read_file_identity_bounded sha256 fs path maximum = Ok identity <->
   exists bytes, read_file_with_identity sha256 fs path maximum = Ok (bytes, identity)).
Proof.
  intros Hmax. split; [by apply read_with_identity_stable|]. rewrite read_identity_stable by done.
  split; intros [b Hb]; exists b; by apply read_with_identity_stable.
Qed.
End ReadFile.

(** ** Concrete uses *)

#[local] Instance demo_order : PathOrder N := {| path_le := N.le; path_le_total := N_le_total_order |}.
#[local] Instance demo_prefix : PathPrefix N := {| path_starts_with := N.eqb; path_text := fun n => [n] |}.

Definition demo_stamp (p mtime : N) : FileReadStamp (P := N) :=
  {| stamp_path := p; read_at_ms := 0; stamp_mtime_ms := Some (Z.of_N mtime); stamp_size_bytes := Some 3%N; stamp_sha256 := Some [mtime] |}.
Definition demo_ops : list (CacheOp (P := N)) :=
  [OpInsert 1 (demo_stamp 7 10); OpInsert 1 (demo_stamp 8 20); OpGet 1 7%N; OpRemove 1 8%N; OpGet 1 8%N].

Lemma baselines_are_least_recently_used_witness :
  snd (run_ops cache_op demo_ops empty_cache) = [None; None; Some (demo_stamp 7 10); None; None] /\
  snd (run_ops cache_op demo_ops empty_cache) = snd (run_ops lru_op demo_ops []).
Proof.
  split; [vm_compute; reflexivity|].
  exact (proj1 (baselines_are_least_recently_used demo_ops ltac:(vm_compute; intros F; discriminate F))).
Defined.

Definition demo_metadata : Metadata := {| meta_len := 3; meta_is_file := true; meta_modified := Some 9000001%Z |}.
Definition demo_fs : FileSystem (P := N) :=
  {| fs_open _ := Ok {| file_before := Ok demo_metadata; file_reads := [Ok [1%N; 2%N]; Ok [3%N]]; file_after := Ok demo_metadata |};
     fs_metadata _ := Ok demo_metadata; fs_symlink_metadata _ := Ok tt |}.
Definition demo_identity : FileContentIdentity := {| mtime_ms := Some 9%Z; size_bytes := 3; content_sha256 := [1; 2; 3]%N |}.

Lemma file_identities_agree_witness :
  read_file_identity_bounded (fun bytes => bytes) demo_fs 5%N 3 = Ok demo_identity.
Proof.
  apply (proj2 (file_identities_agree (fun bytes => bytes) demo_fs 5%N 3 [1; 2; 3]%N demo_identity ltac:(vm_compute; reflexivity))).
  exists [1; 2; 3]%N. vm_compute. reflexivity.
Defined.
