(* ===== verification/ListSort.v ===== *)
(** * Stable sorting and grouping

    [slice::sort_by_key] under any total order, and the map of lists that
    [entry(key).or_default().push(value)] builds. *)
From S2P Require Import Prelude.
From Stdlib Require Import Sorted.

(** ** Sorting *)

Section Sort.
Context {A : Type} (leb : A -> A -> bool).

Fixpoint insert_sorted (x : A) (l : list A) : list A :=
  match l with
  | [] => [x]
  | y :: l' => if leb x y then x :: l else y :: insert_sorted x l'
  end.
Fixpoint stable_sort (l : list A) : list A :=
  match l with [] => [] | x :: l' => insert_sorted x (stable_sort l') end.

Lemma insert_sorted_perm x l : insert_sorted x l ≡ₚ x :: l.
Proof. induction l as [|y l IH]; cbn; [done|]. case_match; [done|]. rewrite IH. apply Permutation_swap. Qed.

Lemma stable_sort_perm l : stable_sort l ≡ₚ l.
Proof. induction l as [|x l IH]; cbn; [done|]. by rewrite insert_sorted_perm, IH. Qed.

Definition before (a b : A) : Prop := leb a b = true.
Definition strictly_before (a b : A) : Prop := leb b a = false.

Hypothesis leb_total : forall a b, leb a b = true \/ leb b a = true.
Hypothesis leb_trans : forall a b c, leb a b = true -> leb b c = true -> leb a c = true.

Lemma insert_sorted_sorted x l : StronglySorted before l -> StronglySorted before (insert_sorted x l).
Proof.
  unfold before. induction 1 as [|y l Hs IH Hf]; cbn; [by repeat constructor|]. destruct (leb x y) eqn:E.
  - constructor; [by constructor|]. constructor; [done|]. eapply Forall_impl; [exact Hf|]. intros z Hz. by apply (leb_trans x y z).
  - constructor; [done|]. rewrite insert_sorted_perm. constructor; [|done]. by destruct (leb_total x y); [congruence|].
Qed.

Lemma stable_sort_sorted l : StronglySorted before (stable_sort l).
Proof. induction l; cbn; [constructor|by apply insert_sorted_sorted]. Qed.

(** Keys in strictly ascending order determine the result. *)
Lemma stable_sort_unique l target : target ≡ₚ l -> StronglySorted strictly_before target -> stable_sort l = target.
Proof.
  intros Hp. assert (stable_sort l ≡ₚ target) as Hq by (by rewrite stable_sort_perm). clear Hp.
  pose proof (stable_sort_sorted l) as Hl. revert Hl Hq. generalize (stable_sort l) as s. induction target as [|x target IH]; intros s Hl Hq Ht.
  - by apply Permutation_nil_r in Hq.
  - destruct s as [|y s]; [by apply Permutation_nil_l in Hq|]. apply StronglySorted_inv in Hl as [Hl Fl]. apply StronglySorted_inv in Ht as [Ht Ft].
    assert (y = x) as ->.
    { assert (y ∈ x :: target) as Hy by (rewrite <- Hq; by left). apply elem_of_cons in Hy as [->|Hy]; [done|].
      assert (x ∈ y :: s) as Hx by (rewrite Hq; by left). apply elem_of_cons in Hx as [->|Hx]; [done|].
      rewrite Forall_forall in Fl, Ft. specialize (Fl x Hx). specialize (Ft y Hy). unfold before, strictly_before in *. congruence. }
    f_equal. apply IH; [done| |done]. by apply Permutation_cons_inv in Hq.
Qed.

Lemma stable_sort_ascending l : StronglySorted strictly_before l -> stable_sort l = l.
Proof. by apply stable_sort_unique. Qed.
End Sort.

(** ** Grouping *)

Definition push_at {K V} `{Countable K} (k : K) (v : V) (m : gmap K (list V)) : gmap K (list V) :=
  <[k := default [] (m !! k) ++ [v]]> m.

Definition group {K V} `{Countable K} (l : list (K * V)) : gmap K (list V) := fold_left (fun m e => push_at (fst e) (snd e) m) l ∅.

Definition of_key {K V} `{EqDecision K} (k : K) (l : list (K * V)) : list V := snd <$> filter (fun e => fst e = k) l.

Section Group.
Context {K V : Type} `{Countable K}.
Implicit Types (l : list (K * V)) (m : gmap K (list V)).

Lemma of_key_cons k e l : of_key k (e :: l) = if decide (fst e = k) then snd e :: of_key k l else of_key k l.
Proof. unfold of_key. rewrite filter_cons. by destruct (decide _). Qed.

Lemma group_fold_lookup l m k : default [] (fold_left (fun m e => push_at (fst e) (snd e) m) l m !! k) = default [] (m !! k) ++ of_key k l.
Proof.
  revert m. induction l as [|e l IH]; intros m; cbn [fold_left]; [by rewrite app_nil_r|]. rewrite IH, of_key_cons. unfold push_at.
  case_decide as Hk; [subst; rewrite lookup_insert_eq|by rewrite lookup_insert_ne]. cbn. by rewrite <- app_assoc.
Qed.

Lemma group_fold_nonempty l m k : (forall v, m !! k = Some v -> v <> []) ->
  forall v, fold_left (fun m e => push_at (fst e) (snd e) m) l m !! k = Some v -> v <> [].
Proof.
  revert m. induction l as [|e l IH]; intros m Hm; cbn [fold_left]; [done|]. apply IH. unfold push_at.
  intros v [[<- <-]|[_ Hv]]%lookup_insert_Some; [by destruct (default [] _)|by apply Hm].
Qed.

Lemma group_lookup l k : group l !! k = match of_key k l with [] => None | v :: vs => Some (v :: vs) end.
Proof.
  pose proof (group_fold_lookup l ∅ k) as E. pose proof (group_fold_nonempty l ∅ k ltac:(by intros v; rewrite lookup_empty)) as N.
  rewrite lookup_empty in E. cbn [default app] in E. unfold group. destruct (fold_left _ l ∅ !! k) as [v|]; cbn in E.
  - specialize (N v eq_refl). rewrite <- E. by destruct v.
  - by rewrite <- E.
Qed.

Lemma group_default l k : default [] (group l !! k) = of_key k l.
Proof. rewrite group_lookup. by destruct (of_key k l). Qed.

Lemma elem_of_of_key k v l : v ∈ of_key k l <-> (k, v) ∈ l.
Proof.
  unfold of_key. rewrite list_elem_of_fmap. split.
  - intros ([k' v'] & -> & [Hk Hin]%list_elem_of_filter). cbn in *. by subst.
  - intros Hin. exists (k, v). split; [done|]. by apply list_elem_of_filter.
Qed.
End Group.

(** ** Enumeration *)

Definition enumerate {A} (l : list A) : list (nat * A) := imap pair l.

Definition last_wins {K V} `{Countable K} (l : list (K * V)) : gmap K V := fold_left (fun m e => <[fst e := snd e]> m) l ∅.

Fixpoint position {A} (f : A -> bool) (l : list A) : option nat :=
  match l with
  | [] => None
  | a :: l => if f a then Some 0 else S <$> position f l
  end.

Section Enumerate.
Context {A : Type}.
Implicit Types (l : list A).

Lemma enumerate_lookup l i : enumerate l !! i = (fun x => (i, x)) <$> l !! i.
Proof. apply list_lookup_imap. Qed.

Lemma elem_of_enumerate l i x : (i, x) ∈ enumerate l <-> l !! i = Some x.
Proof.
  rewrite list_elem_of_lookup. split.
  - intros (j & Hj). rewrite enumerate_lookup in Hj. destruct (l !! j) eqn:E; [|done]. by injection Hj as -> ->.
  - intros Hx. exists i. by rewrite enumerate_lookup, Hx.
Qed.

Lemma enumerate_fst l : fst <$> enumerate l = seq 0 (length l).
Proof. unfold enumerate. rewrite fmap_imap. transitivity (imap (fun j (_ : A) => id j) l); [by apply imap_ext|]. by rewrite imap_seq_0, list_fmap_id. Qed.

Lemma enumerate_snd l : snd <$> enumerate l = l.
Proof.
  apply list_eq. intros i. rewrite list_lookup_fmap, enumerate_lookup. by destruct (l !! i).
Qed.

Lemma seq_sorted n k : StronglySorted lt (seq n k).
Proof.
  revert n. induction k as [|k IH]; intros n; cbn [seq]; [constructor|]. constructor; [apply IH|].
  apply Forall_forall. intros x Hx%elem_of_seq. lia.
Qed.

Lemma enumerate_sorted l : StronglySorted lt (fst <$> enumerate l).
Proof. rewrite enumerate_fst. apply seq_sorted. Qed.

Lemma sorted_omap {B} (f : nat * A -> option B) (key : B -> nat) (l : list (nat * A)) :
  (forall x b, f x = Some b -> key b = fst x) -> StronglySorted lt (fst <$> l) -> StronglySorted lt (key <$> omap f l).
Proof.
  intros Hf. induction l as [|x l IH]; [constructor|]. rewrite fmap_cons. intros [Hs Hx]%StronglySorted_inv. cbn [omap list_omap].
  destruct (f x) as [b|] eqn:E; [|by apply IH]. rewrite fmap_cons. constructor; [by apply IH|].
  apply Forall_forall. intros j (b' & -> & (y & Hy & Ey)%list_elem_of_omap)%list_elem_of_fmap.
  apply Hf in Ey, E. rewrite Ey, E. rewrite Forall_forall in Hx. apply Hx. by apply list_elem_of_fmap_2.
Qed.
End Enumerate.

(** ** Sorted and indexed lists *)

Lemma sorted_fmap {A B} (R : relation B) (f : A -> B) l : StronglySorted R (f <$> l) <-> StronglySorted (fun a b => R (f a) (f b)) l.
Proof.
  induction l as [|x l IH]; [split; constructor|]. rewrite fmap_cons. split; intros [Hs Hf]%StronglySorted_inv; constructor.
  - by apply IH.
  - by rewrite Forall_fmap in Hf.
  - by apply IH.
  - by rewrite Forall_fmap.
Qed.

Lemma sorted_impl {A} (R S : relation A) l : (forall a b, R a b -> S a b) -> StronglySorted R l -> StronglySorted S l.
Proof. intros HRS. induction 1 as [|x l _ IH F]; constructor; [done|]. eapply Forall_impl; [exact F|]. intros y. apply HRS. Qed.

Lemma sorted_filter {A} (R : relation A) (P : A -> Prop) `{!forall x, Decision (P x)} l : StronglySorted R l -> StronglySorted R (filter P l).
Proof.
  induction 1 as [|x l _ IH F]; [constructor|]. rewrite filter_cons. case_decide; [|done]. constructor; [done|].
  apply Forall_forall. intros y [_ Hy]%list_elem_of_filter. by apply (proj1 (Forall_forall _ _) F).
Qed.

Lemma sorted_lt_nodup l : StronglySorted lt l -> NoDup l.
Proof.
  induction 1 as [|x l _ IH F]; constructor; [|done]. intros Hx. rewrite Forall_forall in F. specialize (F x Hx). lia.
Qed.

Lemma sorted_of_key {K V} `{EqDecision K} (key : V -> nat) (k : K) (l : list (K * V)) :
  StronglySorted lt ((fun e => key (snd e)) <$> l) -> StronglySorted lt (key <$> of_key k l).
Proof.
  intros Hs. unfold of_key. rewrite <- list_fmap_compose. apply sorted_fmap. apply sorted_filter. exact (proj1 (sorted_fmap _ _ _) Hs).
Qed.

Lemma filter_all {A} (f : A -> bool) l : (forall x, x ∈ l -> f x = true) -> List.filter f l = l.
Proof.
  induction l as [|x l IH]; intros Hf; [done|]. cbn. rewrite (Hf x) by (by left). f_equal. apply IH. intros y Hy. apply Hf. by right.
Qed.

Lemma nodup_omap_inj {A B} (f : A -> option B) l i j a b x : NoDup (omap f l) -> l !! i = Some a -> l !! j = Some b ->
  f a = Some x -> f b = Some x -> i = j.
Proof.
  revert i j. induction l as [|y l IH]; intros i j Hn Hi Hj Ha Hb; [done|]. cbn [omap list_omap] in Hn.
  assert (forall n c, l !! n = Some c -> f c = Some x -> x ∈ omap f l) as Hin
    by (intros n c Hc Hx; apply list_elem_of_omap; exists c; split; [by eapply list_elem_of_lookup_2|done]).
  assert (NoDup (omap f l)) as Hn' by (destruct (f y); [by apply NoDup_cons in Hn as [_ ?]|done]).
  destruct i as [|i], j as [|j]; cbn in Hi, Hj; [done| | |f_equal; by eapply IH].
  - injection Hi as ->. rewrite Ha in Hn. apply NoDup_cons in Hn as [Hn _]. destruct Hn. by eapply Hin.
  - injection Hj as ->. rewrite Hb in Hn. apply NoDup_cons in Hn as [Hn _]. destruct Hn. by eapply Hin.
Qed.

Section LastWins.
Context {K V : Type} `{Countable K}.
Implicit Types (l : list (K * V)) (m : gmap K V).

Lemma last_wins_fold l (m : gmap K V) k v : fold_left (fun (m : gmap K V) e => <[fst e := snd e]> m) l m !! k = Some v -> (k, v) ∈ l \/ m !! k = Some v.
Proof.
  revert m. induction l as [|[k' v'] l IH]; intros m; cbn [fold_left]; [by right|]. intros [Hl|Hm]%IH; [left; by right|].
  cbn [fst snd] in Hm. apply lookup_insert_Some in Hm as [[-> ->]|[_ Hm]]; [left; by left|by right].
Qed.

Lemma last_wins_elem l k v : last_wins l !! k = Some v -> (k, v) ∈ l.
Proof. intros [Hl|Hm]%last_wins_fold; [done|]. by rewrite lookup_empty in Hm. Qed.

Lemma last_wins_fold_some l (m : gmap K V) k : is_Some (m !! k) \/ (exists v, (k, v) ∈ l) -> is_Some (fold_left (fun (m : gmap K V) e => <[fst e := snd e]> m) l m !! k).
Proof.
  revert m. induction l as [|[k' v'] l IH]; intros m; cbn [fold_left]; [by intros [?|(? & ?%elem_of_nil)]|]. intros Hk. apply IH.
  destruct (decide (k' = k)) as [->|Hne]; [left; cbn; by rewrite lookup_insert_eq|].
  destruct Hk as [Hm|(v & [[= ? ?]|Hin]%elem_of_cons)]; [left; cbn; by rewrite lookup_insert_ne|congruence|right; by eexists].
Qed.

Lemma last_wins_functional l k v : (k, v) ∈ l -> (forall v', (k, v') ∈ l -> v' = v) -> last_wins l !! k = Some v.
Proof.
  intros Hin Hf. destruct (last_wins_fold_some l ∅ k) as [v' Hv]; [right; by eexists|]. unfold last_wins. rewrite Hv. f_equal.
  apply Hf. by apply last_wins_elem.
Qed.

Lemma last_wins_none l k : (forall v, (k, v) ∉ l) -> last_wins l !! k = None.
Proof. intros Hn. destruct (last_wins l !! k) as [v|] eqn:E; [|done]. apply last_wins_elem in E. by destruct (Hn v). Qed.
End LastWins.

(** ** Blocks *)

Lemma concat_merge {A B} (g : A -> list B) l p : length l = length p ->
  concat (map g l) ++ concat p ≡ₚ concat (zip_with (fun x y => g x ++ y) l p).
Proof.
  revert p. induction l as [|x l IH]; intros [|y p] Hl; cbn in *; try done. injection Hl as Hl. rewrite <- (IH p Hl).
  rewrite !app_assoc. apply Permutation_app_tail. rewrite <- !app_assoc. apply Permutation_app_head, Permutation_app_comm.
Qed.

Lemma sorted_blocks {A} (R : relation A) (position_of : A -> nat) (blocks : list (list A)) n :
  (forall a b, position_of a < position_of b -> R a b) ->
  (forall i block, blocks !! i = Some block -> Forall (fun x => position_of x = n + i) block /\ StronglySorted R block) ->
  StronglySorted R (concat blocks).
Proof.
  intros HR. revert n. induction blocks as [|block blocks IH]; intros n Hb; [constructor|]. cbn [concat].
  destruct (Hb 0 block eq_refl) as [Hf Hs].
  assert (forall i block, blocks !! i = Some block -> Forall (fun x => position_of x = S n + i) block /\ StronglySorted R block) as Hb'
    by (intros i b Hi; specialize (Hb (S i) b Hi); by rewrite Nat.add_succ_r in Hb).
  specialize (IH (S n) Hb'). assert (forall x, x ∈ concat blocks -> n < position_of x) as Hlater.
  { intros x (b & Hb1 & Hx)%list_elem_of_In%in_concat. apply list_elem_of_In, list_elem_of_lookup in Hb1 as (i & Hi).
    apply list_elem_of_In in Hx. destruct (Hb' i b Hi) as [Hp _]. rewrite Forall_forall in Hp. rewrite (Hp x Hx). lia. }
  clear Hb. induction Hs as [|x block Hs IHs Hx]; cbn [app]; [done|]. apply Forall_cons in Hf as [Hf1 Hf]. constructor; [by apply IHs|].
  apply Forall_app. split; [done|]. apply Forall_forall. intros y Hy. apply HR. rewrite Hf1. specialize (Hlater y Hy). lia.
Qed.
