(* ===== verification/Json.v ===== *)
(** * JSON values

    [serde_json] is a third-party crate: a JSON value is known by the operations the code applies to
    it, and by the few documented facts the theorems need. *)
From S2P Require Import Prelude.
From S2P Require Import Text.
From Stdlib Require Import Ascii.

Class JsonValue (V : Type) := {
  json_get : V -> text -> option V;      (* [Value::get] with a key *)
  json_is_object : V -> bool;
  json_as_str : V -> option text;
  json_as_bool : V -> option bool;
  json_as_u64 : V -> option N;
  json_as_i64 : V -> option Z;
  json_null : V;
  json_is_null : V -> bool;
  json_quote : text -> text              (* [to_string] of a string *)
}.

Class JsonLaws (V : Type) `{JsonValue V} : Prop := {
  json_null_law v : json_is_null v = true <-> v = json_null;
  json_i64_range v z : json_as_i64 v = Some z -> (- 2 ^ 63 <= z < 2 ^ 63)%Z;
  json_quote_empty : byte_len (json_quote []) = 2%N
}.

Definition json_field {V A} `{JsonValue V} (read : V -> option A) (v : V) (key : string) : option A :=
  json_get v (lit key) ≫= read.

Definition json_flag {V} `{JsonValue V} (v : V) (key : string) : bool :=
  match json_field json_as_bool v key with Some b => b | None => false end.

(** [i64] as decimal text. *)
Definition show_Z (z : Z) : text :=
  if (z <? 0)%Z then lit "-" ++ show_N (Z.to_N (- z)) else show_N (Z.to_N z).

(** ** Decimal lengths *)

Lemma byte_len_cons c s : byte_len (c :: s) = (len_utf8 c + byte_len s)%N.
Proof. reflexivity. Qed.

Lemma lit_String a s : lit (String a s) = Ascii.N_of_ascii a :: lit s.
Proof. reflexivity. Qed.

Lemma digit_len x : len_utf8 (Ascii.N_of_ascii (pretty_N_char x)) = 1%N.
Proof. unfold pretty_N_char. repeat (case_match; try reflexivity). Qed.

Lemma pretty_go_len k x s : (x < 10 ^ N.of_nat k)%N -> (byte_len (lit (pretty_N_go x s)) <= N.of_nat k + byte_len (lit s))%N.
Proof.
  revert x s. induction k as [|k IH]; intros x s Hx.
  - assert (x = 0)%N as -> by (cbn in Hx; lia). rewrite pretty_N_go_0. lia.
  - destruct (decide (x = 0)%N) as [->|Hne]; [rewrite pretty_N_go_0; lia|]. rewrite pretty_N_go_step by lia.
    etransitivity; [apply IH|].
    + apply N.Div0.div_lt_upper_bound. rewrite Nat2N.inj_succ, N.pow_succ_r' in Hx. lia.
    + rewrite lit_String, byte_len_cons, digit_len. lia.
Qed.

Lemma show_N_len n k : (n < 10 ^ N.of_nat (S k))%N -> (byte_len (show_N n) <= N.of_nat (S k))%N.
Proof.
  intros Hn. unfold show_N. unfold pretty, pretty_N. case_decide; [change (byte_len (lit "0")) with 1%N; lia|].
  etransitivity; [by apply (pretty_go_len (S k))|]. change (byte_len (lit "")) with 0%N. lia.
Qed.

Lemma show_N_len_19 n : (n < 10000000000000000000)%N -> (byte_len (show_N n) <= 19)%N.
Proof. intros Hn. exact (show_N_len n 18 Hn). Qed.

Lemma show_Z_len z : (- 2 ^ 63 <= z < 2 ^ 63)%Z -> (byte_len (show_Z z) <= 20)%N.
Proof.
  change (2 ^ 63)%Z with 9223372036854775808%Z. intros Hz. unfold show_Z. destruct (Z.ltb_spec z 0).
  - rewrite byte_len_app. assert (byte_len (lit "-") = 1%N) as -> by reflexivity.
    pose proof (show_N_len_19 (Z.to_N (- z)) ltac:(lia)). lia.
  - pose proof (show_N_len_19 (Z.to_N z) ltac:(lia)). lia.
Qed.

(** ** A concrete JSON

    Enough of it for concrete inputs: texts without characters to escape. *)
Inductive Tree := TNull | TBool (b : bool) | TInt (z : Z) | TStr (s : text) | TObj (fields : list (text * Tree)).

Fixpoint field_of (fields : list (text * Tree)) (key : text) : option Tree :=
  match fields with
  | [] => None
  | (k, v) :: rest => if text_eqb k key then Some v else field_of rest key
  end.
Definition in_range (z : Z) : bool := ((- 2 ^ 63 <=? z) && (z <? 2 ^ 63))%Z.

#[export] Instance Tree_json : JsonValue Tree := {|
  json_get v key := match v with TObj fields => field_of fields key | _ => None end;
  json_is_object v := match v with TObj _ => true | _ => false end;
  json_as_str v := match v with TStr s => Some s | _ => None end;
  json_as_bool v := match v with TBool b => Some b | _ => None end;
  json_as_u64 v := match v with TInt z => if (z <? 0)%Z then None else Some (Z.to_N z) | _ => None end;
  json_as_i64 v := match v with TInt z => if in_range z then Some z else None | _ => None end;
  json_null := TNull;
  json_is_null v := match v with TNull => true | _ => false end;
  json_quote s := [34%N] ++ s ++ [34%N]
|}.
#[export] Instance Tree_laws : JsonLaws Tree.
Proof.
  split.
  - intros []; split; intros E; first [reflexivity|discriminate E].
  - intros [|b|z|s|fs] z'; cbn [json_as_i64 Tree_json]; try discriminate. destruct (in_range z) eqn:E; [|discriminate].
    intros [= <-]. unfold in_range in E. apply andb_true_iff in E as [E1%Z.leb_le E2%Z.ltb_lt]. lia.
  - reflexivity.
Qed.
