(* ===== verification/ToolOutput.v ===== *)
(** * What the model sees of a tool's output (src/src/agent/context_manager.rs, [model_visible_tool_output])

    A successful output is passed on whole, followed by notes about truncation, the page that was
    read or the sandbox; a tool that did not succeed is summed up in a header and a bounded excerpt. *)
From S2P Require Import Prelude.
From S2P Require Import Text.
From S2P Require Import Utf8.
From S2P Require Import Truncate.
From S2P Require Import Json.

Open Scope N_scope.

Inductive ToolLifecycleStatus := Pending | Running | Completed | Declined | Cancelled | Failed.
#[export] Instance ToolLifecycleStatus_eq_dec : EqDecision ToolLifecycleStatus.
Proof. solve_decision. Defined.

Inductive ShellSandboxFailureHint := WorkspaceWriteEffectTempAccessDenied.

Definition WORKSPACE_WRITE_EFFECT_TEMP_ACCESS_DENIED_NOTE : text :=
  lit "Sandbox note: this workspace-write run matched the known protected effect-TEMP access-denied signature. No retry occurred. If this exact command is required and the workspace is trusted, issue a new shell call with sandbox_permissions=require_escalated and concise justification; do not change project files solely to bypass this sandbox restriction.".
Definition MODEL_VISIBLE_NON_SUCCESS_MAX_BYTES : N := 2048.
Definition MODEL_VISIBLE_SANDBOX_AUDIT_MAX_BYTES : N := 512.
Definition SHELL_SANDBOX_PLAN_LABEL : text := lit "Sandbox plan (host audit): ".
Definition TOOL_EVIDENCE_LABEL : text := [LF; LF] ++ lit "Tool evidence (bounded; canonical result unchanged):" ++ [LF].
Definition TOOL_EVIDENCE_OMISSION_MARKER : text := [LF] ++ lit "[... tool evidence omitted ...]" ++ [LF].

Definition tool_lifecycle_status_label (status : ToolLifecycleStatus) : text :=
  match status with
  | Pending => lit "pending"
  | Running => lit "running"
  | Completed => lit "completed"
  | Declined => lit "declined"
  | Cancelled => lit "cancelled"
  | Failed => lit "failed"
  end.

Definition append_model_visible_lines (output_text : text) (lines : list text) : text :=
  if is_empty lines then output_text
  else output_text ++ (if is_empty output_text then [] else [LF; LF]) ++ join [LF] lines.

Section Output.
Context {V : Type} `{JsonValue V}.

(** Deserializing the hint is generated code. *)
Context (hint_from_value : V -> option ShellSandboxFailureHint).

(** The loop that halves the budget until the quoted audit fits. *)
Fixpoint quote_audit (fuel : nat) (audit : text) (audit_budget : N) : option text :=
  match fuel with
  | O => None
  | S fuel =>
    match clip_text_with_ellipsis audit audit_budget with
    | None => None
    | Some clipped_audit =>
      let quoted := json_quote clipped_audit in
      if byte_len quoted <=? MODEL_VISIBLE_SANDBOX_AUDIT_MAX_BYTES then Some quoted
      else quote_audit fuel audit (audit_budget / 2)
    end
  end.

(** 510, 255, 127, ..., 1, 0: the tenth budget is empty. *)
Definition AUDIT_FUEL : nat := 10.

(** The outer option is a panic. *)
Definition model_visible_shell_sandbox_plan_line (tool_name : text) (tool_metadata : V) : option (option text) :=
  if negb (text_eqb tool_name (lit "shell")) then Some None
  else
    match json_field json_as_str tool_metadata "sandbox" with
    | None => Some None
    | Some audit =>
      if is_empty (trim audit) then Some None
      else
        match quote_audit AUDIT_FUEL audit (MODEL_VISIBLE_SANDBOX_AUDIT_MAX_BYTES - 2) with
        | None => None
        | Some quoted_audit =>
          Some (Some (SHELL_SANDBOX_PLAN_LABEL ++ quoted_audit ++
            match json_field json_as_bool tool_metadata "effect_started" with
            | Some effect_started => lit "; effect_started: " ++ show_bool effect_started
            | None => []
            end))
        end
    end.

Fixpoint first_flag (fields : list (string * text)) (tool_metadata : V) : option text :=
  match fields with
  | [] => None
  | (field, kind) :: rest => if json_flag tool_metadata field then Some kind else first_flag rest tool_metadata
  end.

Definition model_visible_non_success_kind (tool_name : text) (status : ToolLifecycleStatus) (tool_metadata : V)
    (sandbox_failure_hint : option ShellSandboxFailureHint) : option text :=
  if decide (status = Declined) then Some (lit "permission_declined")
  else
    let shell :=
      if negb (text_eqb tool_name (lit "shell")) then None
      else
        match sandbox_failure_hint with
        | Some WorkspaceWriteEffectTempAccessDenied => Some (lit "workspace_write_effect_temp_access_denied")
        | None =>
          match first_flag [("timeout"%string, lit "process_timeout"); ("cancelled"%string, lit "process_cancelled");
                            ("cleanup_failed"%string, lit "process_cleanup_failed")] tool_metadata with
          | Some kind => Some kind
          | None =>
            match json_field json_as_i64 tool_metadata "exit_code" with
            | Some exit_code => if Z.eqb exit_code 0 then None else Some (lit "process_exit_nonzero")
            | None => None
            end
          end
        end in
    match shell with
    | Some kind => Some kind
    | None =>
      if json_flag tool_metadata "no_content_change" then Some (lit "no_content_change")
      else if decide (status = Failed) then Some (lit "tool_execution_failed")
      else if bool_decide (status = Completed) && bool_decide (json_field json_as_bool tool_metadata "success" = Some false)
      then Some (lit "tool_reported_non_success")
      else None
    end.

Definition preview_lines (tool_metadata : V) : list text :=
  omap (fun '(field, label) => if json_flag tool_metadata field then Some (lit label ++ lit ": true") else None)
    [("truncated", "preview_truncated"); ("stdout_capture_truncated", "stdout_capture_truncated");
     ("stderr_capture_truncated", "stderr_capture_truncated")]%string.

Definition non_success_header (clipped_tool_name : text) (status : ToolLifecycleStatus) (kind : text) (plan_line : option text)
    (tool_metadata : V) : text :=
  join [LF]
    ([lit "Tool outcome (host projection): non-success";
      lit "tool: " ++ clipped_tool_name;
      lit "lifecycle_status: " ++ tool_lifecycle_status_label status;
      lit "kind: " ++ kind;
      lit "automatic_retry: false"]
     ++ match json_field json_as_i64 tool_metadata "exit_code" with
        | Some exit_code => [lit "exit_code: " ++ show_Z exit_code]
        | None => []
        end
     ++ match plan_line with Some line => [line] | None => [] end
     ++ preview_lines tool_metadata
     ++ (if text_eqb kind (lit "workspace_write_effect_temp_access_denied")
         then [lit "guidance: " ++ WORKSPACE_WRITE_EFFECT_TEMP_ACCESS_DENIED_NOTE] else [])).

(** [None] is a panic. *)
Definition bounded_model_visible_non_success_output (tool_name : text) (status : ToolLifecycleStatus) (kind : text)
    (output_text : text) (tool_metadata : V) : option text :=
  match clip_text_with_ellipsis (json_quote tool_name) 256, model_visible_shell_sandbox_plan_line tool_name tool_metadata with
  | Some clipped_tool_name, Some plan_line =>
    let header := non_success_header clipped_tool_name status kind plan_line tool_metadata in
    if is_empty output_text then clip_text_with_ellipsis header MODEL_VISIBLE_NON_SUCCESS_MAX_BYTES
    else
      let prefix := header ++ TOOL_EVIDENCE_LABEL in
      if MODEL_VISIBLE_NON_SUCCESS_MAX_BYTES <=? byte_len prefix
      then clip_text_with_ellipsis prefix MODEL_VISIBLE_NON_SUCCESS_MAX_BYTES
      else
        match clip_text_head_tail_with_marker output_text (MODEL_VISIBLE_NON_SUCCESS_MAX_BYTES - byte_len prefix)
                TOOL_EVIDENCE_OMISSION_MARKER with
        | Some evidence => Some (prefix ++ evidence)
        | None => None
        end
  | _, _ => None
  end.

Definition TRUNCATED_WARNING : text := lit "Warning: truncated output.".

(** The notes after a [read]. *)
Definition read_notes (tool_metadata : V) (output_truncated : bool) : list text :=
  let total_lines := json_field json_as_u64 tool_metadata "total_lines" in
  let next_offset := json_field json_as_u64 tool_metadata "next_offset" in
  let is_line_page := bool_decide (json_field json_as_str tool_metadata "truncation_kind" = Some (lit "line_page")) in
  match output_truncated && is_line_page, total_lines, next_offset with
  | true, Some total_lines, Some next_offset =>
    match json_field json_as_u64 tool_metadata "end_line", json_field json_as_u64 tool_metadata "requested_end_line" with
    | Some end_line, Some requested_end_line =>
      if requested_end_line <=? end_line
      then [lit "Requested line range fully returned. File total lines: " ++ show_N total_lines ++
              lit "; additional lines are outside this request."]
      else [TRUNCATED_WARNING;
            lit "Requested line range incomplete. File total lines: " ++ show_N total_lines ++
              lit ". Remaining requested lines can be read using `offset`: " ++ show_N next_offset ++ lit ", `limit`: " ++
              show_N (requested_end_line - end_line) ++ lit "."]
    | _, _ =>
      [TRUNCATED_WARNING;
       lit "Total output lines: " ++ show_N total_lines ++ lit ". Continue with `read` using `offset`: " ++ show_N next_offset ++ lit "."]
    end
  | _, _, _ => if output_truncated then [TRUNCATED_WARNING] else []
  end.

Definition is_listing (tool_name : text) : bool :=
  existsb (text_eqb tool_name) [lit "list"; lit "glob"; lit "grep"; lit "inspect_directory"].

(** The notes after a listing that was cut. *)
Definition listing_notes (tool_name : text) (tool_metadata : V) : list text :=
  TRUNCATED_WARNING ::
  match json_field json_as_str tool_metadata "continuation" with
  | Some cursor =>
    if is_empty cursor then []
    else [lit "Continue with `" ++ tool_name ++ lit "` using `cursor`: " ++ json_quote cursor ++ lit "."]
  | None => []
  end.

Definition tool_metadata_of (metadata : V) : V :=
  match json_get metadata (lit "tool_metadata") with
  | Some value => if json_is_object value then value else metadata
  | None => metadata
  end.

Definition non_success_of (tool_name : text) (status : ToolLifecycleStatus) (metadata : V) : option text :=
  let tool_metadata := tool_metadata_of metadata in
  model_visible_non_success_kind tool_name status tool_metadata
    (json_get tool_metadata (lit "sandbox_failure_hint") ≫= hint_from_value).

(** [None] is a panic. *)
Definition model_visible_tool_output (tool_name : text) (status : ToolLifecycleStatus) (output_text : text) (metadata : V)
    : option text :=
  let tool_metadata := tool_metadata_of metadata in
  match non_success_of tool_name status metadata with
  | Some kind => bounded_model_visible_non_success_output tool_name status kind output_text tool_metadata
  | None =>
    let output_truncated := json_flag tool_metadata "truncated" in
    if text_eqb tool_name (lit "read")
    then Some (append_model_visible_lines output_text (read_notes tool_metadata output_truncated))
    else if is_listing tool_name && output_truncated
    then Some (append_model_visible_lines output_text (listing_notes tool_name tool_metadata))
    else
      match model_visible_shell_sandbox_plan_line tool_name tool_metadata with
      | None => None
      | Some (Some line) => Some (append_model_visible_lines output_text [line])
      | Some None => Some output_text
      end
  end.
End Output.

Close Scope N_scope.

(** * Tool outputs shown to the model are bounded or whole *)

Open Scope N_scope.

Lemma clip_bound s max : exists e, clip_text_with_ellipsis s max = Some e /\ byte_len e <= max.
Proof. destruct (clips_within_limit s max []) as (e & h & He & _ & Hb & _). by exists e. Qed.

Lemma clip_marker_bound s max marker : exists h, clip_text_head_tail_with_marker s max marker = Some h /\ byte_len h <= max.
Proof. destruct (clips_within_limit s max marker) as (e & h & _ & Hh & _ & Hb & _). by exists h. Qed.

Lemma clip_whole s max : byte_len s <= max -> clip_text_with_ellipsis s max = Some s.
Proof. intros Hs. destruct (clips_within_limit s max []) as (e & h & He & _ & _ & _ & Hid & _). by destruct (Hid Hs) as [-> _]. Qed.

(** The bytes of joined lines, one more for each. *)
Definition lines_len (ls : list text) : N := sum_N (map (fun l => byte_len l + 1) ls).

Lemma join_len ls : byte_len (join [LF] ls) <= lines_len ls.
Proof.
  induction ls as [|l [|l' ls] IH]; [unfold lines_len; cbn; lia|unfold lines_len; cbn; lia|].
  change (join [LF] (l :: l' :: ls)) with (l ++ [LF] ++ join [LF] (l' :: ls)). rewrite !byte_len_app.
  change (lines_len (l :: l' :: ls)) with (byte_len l + 1 + lines_len (l' :: ls)). change (byte_len [LF]) with 1. lia.
Qed.

Lemma lines_len_app a b : lines_len (a ++ b) = lines_len a + lines_len b.
Proof. unfold lines_len. by rewrite map_app, sum_N_app. Qed.

(** Bytes of a concrete text. *)
Ltac text_len := rewrite ?byte_len_app; repeat match goal with |- context [byte_len (lit ?s)] =>
  let n := eval vm_compute in (byte_len (lit s)) in change (byte_len (lit s)) with n end.

Section Facts.
Context {V : Type} `{JsonLaws V} (hint_from_value : V -> option ShellSandboxFailureHint).
Implicit Types (tool output kind : text) (meta : V).


Lemma quote_audit_bound audit fuel budget : budget < 2 ^ N.of_nat fuel ->
  exists q, quote_audit (S fuel) audit budget = Some q /\ byte_len q <= 512.
Proof.
  revert budget. induction fuel as [|fuel IH]; intros budget Hb;
    (destruct (clip_bound audit budget) as (e & He & Hle));
    cbn [quote_audit]; rewrite He; cbv zeta; unfold MODEL_VISIBLE_SANDBOX_AUDIT_MAX_BYTES;
    (destruct (N.leb_spec (byte_len (json_quote e)) 512) as [Hq|Hq]; [by eexists|]).
  - exfalso. change (2 ^ N.of_nat 0) with 1 in Hb. assert (e = []) as -> by (apply byte_len_nil; lia).
    rewrite json_quote_empty in Hq. lia.
  - apply IH. apply N.Div0.div_lt_upper_bound. rewrite Nat2N.inj_succ, N.pow_succ_r' in Hb. lia.
Qed.

Lemma show_bool_len b : byte_len (show_bool b) <= 5.
Proof. destruct b; vm_compute; discriminate. Qed.

Lemma plan_line_bound tool meta : exists line, model_visible_shell_sandbox_plan_line tool meta = Some line /\
  match line with Some l => byte_len l <= 570 | None => True end.
Proof.
  unfold model_visible_shell_sandbox_plan_line. destruct (text_eqb _ _); cbn [negb]; [|by eexists].
  destruct (json_field _ _ _) as [audit|]; [|by eexists]. destruct (is_empty _); [by eexists|].
  destruct (quote_audit_bound audit 9 510 ltac:(vm_compute; done)) as (q & Eq & Hq).
  change (quote_audit AUDIT_FUEL audit (MODEL_VISIBLE_SANDBOX_AUDIT_MAX_BYTES - 2)) with (quote_audit 10 audit 510). rewrite Eq.
  eexists. split; [done|]. unfold SHELL_SANDBOX_PLAN_LABEL. destruct (json_field _ _ _) as [b|]; cbn beta iota; text_len.
  - pose proof (show_bool_len b). lia.
  - change (byte_len []) with 0. lia.
Qed.

Lemma status_label_len status : byte_len (tool_lifecycle_status_label status) <= 9.
Proof. destruct status; vm_compute; discriminate. Qed.

Lemma first_flag_len fields meta kind : Forall (fun f => byte_len (snd f) <= 41) fields ->
  first_flag fields meta = Some kind -> byte_len kind <= 41.
Proof.
  induction 1 as [|[field k] rest Hf _ IH]; cbn [first_flag]; [done|]. destruct (json_flag _ _); [by intros [= <-]|done].
Qed.

Lemma kind_len tool status meta hint kind : model_visible_non_success_kind tool status meta hint = Some kind -> byte_len kind <= 41.
Proof.
  unfold model_visible_non_success_kind. cbv zeta. set (shell := if negb _ then _ else _).
  assert (forall k, shell = Some k -> byte_len k <= 41) as Hshell.
  { unfold shell. intros k. destruct (negb _); [done|]. destruct hint as [[]|]; [intros [= <-]; vm_compute; discriminate|].
    destruct (first_flag _ _) as [k'|] eqn:Ef; [intros [= <-]; apply first_flag_len in Ef; [done|]; repeat constructor; vm_compute; discriminate|].
    destruct (json_field _ _ _); [|done]. destruct (Z.eqb _ _); [done|]. intros [= <-]. vm_compute. discriminate. }
  destruct (decide _); [intros [= <-]; vm_compute; discriminate|]. destruct shell as [k|]; [intros [= <-]; by apply Hshell|].
  repeat (case_match; try done); intros [= <-]; vm_compute; discriminate.
Qed.

Lemma preview_lines_len meta : lines_len (preview_lines meta) <= 88.
Proof. 
  unfold preview_lines. cbn [omap list_omap].
  destruct (json_flag meta "truncated"), (json_flag meta "stdout_capture_truncated"), (json_flag meta "stderr_capture_truncated");
    vm_compute; discriminate.
 Qed.

(** The header always fits, with the label of the evidence after it. *)
Lemma header_len tool status kind line meta : byte_len tool <= 256 -> byte_len kind <= 41 ->
  match line with Some l => byte_len l <= 570 | None => True end ->
  byte_len (non_success_header tool status kind line meta ++ TOOL_EVIDENCE_LABEL) < MODEL_VISIBLE_NON_SUCCESS_MAX_BYTES.
Proof.
  intros Ht Hk Hl. unfold MODEL_VISIBLE_NON_SUCCESS_MAX_BYTES. rewrite byte_len_app. unfold non_success_header.
  eapply N.le_lt_trans; [apply N.add_le_mono_r, join_len|]. rewrite !lines_len_app.
  pose proof (preview_lines_len meta) as Hp. pose proof (status_label_len status) as Hs.
  assert (lines_len (match json_field json_as_i64 meta "exit_code" with Some z => [lit "exit_code: " ++ show_Z z] | None => [] end) <= 40) as He.
  { destruct (json_field json_as_i64 meta "exit_code") as [z|] eqn:E; [|vm_compute; discriminate].
    unfold json_field in E. apply bind_Some in E as (v & _ & Ev). apply json_i64_range, show_Z_len in Ev.
    unfold lines_len; cbn [map sum_N fold_right]. text_len. lia. }
  assert (lines_len (match line with Some l => [l] | None => [] end) <= 571) as Hline
    by (unfold lines_len; destruct line; cbn [map sum_N fold_right]; lia).
  assert (lines_len (if text_eqb kind (lit "workspace_write_effect_temp_access_denied")
    then [lit "guidance: " ++ WORKSPACE_WRITE_EFFECT_TEMP_ACCESS_DENIED_NOTE] else []) <= 400) as Hg
    by (destruct (text_eqb _ _); vm_compute; discriminate).
  change (byte_len TOOL_EVIDENCE_LABEL) with (ltac:(let n := eval vm_compute in (byte_len TOOL_EVIDENCE_LABEL) in exact n)).
  assert (lines_len [lit "Tool outcome (host projection): non-success"; lit "tool: " ++ tool;
    lit "lifecycle_status: " ++ tool_lifecycle_status_label status; lit "kind: " ++ kind; lit "automatic_retry: false"] <= 420) as Hh
    by (unfold lines_len; cbn [map sum_N fold_right]; text_len; lia).
  lia.
Qed.

Lemma append_lines_prefix output lines : exists notes, append_model_visible_lines output lines = output ++ notes.
Proof. unfold append_model_visible_lines. destruct (is_empty lines); [exists []; by rewrite app_nil_r|by eexists]. Qed.

Lemma tool_output_summary tool status output meta :
  exists out, model_visible_tool_output hint_from_value tool status output meta = Some out /\
  match non_success_of hint_from_value tool status meta with
  | Some kind => byte_len out <= MODEL_VISIBLE_NON_SUCCESS_MAX_BYTES /\
      exists name line evidence, clip_text_with_ellipsis (json_quote tool) 256 = Some name /\
        model_visible_shell_sandbox_plan_line tool (tool_metadata_of meta) = Some line /\
        out = non_success_header name status kind line (tool_metadata_of meta) ++
              (if is_empty output then [] else TOOL_EVIDENCE_LABEL ++ evidence)
  | None => exists notes, out = output ++ notes
  end.
Proof.
  unfold model_visible_tool_output. cbv zeta. destruct (plan_line_bound tool (tool_metadata_of meta)) as (line & El & Hl).
  destruct (non_success_of _ _ _ _) as [kind|] eqn:Ek.
  - unfold bounded_model_visible_non_success_output. destruct (clip_bound (json_quote tool) 256) as (name & En & Hn). rewrite En, El.
    pose proof (header_len name status kind line (tool_metadata_of meta) Hn (kind_len _ _ _ _ _ Ek) Hl) as Hh.
    set (header := non_success_header _ _ _ _ _) in *. cbv zeta. destruct (is_empty output) eqn:Eo.
    + rewrite clip_whole by (rewrite byte_len_app in Hh; lia). exists header. split; [done|].
      split; [rewrite byte_len_app in Hh; lia|]. exists name, line, []. by rewrite app_nil_r.
    + rewrite (proj2 (N.leb_gt _ _) Hh).
      destruct (clip_marker_bound output (MODEL_VISIBLE_NON_SUCCESS_MAX_BYTES - byte_len (header ++ TOOL_EVIDENCE_LABEL)) TOOL_EVIDENCE_OMISSION_MARKER)
        as (evidence & Ee & Hb). rewrite Ee. eexists. split; [done|]. split; [rewrite byte_len_app; lia|].
      exists name, line, evidence. by rewrite <- app_assoc.
  - destruct (text_eqb tool _); [eexists; split; [done|apply append_lines_prefix]|].
    destruct (is_listing tool && _); [eexists; split; [done|apply append_lines_prefix]|]. rewrite El.
    destruct line; (eexists; split; [done|]); [apply append_lines_prefix|exists []; by rewrite app_nil_r].
Qed.

(** Whatever the tool, the output and its metadata, the model is shown something.  A tool that did not
    succeed is shown in at most 2048 bytes that begin with the whole header - its outcome, status, kind,
    exit code and sandbox plan are never cut away - followed by an excerpt of the output when there was
    any; the output of a successful tool is shown whole, with notes only after it. *)
Theorem tool_outputs_are_whole_or_summarised tool status output meta :
  exists out, model_visible_tool_output hint_from_value tool status output meta = Some out /\
  match non_success_of hint_from_value tool status meta with
  | Some kind => byte_len out <= MODEL_VISIBLE_NON_SUCCESS_MAX_BYTES /\
      exists name line evidence, clip_text_with_ellipsis (json_quote tool) 256 = Some name /\
        model_visible_shell_sandbox_plan_line tool (tool_metadata_of meta) = Some line /\
        out = non_success_header name status kind line (tool_metadata_of meta) ++
              (if is_empty output then [] else TOOL_EVIDENCE_LABEL ++ evidence)
  | None => exists notes, out = output ++ notes
  end.
Proof. apply tool_output_summary. Qed.
End Facts.

Definition demo_metadata : Tree := TObj [(lit "exit_code", TInt 2); (lit "sandbox", TStr (lit "workspace-write"))].

Lemma tool_outputs_are_whole_or_summarised_witness :
  exists out, model_visible_tool_output (V := Tree) (fun _ => None) (lit "shell") Completed (lit "boom") demo_metadata = Some out /\
    byte_len out <= 2048.
Proof.
  destruct (tool_outputs_are_whole_or_summarised (V := Tree) (fun _ => None) (lit "shell") Completed (lit "boom") demo_metadata)
    as (out & E & F). exists out. split; [exact E|].
  assert (non_success_of (V := Tree) (fun _ => None) (lit "shell") Completed demo_metadata = Some (lit "process_exit_nonzero")) as K by (vm_compute; reflexivity).
  rewrite K in F. exact (proj1 F).
Defined.
Close Scope N_scope.
