(* ===== verification/ClmCheckpoint.v ===== *)
(** * Replay checkpoints (src/src/protocol/clm_checkpoint.rs)

    A persisted list of model messages with the metadata of its tool messages kept apart.  A
    checkpoint is valid when its tool calls form complete groups; only such a checkpoint is ever
    built, loaded or replayed. *)
From S2P Require Import Prelude.
From S2P Require Import Text.
From S2P Require Import Json.
From S2P Require Import ContextWindow.

Open Scope nat_scope.

Section Checkpoint.
Context {V : Type} `{JsonValue V}.
Abbreviation Message := (ModelMessage V) (only parsing).

(** ** Data *)

Record ClmCheckpoint := {
  version : N;
  checkpoint_messages : list (ModelMessage V);
  tool_metadata : gmap nat V;
  protected_prefix_len : nat
}.

(** ** Validation *)

(** [for call in tool_calls]; [None] is a call that is invalid or a duplicate. *)
Fixpoint insert_calls (tool_calls : list ModelToolCall) (pending : gmap text text) : option (gmap text text) :=
  match tool_calls with
  | [] => Some pending
  | call :: rest =>
    if is_empty (call_id call) || is_empty (tool_name call) || bool_decide (is_Some (pending !! call_id call)) then None
    else insert_calls rest (<[call_id call := tool_name call]> pending)
  end.

Definition validate_message (message : Message) (pending : gmap text text) : result (gmap text text) text :=
  match message with
  | SystemMessage _ | DeveloperMessage _ => Err (lit "CLM checkpoint cannot contain system or developer instructions")
  | AssistantToolCalls _ tool_calls _ =>
    if bool_decide (pending <> ∅) || is_empty tool_calls then Err (lit "CLM checkpoint contains an incomplete tool call group")
    else
      match insert_calls tool_calls pending with
      | Some pending => Ok pending
      | None => Err (lit "CLM checkpoint contains invalid or duplicate tool calls")
      end
  | ToolMessage call_id tool_name _ _ =>
    if bool_decide (pending !! call_id <> Some tool_name) then Err (lit "CLM checkpoint tool output does not match its call")
    else Ok (delete call_id pending)
  | _ => if bool_decide (pending <> ∅) then Err (lit "CLM checkpoint interrupts a native tool call group") else Ok pending
  end.

Fixpoint validate_messages (messages : list Message) (pending : gmap text text) : result (gmap text text) text :=
  match messages with
  | [] => Ok pending
  | message :: rest => let? pending := validate_message message pending in validate_messages rest pending
  end.

Definition is_tool (message : Message) : bool := match message with ToolMessage _ _ _ _ => true | _ => false end.

Definition addresses_tool (messages : list Message) (index : nat) : bool :=
  match messages !! index with Some message => is_tool message | None => false end.

Definition validate (c : ClmCheckpoint) : result unit text :=
  if bool_decide (version c <> 1%N) then Err (lit "unsupported CLM checkpoint version")
  else if is_empty (checkpoint_messages c) || (length (checkpoint_messages c) <? protected_prefix_len c)
  then Err (lit "CLM checkpoint has an invalid protected prefix")
  else if negb (forallb (fun e => addresses_tool (checkpoint_messages c) (fst e)) (map_to_list (tool_metadata c)))
  then Err (lit "CLM checkpoint metadata must address a tool message")
  else
    let? pending := validate_messages (checkpoint_messages c) ∅ in
    if bool_decide (pending <> ∅) then Err (lit "CLM checkpoint contains unsettled tool calls") else Ok tt.

(** ** Building and replaying *)

(** [std::mem::take] leaves [Null]. *)
Fixpoint take_metadata (index : nat) (messages : list Message) : list Message * gmap nat V :=
  match messages with
  | [] => ([], ∅)
  | message :: rest =>
    let '(messages, metadata) := take_metadata (S index) rest in
    match message with
    | ToolMessage call_id tool_name result value =>
      if json_is_null value then (message :: messages, metadata)
      else (ToolMessage call_id tool_name result json_null :: messages, <[index := value]> metadata)
    | _ => (message :: messages, metadata)
    end
  end.

Definition from_messages (messages : list Message) (protected_prefix_len : nat) : result ClmCheckpoint text :=
  let '(messages, metadata) := take_metadata 0 messages in
  let checkpoint := {| version := 1; checkpoint_messages := messages; tool_metadata := metadata;
                       protected_prefix_len := protected_prefix_len |} in
  let? _ := validate checkpoint in Ok checkpoint.

Definition with_metadata (metadata : gmap nat V) (index : nat) (message : Message) : Message :=
  match metadata !! index, message with
  | Some value, ToolMessage call_id tool_name result _ => ToolMessage call_id tool_name result value
  | _, _ => message
  end.

Definition messages_of (c : ClmCheckpoint) : result (list Message) text :=
  let? _ := validate c in Ok (imap (with_metadata (tool_metadata c)) (checkpoint_messages c)).

(** ** Complete groups of tool calls *)

Definition valid_call (call : ModelToolCall) : Prop := call_id call <> [] /\ tool_name call <> [].
Definition call_key (call : ModelToolCall) : text * text := (call_id call, tool_name call).
Definition output_key (message : Message) : option (text * text) :=
  match message with ToolMessage call_id tool_name _ _ => Some (call_id, tool_name) | _ => None end.

Definition is_plain (message : Message) : Prop :=
  match message with
  | SystemMessage _ | DeveloperMessage _ | AssistantToolCalls _ _ _ | ToolMessage _ _ _ _ => False
  | _ => True
  end.

(** Plain messages, and groups of distinct calls followed by exactly their outputs in any order. *)
Inductive grouped : list Message -> Prop :=
  | grouped_nil : grouped []
  | grouped_plain message rest : is_plain message -> grouped rest -> grouped (message :: rest)
  | grouped_group content calls continuation outputs rest :
      calls <> [] -> Forall valid_call calls -> NoDup (call_id <$> calls) ->
      (exists keys, output_key <$> outputs = Some <$> keys /\ keys ≡ₚ call_key <$> calls) -> grouped rest ->
      grouped (AssistantToolCalls content calls continuation :: outputs ++ rest).

(** While [pending] is open: its outputs, then groups. *)
Definition answers (pending : gmap text text) (messages : list Message) : Prop :=
  exists outputs rest keys, messages = outputs ++ rest /\ output_key <$> outputs = Some <$> keys /\
    keys ≡ₚ map_to_list pending /\ grouped rest.

Lemma answers_empty messages : answers ∅ messages <-> grouped messages.
Proof.
  split.
  - intros (outputs & rest & keys & -> & Hk & Hp & Hg). rewrite map_to_list_empty in Hp. apply Permutation_nil_r in Hp. subst.
    by destruct outputs.
  - intros Hg. exists [], messages, []. by rewrite map_to_list_empty.
Qed.

Lemma move_call (c : ModelToolCall) (calls : list ModelToolCall) (pending : gmap text text) : call_id c ∉ call_id <$> calls ->
  list_to_map (call_key <$> calls) ∪ <[call_id c := tool_name c]> pending =
  <[call_id c := tool_name c]> (list_to_map (call_key <$> calls)) ∪ pending.
Proof.
  intros Hc. rewrite <- insert_union_r, insert_union_l; [done|]. apply not_elem_of_list_to_map. by rewrite <- list_fmap_compose.
Qed.

Lemma insert_calls_spec calls pending pending' : insert_calls calls pending = Some pending' <->
  Forall valid_call calls /\ NoDup (call_id <$> calls) /\ (forall c, c ∈ calls -> pending !! call_id c = None) /\
  pending' = list_to_map (call_key <$> calls) ∪ pending.
Proof.
  revert pending. induction calls as [|c calls IH]; intros pending; cbn [insert_calls].
  - change (list_to_map (call_key <$> [])) with (∅ : gmap text text). rewrite map_empty_union. split; [intros [= <-]|intros (_ & _ & _ & ->); done].
    split_and!; try done; [constructor|]. intros c Hc. by apply elem_of_nil in Hc.
  - destruct (is_empty (call_id c)) eqn:E1; cbn [orb].
    { split; [done|]. intros ([[Hv _] _]%Forall_cons & _). destruct (call_id c); done. }
    destruct (is_empty (tool_name c)) eqn:E2; cbn [orb].
    { split; [done|]. intros ([[_ Hv] _]%Forall_cons & _). destruct (tool_name c); done. }
    case_bool_decide as E3.
    { split; [done|]. intros (_ & _ & Hn & _). specialize (Hn c ltac:(by left)). rewrite Hn in E3. by destruct E3. }
    apply eq_None_not_Some in E3. rewrite IH, fmap_cons, NoDup_cons, Forall_cons. cbn [list_to_map fmap list_fmap foldr call_key].
    assert (valid_call c) as Hv by (split; [by destruct (call_id c)|by destruct (tool_name c)]).
    assert (NoDup (call_id <$> calls) -> (forall c', c' ∈ calls -> <[call_id c := tool_name c]> pending !! call_id c' = None) ->
      call_id c ∉ call_id <$> calls) as Hnew.
    { intros _ Hn (c' & Ec & Hc')%list_elem_of_fmap. specialize (Hn c' Hc'). by rewrite <- Ec, lookup_insert_eq in Hn. }
    split.
    + intros (Hf & Hnd & Hn & ->). split_and!; try done; [by apply Hnew| |].
      * intros c' [->|Hc']%elem_of_cons; [done|]. specialize (Hn c' Hc'). apply lookup_insert_None in Hn. tauto.
      * apply move_call. by apply Hnew.
    + intros ((_ & Hf) & (Hni & Hnd) & Hn & ->). split_and!; try done.
      * intros c' Hc'. apply lookup_insert_None. split; [apply Hn; by right|]. intros E. apply Hni. apply list_elem_of_fmap. by exists c'.
      * symmetry. by apply move_call.
Qed.

Lemma grouped_inv message rest : grouped (message :: rest) ->
  match message with
  | AssistantToolCalls _ calls _ => calls <> [] /\ Forall valid_call calls /\ NoDup (call_id <$> calls) /\
      exists outputs rest', rest = outputs ++ rest' /\ (exists keys, output_key <$> outputs = Some <$> keys /\ keys ≡ₚ call_key <$> calls) /\ grouped rest'
  | SystemMessage _ | DeveloperMessage _ | ToolMessage _ _ _ _ => False
  | _ => grouped rest
  end.
Proof. intros Hg. inversion Hg; subst; [by destruct message|]. split_and!; try done. by eexists _, _. Qed.

(** The first message while calls are pending. *)
Lemma answers_inv pending message rest : answers pending (message :: rest) ->
  match output_key message with
  | Some (call_id, tool_name) => pending !! call_id = Some tool_name /\ answers (delete call_id pending) rest
  | None => pending = ∅ /\ grouped (message :: rest)
  end.
Proof.
  intros ([|o outputs] & tail & keys & E & Hk & Hp & Hg); cbn [app] in E.
  - destruct keys; [|done]. apply Permutation_nil in Hp. apply map_to_list_empty_iff in Hp. subst.
    pose proof (grouped_inv _ _ Hg). by destruct message.
  - injection E as -> ->. destruct keys as [|[id name] keys]; [done|]. injection Hk as -> Hk.
    assert (pending !! id = Some name) as Hin by (apply elem_of_map_to_list; rewrite <- Hp; by left). split; [done|].
    exists outputs, tail, keys. split_and!; try done. apply (Permutation_cons_inv (a := (id, name))). by rewrite map_to_list_delete.
Qed.

Lemma answers_tool pending call_id tool_name result metadata rest : pending !! call_id = Some tool_name ->
  answers (delete call_id pending) rest -> answers pending (ToolMessage call_id tool_name result metadata :: rest).
Proof.
  intros Hp (outputs & tail & keys & -> & Hk & Hperm & Hg).
  exists (ToolMessage call_id tool_name result metadata :: outputs), tail, ((call_id, tool_name) :: keys).
  split_and!; [done|by cbn; rewrite <- Hk| |done]. by rewrite Hperm, map_to_list_delete.
Qed.

Lemma pending_of_calls (calls : list ModelToolCall) : NoDup (call_id <$> calls) ->
  map_to_list (list_to_map (call_key <$> calls) ∪ ∅ : gmap text text) ≡ₚ call_key <$> calls.
Proof. intros Hn. rewrite map_union_empty. apply map_to_list_to_map. by rewrite <- list_fmap_compose. Qed.

Lemma answers_group content calls continuation rest : calls <> [] -> Forall valid_call calls -> NoDup (call_id <$> calls) ->
  answers (list_to_map (call_key <$> calls) ∪ ∅) rest <-> grouped (AssistantToolCalls content calls continuation :: rest).
Proof.
  intros Hne Hv Hn. split.
  - intros (outputs & tail & keys & -> & Hk & Hp & Hg). apply grouped_group; try done. exists keys. split; [done|]. by rewrite Hp, pending_of_calls.
  - intros (_ & _ & _ & outputs & tail & -> & (keys & Hk & Hp) & Hg)%grouped_inv. exists outputs, tail, keys.
    split_and!; try done. by rewrite Hp, pending_of_calls.
Qed.

Lemma validate_messages_spec messages pending : validate_messages messages pending = Ok ∅ <-> answers pending messages.
Proof.
  revert pending. induction messages as [|message rest IH]; intros pending; cbn [validate_messages].
  - split; [intros [= ->]; apply (proj2 (answers_empty [])); constructor|]. intros (outputs & tail & keys & E & Hk & Hp & _).
    symmetry in E. apply app_nil in E as [-> ->]. destruct keys; [|done]. apply Permutation_nil in Hp. apply map_to_list_empty_iff in Hp.
    by subst.
  - assert (output_key message = None -> pending <> ∅ -> ~ answers pending (message :: rest)) as Hopen
      by (intros Ho Hp Ha; apply answers_inv in Ha; rewrite Ho in Ha; by destruct Ha).
    assert (is_plain message -> validate_message message pending =
      (if bool_decide (pending <> ∅) then Err (lit "CLM checkpoint interrupts a native tool call group") else Ok pending) ->
      (and_then (validate_message message pending) (validate_messages rest) = Ok ∅ <-> answers pending (message :: rest))) as Hplain.
    { intros Hpl ->. assert (output_key message = None) as Ho by (by destruct message). case_bool_decide as Hp; cbn [and_then].
      - split; [done|]. by intros F%Hopen.
      - assert (pending = ∅) as -> by (by destruct (decide (pending = ∅))). rewrite IH, !answers_empty. split; [by constructor|].
        intros Hg%grouped_inv. by destruct message. }
    destruct message; try (by apply Hplain); clear Hplain; cbn [validate_message and_then].
    + split; [done|]. intros Ha%answers_inv. cbn in Ha. destruct Ha as [_ Hg]. by apply grouped_inv in Hg.
    + split; [done|]. intros Ha%answers_inv. cbn in Ha. destruct Ha as [_ Hg]. by apply grouped_inv in Hg.
    + case_bool_decide as Hp; cbn [orb and_then]; [split; [done|by intros F%Hopen]|].
      assert (pending = ∅) as -> by (by destruct (decide (pending = ∅))). rewrite answers_empty.
      destruct (is_empty tool_calls) eqn:Ee; cbn [and_then].
      { split; [done|]. intros (Hne & _)%grouped_inv. by destruct tool_calls. }
      assert (tool_calls <> []) as Hne by (by intros ->).
      destruct (insert_calls tool_calls ∅) as [p|] eqn:Ei; cbn [and_then].
      * apply insert_calls_spec in Ei as (Hv & Hn & _ & ->). rewrite IH. by apply answers_group.
      * split; [done|]. intros (_ & Hv & Hn & _)%grouped_inv.
        assert (insert_calls tool_calls ∅ = Some (list_to_map (call_key <$> tool_calls) ∪ ∅)) as F
          by (apply insert_calls_spec; split_and!; try done; intros; apply lookup_empty). by rewrite F in Ei.
    + case_bool_decide as Hp; cbn [and_then].
      * split; [done|]. intros Ha%answers_inv. cbn in Ha. by destruct Ha.
      * assert (pending !! call_id = Some tool_name) as Hs by (by destruct (decide (pending !! call_id = Some tool_name))).
        rewrite IH. split; [by apply answers_tool|]. intros Ha%answers_inv. cbn in Ha. by destruct Ha.
Qed.

(** Metadata that addresses tool messages only. *)
Definition addressed (messages : list Message) (metadata : gmap nat V) : Prop :=
  forall index, is_Some (metadata !! index) -> addresses_tool messages index = true.

Lemma validate_spec c : validate c = Ok tt <->
  version c = 1%N /\ checkpoint_messages c <> [] /\ protected_prefix_len c <= length (checkpoint_messages c) /\
  addressed (checkpoint_messages c) (tool_metadata c) /\ grouped (checkpoint_messages c).
Proof.
  unfold validate. case_bool_decide as E1; [split; [done|by intros (? & _)]|].
  assert (version c = 1%N) as Hv by (by destruct (decide (version c = 1%N))).
  destruct (is_empty (checkpoint_messages c)) eqn:E2; cbn [orb]; [split; [done|by intros (_ & F & _); destruct (checkpoint_messages c)]|].
  destruct (Nat.ltb_spec (length (checkpoint_messages c)) (protected_prefix_len c)) as [E3|E3]; [split; [done|intros (_ & _ & F & _); lia]|].
  destruct (forallb _ _) eqn:E4; cbn [negb].
  - assert (addressed (checkpoint_messages c) (tool_metadata c)) as Ha.
    { intros index [v Hi%elem_of_map_to_list]. rewrite forallb_forall in E4. apply list_elem_of_In in Hi. exact (E4 _ Hi). }
    rewrite <- answers_empty, <- validate_messages_spec. destruct (validate_messages _ _) as [p|e]; cbn [and_then].
    + case_bool_decide as Hp; [split; [done|intros (_ & _ & _ & _ & F); congruence]|].
      assert (p = ∅) as -> by (by destruct (decide (p = ∅))). split; [|done]. intros _. split_and!; try done. intros F. by rewrite F in E2.
    + split; [done|]. intros (_ & _ & _ & _ & F). done.
  - split; [done|]. intros (_ & _ & _ & Ha & _). exfalso. apply not_true_iff_false in E4. apply E4. apply forallb_forall.
    intros [index v] Hi%list_elem_of_In%elem_of_map_to_list. apply Ha. by eexists.
Qed.

(** A checkpoint is accepted exactly when it has the supported version, some messages, a protected prefix
    inside them, metadata of tool messages only, no system or developer instructions, and tool calls
    in complete groups: distinct, named calls followed by exactly their outputs, in any order. *)
Theorem checkpoint_is_valid_iff_grouped c : validate c = Ok tt <->
  version c = 1%N /\ checkpoint_messages c <> [] /\ protected_prefix_len c <= length (checkpoint_messages c) /\
  addressed (checkpoint_messages c) (tool_metadata c) /\ grouped (checkpoint_messages c).
Proof. apply validate_spec. Qed.

(** ** A checkpoint gives back what it was built from *)

Lemma take_metadata_above index messages i : is_Some ((take_metadata index messages).2 !! i) -> index <= i.
Proof.
  revert index. induction messages as [|m rest IH]; intros index; cbn [take_metadata]; [by intros [? ?]|].
  specialize (IH (S index)). destruct (take_metadata (S index) rest) as [stripped metadata]. cbn [snd] in IH.
  assert (is_Some (metadata !! i) -> index <= i) as IH' by (intros Hi; specialize (IH Hi); lia).
  destruct m; cbn [snd]; try done. destruct (json_is_null _); cbn [snd]; [done|].
  destruct (decide (i = index)) as [->|Hne]; [done|]. by rewrite lookup_insert_ne.
Qed.

Lemma take_metadata_restored index messages :
  imap (fun i => with_metadata (take_metadata index messages).2 (index + i)) (take_metadata index messages).1 = messages.
Proof.
  revert index. induction messages as [|m rest IH]; intros index; cbn [take_metadata]; [done|].
  specialize (IH (S index)). pose proof (take_metadata_above (S index) rest) as Hab.
  destruct (take_metadata (S index) rest) as [stripped metadata]. cbn [fst snd] in *.
  assert (metadata !! index = None) as Hnone.
  { destruct (metadata !! index) eqn:E; [|done]. specialize (Hab index ltac:(by rewrite E)). lia. }
  assert (imap ((fun i => with_metadata metadata (index + i)) ∘ S) stripped = rest) as Hrest.
  { rewrite <- IH. apply imap_ext. intros i x _. cbn. by rewrite Nat.add_succ_r. }
  assert (with_metadata metadata (index + 0) m = m) as Hm by (unfold with_metadata; by rewrite Nat.add_0_r, Hnone).
  destruct m; cbn [fst snd imap]; try (by rewrite Hm, Hrest). destruct (json_is_null _); cbn [fst snd imap]; [by rewrite Hm, Hrest|].
  f_equal.
  - unfold with_metadata. by rewrite Nat.add_0_r, lookup_insert_eq.
  - rewrite <- Hrest. apply imap_ext. intros i x _. cbn. unfold with_metadata. rewrite lookup_insert_ne by lia. done.
Qed.

(** C38. A checkpoint built from messages replays exactly those messages, with the metadata of every tool
    message back in its place. *)
Theorem checkpoint_round_trip messages protected c : from_messages messages protected = Ok c -> messages_of c = Ok messages.
Proof.
  unfold from_messages. pose proof (take_metadata_restored 0 messages) as E. destruct (take_metadata 0 messages) as [stripped metadata].
  cbn [fst snd] in E. destruct (validate _) as [[]|e] eqn:Ev; cbn [and_then]; [|done]. intros [= <-].
  unfold messages_of. rewrite Ev. cbn [and_then checkpoint_messages tool_metadata]. f_equal. exact E.
Qed.
End Checkpoint.

Definition demo_messages : list (ModelMessage Tree) :=
  [UserMessage (lit "go");
   AssistantToolCalls None [{| call_id := lit "a"; tool_name := lit "read"; arguments_json := lit "{}" |};
                            {| call_id := lit "b"; tool_name := lit "list"; arguments_json := lit "{}" |}] None;
   ToolMessage (lit "b") (lit "list") (lit "x") (TBool true); ToolMessage (lit "a") (lit "read") (lit "y") TNull].

Lemma checkpoint_round_trip_witness : exists c, from_messages demo_messages 1 = Ok c /\ messages_of c = Ok demo_messages.
Proof.
  destruct (from_messages demo_messages 1) as [c|e] eqn:E; [|vm_compute in E; discriminate E].
  exists c. split; [reflexivity|exact (checkpoint_round_trip demo_messages 1 c E)].
Defined.
