(* ===== verification/History.v ===== *)
(** * Durable history items (src/src/protocol/mod.rs)

    The items of a conversation's history and the inter-agent messages inside them.  Parts of an
    item that belong to other modules and that no modelled code reads are values of the JSON type
    they serialize to. *)
From S2P Require Import Prelude.
From S2P Require Import Text.
From S2P Require Import Json.
From S2P Require Import ContextWindow.
From S2P Require Import ClmCheckpoint.
From S2P Require Import ToolOutput.

Open Scope nat_scope.

Abbreviation HistoryItemId := N (only parsing).
Abbreviation ModelResponseId := N (only parsing).
Abbreviation ToolCallId := N (only parsing).

(** ** Inter-agent messages *)

Record InterAgentCommunication := { author : text; recipient : text; communication_content : text; trigger_turn : bool }.

Inductive InterAgentMessageType := NewTask | Message | FinalAnswer.

Definition message_type_text (t : InterAgentMessageType) : text :=
  match t with NewTask => lit "NEW_TASK" | Message => lit "MESSAGE" | FinalAnswer => lit "FINAL_ANSWER" end.

Definition PAYLOAD_MARK : text := [LF] ++ lit "Payload:" ++ [LF].

Definition render_inter_agent_message (message_type : InterAgentMessageType) (recipient author payload : text) : text :=
  lit "Message Type: " ++ message_type_text message_type ++ [LF] ++ lit "Task name: " ++ recipient ++ [LF] ++
  lit "Sender: " ++ author ++ PAYLOAD_MARK ++ payload.

(** [str::split_once] *)
Definition split_once (p s : text) : option (text * text) :=
  match find_sub p s with
  | Some i => Some (firstn i s, skipn (i + length p) s)
  | None => None
  end.

Definition line_names (prefix name : text) (line : option text) : bool :=
  match line ≫= strip_prefix prefix with Some rest => text_eqb rest name | None => false end.

Definition rendered_inter_agent_message_type (communication : InterAgentCommunication) : option InterAgentMessageType :=
  match split_once PAYLOAD_MARK (communication_content communication) with
  | None => None
  | Some (header, _) =>
    let lines := lines header in
    match head lines ≫= strip_prefix (lit "Message Type: ") with
    | None => None
    | Some message_type =>
      let task_name_matches := line_names (lit "Task name: ") (recipient communication) (lines !! 1) in
      let sender_matches := line_names (lit "Sender: ") (author communication) (lines !! 2) in
      let message_type :=
        if trigger_turn communication && text_eqb message_type (lit "NEW_TASK") then Some NewTask
        else if negb (trigger_turn communication) && text_eqb message_type (lit "MESSAGE") then Some Message
        else if negb (trigger_turn communication) && text_eqb message_type (lit "FINAL_ANSWER") then Some FinalAnswer
        else None in
      if task_name_matches && sender_matches && bool_decide (lines !! 3 = None) then message_type else None
    end
  end.

Definition is_rendered_inter_agent_message (communication : InterAgentCommunication) : bool :=
  bool_decide (is_Some (rendered_inter_agent_message_type communication)).

(** ** Items *)

Inductive HistoryScope := TurnScope (turn_id : TurnId) | SessionScope.

Definition scope_turn_id (scope : HistoryScope) : option TurnId :=
  match scope with TurnScope turn_id => Some turn_id | SessionScope => None end.
Definition scope_as_str (scope : HistoryScope) : text :=
  match scope with TurnScope _ => lit "turn" | SessionScope => lit "session" end.

Record Image := { image_source_path : option text; image_mime_type : text; image_data_base64 : text; image_byte_len : N }.

Inductive ContentPart := TextContent (content_part : text) | ImageContent (image : Image).

Inductive CompactionMode := Automatic.
Inductive CompactionLayout := LegacyPrefix | UserAnchoredCheckpoint | ClmCheckpointLayout.
#[export] Instance CompactionLayout_eq_dec : EqDecision CompactionLayout.
Proof. solve_decision. Defined.

Definition appends_checkpoint (layout : CompactionLayout) : bool :=
  match layout with UserAnchoredCheckpoint => true | _ => false end.

Section History.
Context {V : Type} `{JsonValue V}.

Definition validate_checkpoint (layout : CompactionLayout) (checkpoint : option (ClmCheckpoint (V := V)))
    (preserved_user_messages : list text) : result unit text :=
  match layout, checkpoint with
  | ClmCheckpointLayout, Some checkpoint =>
    let? _ := validate checkpoint in
    if is_empty preserved_user_messages then Ok tt else Err (lit "CLM checkpoint must not include separate user anchors")
  | ClmCheckpointLayout, None => Err (lit "CLM compaction requires a checkpoint")
  | _, Some _ => Err (lit "CLM checkpoint requires the CLM layout")
  | _, None => Ok tt
  end.

Inductive HistoryItemPayload :=
  | UserTurn (content : list ContentPart) (prompt_dispatch editor_context : option V)
  | SteerTurn (expected_turn_id : TurnId) (content : list ContentPart) (additional_context : V)
      (client_user_message_id : option text)
  | InterAgentItem (communication : InterAgentCommunication)
  | SubAgentActivity (activity_id : text) (agent_session_id : SessionId) (agent_path : text) (activity_kind : V)
  | CollaborationModeInstruction (mode : V)
  | AssistantItem (response_id : ModelResponseId) (content : list ContentPart)
  | ErrorItem (message : text)
  | DurableFeedback (feedback : V)
  | ToolCall (call : ToolCallId) (response_id : ModelResponseId) (model_call_id tool_name arguments_json : text)
  | ToolOutputItem (call : ToolCallId) (status : ToolLifecycleStatus) (title output_text : text) (metadata : V)
      (success : option bool)
  | RequestDiagnostics (diagnostics : V)
  | WorldState (snapshot : V) (rendered : text)
  | ApprovalDecision (call : ToolCallId) (decision : V)
  | Compaction (mode : CompactionMode) (layout : CompactionLayout) (preserved_user_messages : list text)
      (clm_checkpoint : option (ClmCheckpoint (V := V))) (summary : text) (replacement_item_ids : list HistoryItemId)
  | FileChange (call : ToolCallId) (change_ids : list N) (changes : V) (summary : text).

Record HistoryItem := {
  item_id : HistoryItemId;
  item_session : SessionId;
  scope : HistoryScope;
  sequence_no : Z;
  created_at_ms : Z;
  payload : HistoryItemPayload
}.

Definition validate_compaction_checkpoint (p : HistoryItemPayload) : result unit text :=
  match p with
  | Compaction _ layout preserved_user_messages clm_checkpoint _ _ =>
      validate_checkpoint layout clm_checkpoint preserved_user_messages
  | _ => Ok tt
  end.

Definition replacements (item : HistoryItem) : list HistoryItemId :=
  match payload item with Compaction _ _ _ _ _ replacement_item_ids => replacement_item_ids | _ => [] end.

Definition compacted_history_item_ids (items : list HistoryItem) : gset HistoryItemId :=
  list_to_set (items ≫= replacements).

(** ** Contents as text *)

Definition texts_of (content : list ContentPart) : list text :=
  omap (fun part => match part with TextContent t => Some t | ImageContent _ => None end) content.
Definition content_text (content : list ContentPart) : text := join [LF] (texts_of content).
Definition is_image (part : ContentPart) : bool := match part with ImageContent _ => true | TextContent _ => false end.

Definition user_message_from_content (content : list ContentPart) (supports_images : bool) : ModelMessage V :=
  let has_supported_image := supports_images && existsb is_image content in
  if negb has_supported_image then
    let text := content_text content in
    let omitted := length (List.filter is_image content) in
    UserMessage
      (if 0 <? omitted
       then (if is_empty text then text else text ++ [LF]) ++ lit "[" ++ show_nat omitted ++
            lit " image input(s) omitted because the selected model does not support images]"
       else text)
  else
    UserParts (map (fun part =>
      match part with
      | TextContent t => TextPart t
      | ImageContent image => ImagePart (image_mime_type image) (image_data_base64 image)
      end) content).

Definition inter_agent_input_text (communication : InterAgentCommunication) : text :=
  if is_rendered_inter_agent_message communication then communication_content communication
  else render_inter_agent_message (if trigger_turn communication then NewTask else Message)
         (recipient communication) (author communication) (communication_content communication).

Definition inter_agent_input_message (communication : InterAgentCommunication) : ModelMessage V :=
  AgentMessage (inter_agent_input_text communication).
End History.
#[global] Arguments HistoryItem V : clear implicits.
#[global] Arguments HistoryItemPayload V : clear implicits.
