(* ===== verification/SourceRecords.v ===== *)
(** * Compaction checkpoints (src/src/agent/compaction.rs)

    The text of a checkpoint refers to the history it replaces; a legacy attachment of source
    records is projected for the model without touching the body before it.  Serialization, parsing
    of JSON and SHA-256 are third-party and arguments. *)
From S2P Require Import Prelude.
From S2P Require Import Text.
From S2P Require Import Json.
From S2P Require Import PermissionFence.
From S2P Require Import PatchParse.
From S2P Require Import ToolOutput.
From S2P Require Import ContextWindow.
From S2P Require Import History.

Open Scope nat_scope.

Definition SOURCE_RECORDS_BEGIN : text := lit "<<<SOURCE_RECORDS_BEGIN>>>".
Definition SOURCE_RECORDS_END : text := lit "<<<SOURCE_RECORDS_END>>>".

(** ** Data *)

Inductive SourceContent :=
  | SourceText (content : text)
  | ImageReference (source_path : option text) (mime_type : text) (declared_image_bytes data_base64_utf8_bytes : N)
      (data_base64_utf8_sha256 : text).
#[export] Instance SourceContent_eq_dec : EqDecision SourceContent.
Proof. solve_decision. Defined.

Inductive SourcePatchOperation :=
  | SourceAdd (path : text)
  | SourceUpdate (path : text) (move_to : option text)
  | SourceDelete (path : text).
#[export] Instance SourcePatchOperation_eq_dec : EqDecision SourcePatchOperation.
Proof. solve_decision. Defined.

Record SourcePayloadReference := { field : text; utf8_bytes : N; sha256 : text }.
#[export] Instance SourcePayloadReference_eq_dec : EqDecision SourcePayloadReference.
Proof. solve_decision. Defined.

Section Records.
Context {V : Type} `{JsonValue V} `{EqDecision V} `{Ulid}.

Inductive SourceRecordData :=
  | SourceUserTurn (content : list SourceContent)
  | SourceSteerTurn (content : list SourceContent)
  | TriggeringAgentInput (author recipient input : text)
  | SourceToolCall (call : ToolCallId) (model_call_id tool_name arguments_json : text)
  | ToolCallWithPayloadReferences (call : ToolCallId) (model_call_id tool_name : text) (arguments_json_sha256 : text)
      (arguments_json_utf8_bytes : N) (retained_arguments : V) (payload_references : list SourcePayloadReference)
      (patch_operations : list SourcePatchOperation)
  | SourceToolOutput (call : ToolCallId) (status : ToolLifecycleStatus) (success : option bool) (output_text_sha256 : text)
      (output_text_utf8_bytes : N).
#[export] Instance SourceRecordData_eq_dec : EqDecision SourceRecordData.
Proof. solve_decision. Defined.

Record SourceRecord := { source_session_id : SessionId; history_item_id : HistoryItemId; data : SourceRecordData }.
#[export] Instance SourceRecord_eq_dec : EqDecision SourceRecord.
Proof. solve_decision. Defined.

Record SourceRecords := { records_version : N; records : list SourceRecord }.

(** The third-party functions. *)
Record Codecs := {
  parse_arguments : text -> option V;                (* [serde_json::from_str] *)
  remove_argument : V -> text -> V;                  (* [Map::remove] *)
  data_to_vec_len : SourceRecordData -> option N;    (* [serde_json::to_vec(..).len()] *)
  parse_records : text -> option SourceRecords;
  records_to_string : SourceRecords -> option text;
  sha256_hex : text -> text
}.

(** ** The body of a checkpoint *)

Definition contains (p s : text) : bool := bool_decide (is_Some (find_sub p s)).

Definition validate_checkpoint_body (body : text) : result unit text :=
  if is_empty (trim body) then Err (lit "checkpoint body is empty")
  else if contains SOURCE_RECORDS_BEGIN body || contains SOURCE_RECORDS_END body
  then Err (lit "checkpoint body contains reserved source-record framing")
  else Ok tt.

Definition checkpoint_with_history_reference (body : text) (items : list (HistoryItem V)) : result text text :=
  let? _ := validate_checkpoint_body body in
  match head items, last items with
  | Some first, Some last =>
    Ok (body ++ [LF; LF] ++ lit "Historical evidence in this conversation: first_item_id=" ++ ulid_to_string (item_id first) ++
        lit "; last_item_id=" ++ ulid_to_string (item_id last) ++
        lit ". Use read_history to retrieve original records. These references do not establish success, approval, or verification.")
  | _, _ => Ok body
  end.

(** ** Legacy attachments *)

Section WithCodecs.
Context (codecs : Codecs).

Definition payload_field (tool_name : text) : option text :=
  if text_eqb tool_name (lit "write") then Some (lit "content")
  else if text_eqb tool_name (lit "apply_patch") then Some (lit "patch_text")
  else None.

Definition source_operation (operation : PatchOperation) : SourcePatchOperation :=
  match operation with
  | PatchAdd path _ => SourceAdd path
  | PatchUpdate path _ move_to => SourceUpdate path move_to
  | PatchDelete path => SourceDelete path
  end.

Definition projected_payload_arguments (tool_name arguments_json : text)
    : option (V * list SourcePayloadReference * list SourcePatchOperation) :=
  field ← payload_field tool_name;
  arguments ← parse_arguments codecs arguments_json;
  if negb (json_is_object arguments) then None
  else
    payload ← json_get arguments field ≫= json_as_str;
    operations ←
      (if text_eqb tool_name (lit "write") then _ ← json_get arguments (lit "path") ≫= json_as_str; Some []
       else match parse payload with Some (Ok operations) => Some (map source_operation operations) | _ => None end);
    Some (remove_argument codecs arguments field,
          [{| field := field; utf8_bytes := byte_len payload; sha256 := sha256_hex codecs payload |}], operations).

Definition reference_tool_call_payloads (d : SourceRecordData) : SourceRecordData :=
  match d with
  | SourceToolCall call model_call_id tool_name arguments_json =>
    match projected_payload_arguments tool_name arguments_json with
    | Some (retained_arguments, payload_references, patch_operations) =>
      let candidate := ToolCallWithPayloadReferences call model_call_id tool_name (sha256_hex codecs arguments_json)
        (byte_len arguments_json) retained_arguments payload_references patch_operations in
      match data_to_vec_len codecs candidate, data_to_vec_len codecs d with
      | Some candidate_bytes, Some raw_bytes => if (candidate_bytes <? raw_bytes)%N then candidate else d
      | _, _ => d
      end
    | None => d
    end
  | _ => d
  end.

Definition record_key (r : SourceRecord) : SessionId * HistoryItemId := (source_session_id r, history_item_id r).

(** [append_record]; [seen] gives the position of a key.  The outer option is a panic of indexing. *)
Definition append_record (record : SourceRecord) (records : list SourceRecord) (seen : gmap (SessionId * HistoryItemId) nat)
    : option (result (list SourceRecord * gmap (SessionId * HistoryItemId) nat) text) :=
  let record := {| source_session_id := source_session_id record; history_item_id := history_item_id record;
                   data := reference_tool_call_payloads (data record) |} in
  match seen !! record_key record with
  | Some index =>
    match records !! index with
    | None => None
    | Some existing =>
      Some (if decide (existing = record) then Ok (records, seen)
            else Err (lit "conflicting checkpoint records for source session " ++ ulid_to_string (source_session_id record) ++
                      lit " item " ++ ulid_to_string (history_item_id record)))
    end
  | None => Some (Ok (records ++ [record], <[record_key record := length records]> seen))
  end.

Fixpoint append_records (new records : list SourceRecord) (seen : gmap (SessionId * HistoryItemId) nat)
    : option (result (list SourceRecord) text) :=
  match new with
  | [] => Some (Ok records)
  | record :: rest =>
    match append_record record records seen with
    | None => None
    | Some (Err e) => Some (Err e)
    | Some (Ok (records, seen)) => append_records rest records seen
    end
  end.

(** [str::rsplit_once] *)
Definition rsplit_once_text (p s : text) : option (text * text) :=
  match rfind_sub p s with
  | Some i => Some (firstn i s, skipn (i + length p) s)
  | None => None
  end.

Definition split_source_records (summary : text) : option (text * SourceRecords) :=
  '(body, suffix) ← rsplit_once_text ([LF] ++ SOURCE_RECORDS_BEGIN ++ [LF]) summary;
  json ← strip_suffix ([LF] ++ SOURCE_RECORDS_END) suffix;
  card ← parse_records codecs json;
  if (records_version card =? 1)%N || (records_version card =? 2)%N then Some (body, card) else None.

Definition is_input_record (r : SourceRecord) : bool :=
  match data r with SourceUserTurn _ | SourceSteerTurn _ | TriggeringAgentInput _ _ _ => true | _ => false end.

(** The outer option is a panic. *)
Definition project_checkpoint_summary (summary : text) : option text :=
  match split_source_records summary with
  | None => Some summary
  | Some (body, previous) =>
    match append_records (records previous) [] ∅ with
    | None => None
    | Some (Err _) => Some summary
    | Some (Ok appended) =>
      let kept := List.filter is_input_record appended in
      Some
        (if is_empty kept
         then body ++ [LF; LF] ++ lit "Use read_history to inspect available historical records. Originals not copied into this conversation may be unavailable."
         else if (records_version previous =? 2)%N && bool_decide (records previous = kept) then summary
         else match records_to_string codecs {| records_version := 2; records := kept |} with
              | None => summary
              | Some card => body ++ [LF] ++ SOURCE_RECORDS_BEGIN ++ [LF] ++ card ++ [LF] ++ SOURCE_RECORDS_END
              end)
    end
  end.
End WithCodecs.

(** ** A summary is always projected, and its body stays in front *)

Lemma append_record_seen codecs new l seen : (forall k i, seen !! k = Some i -> exists r, l !! i = Some r /\ record_key r = k) ->
  match append_record codecs new l seen with
  | Some (Ok (l', seen')) => (forall k i, seen' !! k = Some i -> exists r, l' !! i = Some r /\ record_key r = k)
  | Some (Err _) => True
  | None => False
  end.
Proof.
  intros Hs. unfold append_record. cbv zeta. set (r := Build_SourceRecord _ _ _). destruct (seen !! record_key r) as [i|] eqn:E.
  - destruct (Hs _ _ E) as (r' & -> & _). by destruct (decide _).
  - intros k i [[<- <-]|[Hne Hk]]%lookup_insert_Some.
    + exists r. split; [|done]. by apply list_lookup_middle.
    + destruct (Hs _ _ Hk) as (r' & Hr' & <-). exists r'. split; [|done]. by apply lookup_app_l_Some.
Qed.

Lemma append_records_total codecs new l seen : (forall k i, seen !! k = Some i -> exists r, l !! i = Some r /\ record_key r = k) ->
  exists out, append_records codecs new l seen = Some out.
Proof.
  revert l seen. induction new as [|r new IH]; intros l seen Hs; cbn [append_records]; [by eexists|].
  pose proof (append_record_seen codecs r l seen Hs) as Hr. destruct (append_record codecs r l seen) as [[[l' seen']|e]|]; [by apply IH|by eexists|done].
Qed.

Lemma project_checkpoint_summary_total codecs summary : exists out, project_checkpoint_summary codecs summary = Some out.
Proof.
  unfold project_checkpoint_summary. destruct (split_source_records codecs summary) as [[body previous]|]; [|by eexists].
  destruct (append_records_total codecs (records previous) [] ∅) as [out ->]; [intros k i Hk; by rewrite lookup_empty in Hk|].
  destruct out; by eexists.
Qed.

End Records.
#[global] Arguments Codecs V : clear implicits.
#[global] Arguments SourceRecords V : clear implicits.
