(* ===== verification/ContextProjection.v ===== *)
(** * What the model is sent, item by item

    A reference for [project_model_messages] without maps, sorting or an order of iteration: on a
    view whose replaced items are gone every item contributes its own messages in place, and the
    tool calls of a response stand together where the response began. *)
From S2P Require Import Prelude.
From S2P Require Import Text.
From S2P Require Import ListSort.
From S2P Require Import Json.
From S2P Require Import PermissionFence.
From S2P Require Import ContextWindow.
From S2P Require Import ClmCheckpoint.
From S2P Require Import ToolOutput.
From S2P Require Import History.
From S2P Require Import SourceRecords.
From S2P Require Import ContextManager.
From Stdlib Require Import Sorted.

Open Scope nat_scope.

Section Projection.
Context {V : Type} `{JsonValue V} `{EqDecision V} `{Ulid} `{HashIteration} (services : Services V).
Implicit Types (items : list (HistoryItem V)) (item : HistoryItem V) (call : ToolCallId) (r : ModelResponseId).

(** ** The reference *)

Definition tool_call_id item : option ToolCallId := match payload item with ToolCall call _ _ _ _ => Some call | _ => None end.
Definition tool_output_id item : option ToolCallId :=
  match payload item with ToolOutputItem call _ _ _ _ _ => Some call | _ => None end.

(** A settled call, with its response. *)
Definition settled_entry (settled : gset ToolCallId) (indexed : nat * HistoryItem V) : option (ModelResponseId * CallEntry) :=
  match payload (snd indexed) with
  | ToolCall call r model_call_id tool_name arguments_json =>
    if bool_decide (call ∈ settled)
    then Some (r, {| call_index := fst indexed; entry_call := call; replay_id := replay_call_id call model_call_id;
                     entry_tool := tool_name; entry_arguments := arguments_json |})
    else None
  | _ => None
  end.

(** A position that counts for its response. *)
Definition counted (settled : gset ToolCallId) (indexed : nat * HistoryItem V) : option (ModelResponseId * nat) :=
  match payload (snd indexed) with
  | AssistantItem r _ => Some (r, fst indexed)
  | ToolCall call r _ _ _ => if bool_decide (call ∈ settled) then Some (r, fst indexed) else None
  | _ => None
  end.

Definition content_entry (indexed : nat * HistoryItem V) : option (ModelResponseId * list ContentPart) :=
  match payload (snd indexed) with AssistantItem r content => Some (r, content) | _ => None end.

Definition settled_calls items r : list CallEntry := of_key r (omap (settled_entry (output_call_ids items)) (enumerate items)).
Definition first_position items r : option nat := head (of_key r (omap (counted (output_call_ids items)) (enumerate items))).
Definition response_content items r : option text :=
  match of_key r (omap content_entry (enumerate items)) with
  | [] => None
  | content :: rest => Some (fold_left (fun earlier next => append_text earlier (content_text next)) rest (content_text content))
  end.
Definition name_of_call items call : option (text * text) :=
  (fun e => (replay_id e, entry_tool e)) <$>
  head (filter (fun e => entry_call e = call) (snd <$> omap (settled_entry (output_call_ids items)) (enumerate items))).

Definition group_here items (continuations : gmap ModelResponseId ChatToolContinuation) (index : nat) r : list (ModelMessage V) :=
  if negb (is_empty (settled_calls items r)) && bool_decide (first_position items r = Some index)
  then [AssistantToolCalls
          (match response_content items r with Some content => if is_empty content then None else Some content | None => None end)
          (map tool_call_of (settled_calls items r)) (continuations !! r)]
  else [].

Definition reference_item (supports_images : bool) items (continuations : gmap ModelResponseId ChatToolContinuation)
    (indexed : nat * HistoryItem V) : option (list (ModelMessage V)) :=
  let '(index, item) := indexed in
  match payload item with
  | UserTurn content _ _ | SteerTurn _ content _ _ => Some [user_message_from_content content supports_images]
  | InterAgentItem communication => Some [inter_agent_input_message communication]
  | AssistantItem r content =>
    Some (if is_empty (settled_calls items r) then [AssistantMessage (content_text content)]
          else group_here items continuations index r)
  | ToolCall _ r _ _ _ => Some (group_here items continuations index r)
  | ToolOutputItem call status _ output_text metadata _ =>
    match name_of_call items call with
    | None => Some []
    | Some (model_call_id, tool_name) =>
      result ← model_visible_tool_output (hint_from_value services) tool_name status output_text metadata;
      Some [ToolMessage model_call_id tool_name result metadata]
    end
  | Compaction _ ClmCheckpointLayout _ clm_checkpoint _ _ =>
    checkpoint ← clm_checkpoint;
    match messages_of checkpoint with Err _ => None | Ok messages => Some (map (without_images supports_images) messages) end
  | Compaction _ UserAnchoredCheckpoint preserved_user_messages _ summary _ =>
    checkpoint ← semantic_compaction_message services summary; Some (map UserMessage preserved_user_messages ++ [checkpoint])
  | Compaction _ LegacyPrefix _ _ summary _ => checkpoint ← semantic_compaction_message services summary; Some [checkpoint]
  | ErrorItem message => Some [AssistantMessage (lit "Previous run ended with an error: " ++ message)]
  | _ => Some []
  end.

Definition reference_messages (supports_images : bool) items (continuations : gmap ModelResponseId ChatToolContinuation)
    : option (list (ModelMessage V)) :=
  (fun parts => concat parts) <$> mapM (reference_item supports_images items continuations) (enumerate items).

(** ** A well-formed view *)

(** An output is not followed by its call. *)
Definition not_its_call (a b : HistoryItem V) : Prop := forall call, tool_output_id a = Some call -> tool_call_id b <> Some call.

Record view_ok items : Prop := {
  view_ids : NoDup (item_id <$> items);
  view_clean : forall item, item ∈ items -> item_id item ∉ compacted_history_item_ids items;
  view_calls : NoDup (omap tool_call_id items);
  view_outputs : NoDup (omap tool_output_id items);
  view_order : StronglySorted not_its_call items;
  view_checkpoints : forall item, item ∈ items -> validate_compaction_checkpoint (payload item) = Ok tt
}.

(** ** The maps of the first loop *)

Lemma calls_map settled l maps :
  calls_by_response (fold_left (note_item settled) l maps) =
  fold_left (fun m e => push_at (fst e) (snd e) m) (omap (settled_entry settled) l) (calls_by_response maps).
Proof.
  revert maps. induction l as [|[index item] l IH]; intros maps; cbn [fold_left omap list_omap]; [done|]. rewrite IH.
  unfold note_item, settled_entry. cbn [fst snd]. destruct (payload item); try done. by destruct (bool_decide _).
Qed.

Lemma calls_lookup settled l r : calls_by_response (response_maps settled l) !! r =
  match of_key r (omap (settled_entry settled) l) with [] => None | e :: es => Some (e :: es) end.
Proof. unfold response_maps. rewrite calls_map. apply group_lookup. Qed.

Lemma first_map settled l maps :
  response_first_index (fold_left (note_item settled) l maps) =
  fold_left (fun m e => note_first (fst e) (snd e) m) (omap (counted settled) l) (response_first_index maps).
Proof.
  revert maps. induction l as [|[index item] l IH]; intros maps; cbn [fold_left omap list_omap]; [done|]. rewrite IH.
  unfold note_item, counted. cbn [fst snd]. destruct (payload item); try done. by destruct (bool_decide _).
Qed.

(** Positions ascend, so the first one noted stays. *)
Lemma note_first_fold (l : list (ModelResponseId * nat)) m r : StronglySorted lt (snd <$> l) ->
  (forall i, m !! r = Some i -> Forall (fun e => i <= snd e) l) ->
  fold_left (fun m e => note_first (fst e) (snd e) m) l m !! r =
  match m !! r with Some i => Some i | None => head (of_key r l) end.
Proof.
  revert m. induction l as [|[k i] l IH]; intros m Hs Hm; cbn [fold_left]; [by destruct (m !! r)|].
  rewrite fmap_cons in Hs. apply StronglySorted_inv in Hs as [Hs Hf]. cbn [fst snd] in *. rewrite of_key_cons. cbn [fst snd].
  destruct (decide (k = r)) as [->|Hne].
  - rewrite IH; [|done|].
    + unfold note_first. rewrite lookup_insert_eq. destruct (m !! r) as [j|]; [|done].
      pose proof (Forall_inv (Hm j eq_refl)) as Hj. cbn in Hj. f_equal. lia.
    + unfold note_first. rewrite lookup_insert_eq. intros j [= <-]. apply Forall_forall. intros e He.
      rewrite Forall_forall in Hf. specialize (Hf (snd e) (list_elem_of_fmap_2 _ _ _ He)).
      destruct (m !! r) as [j|]; [|lia]. pose proof (Forall_inv (Hm j eq_refl)) as Hj. cbn in Hj. lia.
  - rewrite IH; [|done|]; unfold note_first; rewrite lookup_insert_ne by done; [done|]. intros j Hj. exact (Forall_inv_tail (Hm j Hj)).
Qed.

Lemma first_lookup settled items r :
  response_first_index (response_maps settled (enumerate items)) !! r = head (of_key r (omap (counted settled) (enumerate items))).
Proof.
  unfold response_maps. rewrite first_map. cbn [response_first_index]. rewrite note_first_fold; [by rewrite lookup_empty| |intros i Hi; by rewrite lookup_empty in Hi].
  apply sorted_omap; [|apply enumerate_sorted]. intros [i item] [r' j]. unfold counted. cbn [fst snd].
  destruct (payload item); try done; [|destruct (bool_decide _); [|done]]; by intros [= _ <-].
Qed.

Lemma content_map settled l maps :
  assistant_content_by_response (fold_left (note_item settled) l maps) =
  fold_left (fun m e => note_content (fst e) (snd e) m) (omap content_entry l) (assistant_content_by_response maps).
Proof.
  revert maps. induction l as [|[index item] l IH]; intros maps; cbn [fold_left omap list_omap]; [done|]. rewrite IH.
  unfold note_item, content_entry. cbn [fst snd]. destruct (payload item); try done. by destruct (bool_decide _).
Qed.

Lemma note_content_fold (l : list (ModelResponseId * list ContentPart)) m r :
  fold_left (fun m e => note_content (fst e) (snd e) m) l m !! r =
  match m !! r, of_key r l with
  | Some t, rest => Some (fold_left (fun earlier next => append_text earlier (content_text next)) rest t)
  | None, [] => None
  | None, content :: rest => Some (fold_left (fun earlier next => append_text earlier (content_text next)) rest (content_text content))
  end.
Proof.
  revert m. induction l as [|[k content] l IH]; intros m; cbn [fold_left]; [by destruct (m !! r)|]. rewrite IH, of_key_cons. cbn [fst snd].
  unfold note_content. destruct (decide (k = r)) as [->|Hne]; [rewrite lookup_insert_eq|by rewrite lookup_insert_ne].
  by destruct (m !! r).
Qed.

Lemma content_lookup settled items r :
  assistant_content_by_response (response_maps settled (enumerate items)) !! r = response_content items r.
Proof. unfold response_maps. rewrite content_map. cbn [assistant_content_by_response]. by rewrite note_content_fold, lookup_empty. Qed.

Lemma settled_entry_index settled x re : settled_entry settled x = Some re -> call_index (snd re) = fst x.
Proof.
  destruct x as [i item], re as [r e]. unfold settled_entry. cbn [fst snd]. destruct (payload item); try done.
  destruct (bool_decide _); [|done]. by intros [= _ <-].
Qed.

Lemma settled_calls_sorted items r : StronglySorted lt (call_index <$> settled_calls items r).
Proof. apply sorted_of_key. apply sorted_omap; [apply settled_entry_index|apply enumerate_sorted]. Qed.

Lemma ordered_calls_id items r : ordered_calls (settled_calls items r) = settled_calls items r.
Proof.
  unfold ordered_calls. apply stable_sort_ascending; unfold by_index.
  - intros a b. rewrite !Nat.leb_le. lia.
  - intros a b c. rewrite !Nat.leb_le. lia.
  - pose proof (proj1 (sorted_fmap _ _ _) (settled_calls_sorted items r)) as Hs. eapply sorted_impl; [|exact Hs].
    unfold strictly_before. intros a b Hab. by apply Nat.leb_gt.
Qed.

(** ** Every active item *)

Lemma clean_active items item : view_ok items -> item ∈ items -> is_active items item = true.
Proof. intros Hv Hi. unfold is_active. apply negb_true_iff, bool_decide_eq_false_2. by apply (view_clean _ Hv). Qed.

Lemma active_items_id items : view_ok items -> active_items items = items.
Proof. intros Hv. apply filter_all. intros item. by apply clean_active. Qed.

Lemma active_enumerated_id items : view_ok items -> active_enumerated items = enumerate items.
Proof.
  intros Hv. apply filter_all. intros [i item] Hi%elem_of_enumerate. cbn. apply clean_active; [done|]. by eapply list_elem_of_lookup_2.
Qed.

Lemma in_calls items r e : e ∈ settled_calls items r <->
  exists i item, items !! i = Some item /\ settled_entry (output_call_ids items) (i, item) = Some (r, e).
Proof.
  unfold settled_calls. rewrite elem_of_of_key, list_elem_of_omap. split.
  - intros ([i item] & Hi%elem_of_enumerate & He). by exists i, item.
  - intros (i & item & Hi & He). exists (i, item). split; [by apply elem_of_enumerate|done].
Qed.

Lemma in_counted items r i : (r, i) ∈ omap (counted (output_call_ids items)) (enumerate items) <->
  exists item, items !! i = Some item /\ counted (output_call_ids items) (i, item) = Some (r, i).
Proof.
  rewrite list_elem_of_omap. split.
  - intros ([j item] & Hj%elem_of_enumerate & He). assert (j = i) as ->; [|by exists item].
    unfold counted in He. cbn [fst snd] in He. destruct (payload item); try done; [|destruct (bool_decide _); [|done]]; by injection He.
  - intros (item & Hi & He). exists (i, item). split; [by apply elem_of_enumerate|done].
Qed.

Lemma settled_counted settled i item r e : settled_entry settled (i, item) = Some (r, e) -> counted settled (i, item) = Some (r, i).
Proof. unfold settled_entry, counted. cbn [fst snd]. destruct (payload item); try done. destruct (bool_decide _); [|done]. by intros [= -> _]. Qed.

Lemma counted_response settled i item r j : counted settled (i, item) = Some (r, j) -> response_of item = Some r.
Proof.
  unfold counted, response_of. cbn [fst snd]. destruct (payload item); try done; [by intros [= -> _]|].
  destruct (bool_decide _); [|done]. by intros [= -> _].
Qed.

(** The first position of a response is one of its items. *)
Lemma first_position_counted items r i : first_position items r = Some i ->
  exists item, items !! i = Some item /\ counted (output_call_ids items) (i, item) = Some (r, i).
Proof.
  unfold first_position. intros Hf. apply in_counted. apply elem_of_of_key. destruct (of_key _ _); [done|]. injection Hf as ->. by left.
Qed.

Lemma first_position_least items r i item j : items !! j = Some item -> counted (output_call_ids items) (j, item) = Some (r, j) ->
  first_position items r = Some i -> i <= j.
Proof.
  intros Hj Hc Hf. assert (j ∈ of_key r (omap (counted (output_call_ids items)) (enumerate items))) as Hin
    by (apply elem_of_of_key, in_counted; by exists item).
  assert (StronglySorted lt (id <$> of_key r (omap (counted (output_call_ids items)) (enumerate items)))) as Hs.
  { apply sorted_of_key, sorted_omap; [|apply enumerate_sorted]. intros [k it] [r' m]. unfold counted. cbn [fst snd].
    destruct (payload it); try done; [|destruct (bool_decide _); [|done]]; by intros [= _ <-]. }
  rewrite list_fmap_id in Hs. unfold first_position in Hf. destruct (of_key _ _) as [|k ks]; [done|]. injection Hf as ->.
  apply StronglySorted_inv in Hs as [_ Hs]. apply elem_of_cons in Hin as [->|Hin]; [done|]. rewrite Forall_forall in Hs. specialize (Hs j Hin). lia.
Qed.

Lemma first_position_some items r e : e ∈ settled_calls items r -> exists i, first_position items r = Some i.
Proof.
  intros (i & item & Hi & He)%in_calls. apply settled_counted in He. unfold first_position.
  assert (i ∈ of_key r (omap (counted (output_call_ids items)) (enumerate items))) as Hin
    by (apply elem_of_of_key, in_counted; by exists item).
  destruct (of_key _ _); [by apply elem_of_nil in Hin|]. by eexists.
Qed.

(** ** The groups, in order *)

Definition placed_group items continuations (indexed : nat * HistoryItem V) : list ((nat * nat) * ModelMessage V) :=
  match response_of (snd indexed) with
  | Some r => map (pair (fst indexed, 1)) (group_here items continuations (fst indexed) r)
  | None => []
  end.

Definition group_head items (indexed : nat * HistoryItem V) : option (ModelResponseId * list CallEntry) :=
  match response_of (snd indexed) with
  | Some r => if negb (is_empty (settled_calls items r)) && bool_decide (first_position items r = Some (fst indexed))
              then Some (r, settled_calls items r) else None
  | None => None
  end.

Definition item_maps items : ResponseMaps := response_maps (output_call_ids items) (enumerate items).

Lemma calls_item_maps items r : calls_by_response (item_maps items) !! r =
  match settled_calls items r with [] => None | e :: es => Some (e :: es) end.
Proof. apply calls_lookup. Qed.

Lemma in_heads items r calls : (r, calls) ∈ omap (group_head items) (enumerate items) <-> calls_by_response (item_maps items) !! r = Some calls.
Proof.
  rewrite list_elem_of_omap, calls_item_maps. split.
  - intros ([i item] & _ & He). unfold group_head in He. cbn [fst snd] in He. destruct (response_of item) as [r'|]; [|done].
    destruct (is_empty (settled_calls items r')) eqn:E; [done|]. destruct (bool_decide _); [|done]. injection He as -> <-.
    by destruct (settled_calls items r).
  - destruct (settled_calls items r) as [|e es] eqn:E; [done|]. intros [= <-].
    destruct (first_position_some items r e) as [i Hi]; [rewrite E; by left|].
    destruct (first_position_counted _ _ _ Hi) as (item & Hitem & Hc). exists (i, item). split; [by apply elem_of_enumerate|].
    unfold group_head. cbn [fst snd]. by rewrite (counted_response _ _ _ _ _ Hc), E, Hi, bool_decide_eq_true_2.
Qed.

Lemma heads_nodup items : NoDup (omap (group_head items) (enumerate items)).
Proof.
  apply (NoDup_fmap_1 (fun e => default 0 (first_position items (fst e)))). apply sorted_lt_nodup.
  apply sorted_omap; [|apply enumerate_sorted]. intros [i item] [r calls]. unfold group_head. cbn [fst snd].
  destruct (response_of item) as [r'|]; [|done]. destruct (is_empty _); [done|]. case_bool_decide as E; [|done]. intros [= <- _]. by rewrite E.
Qed.

Lemma heads_perm items : map_to_list (calls_by_response (item_maps items)) ≡ₚ omap (group_head items) (enumerate items).
Proof.
  apply NoDup_Permutation; [apply NoDup_map_to_list|apply heads_nodup|]. intros [r calls]. rewrite elem_of_map_to_list. symmetry. apply in_heads.
Qed.

Lemma place_groups_perm items continuations :
  place_groups continuations (item_maps items) ≡ₚ concat (map (placed_group items continuations) (enumerate items)).
Proof.
  unfold place_groups. rewrite hash_iter_perm, heads_perm. apply reflexive_eq. generalize (enumerate items) as l. induction l as [|[i item] l IH]; [done|].
  cbn [omap list_omap map concat]. rewrite <- IH. unfold group_head at 1, placed_group at 1, group_here. cbn [fst snd].
  destruct (response_of item) as [r|]; [|done]. destruct (negb _ && bool_decide _) eqn:E; [|done]. cbn [map app omap list_omap].
  apply andb_true_iff in E as [_ E%bool_decide_eq_true]. unfold item_maps. rewrite first_lookup. unfold first_position in E. rewrite E.
  unfold group_message. by rewrite content_lookup, ordered_calls_id.
Qed.

(** ** Replaced items are gone *)

Lemma no_insertion items index item : view_ok items -> item ∈ items -> insertion_index (index_by_id items) (replacements item) index = index.
Proof.
  intros Hv Hi. unfold insertion_index. assert (omap (fun id => index_by_id items !! id) (replacements item) = []) as ->; [|done].
  destruct (omap _ _) as [|j js] eqn:E; [done|].
  assert (j ∈ omap (fun id => index_by_id items !! id) (replacements item)) as Hj by (rewrite E; by left).
  apply list_elem_of_omap in Hj as (id & Hid & Hlook). apply last_wins_elem in Hlook.
  apply list_elem_of_In, in_map_iff in Hlook as ([k other] & [= <- <-] & Hk%list_elem_of_In%elem_of_enumerate).
  exfalso. apply (view_clean _ Hv other); [by eapply list_elem_of_lookup_2|]. unfold compacted_history_item_ids.
  apply elem_of_list_to_set, list_elem_of_bind. by exists item.
Qed.

(** ** Names of calls *)

Lemma entry_item settled i item r e : settled_entry settled (i, item) = Some (r, e) -> tool_call_id item = Some (entry_call e) /\ entry_call e ∈ settled.
Proof.
  unfold settled_entry, tool_call_id. cbn [fst snd]. destruct (payload item); try done. case_bool_decide; [|done]. by intros [= _ <-].
Qed.

Lemma entry_unique items r r' e e' : view_ok items -> e ∈ settled_calls items r -> e' ∈ settled_calls items r' ->
  entry_call e = entry_call e' -> e = e'.
Proof.
  intros Hv (i & item & Hi & He)%in_calls (i' & item' & Hi' & He')%in_calls Heq.
  destruct (entry_item _ _ _ _ _ He) as [Ht _], (entry_item _ _ _ _ _ He') as [Ht' _]. rewrite <- Heq in Ht'.
  pose proof (nodup_omap_inj _ _ _ _ _ _ _ (view_calls _ Hv) Hi Hi' Ht Ht') as ->. congruence.
Qed.

Lemma in_entries items e : e ∈ snd <$> omap (settled_entry (output_call_ids items)) (enumerate items) <-> exists r, e ∈ settled_calls items r.
Proof.
  rewrite list_elem_of_fmap. split.
  - intros ([r e'] & -> & Hin). exists r. by apply elem_of_of_key.
  - intros (r & Hin). exists (r, e). split; [done|]. by apply elem_of_of_key.
Qed.

Lemma name_of_call_Some items call name : view_ok items -> name_of_call items call = Some name <->
  exists r e, e ∈ settled_calls items r /\ entry_call e = call /\ name = (replay_id e, entry_tool e).
Proof.
  intros Hv. unfold name_of_call. split.
  - destruct (filter _ _) as [|e es] eqn:E; [done|]. intros [= <-].
    assert (e ∈ filter (fun e => entry_call e = call) (snd <$> omap (settled_entry (output_call_ids items)) (enumerate items))) as He by (rewrite E; by left).
    apply list_elem_of_filter in He as [Hc (r & Hr)%in_entries]. by exists r, e.
  - intros (r & e & He & Hc & ->).
    assert (e ∈ filter (fun e => entry_call e = call) (snd <$> omap (settled_entry (output_call_ids items)) (enumerate items))) as Hin
      by (apply list_elem_of_filter; split; [done|apply in_entries; by exists r]).
    destruct (filter _ _) as [|e' es] eqn:E; [by apply elem_of_nil in Hin|]. cbn.
    assert (e' ∈ filter (fun e => entry_call e = call) (snd <$> omap (settled_entry (output_call_ids items)) (enumerate items))) as He' by (rewrite E; by left).
    apply list_elem_of_filter in He' as [Hc' (r' & Hr')%in_entries]. rewrite (entry_unique items r' r e' e); [done|done|done|done|congruence].
Qed.

Lemma ulid_injective `{!UlidLaws _} a b : ulid_to_string a = ulid_to_string b -> a = b.
Proof. intros E. pose proof (ulid_round_trip a) as Ea. rewrite E, ulid_round_trip in Ea. congruence. Qed.

Definition names_of_calls items : list (text * (text * text)) :=
  hash_iter (calls_by_response (item_maps items)) ≫= fun '(r, calls) =>
    match response_first_index (item_maps items) !! r with
    | None => []
    | Some _ => map (fun e => (ulid_to_string (entry_call e), (replay_id e, entry_tool e))) (ordered_calls calls)
    end.

Lemma in_names items key name : (key, name) ∈ names_of_calls items <->
  exists r e, e ∈ settled_calls items r /\ key = ulid_to_string (entry_call e) /\ name = (replay_id e, entry_tool e).
Proof.
  unfold names_of_calls. rewrite list_elem_of_bind. split.
  - intros ([r calls] & Hin & Hm). rewrite hash_iter_perm, elem_of_map_to_list, calls_item_maps in Hm.
    assert (calls = settled_calls items r) as -> by (destruct (settled_calls items r); [done|by injection Hm]).
    destruct (response_first_index _ !! r); [|by apply elem_of_nil in Hin]. rewrite ordered_calls_id in Hin.
    apply list_elem_of_In, in_map_iff in Hin as (e & [= <- <-] & He%list_elem_of_In). by exists r, e.
  - intros (r & e & He & -> & ->). exists (r, settled_calls items r). split.
    + unfold item_maps. rewrite first_lookup. destruct (first_position_some _ _ _ He) as [i Hi]. unfold first_position in Hi. rewrite Hi, ordered_calls_id.
      apply list_elem_of_In, in_map_iff. exists e. split; [done|by apply list_elem_of_In].
    + rewrite hash_iter_perm, elem_of_map_to_list, calls_item_maps. destruct (settled_calls items r); [by apply elem_of_nil in He|done].
Qed.

Lemma names_lookup `{!UlidLaws _} items call : view_ok items -> call_names (item_maps items) !! ulid_to_string call = name_of_call items call.
Proof.
  intros Hv. change (call_names (item_maps items)) with (last_wins (names_of_calls items)).
  destruct (name_of_call items call) as [name|] eqn:E.
  - apply name_of_call_Some in E as (r & e & He & <- & ->); [|done]. apply last_wins_functional; [apply in_names; by exists r, e|].
    intros v' (r' & e' & He' & Hk%ulid_injective & ->)%in_names. by rewrite (entry_unique items r' r e' e).
  - apply last_wins_none. intros v (r & e & He & Hk%ulid_injective & ->)%in_names.
    assert (name_of_call items call = Some (replay_id e, entry_tool e)) as F by (apply name_of_call_Some; [done|]; by exists r, e). by rewrite F in E.
Qed.

(** ** The order of the messages *)

Abbreviation Place := ((nat * nat) * ModelMessage V)%type (only parsing).

Definition in_place (index : nat) (block : list Place) : Prop :=
  Forall (fun x => fst (fst x) = index) block /\ StronglySorted (strictly_before place_leb) block.

Lemma place_leb_total (a b : Place) : place_leb a b = true \/ place_leb b a = true.
Proof. destruct a as [[i p] ?], b as [[j q] ?]. unfold place_leb. cbn [fst]. rewrite !orb_true_iff, !andb_true_iff, !Nat.ltb_lt, !Nat.eqb_eq, !Nat.leb_le. lia. Qed.

Lemma place_leb_trans (a b c : Place) : place_leb a b = true -> place_leb b c = true -> place_leb a c = true.
Proof.
  destruct a as [[i p] ?], b as [[j q] ?], c as [[k o] ?]. unfold place_leb. cbn [fst].
  rewrite !orb_true_iff, !andb_true_iff, !Nat.ltb_lt, !Nat.eqb_eq, !Nat.leb_le. lia.
Qed.

Lemma place_later (a b : Place) : fst (fst a) < fst (fst b) -> strictly_before place_leb a b.
Proof.
  destruct a as [[i p] ?], b as [[j q] ?]. unfold strictly_before, place_leb. cbn [fst]. intros Hlt.
  apply not_true_iff_false. rewrite orb_true_iff, andb_true_iff, Nat.ltb_lt, Nat.eqb_eq. lia.
Qed.

Lemma in_place_nil index : in_place index [].
Proof. split; constructor. Qed.

Lemma in_place_one index priority message : in_place index [((index, priority), message)].
Proof. split; [by repeat constructor|]. constructor; constructor. Qed.

Lemma at_index_snd index (messages : list (ModelMessage V)) : map snd (at_index index messages) = messages.
Proof.
  unfold at_index. rewrite map_map. etransitivity; [|apply enumerate_snd]. apply map_ext. by intros [? ?].
Qed.

Lemma at_index_in_place index (messages : list (ModelMessage V)) : in_place index (at_index index messages).
Proof.
  unfold at_index. split.
  - apply List.Forall_map, Forall_forall. by intros [? ?].
  - apply sorted_fmap. pose proof (proj1 (sorted_fmap _ _ _) (enumerate_sorted messages)) as Hs. eapply sorted_impl; [|exact Hs].
    intros [i a] [j b] Hlt. cbn in Hlt. unfold strictly_before, place_leb. cbn [fst]. apply not_true_iff_false.
    rewrite orb_true_iff, andb_true_iff, Nat.ltb_lt, Nat.eqb_eq, Nat.leb_le. lia.
Qed.

Lemma group_here_short items continuations index r : group_here items continuations index r = [] \/
  exists message, group_here items continuations index r = [message].
Proof. unfold group_here. destruct (_ && _); [right; by eexists|by left]. Qed.

Context `{!UlidLaws _}.

(** One item: its place, and its messages in the reference. *)
Lemma place_item_reference supports_images items continuations index item : view_ok items -> items !! index = Some item ->
  match place_item services supports_images (index_by_id items) (item_maps items) (call_names (item_maps items)) (index, item) with
  | None => reference_item supports_images items continuations (index, item) = None
  | Some placed =>
    let block := placed_group items continuations (index, item) ++ placed in
    reference_item supports_images items continuations (index, item) = Some (map snd block) /\ in_place index block
  end.
Proof.
  intros Hv Hi. assert (item ∈ items) as Hin by (by eapply list_elem_of_lookup_2).
  pose proof (no_insertion items index item Hv Hin) as Hno.
  assert (forall r, map snd (map (pair (index, 1)) (group_here items continuations index r)) = group_here items continuations index r) as Hsnd
    by (intros r; rewrite map_map; apply map_id).
  assert (forall r, in_place index (map (pair (index, 1)) (group_here items continuations index r))) as Hgrp
    by (intros r; destruct (group_here_short items continuations index r) as [->|[m ->]]; [apply in_place_nil|apply in_place_one]).
  unfold place_item, reference_item, placed_group, response_of, replacements in *. cbn [fst snd] in *.
  destruct (payload item); cbv zeta; cbn [app map snd]; try (split; [done|first [apply in_place_one|apply in_place_nil]]).
  - rewrite calls_item_maps. destruct (settled_calls items response_id) as [|e es] eqn:E; cbn [is_empty]; cbv zeta.
    + assert (group_here items continuations index response_id = []) as -> by (unfold group_here; by rewrite E). split; [done|apply in_place_one].
    + rewrite app_nil_r. by rewrite Hsnd.
  - rewrite app_nil_r, Hsnd. done.
  - rewrite names_lookup by done. destruct (name_of_call items call) as [[id name]|]; cbv zeta; cbn [app map]; [|split; [done|apply in_place_nil]].
    destruct (model_visible_tool_output _ _ _ _ _); cbn; [|done]. split; [done|apply in_place_one].
  - destruct layout.
    + destruct (semantic_compaction_message services summary); cbn; [|done]. rewrite Hno. split; [done|apply in_place_one].
    + destruct (semantic_compaction_message services summary); cbn [mbind option_bind app]; [|done]. cbv zeta. rewrite at_index_snd.
      split; [done|apply at_index_in_place].
    + destruct clm_checkpoint as [checkpoint|]; cbn [mbind option_bind]; [|done]. destruct (messages_of checkpoint) as [messages|]; [|done].
      cbv zeta. cbn [app]. rewrite Hno, at_index_snd. split; [done|apply at_index_in_place].
Qed.

Lemma mapM_zip {A B C} (f : A -> option B) (g : A -> option C) (h : A -> B -> C) l :
  (forall x, x ∈ l -> g x = h x <$> f x) -> mapM g l = zip_with h l <$> mapM f l.
Proof.
  induction l as [|x l IH]; intros Hg; [done|]. cbn [mapM]. rewrite (Hg x) by (by left). destruct (f x) as [y|]; [|done]. cbn.
  rewrite IH by (intros z Hz; apply Hg; by right). by destruct (mapM f l).
Qed.

Lemma mapM_length {A B} (f : A -> option B) l k : mapM f l = Some k -> length l = length k.
Proof. intros E. apply mapM_Some in E. by apply Forall2_length in E. Qed.

Lemma project_reference supports_images items continuations : view_ok items ->
  project_model_messages services items supports_images continuations = reference_messages supports_images items continuations.
Proof.
  intros Hv. unfold project_model_messages, reference_messages. rewrite active_items_id, active_enumerated_id by done. cbv zeta.
  change (response_maps (output_call_ids items) (enumerate items)) with (item_maps items).
  set (place := place_item services supports_images (index_by_id items) (item_maps items) (call_names (item_maps items))).
  rewrite (mapM_zip place _ (fun ip l => map snd (placed_group items continuations ip ++ l))).
  2:{ intros [i item] Hi%elem_of_enumerate. pose proof (place_item_reference supports_images items continuations i item Hv Hi) as Hp.
      fold place in Hp. destruct (place (i, item)); [by destruct Hp as [-> _]|done]. }
  destruct (mapM place (enumerate items)) as [placed|] eqn:E; [|done]. cbn [mbind option_bind fmap option_fmap option_map]. f_equal.
  set (target := concat (zip_with (fun ip l => placed_group items continuations ip ++ l) (enumerate items) placed)).
  assert (stable_sort place_leb (place_groups continuations (item_maps items) ++ concat placed) = target) as ->.
  - apply stable_sort_unique; [apply place_leb_total|apply place_leb_trans| |].
    + unfold target. rewrite place_groups_perm. symmetry. apply concat_merge. by apply mapM_length in E.
    + apply (sorted_blocks _ (fun x => fst (fst x)) _ 0); [apply place_later|]. intros i block Hb.
      rewrite lookup_zip_with in Hb. apply bind_Some in Hb as ([j item] & Hj & Hb). apply bind_Some in Hb as (l & Hl & [= <-]).
      rewrite enumerate_lookup in Hj. destruct (items !! i) as [item'|] eqn:Hi; [|done]. injection Hj as <- ->.
      apply mapM_Some in E. assert (place (i, item) = Some l) as Hpl by (apply (Forall2_lookup_lr _ _ _ i _ _ E); [by rewrite enumerate_lookup, Hi|done]).
      pose proof (place_item_reference supports_images items continuations i item Hv Hi) as Hp. fold place in Hp.
      rewrite Hpl in Hp. exact (proj2 Hp).
  - unfold target. rewrite concat_map. f_equal. clear. revert placed. generalize (enumerate items) as l.
    induction l as [|x l IH]; intros [|p placed]; cbn; try done. f_equal. apply IH.
Qed.

(** On a view whose replaced items are gone the model is sent the messages of the items one by one: every
    item's own in its place, and the settled calls of a response with its text where the response began,
    whatever the order in which the maps in between are iterated. *)
Theorem messages_are_sent_item_by_item supports_images items continuations : view_ok items ->
  project_model_messages services items supports_images continuations = reference_messages supports_images items continuations.
Proof. apply project_reference. Qed.

Lemma call_before_output items i j a b call : view_ok items -> items !! i = Some a -> items !! j = Some b ->
  tool_call_id a = Some call -> tool_output_id b = Some call -> i < j.
Proof.
  intros Hv Hi Hj Ha Hb. destruct (Nat.lt_trichotomy i j) as [Hlt|[->|Hgt]]; [done| |exfalso].
  - assert (a = b) as -> by congruence. unfold tool_call_id, tool_output_id in *. by destruct (payload b).
  - pose proof (view_order _ Hv) as Hs. clear Hv. revert i j Hi Hj Hgt. induction Hs as [|x l _ IH Hf]; intros i j Hi Hj Hgt; [done|].
    destruct i as [|i]; [lia|]. destruct j as [|j]; cbn in Hi, Hj; [|apply (IH i j); [done|done|lia]].
    injection Hj as ->. rewrite Forall_forall in Hf. refine (Hf a _ call Hb Ha). by eapply list_elem_of_lookup_2.
Qed.
End Projection.
