(* ===== verification/ContextPairing.v ===== *)
(** * Every tool call the model is shown has its output, and every output its call

    A provider refuses a conversation in which the two are not matched.  The view that is built by
    appending the committed history, compactions included, always projects to a matched one. *)
From S2P Require Import Prelude.
From S2P Require Import Text.
From S2P Require Import ListSort.
From S2P Require Import Json.
From S2P Require Import PermissionFence.
From S2P Require Import ContextWindow.
From S2P Require Import ClmCheckpoint.
From S2P Require Import ToolOutput.
From S2P Require Import History.
From S2P Require Import SourceRecords.
From S2P Require Import ContextManager.
From S2P Require Import ContextProjection.
From Stdlib Require Import Sorted.

Open Scope nat_scope.

Section Paired.
Context {V : Type}.
Implicit Types (ms : list (ModelMessage V)).

Record paired ms : Prop := {
  outputs_asked : forall j id name result metadata, ms !! j = Some (ToolMessage id name result metadata) ->
    exists i content calls continuation call, i < j /\ ms !! i = Some (AssistantToolCalls content calls continuation) /\
      call ∈ calls /\ call_id call = id /\ tool_name call = name;
  calls_answered : forall i content calls continuation call, ms !! i = Some (AssistantToolCalls content calls continuation) ->
    call ∈ calls -> exists j result metadata, i < j /\ ms !! j = Some (ToolMessage (call_id call) (tool_name call) result metadata)
}.

(** ** Complete groups are paired *)

Lemma paired_nil : paired [].
Proof. split; done. Qed.

Lemma lookup_output (outputs : list (ModelMessage V)) (keys : list (text * text)) id name : output_key (V := V) <$> outputs = Some <$> keys -> (id, name) ∈ keys ->
  exists j result metadata, outputs !! j = Some (ToolMessage id name result metadata).
Proof.
  intros Ho Hin. apply list_elem_of_lookup in Hin as (n & Hn). assert ((output_key <$> outputs) !! n = Some (Some (id, name))) as E
    by (by rewrite Ho, list_lookup_fmap, Hn).
  rewrite list_lookup_fmap in E. destruct (outputs !! n) as [m|] eqn:Em; [|done]. injection E as E. destruct m; try done.
  cbn in E. injection E as -> ->. by eexists n, _, _.
Qed.

Lemma lookup_cons_app {A} (x : A) (a b : list A) i : (x :: a ++ b) !! S (length a + i) = b !! i.
Proof. change ((a ++ b) !! (length a + i) = b !! i). rewrite lookup_app_r by lia. f_equal. lia. Qed.

Lemma grouped_paired `{JsonValue V} ms : grouped ms -> paired ms.
Proof.
  induction 1 as [|m rest Hp _ IH|content calls continuation outputs rest Hne Hv Hn (keys & Ho & Hk) _ IH]; [apply paired_nil| |].
  - split.
    + intros [|j] id name result metadata Hj; cbn in Hj; [by injection Hj as ->|].
      destruct (outputs_asked _ IH _ _ _ _ _ Hj) as (i & c & cs & k & call & Hi & Hl & Hr). exists (S i), c, cs, k, call. split; [lia|done].
    + intros [|i] content calls continuation call Hi Hc; cbn in Hi; [by injection Hi as ->|].
      destruct (calls_answered _ IH _ _ _ _ _ Hi Hc) as (j & result & metadata & Hj & Hl). exists (S j), result, metadata. split; [lia|done].
  - assert (forall o id name result metadata, o ∈ outputs -> o = ToolMessage id name result metadata -> (id, name) ∈ keys) as Hkey.
    { intros o id name result metadata Hin ->. assert (Some (id, name) ∈ output_key <$> outputs) as Hs
        by (apply list_elem_of_fmap; by exists (ToolMessage id name result metadata)).
      rewrite Ho in Hs. by apply list_elem_of_fmap in Hs as (k & [= <-] & Hin'). }
    split.
    + intros [|j] id name result metadata Hj; cbn in Hj; [done|]. apply lookup_app_Some in Hj as [Hj|[Hge Hj]].
      * assert ((id, name) ∈ keys) as Hin by (eapply Hkey; [by eapply list_elem_of_lookup_2|done]). rewrite Hk in Hin.
        apply list_elem_of_fmap in Hin as (call & [= -> ->] & Hc). exists 0, content, calls, continuation, call. split; [lia|done].
      * destruct (outputs_asked _ IH _ _ _ _ _ Hj) as (i & c & cs & k & call & Hi & Hl & Hr).
        exists (S (length outputs + i)), c, cs, k, call. split; [lia|]. split; [|done]. by rewrite lookup_cons_app.
    + intros [|i] content' calls' continuation' call Hi Hc; cbn in Hi.
      * injection Hi as -> -> ->. assert ((call_id call, tool_name call) ∈ keys) as Hin
          by (rewrite Hk; apply list_elem_of_fmap; by exists call).
        destruct (lookup_output outputs keys _ _ Ho Hin) as (j & result & metadata & Hj). exists (S j), result, metadata. split; [lia|].
        cbn. by apply lookup_app_l_Some.
      * apply lookup_app_Some in Hi as [Hi|[Hge Hi]].
        -- assert (None ∈ output_key <$> outputs) as F
             by (apply list_elem_of_fmap; eexists; split; [|by eapply list_elem_of_lookup_2]; done).
           rewrite Ho in F. by apply list_elem_of_fmap in F as (? & ? & _).
        -- destruct (calls_answered _ IH _ _ _ _ _ Hi Hc) as (j & result & metadata & Hj & Hl). exists (S (length outputs + j)), result, metadata.
           split; [lia|]. by rewrite lookup_cons_app.
Qed.

(** ** Blocks *)

Definition start (blocks : list (list (ModelMessage V))) (i : nat) : nat := length (concat (take i blocks)).

Lemma concat_lookup blocks i block off (m : ModelMessage V) : blocks !! i = Some block -> block !! off = Some m ->
  concat blocks !! (start blocks i + off) = Some m.
Proof.
  intros Hi Ho. assert (concat blocks = concat (take i blocks) ++ block ++ concat (drop (S i) blocks)) as ->
    by (rewrite <- (take_drop_middle blocks i block Hi) at 1; by rewrite concat_app).
  unfold start. rewrite lookup_app_r by lia. rewrite Nat.add_comm, Nat.add_sub. by apply lookup_app_l_Some.
Qed.

Lemma concat_lookup_inv blocks n (m : ModelMessage V) : concat blocks !! n = Some m ->
  exists i block off, blocks !! i = Some block /\ block !! off = Some m /\ n = start blocks i + off.
Proof.
  revert n. induction blocks as [|b blocks IH]; intros n Hn; [done|]. cbn [concat] in Hn. apply lookup_app_Some in Hn as [Hn|[Hge Hn]].
  - by exists 0, b, n.
  - destruct (IH _ Hn) as (i & block & off & Hi & Ho & E). exists (S i), block, off. split_and!; [done|done|].
    unfold start in *. cbn [take concat]. rewrite length_app. lia.
Qed.

Lemma start_mono blocks i j block : i < j -> blocks !! i = Some block -> start blocks i + length block <= start blocks j.
Proof.
  intros Hij Hi. unfold start. replace (take j blocks) with (take i (take j blocks) ++ drop i (take j blocks)) by apply take_drop.
  rewrite take_take, Nat.min_l, concat_app, length_app by lia.
  assert (drop i (take j blocks) !! 0 = Some block) as H0 by (rewrite lookup_drop, Nat.add_0_r, lookup_take_lt; done).
  destruct (drop i (take j blocks)) as [|b rest]; [done|]. injection H0 as ->. cbn [concat]. rewrite length_app. lia.
Qed.

(** Calls and outputs matched within a block or across blocks in order. *)
Record blocks_paired (blocks : list (list (ModelMessage V))) : Prop := {
  block_outputs : forall j block id name result metadata, blocks !! j = Some block -> ToolMessage id name result metadata ∈ block ->
    paired block \/ exists i block' content calls continuation call, i < j /\ blocks !! i = Some block' /\
      AssistantToolCalls content calls continuation ∈ block' /\ call ∈ calls /\ call_id call = id /\ tool_name call = name;
  block_calls : forall i block content calls continuation call, blocks !! i = Some block ->
    AssistantToolCalls content calls continuation ∈ block -> call ∈ calls ->
    paired block \/ exists j block' result metadata, i < j /\ blocks !! j = Some block' /\
      ToolMessage (call_id call) (tool_name call) result metadata ∈ block'
}.

Lemma paired_concat blocks : blocks_paired blocks -> paired (concat blocks).
Proof.
  intros [HO HC]. split.
  - intros n id name result metadata Hn. destruct (concat_lookup_inv _ _ _ Hn) as (j & block & off & Hj & Hoff & ->).
    destruct (HO j block id name result metadata Hj) as [Hp|(i & block' & content & calls & k & call & Hij & Hi & Hin & Hr)];
      [by eapply list_elem_of_lookup_2| |].
    + destruct (outputs_asked _ Hp _ _ _ _ _ Hoff) as (i & content & calls & k & call & Hi & Hl & Hr).
      exists (start blocks j + i), content, calls, k, call. split; [lia|]. split; [|done]. by eapply concat_lookup.
    + apply list_elem_of_lookup in Hin as (off' & Hoff'). exists (start blocks i + off'), content, calls, k, call.
      pose proof (start_mono blocks i j block' Hij Hi). pose proof (lookup_lt_Some _ _ _ Hoff'). split; [lia|]. split; [|done]. by eapply concat_lookup.
  - intros n content calls k call Hn Hc. destruct (concat_lookup_inv _ _ _ Hn) as (i & block & off & Hi & Hoff & ->).
    destruct (HC i block content calls k call Hi) as [Hp|(j & block' & result & metadata & Hij & Hj & Hin)];
      [by eapply list_elem_of_lookup_2|done| |].
    + destruct (calls_answered _ Hp _ _ _ _ _ Hoff Hc) as (j & result & metadata & Hj & Hl). exists (start blocks i + j), result, metadata.
      split; [lia|]. by eapply concat_lookup.
    + apply list_elem_of_lookup in Hin as (off' & Hoff'). exists (start blocks j + off'), result, metadata.
      pose proof (start_mono blocks i j block Hij Hi). pose proof (lookup_lt_Some _ _ _ Hoff). split; [lia|]. by eapply concat_lookup.
Qed.

(** ** A replayed checkpoint keeps its groups *)

Definition same_shape (a b : ModelMessage V) : Prop :=
  match a, b with
  | AssistantToolCalls content calls k, AssistantToolCalls content' calls' k' => content = content' /\ calls = calls' /\ k = k'
  | ToolMessage id name _ _, ToolMessage id' name' _ _ => id = id' /\ name = name'
  | _, _ => is_plain a /\ is_plain b
  end.

Lemma grouped_shape `{JsonValue V} a b : grouped a -> Forall2 same_shape a b -> grouped b.
Proof.
  intros Hg. revert b. induction Hg as [|m rest Hp _ IH|content calls continuation outputs rest Hne Hv Hn (keys & Ho & Hk) _ IH]; intros b Hf.
  - apply Forall2_nil_inv_l in Hf as ->. constructor.
  - apply Forall2_cons_inv_l in Hf as (m' & b' & Hs & Hf & ->). apply grouped_plain; [|by apply IH]. destruct m, m'; cbn in *; tauto.
  - apply Forall2_cons_inv_l in Hf as (m' & b' & Hs & Hf & ->). destruct m'; cbn in Hs; try tauto. destruct Hs as (-> & -> & ->).
    apply Forall2_app_inv_l in Hf as (outputs' & rest' & Hf1 & Hf2 & ->). apply grouped_group; [done|done|done| |by apply IH].
    exists keys. split; [|done]. rewrite <- Ho. clear Ho Hk IH keys.
    induction Hf1 as [|o o' os os' Hs _ IHf]; [done|]. rewrite !fmap_cons, IHf. f_equal.
    destruct o, o'; cbn in *; try tauto; try done. by destruct Hs as [-> ->].
Qed.
End Paired.

Definition not_instruction {V} (m : ModelMessage V) : Prop := match m with SystemMessage _ | DeveloperMessage _ => False | _ => True end.

Lemma grouped_no_instruction {V} `{JsonValue V} (ms : list (ModelMessage V)) : grouped ms -> Forall not_instruction ms.
Proof.
  induction 1 as [|m rest Hp _ IH|content calls continuation outputs rest _ _ _ (keys & Ho & _) _ IH]; constructor; try done.
  - by destruct m.
  - apply Forall_app. split; [|done]. apply Forall_forall. intros m Hm.
    assert (output_key m ∈ output_key <$> outputs) as Hk by (apply list_elem_of_fmap; by exists m). rewrite Ho in Hk.
    apply list_elem_of_fmap in Hk as (k & Hk & _). by destruct m.
Qed.

Section Pairing.
Context {V : Type} `{JsonLaws V} `{EqDecision V} `{UlidLaws} `{HashIteration} (services : Services V).
Implicit Types (items : list (HistoryItem V)) (item : HistoryItem V).

Lemma replayed_paired (c : ClmCheckpoint (V := V)) supports_images messages : messages_of c = Ok messages ->
  paired (map (without_images supports_images) messages).
Proof.
  unfold messages_of. destruct (validate c) as [[]|e] eqn:Ev; cbn [and_then]; [|done]. intros [= <-].
  apply validate_spec in Ev as (_ & _ & _ & _ & Hg). apply grouped_paired. eapply grouped_shape; [exact Hg|].
  pose proof (grouped_no_instruction _ Hg) as Hno. apply Forall2_same_length_lookup. split; [by rewrite length_map, length_imap|].
  intros i m m' Hm Hm'. rewrite (list_lookup_fmap (without_images supports_images)), list_lookup_imap, Hm in Hm'. injection Hm' as <-.
  apply (Forall_lookup_1 _ _ _ _ Hno) in Hm. unfold with_metadata. destruct (tool_metadata c !! i), m; cbn in *; try done;
    by destruct supports_images.
Qed.

Lemma summary_message summary m : semantic_compaction_message services summary = Some m -> exists content, m = UserMessage content.
Proof. unfold semantic_compaction_message. destruct (project_checkpoint_summary _ _); cbn; [|done]. intros [= <-]. by eexists. Qed.

(** What a block of the reference holds. *)
Definition block_kind items continuations (index : nat) item (block : list (ModelMessage V)) : Prop :=
  paired block \/
  (exists r, response_of item = Some r /\ block = group_here items continuations index r) \/
  (exists call id name result metadata, tool_output_id item = Some call /\ name_of_call items call = Some (id, name) /\
     block = [ToolMessage id name result metadata]) .

Lemma paired_plain (ms : list (ModelMessage V)) : Forall is_plain ms -> paired ms.
Proof. intros Hp. apply grouped_paired. induction Hp; [constructor|by apply grouped_plain]. Qed.

Lemma reference_kind supports_images items continuations index item block :
  reference_item services supports_images items continuations (index, item) = Some block -> block_kind items continuations index item block.
Proof.
  unfold reference_item, block_kind, response_of, tool_output_id.
  assert (forall m : ModelMessage V, is_plain m -> paired [m]) as Hone by (intros m Hm; by apply paired_plain; repeat constructor).
  assert (forall content, is_plain (user_message_from_content (V := V) content supports_images)) as Huser
    by (intros content; unfold user_message_from_content; by destruct (negb _)).
  destruct (payload item); try (intros [= <-]; left; first [by apply Hone|apply paired_nil]).
  - intros [= <-]. destruct (is_empty _); [left; by apply Hone|right; left; by eexists].
  - intros [= <-]. right; left; by eexists.
  - destruct (name_of_call items call) as [[id name]|] eqn:En; [|intros [= <-]; left; apply paired_nil].
    destruct (model_visible_tool_output _ _ _ _ _); cbn; [|done]. intros [= <-]. right; right. by eexists _, _, _, _, _.
  - destruct layout.
    + destruct (semantic_compaction_message services summary) as [m|] eqn:Em; cbn; [|done]. intros [= <-]. left. apply Hone.
      by apply summary_message in Em as [content ->].
    + destruct (semantic_compaction_message services summary) as [m|] eqn:Em; cbn; [|done]. intros [= <-]. left. apply paired_plain.
      apply summary_message in Em as [content ->]. apply Forall_app. split; [|by repeat constructor]. by apply List.Forall_map, Forall_true.
    + destruct clm_checkpoint as [c|]; cbn; [|done]. destruct (messages_of c) as [messages|] eqn:Em; [|done]. intros [= <-]. left.
      by eapply replayed_paired.
Qed.

Lemma in_group items continuations index r content calls continuation :
  AssistantToolCalls content calls continuation ∈ group_here items continuations index r ->
  calls = map tool_call_of (settled_calls items r) /\ first_position items r = Some index.
Proof.
  unfold group_here. destruct (negb _ && bool_decide _) eqn:E; [|by intros ?%elem_of_nil].
  apply andb_true_iff in E as [_ E%bool_decide_eq_true]. by intros [= _ <- _]%list_elem_of_singleton.
Qed.

Lemma group_present items continuations r e : e ∈ settled_calls items r -> exists index content continuation,
  first_position items r = Some index /\
  AssistantToolCalls content (map tool_call_of (settled_calls items r)) continuation ∈ group_here items continuations index r.
Proof.
  intros He. destruct (first_position_some items r e He) as [i Hi]. eexists i, _, _. split; [done|].
  unfold group_here. rewrite Hi, bool_decide_eq_true_2 by done. destruct (settled_calls items r) as [|e' es] eqn:E; [by apply elem_of_nil in He|].
  cbn [is_empty negb andb]. rewrite <- E. by apply list_elem_of_singleton.
Qed.

(** The group of a settled call stands before the output. *)
Lemma group_before_output items r e i index j item : view_ok items -> settled_entry (output_call_ids items) (i, item) = Some (r, e) ->
  items !! i = Some item -> first_position items r = Some index ->
  forall output, items !! j = Some output -> tool_output_id output = Some (entry_call e) -> index < j.
Proof.
  intros Hv He Hi Hf output Hj Ho. pose proof (settled_counted _ _ _ _ _ He) as Hc.
  pose proof (first_position_least items r index item i Hi Hc Hf). destruct (entry_item _ _ _ _ _ He) as [Hcall _].
  pose proof (call_before_output items i j item output _ Hv Hi Hj Hcall Ho). lia.
Qed.

Lemma settled_output items call : call ∈ output_call_ids items -> exists j output, items !! j = Some output /\ tool_output_id output = Some call.
Proof.
  unfold output_call_ids. rewrite elem_of_list_to_set. intros (output & Hin & Ho)%list_elem_of_omap.
  apply list_elem_of_lookup in Hin as (j & Hj). exists j, output. split; [done|]. unfold tool_output_id. by destruct (payload output).
Qed.

Lemma reference_paired supports_images items continuations blocks : view_ok items ->
  mapM (reference_item services supports_images items continuations) (enumerate items) = Some blocks -> blocks_paired blocks.
Proof.
  intros Hv Hm. apply mapM_Some in Hm.
  assert (forall i item, items !! i = Some item -> exists block, blocks !! i = Some block /\
    reference_item services supports_images items continuations (i, item) = Some block) as Hblock.
  { intros i item Hi. destruct (Forall2_lookup_l _ _ _ i (i, item) Hm) as (block & Hb & E); [by rewrite enumerate_lookup, Hi|]. by exists block. }
  assert (forall i block, blocks !! i = Some block -> exists item, items !! i = Some item /\
    reference_item services supports_images items continuations (i, item) = Some block) as Hitem.
  { intros i block Hb. destruct (Forall2_lookup_r _ _ _ i block Hm Hb) as ([j item] & Hj & E). rewrite enumerate_lookup in Hj.
    destruct (items !! i) as [item'|]; [|done]. injection Hj as <- ->. by exists item. }
  split.
  - intros j block id name result metadata Hj Hin. destruct (Hitem j block Hj) as (item & Hi & Er).
    destruct (reference_kind _ _ _ _ _ _ Er) as [Hp|[(r & _ & ->)|(call & id' & name' & res & meta & Ho & Hn & ->)]]; [by left| |].
    + unfold group_here in Hin. destruct (_ && _); [|by apply elem_of_nil in Hin]. by apply list_elem_of_singleton in Hin.
    + right. apply list_elem_of_singleton in Hin. injection Hin as <- <- _ _.
      apply name_of_call_Some in Hn as (r & e & He & <- & [= -> ->]); [|done].
      destruct (group_present items continuations r e He) as (index & content & k & Hf & Hg).
      destruct (proj1 (in_calls _ _ _) He) as (i & caller & Hc & Hs).
      pose proof (group_before_output items r e i index j caller Hv Hs Hc Hf item Hi Ho) as Hlt.
      destruct (first_position_counted _ _ _ Hf) as (first & Hfirst & Hcount). destruct (Hblock index first Hfirst) as (block' & Hb' & Er').
      exists index, block', content, (map tool_call_of (settled_calls items r)), k, (tool_call_of e). split_and!; [done|done| | |done|done].
      * unfold reference_item in Er'. unfold counted in Hcount. cbn [fst snd] in Hcount. destruct (payload first); try done.
        -- injection Hcount as ->. injection Er' as <-. destruct (is_empty (settled_calls items r)) eqn:E; [|exact Hg]. exfalso.
           destruct (settled_calls items r); [by apply elem_of_nil in He|done].
        -- destruct (bool_decide _); [|done]. injection Hcount as ->. by injection Er' as <-.
      * apply list_elem_of_In, in_map. by apply list_elem_of_In.
  - intros i block content calls k call Hb Hin Hc. destruct (Hitem i block Hb) as (item & Hi & Er).
    destruct (reference_kind _ _ _ _ _ _ Er) as [Hp|[(r & _ & ->)|(? & ? & ? & ? & ? & _ & _ & ->)]]; [by left| |by apply list_elem_of_singleton in Hin].
    right. apply in_group in Hin as [-> Hf]. apply list_elem_of_In, in_map_iff in Hc as (e & <- & He%list_elem_of_In).
    destruct (proj1 (in_calls _ _ _) He) as (n & caller & Hn & Hs). destruct (entry_item _ _ _ _ _ Hs) as [_ Hset].
    destruct (settled_output _ _ Hset) as (j & output & Hj & Ho).
    pose proof (group_before_output items r e n i j caller Hv Hs Hn Hf output Hj Ho) as Hlt.
    destruct (Hblock j output Hj) as (block' & Hb' & Er'). assert (name_of_call items (entry_call e) = Some (replay_id e, entry_tool e)) as En
      by (apply name_of_call_Some; [done|]; by exists r, e).
    unfold reference_item in Er'. unfold tool_output_id in Ho. destruct (payload output) as [| | | | | | | | |call status title txt meta succ| | | | |]; try done.
    injection Ho as ->. rewrite En in Er'. destruct (model_visible_tool_output _ _ _ _ _) as [res|]; cbn in Er'; [|done]. injection Er' as <-.
    exists j. eexists _, res, meta. split; [done|]. split; [exact Hb'|]. by apply list_elem_of_singleton.
Qed.
End Pairing.
