(* ===== verification/ContextStream.v ===== *)
(** * From the committed history to the view of an agent

    The history is appended to and never rewritten.  Reading it in pages of any size gives the same
    view; compactions leave it well-formed; and so what the model is sent never has a tool call
    without its output or an output without its call. *)
From S2P Require Import Prelude.
From S2P Require Import Text.
From S2P Require Import ListSort.
From S2P Require Import Json.
From S2P Require Import PermissionFence.
From S2P Require Import ContextWindow.
From S2P Require Import ClmCheckpoint.
From S2P Require Import ToolOutput.
From S2P Require Import History.
From S2P Require Import SourceRecords.
From S2P Require Import ContextManager.
From S2P Require Import ContextProjection.
From S2P Require Import ContextPairing.
From Stdlib Require Import Sorted.

Open Scope nat_scope.

Section Stream.
Context {V : Type} `{JsonLaws V} `{EqDecision V} `{UlidLaws} `{HashIteration} (services : Services V).
Implicit Types (items stream : list (HistoryItem V)) (item : HistoryItem V).

(** ** The append-only history *)

(** Identifiers are fresh, a compaction replaces items before it, a tool call has one identifier and
    at most one output, which is never appended before it; checkpoints were validated. *)
Record stream_ok stream : Prop := {
  stream_ids : NoDup (item_id <$> stream);
  stream_replacements : forall before item after, stream = before ++ item :: after ->
    forall id, id ∈ replacements item -> id ∈ item_id <$> before;
  stream_calls : NoDup (omap tool_call_id stream);
  stream_outputs : NoDup (omap tool_output_id stream);
  stream_order : StronglySorted not_its_call stream;
  stream_checkpoints : forall item, item ∈ stream -> validate_compaction_checkpoint (payload item) = Ok tt
}.

(** ** Sublists *)

Lemma sublist_omap {A B} (f : A -> option B) (l k : list A) : sublist l k -> sublist (omap f l) (omap f k).
Proof.
  induction 1 as [|x l k _ IH|x l k _ IH]; cbn [omap list_omap]; [constructor| |].
  - destruct (f x); [by apply sublist_skip|done].
  - destruct (f x); [by apply sublist_cons|done].
Qed.

Lemma sublist_sorted {A} (R : relation A) (l k : list A) : sublist l k -> StronglySorted R k -> StronglySorted R l.
Proof.
  induction 1 as [|x l k Hs IH|x l k _ IH]; [done| |]; intros [Hk Hf]%StronglySorted_inv; [|by apply IH].
  constructor; [by apply IH|]. apply Forall_forall. intros y Hy. rewrite Forall_forall in Hf. apply Hf.
  by eapply elem_of_submseteq; [exact Hy|apply sublist_submseteq].
Qed.

Definition durable items : list (HistoryItem V) := List.filter (fun item => negb (is_compaction item)) items.

Lemma durable_sublist items : sublist (durable items) items.
Proof. unfold durable. induction items as [|x l IH]; cbn; [constructor|]. destruct (negb _); [by apply sublist_skip|by apply sublist_cons]. Qed.

Lemma omap_durable {B} (f : HistoryItem V -> option B) items : (forall item, is_compaction item = true -> f item = None) ->
  omap f (durable items) = omap f items.
Proof.
  intros Hf. unfold durable. induction items as [|x l IH]; [done|]. cbn. destruct (is_compaction x) eqn:E; cbn; rewrite IH; [by rewrite (Hf x E)|done].
Qed.

Lemma compaction_no_call item : is_compaction item = true -> tool_call_id item = None.
Proof. unfold is_compaction, tool_call_id. by destruct (payload item). Qed.
Lemma compaction_no_output item : is_compaction item = true -> tool_output_id item = None.
Proof. unfold is_compaction, tool_output_id. by destruct (payload item). Qed.

Lemma sorted_durable items : StronglySorted not_its_call (durable items) -> StronglySorted not_its_call items.
Proof.
  unfold durable. induction items as [|x l IH]; intros Hs; [constructor|]. cbn in Hs. destruct (is_compaction x) eqn:E; cbn in Hs.
  - constructor; [by apply IH|]. apply Forall_forall. intros y _ call Ho. by rewrite compaction_no_output in Ho.
  - apply StronglySorted_inv in Hs as [Hs Hf]. constructor; [by apply IH|]. apply Forall_forall. intros y Hy call Ho Hc.
    rewrite Forall_forall in Hf. refine (Hf y _ call Ho Hc). apply list_elem_of_In, filter_In. split; [by apply list_elem_of_In|].
    destruct (is_compaction y) eqn:Ey; [|done]. by rewrite compaction_no_call in Hc.
Qed.

(** ** The view of a prefix *)

Record view_of stream items : Prop := {
  of_ids : NoDup (item_id <$> items);
  of_items : forall item, item ∈ items -> item ∈ stream;
  of_clean : forall item, item ∈ items -> item_id item ∉ compacted_history_item_ids items;
  of_order : sublist (durable items) (durable stream)
}.

Lemma view_of_ok stream items : stream_ok stream -> view_of stream items -> view_ok items.
Proof.
  intros Hs Hv. split.
  - apply Hv.
  - apply Hv.
  - rewrite <- (omap_durable _ _ compaction_no_call). eapply sublist_NoDup; [|apply sublist_omap, (of_order _ _ Hv)].
    rewrite (omap_durable _ _ compaction_no_call). apply Hs.
  - rewrite <- (omap_durable _ _ compaction_no_output). eapply sublist_NoDup; [|apply sublist_omap, (of_order _ _ Hv)].
    rewrite (omap_durable _ _ compaction_no_output). apply Hs.
  - apply sorted_durable. eapply sublist_sorted; [apply (of_order _ _ Hv)|]. eapply sublist_sorted; [apply durable_sublist|apply Hs].
  - intros item Hi. apply (stream_checkpoints _ Hs). by apply (of_items _ _ Hv).
Qed.

Lemma stream_prefix stream tail : stream_ok (stream ++ tail) -> stream_ok stream.
Proof.
  intros Hs. split.
  - pose proof (stream_ids _ Hs) as Hn. rewrite fmap_app in Hn. by apply NoDup_app in Hn as (? & _).
  - intros before item after -> id Hid. apply (stream_replacements _ Hs before item (after ++ tail)); [by rewrite <- app_assoc|done].
  - pose proof (stream_calls _ Hs) as Hn. rewrite omap_app in Hn. by apply NoDup_app in Hn as (? & _).
  - pose proof (stream_outputs _ Hs) as Hn. rewrite omap_app in Hn. by apply NoDup_app in Hn as (? & _).
  - eapply sublist_sorted; [|apply Hs]. by apply sublist_inserts_r.
  - intros item Hi. apply (stream_checkpoints _ Hs). apply elem_of_app. by left.
Qed.

Lemma compacted_known stream items : stream_ok stream -> (forall item, item ∈ items -> item ∈ stream) ->
  forall id, id ∈ compacted_history_item_ids items -> id ∈ item_id <$> stream.
Proof.
  intros Hs Hin id. unfold compacted_history_item_ids. rewrite elem_of_list_to_set, list_elem_of_bind. intros (i & Hid & Hi).
  destruct (list_elem_of_split _ _ (Hin i Hi)) as (before & after & E). rewrite E, fmap_app. apply elem_of_app. left.
  by eapply stream_replacements.
Qed.

(** ** One item more *)

Lemma durable_app a b : durable (a ++ b) = durable a ++ durable b.
Proof. apply List.filter_app. Qed.

Lemma durable_filter (f : HistoryItem V -> bool) items : sublist (durable (List.filter f items)) (durable items).
Proof.
  unfold durable. induction items as [|x l IH]; [constructor|]. cbn. destruct (f x); cbn; destruct (is_compaction x); cbn; try done;
    [by apply sublist_skip|by apply sublist_cons].
Qed.

Lemma compacted_app a b : compacted_history_item_ids (a ++ b) = compacted_history_item_ids a ∪ compacted_history_item_ids (V := V) b.
Proof. unfold compacted_history_item_ids. by rewrite bind_app, list_to_set_app_L. Qed.

Lemma compacted_one item : compacted_history_item_ids [item] = list_to_set (replacements item).
Proof. unfold compacted_history_item_ids. cbn. by rewrite app_nil_r. Qed.

Lemma compacted_subset items k : (forall item, item ∈ items -> item ∈ k) -> compacted_history_item_ids items ⊆ compacted_history_item_ids (V := V) k.
Proof.
  intros Hin id. unfold compacted_history_item_ids. rewrite !elem_of_list_to_set, !list_elem_of_bind. intros (i & Hid & Hi). exists i. auto.
Qed.

Lemma no_replacements item : is_compaction item = false -> replacements item = [].
Proof. unfold is_compaction, replacements. by destruct (payload item). Qed.

Lemma fresh_id stream x tail : stream_ok (stream ++ x :: tail) -> item_id x ∉ item_id <$> stream.
Proof.
  intros Hs. pose proof (stream_ids _ Hs) as Hn. rewrite fmap_app in Hn. apply NoDup_app in Hn as (_ & Hd & _). intros F. apply (Hd _ F). by left.
Qed.

Lemma id_in items item : item ∈ items -> item_id item ∈ item_id <$> items.
Proof. intros Hi. apply list_elem_of_fmap. by exists item. Qed.

Lemma view_append stream items x : stream_ok (stream ++ [x]) -> is_compaction x = false -> view_of stream items ->
  view_of (stream ++ [x]) (items ++ [x]).
Proof.
  intros Hs Hx Hv. pose proof (fresh_id _ _ _ Hs) as Hfresh.
  assert (compacted_history_item_ids (items ++ [x]) = compacted_history_item_ids items) as Hc.
  { rewrite compacted_app, compacted_one, (no_replacements _ Hx). cbn. set_solver. }
  split.
  - rewrite fmap_app. apply NoDup_app. split; [apply Hv|]. split; [|apply NoDup_singleton].
    intros id (i & -> & Hi)%list_elem_of_fmap F%list_elem_of_singleton. apply Hfresh. rewrite <- F. apply id_in. by apply (of_items _ _ Hv).
  - intros item [Hi|Hi%list_elem_of_singleton]%elem_of_app; apply elem_of_app; [left; by apply (of_items _ _ Hv)|right; by apply list_elem_of_singleton].
  - intros item [Hi|Hi%list_elem_of_singleton]%elem_of_app; rewrite Hc; [by apply (of_clean _ _ Hv)|]. subst. intros F. apply Hfresh.
    eapply compacted_known; [by eapply stream_prefix|apply (of_items _ _ Hv)|done].
  - rewrite !durable_app. apply sublist_app; [apply Hv|done].
Qed.

Lemma view_compact stream items x retained index : stream_ok (stream ++ [x]) -> is_compaction x = true -> view_of stream items ->
  retained = List.filter (fun existing => negb (bool_decide (item_id existing ∈ (list_to_set (replacements x) : gset N)))) items ->
  view_of (stream ++ [x]) (take index retained ++ x :: drop index retained).
Proof.
  intros Hs Hx Hv Hr. pose proof (fresh_id _ _ _ Hs) as Hfresh.
  assert (take index retained ++ x :: drop index retained ≡ₚ x :: retained) as Hp.
  { rewrite <- (take_drop index retained) at 3. symmetry. apply Permutation_middle. }
  assert (forall item, item ∈ retained -> item ∈ items /\ item_id item ∉ (list_to_set (replacements x) : gset N)) as Hret.
  { intros item Hi. rewrite Hr in Hi. apply list_elem_of_In, filter_In in Hi as [Hi Hf]. split; [by apply list_elem_of_In|].
    by apply negb_true_iff, bool_decide_eq_false in Hf. }
  assert (forall id, id ∈ compacted_history_item_ids (x :: retained) -> id ∈ item_id <$> stream /\
    (id ∈ compacted_history_item_ids items \/ id ∈ (list_to_set (replacements x) : gset N))) as Hcomp.
  { intros id. change (x :: retained) with ([x] ++ retained). rewrite compacted_app, compacted_one. intros [Hid|Hid]%elem_of_union.
    - split; [|by right]. apply elem_of_list_to_set in Hid. by eapply (stream_replacements _ Hs stream x []).
    - assert (id ∈ compacted_history_item_ids items) as Hid' by (eapply compacted_subset; [|exact Hid]; by intros item [Hi _]%Hret).
      split; [|by left]. eapply compacted_known; [by eapply stream_prefix|apply (of_items _ _ Hv)|done]. }
  split.
  - rewrite Hp, fmap_cons. constructor.
    + intros (i & E & [Hi _]%Hret)%list_elem_of_fmap. apply Hfresh. rewrite E. apply id_in. by apply (of_items _ _ Hv).
    + rewrite Hr. eapply sublist_NoDup; [apply (of_ids _ _ Hv)|]. apply fmap_sublist. clear. induction items as [|y l IH]; cbn; [constructor|].
      destruct (negb _); [by apply sublist_skip|by apply sublist_cons].
  - intros item. rewrite Hp. intros [->|[Hi _]%Hret]%elem_of_cons; apply elem_of_app; [right; by apply list_elem_of_singleton|left; by apply (of_items _ _ Hv)].
  - assert (compacted_history_item_ids (take index retained ++ x :: drop index retained) = compacted_history_item_ids (x :: retained)) as ->.
    { apply set_eq. intros id. unfold compacted_history_item_ids. rewrite !elem_of_list_to_set, !list_elem_of_bind. by setoid_rewrite Hp. }
    intros item. rewrite Hp. intros Hi F%Hcomp. destruct F as [Fs Fc]. apply elem_of_cons in Hi as [->|Hi]; [by apply Hfresh|].
    destruct (Hret _ Hi) as [Hi' Hn]. destruct Fc as [Fc|Fc]; [by apply (of_clean _ _ Hv _ Hi')|done].
  - rewrite !durable_app. unfold durable at 2 4. cbn [List.filter]. rewrite Hx. cbn. rewrite app_nil_r.
    fold (durable (drop index retained)). rewrite <- durable_app, take_drop, Hr. etransitivity; [apply durable_filter|apply Hv].
Qed.

Lemma view_ingest stream items x continuations : stream_ok (stream ++ [x]) -> view_of stream items ->
  view_of (stream ++ [x]) (fst (ingest_item x items continuations)).
Proof.
  intros Hs Hv. unfold ingest_item. destruct (is_compaction x) eqn:Hx; cbn [fst]; [by eapply view_compact|by apply view_append].
Qed.

(** ** Pages *)

Lemma ingest_items_app a b items continuations :
  ingest_items (a ++ b) items continuations =
  (let '(items, continuations) := ingest_items a items continuations in ingest_items b items continuations).
Proof.
  revert items continuations. induction a as [|x a IH]; intros items continuations; [done|]. cbn [app ingest_items].
  destruct (ingest_item x items continuations) as [items' continuations']. apply IH.
Qed.

Lemma view_ingest_all stream continuations : stream_ok stream -> view_of stream (fst (ingest_items stream [] continuations)).
Proof.
  induction stream as [|x stream IH] using rev_ind; intros Hs.
  - split; cbn; [constructor|by intros ? ?%elem_of_nil|by intros ? ?%elem_of_nil|constructor].
  - specialize (IH (stream_prefix _ _ Hs)). rewrite ingest_items_app. destruct (ingest_items stream [] continuations) as [items c']. cbn [fst] in IH.
    cbn [ingest_items]. pose proof (view_ingest stream items x c' Hs IH) as Hx. by destruct (ingest_item x items c').
Qed.

(** The items of the view do not depend on the continuations. *)
Lemma ingest_item_view x items c c' : fst (ingest_item x items c) = fst (ingest_item (V := V) x items c').
Proof. unfold ingest_item. by destruct (is_compaction x). Qed.

Lemma ingest_items_view delta items c c' : fst (ingest_items delta items c) = fst (ingest_items (V := V) delta items c').
Proof.
  revert items c c'. induction delta as [|x delta IH]; intros items c c'; [done|]. cbn [ingest_items].
  pose proof (ingest_item_view x items c c') as E. destruct (ingest_item x items c), (ingest_item x items c'). cbn [fst] in E. subst. apply IH.
Qed.

(** What may happen to a context between two requests: pages of the committed history, and private state. *)
Inductive ContextEvent :=
  | Page (delta : list (HistoryItem V)) (next_cursor : option Z)
  | Continuation (response_id : ModelResponseId) (continuation : ChatToolContinuation)
  | ClearContinuations.

Definition context_event (c : ContextManager V) (e : ContextEvent) : ContextManager V :=
  match e with
  | Page delta next_cursor => fst (ingest_committed_delta services delta next_cursor c)
  | Continuation response_id continuation => record_chat_continuation response_id continuation c
  | ClearContinuations => clear_chat_continuations c
  end.
Definition page_of (e : ContextEvent) : list (HistoryItem V) := match e with Page delta _ => delta | _ => [] end.

Definition new_context : ContextManager V := from_active_history services [] None 0.

Lemma context_items c e : history_items (context_event c e) = fst (ingest_items (page_of e) (history_items c) ∅).
Proof.
  destruct e as [delta cursor| |]; [|done..]. cbn [context_event page_of]. unfold ingest_committed_delta. destruct delta as [|x delta]; [done|].
  cbn [is_empty]. rewrite (ingest_items_view _ _ ∅ (chat_continuations c)). by destruct (ingest_items _ _ _).
Qed.

Lemma context_events_items events c :
  history_items (fold_left context_event events c) = fst (ingest_items (concat (map page_of events)) (history_items c) ∅).
Proof.
  revert c. induction events as [|e events IH]; intros c; [done|]. cbn [fold_left map concat]. rewrite IH, context_items, ingest_items_app.
  destruct (ingest_items (page_of e) (history_items c) ∅) as [items c']. cbn [fst]. apply ingest_items_view.
Qed.

(** ** The model can always be asked *)

Lemma mapM_total {A B} (f : A -> option B) l : (forall x, x ∈ l -> is_Some (f x)) -> is_Some (mapM f l).
Proof. intros Hf. apply mapM_is_Some, Forall_forall. apply Hf. Qed.

Lemma summary_total summary : is_Some (semantic_compaction_message services summary).
Proof.
  unfold semantic_compaction_message. destruct (project_checkpoint_summary_total (codecs services) summary) as [out ->]. by eexists.
Qed.

Lemma reference_total supports_images items continuations : view_ok items -> is_Some (reference_messages services supports_images items continuations).
Proof.
  intros Hv. unfold reference_messages. apply fmap_is_Some, mapM_total. intros [i item] Hi%elem_of_enumerate.
  pose proof (view_checkpoints _ Hv item ltac:(by eapply list_elem_of_lookup_2)) as Hc. unfold reference_item.
  destruct (payload item); try by eexists.
  - destruct (name_of_call items call) as [[id name]|]; [|by eexists].
    destruct (tool_output_summary (hint_from_value services) name status output_text metadata) as (out & -> & _). by eexists.
  - destruct (summary_total summary) as [m Hm]. destruct layout; [rewrite Hm; by eexists|rewrite Hm; by eexists|].
    cbn [validate_compaction_checkpoint validate_checkpoint] in Hc. destruct clm_checkpoint as [checkpoint|]; [|done]. cbn [mbind option_bind].
    unfold messages_of. destruct (validate checkpoint) as [[]|]; cbn [and_then] in *; [by eexists|done].
Qed.

(** C2. However the committed history is split into pages and whatever private state is kept in between, an
    agent's view of it is the same; and from it the model can always be asked: no step fails, every tool
    call it is shown is followed by its output and every output follows its call. *)
Theorem committed_history_is_matched events supports_images :
  let history := concat (map page_of events) in
  let c := fold_left context_event events new_context in
  stream_ok history ->
  history_items c = fst (ingest_items history [] ∅) /\
  exists messages, model_messages services supports_images c = Some messages /\ paired messages.
Proof.
  intros history c Hs. assert (history_items c = fst (ingest_items history [] ∅)) as E by apply context_events_items. split; [done|].
  pose proof (view_of_ok _ _ Hs (view_ingest_all history ∅ Hs)) as Hv. rewrite <- E in Hv.
  destruct (reference_total supports_images (history_items c) (chat_continuations c) Hv) as [messages Hm].
  exists messages. unfold model_messages. rewrite project_reference by done. split; [done|].
  unfold reference_messages in Hm. apply fmap_Some in Hm as (blocks & Hb & ->). apply paired_concat. by eapply reference_paired.
Qed.
End Stream.

(** ** A concrete conversation *)

#[local] Instance plain_iteration : HashIteration := {| hash_iter A m := map_to_list m; hash_iter_perm A m := reflexivity _ |}.
#[export] Instance Tree_eq_dec : EqDecision Tree.
Proof.
  refine (fix go (a b : Tree) : {a = b} + {a <> b} :=
    match a, b with
    | TNull, TNull => left eq_refl
    | TBool x, TBool y => cast_if (decide (x = y))
    | TInt x, TInt y => cast_if (decide (x = y))
    | TStr x, TStr y => cast_if (decide (x = y))
    | TObj x, TObj y => cast_if (@list_eq_dec _ (fun p q => @prod_eq_dec _ _ _ go p q) x y)
    | _, _ => right _
    end); congruence.
Defined.

Definition demo_services : Services Tree := {|
  codecs := {| parse_arguments _ := None; remove_argument v _ := v; data_to_vec_len _ := None; parse_records _ := None;
               records_to_string _ := None; sha256_hex s := s |};
  hint_from_value _ := None; payload_to_vec _ := None; sha256_base64 bytes := bytes |}.

Definition demo_item (id : N) (p : HistoryItemPayload Tree) : HistoryItem Tree :=
  {| item_id := id; item_session := 1; scope := TurnScope 2; sequence_no := Z.of_N id; created_at_ms := 0; payload := p |}.

Definition demo_events : list (ContextEvent (V := Tree)) :=
  [Page [demo_item 1 (UserTurn [TextContent (lit "go")] None None); demo_item 2 (ToolCall 20 30 (lit "x") (lit "read") (lit "{}"))] (Some 1%Z);
   Continuation 30 {| reasoning_content := lit "r" |};
   Page [demo_item 3 (ToolOutputItem 20 Completed (lit "t") (lit "text") TNull None);
         demo_item 4 (Compaction Automatic UserAnchoredCheckpoint [lit "go"] None (lit "done") [1%N; 2%N; 3%N]);
         demo_item 5 (ToolCall 21 31 [] (lit "list") (lit "{}"))] (Some 2%Z);
   Page [demo_item 6 (ToolOutputItem 21 Completed (lit "t") (lit "a b") TNull None)] (Some 3%Z)].

#[local] Instance one_char_ulid : Ulid :=
  {| ulid_to_string n := [n]; ulid_from_string s := match s with [n] => Ok n | _ => Err (lit "invalid") end |}.
#[local] Instance one_char_laws : UlidLaws one_char_ulid.
Proof. split; [reflexivity|discriminate]. Qed.

Definition demo_history : list (HistoryItem Tree) := concat (map page_of demo_events).

Lemma demo_stream_ok : stream_ok demo_history.
Proof.
  split.
  - vm_compute. repeat (constructor; [intros F; repeat (apply elem_of_cons in F as [F|F]; [discriminate F|]); by apply elem_of_nil in F|]). constructor.
  - intros before item after E id Hid.
    destruct before as [|b1 [|b2 [|b3 [|b4 [|b5 [|b6 [|b7 rest]]]]]]]; cbn in E;
      repeat match goal with F : _ :: _ = _ :: _ |- _ => injection F as ? F; subst end; try discriminate;
      cbn in Hid; try (by apply elem_of_nil in Hid); cbn.
    repeat (apply elem_of_cons in Hid as [->|Hid]; [set_solver|]). by apply elem_of_nil in Hid.
  - vm_compute. repeat (constructor; [intros F; repeat (apply elem_of_cons in F as [F|F]; [discriminate F|]); by apply elem_of_nil in F|]). constructor.
  - vm_compute. repeat (constructor; [intros F; repeat (apply elem_of_cons in F as [F|F]; [discriminate F|]); by apply elem_of_nil in F|]). constructor.
  - unfold demo_history. cbn. repeat constructor; intros call E; cbn in E |- *; congruence.
  - intros item Hi. unfold demo_history in Hi. cbn in Hi. repeat (apply elem_of_cons in Hi as [->|Hi]; [reflexivity|]). by apply elem_of_nil in Hi.
Qed.

Lemma committed_history_is_matched_witness : exists messages,
  model_messages demo_services true (fold_left (context_event demo_services) demo_events (new_context demo_services)) = Some messages /\
  paired messages.
Proof. exact (proj2 (committed_history_is_matched demo_services demo_events true demo_stream_ok)). Defined.

(** The view after the compaction: the checkpoint where the replaced items began, then the new call. *)
Lemma demo_view_ok : view_ok (history_items (fold_left (context_event demo_services) demo_events (new_context demo_services))).
Proof.
  rewrite (context_events_items demo_services). apply (view_of_ok demo_history); [apply demo_stream_ok|].
  apply (view_ingest_all demo_history ∅ demo_stream_ok).
Qed.

Lemma messages_are_sent_item_by_item_witness :
  project_model_messages demo_services (history_items (fold_left (context_event demo_services) demo_events (new_context demo_services))) true ∅ =
  reference_messages demo_services true (history_items (fold_left (context_event demo_services) demo_events (new_context demo_services))) ∅.
Proof. exact (messages_are_sent_item_by_item demo_services true _ ∅ demo_view_ok). Defined.
