(* ===== verification/ContextUnits.v ===== *)
(** * What a compaction may replace

    The units a compaction chooses from never separate a tool call from its output, nor the items
    of one model response from each other; while a call has no output nothing may be replaced; and
    the inputs that carry the user's authority are spared. *)
From S2P Require Import Prelude.
From S2P Require Import Text.
From S2P Require Import ListSort.
From S2P Require Import Json.
From S2P Require Import PermissionFence.
From S2P Require Import ContextWindow.
From S2P Require Import ClmCheckpoint.
From S2P Require Import ToolOutput.
From S2P Require Import History.
From S2P Require Import SourceRecords.
From S2P Require Import ContextManager.
From S2P Require Import ContextProjection.
From S2P Require Import ContextPairing.
From S2P Require Import ContextStream.
From Stdlib Require Import Sorted.

Open Scope nat_scope.

Section Units.
Context {V : Type} `{JsonLaws V} `{EqDecision V} `{UlidLaws} `{HashIteration} (services : Services V).
Implicit Types (items : list (HistoryItem V)) (item : HistoryItem V) (l : list (nat * HistoryItem V)) (r : ModelResponseId).

(** ** The maps *)

Definition call_pair (indexed : nat * HistoryItem V) : option (ToolCallId * ModelResponseId) :=
  match payload (snd indexed) with ToolCall call r _ _ _ => Some (call, r) | _ => None end.
Definition response_entry (indexed : nat * HistoryItem V) : option (ModelResponseId * (nat * HistoryItemId)) :=
  (fun r => (r, (fst indexed, item_id (snd indexed)))) <$> response_of (snd indexed).
Definition call_entry (indexed : nat * HistoryItem V) : option (ModelResponseId * ToolCallId) :=
  (fun p => (snd p, fst p)) <$> call_pair indexed.
Definition output_entry (responses : gmap ToolCallId ModelResponseId) (indexed : nat * HistoryItem V)
    : option (ModelResponseId * (nat * HistoryItemId)) :=
  call ← tool_output_id (snd indexed);
  r ← responses !! call;
  Some (r, (fst indexed, item_id (snd indexed))).

Lemma call_pair_id i item call r : call_pair (i, item) = Some (call, r) -> tool_call_id item = Some call /\ response_of item = Some r.
Proof. unfold call_pair, tool_call_id, response_of. cbn [snd]. destruct (payload item); try done. by intros [= -> ->]. Qed.

Lemma note_unit_fold l maps :
  call_response (fold_left note_unit l maps) = fold_left (fun m e => <[fst e := snd e]> m) (omap call_pair l) (call_response maps) /\
  response_items (fold_left note_unit l maps) =
    fold_left (fun m e => push_at (fst e) (snd e) m) (omap response_entry l) (response_items maps) /\
  response_calls (fold_left note_unit l maps) =
    fold_left (fun m e => push_at (fst e) (snd e) m) (omap call_entry l) (response_calls maps) /\
  forall call, call ∈ output_calls (fold_left note_unit l maps) <->
    call ∈ output_calls maps \/ call ∈ omap (fun indexed => tool_output_id (snd indexed)) l.
Proof.
  revert maps. induction l as [|[i item] l IH]; intros maps; cbn [fold_left omap list_omap].
  - split_and!; try done. intros call. rewrite elem_of_nil. tauto.
  - destruct (IH (note_unit maps (i, item))) as (E1 & E2 & E3 & E4). rewrite E1, E2, E3.
    unfold note_unit, call_pair, response_entry, call_entry, call_pair, response_of, tool_output_id in *. cbn [fst snd] in *.
    destruct (payload item); cbn [call_response response_items response_calls output_calls fmap option_fmap option_map fst snd] in *;
      (split; [done|split; [done|split; [done|]]]); intros c; rewrite E4, ?elem_of_cons; [tauto..| |tauto|tauto|tauto|tauto|tauto].
    rewrite elem_of_union, elem_of_singleton. tauto.
Qed.

Lemma note_output_fold l maps :
  call_response (fold_left note_output l maps) = call_response maps /\
  response_items (fold_left note_output l maps) =
    fold_left (fun m e => push_at (fst e) (snd e) m) (omap (output_entry (call_response maps)) l) (response_items maps) /\
  response_calls (fold_left note_output l maps) = response_calls maps /\
  output_calls (fold_left note_output l maps) = output_calls maps.
Proof.
  revert maps. induction l as [|[i item] l IH]; intros maps; cbn [fold_left omap list_omap]; [done|].
  destruct (IH (note_output maps (i, item))) as (E1 & E2 & E3 & E4). rewrite E1, E2, E3, E4. clear.
  unfold note_output, output_entry, tool_output_id. cbn [fst snd].
  destruct (payload item); cbn [mbind option_bind]; try done. by destruct (call_response maps !! call).
Qed.

Lemma unit_maps_spec l :
  call_response (unit_maps l) = last_wins (omap call_pair l) /\
  (forall r, default [] (response_items (unit_maps l) !! r) =
     of_key r (omap response_entry l) ++ of_key r (omap (output_entry (last_wins (omap call_pair l))) l)) /\
  response_calls (unit_maps l) = group (omap call_entry l) /\
  (forall call, call ∈ output_calls (unit_maps l) <-> call ∈ omap (fun indexed => tool_output_id (snd indexed)) l).
Proof.
  unfold unit_maps. set (start := {| call_response := ∅; response_items := ∅; response_calls := ∅; output_calls := ∅ |}).
  destruct (note_unit_fold l start) as (E1 & E2 & E3 & E4). destruct (note_output_fold l (fold_left note_unit l start)) as (F1 & F2 & F3 & F4).
  rewrite F1, F2, F3, F4, E1. split_and!; [done| |by rewrite E3|].
  - intros r. rewrite group_fold_lookup, E2, group_fold_lookup. cbn [response_items start]. by rewrite lookup_empty.
  - intros call. rewrite E4. cbn. set_solver.
Qed.

(** ** The active items a unit is made of *)

Definition visible items (excluded : gset HistoryItemId) : list (nat * HistoryItem V) :=
  List.filter (fun indexed => negb (bool_decide (item_id (snd indexed) ∈ excluded))) (enumerate items).

Lemma in_visible items excluded i item : (i, item) ∈ visible items excluded <-> items !! i = Some item /\ item_id item ∉ excluded.
Proof.
  unfold visible. rewrite list_elem_of_In, filter_In, <- list_elem_of_In, elem_of_enumerate. cbn [snd].
  rewrite negb_true_iff, bool_decide_eq_false. done.
Qed.

Section View.
Context items (excluded : gset HistoryItemId) (Hv : view_ok items).
Let maps := unit_maps (visible items excluded).

Lemma call_response_Some call r : call_response maps !! call = Some r <->
  exists i item, items !! i = Some item /\ item_id item ∉ excluded /\ call_pair (i, item) = Some (call, r).
Proof.
  unfold maps. rewrite (proj1 (unit_maps_spec _)). split.
  - intros ([i item] & Hin%in_visible & Hc)%last_wins_elem%list_elem_of_omap. exists i, item. tauto.
  - intros (i & item & Hi & He & Hc). apply last_wins_functional.
    + apply list_elem_of_omap. exists (i, item). split; [by apply in_visible|done].
    + intros r' ([j item'] & [Hj _]%in_visible & Hc')%list_elem_of_omap.
      destruct (call_pair_id _ _ _ _ Hc) as [Hid Hr], (call_pair_id _ _ _ _ Hc') as [Hid' Hr'].
      pose proof (nodup_omap_inj _ _ _ _ _ _ _ (view_calls _ Hv) Hi Hj Hid Hid') as ->. congruence.
Qed.

(** The response an item belongs to: its own, or that of the call it is the output of. *)
Definition belongs item r : Prop :=
  item_id item ∉ excluded /\
  (response_of item = Some r \/ exists call, tool_output_id item = Some call /\ call_response maps !! call = Some r).

Lemma in_response_items r i id : (i, id) ∈ default [] (response_items maps !! r) <->
  exists item, items !! i = Some item /\ item_id item = id /\ belongs item r.
Proof.
  unfold maps at 1. destruct (unit_maps_spec (visible items excluded)) as (E1 & E2 & _ & _). rewrite E2, elem_of_app, !elem_of_of_key, !list_elem_of_omap, <- E1.
  fold maps. unfold belongs. split.
  - intros [([j item] & [Hj He]%in_visible & Hr)|([j item] & [Hj He]%in_visible & Hr)].
    + unfold response_entry in Hr. cbn [fst snd] in Hr. apply fmap_Some in Hr as (r' & Er & Heq). injection Heq as ? ? ?; subst. exists item. auto.
    + unfold output_entry in Hr. cbn [fst snd] in Hr. apply bind_Some in Hr as (call & Ho & Hr). apply bind_Some in Hr as (r' & Hc & Heq). injection Heq as ? ? ?; subst.
      exists item. split; [done|]. split; [done|]. split; [done|]. right. by exists call.
  - intros (item & Hi & <- & He & [Hr|(call & Ho & Hc)]); [left|right]; exists (i, item); (split; [by apply in_visible|]).
    + unfold response_entry. cbn [fst snd]. by rewrite Hr.
    + unfold output_entry. cbn [fst snd]. rewrite Ho. cbn [mbind option_bind]. fold maps. by rewrite Hc.
Qed.

Lemma in_response_calls r call : call ∈ default [] (response_calls maps !! r) <-> call_response maps !! call = Some r.
Proof.
  rewrite call_response_Some. unfold maps. destruct (unit_maps_spec (visible items excluded)) as (_ & _ & E3 & _).
  rewrite E3, group_default, elem_of_of_key, list_elem_of_omap. unfold call_entry. split.
  - intros ([i item] & [Hi He]%in_visible & Hc). apply fmap_Some in Hc as ([c r'] & Hc & Heq). injection Heq as ? ?; subst. by exists i, item.
  - intros (i & item & Hi & He & Hc). exists (i, item). split; [by apply in_visible|]. by rewrite Hc.
Qed.

Lemma in_output_calls call : call ∈ output_calls maps <->
  exists i item, items !! i = Some item /\ item_id item ∉ excluded /\ tool_output_id item = Some call.
Proof.
  unfold maps. destruct (unit_maps_spec (visible items excluded)) as (_ & _ & _ & E4). rewrite E4, list_elem_of_omap. split.
  - intros ([i item] & [Hi He]%in_visible & Ho). by exists i, item.
  - intros (i & item & Hi & He & Ho). exists (i, item). split; [by apply in_visible|done].
Qed.

Lemma unsettled_false r : unsettled maps r = false -> forall call, call_response maps !! call = Some r -> call ∈ output_calls maps.
Proof.
  intros Hu call Hc%in_response_calls. unfold unsettled in Hu. destruct (response_calls maps !! r) as [calls|]; [|by apply elem_of_nil in Hc].
  cbn in Hc. destruct (decide (call ∈ output_calls maps)) as [|Hno]; [done|]. exfalso. apply not_true_iff_false in Hu. apply Hu.
  apply existsb_exists. exists call. split; [by apply list_elem_of_In|]. by rewrite bool_decide_eq_false_2.
Qed.

Lemma unsettled_true r call : call_response maps !! call = Some r -> call ∉ output_calls maps -> unsettled maps r = true.
Proof.
  intros Hc Hno. destruct (unsettled maps r) eqn:E; [done|]. by destruct (Hno (unsettled_false r E call Hc)).
Qed.

Lemma first_of_None {A} (l : list (nat * A)) : first_of l = None -> l = [].
Proof. by destruct l. Qed.

Lemma all_settled : first_unsettled_response_index maps = None -> forall r call, call_response maps !! call = Some r -> call ∈ output_calls maps.
Proof.
  intros Hf r call Hc. destruct (decide (call ∈ output_calls maps)) as [|Hno]; [done|]. exfalso.
  pose proof (unsettled_true r call Hc Hno) as Hu. unfold first_unsettled_response_index in Hf. apply first_of_None in Hf.
  destruct (proj1 (call_response_Some call r) Hc) as (i & item & Hi & He & Hp).
  assert ((i, item_id item) ∈ default [] (response_items maps !! r)) as Hin.
  { apply in_response_items. exists item. split; [done|]. split; [done|]. split; [done|]. left. by apply call_pair_id in Hp as [_ ?]. }
  destruct (response_items maps !! r) as [its|] eqn:Ei; [|by apply elem_of_nil in Hin]. cbn in Hin.
  assert ((r, its) ∈ hash_iter (response_items maps)) as Hh by (rewrite hash_iter_perm; by apply elem_of_map_to_list).
  assert (exists x, x ∈ omap (fun '(r, its) => if unsettled maps r then (fun i => (i, tt)) <$> first_of its else None) (hash_iter (response_items maps))) as (x & Hx).
  { destruct its as [|[j id] its]; [by apply elem_of_nil in Hin|].
    destruct (first_of ((j, id) :: its)) as [k|] eqn:Ek; [|done]. exists (k, tt). apply list_elem_of_omap. exists (r, (j, id) :: its).
    split; [done|]. by rewrite Hu, Ek. }
  rewrite Hf in Hx. by apply elem_of_nil in Hx.
Qed.

(** ** Membership in a unit *)

Lemma response_unit_ids r its i ids : response_unit maps r its = Some (i, ids) -> forall id, id ∈ ids <-> exists j, (j, id) ∈ its.
Proof.
  unfold response_unit. destruct (unsettled maps r); [done|]. intros E id.
  assert (stable_sort index_leb its ≡ₚ its) as Hp by apply stable_sort_perm. destruct (stable_sort index_leb its) as [|[k x] rest]; [done|].
  injection E as -> <-. setoid_rewrite <- Hp. change (x :: map snd rest) with (map snd ((i, x) :: rest)). split.
  - intros ([j y] & <- & Hin%list_elem_of_In)%list_elem_of_In%in_map_iff. by exists j.
  - intros (j & Hin). apply list_elem_of_In, in_map_iff. exists (j, id). split; [done|by apply list_elem_of_In].
Qed.
End View.

(** ** Exchanges stay whole *)

Lemma same_item items a b : view_ok items -> a ∈ items -> b ∈ items -> item_id a = item_id b -> a = b.
Proof.
  intros Hv (i & Hi)%list_elem_of_lookup (j & Hj)%list_elem_of_lookup E.
  assert (i = j) as ->; [|congruence]. eapply (NoDup_lookup (item_id <$> items)); [apply Hv|by rewrite list_lookup_fmap, Hi|].
  by rewrite list_lookup_fmap, Hj, E.
Qed.

Lemma in_units (c : ContextManager V) excluded ids : view_ok (history_items c) -> ids ∈ semantic_compaction_units_excluding excluded c ->
  let maps := unit_maps (visible (history_items c) excluded) in
  first_unsettled_response_index maps = None /\
  ((exists item, item ∈ history_items c /\ is_unit_item item = true /\ ids = [item_id item]) \/
   exists r its i, response_items maps !! r = Some its /\ response_unit maps r its = Some (i, ids)).
Proof.
  intros Hv. unfold semantic_compaction_units_excluding. rewrite (active_enumerated_id _ Hv). fold (visible (history_items c) excluded). cbv zeta.
  set (maps := unit_maps _). destruct (first_unsettled_response_index maps); [by intros ?%elem_of_nil|]. intros Hin. split; [done|].
  apply list_elem_of_In, in_map_iff in Hin as ([i ids'] & <- & Hin%list_elem_of_In). rewrite stable_sort_perm in Hin. cbn [snd].
  apply elem_of_app in Hin as [([r its] & Hr & Hu)%list_elem_of_omap|Hin].
  - right. exists r, its, i. split; [|done]. rewrite hash_iter_perm in Hr. by apply elem_of_map_to_list in Hr.
  - left. apply list_elem_of_In, in_map_iff in Hin as ([j item] & [= <- <-] & [Hin Hu]%filter_In). exists item.
    apply list_elem_of_In, in_visible in Hin as [Hj _]. split; [by eapply list_elem_of_lookup_2|done].
Qed.

(** The response an item of a unit belongs to; the whole of it is in the unit. *)
Lemma unit_response (c : ContextManager V) excluded ids item : view_ok (history_items c) ->
  ids ∈ semantic_compaction_units_excluding excluded c -> item ∈ history_items c -> item_id item ∈ ids -> is_unit_item item = false ->
  first_unsettled_response_index (unit_maps (visible (history_items c) excluded)) = None /\
  exists r, belongs (history_items c) excluded item r /\
    forall other, other ∈ history_items c -> belongs (history_items c) excluded other r -> item_id other ∈ ids.
Proof.
  intros Hv Hin Hitem Hid Hnot. destruct (in_units c excluded ids Hv Hin) as [Hset [(x & Hx & Hu & ->)|(r & its & i & Hr & Hu)]]; (split; [done|]).
  - apply list_elem_of_singleton in Hid. by rewrite (same_item _ item x Hv Hitem Hx Hid), Hu in Hnot.
  - exists r. pose proof (response_unit_ids _ _ _ _ _ _ Hu) as Hids.
    assert (forall y, y ∈ ids <-> exists item, item ∈ history_items c /\ item_id item = y /\ belongs (history_items c) excluded item r) as Hall.
    { intros y. rewrite Hids. split.
      - intros (j & Hj). destruct (proj1 (in_response_items (history_items c) excluded r j y)) as (x & Hx & <- & Hb); [by rewrite Hr|].
        exists x. split; [by eapply list_elem_of_lookup_2|done].
      - intros (x & (j & Hj)%list_elem_of_lookup & <- & Hb). exists j.
        assert ((j, item_id x) ∈ default [] (response_items (unit_maps (visible (history_items c) excluded)) !! r)) as F
          by (apply in_response_items; by exists x). by rewrite Hr in F. }
    split; [|intros other Ho Hb; apply Hall; by exists other].
    apply Hall in Hid as (x & Hx & Hid & Hb). by rewrite (same_item _ item x Hv Hitem Hx (eq_sym Hid)).
Qed.

Lemma call_not_unit (k : HistoryItem V) call : tool_call_id k = Some call -> is_unit_item k = false /\ tool_output_id k = None.
Proof. unfold tool_call_id, is_unit_item, tool_output_id. by destruct (payload k). Qed.
Lemma output_not_unit (o : HistoryItem V) call : tool_output_id o = Some call -> is_unit_item o = false /\ response_of o = None.
Proof. unfold tool_output_id, is_unit_item, response_of. by destruct (payload o). Qed.
Lemma response_not_unit (a : HistoryItem V) r : response_of a = Some r -> is_unit_item a = false /\ tool_output_id a = None.
Proof. unfold response_of, is_unit_item, tool_output_id. by destruct (payload a). Qed.

Lemma call_pair_of (k : HistoryItem V) call r i : tool_call_id k = Some call -> response_of k = Some r -> call_pair (i, k) = Some (call, r).
Proof. unfold tool_call_id, response_of, call_pair. cbn [snd]. destruct (payload k); try done. by intros [= ->] [= ->]. Qed.

Lemma unique_by {B} (f : HistoryItem V -> option B) items a b x : NoDup (omap f items) -> a ∈ items -> b ∈ items ->
  f a = Some x -> f b = Some x -> a = b.
Proof.
  intros Hn (i & Hi)%list_elem_of_lookup (j & Hj)%list_elem_of_lookup Ha Hb.
  pose proof (nodup_omap_inj f items i j a b x Hn Hi Hj Ha Hb) as ->. congruence.
Qed.

Lemma unit_call_output (c : ContextManager V) excluded ids k o call : view_ok (history_items c) ->
  ids ∈ semantic_compaction_units_excluding excluded c -> k ∈ history_items c -> o ∈ history_items c ->
  tool_call_id k = Some call -> tool_output_id o = Some call -> item_id k ∈ ids <-> item_id o ∈ ids.
Proof.
  intros Hv Hin Hk Ho Hck Hco. split; intros Hid.
  - destruct (call_not_unit _ _ Hck) as [Hu Hno]. destruct (unit_response c excluded ids k Hv Hin Hk Hid Hu) as (Hset & r & [He Hr] & Hall).
    destruct Hr as [Hr|(? & F & _)]; [|congruence]. apply list_elem_of_lookup in Hk as (i & Hi).
    assert (call_response (unit_maps (visible (history_items c) excluded)) !! call = Some r) as Hc
      by (apply call_response_Some; [done|]; exists i, k; split_and!; [done|done|by apply call_pair_of]).
    destruct (proj1 (in_output_calls _ excluded call) (all_settled _ excluded Hv Hset r call Hc)) as (j & o' & Hj & He' & Ho').
    assert (o' = o) as -> by (eapply (unique_by (tool_output_id (V := V))); [apply Hv|by eapply list_elem_of_lookup_2|done|done|done]).
    apply Hall; [done|]. split; [done|]. right. by exists call.
  - destruct (output_not_unit _ _ Hco) as [Hu Hno]. destruct (unit_response c excluded ids o Hv Hin Ho Hid Hu) as (Hset & r & [He Hr] & Hall).
    destruct Hr as [F|(call' & Hco' & Hc)]; [congruence|]. assert (call' = call) as -> by congruence.
    destruct (proj1 (call_response_Some _ excluded Hv call r) Hc) as (i & k' & Hi & He' & [Hid' Hr']%call_pair_id).
    assert (k' = k) as -> by (eapply (unique_by (tool_call_id (V := V))); [apply Hv|by eapply list_elem_of_lookup_2|done|done|done]).
    apply Hall; [done|]. split; [done|]. by left.
Qed.

Lemma unit_siblings (c : ContextManager V) excluded ids a b r : view_ok (history_items c) ->
  ids ∈ semantic_compaction_units_excluding excluded c -> a ∈ history_items c -> b ∈ history_items c ->
  response_of a = Some r -> response_of b = Some r -> item_id b ∉ excluded -> item_id a ∈ ids -> item_id b ∈ ids.
Proof.
  intros Hv Hin Ha Hb Hra Hrb He Hid. destruct (response_not_unit _ _ Hra) as [Hu Hno].
  destruct (unit_response c excluded ids a Hv Hin Ha Hid Hu) as (_ & r' & [_ Hr] & Hall). destruct Hr as [Hr|(? & F & _)]; [|congruence].
  assert (r' = r) as -> by congruence. apply Hall; [done|]. split; [done|]. by left.
Qed.

(** ** After the compaction *)

Lemma in_compacted x items continuations a : is_compaction x = true -> a <> x ->
  a ∈ fst (ingest_item x items continuations) <-> a ∈ items /\ item_id a ∉ replacements x.
Proof.
  intros Hx Hne. unfold ingest_item. rewrite Hx. cbn [fst].
  set (retained := List.filter _ items). rewrite elem_of_app, elem_of_cons.
  assert ((a ∈ take (Nat.min (default (length items) (position (fun existing => bool_decide (item_id existing ∈ (list_to_set (replacements x) : gset N))) items)) (length retained)) retained \/
    a ∈ drop (Nat.min (default (length items) (position (fun existing => bool_decide (item_id existing ∈ (list_to_set (replacements x) : gset N))) items)) (length retained)) retained) <-> a ∈ retained) as Hret
    by (rewrite <- elem_of_app, take_drop; done).
  assert (a ∈ retained <-> a ∈ items /\ item_id a ∉ replacements x) as Hr.
  { unfold retained. rewrite list_elem_of_In, filter_In, <- list_elem_of_In, negb_true_iff, bool_decide_eq_false, elem_of_list_to_set. done. }
  tauto.
Qed.

Lemma chosen_in (units chosen : list (list HistoryItemId)) id : (forall ids, ids ∈ chosen -> ids ∈ units) ->
  id ∈ concat chosen -> exists ids, ids ∈ units /\ id ∈ ids /\ forall id', id' ∈ ids -> id' ∈ concat chosen.
Proof.
  intros Hc (ids & Hin%list_elem_of_In & Hid%list_elem_of_In)%list_elem_of_In%in_concat. exists ids. split; [by apply Hc|]. split; [done|].
  intros id' Hid'. apply list_elem_of_In, in_concat. exists ids. by rewrite <- !list_elem_of_In.
Qed.

(** C17. Whichever of the offered units a compaction replaces, no exchange is torn apart: a tool call is still in
    the view exactly when its output is, and what is left of a model response is all of it or nothing. *)
Theorem compaction_keeps_exchanges_whole (c : ContextManager V) excluded chosen x continuations : view_ok (history_items c) ->
  (forall ids, ids ∈ chosen -> ids ∈ semantic_compaction_units_excluding excluded c) ->
  is_compaction x = true -> replacements x = concat chosen ->
  let items := fst (ingest_item x (history_items c) continuations) in
  (forall k o call, k ∈ history_items c -> o ∈ history_items c -> tool_call_id k = Some call -> tool_output_id o = Some call ->
     (k ∈ items <-> o ∈ items)) /\
  (forall a b r, a ∈ history_items c -> b ∈ history_items c -> response_of a = Some r -> response_of b = Some r ->
     item_id a ∉ excluded -> item_id b ∉ excluded -> (a ∈ items <-> b ∈ items)).
Proof.
  intros Hv Hch Hx Hrep items.
  assert (forall a, is_unit_item a = false -> a <> x) as Hne
    by (intros a Ha ->; unfold is_unit_item, is_compaction in *; by destruct (payload x)).
  split.
  - intros k o call Hk Ho Hck Hco. destruct (call_not_unit _ _ Hck) as [Huk _], (output_not_unit _ _ Hco) as [Huo _].
    unfold items. rewrite !in_compacted, Hrep by (try done; by apply Hne).
    assert (item_id k ∈ concat chosen <-> item_id o ∈ concat chosen) as E; [|tauto].
    split; intros (ids & Hin & Hid & Hall)%(chosen_in _ _ _ Hch); apply Hall; by apply (unit_call_output c excluded ids k o call).
  - intros a b r Ha Hb Hra Hrb Hea Heb. destruct (response_not_unit _ _ Hra) as [Hua _], (response_not_unit _ _ Hrb) as [Hub _].
    unfold items. rewrite !in_compacted, Hrep by (try done; by apply Hne).
    assert (item_id a ∈ concat chosen <-> item_id b ∈ concat chosen) as E; [|tauto].
    split; intros (ids & Hin & Hid & Hall)%(chosen_in _ _ _ Hch); apply Hall;
      first [by apply (unit_siblings c excluded ids a b r)|by apply (unit_siblings c excluded ids b a r)].
Qed.

(** ** What is spared *)

Inductive InputKind := UserInput | SteerInput | AgentInput | ReplaySnapshot.
#[export] Instance InputKind_eq_dec : EqDecision InputKind.
Proof. solve_decision. Defined.

Definition input_kind item : option InputKind :=
  match payload item with
  | UserTurn _ _ _ => Some UserInput
  | SteerTurn _ _ _ _ => Some SteerInput
  | InterAgentItem communication => if trigger_turn communication then Some AgentInput else None
  | Compaction _ _ _ (Some _) _ _ => Some ReplaySnapshot
  | _ => None
  end.

Lemma note_newest_grows item n : protected_ids n ⊆ protected_ids (note_newest n item).
Proof.
  unfold note_newest. destruct (payload item); try done.
  - destruct (newest_user n); cbn; set_solver.
  - destruct (newest_steer n); cbn; set_solver.
  - destruct (_ && _); cbn; set_solver.
  - destruct clm_checkpoint; cbn; set_solver.
Qed.

Lemma newest_fold_grows items n : protected_ids n ⊆ protected_ids (fold_left note_newest items n).
Proof. revert n. induction items as [|x l IH]; intros n; [done|]. cbn [fold_left]. etransitivity; [apply note_newest_grows|apply IH]. Qed.

Definition seen_kind (k : InputKind) (n : Newest) : bool :=
  match k with UserInput => newest_user n | SteerInput => newest_steer n | AgentInput => newest_agent_input n | ReplaySnapshot => false end.

Lemma note_newest_seen item n k : input_kind item <> Some k -> seen_kind k (note_newest n item) = seen_kind k n.
Proof.
  unfold input_kind, note_newest. destruct (payload item); intros Hk; try done.
  - destruct (newest_user n) eqn:E; [done|]. destruct k; cbn; congruence.
  - destruct (newest_steer n) eqn:E; [done|]. destruct k; cbn; congruence.
  - destruct (trigger_turn communication), (newest_agent_input n) eqn:E; try done. destruct k; cbn; congruence.
  - by destruct clm_checkpoint, k.
Qed.

Lemma note_newest_protects item n k : input_kind item = Some k -> seen_kind k n = false -> item_id item ∈ protected_ids (note_newest n item).
Proof.
  unfold input_kind, note_newest. destruct (payload item); try done; try (intros [= <-] E; cbn in E; rewrite E; cbn; set_solver).
  - destruct (trigger_turn communication); [|done]. intros [= <-] E. cbn in E. rewrite E. cbn. set_solver.
  - destruct clm_checkpoint; [|done]. intros _ _. cbn. set_solver.
Qed.

Lemma newest_protected before item after n k : input_kind item = Some k -> seen_kind k n = false ->
  (k = ReplaySnapshot \/ forall later, later ∈ after -> input_kind later <> Some k) ->
  item_id item ∈ protected_ids (fold_left note_newest (rev (before ++ item :: after)) n).
Proof.
  intros Hk Hn Hlater. rewrite rev_app_distr. cbn [rev]. rewrite <- app_assoc, !fold_left_app. cbn [fold_left app].
  eapply newest_fold_grows, note_newest_protects; [done|]. destruct Hlater as [->|Hlater]; [done|].
  assert (forall later, later ∈ rev after -> input_kind later <> Some k) as Hl
    by (intros y Hy; apply Hlater; by apply list_elem_of_In, in_rev, list_elem_of_In).
  clear Hlater. revert n Hn. induction (rev after) as [|y l IH]; intros n Hn; [done|]. cbn [fold_left]. apply IH.
  - intros z Hz. apply Hl. by right.
  - rewrite note_newest_seen; [done|]. apply Hl. by left.
Qed.

Lemma untouched (units : list (list HistoryItemId)) (protected : gset HistoryItemId) id : id ∈ protected ->
  id ∉ concat (List.filter (fun ids => negb (touches protected ids)) units).
Proof.
  intros Hp (ids & Hin & Hid)%list_elem_of_In%in_concat. apply filter_In in Hin as [_ Ht]. apply negb_true_iff, not_true_iff_false in Ht.
  apply Ht. apply existsb_exists. exists id. split; [done|]. by apply bool_decide_eq_true_2.
Qed.

Lemma is_input_kind item : is_input item = true <-> exists k, input_kind item = Some k.
Proof.
  unfold is_input, input_kind. destruct (payload item); try (split; [done|by intros [? ?]]); try (split; [by eexists|done]).
  - destruct (trigger_turn _); split; [by eexists|done|done|by intros [? ?]].
  - destruct clm_checkpoint; split; [by eexists|done|done|by intros [? ?]].
Qed.

(** Compaction spares the task at hand.  An automatic compaction never replaces the newest user turn, the
    newest steering, the newest agent input that starts a turn, a replay snapshot, or an excluded item; a
    compaction by the model replaces no input at all and nothing of the latest response; and while a tool
    call has no output yet there is nothing to replace. *)
Theorem compaction_spares_the_task (c : ContextManager V) excluded : view_ok (history_items c) ->
  (forall before item after k, history_items c = before ++ item :: after -> input_kind item = Some k ->
     (k = ReplaySnapshot \/ forall later, later ∈ after -> input_kind later <> Some k) ->
     item_id item ∉ concat (automatic_compaction_units_excluding excluded c)) /\
  (forall id, id ∈ excluded -> id ∉ concat (automatic_compaction_units_excluding excluded c)) /\
  (forall item, item ∈ history_items c -> is_input item = true -> item_id item ∉ model_compaction_source_item_ids c) /\
  (forall item r, item ∈ history_items c -> latest_response_id (history_items c) = Some r -> response_of item = Some r ->
     item_id item ∉ model_compaction_source_item_ids c) /\
  (forall k call, k ∈ history_items c -> item_id k ∉ excluded -> tool_call_id k = Some call ->
     (forall o, o ∈ history_items c -> tool_output_id o = Some call -> item_id o ∈ excluded) ->
     semantic_compaction_units_excluding excluded c = []).
Proof.
  intros Hv. unfold automatic_compaction_units_excluding, model_compaction_source_item_ids. rewrite (active_items_id _ Hv). split_and!.
  - intros before item after k -> Hk Hn. apply untouched. eapply newest_protected; [done|by destruct k|done].
  - intros id Hid. apply untouched. by eapply newest_fold_grows.
  - intros item Hin Hi. apply untouched. apply elem_of_list_to_set, list_elem_of_In, in_map, filter_In.
    split; [by apply list_elem_of_In|]. apply is_input_kind in Hi as Hk. destruct Hk as [k Hk].
    assert (response_of item = None) as ->; [|done]. unfold input_kind, response_of in *. by destruct (payload item).
  - intros item r Hin Hl Hr. apply untouched. apply elem_of_list_to_set, list_elem_of_In, in_map, filter_In.
    split; [by apply list_elem_of_In|]. rewrite Hr. by apply bool_decide_eq_true_2.
  - intros k call Hk He Hc Hno. unfold semantic_compaction_units_excluding. rewrite (active_enumerated_id _ Hv).
    fold (visible (history_items c) excluded). cbv zeta.
    destruct (first_unsettled_response_index (unit_maps (visible (history_items c) excluded))) eqn:E; [done|]. exfalso.
    assert (exists r, response_of k = Some r) as [r Hr] by (unfold tool_call_id, response_of in *; destruct (payload k); try done; by eexists).
    apply list_elem_of_lookup in Hk as (i & Hi).
    assert (call_response (unit_maps (visible (history_items c) excluded)) !! call = Some r) as Hcr
      by (apply call_response_Some; [done|]; exists i, k; split_and!; [done|done|by apply call_pair_of]).
    destruct (proj1 (in_output_calls _ excluded call) (all_settled _ excluded Hv E r call Hcr)) as (j & o & Hj & Ho & Hoc).
    apply Ho. apply Hno; [by eapply list_elem_of_lookup_2|done].
Qed.
End Units.

#[local] Existing Instances plain_iteration one_char_ulid one_char_laws.

Definition demo_context : ContextManager Tree := fold_left (context_event demo_services) demo_events (new_context demo_services).
Definition demo_compaction : HistoryItem Tree :=
  demo_item 7 (Compaction Automatic UserAnchoredCheckpoint [lit "go"] None (lit "more") [5%N; 6%N]).

Lemma demo_units ids : ids ∈ [[5%N; 6%N]] -> ids ∈ semantic_compaction_units_excluding ∅ demo_context.
Proof.
  assert (semantic_compaction_units_excluding ∅ demo_context = [[4%N]; [5%N; 6%N]]) as -> by (vm_compute; reflexivity).
  intros ->%list_elem_of_singleton. by right; left.
Qed.

Lemma compaction_keeps_exchanges_whole_witness :
  demo_item 5 (ToolCall 21 31 [] (lit "list") (lit "{}")) ∈ fst (ingest_item demo_compaction (history_items demo_context) ∅) <->
  demo_item 6 (ToolOutputItem 21 Completed (lit "t") (lit "a b") TNull None) ∈ fst (ingest_item demo_compaction (history_items demo_context) ∅).
Proof.
  apply (proj1 (compaction_keeps_exchanges_whole demo_context ∅ [[5%N; 6%N]] demo_compaction ∅ demo_view_ok demo_units eq_refl eq_refl) _ _ 21%N).
  - apply list_elem_of_In. vm_compute. right; left. reflexivity.
  - apply list_elem_of_In. vm_compute. right; right; left. reflexivity.
  - reflexivity.
  - reflexivity.
Defined.

Lemma compaction_spares_the_task_witness : 4%N ∉ concat (automatic_compaction_units_excluding {[4%N]} demo_context).
Proof.
  apply (proj1 (proj2 (compaction_spares_the_task demo_context {[4%N]} demo_view_ok))). by apply elem_of_singleton.
Defined.
