(* ===== verification/ContextTokens.v ===== *)
(** * Token usage reported by the provider (src/src/agent/context_manager.rs, [ActiveContextTokenState])

    After a response the provider's token count stands for everything it was sent and said; only what
    was added since is estimated.  The count is dropped as soon as it no longer describes the view. *)
From S2P Require Import Prelude.
From S2P Require Import Text.
From S2P Require Import ListSort.
From S2P Require Import Json.
From S2P Require Import PermissionFence.
From S2P Require Import ContextWindow.
From S2P Require Import ClmCheckpoint.
From S2P Require Import ToolOutput.
From S2P Require Import History.
From S2P Require Import SourceRecords.
From S2P Require Import ContextManager.
From S2P Require Import ContextProjection.
From S2P Require Import ContextPairing.
From S2P Require Import ContextStream.
From Stdlib Require Import Sorted.

Open Scope nat_scope.

Section Tokens.
Context {V : Type} `{JsonValue V} `{EqDecision V} `{Ulid} `{HashIteration} (services : Services V) (json_to_string : V -> text).

Record TokenUsage := { prompt_tokens : N; completion_tokens : N; total_tokens : N; reasoning_tokens : option N }.

Record ProviderTokenBaseline := {
  baseline_response : ModelResponseId;
  baseline_total_tokens : N;
  noncanonical_prepared_tokens : N;
  known_item_ids : gset HistoryItemId
}.

Record ActiveContextTokenState := { provider_baseline : option ProviderTokenBaseline }.

Definition tool_call_names (active : list (HistoryItem V)) : gmap ToolCallId (text * text) :=
  last_wins (omap (fun item =>
    match payload item with
    | ToolCall call _ model_call_id tool_name _ => Some (call, (replay_call_id call model_call_id, tool_name))
    | _ => None
    end) active).

(** One new item: what it adds, or [GiveUp] where the loop returns [None].  The option is a panic. *)
Inductive LocalItem := GiveUp | Adds (messages : list (ModelMessage V)).

Definition local_item (names : gmap ToolCallId (text * text)) (supports_images : bool) (response : ModelResponseId)
    (item : HistoryItem V) : option LocalItem :=
  match payload item with
  | UserTurn content _ _ | SteerTurn _ content _ _ => Some (Adds [user_message_from_content content supports_images])
  | InterAgentItem communication => Some (Adds [inter_agent_input_message communication])
  | AssistantItem r _ | ToolCall _ r _ _ _ => Some (if decide (r = response) then Adds [] else GiveUp)
  | Compaction _ _ _ _ _ _ => Some GiveUp
  | ToolOutputItem call status _ output_text metadata _ =>
    match names !! call with
    | None => Some GiveUp
    | Some (model_call_id, tool_name) =>
      result ← model_visible_tool_output (hint_from_value services) tool_name status output_text metadata;
      Some (Adds [ToolMessage model_call_id tool_name result metadata])
    end
  | ErrorItem message => Some (Adds [AssistantMessage (lit "Previous run ended with an error: " ++ message)])
  | _ => Some (Adds [])
  end.

Fixpoint local_items (names : gmap ToolCallId (text * text)) (supports_images : bool) (response : ModelResponseId)
    (items : list (HistoryItem V)) : option (option (list (ModelMessage V))) :=
  match items with
  | [] => Some (Some [])
  | item :: rest =>
    match local_item names supports_images response item with
    | None => None
    | Some GiveUp => Some None
    | Some (Adds messages) =>
      match local_items names supports_images response rest with
      | None => None
      | Some None => Some None
      | Some (Some more) => Some (Some (messages ++ more))
      end
    end
  end.

(** The outer option is a panic. *)
Definition local_messages_after_provider_baseline (baseline : ProviderTokenBaseline) (supports_images : bool) (c : ContextManager V)
    : option (option (list (ModelMessage V))) :=
  let active := active_items (history_items c) in
  if bool_decide (latest_response_id active <> Some (baseline_response baseline)) then Some None
  else if negb (bool_decide (known_item_ids baseline ⊆ list_to_set (map item_id active))) then Some None
  else local_items (tool_call_names active) supports_images (baseline_response baseline)
         (List.filter (fun item => negb (bool_decide (item_id item ∈ known_item_ids baseline))) active).

Definition noncanonical_prepared_request_tokens (request : ChatRequest V) (canonical_messages : list (ModelMessage V)) : N :=
  active_context_tokens (for_request json_to_string request 0) - estimate_model_messages_tokens canonical_messages.

(** [None] is a panic. *)
Definition status_for_request (s : ActiveContextTokenState) (c : ContextManager V) (request : ChatRequest V) (supports_images : bool)
    (overflow_margin_tokens : N) : option ContextWindowTokenStatus :=
  match provider_baseline s with
  | Some baseline =>
    local ← local_messages_after_provider_baseline baseline supports_images c;
    match local with
    | Some local_messages =>
      current_canonical_messages ← model_messages services supports_images c;
      let current := noncanonical_prepared_request_tokens request current_canonical_messages in
      Some (from_provider_usage json_to_string request overflow_margin_tokens (baseline_total_tokens baseline) local_messages
              (current - noncanonical_prepared_tokens baseline))
    | None => Some (for_request json_to_string request overflow_margin_tokens)
    end
  | None => Some (for_request json_to_string request overflow_margin_tokens)
  end.

Definition record_provider_response (response : ModelResponseId) (usage : option TokenUsage) (sent_request : ChatRequest V)
    (sent_canonical_messages : list (ModelMessage V)) (known : list HistoryItemId) (s : ActiveContextTokenState) : ActiveContextTokenState :=
  {| provider_baseline :=
       (fun usage =>
          {| baseline_response := response; baseline_total_tokens := total_tokens usage;
             noncanonical_prepared_tokens := noncanonical_prepared_request_tokens sent_request sent_canonical_messages;
             known_item_ids := list_to_set known |}) <$> usage |}.

Definition reset_after_compaction (s : ActiveContextTokenState) : ActiveContextTokenState := {| provider_baseline := None |}.
End Tokens.

Section Facts.
Context {V : Type} `{JsonLaws V} `{EqDecision V} `{UlidLaws} `{HashIteration} (services : Services V) (json_to_string : V -> text).
Implicit Types (items : list (HistoryItem V)) (item : HistoryItem V).

(** ** The new items, as the projection sends them *)

Definition call_name_entry item : option (ToolCallId * (text * text)) :=
  match payload item with
  | ToolCall call _ model_call_id tool_name _ => Some (call, (replay_call_id call model_call_id, tool_name))
  | _ => None
  end.

Lemma call_name_id item call name : call_name_entry item = Some (call, name) -> tool_call_id item = Some call.
Proof. unfold call_name_entry, tool_call_id. destruct (payload item); try done. by intros [= -> _]. Qed.

(** The name of the call of an output of the view. *)
Lemma name_of_output items call o : view_ok items -> o ∈ items -> tool_output_id o = Some call ->
  tool_call_names items !! call = name_of_call items call.
Proof.
  intros Hv Ho Hco. assert (call ∈ output_call_ids items) as Hset.
  { unfold output_call_ids. apply elem_of_list_to_set, list_elem_of_omap. exists o. split; [done|]. unfold tool_output_id in Hco. by destruct (payload o). }
  assert (forall i k name, items !! i = Some k -> call_name_entry k = Some (call, name) -> name_of_call items call = Some name) as Hname.
  { intros i k name Hi Hk. apply name_of_call_Some; [done|]. unfold call_name_entry in Hk. destruct (payload k) eqn:Ep; try done.
    injection Hk as -> <-. eexists response_id, _. split; [apply in_calls; exists i, k; split; [done|]; unfold settled_entry; cbn [snd fst]; by rewrite Ep, bool_decide_eq_true_2|done]. }
  unfold tool_call_names. change (omap _ items) with (omap call_name_entry items).
  destruct (last_wins (omap call_name_entry items) !! call) as [name|] eqn:E.
  - apply last_wins_elem, list_elem_of_omap in E as (k & Hk & Ek). apply list_elem_of_lookup in Hk as (i & Hi). symmetry. by eapply Hname.
  - destruct (name_of_call items call) as [name|] eqn:En; [|done]. exfalso.
    apply name_of_call_Some in En as (r & e & (i & k & Hi & Hs)%in_calls & Hc & _); [|done].
    assert (exists name', (call, name') ∈ omap call_name_entry items) as (name' & Hin).
    { unfold settled_entry in Hs. cbn [fst snd] in Hs. destruct (payload k) eqn:Ep; try done. destruct (bool_decide _); [|done]. injection Hs as <- <-.
      cbn in Hc. subst. eexists. apply list_elem_of_omap. exists k. split; [by eapply list_elem_of_lookup_2|]. unfold call_name_entry. by rewrite Ep. }
    destruct (last_wins_fold_some (omap call_name_entry items) ∅ call) as [v Hv']; [right; by exists name'|]. unfold last_wins in E. congruence.
Qed.

Definition fresh_for (baseline : ProviderTokenBaseline) (indexed : nat * HistoryItem V) : bool :=
  negb (bool_decide (item_id (snd indexed) ∈ known_item_ids baseline)) &&
  negb (bool_decide (response_of (snd indexed) = Some (baseline_response baseline))).

Lemma local_item_reference items continuations supports_images response index item : view_ok items -> items !! index = Some item ->
  match local_item services (tool_call_names items) supports_images response item with
  | None => reference_item services supports_images items continuations (index, item) = None
  | Some GiveUp => True
  | Some (Adds messages) =>
    if bool_decide (response_of item = Some response) then messages = []
    else reference_item services supports_images items continuations (index, item) = Some messages
  end.
Proof.
  intros Hv Hi. unfold local_item, reference_item, response_of. destruct (payload item) eqn:Ep; try (rewrite bool_decide_eq_false_2 by done; reflexivity); try done.
  - destruct (decide (response_id = response)) as [->|Hne]; [by rewrite bool_decide_eq_true_2|done].
  - destruct (decide (response_id = response)) as [->|Hne]; [by rewrite bool_decide_eq_true_2|done].
  - rewrite (name_of_output items call item Hv) by (first [by eapply list_elem_of_lookup_2|unfold tool_output_id; by rewrite Ep]).
    destruct (name_of_call items call) as [[id name]|]; [|done].
    destruct (model_visible_tool_output _ _ _ _ _); cbn; [|done]. by rewrite bool_decide_eq_false_2.
Qed.

Lemma local_items_reference items continuations supports_images baseline l messages : view_ok items ->
  (forall index item, (index, item) ∈ l -> items !! index = Some item) ->
  local_items services (tool_call_names items) supports_images (baseline_response baseline)
    (List.filter (fun item => negb (bool_decide (item_id item ∈ known_item_ids baseline))) (snd <$> l)) = Some (Some messages) ->
  exists blocks, mapM (reference_item services supports_images items continuations) (List.filter (fresh_for baseline) l) = Some blocks /\
    messages = concat blocks.
Proof.
  intros Hv. revert messages. induction l as [|[index item] l IH]; intros messages Hl Hm; cbn in Hm.
  - injection Hm as <-. by exists [].
  - assert (forall i it, (i, it) ∈ l -> items !! i = Some it) as Hl' by (intros i it Hin; apply Hl; by right).
    cbn [List.filter]. unfold fresh_for at 1. cbn [snd].
    destruct (bool_decide (item_id item ∈ known_item_ids baseline)) eqn:Ek; cbn [negb andb local_items] in *; [by apply IH|].
    pose proof (local_item_reference items continuations supports_images (baseline_response baseline) index item Hv (Hl index item ltac:(by left))) as Hr.
    destruct (local_item _ _ _ _ item) as [[|ms]|]; [done| |done].
    destruct (local_items _ _ _ _ _) as [[more|]|]; [|done|done]. injection Hm as <-.
    destruct (IH more Hl' eq_refl) as (blocks & Hb & ->). destruct (bool_decide (response_of item = _)); cbn [negb].
    + subst ms. by exists blocks.
    + exists (ms :: blocks). cbn [mapM]. rewrite Hr. cbn. by rewrite Hb.
Qed.

(** Where a provider's count is used, it still describes the view: the response it came with is the latest,
    every item it covered is still there, and the messages estimated on top of it are exactly those the
    projection sends for the items added since, one by one, the response's own items apart. *)
Theorem local_messages_are_the_new_ones baseline supports_images (c : ContextManager V) messages : view_ok (history_items c) ->
  local_messages_after_provider_baseline services baseline supports_images c = Some (Some messages) ->
  latest_response_id (history_items c) = Some (baseline_response baseline) /\
  (forall id, id ∈ known_item_ids baseline -> id ∈ item_id <$> history_items c) /\
  exists blocks, mapM (reference_item services supports_images (history_items c) (chat_continuations c))
      (List.filter (fresh_for baseline) (enumerate (history_items c))) = Some blocks /\ messages = concat blocks.
Proof.
  intros Hv. unfold local_messages_after_provider_baseline. rewrite (active_items_id _ Hv). cbv zeta.
  case_bool_decide as Hl; [done|]. case_bool_decide as Hk; [|done]. cbn [negb]. intros Hm. split_and!.
  - by destruct (decide (latest_response_id (history_items c) = Some (baseline_response baseline))).
  - intros id Hid. specialize (Hk id Hid). by rewrite elem_of_list_to_set in Hk.
  - eapply local_items_reference; [done|by intros i it ?%elem_of_enumerate|]. by rewrite enumerate_snd.
Qed.

(** The status of a request never counts fewer tokens than the estimate of the whole prepared request, and
    without a count of the provider, or after a compaction reset it, it is that estimate. *)
Theorem status_never_undercounts s (c : ContextManager V) request supports_images margin status :
  status_for_request services json_to_string s c request supports_images margin = Some status ->
  (active_context_tokens (for_request json_to_string request margin) <= active_context_tokens status)%N /\
  status_for_request services json_to_string (reset_after_compaction s) c request supports_images margin =
    Some (for_request json_to_string request margin).
Proof.
  unfold status_for_request. cbn [reset_after_compaction provider_baseline]. intros E. split; [|done].
  destruct (provider_baseline s) as [baseline|]; [|by injection E as <-].
  destruct (local_messages_after_provider_baseline _ _ _ _) as [[local|]|]; cbn in E; [|by injection E as <-|done].
  destruct (model_messages _ _ _); cbn in E; [|done]. injection E as <-. unfold from_provider_usage. cbv zeta.
  destruct (N.ltb_spec (estimate_request_tokens json_to_string request)
    (saturating_add_u32 (saturating_add_u32 (baseline_total_tokens baseline) (estimate_model_messages_tokens local))
       (noncanonical_prepared_request_tokens json_to_string request l - noncanonical_prepared_tokens baseline))) as [Hlt|Hge]; cbn; lia.
Qed.
End Facts.

#[local] Existing Instances plain_iteration one_char_ulid one_char_laws.

Definition demo_tokens_context : ContextManager Tree := fold_left (context_event demo_services) demo_events (new_context demo_services).
Definition demo_baseline : ProviderTokenBaseline :=
  {| baseline_response := 31; baseline_total_tokens := 500; noncanonical_prepared_tokens := 20; known_item_ids := {[4%N; 5%N]} |}.

Lemma local_messages_are_the_new_ones_witness :
  local_messages_after_provider_baseline demo_services demo_baseline true demo_tokens_context =
    Some (Some [ToolMessage [21%N] (lit "list") (lit "a b") TNull]) /\
  latest_response_id (history_items demo_tokens_context) = Some 31%N.
Proof.
  assert (local_messages_after_provider_baseline demo_services demo_baseline true demo_tokens_context =
    Some (Some [ToolMessage [21%N] (lit "list") (lit "a b") TNull])) as E by (vm_compute; reflexivity).
  split; [exact E|]. exact (proj1 (local_messages_are_the_new_ones demo_services demo_baseline true demo_tokens_context _ demo_view_ok E)).
Defined.

Definition demo_request : ChatRequest Tree :=
  {| model_context_window := 1000; system_prompt := lit "be brief"; pending_system_prompt_tokens := None; messages := []; tools := [] |}.

Lemma status_never_undercounts_witness : exists status,
  status_for_request demo_services (fun _ => []) {| provider_baseline := Some demo_baseline |} demo_tokens_context demo_request true 5 = Some status /\
  (active_context_tokens (for_request (fun _ => []) demo_request 5) <= active_context_tokens status)%N.
Proof.
  destruct (status_for_request demo_services (fun _ => []) {| provider_baseline := Some demo_baseline |} demo_tokens_context demo_request true 5)
    as [status|] eqn:E; [|vm_compute in E; discriminate E].
  exists status. split; [reflexivity|]. exact (proj1 (status_never_undercounts demo_services (fun _ => []) _ demo_tokens_context demo_request true 5 status E)).
Defined.
