(* ===== verification/ProtocolStore.v ===== *)
(** * The protocol event store (src/src/protocol/store.rs)

    The canonical history of a session: tables of history items, runtime events and turn items, one
    table that orders all of them by the position they were appended at, and the queries that page
    through them, count them and derive the active history.  A table is a finite map from its
    primary key, a query the list its rows form in the order the statement asks for; the constraints
    of migrations V16, V27, V42, V44 and V50 are written out.  JSON columns hold texts; what serde writes and
    SQLite reads of them is an interface.  A statement may fail for reasons of its own (argument [io]). *)
From S2P Require Import Prelude.
From S2P Require Import Text.
From S2P Require Import TurnOutcome.
From S2P Require Import ListSort.
From S2P Require Import Json.
From S2P Require Import PermissionFence.
From S2P Require Import ContextWindow.
From S2P Require Import ClmCheckpoint.
From S2P Require Import History.

Open Scope nat_scope.

Abbreviation RuntimeEventId := N (only parsing).
Abbreviation TurnItemId := N (only parsing).

(** The variants of [StorageError] this store produces. *)
Inductive StoreError :=
  | SqliteError (error : text)
  | JsonError (error : text)
  | CanonicalSourceLimitExceeded (source_kind : text) (limit : N)
  | CanonicalHistoryFenceChanged (session_id : SessionId) (expected_append_position actual_append_position : option Z)
      (expected_history_count actual_history_count expected_active_count actual_active_count : N)
  | StoreMessage (message : text).

Definition MAX_PROTOCOL_PAGE_LIMIT : N := 200.
Definition i64_max : Z := 2 ^ 63 - 1.

(** ** Rows *)

Record HistoryRow := {
  row_session : text; row_scope_kind : text; row_turn : option text; row_sequence_no : Z;
  row_payload_json : text; row_payload_sha256 : text; row_created_at_ms : Z
}.
Record RuntimeRow := {
  event_row_session : text; event_row_turn : text; event_row_sequence_no : Z;
  event_row_msg_json : text; event_row_sha256 : text; event_row_created_at_ms : Z
}.
Record TurnRow := {
  turn_row_session : text; turn_row_turn : text; turn_row_source : option text; turn_row_sequence_no : Z;
  turn_row_payload_json : text; turn_row_sha256 : text
}.
Record AppendRow := {
  append_position : Z; append_session : text; append_scope_kind : text; append_turn : option text;
  append_sequence_no : Z; append_source_kind : text; append_source_id : text; append_created_at_ms : Z
}.
(** The columns of [agent_tree_stop_fences] and [session_spawn_edges] the queries read. *)
Record StopFence := { fence_root : text; fence_stopped : text; fence_after : Z }.
Record SpawnEdge := { edge_root : text; edge_parent : text; edge_child : text }.

(** [next_append_position] is what AUTOINCREMENT assigns next. *)
Record ProtocolDb := {
  history_rows : gmap text HistoryRow;
  runtime_rows : gmap text RuntimeRow;
  turn_rows : gmap text TurnRow;
  append_rows : list AppendRow;
  next_append_position : Z;
  allocators : gmap (text * text) Z;
  stop_fences : list StopFence;
  spawn_edges : list SpawnEdge
}.

Inductive Table := HistoryItems | RuntimeEvents | TurnItems.
Definition source_kind_of (t : Table) : text :=
  match t with HistoryItems => lit "history_item" | RuntimeEvents => lit "runtime_event" | TurnItems => lit "turn_item" end.

(** The identifier and the session of every row. *)
Definition source_rows (t : Table) (db : ProtocolDb) : list (text * text) :=
  match t with
  | HistoryItems => map (fun '(id, row) => (id, row_session row)) (map_to_list (history_rows db))
  | RuntimeEvents => map (fun '(id, row) => (id, event_row_session row)) (map_to_list (runtime_rows db))
  | TurnItems => map (fun '(id, row) => (id, turn_row_session row)) (map_to_list (turn_rows db))
  end.

(** ** Paging *)

(** [i64::try_from(value).unwrap_or(i64::MAX)] *)
Definition sqlite_page_value (value : N) : N := N.min value (Z.to_N i64_max).
Definition sql_limit {A} (limit : N) (l : list A) : list A := take (N.to_nat (N.min limit (N.of_nat (length l)))) l.
Definition sql_offset {A} (offset : N) (l : list A) : list A := drop (N.to_nat (N.min offset (N.of_nat (length l)))) l.
Definition count {A} (l : list A) : N := N.of_nat (length l).

Inductive ProtocolPageRequest := OffsetPage (offset limit : N) | LatestPage (limit : N) | AfterPage (append_position : option Z) (limit : N).

Record ProtocolPage (A : Type) := {
  page_offset : N; page_limit : N; page_total : N; page_items : list A; page_next_cursor : option Z
}.
#[global] Arguments page_offset {A}.
#[global] Arguments page_limit {A}.
#[global] Arguments page_total {A}.
#[global] Arguments page_items {A}.
#[global] Arguments page_next_cursor {A}.

Definition has_more {A} (page : ProtocolPage A) : bool :=
  (saturating_add_usize (page_offset page) (count (page_items page)) <? page_total page)%N.

Definition latest_page_offset (total limit : N) : N := total - limit.

Definition resolve (request : ProtocolPageRequest) (total : N) : result (N * N * option Z) StoreError :=
  let '(offset, limit, after_append_position) :=
    match request with
    | OffsetPage offset limit => (offset, limit, None)
    | LatestPage limit => (latest_page_offset total limit, limit, None)
    | AfterPage append_position limit => (0%N, limit, append_position)
    end in
  if (limit =? 0)%N then Err (StoreMessage (lit "protocol item page limit must be greater than zero"))
  else if (MAX_PROTOCOL_PAGE_LIMIT <? limit)%N
  then Err (StoreMessage (lit "protocol item page limit " ++ show_N limit ++ lit " exceeds the maximum " ++ show_N MAX_PROTOCOL_PAGE_LIMIT))
  else Ok (offset, limit, after_append_position).

Definition result_map {A B E} (f : A -> result B E) : list A -> result (list B) E :=
  fix go l :=
    match l with
    | [] => Ok []
    | x :: rest => let? y := f x in let? ys := go rest in Ok (y :: ys)
    end.

(** [ORDER BY append_position ASC] *)
Definition position_leb (a b : AppendRow) : bool := (append_position a <=? append_position b)%Z.
Definition ordered_append (db : ProtocolDb) : list AppendRow := stable_sort position_leb (append_rows db).

Definition of_source (session source_kind : text) (a : AppendRow) : bool :=
  text_eqb (append_session a) session && text_eqb (append_source_kind a) source_kind.

(** [(?4 IS NULL OR append_order.append_position > ?4)] *)
Definition after_position (after : option Z) (position : Z) : bool :=
  match after with None => true | Some cursor => (cursor <? position)%Z end.

(** [SELECT MAX(append_position)] *)
Definition max_position (session : text) (db : ProtocolDb) : option Z :=
  fold_left (fun m a => Some (match m with None => append_position a | Some p => Z.max p (append_position a) end))
    (List.filter (fun a => text_eqb (append_session a) session) (append_rows db)) None.

(** The rows a recursive [UNION] query yields: each row is taken from the queue once, and what it adds
    is queued unless it was yielded before. *)
Definition unseen {A} `{EqDecision A} (seen : list A) : list A -> list A :=
  fix go l :=
    match l with
    | [] => []
    | x :: rest => if bool_decide (x ∈ seen) || bool_decide (x ∈ rest) then go rest else x :: go rest
    end.
Fixpoint closure {A} `{EqDecision A} (next : A -> list A) (fuel : nat) (done queue : list A) : list A :=
  match fuel, queue with
  | S fuel, x :: queue => closure next fuel (done ++ [x]) (queue ++ unseen (done ++ x :: queue) (next x))
  | _, _ => done ++ queue
  end.

(** ** What is stored *)

Section Store.
Context {V : Type} `{JsonValue V} `{Ulid}.

(** Fields that are only stored and shown are JSON values. *)
Inductive RuntimeEventMsg :=
  | UserInputAccepted (item_count : N)
  | SteerInputAccepted (item_count : N) (client_user_message_id : option text)
  | InterAgentCommunicationReceived (communication : InterAgentCommunication)
  | SubAgentActivityMsg (activity_id : text) (agent_session_id : SessionId) (agent_path : text) (activity_kind : V)
  | AssistantMessageCommitted (response_id : ModelResponseId) (message_text : text)
  | ModelRequestPrepared (diagnostics : V)
  | WorldStateUpdated (snapshot : V)
  | ToolLifecycle (envelope : V)
  | ApprovalRequested (call : ToolCallId) (tool : text) (summary : text)
  | ApprovalResolved (call : ToolCallId) (tool : text) (decision : V)
  | ContextCompacted (item : HistoryItemId) (mode : CompactionMode)
  | FileChangesRecorded (call : ToolCallId) (change_ids : list N) (summary : text)
  | Warning (message : text)
  | DurableFeedbackMsg (feedback : V)
  | TurnTerminal (outcome : TurnTerminalOutcome) (terminal : V).

Record RuntimeEvent := {
  event_id : RuntimeEventId; event_session_id : SessionId; event_turn_id : TurnId;
  event_sequence_no : Z; event_created_at_ms : Z; event_msg : RuntimeEventMsg
}.

Record TurnItem := {
  turn_item_id : TurnItemId; turn_item_session : SessionId; turn_item_turn : TurnId;
  source_item_id : option HistoryItemId; turn_item_sequence_no : Z; turn_item_payload : V
}.

Definition terminal_outcome (event : RuntimeEvent) : option TurnTerminalOutcome :=
  match event_msg event with TurnTerminal outcome _ => Some outcome | _ => None end.
Definition is_terminal (event : RuntimeEvent) : bool := match terminal_outcome event with Some _ => true | None => false end.

Definition runtime_event_kind (message : RuntimeEventMsg) : text :=
  match message with
  | UserInputAccepted _ => lit "user_input_accepted"
  | SteerInputAccepted _ _ => lit "steer_input_accepted"
  | InterAgentCommunicationReceived _ => lit "inter_agent_communication_received"
  | SubAgentActivityMsg _ _ _ _ => lit "sub_agent_activity"
  | AssistantMessageCommitted _ _ => lit "assistant_message_committed"
  | ModelRequestPrepared _ => lit "model_request_prepared"
  | WorldStateUpdated _ => lit "world_state_updated"
  | ToolLifecycle _ => lit "tool_lifecycle"
  | ApprovalRequested _ _ _ => lit "approval_requested"
  | ApprovalResolved _ _ _ => lit "approval_resolved"
  | ContextCompacted _ _ => lit "context_compacted"
  | FileChangesRecorded _ _ _ => lit "file_changes_recorded"
  | Warning _ => lit "warning"
  | DurableFeedbackMsg _ => lit "durable_feedback"
  | TurnTerminal _ _ => lit "turn_terminal"
  end.

(** The [kind] tag of a payload, in snake case. *)
Definition payload_kind (p : HistoryItemPayload V) : text :=
  match p with
  | UserTurn _ _ _ => lit "user_turn"
  | SteerTurn _ _ _ _ => lit "steer_turn"
  | InterAgentItem _ => lit "inter_agent_communication"
  | SubAgentActivity _ _ _ _ => lit "sub_agent_activity"
  | CollaborationModeInstruction _ => lit "collaboration_mode_instruction"
  | AssistantItem _ _ => lit "assistant_message"
  | ErrorItem _ => lit "error"
  | DurableFeedback _ => lit "durable_feedback"
  | ToolCall _ _ _ _ _ => lit "tool_call"
  | ToolOutputItem _ _ _ _ _ _ => lit "tool_output"
  | RequestDiagnostics _ => lit "request_diagnostics"
  | WorldState _ _ => lit "world_state"
  | ApprovalDecision _ _ => lit "approval_decision"
  | Compaction _ _ _ _ _ _ => lit "compaction"
  | FileChange _ _ _ _ => lit "file_change"
  end.

(** What serde writes and reads of the JSON columns, what SQLite extracts of them ([$.kind] if it is a text,
    the elements of [$.replacement_item_ids], whether [$.communication.trigger_turn] is 1), the hash of a
    text, and what [{:?}] prints in three messages. *)
Record ProtocolJson := {
  payload_to_string : HistoryItemPayload V -> option text;
  payload_from_str : text -> result (HistoryItemPayload V) text;
  msg_to_string : RuntimeEventMsg -> option text;
  msg_from_str : text -> result RuntimeEventMsg text;
  turn_payload_to_string : V -> option text;
  json_kind : text -> option text;
  json_replacements : text -> list (option text);
  json_trigger_turn : text -> bool;
  hash_text : text -> text;
  debug_scope : HistoryScope -> text;
  debug_source : option HistoryItemId -> text;
  debug_turn : option text -> text
}.

Record ProtocolJsonLaws (J : ProtocolJson) : Prop := {
  payload_round_trip p t : payload_to_string J p = Some t -> validate_compaction_checkpoint p = Ok tt -> payload_from_str J t = Ok p;
  msg_round_trip m t : msg_to_string J m = Some t -> msg_from_str J t = Ok m;
  payload_json_kind p t : payload_to_string J p = Some t -> json_kind J t = Some (payload_kind p);
  msg_json_kind m t : msg_to_string J m = Some t -> json_kind J t = Some (runtime_event_kind m);
  payload_json_replacements p t : payload_to_string J p = Some t ->
    json_replacements J t = match p with
                            | Compaction _ _ _ _ _ replacement_item_ids => map (fun id => Some (ulid_to_string id)) replacement_item_ids
                            | _ => []
                            end;
  payload_json_trigger p t : payload_to_string J p = Some t ->
    json_trigger_turn J t = match p with InterAgentItem communication => trigger_turn communication | _ => false end
}.

Context (J : ProtocolJson).

(** ** Counting *)

Definition table_ids (t : Table) (session : text) (db : ProtocolDb) : list (text * text) :=
  List.filter (fun r => text_eqb (snd r) session) (source_rows t db).
Definition append_ids (t : Table) (session : text) (db : ProtocolDb) : list AppendRow :=
  List.filter (of_source session (source_kind_of t)) (append_rows db).
Definition joined_ids (t : Table) (session : text) (db : ProtocolDb) : list (text * AppendRow) :=
  table_ids t session db ≫= fun r =>
    map (pair (fst r)) (List.filter (fun a => of_source (snd r) (source_kind_of t) a && text_eqb (append_source_id a) (fst r)) (append_rows db)).

Definition append_order_failed (session_id : SessionId) (source_kind : text) (table_count append_count joined_count : N) : StoreError :=
  StoreMessage (lit "canonical protocol append-order invariant failed for session " ++ ulid_to_string session_id ++ lit " source " ++
    source_kind ++ lit ": table has " ++ show_N table_count ++ lit " rows, append order has " ++ show_N append_count ++
    lit ", joined ownership has " ++ show_N joined_count).

Definition protocol_source_count (session_id : SessionId) (t : Table) (db : ProtocolDb) : result N StoreError :=
  let session := ulid_to_string session_id in
  let table_count := count (table_ids t session db) in
  let append_count := count (append_ids t session db) in
  let joined_count := count (joined_ids t session db) in
  if negb (table_count =? append_count)%N || negb (table_count =? joined_count)%N
  then Err (append_order_failed session_id (source_kind_of t) table_count append_count joined_count)
  else Ok table_count.

Definition protocol_source_count_bounded (session_id : SessionId) (t : Table) (limit : N) (db : ProtocolDb) : result N StoreError :=
  if (limit =? 0)%N then Err (StoreMessage (lit "canonical protocol source limit must be greater than zero"))
  else
    let session := ulid_to_string session_id in
    let fetch_limit := sqlite_page_value (saturating_add_usize limit 1) in
    let table_count := count (sql_limit fetch_limit (table_ids t session db)) in
    let append_count := count (sql_limit fetch_limit (append_ids t session db)) in
    let joined_count := count (sql_limit fetch_limit (joined_ids t session db)) in
    if existsb (fun n => (sqlite_page_value limit <? n)%N) [table_count; append_count; joined_count]
    then Err (CanonicalSourceLimitExceeded (source_kind_of t) limit)
    else if negb (table_count =? append_count)%N || negb (table_count =? joined_count)%N
    then Err (append_order_failed session_id (source_kind_of t) table_count append_count joined_count)
    else Ok table_count.

(** ** Decoding *)

Definition parse_protocol_id (value label : text) : result N StoreError :=
  match ulid_from_string value with
  | Ok id => Ok id
  | Err error => Err (StoreMessage (lit "invalid protocol " ++ label ++ lit " id `" ++ value ++ lit "`: " ++ error))
  end.

Definition decode_history_payload (payload_json : text) : result (HistoryItemPayload V) StoreError :=
  match payload_from_str J payload_json with
  | Err error => Err (JsonError error)
  | Ok payload =>
    match validate_compaction_checkpoint payload with
    | Err message => Err (StoreMessage message)
    | Ok _ => Ok payload
    end
  end.

Definition decode_history_item (session_id : SessionId) (id scope_kind : text) (turn_id : option text) (sequence_no : Z)
    (payload_json : text) (created_at_ms : Z) (label : text) : result (HistoryItem V) StoreError :=
  let? scope :=
    match text_eqb scope_kind (lit "turn"), text_eqb scope_kind (lit "session"), turn_id with
    | true, _, Some turn_id => let? turn_id := parse_protocol_id turn_id (label ++ lit " turn") in Ok (TurnScope turn_id)
    | _, true, None => Ok SessionScope
    | _, _, _ => Err (StoreMessage (lit "invalid protocol " ++ label ++ lit " scope `" ++ scope_kind ++ lit "` with turn id " ++ debug_turn J turn_id))
    end in
  let? id := parse_protocol_id id label in
  let? payload := decode_history_payload payload_json in
  Ok {| item_id := id; item_session := session_id; scope := scope; sequence_no := sequence_no; created_at_ms := created_at_ms;
        payload := payload |}.

Definition decode_history_row (session_id : SessionId) (label : text) (r : text * HistoryRow) : result (HistoryItem V) StoreError :=
  decode_history_item session_id (fst r) (row_scope_kind (snd r)) (row_turn (snd r)) (row_sequence_no (snd r))
    (row_payload_json (snd r)) (row_created_at_ms (snd r)) label.

Definition decode_runtime_row (session_id : SessionId) (r : text * RuntimeRow) : result RuntimeEvent StoreError :=
  let? id := parse_protocol_id (fst r) (lit "runtime event") in
  let? turn_id := parse_protocol_id (event_row_turn (snd r)) (lit "runtime event turn") in
  match msg_from_str J (event_row_msg_json (snd r)) with
  | Err error => Err (JsonError error)
  | Ok msg =>
    Ok {| event_id := id; event_session_id := session_id; event_turn_id := turn_id; event_sequence_no := event_row_sequence_no (snd r);
          event_created_at_ms := event_row_created_at_ms (snd r); event_msg := msg |}
  end.

(** ** Pages of history items and runtime events *)

(** The join of history items with their append order, in append order. *)
Definition history_join (session : text) (db : ProtocolDb) : list (text * HistoryRow * Z) :=
  omap (fun a =>
    if of_source session (source_kind_of HistoryItems) a then
      match history_rows db !! append_source_id a with
      | Some row => if text_eqb (row_session row) session then Some (append_source_id a, row, append_position a) else None
      | None => None
      end
    else None) (ordered_append db).

Definition runtime_join (session : text) (db : ProtocolDb) : list (text * RuntimeRow * Z) :=
  omap (fun a =>
    if of_source session (source_kind_of RuntimeEvents) a then
      match runtime_rows db !! append_source_id a with
      | Some row => if text_eqb (event_row_session row) session then Some (append_source_id a, row, append_position a) else None
      | None => None
      end
    else None) (ordered_append db).

Definition protocol_cursor_offset (session : text) (t : Table) (append_position_ : Z) (db : ProtocolDb) : N :=
  count (List.filter (fun a => (append_position a <=? append_position_)%Z) (append_ids t session db)).

(** The common part of the two page functions: [rows] is the join, [decode] reads one row. *)
Definition page_from {R A} (t : Table) (session_id : SessionId) (request : ProtocolPageRequest) (total : N)
    (rows : list (R * Z)) (decode : R -> result A StoreError) (db : ProtocolDb) : result (ProtocolPage A) StoreError :=
  let? (requested_offset, limit, after_append_position) := resolve request total in
  let offset :=
    match after_append_position with
    | Some cursor => protocol_cursor_offset (ulid_to_string session_id) t cursor db
    | None => requested_offset
    end in
  let skipped := match after_append_position with Some _ => 0%N | None => requested_offset end in
  let selected :=
    sql_limit (sqlite_page_value limit)
      (sql_offset (sqlite_page_value skipped) (List.filter (fun r => after_position after_append_position (snd r)) rows)) in
  let? items := result_map (fun r => decode (fst r)) selected in
  Ok {| page_offset := offset; page_limit := limit; page_total := total; page_items := items;
        page_next_cursor := snd <$> last selected |}.

Definition history_item_page_from_connection (session_id : SessionId) (request : ProtocolPageRequest) (total : N) (db : ProtocolDb)
    : result (ProtocolPage (HistoryItem V)) StoreError :=
  page_from HistoryItems session_id request total (history_join (ulid_to_string session_id) db)
    (decode_history_row session_id (lit "history item page")) db.

Definition runtime_event_page_from_connection (session_id : SessionId) (request : ProtocolPageRequest) (total : N) (db : ProtocolDb)
    : result (ProtocolPage RuntimeEvent) StoreError :=
  page_from RuntimeEvents session_id request total (runtime_join (ulid_to_string session_id) db) (decode_runtime_row session_id) db.

(** One read transaction. *)
Definition read_page {A} (io : option text) (session_id : SessionId) (t : Table)
    (page : N -> ProtocolDb -> result A StoreError) (db : ProtocolDb) : result A StoreError :=
  match io with
  | Some error => Err (SqliteError error)
  | None => let? total := protocol_source_count session_id t db in page total db
  end.

Definition history_item_page_for_session (io : option text) (session_id : SessionId) (offset limit : N) :=
  read_page io session_id HistoryItems (history_item_page_from_connection session_id (OffsetPage offset limit)).
Definition history_item_cursor_page_for_session (io : option text) (session_id : SessionId) (after : option Z) (limit : N) :=
  read_page io session_id HistoryItems (history_item_page_from_connection session_id (AfterPage after limit)).
Definition runtime_event_page_for_session (io : option text) (session_id : SessionId) (offset limit : N) :=
  read_page io session_id RuntimeEvents (runtime_event_page_from_connection session_id (OffsetPage offset limit)).
Definition runtime_event_cursor_page_for_session (io : option text) (session_id : SessionId) (after : option Z) (limit : N) :=
  read_page io session_id RuntimeEvents (runtime_event_page_from_connection session_id (AfterPage after limit)).
Definition latest_runtime_event_page_for_session (io : option text) (session_id : SessionId) (limit : N) :=
  read_page io session_id RuntimeEvents (runtime_event_page_from_connection session_id (LatestPage limit)).

(** ** The whole canonical history in bounded pages *)

Record CanonicalHistorySnapshot := { canonical_fence : option Z; snapshot_canonical_count : N }.

Definition up_to (fence : option Z) (position : Z) : bool :=
  match fence with Some fence => (position <=? fence)%Z | None => false end.

Definition canonical_history_keyset_page (session_id : SessionId) (snapshot : CanonicalHistorySnapshot) (after : option Z)
    (offset limit : N) (db : ProtocolDb) : result (ProtocolPage (HistoryItem V)) StoreError :=
  let selected :=
    sql_limit (sqlite_page_value limit)
      (List.filter (fun r => after_position after (snd r) && up_to (canonical_fence snapshot) (snd r))
        (history_join (ulid_to_string session_id) db)) in
  let? items := result_map (fun r => decode_history_row session_id (lit "canonical history traversal") (fst r)) selected in
  Ok {| page_offset := offset; page_limit := limit; page_total := snapshot_canonical_count snapshot; page_items := items;
        page_next_cursor := snd <$> last selected |}.

Definition advance_canonical_fork_page_offset (source_session_id : SessionId) (page_label : text) (offset page_items expected_total : N)
    : result N StoreError :=
  if (page_items =? 0)%N
  then Err (StoreMessage (lit "canonical fork " ++ page_label ++ lit " for source session " ++ ulid_to_string source_session_id ++
              lit " made no progress at offset " ++ show_N offset ++ lit " of " ++ show_N expected_total))
  else
    let next_offset := saturating_add_usize offset page_items in
    if (expected_total <? next_offset)%N
    then Err (StoreMessage (lit "canonical fork " ++ page_label ++ lit " for source session " ++ ulid_to_string source_session_id ++
                lit " advanced to offset " ++ show_N next_offset ++ lit " beyond " ++ show_N expected_total))
    else Ok next_offset.

Section Visit.
Context {W : Type}.

(** The [while] loop; [None] is fuel run out.  The visitor is a closure on [W]. *)
Fixpoint visit_canonical (fuel : nat) (session_id : SessionId) (snapshot : CanonicalHistorySnapshot) (limit : N)
    (visitor : W -> ProtocolPage (HistoryItem V) -> result W StoreError) (offset : N) (cursor : option Z) (w : W) (db : ProtocolDb)
    : option (result W StoreError) :=
  if (offset <? snapshot_canonical_count snapshot)%N then
    match fuel with
    | O => None
    | S fuel =>
      match canonical_history_keyset_page session_id snapshot cursor offset limit db with
      | Err e => Some (Err e)
      | Ok page =>
        match page_next_cursor page with
        | Some next_cursor =>
          if after_position cursor next_cursor then
            match advance_canonical_fork_page_offset session_id (lit "history traversal") offset (count (page_items page))
                    (snapshot_canonical_count snapshot) with
            | Err e => Some (Err e)
            | Ok next_offset =>
              match visitor w page with
              | Err e => Some (Err e)
              | Ok w => visit_canonical fuel session_id snapshot limit visitor next_offset (Some next_cursor) w db
              end
            end
          else Some (Err (StoreMessage (lit "canonical history traversal for session " ++ ulid_to_string session_id ++
                 lit " made no progress at offset " ++ show_N offset ++ lit " of " ++ show_N (snapshot_canonical_count snapshot) ++ lit " items")))
        | None =>
          Some (Err (StoreMessage (lit "canonical history traversal for session " ++ ulid_to_string session_id ++
            lit " made no progress at offset " ++ show_N offset ++ lit " of " ++ show_N (snapshot_canonical_count snapshot) ++ lit " items")))
        end
      end
    end
  else Some (Ok w).

Definition visit_bounded_canonical_history_pages_for_session (io : option text) (session_id : SessionId) (limit source_item_limit : N)
    (visitor : W -> ProtocolPage (HistoryItem V) -> result W StoreError) (w : W) (db : ProtocolDb)
    : option (result (W * CanonicalHistorySnapshot) StoreError) :=
  match resolve (AfterPage None limit) 0 with
  | Err e => Some (Err e)
  | Ok _ =>
    match io with
    | Some error => Some (Err (SqliteError error))
    | None =>
      match protocol_source_count_bounded session_id HistoryItems source_item_limit db with
      | Err e => Some (Err e)
      | Ok canonical_count =>
        let snapshot := {| canonical_fence := max_position (ulid_to_string session_id) db; snapshot_canonical_count := canonical_count |} in
        match visit_canonical (N.to_nat canonical_count) session_id snapshot limit visitor 0 None w db with
        | None => None
        | Some (Err e) => Some (Err e)
        | Some (Ok w) => Some (Ok (w, snapshot))
        end
      end
    end
  end.
End Visit.

(** ** The active history *)

Record ActiveHistorySnapshot := { append_fence : option Z; canonical_count : N; active_count : N }.
Record ActiveHistoryTraversalBounds := { source_item_limit : N; active_item_limit : N }.
Record ActiveHistoryCursor := { effective_position : Z; cursor_append_position : Z }.
Record ActiveHistoryPage := { active_items : list (HistoryItem V); active_has_more : bool }.
Record ActiveHistoryTraversalPage := {
  traversal_items : list (HistoryItem V); traversal_next_cursor : option ActiveHistoryCursor; traversal_has_more : bool
}.

Definition bounds_new (source_item_limit active_item_limit : N) : result ActiveHistoryTraversalBounds StoreError :=
  if (source_item_limit =? 0)%N then Err (StoreMessage (lit "active history source item limit must be greater than zero"))
  else if (active_item_limit =? 0)%N then Err (StoreMessage (lit "active history item limit must be greater than zero"))
  else Ok {| source_item_limit := source_item_limit; active_item_limit := active_item_limit |}.

(** The elements of [$.replacement_item_ids] of a compaction row that are not null. *)
Definition replaced_by (session : text) (row : HistoryRow) : list text :=
  if text_eqb (row_session row) session && bool_decide (json_kind J (row_payload_json row) = Some (lit "compaction"))
  then omap id (json_replacements J (row_payload_json row)) else [].
Definition all_replaced (session : text) (db : ProtocolDb) : list text :=
  map_to_list (history_rows db) ≫= fun r => replaced_by session (snd r).

(** [replacement_tree], for one compaction: what it replaces, and what the compactions among these replace. *)
Definition next_replaced (session : text) (db : ProtocolDb) (id : text) : list text :=
  match history_rows db !! id with Some row => replaced_by session row | None => [] end.
Definition replacement_tree (session : text) (db : ProtocolDb) (row : HistoryRow) : list text :=
  closure (next_replaced session db) (length (all_replaced session db)) [] (unseen [] (replaced_by session row)).

(** [fenced_scope]: a stop fence covers the stopped session and its descendants.  The statement says
    [UNION ALL]; spawn edges form a forest, so that its rows are the same. *)
Definition FencedScope : Type := text * text * Z * text.
Definition fenced_children (db : ProtocolDb) (scope : FencedScope) : list FencedScope :=
  let '(root, stopped, after, session) := scope in
  map (fun e => (root, stopped, after, edge_child e))
    (List.filter (fun e => text_eqb (edge_root e) root && text_eqb (edge_parent e) session) (spawn_edges db)).
Definition fenced_scope (db : ProtocolDb) : list FencedScope :=
  closure (fenced_children db) (length (stop_fences db) * S (length (spawn_edges db))) []
    (unseen [] (map (fun f => (fence_root f, fence_stopped f, fence_after f, fence_stopped f)) (stop_fences db))).

Definition stopped_before (db : ProtocolDb) (session : text) (position : Z) : bool :=
  existsb (fun '(_, _, after, fenced) => text_eqb fenced session && (position <=? after)%Z) (fenced_scope db).

(** A queued task of another agent that a stop of the tree overtook. *)
Definition fenced_input (session : text) (db : ProtocolDb) (row : HistoryRow) (position : Z) : bool :=
  text_eqb (row_scope_kind row) (lit "session") &&
  bool_decide (json_kind J (row_payload_json row) = Some (lit "inter_agent_communication")) &&
  json_trigger_turn J (row_payload_json row) && stopped_before db session position.

Definition min_position (l : list Z) : option Z :=
  match l with [] => None | p :: rest => Some (fold_left Z.min rest p) end.

(** [COALESCE((SELECT MIN(..)), append_order.append_position)] *)
Definition effective (session : text) (db : ProtocolDb) (row : HistoryRow) (position : Z) : Z :=
  if bool_decide (json_kind J (row_payload_json row) = Some (lit "compaction"))
  then default position
         (min_position (map append_position
           (List.filter (fun a => of_source session (source_kind_of HistoryItems) a &&
                                  bool_decide (append_source_id a ∈ replacement_tree session db row)) (append_rows db))))
  else position.

(** The rows of [moyai_active_history_traversal]: identifier, effective position, append position. *)
Definition TraversalRow : Type := text * Z * Z.

Definition active_history (session : text) (db : ProtocolDb) : list TraversalRow :=
  let hidden := all_replaced session db in
  omap (fun '(id, row, position) =>
    if fenced_input session db row position || bool_decide (id ∈ hidden) then None
    else Some (id, effective session db row position, position)) (history_join session db).

(** [PRIMARY KEY] and [UNIQUE] of the temporary table. *)
Definition traversal_key (r : TraversalRow) : Z * Z := (snd (fst r), snd r).
Definition insert_traversal (rows : list TraversalRow) : result (list TraversalRow) StoreError :=
  if bool_decide (NoDup (fst ∘ fst <$> rows)) && bool_decide (NoDup (traversal_key <$> rows)) then Ok rows
  else Err (SqliteError (lit "UNIQUE constraint failed: moyai_active_history_traversal")).

Definition prepare_active_history_snapshot (session_id : SessionId) (bounds : option ActiveHistoryTraversalBounds) (db : ProtocolDb)
    : result (ActiveHistorySnapshot * list TraversalRow) StoreError :=
  let session := ulid_to_string session_id in
  let? canonical_count :=
    match bounds with
    | Some bounds => protocol_source_count_bounded session_id HistoryItems (source_item_limit bounds) db
    | None => protocol_source_count session_id HistoryItems db
    end in
  let limit := sqlite_page_value (match bounds with Some bounds => saturating_add_usize (active_item_limit bounds) 1 | None => usize_max end) in
  let? rows := insert_traversal (sql_limit limit (active_history session db)) in
  let active_count := count rows in
  if (canonical_count <? active_count)%N
  then Err (StoreMessage (lit "active history for session " ++ ulid_to_string session_id ++ lit " contains " ++ show_N active_count ++
              lit " rows but canonical history contains " ++ show_N canonical_count))
  else if match bounds with Some bounds => (active_item_limit bounds <? active_count)%N | None => false end
  then Err (StoreMessage (lit "active history exceeds the bounded scan limit of " ++
              show_N (match bounds with Some bounds => active_item_limit bounds | None => 0 end) ++ lit " items"))
  else Ok ({| append_fence := max_position session db; canonical_count := canonical_count; active_count := active_count |}, rows).

Definition traversal_leb (a b : TraversalRow) : bool :=
  let '(e, p) := traversal_key a in let '(f, q) := traversal_key b in (e <? f)%Z || (e =? f)%Z && (p <=? q)%Z.
Definition after_cursor (cursor : option ActiveHistoryCursor) (r : TraversalRow) : bool :=
  match cursor with
  | None => true
  | Some c => let '(e, p) := traversal_key r in
              (effective_position c <? e)%Z || (effective_position c =? e)%Z && (cursor_append_position c <? p)%Z
  end.
Definition cursor_of (r : TraversalRow) : ActiveHistoryCursor := {| effective_position := snd (fst r); cursor_append_position := snd r |}.

(** The join of the temporary table with the history items, in the order of the traversal. *)
Definition traversal_join (session : text) (rows : list TraversalRow) (db : ProtocolDb) : list (text * HistoryRow * ActiveHistoryCursor) :=
  omap (fun r =>
    match history_rows db !! fst (fst r) with
    | Some row => if text_eqb (row_session row) session then Some (fst (fst r), row, cursor_of r) else None
    | None => None
    end) (stable_sort traversal_leb rows).

Definition active_history_keyset_page (session_id : SessionId) (cursor : option ActiveHistoryCursor) (limit : N)
    (rows : list TraversalRow) (db : ProtocolDb) : result ActiveHistoryTraversalPage StoreError :=
  let fetch_limit := saturating_add_usize limit 1 in
  let fetched :=
    sql_limit (sqlite_page_value fetch_limit)
      (traversal_join (ulid_to_string session_id) (List.filter (after_cursor cursor) rows) db) in
  let? decoded := result_map (fun r => let? item := decode_history_row session_id (lit "active history item") (fst r) in Ok (item, snd r)) fetched in
  let more := (limit <? count decoded)%N in
  let decoded := if more then sql_limit limit decoded else decoded in
  Ok {| traversal_items := map fst decoded; traversal_next_cursor := snd <$> last decoded; traversal_has_more := more |}.

Definition active_history_cursor_advances (previous next : ActiveHistoryCursor) : bool :=
  (effective_position previous <? effective_position next)%Z ||
  (effective_position next =? effective_position previous)%Z && (cursor_append_position previous <? cursor_append_position next)%Z.

Definition traversal_error (session_id : SessionId) (what : text) : StoreError :=
  StoreMessage (lit "active history traversal for session " ++ ulid_to_string session_id ++ what).

Section Traverse.
Context {W : Type}.

(** The [while] loop of [traverse_active_history_in_transaction_with_bounds]; [None] is fuel run out. *)
Fixpoint traverse_pages (fuel : nat) (session_id : SessionId) (snapshot : ActiveHistorySnapshot) (limit : N)
    (visitor : W -> ActiveHistoryPage -> result W StoreError) (rows : list TraversalRow) (db : ProtocolDb)
    (cursor : option ActiveHistoryCursor) (traversed_items : N) (w : W) : option (result (W * N) StoreError) :=
  if (traversed_items <? active_count snapshot)%N then
    match fuel with
    | O => None
    | S fuel =>
      match active_history_keyset_page session_id cursor limit rows db with
      | Err e => Some (Err e)
      | Ok page =>
        let item_count := count (traversal_items page) in
        if (item_count =? 0)%N
        then Some (Err (traversal_error session_id (lit " made no progress after " ++ show_N traversed_items ++ lit " of " ++
                          show_N (active_count snapshot) ++ lit " items")))
        else
          match traversal_next_cursor page with
          | None => Some (Err (traversal_error session_id (lit " returned items without a cursor")))
          | Some next_cursor =>
            if match cursor with Some previous => negb (active_history_cursor_advances previous next_cursor) | None => false end
            then Some (Err (StoreMessage (lit "active history traversal cursor for session " ++ ulid_to_string session_id ++ lit " did not advance")))
            else
              let traversed_items := saturating_add_usize traversed_items item_count in
              if (active_count snapshot <? traversed_items)%N
              then Some (Err (traversal_error session_id (lit " advanced to " ++ show_N traversed_items ++ lit " beyond " ++
                                show_N (active_count snapshot) ++ lit " items")))
              else
                match visitor w {| active_items := traversal_items page; active_has_more := traversal_has_more page |} with
                | Err e => Some (Err e)
                | Ok w =>
                  if traversal_has_more page
                  then traverse_pages fuel session_id snapshot limit visitor rows db (Some next_cursor) traversed_items w
                  else Some (Ok (w, traversed_items))
                end
          end
      end
    end
  else Some (Ok (w, traversed_items)).

Definition validate_active_history_page_limit (limit : N) : result unit StoreError :=
  if (limit =? 0)%N then Err (StoreMessage (lit "active history page limit must be greater than zero"))
  else if (MAX_PROTOCOL_PAGE_LIMIT <? limit)%N
  then Err (StoreMessage (lit "active history page limit " ++ show_N limit ++ lit " exceeds the maximum " ++ show_N MAX_PROTOCOL_PAGE_LIMIT))
  else Ok tt.

Definition ensure_active_history_snapshot (session_id : SessionId) (expected actual : ActiveHistorySnapshot) : result unit StoreError :=
  if bool_decide (append_fence expected = append_fence actual) && (canonical_count expected =? canonical_count actual)%N &&
     (active_count expected =? active_count actual)%N
  then Ok tt
  else Err (CanonicalHistoryFenceChanged session_id (append_fence expected) (append_fence actual) (canonical_count expected)
              (canonical_count actual) (active_count expected) (active_count actual)).

Definition traverse_active_history (session_id : SessionId) (expected_snapshot : option ActiveHistorySnapshot) (limit : N)
    (bounds : option ActiveHistoryTraversalBounds) (visitor : W -> ActiveHistoryPage -> result W StoreError) (w : W) (db : ProtocolDb)
    : option (result (W * ActiveHistorySnapshot) StoreError) :=
  match
    let? _ := validate_active_history_page_limit limit in
    let? (snapshot, rows) := prepare_active_history_snapshot session_id bounds db in
    let? _ := match expected_snapshot with Some expected => ensure_active_history_snapshot session_id expected snapshot | None => Ok tt end in
    Ok (snapshot, rows)
  with
  | Err e => Some (Err e)
  | Ok (snapshot, rows) =>
    match traverse_pages (N.to_nat (active_count snapshot)) session_id snapshot limit visitor rows db None 0 w with
    | None => None
    | Some (Err e) => Some (Err e)
    | Some (Ok (w, traversed_items)) =>
      if negb (traversed_items =? active_count snapshot)%N
      then Some (Err (traversal_error session_id (lit " ended after " ++ show_N traversed_items ++ lit " of " ++
                        show_N (active_count snapshot) ++ lit " items")))
      else Some (Ok (w, snapshot))
    end
  end.

Definition visit_active_history_pages_for_session (io : option text) (session_id : SessionId) (limit : N)
    (visitor : W -> ActiveHistoryPage -> result W StoreError) (w : W) (db : ProtocolDb)
    : option (result (W * ActiveHistorySnapshot) StoreError) :=
  match io with
  | Some error => Some (Err (SqliteError error))
  | None => traverse_active_history session_id None limit None visitor w db
  end.

Definition visit_bounded_active_history_pages_for_session (io : option text) (session_id : SessionId)
    (limit source_item_limit active_item_limit : N) (visitor : W -> ActiveHistoryPage -> result W StoreError) (w : W) (db : ProtocolDb)
    : option (result (W * ActiveHistorySnapshot) StoreError) :=
  match bounds_new source_item_limit active_item_limit with
  | Err e => Some (Err e)
  | Ok bounds =>
    match io with
    | Some error => Some (Err (SqliteError error))
    | None => traverse_active_history session_id None limit (Some bounds) visitor w db
    end
  end.
End Traverse.

(** ** Appending *)

Definition set_history (m : gmap text HistoryRow) (db : ProtocolDb) : ProtocolDb :=
  {| history_rows := m; runtime_rows := runtime_rows db; turn_rows := turn_rows db; append_rows := append_rows db;
     next_append_position := next_append_position db; allocators := allocators db; stop_fences := stop_fences db; spawn_edges := spawn_edges db |}.
Definition set_runtime (m : gmap text RuntimeRow) (db : ProtocolDb) : ProtocolDb :=
  {| history_rows := history_rows db; runtime_rows := m; turn_rows := turn_rows db; append_rows := append_rows db;
     next_append_position := next_append_position db; allocators := allocators db; stop_fences := stop_fences db; spawn_edges := spawn_edges db |}.
Definition set_turn (m : gmap text TurnRow) (db : ProtocolDb) : ProtocolDb :=
  {| history_rows := history_rows db; runtime_rows := runtime_rows db; turn_rows := m; append_rows := append_rows db;
     next_append_position := next_append_position db; allocators := allocators db; stop_fences := stop_fences db; spawn_edges := spawn_edges db |}.
Definition set_allocators (m : gmap (text * text) Z) (db : ProtocolDb) : ProtocolDb :=
  {| history_rows := history_rows db; runtime_rows := runtime_rows db; turn_rows := turn_rows db; append_rows := append_rows db;
     next_append_position := next_append_position db; allocators := m; stop_fences := stop_fences db; spawn_edges := spawn_edges db |}.
Definition push_append (row : AppendRow) (db : ProtocolDb) : ProtocolDb :=
  {| history_rows := history_rows db; runtime_rows := runtime_rows db; turn_rows := turn_rows db; append_rows := append_rows db ++ [row];
     next_append_position := next_append_position db + 1; allocators := allocators db; stop_fences := stop_fences db; spawn_edges := spawn_edges db |}.

Definition constraint_failed : StoreError := SqliteError (lit "constraint failed").

(** The checks of [protocol_item_append_order], and its [UNIQUE(source_kind, source_id)]. *)
Definition append_check (row : AppendRow) (db : ProtocolDb) : bool :=
  let turn := text_eqb (append_scope_kind row) (lit "turn") && bool_decide (is_Some (append_turn row)) &&
              negb (text_eqb (append_source_kind row) (lit "mailbox_message")) in
  let session := text_eqb (append_scope_kind row) (lit "session") && bool_decide (append_turn row = None) &&
                 (text_eqb (append_source_kind row) (lit "history_item") || text_eqb (append_source_kind row) (lit "mailbox_message")) in
  (0 <=? append_sequence_no row)%Z && (turn || session) &&
  negb (existsb (fun a => text_eqb (append_source_kind a) (append_source_kind row) && text_eqb (append_source_id a) (append_source_id row))
          (append_rows db)).

(** [INSERT OR IGNORE]: a row that a constraint refuses is skipped; a full AUTOINCREMENT sequence is an error. *)
Definition insert_protocol_append_order (session_id : SessionId) (item_scope : HistoryScope) (sequence_no : Z) (source_kind source_id : text)
    (created_at_ms : Z) (db : ProtocolDb) : result ProtocolDb StoreError :=
  let row := {| append_position := next_append_position db; append_session := ulid_to_string session_id;
                append_scope_kind := scope_as_str item_scope; append_turn := ulid_to_string <$> scope_turn_id item_scope;
                append_sequence_no := sequence_no; append_source_kind := source_kind; append_source_id := source_id;
                append_created_at_ms := created_at_ms |} in
  if negb (append_check row db) then Ok db
  else if (i64_max <? next_append_position db)%Z then Err (SqliteError (lit "database or disk is full"))
  else Ok (push_append row db).

Definition history_check (id : text) (row : HistoryRow) (db : ProtocolDb) : bool :=
  let kind := json_kind J (row_payload_json row) in
  let same r := text_eqb (row_session r) (row_session row) && text_eqb (row_scope_kind r) (row_scope_kind row) &&
                bool_decide (row_turn r = row_turn row) && (row_sequence_no r =? row_sequence_no row)%Z in
  bool_decide (history_rows db !! id = None) && (0 <=? row_sequence_no row)%Z && bool_decide (is_Some kind) &&
  (text_eqb (row_scope_kind row) (lit "turn") && bool_decide (is_Some (row_turn row)) &&
   negb (bool_decide (kind = Some (lit "collaboration_mode_instruction"))) ||
   text_eqb (row_scope_kind row) (lit "session") && bool_decide (row_turn row = None) &&
   bool_decide (kind ∈ [Some (lit "collaboration_mode_instruction"); Some (lit "inter_agent_communication")])) &&
  negb (existsb (fun r => same (snd r)) (map_to_list (history_rows db))).

Definition insert_history_item (item : HistoryItem V) (db : ProtocolDb) : result ProtocolDb StoreError :=
  match validate_compaction_checkpoint (payload item) with
  | Err message => Err (StoreMessage message)
  | Ok _ =>
    match payload_to_string J (payload item) with
    | None => Err (JsonError (lit "payload"))
    | Some payload_json =>
      let id := ulid_to_string (item_id item) in
      let row := {| row_session := ulid_to_string (item_session item); row_scope_kind := scope_as_str (scope item);
                    row_turn := ulid_to_string <$> scope_turn_id (scope item); row_sequence_no := sequence_no item;
                    row_payload_json := payload_json; row_payload_sha256 := hash_text J payload_json;
                    row_created_at_ms := created_at_ms item |} in
      if history_check id row db
      then insert_protocol_append_order (item_session item) (scope item) (sequence_no item) (source_kind_of HistoryItems) id
             (created_at_ms item) (set_history (<[id := row]> (history_rows db)) db)
      else Err constraint_failed
    end
  end.

(** [UNIQUE(session_id, turn_id, sequence_no)], and one terminal event for each turn. *)
Definition runtime_check (id : text) (row : RuntimeRow) (db : ProtocolDb) : bool :=
  let of_turn r := text_eqb (event_row_session r) (event_row_session row) && text_eqb (event_row_turn r) (event_row_turn row) in
  let terminal r := bool_decide (json_kind J (event_row_msg_json r) = Some (lit "turn_terminal")) in
  bool_decide (runtime_rows db !! id = None) &&
  negb (existsb (fun r => of_turn (snd r) && ((event_row_sequence_no (snd r) =? event_row_sequence_no row)%Z || terminal (snd r) && terminal row))
          (map_to_list (runtime_rows db))).

Definition insert_runtime_event (event : RuntimeEvent) (db : ProtocolDb) : result ProtocolDb StoreError :=
  match msg_to_string J (event_msg event) with
  | None => Err (JsonError (lit "message"))
  | Some msg_json =>
    let id := ulid_to_string (event_id event) in
    let row := {| event_row_session := ulid_to_string (event_session_id event); event_row_turn := ulid_to_string (event_turn_id event);
                  event_row_sequence_no := event_sequence_no event; event_row_msg_json := msg_json;
                  event_row_sha256 := hash_text J msg_json; event_row_created_at_ms := event_created_at_ms event |} in
    if runtime_check id row db
    then insert_protocol_append_order (event_session_id event) (TurnScope (event_turn_id event)) (event_sequence_no event)
           (source_kind_of RuntimeEvents) id (event_created_at_ms event) (set_runtime (<[id := row]> (runtime_rows db)) db)
    else Err constraint_failed
  end.

Definition turn_check (id : text) (row : TurnRow) (db : ProtocolDb) : bool :=
  bool_decide (turn_rows db !! id = None) &&
  negb (existsb (fun r => text_eqb (turn_row_session (snd r)) (turn_row_session row) && text_eqb (turn_row_turn (snd r)) (turn_row_turn row) &&
                          (turn_row_sequence_no (snd r) =? turn_row_sequence_no row)%Z) (map_to_list (turn_rows db))).

Definition insert_turn_item (item : TurnItem) (db : ProtocolDb) : result ProtocolDb StoreError :=
  match turn_payload_to_string J (turn_item_payload item) with
  | None => Err (JsonError (lit "turn item"))
  | Some payload_json =>
    let id := ulid_to_string (turn_item_id item) in
    let row := {| turn_row_session := ulid_to_string (turn_item_session item); turn_row_turn := ulid_to_string (turn_item_turn item);
                  turn_row_source := ulid_to_string <$> source_item_id item; turn_row_sequence_no := turn_item_sequence_no item;
                  turn_row_payload_json := payload_json; turn_row_sha256 := hash_text J payload_json |} in
    if turn_check id row db
    then insert_protocol_append_order (turn_item_session item) (TurnScope (turn_item_turn item)) (turn_item_sequence_no item)
           (source_kind_of TurnItems) id 0 (set_turn (<[id := row]> (turn_rows db)) db)
    else Err constraint_failed
  end.

(** The sequence numbers of a turn in the three tables. *)
Definition turn_sequence_numbers (session turn : text) (db : ProtocolDb) : list Z :=
  omap (fun r => if text_eqb (event_row_session (snd r)) session && text_eqb (event_row_turn (snd r)) turn
                 then Some (event_row_sequence_no (snd r)) else None) (map_to_list (runtime_rows db)) ++
  omap (fun r => if text_eqb (row_session (snd r)) session && bool_decide (row_turn (snd r) = Some turn)
                 then Some (row_sequence_no (snd r)) else None) (map_to_list (history_rows db)) ++
  omap (fun r => if text_eqb (turn_row_session (snd r)) session && text_eqb (turn_row_turn (snd r)) turn
                 then Some (turn_row_sequence_no (snd r)) else None) (map_to_list (turn_rows db)).

Definition max_of (l : list Z) : option Z := match l with [] => None | p :: rest => Some (fold_left Z.max rest p) end.
Definition saturating_add_i64 (a b : Z) : Z := Z.min (a + b) i64_max.

(** An integer that leaves the 64-bit range becomes a real and is not read back as [i64]. *)
Definition claim_protocol_sequence_in_transaction (session_id : SessionId) (turn_id : TurnId) (requested_sequence_no : Z) (db : ProtocolDb)
    : result (ProtocolDb * Z) StoreError :=
  let key := (ulid_to_string session_id, ulid_to_string turn_id) in
  let stored_max := max_of (turn_sequence_numbers (fst key) (snd key) db) in
  let sequence_floor := Z.max (Z.max requested_sequence_no 0) (saturating_add_i64 (default (-1)%Z stored_max) 1) in
  let next := match allocators db !! key with None => sequence_floor + 1 | Some next => Z.max next sequence_floor + 1 end%Z in
  if (i64_max <? next)%Z then Err (SqliteError (lit "invalid column type"))
  else Ok (set_allocators (<[key := next]> (allocators db)) db, next - 1)%Z.

Definition claim_session_history_sequence_in_transaction (session_id : SessionId) (requested_sequence_no : Z) (db : ProtocolDb) : Z :=
  let stored_max := max_of (omap (fun r => if text_eqb (row_session (snd r)) (ulid_to_string session_id) && text_eqb (row_scope_kind (snd r)) (lit "session")
                                           then Some (row_sequence_no (snd r)) else None) (map_to_list (history_rows db))) in
  Z.max (Z.max requested_sequence_no 0) (saturating_add_i64 (default (-1)%Z stored_max) 1).

Definition bundle_mismatch (what this other : text) : StoreError := StoreMessage (lit "protocol " ++ what ++ lit " mismatch: " ++ this ++ lit " " ++ other).
Definition quoted (what value : text) : text := what ++ lit " `" ++ value ++ lit "`".

Definition validate_event_history_identity (event : RuntimeEvent) (item : HistoryItem V) : result unit StoreError :=
  if negb (event_session_id event =? item_session item)%N
  then Err (bundle_mismatch (lit "event bundle session") (quoted (lit "event session") (ulid_to_string (event_session_id event)))
              (quoted (lit "history item session") (ulid_to_string (item_session item))))
  else
    match scope item with
    | TurnScope turn_id =>
      if (turn_id =? event_turn_id event)%N then Ok tt
      else Err (bundle_mismatch (lit "event bundle turn") (quoted (lit "event turn") (ulid_to_string (event_turn_id event)))
                  (quoted (lit "history item scope") (debug_scope J (scope item))))
    | SessionScope =>
      Err (bundle_mismatch (lit "event bundle turn") (quoted (lit "event turn") (ulid_to_string (event_turn_id event)))
             (quoted (lit "history item scope") (debug_scope J (scope item))))
    end.

Definition validate_event_turn_identity (event : RuntimeEvent) (item : TurnItem) : result unit StoreError :=
  if negb (event_session_id event =? turn_item_session item)%N
  then Err (bundle_mismatch (lit "event bundle session") (quoted (lit "event session") (ulid_to_string (event_session_id event)))
              (quoted (lit "turn item session") (ulid_to_string (turn_item_session item))))
  else if negb (event_turn_id event =? turn_item_turn item)%N
  then Err (bundle_mismatch (lit "event bundle turn") (quoted (lit "event turn") (ulid_to_string (event_turn_id event)))
              (quoted (lit "turn item turn") (ulid_to_string (turn_item_turn item))))
  else Ok tt.

Definition validate_history_turn_bundle_coherence (item : HistoryItem V) (turn : TurnItem) : result unit StoreError :=
  if negb (item_session item =? turn_item_session turn)%N
  then Err (bundle_mismatch (lit "history-turn bundle session") (quoted (lit "history item session") (ulid_to_string (item_session item)))
              (quoted (lit "turn item session") (ulid_to_string (turn_item_session turn))))
  else if negb match scope item with TurnScope turn_id => (turn_id =? turn_item_turn turn)%N | SessionScope => false end
  then Err (bundle_mismatch (lit "history-turn bundle turn") (quoted (lit "history item scope") (debug_scope J (scope item)))
              (quoted (lit "turn item turn") (ulid_to_string (turn_item_turn turn))))
  else if negb (bool_decide (source_item_id turn = Some (item_id item)))
  then Err (bundle_mismatch (lit "history-turn bundle source")
              (quoted (lit "turn item source") (debug_source J (source_item_id turn)))
              (quoted (lit "history item id") (ulid_to_string (item_id item))))
  else Ok tt.

Definition validate_event_bundle_coherence (event : RuntimeEvent) (history_item : option (HistoryItem V)) (turn_item : option TurnItem)
    : result unit StoreError :=
  let? _ := match history_item with Some item => validate_event_history_identity event item | None => Ok tt end in
  let? _ := match turn_item with Some item => validate_event_turn_identity event item | None => Ok tt end in
  match history_item, turn_item with
  | Some item, Some turn => validate_history_turn_bundle_coherence item turn
  | _, _ => Ok tt
  end.

Definition with_item_sequence (n : Z) (item : HistoryItem V) : HistoryItem V :=
  {| item_id := item_id item; item_session := item_session item; scope := scope item; sequence_no := n;
     created_at_ms := created_at_ms item; payload := payload item |}.
Definition with_event_sequence (n : Z) (event : RuntimeEvent) : RuntimeEvent :=
  {| event_id := event_id event; event_session_id := event_session_id event; event_turn_id := event_turn_id event;
     event_sequence_no := n; event_created_at_ms := event_created_at_ms event; event_msg := event_msg event |}.
Definition with_turn_sequence (n : Z) (item : TurnItem) : TurnItem :=
  {| turn_item_id := turn_item_id item; turn_item_session := turn_item_session item; turn_item_turn := turn_item_turn item;
     source_item_id := source_item_id item; turn_item_sequence_no := n; turn_item_payload := turn_item_payload item |}.

(** One transaction: an error rolls back. *)
Definition insert_event_bundle_unchecked (event : RuntimeEvent) (history_item : option (HistoryItem V)) (turn_item : option TurnItem)
    (db : ProtocolDb) : result (ProtocolDb * (RuntimeEvent * option (HistoryItem V))) StoreError :=
  let? _ := validate_event_bundle_coherence event history_item turn_item in
  let? (db, n) := claim_protocol_sequence_in_transaction (event_session_id event) (event_turn_id event) (event_sequence_no event) db in
  let event := with_event_sequence n event in
  let history_item := with_item_sequence n <$> history_item in
  let? db := insert_runtime_event event db in
  let? db := match history_item with Some item => insert_history_item item db | None => Ok db end in
  let? db := match turn_item with Some item => insert_turn_item (with_turn_sequence n item) db | None => Ok db end in
  Ok (db, (event, history_item)).
End Store.
#[global] Arguments RuntimeEvent V : clear implicits.
#[global] Arguments RuntimeEventMsg V : clear implicits.
#[global] Arguments TurnItem V : clear implicits.
#[global] Arguments ProtocolJson V : clear implicits.
