(* ===== verification/ProtocolStoreFacts.v ===== *)
(** * The protocol event store: rows, order and closure

    What the tables of a consistent database hold, and what the recursive queries compute. *)
From stdpp Require Import relations.
From Stdlib Require Import Sorted.
From S2P Require Import Prelude.
From S2P Require Import Text.
From S2P Require Import PermissionFence.
From S2P Require Import ListSort.
From S2P Require Import Json.
From S2P Require Import ClmCheckpoint.
From S2P Require Import History.
From S2P Require Import ProtocolStore.

Open Scope nat_scope.

(** ** Recursive queries *)

Section Closure.
Context {A : Type} `{EqDecision A} (next : A -> list A).

Lemma elem_of_unseen (seen l : list A) (x : A) : x ∈ unseen seen l <-> x ∈ l /\ x ∉ seen.
Proof.
  induction l as [|y l IH]; cbn [unseen]; [split; [by intros ?%elem_of_nil|by intros [?%elem_of_nil _]]|].
  destruct (bool_decide (y ∈ seen) || bool_decide (y ∈ l)) eqn:E; rewrite ?elem_of_cons, IH.
  - apply orb_true_iff in E as [E|E]; apply bool_decide_eq_true in E; split; [tauto| |tauto|]; intros [[->|Hx] Hn]; tauto.
  - apply orb_false_iff in E as [E1%bool_decide_eq_false E2%bool_decide_eq_false]. split; [intros [->|[Hx Hn]]; tauto|tauto].
Qed.

Lemma nodup_unseen (seen l : list A) : NoDup (unseen seen l).
Proof.
  induction l as [|y l IH]; cbn [unseen]; [constructor|]. destruct (bool_decide (y ∈ seen) || bool_decide (y ∈ l)) eqn:E; [done|].
  constructor; [|done]. apply orb_false_iff in E as [_ E%bool_decide_eq_false]. by intros [F _]%elem_of_unseen.
Qed.

Definition adds (a b : A) : Prop := b ∈ next a.

Lemma closure_spec (universe : list A) fuel done queue :
  NoDup (done ++ queue) -> (forall x, x ∈ done ++ queue -> x ∈ universe) -> (forall x y, y ∈ next x -> y ∈ universe) ->
  (forall x, x ∈ done -> forall y, y ∈ next x -> y ∈ done ++ queue) -> length universe <= fuel + length done ->
  (forall x, x ∈ done ++ queue -> x ∈ closure next fuel done queue) /\
  (forall x y, x ∈ closure next fuel done queue -> y ∈ next x -> y ∈ closure next fuel done queue) /\
  (forall x, x ∈ closure next fuel done queue -> exists q, q ∈ done ++ queue /\ rtc adds q x).
Proof.
  revert done queue. induction fuel as [|fuel IH]; intros done queue Hn Hu Hnext Hd Hl; destruct queue as [|x queue]; cbn [closure].
  1, 3: rewrite app_nil_r in *; split_and!; [done|by intros x y Hx; apply Hd|intros x Hx; exists x; by split; [|constructor]].
  - exfalso. assert (done ++ x :: queue ⊆+ universe) as Hs by by apply NoDup_submseteq.
    apply submseteq_length in Hs. rewrite length_app in Hs. cbn in *. lia.
  - set (new := unseen _ _). assert ((done ++ [x]) ++ queue ++ new = (done ++ x :: queue) ++ new) as E by (by rewrite <- !app_assoc).
    destruct (IH (done ++ [x]) (queue ++ new)) as (IH1 & IH2 & IH3).
    + rewrite E. apply NoDup_app. split; [done|]. split; [|apply nodup_unseen]. intros y Hy [_ F]%elem_of_unseen. done.
    + rewrite E. intros y [Hy|Hy]%elem_of_app; [by apply Hu|]. apply elem_of_unseen in Hy as [Hy _]. by eapply Hnext.
    + done.
    + rewrite E. intros y Hy z Hz. destruct (decide (z ∈ done ++ x :: queue)) as [Hin|Hin]; [apply elem_of_app; by left|].
      apply elem_of_app in Hy as [Hy|Hy]; [exfalso; by eapply Hin, Hd|]. apply list_elem_of_singleton in Hy as ->.
      apply elem_of_app. right. by apply elem_of_unseen.
    + rewrite length_app. cbn. lia.
    + rewrite E in IH1, IH3. split_and!; [intros y Hy; apply IH1, elem_of_app; by left|done|].
      intros y (q & Hq & Hqy)%IH3. apply elem_of_app in Hq as [Hq|Hq]; [by exists q|]. apply elem_of_unseen in Hq as [Hq _].
      exists x. split; [apply elem_of_app; right; by left|]. by eapply rtc_l.
Qed.

(** With fuel for every row there can be, the query yields what can be reached. *)
Lemma closure_reaches (universe : list A) fuel init x : (forall y, y ∈ init -> y ∈ universe) -> (forall a b, b ∈ next a -> b ∈ universe) ->
  length universe <= fuel -> x ∈ closure next fuel [] (unseen [] init) <-> exists i, i ∈ init /\ rtc adds i x.
Proof.
  intros Hi Hn Hl. destruct (closure_spec universe fuel [] (unseen [] init)) as (H1 & H2 & H3).
  - apply nodup_unseen.
  - intros y [Hy _]%elem_of_unseen. by apply Hi.
  - done.
  - by intros y ?%elem_of_nil.
  - cbn. lia.
  - split.
    + intros (q & [Hq _]%elem_of_unseen & Hr)%H3. by exists q.
    + intros (i & Hii & Hr). assert (i ∈ closure next fuel [] (unseen [] init)) as Hc.
      { apply H1. cbn. apply elem_of_unseen. split; [done|]. by intros ?%elem_of_nil. }
      clear Hii. induction Hr as [i|i j k Hij _ IH]; [done|]. apply IH. by eapply H2.
Qed.
End Closure.

(** ** Consistent databases *)

Section Rows.
Context {V : Type} `{JsonLaws V} `{UlidLaws} (J : ProtocolJson V) (JL : ProtocolJsonLaws J).
Implicit Types (db : ProtocolDb) (item : HistoryItem V).

Definition encodes item (id : text) (row : HistoryRow) : Prop :=
  id = ulid_to_string (item_id item) /\ validate_compaction_checkpoint (payload item) = Ok tt /\
  row_session row = ulid_to_string (item_session item) /\ row_scope_kind row = scope_as_str (scope item) /\
  row_turn row = ulid_to_string <$> scope_turn_id (scope item) /\ row_sequence_no row = sequence_no item /\
  row_created_at_ms row = created_at_ms item /\ payload_to_string J (payload item) = Some (row_payload_json row).

Definition encodes_event (event : RuntimeEvent V) (id : text) (row : RuntimeRow) : Prop :=
  id = ulid_to_string (event_id event) /\ event_row_session row = ulid_to_string (event_session_id event) /\
  event_row_turn row = ulid_to_string (event_turn_id event) /\ event_row_sequence_no row = event_sequence_no event /\
  event_row_created_at_ms row = event_created_at_ms event /\ msg_to_string J (event_msg event) = Some (event_row_msg_json row).

Definition append_key (a : AppendRow) : text * text := (append_source_kind a, append_source_id a).

(** Every row has its place in the append order and the other way round, positions ascend, and rows hold
    what was encoded. *)
Record db_ok db : Prop := {
  ok_positions : StronglySorted (fun a b => (append_position a < append_position b)%Z) (append_rows db);
  ok_next : forall a, a ∈ append_rows db -> (1 <= append_position a < next_append_position db)%Z;
  ok_range : (1 <= next_append_position db <= i64_max + 1)%Z;
  ok_keys : NoDup (append_key <$> append_rows db);
  ok_sources : forall t id session, (id, session) ∈ source_rows t db <->
    exists a, a ∈ append_rows db /\ append_key a = (source_kind_of t, id) /\ append_session a = session;
  ok_history : forall id row, history_rows db !! id = Some row -> exists item, encodes item id row;
  ok_runtime : forall id row, runtime_rows db !! id = Some row -> exists event, encodes_event event id row
}.

Lemma ulid_inj a b : ulid_to_string a = ulid_to_string b -> a = b.
Proof. intros E. apply (f_equal ulid_from_string) in E. rewrite !ulid_round_trip in E. by injection E. Qed.

Lemma decode_encoded item id row label : encodes item id row -> decode_history_row J (item_session item) label (id, row) = Ok item.
Proof.
  intros (-> & Hv & _ & Hk & Ht & Hs & Hc & Hp). unfold decode_history_row, decode_history_item. cbn [fst snd]. rewrite Hk, Ht, Hs, Hc.
  unfold decode_history_payload. rewrite (payload_round_trip _ JL _ _ Hp Hv), Hv. unfold parse_protocol_id.
  rewrite ulid_round_trip. destruct item as [id' session sc n c p]. cbn in *. destruct sc as [turn|]; cbn; [rewrite ulid_round_trip|]; done.
Qed.

Lemma decode_encoded_event event id row : encodes_event event id row -> decode_runtime_row J (event_session_id event) (id, row) = Ok event.
Proof.
  intros (-> & _ & Ht & Hs & Hc & Hp). unfold decode_runtime_row, parse_protocol_id. cbn [fst snd].
  rewrite Ht, Hs, Hc, !ulid_round_trip, (msg_round_trip _ JL _ _ Hp). by destruct event.
Qed.

Lemma encodes_kind item id row : encodes item id row -> json_kind J (row_payload_json row) = Some (payload_kind (payload item)).
Proof. intros (_ & _ & _ & _ & _ & _ & _ & Hp). by apply (payload_json_kind _ JL). Qed.

Lemma omap_some {A B} (f : A -> B) (l : list A) : omap id (map (fun x => Some (f x)) l) = map f l.
Proof. induction l as [|x l IH]; [done|]. cbn. by f_equal. Qed.

Lemma encodes_replaced item id row : encodes item id row ->
  replaced_by J (ulid_to_string (item_session item)) row = map ulid_to_string (replacements item).
Proof.
  intros He. pose proof (encodes_kind _ _ _ He) as Hk. destruct He as (_ & _ & Hs & _ & _ & _ & _ & Hp).
  unfold replaced_by. rewrite Hs, text_eqb_refl, Hk, (payload_json_replacements _ JL _ _ Hp). cbn [andb]. unfold replacements.
  destruct (payload item); cbn [payload_kind]; case_bool_decide as E; try done; try (exfalso; discriminate E). apply omap_some.
Qed.

Lemma replaced_elsewhere session row : row_session row <> session -> replaced_by J session row = [].
Proof. intros Hs. unfold replaced_by. apply text_eqb_neq in Hs. by rewrite Hs. Qed.

Lemma elem_of_source t id session db : db_ok db -> (id, session) ∈ source_rows t db <->
  match t with
  | HistoryItems => exists row, history_rows db !! id = Some row /\ row_session row = session
  | RuntimeEvents => exists row, runtime_rows db !! id = Some row /\ event_row_session row = session
  | TurnItems => exists row, turn_rows db !! id = Some row /\ turn_row_session row = session
  end.
Proof.
  intros _. destruct t; cbn; rewrite list_elem_of_In, in_map_iff; split.
  1, 3, 5: intros ([i row] & [= <- <-] & Hin%list_elem_of_In%elem_of_map_to_list); by exists row.
  all: intros (row & Hr%elem_of_map_to_list%list_elem_of_In & <-); by exists (id, row).
Qed.

Lemma ordered_ascending db : db_ok db -> ordered_append db = append_rows db.
Proof.
  intros Hok. unfold ordered_append. apply stable_sort_ascending.
  - intros a b. unfold position_leb. rewrite !Z.leb_le. lia.
  - intros a b c. unfold position_leb. rewrite !Z.leb_le. lia.
  - eapply sorted_impl; [|apply (ok_positions _ Hok)]. intros a b Hab. unfold strictly_before, position_leb. cbv beta in Hab. apply Z.leb_gt. lia.
Qed.

Lemma of_source_spec session kind a : of_source session kind a = true <-> append_session a = session /\ append_source_kind a = kind.
Proof. unfold of_source. by rewrite andb_true_iff, !text_eqb_eq. Qed.
End Rows.

(** * The stored history of a session

    In a consistent database the join of the history items with the append order is the canonical history:
    every item once, at ascending positions, and the three counts agree. *)

Open Scope nat_scope.

(** ** Lists *)

Lemma sorted_omap_some {A B} (f : A -> option B) (R : relation A) (S : relation B) l :
  (forall a b x y, R a b -> f a = Some x -> f b = Some y -> S x y) -> StronglySorted R l -> StronglySorted S (omap f l).
Proof.
  intros HR. induction 1 as [|a l Hl IH Ha]; cbn; [constructor|]. destruct (f a) as [x|] eqn:E; [|done]. constructor; [done|].
  apply Forall_forall. intros y (b & Hb & Ey)%list_elem_of_omap. rewrite Forall_forall in Ha. by eapply HR; [apply Ha|..].
Qed.

Lemma sorted_nodup {A} (R : relation A) l : (forall a, ~ R a a) -> StronglySorted R l -> NoDup l.
Proof.
  intros HR. induction 1 as [|a l Hl IH Ha]; constructor; [|done]. intros F. rewrite Forall_forall in Ha. by apply (HR a), Ha.
Qed.

Lemma nodup_fst {A B} (l : list (A * B)) : NoDup (fst <$> l) -> NoDup l.
Proof. apply NoDup_fmap_1. Qed.

Lemma length_bind_one {A B} (f : A -> list B) l : (forall x, x ∈ l -> length (f x) = 1) -> length (l ≫= f) = length l.
Proof.
  induction l as [|x l IH]; intros Hf; [done|]. cbn [mbind list_bind]. rewrite length_app, (Hf x) by by left. cbn. f_equal. apply IH. intros y Hy. apply Hf. by right.
Qed.

Lemma omap_forall2 {A B} (f : A -> option B) (R : B -> A -> Prop) l : (forall a, a ∈ l -> exists b, f a = Some b /\ R b a) -> Forall2 R (omap f l) l.
Proof.
  induction l as [|a l IH]; intros Hf; cbn; [constructor|]. destruct (Hf a ltac:(by left)) as (b & -> & Hb). constructor; [done|].
  apply IH. intros a' Ha. apply Hf. by right.
Qed.

(** Strictly ascending integers between two bounds are no more than fit. *)
Lemma ascending_length (l : list Z) lo hi : StronglySorted Z.lt l -> (forall z, z ∈ l -> lo <= z < hi)%Z -> (lo <= hi)%Z -> (Z.of_nat (length l) <= hi - lo)%Z.
Proof.
  intros Hs. revert lo. induction Hs as [|z l Hl IH Hz]; intros lo Hb Hle; cbn; [lia|].
  pose proof (Hb z ltac:(by left)) as Hzb. rewrite Forall_forall in Hz. specialize (IH (z + 1)%Z). 
  assert (Z.of_nat (length l) <= hi - (z + 1))%Z; [|lia]. apply IH; [|lia]. intros y Hy. specialize (Hz y Hy). specialize (Hb y ltac:(by right)). lia.
Qed.

Section History.
Context {V : Type} `{JsonLaws V} `{UlidLaws} (J : ProtocolJson V) (JL : ProtocolJsonLaws J).
Context (session_id : SessionId) (db : ProtocolDb) (Hok : db_ok J db).
Local Abbreviation session := (ulid_to_string session_id).
Local Abbreviation join := (history_join session db).

(** ** Rows and positions *)

Lemma same_append a b : a ∈ append_rows db -> b ∈ append_rows db -> append_key a = append_key b -> a = b.
Proof.
  intros Ha Hb E. destruct (list_elem_of_lookup_1 _ _ Ha) as [i Hi], (list_elem_of_lookup_1 _ _ Hb) as [j Hj].
  assert (i = j) as ->; [|congruence]. apply (NoDup_lookup (append_key <$> append_rows db) i j (append_key a)); [apply Hok| |];
    rewrite list_lookup_fmap; [by rewrite Hi|by rewrite Hj, E].
Qed.

Lemma appended_row a : a ∈ append_rows db -> append_source_kind a = source_kind_of HistoryItems ->
  exists row, history_rows db !! append_source_id a = Some row /\ row_session row = append_session a.
Proof.
  intros Ha Hk. apply (elem_of_source J HistoryItems (append_source_id a) (append_session a) db Hok), (ok_sources J _ Hok).
  exists a. unfold append_key. by rewrite Hk.
Qed.

Lemma in_join id row p : (id, row, p) ∈ join <-> exists a, a ∈ append_rows db /\ append_source_kind a = source_kind_of HistoryItems /\
  append_session a = session /\ append_source_id a = id /\ append_position a = p /\ history_rows db !! id = Some row.
Proof.
  unfold history_join. rewrite (ordered_ascending J), list_elem_of_omap by done. split.
  - intros (a & Ha & Hs). destruct (of_source _ _ a) eqn:E; [|done]. apply of_source_spec in E as [E1 E2].
    destruct (history_rows db !! append_source_id a) as [row'|] eqn:Er; [|done]. destruct (text_eqb _ _); [|done]. injection Hs as <- <- <-.
    exists a. by rewrite Er.
  - intros (a & Ha & Hk & Hs & <- & <- & Hr). exists a. split; [done|]. rewrite (proj2 (of_source_spec _ _ _)) by done. rewrite Hr.
    destruct (appended_row a Ha Hk) as (row' & Hr' & Hs'). rewrite Hr in Hr'. injection Hr' as <-. by rewrite Hs', Hs, text_eqb_refl.
Qed.

Lemma join_positions : StronglySorted Z.lt (snd <$> join).
Proof.
  apply sorted_fmap. unfold history_join. rewrite (ordered_ascending J) by done. eapply sorted_omap_some; [|apply (ok_positions _ _ Hok)].
  intros a b x y Hab. cbv beta in Hab. destruct (of_source _ _ a), (of_source _ _ b); try done.
  destruct (history_rows db !! append_source_id a), (history_rows db !! append_source_id b); try done.
  destruct (text_eqb _ _), (text_eqb _ _); try done. intros [= <-] [= <-]. done.
Qed.

Lemma join_nodup : NoDup join.
Proof. eapply (NoDup_fmap_1 snd). apply (sorted_nodup Z.lt); [intros ?; lia|apply join_positions]. Qed.

Lemma join_functional id row p row' p' : (id, row, p) ∈ join -> (id, row', p') ∈ join -> row = row' /\ p = p'.
Proof.
  intros (a & Ha & Hk & _ & Hi & <- & Hr)%in_join (b & Hb & Hk' & _ & Hi' & <- & Hr')%in_join. split; [congruence|].
  f_equal. apply same_append; [done..|]. unfold append_key. congruence.
Qed.

(** ** The items *)

Definition stored_as (item : HistoryItem V) (r : text * HistoryRow * Z) : Prop :=
  encodes J item (fst (fst r)) (snd (fst r)) /\ item_session item = session_id.

Definition canonical_history : list (HistoryItem V) :=
  omap (fun r => match decode_history_row J session_id [] (fst r) with Ok item => Some item | Err _ => None end) join.

Lemma join_encodes id row p : (id, row, p) ∈ join -> exists item, encodes J item id row /\ item_session item = session_id.
Proof.
  intros (a & Ha & Hk & Hs & <- & _ & Hr)%in_join. destruct (ok_history _ _ Hok _ _ Hr) as [item He]. exists item. split; [done|].
  destruct (appended_row a Ha Hk) as (row' & Hr' & Hs'). rewrite Hr in Hr'. injection Hr' as <-.
  destruct He as (_ & _ & Hi & _). apply ulid_inj. congruence.
Qed.

Lemma stored_decodes item r label : stored_as item r -> decode_history_row J session_id label (fst r) = Ok item.
Proof. intros [He <-]. destruct r as [[id row] p]. by apply decode_encoded. Qed.

Lemma history_stored : Forall2 stored_as canonical_history join.
Proof.
  apply omap_forall2. intros [[id row] p] Hin. destruct (join_encodes _ _ _ Hin) as (item & He & Hs). exists item.
  assert (stored_as item (id, row, p)) as Hst by done. by rewrite (stored_decodes _ _ [] Hst).
Qed.

Lemma history_ids : ulid_to_string <$> (item_id <$> canonical_history) = fst ∘ fst <$> join.
Proof.
  pose proof history_stored as Hf. induction Hf as [|item r l k [He _] _ IH]; [done|]. cbn. f_equal; [|done]. by destruct He as [-> _].
Qed.

Lemma decode_join label : result_map (fun r => decode_history_row J session_id label (fst r)) join = Ok canonical_history.
Proof.
  pose proof history_stored as Hf. induction Hf as [|item r l k Hr _ IH]; [done|]. cbn [result_map]. rewrite (stored_decodes _ _ label Hr). cbn.
  by rewrite IH.
Qed.

(** ** The counts *)

Lemma source_rows_nodup t : NoDup (fst <$> source_rows t db).
Proof. destruct t; cbn; unfold fmap; rewrite map_map;
  (erewrite map_ext; [apply (NoDup_fst_map_to_list)|]; by intros []). Qed.

Lemma append_ids_nodup t : NoDup ((fun a => (append_source_id a, append_session a)) <$> append_ids t session db).
Proof.
  apply (NoDup_fmap_1 (fun p => (source_kind_of t, fst p))). rewrite <- list_fmap_compose. unfold append_ids.
  assert (forall l, NoDup (append_key <$> l) ->
    NoDup ((fun p : text * text => (source_kind_of t, fst p)) ∘ (fun a => (append_source_id a, append_session a)) <$>
      List.filter (of_source session (source_kind_of t)) l)) as Hl; [|apply Hl, Hok].
  induction l as [|a l IH]; cbn; [constructor|]. intros [Ha Hl]%NoDup_cons. destruct (of_source _ _ a) eqn:E; [|by apply IH]. cbn. constructor; [|by apply IH].
  apply of_source_spec in E as [_ E]. intros (b & Hb & Hin)%list_elem_of_fmap. apply list_elem_of_In, filter_In in Hin as [Hin Hs].
  apply of_source_spec in Hs as [_ Hs]. apply Ha, list_elem_of_fmap. exists b. split; [|by apply list_elem_of_In]. cbn in Hb. unfold append_key. congruence.
Qed.

Lemma table_append_perm t : table_ids t session db ≡ₚ (fun a => (append_source_id a, append_session a)) <$> append_ids t session db.
Proof.
  apply NoDup_Permutation.
  - unfold table_ids. apply NoDup_ListNoDup, List.NoDup_filter, NoDup_ListNoDup, nodup_fst, source_rows_nodup.
  - apply append_ids_nodup.
  - intros [id s]. unfold table_ids, append_ids. rewrite list_elem_of_In, filter_In, <- list_elem_of_In, (ok_sources _ _ Hok), list_elem_of_fmap. cbn [snd].
    split.
    + intros [(a & Ha & Hk & <-) Hs%text_eqb_eq]. injection Hk as Hk Hi. exists a. split; [by rewrite Hi|]. apply list_elem_of_In, filter_In.
      split; [by apply list_elem_of_In|]. by apply of_source_spec.
    + intros (a & [= -> ->] & Ha%list_elem_of_In%filter_In). destruct Ha as [Ha%list_elem_of_In [Hs Hk]%of_source_spec].
      split; [|by apply text_eqb_eq]. exists a. unfold append_key. by rewrite Hk.
Qed.

Lemma joined_count t : length (joined_ids t session db) = length (table_ids t session db).
Proof.
  apply length_bind_one. intros [id s] Hin. rewrite length_map. unfold table_ids in Hin. apply list_elem_of_In, filter_In in Hin as [Hin Hs].
  apply list_elem_of_In, (ok_sources _ _ Hok) in Hin as (a & Ha & Hk & Hsa). cbn [fst snd] in *.
  assert (List.filter (fun b => of_source s (source_kind_of t) b && text_eqb (append_source_id b) id) (append_rows db) ≡ₚ [a]) as ->; [|done].
  apply NoDup_Permutation; [|by apply NoDup_singleton|].
  - apply NoDup_ListNoDup, List.NoDup_filter, NoDup_ListNoDup. eapply NoDup_fmap_1, (ok_keys _ _ Hok).
  - intros b. rewrite list_elem_of_In, filter_In, <- list_elem_of_In, list_elem_of_singleton, andb_true_iff, of_source_spec, text_eqb_eq. unfold append_key in Hk.
    injection Hk as Hk Hi. split.
    + intros (Hb & [Hbs Hbk] & Hbi). apply same_append; [done..|]. unfold append_key. congruence.
    + intros ->. split_and!; try done.
Qed.

Lemma append_ids_join : length (append_ids HistoryItems session db) = length join.
Proof.
  unfold append_ids, history_join. rewrite (ordered_ascending J) by done.
  assert (forall l, (forall a, a ∈ l -> a ∈ append_rows db) -> length (List.filter (of_source session (source_kind_of HistoryItems)) l) = length (omap (fun a =>
    if of_source session (source_kind_of HistoryItems) a then
      match history_rows db !! append_source_id a with
      | Some row => if text_eqb (row_session row) session then Some (append_source_id a, row, append_position a) else None
      | None => None
      end
    else None) l)) as Hl; [|by apply Hl].
  induction l as [|a l IH]; intros Hin; [done|]. cbn. destruct (of_source _ _ a) eqn:E; [|apply IH; intros b Hb; apply Hin; by right].
  apply of_source_spec in E as [E1 E2]. destruct (appended_row a (Hin a ltac:(by left)) E2) as (row & -> & ->). rewrite E1, text_eqb_refl. cbn. f_equal.
  apply IH. intros b Hb. apply Hin. by right.
Qed.

Lemma table_length : length (table_ids HistoryItems session db) = length join.
Proof. rewrite table_append_perm, length_fmap. apply append_ids_join. Qed.

Lemma source_count_agrees t : protocol_source_count session_id t db = Ok (count (table_ids t session db)).
Proof.
  unfold protocol_source_count. cbv zeta. unfold count. rewrite (joined_count t), N.eqb_refl. pose proof (Permutation_length (table_append_perm t)) as E.
  rewrite length_fmap in E. by rewrite E, N.eqb_refl.
Qed.

Lemma history_length : length canonical_history = length join.
Proof. apply (Forall2_length _ _ _ history_stored). Qed.

Lemma source_count : protocol_source_count session_id HistoryItems db = Ok (count canonical_history).
Proof. rewrite source_count_agrees. unfold count. by rewrite table_length, history_length. Qed.

Lemma join_bound : (Z.of_nat (length join) <= i64_max)%Z.
Proof.
  rewrite <- append_ids_join. unfold append_ids.
  assert (length (List.filter (of_source session (source_kind_of HistoryItems)) (append_rows db)) <= length (append_rows db)) as Hf by apply filter_length_le.
  pose proof (ascending_length (append_position <$> append_rows db) 1 (next_append_position db)) as Hl. rewrite length_fmap in Hl.
  pose proof (ok_range _ _ Hok). enough (Z.of_nat (length (append_rows db)) <= next_append_position db - 1)%Z by lia. apply Hl; [| |lia].
  - apply sorted_fmap, Hok.
  - intros z (a & -> & Ha)%list_elem_of_fmap. by apply Hok.
Qed.
End History.

(** ** Rows behind the others *)

Section Extension.
Context {V : Type} `{JsonLaws V} `{UlidLaws} (J : ProtocolJson V).

(** Rows are only added, behind the others. *)
Definition extends (before after : ProtocolDb) : Prop :=
  (exists more, append_rows after = append_rows before ++ more) /\ history_rows before ⊆ history_rows after.

Lemma extends_refl db : extends db db.
Proof. split; [exists []; by rewrite app_nil_r|done]. Qed.
Lemma extends_trans a b c : extends a b -> extends b c -> extends a c.
Proof. intros [[m Hm] Hh] [[k Hk] Hh']. split; [exists (m ++ k); by rewrite Hk, Hm, app_assoc|by etrans]. Qed.

(** What a row of the append order contributes to the join. *)
Definition joined (session : text) (db : ProtocolDb) (a : AppendRow) : option (text * HistoryRow * Z) :=
  if of_source session (source_kind_of HistoryItems) a then
    match history_rows db !! append_source_id a with
    | Some row => if text_eqb (row_session row) session then Some (append_source_id a, row, append_position a) else None
    | None => None
    end
  else None.

Lemma join_extends session db db' more : db_ok J db -> db_ok J db' -> append_rows db' = append_rows db ++ more -> history_rows db ⊆ history_rows db' ->
  history_join session db' = history_join session db ++ omap (joined session db') more.
Proof.
  intros Hok Hok' Hm Hsub. unfold history_join. rewrite !(ordered_ascending J), Hm, omap_app by done. f_equal.
  apply list_omap_ext, Forall2_same_length_lookup_2; [done|]. intros i a a' Ha Ha'. assert (a' = a) as -> by congruence.
  destruct (of_source _ _ a) eqn:E; [|done]. apply of_source_spec in E as [_ E].
  destruct (appended_row J db Hok a ltac:(by eapply list_elem_of_lookup_2) E) as (row & Hr & _). by rewrite Hr, (lookup_weaken _ _ _ _ Hr Hsub).
Qed.
End Extension.
