(* ===== verification/ActiveOrder.v ===== *)
(** * The order of a view

    A view is kept by inserting a compaction where the first item it replaces stood.  The same order
    comes from the append positions alone: a compaction counts as appended where the earliest of
    the items it stands for was, directly or through the compactions among them. *)
From stdpp Require Import relations.
From Stdlib Require Import Sorted.
From S2P Require Import Prelude.
From S2P Require Import Text.
From S2P Require Import PermissionFence.
From S2P Require Import ListSort.
From S2P Require Import Json.
From S2P Require Import ClmCheckpoint.
From S2P Require Import History.
From S2P Require Import SourceRecords.
From S2P Require Import ContextManager.
From S2P Require Import ContextProjection.
From S2P Require Import ContextStream.
From S2P Require Import ProtocolStore.
From S2P Require Import ProtocolStoreFacts.

Open Scope nat_scope.

Section Order.
Context {V : Type} `{JsonLaws V} `{EqDecision V}.
Implicit Types (history items view : list (HistoryItem V)) (item x : HistoryItem V).

Definition view_after history : list (HistoryItem V) := fst (ingest_items history [] ∅).

(** Every compaction replaces items of the view it was made from. *)
Definition compacts_its_view history : Prop :=
  forall before x after, history = before ++ x :: after -> forall id, id ∈ replacements x -> id ∈ item_id <$> view_after before.

(** ** Members *)

Lemma view_after_snoc history x : view_after (history ++ [x]) = fst (ingest_item x (view_after history) ∅).
Proof.
  unfold view_after. rewrite ingest_items_app. destruct (ingest_items history [] ∅) as [items c]. cbn [fst ingest_items].
  rewrite (ingest_item_view x items ∅ c). by destruct (ingest_item x items c).
Qed.

Lemma ingested_members x items c item : item ∈ fst (ingest_item (V := V) x items c) <->
  (item ∈ items /\ item_id item ∉ replacements x) \/ item = x.
Proof.
  unfold ingest_item. destruct (is_compaction x) eqn:Hx; cbn [fst].
  - set (retained := List.filter _ items). set (index := Nat.min _ _).
    assert (take index retained ++ x :: drop index retained ≡ₚ x :: retained) as Hp.
    { rewrite <- (take_drop index retained) at 3. symmetry. apply Permutation_middle. }
    rewrite Hp, elem_of_cons. unfold retained. rewrite list_elem_of_In, filter_In, <- list_elem_of_In, negb_true_iff, bool_decide_eq_false.
    rewrite elem_of_list_to_set. tauto.
  - rewrite (no_replacements _ Hx), elem_of_app, list_elem_of_singleton. split; [intros [Hi| ->]|intros [[Hi _]| ->]]; auto.
    left. split; [done|]. by intros F%elem_of_nil.
Qed.

Lemma compacted_elem history id : id ∈ compacted_history_item_ids history <-> exists x, x ∈ history /\ id ∈ replacements x.
Proof.
  unfold compacted_history_item_ids. rewrite elem_of_list_to_set, list_elem_of_bind. split; intros (x & ? & ?); eauto.
Qed.

Lemma view_members history item : stream_ok history ->
  item ∈ view_after history <-> item ∈ history /\ item_id item ∉ compacted_history_item_ids history.
Proof.
  induction history as [|x history IH] using rev_ind; intros Hs.
  - cbn. split; [by intros ?%elem_of_nil|by intros [?%elem_of_nil _]].
  - pose proof (stream_prefix _ _ Hs) as Hp. pose proof (fresh_id _ _ _ Hs) as Hf.
    assert (forall id, id ∈ replacements x -> id ∈ item_id <$> history) as Hr by (intros id; by apply (stream_replacements _ Hs history x [])).
    rewrite view_after_snoc, ingested_members, (IH Hp), compacted_app, compacted_one, elem_of_app, list_elem_of_singleton, elem_of_union,
      elem_of_list_to_set.
    split.
    + intros [[[Hi Hc] Hn]| ->]; [tauto|]. split; [by right|]. intros [F|F]; apply Hf; [|by apply Hr].
      apply compacted_elem in F as (y & Hy & F). destruct (list_elem_of_split _ _ Hy) as (b & a & ->).
      rewrite fmap_app. apply elem_of_app. left. by apply (stream_replacements _ Hp b y a).
    + tauto.
Qed.

(** ** Effective positions *)

Lemma tc_rtc_step {A} (R : relation A) a c : tc R a c -> exists b, R a b /\ rtc R b c.
Proof. intros Ht. inversion Ht; subst; eauto using rtc_refl, tc_rtc. Qed.

Context (position_of : HistoryItemId -> Z).
Implicit Types (id : HistoryItemId).

Definition replaces history (a b : HistoryItemId) : Prop := exists x, x ∈ history /\ item_id x = a /\ b ∈ replacements x.

(** The earliest position of the identifiers that satisfy [P]. *)
Definition earliest (P : HistoryItemId -> Prop) (p : Z) : Prop :=
  (exists id, P id /\ position_of id = p) /\ forall id, P id -> (p <= position_of id)%Z.

Definition effective_at history item (p : Z) : Prop :=
  if decide (replacements item = []) then p = position_of (item_id item) else earliest (tc (replaces history) (item_id item)) p.

Definition in_positions history : Prop := StronglySorted (fun a b => (position_of (item_id a) < position_of (item_id b))%Z) history.

Lemma earliest_unique P p q : earliest P p -> earliest P q -> p = q.
Proof. intros [(a & Ha & <-) La] [(b & Hb & <-) Lb]. specialize (La b Hb). specialize (Lb a Ha). lia. Qed.

Lemma effective_unique history item p q : effective_at history item p -> effective_at history item q -> p = q.
Proof. unfold effective_at. case_decide; [congruence|apply earliest_unique]. Qed.

Lemma sorted_split {A} (R : relation A) before (x : A) after y : StronglySorted R (before ++ x :: after) -> y ∈ before -> R y x.
Proof.
  induction before as [|z before IH]; cbn; intros Hs Hy; [by apply elem_of_nil in Hy|].
  apply StronglySorted_inv in Hs as [Hs Hf]. apply elem_of_cons in Hy as [->|Hy]; [|by apply IH].
  rewrite Forall_forall in Hf. apply Hf, elem_of_app. right. by left.
Qed.

Lemma sorted_snoc {A} (R : relation A) l (x : A) : StronglySorted R l -> (forall y, y ∈ l -> R y x) -> StronglySorted R (l ++ [x]).
Proof.
  induction 1 as [|y l Hl IH Hf]; intros Hx; cbn; [by repeat constructor|]. constructor.
  - apply IH. intros z Hz. apply Hx. by right.
  - apply Forall_app. split; [done|]. constructor; [apply Hx; by left|done].
Qed.

(** [x] takes the place of [y], and some of what follows leaves. *)
Lemma sorted_swap {A} (R : relation A) l (y x : A) r (f : A -> bool) : (forall z, (R z x <-> R z y) /\ (R x z <-> R y z)) ->
  StronglySorted R (l ++ y :: r) -> StronglySorted R (l ++ x :: List.filter (fun z => negb (f z)) r).
Proof.
  intros Hxy. induction l as [|w l IH]; cbn; intros [Hs Hf]%StronglySorted_inv.
  - constructor.
    + clear Hf. induction r as [|z r IH]; cbn; [constructor|]. apply StronglySorted_inv in Hs as [Hs Hf]. destruct (negb (f z)); [|by apply IH].
      constructor; [by apply IH|]. apply Forall_forall. intros u [Hu _]%list_elem_of_In%filter_In. rewrite Forall_forall in Hf. by apply Hf, list_elem_of_In.
    + apply Forall_forall. intros u [Hu _]%list_elem_of_In%filter_In. rewrite Forall_forall in Hf. by apply Hxy, Hf, list_elem_of_In.
  - constructor; [by apply IH|]. apply Forall_forall. intros u Hu. rewrite Forall_forall in Hf.
    apply elem_of_app in Hu as [Hu|Hu]; [apply Hf, elem_of_app; by left|]. apply elem_of_cons in Hu as [->|Hu].
    + apply Hxy, Hf, elem_of_app. right. by left.
    + apply list_elem_of_In, filter_In in Hu as [Hu _]. apply Hf, elem_of_app. right. right. by apply list_elem_of_In.
Qed.

Section History.
Context (history : list (HistoryItem V)) (Hs : stream_ok history) (Hpos : in_positions history).

Lemma item_of_id a b : a ∈ history -> b ∈ history -> item_id a = item_id b -> a = b.
Proof. intros Ha Hb E. destruct (list_elem_of_lookup_1 _ _ Ha) as [i Hi], (list_elem_of_lookup_1 _ _ Hb) as [j Hj].
  assert (i = j) as ->; [|congruence]. apply (NoDup_lookup (item_id <$> history) i j (item_id a)); [apply Hs| |]; rewrite list_lookup_fmap; [by rewrite Hi|by rewrite Hj, E]. Qed.

Lemma replaced_earlier a b : replaces history a b -> (position_of b < position_of a)%Z.
Proof.
  intros (x & Hx & <- & Hb). destruct (list_elem_of_split _ _ Hx) as (before & after & E).
  pose proof (stream_replacements _ Hs before x after E b Hb) as (y & -> & Hy)%list_elem_of_fmap.
  unfold in_positions in Hpos. rewrite E in Hpos. by apply (sorted_split _ before x after y) in Hpos.
Qed.
Lemma tc_earlier a b : tc (replaces history) a b -> (position_of b < position_of a)%Z.
Proof. induction 1 as [a b Hab|a b c Hab _ IH]; [by apply replaced_earlier|]. apply replaced_earlier in Hab. lia. Qed.

Lemma effective_low item p : item ∈ history -> effective_at history item p -> earliest (rtc (replaces history) (item_id item)) p.
Proof.
  intros Hi. unfold effective_at. case_decide as Hr.
  - intros ->. split; [exists (item_id item); by split; [constructor|]|]. intros id Hrt.
    apply rtc_inv in Hrt as [<-|(b & (x & Hx & Ex & Hb) & _)]; [lia|]. apply item_of_id in Ex; [|done..]. subst x. rewrite Hr in Hb. by apply elem_of_nil in Hb.
  - intros [(id & Hid & <-) Hl]. split; [exists id; split; [by apply tc_rtc|done]|].
    intros id' Hrt. apply rtc_tc in Hrt as [<-|Ht]; [|by apply Hl]. apply tc_earlier in Hid. lia.
Qed.

Lemma effective_le item p : item ∈ history -> effective_at history item p -> (p <= position_of (item_id item))%Z.
Proof. intros Hi He. apply (effective_low _ _ Hi He). constructor. Qed.

(** The position of a compaction is the least of those of what it replaces. *)
Lemma effective_compaction x p q y : x ∈ history -> y ∈ history -> item_id y ∈ replacements x ->
  effective_at history x p -> effective_at history y q -> (p <= q)%Z.
Proof.
  intros Hx Hy Hr Hp Hq. apply (effective_low _ _ Hy) in Hq as [(id & Hid & <-) _].
  unfold effective_at in Hp. case_decide as E; [rewrite E in Hr; by apply elem_of_nil in Hr|]. apply Hp.
  eapply tc_rtc_r; [apply tc_once; exists x; eauto|done].
Qed.

Lemma effective_attained x p : x ∈ history -> replacements x <> [] -> effective_at history x p ->
  exists y, y ∈ history /\ item_id y ∈ replacements x /\ forall q, effective_at history y q -> (q <= p)%Z.
Proof.
  intros Hx Hne. unfold effective_at at 1. case_decide; [done|]. intros [(id & Ht & <-) _].
  assert (exists b, b ∈ replacements x /\ rtc (replaces history) b id) as (b & Hb & Hbid).
  { apply tc_rtc_step in Ht as (b & (x' & Hx' & Ex & Hb) & Hr). apply item_of_id in Ex; [subst x'; eauto|done..]. }
  destruct (list_elem_of_split _ _ Hx) as (before & after & E).
  pose proof (stream_replacements _ Hs before x after E b Hb) as (y & -> & Hy)%list_elem_of_fmap.
  assert (y ∈ history) as Hyh by (rewrite E; apply elem_of_app; by left).
  exists y. split; [done|]. split; [done|]. intros q Hq. by apply (effective_low _ _ Hyh) in Hq as [_ Hl]; apply Hl.
Qed.

(** ** The view is in that order *)

Context (eff : HistoryItem V -> Z) (Heff : forall item, item ∈ history -> effective_at history item (eff item)).

Definition eff_lt (a b : HistoryItem V) : Prop := (eff a < eff b)%Z.

Lemma position_split {A} (f : A -> bool) l i : position f l = Some i ->
  exists before y after, l = before ++ y :: after /\ length before = i /\ f y = true /\ Forall (fun z => f z = false) before.
Proof.
  revert i. induction l as [|z l IH]; intros i; cbn; [done|]. destruct (f z) eqn:E.
  - intros [= <-]. exists [], z, l. split_and!; auto.
  - destruct (position f l) as [j|]; [|done]. intros [= <-]. destruct (IH j eq_refl) as (before & y & after & -> & <- & Hy & Hb).
    exists (z :: before), y, after. split_and!; [done..|by constructor].
Qed.
Lemma position_none {A} (f : A -> bool) l : position f l = None -> Forall (fun z => f z = false) l.
Proof.
  induction l as [|z l IH]; cbn; [constructor|]. destruct (f z) eqn:E; [done|]. destruct (position f l); [done|]. constructor; auto.
Qed.

Lemma filter_none {A} (f : A -> bool) l : Forall (fun z => f z = false) l -> List.filter (fun z => negb (f z)) l = l.
Proof. intros Hf. apply filter_all. intros z Hz. rewrite Forall_forall in Hf. by rewrite (Hf z Hz). Qed.

Lemma eff_before_new before x after y : history = before ++ x :: after -> y ∈ before -> replacements x = [] -> eff_lt y x.
Proof.
  intros E Hy Hr. unfold eff_lt. assert (y ∈ history) as Hyh by (rewrite E; apply elem_of_app; by left).
  assert (x ∈ history) as Hxh by (rewrite E; apply elem_of_app; right; by left).
  pose proof (effective_le y _ Hyh (Heff _ Hyh)) as Hle. pose proof (Heff _ Hxh) as Hx. unfold effective_at in Hx. rewrite decide_True in Hx by done.
  unfold in_positions in Hpos. pose proof Hpos as Hp. rewrite E in Hp. pose proof (sorted_split _ before x after y Hp Hy) as Hlt. cbv beta in Hlt. lia.
Qed.

Lemma view_sorted before after : history = before ++ after -> compacts_its_view history -> StronglySorted eff_lt (view_after before).
Proof.
  revert after. induction before as [|x before IH] using rev_ind; intros after E Hc; [constructor|].
  rewrite <- app_assoc in E. cbn in E. specialize (IH _ E Hc). rewrite view_after_snoc.
  assert (x ∈ history) as Hx by (rewrite E; apply elem_of_app; right; by left).
  assert (stream_ok before) as Hsb by (eapply stream_prefix; rewrite <- E; exact Hs).
  assert (forall y, y ∈ view_after before -> y ∈ before) as Hvb by (intros y Hy; by apply view_members in Hy as [? _]).
  assert (forall y, y ∈ before -> y ∈ history) as Hbh by (intros y Hy; rewrite E; apply elem_of_app; by left).
  unfold ingest_item. destruct (is_compaction x) eqn:Ex; cbn [fst].
  - set (is_replaced := fun existing => bool_decide _).
    change (List.filter _ (view_after before)) with (List.filter (fun z => negb (is_replaced z)) (view_after before)). destruct (position is_replaced (view_after before)) as [i|] eqn:Ep; cbn [default].
    + apply position_split in Ep as (l & y & r & El & Hi & Hy & Hl). rewrite El in IH |- *. rewrite List.filter_app. cbn [List.filter]. rewrite Hy. cbn [negb].
      rewrite (filter_none _ l Hl), length_app, Nat.min_l by (cbn; lia). rewrite <- Hi. unfold id. rewrite take_app_length, drop_app_length.
      unfold is_replaced in Hy. apply bool_decide_eq_true, elem_of_list_to_set in Hy.
      assert (y ∈ view_after before) as Hyv by (rewrite El; apply elem_of_app; right; by left).
      assert (eff x = eff y) as Exy.
      { assert (eff x <= eff y)%Z by (apply (effective_compaction x _ _ y Hx (Hbh _ (Hvb _ Hyv)) Hy); auto).
        assert (replacements x <> []) as Hne by (intros F; rewrite F in Hy; by apply elem_of_nil in Hy).
        destruct (effective_attained x _ Hx Hne (Heff _ Hx)) as (z & Hz & Hzr & Hle). specialize (Hle _ (Heff _ Hz)).
        pose proof (Hc before x after E _ Hzr) as (z' & Ez & Hzv)%list_elem_of_fmap.
        apply item_of_id in Ez; [subst z'|done|by apply Hbh, Hvb].
        assert (eff y <= eff z)%Z; [|lia]. rewrite El in Hzv. apply elem_of_app in Hzv as [Hzl|Hzv].
        - rewrite Forall_forall in Hl. specialize (Hl z Hzl). unfold is_replaced in Hl. apply bool_decide_eq_false in Hl. by rewrite elem_of_list_to_set in Hl.
        - apply elem_of_cons in Hzv as [->|Hzr']; [lia|].
          assert (StronglySorted eff_lt (y :: r)) as Hyr by (clear -IH; induction l as [|w l IHl]; [done|]; apply IHl; by apply StronglySorted_inv in IH as [? _]).
          apply StronglySorted_inv in Hyr as [_ Hf]. rewrite Forall_forall in Hf. specialize (Hf z Hzr'). unfold eff_lt in Hf. lia. }
      clear Hc. apply (sorted_swap eff_lt l y x r is_replaced); [|done]. intros z. unfold eff_lt. rewrite Exy. done.
    + apply position_none in Ep. rewrite (filter_none _ _ Ep), Nat.min_id, take_ge, drop_ge by lia.
      assert (replacements x = []) as Hr.
      { destruct (replacements x) as [|b bs] eqn:Eb; [done|]. pose proof (Hc before x after E b ltac:(rewrite Eb; by left)) as (z & -> & Hz)%list_elem_of_fmap.
        rewrite Forall_forall in Ep. specialize (Ep z Hz). unfold is_replaced in Ep. apply bool_decide_eq_false in Ep. exfalso. apply Ep.
        apply elem_of_list_to_set. by left. }
      apply sorted_snoc; [done|]. intros y Hy. by eapply eff_before_new; eauto.
  - apply sorted_snoc; [done|]. intros y Hy. eapply eff_before_new; [done|by apply Hvb|by apply no_replacements].
Qed.
End History.
End Order.

(** * The active history of a stored session

    The traversal of the store lists the items of the live view, in its order: what the recursive queries
    compute from the rows of a consistent database is the view an agent keeps as it reads the history. *)

Open Scope nat_scope.

Lemma min_position_spec l : l <> [] -> exists m, min_position l = Some m /\ m ∈ l /\ forall x, x ∈ l -> (m <= x)%Z.
Proof.
  destruct l as [|p l]; [done|]. intros _. cbn [min_position]. eexists. split; [done|].
  assert (forall p, fold_left Z.min l p ∈ p :: l /\ forall x, x ∈ p :: l -> (fold_left Z.min l p <= x)%Z) as Hf; [|apply Hf].
  clear p. induction l as [|q l IH]; intros p; cbn [fold_left].
  - split; [by left|]. intros x ->%list_elem_of_singleton. lia.
  - destruct (IH (Z.min p q)) as [Hin Hle]. split.
    + apply elem_of_cons in Hin as [->|Hin]; [destruct (Z.min_spec p q) as [[_ ->]|[_ ->]]; [by left|right; by left]|right; by right].
    + pose proof (Hle (Z.min p q) ltac:(by left)) as Hm. intros x [->|[->|Hx]%elem_of_cons]%elem_of_cons; [lia|lia|]. apply Hle. by right.
Qed.

Section Active.
Context {V : Type} `{JsonLaws V} `{EqDecision V} `{UlidLaws} (J : ProtocolJson V) (JL : ProtocolJsonLaws J).
Context (session_id : SessionId) (db : ProtocolDb) (Hok : db_ok J db).
Local Abbreviation session := (ulid_to_string session_id).
Local Abbreviation join := (history_join session db).
Local Abbreviation history := (canonical_history J session_id db).
Local Abbreviation stored := (stored_as J session_id).
Implicit Types (item : HistoryItem V) (r : text * HistoryRow * Z).

(** ** Items and rows *)

Definition position_of (id : HistoryItemId) : Z := default 0%Z (snd <$> List.find (fun r => text_eqb (fst (fst r)) (ulid_to_string id)) join).

Lemma stored_row item : item ∈ history -> exists r, r ∈ join /\ stored item r.
Proof.
  intros Hi. pose proof (history_stored J JL session_id db Hok) as Hf. induction Hf as [|i r l k Hr _ IH]; [by apply elem_of_nil in Hi|].
  apply elem_of_cons in Hi as [->|Hi]; [exists r; split; [by left|done]|]. destruct (IH Hi) as (r' & ? & ?). exists r'. split; [by right|done].
Qed.
Lemma stored_item r : r ∈ join -> exists item, item ∈ history /\ stored item r.
Proof.
  intros Hi. pose proof (history_stored J JL session_id db Hok) as Hf. induction Hf as [|i r' l k Hr _ IH]; [by apply elem_of_nil in Hi|].
  apply elem_of_cons in Hi as [->|Hi]; [exists i; split; [by left|done]|]. destruct (IH Hi) as (i' & ? & ?). exists i'. split; [by right|done].
Qed.
Lemma stored_id item id row p : stored item (id, row, p) -> id = ulid_to_string (item_id item).
Proof. intros [[E _] _]. exact E. Qed.

Lemma position_of_row id row p : (ulid_to_string id, row, p) ∈ join -> position_of id = p.
Proof.
  intros Hin. unfold position_of. destruct (List.find _ join) as [[[id' row'] p']|] eqn:E.
  - apply find_some in E as [Hin' E%text_eqb_eq]. cbn in *. subst id'. apply list_elem_of_In in Hin'.
    by destruct (join_functional J session_id db Hok _ _ _ _ _ Hin Hin').
  - apply list_elem_of_In in Hin. eapply (find_none _ _ E) in Hin. cbn in Hin. by rewrite text_eqb_refl in Hin.
Qed.

Lemma stored_position item r : r ∈ join -> stored item r -> position_of (item_id item) = snd r.
Proof. destruct r as [[id row] p]. intros Hin Hs. pose proof (stored_id _ _ _ _ Hs) as ->. by eapply position_of_row. Qed.

Lemma history_positions : in_positions position_of history.
Proof.
  unfold in_positions. apply (sorted_fmap Z.lt (fun item => position_of (item_id item))).
  enough ((fun item => position_of (item_id item)) <$> history = snd <$> join) as -> by apply (join_positions J session_id db Hok).
  assert (forall l k, Forall2 stored l k -> (forall r, r ∈ k -> r ∈ join) -> (fun item => position_of (item_id item)) <$> l = snd <$> k) as Hl.
  - induction 1 as [|i r l k Hr _ IH]; intros Hin; [done|]. rewrite !fmap_cons. f_equal; [apply stored_position; [apply Hin; by left|done]|].
    apply IH. intros r' Hr'. apply Hin. by right.
  - by apply Hl; [apply history_stored|].
Qed.

Lemma row_in_join id row : history_rows db !! id = Some row -> row_session row = session -> exists p, (id, row, p) ∈ join.
Proof.
  intros Hr Hs. assert ((id, session) ∈ source_rows HistoryItems db) as Hin by (apply (elem_of_source J HistoryItems _ _ db Hok); eauto).
  apply (ok_sources _ _ Hok) in Hin as (a & Ha & Hk & Has). unfold append_key in Hk. injection Hk as Hk Hi.
  exists (append_position a). apply (in_join J session_id db Hok). exists a. rewrite Hi. by split_and!.
Qed.

(** ** Replaced items *)

Lemma row_replaces id row s : history_rows db !! id = Some row -> s ∈ replaced_by J session row ->
  exists item b, item ∈ history /\ id = ulid_to_string (item_id item) /\ s = ulid_to_string b /\ b ∈ replacements item.
Proof.
  intros Hr Hs. destruct (decide (row_session row = session)) as [E|E]; [|rewrite (replaced_elsewhere J _ _ E) in Hs; by apply elem_of_nil in Hs].
  destruct (row_in_join _ _ Hr E) as [p Hin]. destruct (stored_item _ Hin) as (item & Hi & He & Hsid). cbn [fst snd] in He.
  rewrite <- Hsid, (encodes_replaced J JL item id row He) in Hs. apply list_elem_of_fmap in Hs as (b & -> & Hb).
  exists item, b. by destruct He as [-> _].
Qed.

Lemma stored_replaced item r : stored item r -> replaced_by J session (snd (fst r)) = map ulid_to_string (replacements item).
Proof. intros [He Hs]. rewrite <- Hs. by eapply encodes_replaced. Qed.

Lemma join_row id row p : (id, row, p) ∈ join -> history_rows db !! id = Some row.
Proof. by intros (a & _ & _ & _ & _ & _ & ?)%(in_join J session_id db Hok). Qed.

Lemma next_replaced_spec a s : s ∈ next_replaced J session db (ulid_to_string a) <-> exists b, s = ulid_to_string b /\ replaces history a b.
Proof.
  unfold next_replaced, replaces. split.
  - destruct (history_rows db !! _) as [row|] eqn:Hr; [|by intros ?%elem_of_nil]. intros Hs.
    destruct (row_replaces _ _ _ Hr Hs) as (item & b & Hi & E%ulid_inj & -> & Hb). exists b. split; [done|]. by exists item.
  - intros (b & -> & item & Hi & <- & Hb). destruct (stored_row _ Hi) as ([[id row] p] & Hin & Hs). pose proof (stored_id _ _ _ _ Hs) as ->.
    rewrite (join_row _ _ _ Hin). pose proof (stored_replaced _ _ Hs) as E. cbn [fst snd] in E. rewrite E. by apply list_elem_of_fmap_2.
Qed.

Lemma elem_of_all_replaced s : s ∈ all_replaced J session db <-> exists b, s = ulid_to_string b /\ b ∈ compacted_history_item_ids history.
Proof.
  unfold all_replaced. rewrite list_elem_of_bind. split.
  - intros ([id row] & Hs & Hr%elem_of_map_to_list). destruct (row_replaces _ _ _ Hr Hs) as (item & b & Hi & _ & -> & Hb).
    exists b. split; [done|]. apply compacted_elem. eauto.
  - intros (b & -> & (item & Hi & Hb)%compacted_elem). destruct (stored_row _ Hi) as ([[id row] p] & Hin & Hs).
    exists (id, row). split; [|by apply elem_of_map_to_list, join_row in Hin || (apply elem_of_map_to_list; by eapply join_row)].
    pose proof (stored_replaced _ _ Hs) as E. cbn [fst snd] in E. cbn [snd]. rewrite E. by apply list_elem_of_fmap_2.
Qed.

Lemma next_in_all a s : s ∈ next_replaced J session db a -> s ∈ all_replaced J session db.
Proof.
  unfold next_replaced. destruct (history_rows db !! a) as [row|] eqn:Hr; [|by intros ?%elem_of_nil]. intros Hs.
  apply list_elem_of_bind. exists (a, row). split; [done|]. by apply elem_of_map_to_list.
Qed.

Lemma reach_replaced a s : rtc (adds (next_replaced J session db)) (ulid_to_string a) s -> exists b, s = ulid_to_string b /\ rtc (replaces history) a b.
Proof.
  intros Hr. remember (ulid_to_string a) as x eqn:Ex. revert a Ex. induction Hr as [x|x y z Hxy _ IH]; intros a ->; [exists a; by split; [|constructor]|].
  apply next_replaced_spec in Hxy as (b & -> & Hab). destruct (IH b eq_refl) as (c & -> & Hbc). exists c. split; [done|]. by eapply rtc_l.
Qed.
Lemma replaced_reach a b : rtc (replaces history) a b -> rtc (adds (next_replaced J session db)) (ulid_to_string a) (ulid_to_string b).
Proof. induction 1 as [a|a b c Hab _ IH]; [constructor|]. eapply rtc_l; [|exact IH]. apply next_replaced_spec. eauto. Qed.

Lemma tree_spec item r s : stream_ok history -> item ∈ history -> r ∈ join -> stored item r ->
  s ∈ replacement_tree J session db (snd (fst r)) <-> exists b, s = ulid_to_string b /\ tc (replaces history) (item_id item) b.
Proof.
  intros Hs Hi Hin Hst. unfold replacement_tree. rewrite (closure_reaches _ (all_replaced J session db)); [|intros y Hy; destruct r as [[id row] p]|intros a b; apply next_in_all|done].
  - rewrite (stored_replaced _ _ Hst). split.
    + intros (i & (b & -> & Hb)%list_elem_of_fmap & (c & -> & Hbc)%reach_replaced). exists c. split; [done|].
      eapply tc_rtc_r; [apply tc_once; exists item; eauto|done].
    + intros (b & -> & (c & (x & Hx & Ex & Hc) & Hcb)%tc_rtc_step). pose proof (item_of_id history Hs x item Hx Hi Ex) as ->.
      exists (ulid_to_string c). split; [by apply list_elem_of_fmap_2|by apply replaced_reach].
  - apply (next_in_all id). unfold next_replaced. by rewrite (join_row _ _ _ Hin).
Qed.

(** ** Effective positions *)

Lemma stored_compaction item r : stored item r ->
  bool_decide (json_kind J (row_payload_json (snd (fst r))) = Some (lit "compaction")) = is_compaction item.
Proof.
  intros [He _]. rewrite (encodes_kind J JL _ _ _ He). unfold is_compaction.
  destruct (payload item); cbn [payload_kind]; case_bool_decide as E; try done; discriminate E.
Qed.

Lemma appended_position a b : a ∈ append_rows db -> of_source session (source_kind_of HistoryItems) a = true ->
  append_source_id a = ulid_to_string b -> position_of b = append_position a.
Proof.
  intros Ha [Hs Hk]%of_source_spec Hi. destruct (appended_row J db Hok a Ha Hk) as (row & Hr & _). eapply position_of_row.
  apply (in_join J session_id db Hok). exists a. rewrite <- Hi. split_and!; try done.
Qed.

Lemma id_appended b : b ∈ item_id <$> history -> exists a, a ∈ append_rows db /\ of_source session (source_kind_of HistoryItems) a = true /\
  append_source_id a = ulid_to_string b.
Proof.
  intros (item & -> & Hi)%list_elem_of_fmap. destruct (stored_row _ Hi) as ([[id row] p] & Hin & Hs). pose proof (stored_id _ _ _ _ Hs) as ->.
  apply (in_join J session_id db Hok) in Hin as (a & Ha & Hk & Has & Hid & _ & _). exists a. split; [done|]. split; [by apply of_source_spec|done].
Qed.

Lemma tc_known a b : stream_ok history -> tc (replaces history) a b -> b ∈ item_id <$> history.
Proof.
  intros Hs. induction 1 as [a b (x & Hx & _ & Hb)|]; [|done]. destruct (list_elem_of_split _ _ Hx) as (before & after & E).
  rewrite E, fmap_app. apply elem_of_app. left. by eapply stream_replacements.
Qed.

Lemma effective_spec item r : stream_ok history -> item ∈ history -> r ∈ join -> stored item r ->
  effective_at position_of history item (effective J session db (snd (fst r)) (snd r)).
Proof.
  intros Hs Hi Hin Hst. unfold effective, effective_at. rewrite (stored_compaction _ _ Hst), <- (stored_position _ _ Hin Hst).
  set (rows := List.filter _ (append_rows db)).
  assert (forall b, tc (replaces history) (item_id item) b -> position_of b ∈ map append_position rows) as Hrow.
  { intros b Hb. destruct (id_appended b (tc_known _ _ Hs Hb)) as (a & Ha & Has & Hid). rewrite (appended_position a b Ha Has Hid).
    apply list_elem_of_fmap_2, list_elem_of_In, filter_In. split; [by apply list_elem_of_In|]. rewrite Has. cbn. apply bool_decide_eq_true.
    apply (tree_spec item r _ Hs Hi Hin Hst). eauto. }
  assert (forall p, p ∈ map append_position rows -> exists b, tc (replaces history) (item_id item) b /\ position_of b = p) as Hpos.
  { intros p (a & -> & Ha)%list_elem_of_fmap. apply list_elem_of_In, filter_In in Ha as [Ha%list_elem_of_In Hf].
    apply andb_true_iff in Hf as [Has Ht%bool_decide_eq_true]. apply (tree_spec item r _ Hs Hi Hin Hst) in Ht as (b & Hid & Hb).
    exists b. split; [done|]. by apply appended_position. }
  case_decide as Hr.
  - assert (map append_position rows = []) as ->; [|by destruct (is_compaction item)].
    destruct (map append_position rows) as [|p l]; [done|]. exfalso. destruct (Hpos p ltac:(by left)) as (b & Hb & _).
    apply tc_rtc_step in Hb as (c & (x & Hx & Ex & Hc) & _). rewrite (item_of_id history Hs x item Hx Hi Ex), Hr in Hc. by apply elem_of_nil in Hc.
  - destruct (is_compaction item) eqn:Ec; [|by apply no_replacements in Ec].
    destruct (min_position_spec (map append_position rows)) as (m & -> & Hm & Hle).
    + destruct (replacements item) as [|b bs] eqn:Eb; [done|]. assert (position_of b ∈ map append_position rows) as Hb; [|intros F; rewrite F in Hb; by apply elem_of_nil in Hb].
      apply Hrow, tc_once. exists item. split_and!; [done..|]. rewrite Eb. by left.
    + cbn [default]. unfold id. destruct (Hpos m Hm) as (b & Hb & <-). split; [by exists b|]. intros c Hc. by apply Hle, Hrow.
Qed.
End Active.
