(* ===== verification/ActiveTraversal.v ===== *)
(** * Reading the active history in pages

    The temporary table, its order, and the keyset pages: with any page size the visitor is given the
    items of the live view, in order and each once, and the traversal ends. *)
From S2P Require Import Prelude.
From S2P Require Import Text.
From S2P Require Import ListSort.
From S2P Require Import Json.
From S2P Require Import PermissionFence.
From S2P Require Import ContextWindow.
From S2P Require Import ClmCheckpoint.
From S2P Require Import History.
From S2P Require Import SourceRecords.
From S2P Require Import ContextManager.
From S2P Require Import ContextProjection.
From S2P Require Import ContextStream.
From S2P Require Import ActiveOrder.
From S2P Require Import ProtocolStore.
From S2P Require Import ProtocolStoreFacts.
From Stdlib Require Import Sorted.

Open Scope nat_scope.

(** ** Lists *)

Lemma sql_limit_take {A} n (l : list A) : sql_limit n l = take (N.to_nat n) l.
Proof.
  unfold sql_limit. destruct (N.le_gt_cases n (N.of_nat (length l))) as [Hle|Hgt]; [by rewrite N.min_l|].
  rewrite N.min_r, Nat2N.id, firstn_all, take_ge by lia. done.
Qed.
Lemma sql_offset_drop {A} n (l : list A) : sql_offset n l = drop (N.to_nat n) l.
Proof.
  unfold sql_offset. destruct (N.le_gt_cases n (N.of_nat (length l))) as [Hle|Hgt]; [by rewrite N.min_l|].
  rewrite N.min_r, Nat2N.id, !drop_ge by lia. done.
Qed.

Lemma filter_map {A B} (f : A -> B) (p : B -> bool) l : List.filter p (map f l) = map f (List.filter (fun x => p (f x)) l).
Proof. induction l as [|x l IH]; [done|]. cbn. destruct (p (f x)); cbn; by rewrite IH. Qed.

Lemma filter_perm {A} (p : A -> bool) l k : l ≡ₚ k -> List.filter p l ≡ₚ List.filter p k.
Proof. induction 1 as [|x l k _ IH|x y l|l k m _ IH1 _ IH2]; cbn; [done|by destruct (p x); [apply perm_skip|]|destruct (p x), (p y); try done; apply perm_swap|by etrans]. Qed.

Lemma filter_drop {A} (p : A -> bool) (l : list A) k : (forall x, x ∈ take k l -> p x = false) -> (forall x, x ∈ drop k l -> p x = true) ->
  List.filter p l = drop k l.
Proof.
  intros Ht Hd. rewrite <- (take_drop k l) at 1. rewrite List.filter_app. rewrite (filter_all p (drop k l) Hd).
  assert (forall m, (forall x, x ∈ m -> p x = false) -> List.filter p m = []) as Hnil; [|by rewrite (Hnil _ Ht)].
  induction m as [|x m IH]; intros Hm; [done|]. cbn. rewrite (Hm x) by by left. apply IH. intros y Hy. apply Hm. by right.
Qed.

Lemma sorted_bool_filter {A} (R : relation A) (p : A -> bool) l : StronglySorted R l -> StronglySorted R (List.filter p l).
Proof.
  induction 1 as [|x l Hl IH Hx]; cbn; [constructor|]. destruct (p x); [|done]. constructor; [done|]. apply Forall_forall.
  intros y [Hy _]%list_elem_of_In%filter_In. rewrite Forall_forall in Hx. by apply Hx, list_elem_of_In.
Qed.

Lemma sorted_app {A} (R : relation A) l k : StronglySorted R (l ++ k) -> StronglySorted R k /\ forall x y, x ∈ l -> y ∈ k -> R x y.
Proof.
  induction l as [|x l IH]; cbn; intros Hs; [split; [done|]; by intros x y ?%elem_of_nil|]. apply StronglySorted_inv in Hs as [Hs Hx]. destruct (IH Hs) as [Hk Hlk].
  split; [done|]. intros a b [->|Ha]%elem_of_cons Hb; [|by apply Hlk]. rewrite Forall_forall in Hx. apply Hx, elem_of_app. by right.
Qed.

Lemma last_elem {A} (l : list A) x : last l = Some x -> x ∈ l.
Proof. intros Hl. apply last_Some in Hl as [k ->]. apply elem_of_app. right. by left. Qed.

Lemma result_map_ok {R A E} (decode : R -> result A E) items rows : Forall2 (fun item r => decode r = Ok item) items rows ->
  result_map decode rows = Ok items.
Proof. induction 1 as [|item r items rows Hr _ IH]; [done|]. cbn [result_map]. rewrite Hr. cbn. by rewrite IH. Qed.

(** ** The order of the traversal *)

Lemma traversal_leb_total a b : traversal_leb a b = true \/ traversal_leb b a = true.
Proof. unfold traversal_leb. destruct (traversal_key a), (traversal_key b). rewrite !orb_true_iff, !andb_true_iff, !Z.ltb_lt, !Z.eqb_eq, !Z.leb_le. lia. Qed.
Lemma traversal_leb_trans a b c : traversal_leb a b = true -> traversal_leb b c = true -> traversal_leb a c = true.
Proof.
  unfold traversal_leb. destruct (traversal_key a), (traversal_key b), (traversal_key c).
  rewrite !orb_true_iff, !andb_true_iff, !Z.ltb_lt, !Z.eqb_eq, !Z.leb_le. lia.
Qed.
Lemma traversal_before a b : (snd (fst a) < snd (fst b))%Z -> strictly_before traversal_leb a b.
Proof.
  intros Hlt. unfold strictly_before, traversal_leb, traversal_key. apply not_true_iff_false.
  rewrite orb_true_iff, andb_true_iff, Z.ltb_lt, Z.eqb_eq, Z.leb_le. lia.
Qed.

Section Traversal.
Context {V : Type} `{JsonLaws V} `{EqDecision V} `{UlidLaws} (J : ProtocolJson V) (JL : ProtocolJsonLaws J).
Context (session_id : SessionId) (db : ProtocolDb) (Hok : db_ok J db).
Local Abbreviation session := (ulid_to_string session_id).
Local Abbreviation join := (history_join session db).
Local Abbreviation history := (canonical_history J session_id db).
Local Abbreviation stored := (stored_as J session_id).
Local Abbreviation position_of := (ActiveOrder.position_of session_id db).
Implicit Types (item : HistoryItem V) (r : text * HistoryRow * Z).

(** A queued task of another agent that a stop of the tree overtook. *)
Definition overtaken item : bool :=
  match scope item, payload item with
  | SessionScope, InterAgentItem communication => trigger_turn communication && stopped_before db session (position_of (item_id item))
  | _, _ => false
  end.

(** What the live view holds of the stored history. *)
Definition live_view : list (HistoryItem V) := List.filter (fun item => negb (overtaken item)) (view_after history).

Definition effective_of item : Z :=
  match history_rows db !! ulid_to_string (item_id item) with
  | Some row => effective J session db row (position_of (item_id item))
  | None => 0%Z
  end.
Definition traversal_row item : TraversalRow := (ulid_to_string (item_id item), effective_of item, position_of (item_id item)).

Definition shown item : bool := negb (overtaken item) && negb (bool_decide (item_id item ∈ compacted_history_item_ids history)).

Lemma fenced_input_stored item r : r ∈ join -> stored item r -> fenced_input J session db (snd (fst r)) (snd r) = overtaken item.
Proof.
  intros Hin Hst. rewrite <- (stored_position J session_id db Hok item r Hin Hst). destruct Hst as [He _]. unfold fenced_input, overtaken.
  rewrite (encodes_kind J JL _ _ _ He). destruct He as (_ & _ & _ & -> & _ & _ & _ & Hp). rewrite (payload_json_trigger _ JL _ _ Hp).
  destruct (scope item) as [turn|]; [done|]. destruct (payload item); cbn [payload_kind]; case_bool_decide as E; try done; discriminate E.
Qed.

Lemma effective_stored item r : r ∈ join -> stored item r -> effective_of item = effective J session db (snd (fst r)) (snd r).
Proof.
  intros Hin Hst. unfold effective_of. rewrite (stored_position J session_id db Hok item r Hin Hst). destruct r as [[id row] p].
  pose proof (stored_id J session_id _ _ _ _ Hst) as ->. by rewrite (join_row J session_id db Hok _ _ _ Hin).
Qed.

Lemma active_rows : active_history J session db = map traversal_row (List.filter shown history).
Proof.
  unfold active_history. assert (forall l k, Forall2 stored l k -> (forall r, r ∈ k -> r ∈ join) ->
    omap (fun '(id, row, position) => if fenced_input J session db row position || bool_decide (id ∈ all_replaced J session db) then None
      else Some (id, effective J session db row position, position)) k = map traversal_row (List.filter shown l)) as Hl; [|apply Hl; [by apply history_stored|done]].
  induction 1 as [|item r l k Hr _ IH]; intros Hin; [done|]. pose proof (Hin r ltac:(by left)) as Hrj.
  specialize (IH ltac:(intros r' Hr'; apply Hin; by right)). cbn [omap list_omap List.filter map].
  pose proof (fenced_input_stored _ _ Hrj Hr) as Hf. pose proof (effective_stored _ _ Hrj Hr) as He. pose proof (stored_position J session_id db Hok _ _ Hrj Hr) as Hp.
  destruct r as [[id row] p]. cbn [fst snd] in *. pose proof (stored_id J session_id _ _ _ _ Hr) as ->. rewrite Hf. unfold shown at 1.
  assert (bool_decide (ulid_to_string (item_id item) ∈ all_replaced J session db) = bool_decide (item_id item ∈ compacted_history_item_ids history)) as ->.
  { apply bool_decide_ext. rewrite (elem_of_all_replaced J JL session_id db Hok). split; [by intros (b & ->%ulid_inj & Hb)|eauto]. }
  destruct (overtaken item), (bool_decide _); cbn [orb negb andb]; try apply IH. cbn [map]. rewrite <- IH. f_equal. unfold traversal_row. by rewrite He, Hp.
Qed.

(** ** The live view is the order of the traversal *)

Context (Hstream : stream_ok history) (Hcompacts : compacts_its_view history).

Lemma live_in_history item : item ∈ live_view -> item ∈ history.
Proof. unfold live_view. intros [Hi _]%list_elem_of_In%filter_In. apply list_elem_of_In in Hi. by apply view_members in Hi as [? _]. Qed.

Lemma live_perm : live_view ≡ₚ List.filter shown history.
Proof.
  unfold live_view, shown. apply NoDup_Permutation.
  - apply NoDup_ListNoDup, List.NoDup_filter, NoDup_ListNoDup. eapply NoDup_fmap_1, (of_ids history), view_ingest_all, Hstream.
  - apply NoDup_ListNoDup, List.NoDup_filter, NoDup_ListNoDup. eapply NoDup_fmap_1, stream_ids, Hstream.
  - intros item. rewrite !list_elem_of_In, !filter_In, <- !list_elem_of_In, (view_members history item Hstream), andb_true_iff, !negb_true_iff, bool_decide_eq_false. tauto.
Qed.

Lemma live_sorted : StronglySorted (fun a b => (effective_of a < effective_of b)%Z) live_view.
Proof.
  apply sorted_bool_filter. refine (view_sorted position_of history Hstream _ effective_of _ history [] _ Hcompacts).
  - by apply history_positions.
  - intros item Hi. destruct (stored_row J JL session_id db Hok item Hi) as (r & Hr & Hst). rewrite (effective_stored item r Hr Hst).
    by apply effective_spec.
  - by rewrite app_nil_r.
Qed.

Lemma rows_sorted items : StronglySorted (fun a b => (effective_of a < effective_of b)%Z) items -> StronglySorted (strictly_before traversal_leb) (map traversal_row items).
Proof. intros Hs. apply sorted_fmap. eapply sorted_impl; [|exact Hs]. intros a b Hab. by apply traversal_before. Qed.

Lemma traversal_order : stable_sort traversal_leb (active_history J session db) = map traversal_row live_view.
Proof.
  apply stable_sort_unique; [apply traversal_leb_total|apply traversal_leb_trans| |apply rows_sorted, live_sorted].
  rewrite active_rows. apply Permutation_map, live_perm.
Qed.

Lemma insert_active : insert_traversal (active_history J session db) = Ok (active_history J session db).
Proof.
  unfold insert_traversal. rewrite !bool_decide_eq_true_2; [done| |].
  - assert (active_history J session db ≡ₚ map traversal_row live_view) as -> by (rewrite active_rows; symmetry; apply Permutation_map, live_perm).
    apply (sorted_nodup (fun a b => fst a < fst b)%Z); [intros ?; lia|]. apply (sorted_fmap (fun a b => fst a < fst b)%Z traversal_key).
    apply (sorted_fmap (fun a b => fst (traversal_key a) < fst (traversal_key b))%Z traversal_row). apply live_sorted.
  - rewrite active_rows. unfold fmap. rewrite map_map. apply (NoDup_fmap_2_strong (fun item => ulid_to_string (item_id item))).
    + intros a b Ha Hb E%ulid_inj. apply list_elem_of_In, filter_In in Ha as [Ha _], Hb as [Hb _]. by apply (item_of_id history Hstream); [apply list_elem_of_In..|].
    + apply NoDup_ListNoDup, List.NoDup_filter, NoDup_ListNoDup. eapply NoDup_fmap_1, stream_ids, Hstream.
Qed.

(** ** Pages *)

(** The cursor after the first [k] items. *)
Definition cursor_at (k : nat) : option ActiveHistoryCursor := (fun item => cursor_of (traversal_row item)) <$> last (take k live_view).

Lemma traversal_key_row item : traversal_key (traversal_row item) = (effective_of item, position_of (item_id item)).
Proof. done. Qed.

Lemma after_row a b : (effective_of a < effective_of b)%Z ->
  after_cursor (Some (cursor_of (traversal_row a))) (traversal_row b) = true /\ after_cursor (Some (cursor_of (traversal_row b))) (traversal_row a) = false.
Proof.
  intros Hab. cbn. split; [apply orb_true_iff; left; by apply Z.ltb_lt|]. apply orb_false_iff. split; [apply Z.ltb_ge; lia|].
  apply andb_false_iff. left. apply Z.eqb_neq. lia.
Qed.
Lemma after_itself a : after_cursor (Some (cursor_of (traversal_row a))) (traversal_row a) = false.
Proof. cbn. by rewrite !Z.ltb_irrefl, andb_false_r. Qed.

Lemma live_split k : last (take k live_view) = None /\ take k live_view = [] \/
  exists item before, last (take k live_view) = Some item /\ take k live_view = before ++ [item].
Proof.
  destruct (last (take k live_view)) as [item|] eqn:E; [|left; by apply last_None in E]. right. exists item.
  pose proof E as [before Hb]%last_Some. by exists before.
Qed.

Lemma after_live k item : item ∈ live_view -> (item ∈ take k live_view -> after_cursor (cursor_at k) (traversal_row item) = false) /\
  (item ∈ drop k live_view -> after_cursor (cursor_at k) (traversal_row item) = true).
Proof.
  intros _. unfold cursor_at. pose proof live_sorted as Hs. rewrite <- (take_drop k live_view) in Hs.
  destruct (live_split k) as [[-> ->]|(x & before & -> & E)]; [split; [by intros ?%elem_of_nil|done]|]. cbn [fmap option_fmap option_map].
  rewrite E in Hs |- *. split.
  - intros [Hi|Hi]%elem_of_app.
    + rewrite <- app_assoc in Hs. apply sorted_app in Hs as [_ Hs]. apply after_row, Hs; [done|]. by left.
    + apply list_elem_of_singleton in Hi as ->. apply after_itself.
  - intros Hi. apply sorted_app in Hs as [_ Hs]. apply after_row, Hs; [|done]. apply elem_of_app. right. by left.
Qed.

Lemma after_rows k : stable_sort traversal_leb (List.filter (after_cursor (cursor_at k)) (active_history J session db)) = map traversal_row (drop k live_view).
Proof.
  apply stable_sort_unique; [apply traversal_leb_total|apply traversal_leb_trans| |].
  - assert (active_history J session db ≡ₚ map traversal_row live_view) as Hp by (rewrite active_rows; symmetry; apply Permutation_map, live_perm).
    rewrite (filter_perm _ _ _ Hp), filter_map. apply Permutation_map. rewrite (filter_drop _ live_view k); [done| |].
    + intros x Hx. apply (after_live k x); [|done]. rewrite <- (take_drop k live_view). apply elem_of_app. by left.
    + intros x Hx. apply (after_live k x); [|done]. rewrite <- (take_drop k live_view). apply elem_of_app. by right.
  - apply rows_sorted. pose proof live_sorted as Hs. rewrite <- (take_drop k live_view) in Hs. by apply sorted_app in Hs as [? _].
Qed.

Definition page_row item (x : text * HistoryRow * ActiveHistoryCursor) : Prop := stored item (fst x, 0%Z) /\ snd x = cursor_of (traversal_row item).

Lemma traversal_join_rows items rows : stable_sort traversal_leb rows = map traversal_row items -> (forall item, item ∈ items -> item ∈ history) ->
  Forall2 page_row items (traversal_join session rows db).
Proof.
  intros E Hin. unfold traversal_join. rewrite E. clear E. induction items as [|item items IH]; cbn [map omap list_omap]; [constructor|].
  destruct (stored_row J JL session_id db Hok item (Hin item ltac:(by left))) as ([[id row] p] & Hr & Hst).
  pose proof (stored_id J session_id _ _ _ _ Hst) as ->. change (fst (fst (traversal_row item))) with (ulid_to_string (item_id item)).
  rewrite (join_row J session_id db Hok _ _ _ Hr). destruct Hst as [He Hs]. cbn [fst snd] in He.
  pose proof He as (_ & _ & Hsess & _). rewrite Hsess, Hs, text_eqb_refl. constructor; [|apply IH; intros i Hi; apply Hin; by right]. by split.
Qed.

Lemma decode_page_rows items rows : Forall2 page_row items rows ->
  result_map (fun x => let? item := decode_history_row J session_id (lit "active history item") (fst x) in Ok (item, snd x)) rows =
  Ok (map (fun item => (item, cursor_of (traversal_row item))) items).
Proof.
  intros Hf. apply result_map_ok. induction Hf as [|item r items rows [Hst Hc] _ IH]; cbn [map]; constructor; [|done].
  pose proof (stored_decodes J JL session_id _ _ (lit "active history item") Hst) as E. cbn [fst] in E. by rewrite E, Hc.
Qed.

Lemma keyset_page k limit : (0 < limit <= MAX_PROTOCOL_PAGE_LIMIT)%N ->
  active_history_keyset_page J session_id (cursor_at k) limit (active_history J session db) db =
  Ok {| traversal_items := take (N.to_nat limit) (drop k live_view);
        traversal_next_cursor := (fun item => cursor_of (traversal_row item)) <$> last (take (N.to_nat limit) (drop k live_view));
        traversal_has_more := (limit <? count (drop k live_view))%N |}.
Proof.
  intros Hl. unfold MAX_PROTOCOL_PAGE_LIMIT in Hl. unfold active_history_keyset_page. cbv zeta.
  assert (sqlite_page_value (saturating_add_usize limit 1) = limit + 1)%N as ->.
  { unfold sqlite_page_value, saturating_add_usize, usize_max, u64_max, i64_max. change (Z.to_N (2 ^ 63 - 1)) with 9223372036854775807%N. lia. }
  rewrite !sql_limit_take. rewrite (decode_page_rows (take (N.to_nat (limit + 1)) (drop k live_view))).
  2: { apply Forall2_take, traversal_join_rows; [apply after_rows|]. intros item Hi. apply live_in_history. rewrite <- (take_drop k live_view).
       apply elem_of_app. by right. }
  set (items := drop k live_view). unfold and_then. unfold count. rewrite length_map, length_take.
  replace (limit <? N.of_nat (Nat.min (N.to_nat (limit + 1)) (length items)))%N with (limit <? N.of_nat (length items))%N
    by (apply eq_true_iff_eq; rewrite !N.ltb_lt; lia).
  assert ((if (limit <? N.of_nat (length items))%N then sql_limit limit (map (fun item => (item, cursor_of (traversal_row item))) (take (N.to_nat (limit + 1)) items))
           else map (fun item => (item, cursor_of (traversal_row item))) (take (N.to_nat (limit + 1)) items)) =
          map (fun item => (item, cursor_of (traversal_row item))) (take (N.to_nat limit) items)) as ->.
  { destruct (limit <? N.of_nat (length items))%N eqn:E; [|apply N.ltb_ge in E; rewrite !take_ge by lia; done].
    rewrite sql_limit_take, <- fmap_take, take_take. do 3 f_equal. lia. }
  rewrite map_map. cbn [fst]. rewrite map_id. do 2 f_equal. by rewrite fmap_last, <- option_fmap_compose.
Qed.
End Traversal.
