(* ===== verification/ProtocolContext.v ===== *)
(** * From the store to the context of an agent

    How a run builds its context from the store (src/src/app/run_service.rs) and how the agent loop follows
    the history while it runs (src/src/agent/mod.rs). *)
From S2P Require Import Prelude.
From S2P Require Import Text.
From S2P Require Import Json.
From S2P Require Import PermissionFence.
From S2P Require Import ClmCheckpoint.
From S2P Require Import History.
From S2P Require Import ProtocolStore.
From S2P Require Import SourceRecords.
From S2P Require Import ContextManager.

Open Scope nat_scope.

(** The errors of the two callers: one of the store, or a message of their own. *)
Inductive ContextError := StorageFailed (error : StoreError) | ContextMessage (message : text).
Definition from_storage {A} (r : result A StoreError) : result A ContextError :=
  match r with Ok a => Ok a | Err e => Err (StorageFailed e) end.

Section Context_.
Context {V : Type} `{JsonValue V} `{EqDecision V} `{Ulid} (services : Services V) (J : ProtocolJson V).

(** ** Rehydration *)

Definition ActiveHistoryContextBuilder : Type := list (HistoryItem V).
Definition active_history_builder : ActiveHistoryContextBuilder := [].
Definition ingest_page (history_items : list (HistoryItem V)) (b : ActiveHistoryContextBuilder) : ActiveHistoryContextBuilder := b ++ history_items.
Definition finish (append_cursor : option Z) (canonical_count : N) (b : ActiveHistoryContextBuilder) : ContextManager V :=
  from_active_history services b append_cursor canonical_count.

Definition context_manager (io : option text) (session_id : SessionId) (allow_empty_agent_mailbox_context : bool) (db : ProtocolDb)
    : option (result (ContextManager V) ContextError) :=
  match visit_active_history_pages_for_session J io session_id MAX_PROTOCOL_PAGE_LIMIT
          (fun builder page => Ok (ingest_page (ProtocolStore.active_items page) builder)) active_history_builder db with
  | None => None
  | Some (Err e) => Some (Err (StorageFailed e))
  | Some (Ok (builder, snapshot)) =>
    let context := finish (append_fence snapshot) (ProtocolStore.canonical_count snapshot) builder in
    if negb allow_empty_agent_mailbox_context && negb (has_model_context context)
    then Some (Err (ContextMessage (lit "cannot build runtime input without active canonical model context")))
    else Some (Ok context)
  end.

(** ** Following the history *)

Record CommittedContextRefreshPage := { refresh_delta : ContextDelta; refresh_has_more : bool }.

(** [{:?}] of an optional integer. *)
Definition debug_cursor (cursor : option Z) : text :=
  match cursor with None => lit "None" | Some p => lit "Some(" ++ show_Z p ++ lit ")" end.

(** What follows the read of a page; its errors are messages. *)
Definition ingest_committed_page (session_id : SessionId) (page : ProtocolPage (HistoryItem V)) (context : ContextManager V)
    : result (ContextManager V * CommittedContextRefreshPage) text :=
  let previous_cursor := append_cursor context in
  let more := has_more page in
  if is_empty (page_items page) then
    if more
    then Err (lit "canonical history cursor for session " ++ ulid_to_string session_id ++ lit " made no progress after " ++ debug_cursor previous_cursor)
    else Ok (context, {| refresh_delta := {| change := Unchanged; steer_item_ids := []; agent_communication_item_ids := [] |};
                         refresh_has_more := false |})
  else if bool_decide (page_next_cursor page = previous_cursor)
  then Err (lit "canonical history cursor for session " ++ ulid_to_string session_id ++ lit " did not advance after " ++ debug_cursor previous_cursor)
  else
    let '(context, delta) := ingest_committed_delta services (page_items page) (page_next_cursor page) context in
    Ok (context, {| refresh_delta := delta; refresh_has_more := more |}).

Definition refresh_committed_context_page (io : option text) (session_id : SessionId) (db : ProtocolDb) (context : ContextManager V)
    : result (ContextManager V * CommittedContextRefreshPage) ContextError :=
  let? page := from_storage (history_item_cursor_page_for_session J io session_id (append_cursor context) MAX_PROTOCOL_PAGE_LIMIT db) in
  match ingest_committed_page session_id page context with Ok refreshed => Ok refreshed | Err message => Err (ContextMessage message) end.

(** The loop before a compaction the model wrote is committed; [None] is fuel run out. *)
Fixpoint refresh_to_the_end (fuel : nat) (io : option text) (session_id : SessionId) (db : ProtocolDb) (context : ContextManager V)
    : option (result (ContextManager V) ContextError) :=
  match fuel with
  | O => None
  | S fuel =>
    match refresh_committed_context_page io session_id db context with
    | Err e => Some (Err e)
    | Ok (context, refreshed) => if refresh_has_more refreshed then refresh_to_the_end fuel io session_id db context else Some (Ok context)
    end
  end.
End Context_.
