(* ===== verification/RehydratedContext.v ===== *)
(** * A context read back from the store

    A run starts from the active history of the store and then follows the canonical one.  Both give the
    view of an agent that read the whole history from the beginning. *)
From S2P Require Import Prelude.
From S2P Require Import Text.
From S2P Require Import ListSort.
From S2P Require Import Json.
From S2P Require Import PermissionFence.
From S2P Require Import ContextWindow.
From S2P Require Import ClmCheckpoint.
From S2P Require Import History.
From S2P Require Import SourceRecords.
From S2P Require Import ContextManager.
From S2P Require Import ContextProjection.
From S2P Require Import ContextStream.
From S2P Require Import ActiveOrder.
From S2P Require Import ProtocolStore.
From S2P Require Import ProtocolStoreFacts.
From S2P Require Import ActiveTraversal.
From S2P Require Import ProtocolContext.
From Stdlib Require Import Sorted.

Open Scope nat_scope.

Section Rehydrated.
Context {V : Type} `{JsonLaws V} `{EqDecision V} `{UlidLaws} (J : ProtocolJson V) (JL : ProtocolJsonLaws J).
Context (session_id : SessionId) (db : ProtocolDb) (Hok : db_ok J db).
Local Abbreviation session := (ulid_to_string session_id).
Local Abbreviation join := (history_join session db).
Local Abbreviation history := (canonical_history J session_id db).
Local Abbreviation live := (live_view J session_id db).
Implicit Types (item : HistoryItem V).

Section Traverse.
Context (Hstream : stream_ok history) (Hcompacts : compacts_its_view history).

Lemma live_length : (Z.of_nat (length live) <= Z.of_nat (length history))%Z.
Proof.
  rewrite (Permutation_length (live_perm J session_id db Hstream)).
  pose proof (filter_length_le (shown J session_id db) history). lia.
Qed.

Lemma live_bound : (Z.of_nat (length live) <= i64_max)%Z.
Proof. etrans; [apply live_length|]. rewrite (history_length J JL session_id db Hok). by apply (join_bound J). Qed.

Lemma prepared : prepare_active_history_snapshot J session_id None db =
  Ok ({| append_fence := max_position session db; ProtocolStore.canonical_count := count history; active_count := count live |},
      active_history J session db).
Proof.
  unfold prepare_active_history_snapshot. rewrite (source_count J JL session_id db Hok). cbn [and_then].
  assert (length (active_history J session db) = length live) as Hlen.
  { rewrite (active_rows J JL session_id db Hok). by rewrite length_map, (Permutation_length (live_perm J session_id db Hstream)). }
  rewrite sql_limit_take, take_ge.
  2: { rewrite Hlen. pose proof live_bound. unfold sqlite_page_value, usize_max, u64_max, i64_max in *.
       change (Z.to_N (2 ^ 63 - 1)) with 9223372036854775807%N. lia. }
  rewrite (insert_active J JL session_id db Hok Hstream Hcompacts). cbn [and_then].
  assert (count (active_history J session db) = count live) as -> by (unfold count; by rewrite Hlen).
  pose proof live_length. destruct (N.ltb_spec (count history) (count live)) as [Hlt|_]; [unfold count in Hlt; lia|done].
Qed.

Lemma last_take_drop {A} (l : list A) k n : n <> 0 -> k < length l -> last (take n (drop k l)) = last (take (k + n) l).
Proof.
  intros Hn Hk. rewrite <- take_take_drop, last_app. destruct (last (take n (drop k l))) eqn:E; [done|]. apply last_None in E.
  apply (f_equal length) in E. rewrite length_take, length_drop in E. cbn in E. lia.
Qed.

Lemma cursor_advances k n : n <> 0 -> k < length live ->
  match cursor_at J session_id db k, cursor_at J session_id db (k + n) with
  | Some a, Some b => active_history_cursor_advances a b = true
  | Some _, None => False
  | None, _ => True
  end.
Proof.
  intros Hn Hk. unfold cursor_at. rewrite <- (last_take_drop live k n Hn Hk).
  destruct (last (take k live)) as [a|] eqn:Ea; [|done]. cbn [fmap option_fmap option_map].
  destruct (last (take n (drop k live))) as [b|] eqn:Eb.
  - cbn. apply orb_true_iff. left. apply Z.ltb_lt. apply last_elem in Ea, Eb.
    pose proof (live_sorted J JL session_id db Hok Hstream Hcompacts) as Hs. rewrite <- (take_drop k live) in Hs.
    apply sorted_app in Hs as [_ Hs]. apply Hs; [done|]. rewrite <- (take_drop n (drop k live)). apply elem_of_app. by left.
  - apply last_None in Eb. apply (f_equal length) in Eb. rewrite length_take, length_drop in Eb. cbn in Eb. lia.
Qed.

(** From any point on, the loop gives the visitor the rest of the live view. *)
Lemma traverse_rest {W} (visit : W -> list (HistoryItem V) -> W) limit snapshot : (0 < limit <= MAX_PROTOCOL_PAGE_LIMIT)%N ->
  (forall w, visit w [] = w) -> (forall w a b, visit (visit w a) b = visit w (a ++ b)) -> active_count snapshot = count live ->
  forall fuel k w, length live - k <= fuel -> k <= length live ->
  traverse_pages J fuel session_id snapshot limit (fun w page => Ok (visit w (ProtocolStore.active_items page))) (active_history J session db) db
    (cursor_at J session_id db k) (N.of_nat k) w = Some (Ok (visit w (drop k live), count live)).
Proof.
  intros Hl Hnil Happ Hc. induction fuel as [|fuel IH]; intros k w Hf Hk.
  - assert (k = length live) as -> by lia. cbn [traverse_pages]. rewrite Hc, drop_ge, Hnil by lia. unfold count. by rewrite N.ltb_irrefl.
  - cbn [traverse_pages]. rewrite Hc. destruct (N.ltb_spec (N.of_nat k) (count live)) as [Hlt|Hge].
    2: { unfold count in *. assert (k = length live) as -> by lia. by rewrite drop_ge, Hnil by lia. }
    unfold count in Hlt. rewrite (keyset_page J JL session_id db Hok Hstream Hcompacts k limit Hl). cbv zeta. cbn [traversal_items traversal_next_cursor traversal_has_more].
    set (n := N.to_nat limit). assert (n <> 0) as Hn by (unfold n; lia).
    assert (count (take n (drop k live)) = N.of_nat (Nat.min n (length live - k))) as Hcount by (unfold count; by rewrite length_take, length_drop).
    rewrite Hcount. destruct (N.eqb_spec (N.of_nat (Nat.min n (length live - k))) 0); [lia|].
    rewrite (last_take_drop live k n Hn) by lia. pose proof (cursor_advances k n Hn ltac:(lia)) as Hadv. fold (cursor_at J session_id db (k + n)).
    destruct (cursor_at J session_id db (k + n)) as [next|] eqn:En.
    2: { unfold cursor_at in En. apply fmap_None, last_None in En. apply (f_equal length) in En. rewrite length_take in En. cbn in En. lia. }
    assert (match cursor_at J session_id db k with Some previous => negb (active_history_cursor_advances previous next) | None => false end = false) as ->.
    { destruct (cursor_at J session_id db k); [by rewrite Hadv|done]. }
    assert (saturating_add_usize (N.of_nat k) (N.of_nat (Nat.min n (length live - k))) = N.of_nat (k + Nat.min n (length live - k))) as ->.
    { pose proof live_bound. unfold saturating_add_usize, usize_max, u64_max, i64_max in *. lia. }
    destruct (N.ltb_spec (count live) (N.of_nat (k + Nat.min n (length live - k)))) as [F|_]; [unfold count in F; lia|].
    cbn [ProtocolStore.active_items]. unfold count at 1. rewrite length_drop. destruct (N.ltb_spec limit (N.of_nat (length live - k))) as [Hm|Hm].
    + rewrite Nat.min_l by lia. rewrite <- En, IH by lia. rewrite Happ. do 4 f_equal. by rewrite <- drop_drop, take_drop.
    + unfold count. rewrite (take_ge (drop k live)) by (rewrite length_drop; lia). do 4 f_equal. lia.
Qed.

Lemma traversed {W} (visit : W -> list (HistoryItem V) -> W) limit w : (0 < limit <= MAX_PROTOCOL_PAGE_LIMIT)%N ->
  (forall w, visit w [] = w) -> (forall w a b, visit (visit w a) b = visit w (a ++ b)) ->
  visit_active_history_pages_for_session J None session_id limit (fun w page => Ok (visit w (ProtocolStore.active_items page))) w db =
  Some (Ok (visit w live, {| append_fence := max_position session db; ProtocolStore.canonical_count := count history; active_count := count live |})).
Proof.
  intros Hl Hnil Happ. unfold visit_active_history_pages_for_session, traverse_active_history, validate_active_history_page_limit.
  destruct (N.eqb_spec limit 0); [lia|]. destruct (N.ltb_spec MAX_PROTOCOL_PAGE_LIMIT limit); [lia|]. cbn [and_then]. rewrite prepared. cbn [and_then active_count].
  change None with (cursor_at J session_id db 0) at 1. change 0%N with (N.of_nat 0) at 1.
  rewrite (traverse_rest visit limit) by (done || (unfold count; lia)). rewrite drop_0. by rewrite N.eqb_refl.
Qed.

(** C6. A run's context is built from pages of the active history that recursive queries select and order in
    the database.  It is the view an agent has that read the whole canonical history item by item, applying every
    compaction where the first item it replaces stood, less the queued tasks a stop of the tree overtook; the
    cursor and the count are those of the canonical history.  The run is refused only when the view holds
    nothing the model can be asked about. *)
Theorem rehydrated_context_is_the_live_view services allow_empty :
  let c := from_active_history services live (max_position session db) (count history) in
  context_manager services J None session_id allow_empty db =
  Some (if negb allow_empty && negb (has_model_context c)
        then Err (ContextMessage (lit "cannot build runtime input without active canonical model context")) else Ok c).
Proof.
  intros c. unfold context_manager. rewrite (traversed (fun b items => ingest_page items b)); [| |apply app_nil_r|intros w a b; symmetry; apply app_assoc].
  - unfold finish, ingest_page, active_history_builder. cbn [append_fence ProtocolStore.canonical_count app]. fold c. by destruct (negb allow_empty && _).
  - unfold MAX_PROTOCOL_PAGE_LIMIT. lia.
Qed.

(** C36. Visiting the active history in pages of any size permitted ends, and the pages in their order hold every
    item of the live view once; the snapshot reports how many. *)
Theorem active_pages_hold_the_live_view limit : (0 < limit <= MAX_PROTOCOL_PAGE_LIMIT)%N ->
  exists snapshot, visit_active_history_pages_for_session J None session_id limit (fun items page => Ok (items ++ ProtocolStore.active_items page)) [] db =
    Some (Ok (live, snapshot)) /\ active_count snapshot = count live /\ NoDup live.
Proof.
  intros Hl. eexists. split; [by apply (traversed (fun w items => w ++ items) limit [] Hl); [apply app_nil_r|intros w a b; symmetry; apply app_assoc]|].
  split; [done|]. apply (sorted_nodup (fun a b => effective_of J session_id db a < effective_of J session_id db b)%Z); [intros ?; lia|by apply live_sorted].
Qed.
End Traverse.

(** ** Pages of the canonical history *)

Definition known_up_to (cursor : option Z) : nat :=
  match cursor with None => 0 | Some p => length (List.filter (fun r => (snd r <=? p)%Z) join) end.

Lemma filter_up_to {A} (f : A -> Z) l p : StronglySorted Z.lt (f <$> l) ->
  List.filter (fun x => (f x <=? p)%Z) l = take (length (List.filter (fun x => (f x <=? p)%Z) l)) l /\
  List.filter (fun x => (p <? f x)%Z) l = drop (length (List.filter (fun x => (f x <=? p)%Z) l)) l.
Proof.
  induction l as [|x l IH]; [done|]. rewrite fmap_cons. intros [Hs Hx]%StronglySorted_inv. destruct (IH Hs) as [IH1 IH2]. cbn [List.filter].
  destruct (Z.leb_spec (f x) p) as [Hle|Hgt]; destruct (Z.ltb_spec p (f x)) as [Hlt|Hge]; try lia.
  - cbn. by rewrite <- IH1.
  - assert (List.filter (fun y => (f y <=? p)%Z) l = []) as E.
    { rewrite Forall_fmap, Forall_forall in Hx. clear IH IH1 IH2 Hs. induction l as [|y l IH]; [done|]. cbn. pose proof (Hx y ltac:(by left)) as Hy. cbn in Hy.
      destruct (Z.leb_spec (f y) p); [lia|]. apply IH. intros z Hz. apply Hx. by right. }
    rewrite E in *. cbn in *. by rewrite IH2, drop_0.
Qed.

Lemma after_known cursor : List.filter (fun r => after_position cursor (snd r)) join = drop (known_up_to cursor) join.
Proof.
  destruct cursor as [p|]; cbn [after_position known_up_to]; [apply (filter_up_to snd), (join_positions J session_id db Hok)|].
  rewrite drop_0. by apply filter_all.
Qed.

Lemma cursor_offset p : protocol_cursor_offset session HistoryItems p db = N.of_nat (known_up_to (Some p)).
Proof.
  unfold protocol_cursor_offset, known_up_to, count, append_ids, history_join. rewrite (ordered_ascending J) by done. f_equal.
  assert (forall l, (forall a, a ∈ l -> a ∈ append_rows db) -> length (List.filter (fun a => (append_position a <=? p)%Z)
    (List.filter (of_source session (source_kind_of HistoryItems)) l)) = length (List.filter (fun r => (snd r <=? p)%Z) (omap (fun a =>
    if of_source session (source_kind_of HistoryItems) a then
      match history_rows db !! append_source_id a with
      | Some row => if text_eqb (row_session row) session then Some (append_source_id a, row, append_position a) else None
      | None => None
      end
    else None) l))) as Hl; [|by apply Hl].
  induction l as [|a l IH]; intros Hin; [done|]. specialize (IH ltac:(intros b Hb; apply Hin; by right)).
  cbn [List.filter omap list_omap]. destruct (of_source _ _ a) eqn:E; [|done].
  apply of_source_spec in E as [E1 E2]. destruct (appended_row J db Hok a (Hin a ltac:(by left)) E2) as (row & -> & ->). rewrite E1, text_eqb_refl. cbn [List.filter snd].
  destruct (append_position a <=? p)%Z; [cbn [length]; f_equal|]; apply IH.
Qed.

(** The page after a cursor: what follows in the history, as far as the limit, and whether more remains. *)
Lemma cursor_page cursor limit : (0 < limit <= MAX_PROTOCOL_PAGE_LIMIT)%N ->
  let k := known_up_to cursor in
  exists page, history_item_cursor_page_for_session J None session_id cursor limit db = Ok page /\
    page_items page = take (N.to_nat limit) (drop k history) /\
    page_next_cursor page = snd <$> last (take (N.to_nat limit) (drop k join)) /\
    has_more page = (N.to_nat limit <? length (drop k history)).
Proof.
  intros Hl k. unfold history_item_cursor_page_for_session, read_page. rewrite (source_count J JL session_id db Hok). cbn [and_then].
  unfold history_item_page_from_connection, page_from, resolve. destruct (N.eqb_spec limit 0); [lia|]. destruct (N.ltb_spec MAX_PROTOCOL_PAGE_LIMIT limit); [lia|].
  cbn [and_then]. set (skipped := match cursor with Some _ => 0%N | None => 0%N end). assert (skipped = 0%N) as -> by (unfold skipped; by destruct cursor).
  rewrite sql_limit_take, sql_offset_drop, after_known. change (N.to_nat (sqlite_page_value 0)) with 0. rewrite drop_0. fold k.
  assert (N.to_nat (sqlite_page_value limit) = N.to_nat limit) as ->.
  { unfold sqlite_page_value, MAX_PROTOCOL_PAGE_LIMIT, i64_max in *. change (Z.to_N (2 ^ 63 - 1)) with 9223372036854775807%N. lia. }
  rewrite (result_map_ok _ (take (N.to_nat limit) (drop k history))).
  2: { apply Forall2_take, Forall2_drop. eapply Forall2_impl; [by apply history_stored|]. intros item r Hr. cbn. by eapply stored_decodes. }
  cbn [and_then]. eexists. split; [reflexivity|]. cbn [page_items page_next_cursor]. split_and!; [done..|].
  unfold has_more. cbn [page_offset page_items page_total].
  assert (match cursor with Some c => protocol_cursor_offset session HistoryItems c db | None => 0%N end = N.of_nat k) as -> by (destruct cursor; [apply cursor_offset|done]).
  pose proof (join_bound J session_id db Hok) as Hb. pose proof (history_length J JL session_id db Hok) as Hlen.
  assert (k <= length history) as Hk.
  { rewrite Hlen. unfold k, known_up_to. destruct cursor; [apply filter_length_le|lia]. }
  unfold count. rewrite length_take, length_drop. unfold saturating_add_usize, usize_max, u64_max, i64_max in *.
  apply eq_true_iff_eq. rewrite N.ltb_lt, Nat.ltb_lt. lia.
Qed.
End Rehydrated.
