(* ===== verification/ContextRefresh.v ===== *)
(** * Following the history

    Refreshing a context page by page is reading all that was committed at once; a context rehydrated before
    further commits and refreshed after them is the one that would be rehydrated then. *)
From Stdlib Require Import Sorted.
From S2P Require Import Prelude.
From S2P Require Import Text.
From S2P Require Import ContextWindow.
From S2P Require Import PermissionFence.
From S2P Require Import ListSort.
From S2P Require Import Json.
From S2P Require Import ClmCheckpoint.
From S2P Require Import History.
From S2P Require Import SourceRecords.
From S2P Require Import ContextManager.
From S2P Require Import ContextProjection.
From S2P Require Import ContextStream.
From S2P Require Import ProtocolStore.
From S2P Require Import ProtocolStoreFacts.
From S2P Require Import ActiveOrder.
From S2P Require Import ActiveTraversal.
From S2P Require Import ProtocolContext.
From S2P Require Import RehydratedContext.

Open Scope nat_scope.

Section Ingest.
Context {V : Type} `{JsonLaws V} `{EqDecision V} `{UlidLaws} (services : Services V).
Implicit Types (c : ContextManager V) (a b : list (HistoryItem V)).

Lemma ingest_nothing c : fst (ingest_committed_delta services [] None c) = c.
Proof. by destruct c. Qed.

(** Two pages are one. *)
Lemma ingest_twice a b p q c : a <> [] -> b <> [] -> fst (ingest_committed_delta services b (Some q) (fst (ingest_committed_delta services a p c))) =
  fst (ingest_committed_delta services (a ++ b) (Some q) c).
Proof.
  intros Ha Hb. unfold ingest_committed_delta. destruct a as [|x a]; [done|]. destruct b as [|y b]; [done|]. cbn [is_empty app].
  rewrite app_comm_cons, ingest_items_app. destruct (ingest_items (x :: a) (history_items c) (chat_continuations c)) as [items continuations].
  cbn [fst history_items chat_continuations canonical_count append_cursor]. destruct (ingest_items (y :: b) items continuations) as [items' continuations'].
  cbn [fst]. f_equal. cbn [ContextManager.canonical_count]. unfold saturating_add_usize. rewrite length_app. lia.
Qed.

Lemma ingested_view delta p c : history_items (fst (ingest_committed_delta services delta p c)) = fst (ingest_items delta (history_items c) ∅).
Proof. exact (context_items services c (Page delta p)). Qed.
End Ingest.

Section Refresh.
Context {V : Type} `{JsonLaws V} `{EqDecision V} `{UlidLaws} (services : Services V) (J : ProtocolJson V) (JL : ProtocolJsonLaws J).
Context (session_id : SessionId) (db : ProtocolDb) (Hok : db_ok J db).
Local Abbreviation session := (ulid_to_string session_id).
Local Abbreviation join := (history_join session db).
Local Abbreviation history := (canonical_history J session_id db).
Local Abbreviation known := (known_up_to session_id db).
Local Abbreviation page_size := (N.to_nat MAX_PROTOCOL_PAGE_LIMIT).
Implicit Types (c : ContextManager V).

Lemma sorted_le_take {A} (f : A -> Z) before x after : StronglySorted Z.lt (f <$> before ++ x :: after) ->
  List.filter (fun y => (f y <=? f x)%Z) (before ++ x :: after) = before ++ [x].
Proof.
  intros Hs. rewrite fmap_app, fmap_cons in Hs. assert (forall y, y ∈ before -> (f y < f x)%Z) as Hb.
  { intros y Hy. apply (sorted_split Z.lt (f <$> before) (f x) (f <$> after)); [done|by apply list_elem_of_fmap_2]. }
  apply sorted_app in Hs as [[_ Ha]%StronglySorted_inv _]. rewrite Forall_fmap, Forall_forall in Ha.
  rewrite List.filter_app. cbn [List.filter]. rewrite Z.leb_refl, (filter_all _ before) by (intros y Hy; apply Z.leb_le; specialize (Hb y Hy); lia).
  do 2 f_equal. induction after as [|y after IH]; [done|]. cbn [List.filter]. pose proof (Ha y ltac:(by left)) as Hy. cbn in Hy.
  destruct (Z.leb_spec (f y) (f x)); [lia|]. apply IH. intros z Hz. apply Ha. by right.
Qed.

Lemma known_last j : known (snd <$> last (take j join)) = Nat.min j (length join).
Proof.
  rewrite <- length_take. destruct (last (take j join)) as [r|] eqn:E.
  - apply last_Some in E as [before E]. cbn [known_up_to fmap option_fmap option_map]. pose proof (join_positions J session_id db Hok) as Hs.
    rewrite E. rewrite <- (take_drop j join), E, <- app_assoc in Hs. rewrite <- (take_drop j join) at 1. rewrite E, <- app_assoc. cbn [app] in *.
    by rewrite sorted_le_take.
  - apply last_None in E. by rewrite E.
Qed.

Lemma known_le cursor : known cursor <= length join.
Proof. unfold known_up_to. destruct cursor; [apply filter_length_le|lia]. Qed.

Lemma last_drop {A} n (l : list A) : n < length l -> last (drop n l) = last l.
Proof.
  intros Hn. rewrite <- (take_drop n l) at 2. rewrite last_app. destruct (last (drop n l)) eqn:E; [done|].
  apply last_None, (f_equal length) in E. rewrite length_drop in E. cbn in E. lia.
Qed.

(** Everything after the cursor. *)
Definition remaining c : list (HistoryItem V) := drop (known (append_cursor c)) history.
Definition last_cursor c (n : nat) : option Z := snd <$> last (take n (drop (known (append_cursor c)) join)).

Lemma last_cursor_take c n : n <> 0 -> remaining c <> [] -> last_cursor c n = snd <$> last (take (known (append_cursor c) + n) join).
Proof.
  intros Hn Hr. unfold last_cursor. rewrite last_take_drop; [done..|]. unfold remaining in Hr.
  destruct (Nat.lt_ge_cases (known (append_cursor c)) (length join)) as [|Hge]; [done|]. rewrite drop_ge in Hr; [done|]. by rewrite (history_length J JL session_id db Hok).
Qed.

(** One refresh reads one page. *)
Lemma refresh_page c : exists refreshed,
  refresh_committed_context_page services J None session_id db c =
    Ok (fst (ingest_committed_delta services (take page_size (remaining c)) (last_cursor c page_size) c), refreshed) /\
  refresh_has_more refreshed = (page_size <? length (remaining c)).
Proof.
  unfold refresh_committed_context_page.
  destruct (cursor_page J JL session_id db Hok (append_cursor c) MAX_PROTOCOL_PAGE_LIMIT ltac:(unfold MAX_PROTOCOL_PAGE_LIMIT; lia)) as (page & -> & Hi & Hn & Hm).
  cbn [from_storage and_then]. unfold ingest_committed_page. fold (remaining c) in Hi, Hm. fold (last_cursor c page_size) in Hn. rewrite Hi, Hn, Hm.
  pose proof (history_length J JL session_id db Hok) as Hlen. destruct (remaining c) as [|x rest] eqn:Er.
  - cbn [take is_empty]. destruct (N.to_nat MAX_PROTOCOL_PAGE_LIMIT <? length (@nil (HistoryItem V))) eqn:E; [apply Nat.ltb_lt in E; cbn in E; lia|].
    assert (last_cursor c page_size = None) as ->.
    { unfold last_cursor. unfold remaining in Er. apply (f_equal length) in Er. rewrite length_drop in Er. cbn in Er. by rewrite drop_ge, take_nil by lia. }
    rewrite take_nil, ingest_nothing. eexists. split; [reflexivity|done].
  - assert (is_empty (take page_size (x :: rest)) = false) as -> by done.
    rewrite bool_decide_eq_false_2.
    + rewrite (surjective_pairing (ingest_committed_delta _ _ _ _)). eexists. split; [reflexivity|done].
    + intros F. assert (page_size <> 0) as Hp by (unfold MAX_PROTOCOL_PAGE_LIMIT; lia).
      assert (known (append_cursor c) < length join) as Hk.
      { apply (f_equal length) in Er. unfold remaining in Er. rewrite length_drop in Er. cbn in Er. lia. }
      assert (known (last_cursor c page_size) = Nat.min (known (append_cursor c) + page_size) (length join)) as Hkn.
      { rewrite last_cursor_take by (done || by rewrite Er). apply known_last. }
      rewrite F in Hkn. lia.
Qed.

Lemma known_next c : remaining c <> [] ->
  known (last_cursor c page_size) = Nat.min (known (append_cursor c) + page_size) (length join).
Proof. intros Hr. rewrite last_cursor_take; [apply known_last|unfold MAX_PROTOCOL_PAGE_LIMIT; lia|done]. Qed.

Lemma ingested_cursor delta p c : append_cursor (fst (ingest_committed_delta services delta p c)) = option_or p (append_cursor c).
Proof. unfold ingest_committed_delta. destruct (is_empty delta); [done|]. by destruct (ingest_items _ _ _). Qed.

Lemma last_cursor_some c n : n <> 0 -> remaining c <> [] -> is_Some (last_cursor c n).
Proof.
  intros Hn Hr. unfold last_cursor. destruct (last _) eqn:E; [by eexists|]. apply last_None, (f_equal length) in E.
  rewrite length_take, length_drop in E. cbn in E. exfalso. apply Hr. unfold remaining. rewrite drop_ge; [done|].
  rewrite (history_length J JL session_id db Hok). lia.
Qed.

Lemma next_cursor_known c : remaining c <> [] ->
  known (append_cursor (fst (ingest_committed_delta services (take page_size (remaining c)) (last_cursor c page_size) c))) =
  Nat.min (known (append_cursor c) + page_size) (length join).
Proof.
  intros Hr. rewrite ingested_cursor, <- known_next by done.
  destruct (last_cursor_some c page_size ltac:(unfold MAX_PROTOCOL_PAGE_LIMIT; lia) Hr) as [p ->]. done.
Qed.

Lemma last_cursor_all c : remaining c <> [] -> last_cursor c (length (remaining c)) = snd <$> last join.
Proof.
  intros Hr. pose proof (history_length J JL session_id db Hok) as Hlen. unfold last_cursor.
  assert (length (remaining c) = length (drop (known (append_cursor c)) join)) as -> by (unfold remaining; by rewrite !length_drop, Hlen).
  rewrite firstn_all, last_drop; [done|]. apply Nat.nle_gt. intros F. apply Hr. unfold remaining. apply drop_ge. lia.
Qed.

(** The loop that reads pages until none remains ends after as many refreshes as pages are needed, and leaves
    exactly the context that one ingestion of everything after the cursor would leave: the same items, continuations,
    revision, count and cursor. *)
Theorem refreshing_is_one_ingestion fuel c : length (remaining c) <= page_size * fuel -> fuel <> 0 ->
  refresh_to_the_end services J fuel None session_id db c =
  Some (Ok (fst (ingest_committed_delta services (remaining c) (last_cursor c (length (remaining c))) c))).
Proof.
  revert c. induction fuel as [|fuel IH]; intros c Hf Hne; [done|]. cbn [refresh_to_the_end]. destruct (refresh_page c) as (refreshed & -> & ->).
  pose proof (history_length J JL session_id db Hok) as Hlen.
  assert (length (remaining c) = length join - known (append_cursor c)) as Hrl by (unfold remaining; by rewrite length_drop, Hlen).
  destruct (Nat.ltb_spec page_size (length (remaining c))) as [Hlt|Hle].
  - set (c' := fst (ingest_committed_delta _ _ _ c)). assert (remaining c <> []) as Hr by (intros F; rewrite F in Hlt; cbn in Hlt; lia).
    pose proof (next_cursor_known c Hr) as Hk. fold c' in Hk. rewrite Nat.min_l in Hk by lia.
    assert (remaining c' = drop page_size (remaining c)) as Hr' by (unfold remaining; by rewrite Hk, drop_drop).
    assert (remaining c' <> []) as Hn'. { intros F. rewrite F in Hr'. apply (f_equal length) in Hr'. rewrite length_drop in Hr'. cbn in Hr'. lia. }
    rewrite IH; [|rewrite Hr', length_drop; lia|intros ->; lia]. do 2 f_equal.
    destruct (last_cursor_some c' (length (remaining c')) ltac:(destruct (remaining c'); [done|cbn; lia]) Hn') as [q Hq]. rewrite Hq.
    unfold c' at 2. rewrite ingest_twice; [|unfold MAX_PROTOCOL_PAGE_LIMIT; destruct (remaining c); done|done].
    rewrite Hr', take_drop, <- Hq. do 2 f_equal. rewrite !last_cursor_all by done. done.
  - do 3 f_equal. rewrite take_ge by done. f_equal. unfold last_cursor. by rewrite !take_ge by (rewrite ?length_drop; lia).
Qed.
End Refresh.

(** ** Commits in between *)

Section Commits.
Context {V : Type} `{JsonLaws V} `{EqDecision V} `{UlidLaws} (services : Services V) (J : ProtocolJson V) (JL : ProtocolJsonLaws J).
Context (session_id : SessionId) (db db' : ProtocolDb) (Hok : db_ok J db) (Hok' : db_ok J db').
Local Abbreviation session := (ulid_to_string session_id).

Context (Hext : extends db db').

Lemma extended_join : exists more, history_join session db' = history_join session db ++ more /\
  forall r, r ∈ more -> exists a, a ∈ append_rows db' /\ a ∉ append_rows db /\ snd r = append_position a.
Proof.
  destruct Hext as [(more & Hm) Hsub]. eexists. split; [by apply (join_extends J)|].
  intros r (a & Ha & Hs)%list_elem_of_omap. exists a. rewrite Hm. split; [apply elem_of_app; by right|]. split.
  - intros F. pose proof (ok_keys _ _ Hok') as Hn. rewrite Hm, fmap_app in Hn. apply NoDup_app in Hn as (_ & Hn & _).
    eapply Hn; by apply list_elem_of_fmap_2.
  - unfold joined in Hs. destruct (of_source _ _ a); [|done]. destruct (_ !! _); [|done]. destruct (text_eqb _ _); [|done]. by injection Hs as <-.
Qed.

Lemma max_position_spec (d : ProtocolDb) :
  match max_position session d with
  | None => forall a, a ∈ append_rows d -> append_session a <> session
  | Some p => (exists a, a ∈ append_rows d /\ append_position a = p) /\
              forall a, a ∈ append_rows d -> append_session a = session -> (append_position a <= p)%Z
  end.
Proof.
  unfold max_position. induction (append_rows d) as [|a l IH] using rev_ind; cbn; [by intros a ?%elem_of_nil|].
  rewrite List.filter_app, fold_left_app. cbn [List.filter]. destruct (text_eqb (append_session a) session) eqn:E; cbn [fold_left].
  - apply text_eqb_eq in E. destruct (fold_left _ _ None) as [p|].
    + destruct IH as [(b & Hb & <-) Hle]. split.
      * destruct (Z.max_spec (append_position b) (append_position a)) as [[_ ->]|[_ ->]];
          [exists a|exists b]; (split; [apply elem_of_app; rewrite list_elem_of_singleton; tauto|done]).
      * intros x [Hx| ->%list_elem_of_singleton]%elem_of_app Hs; [specialize (Hle x Hx Hs)|]; lia.
    + split; [exists a; split; [apply elem_of_app; right; by left|done]|]. intros x [Hx| ->%list_elem_of_singleton]%elem_of_app Hs; [by apply IH in Hx|lia].
  - apply text_eqb_neq in E. destruct (fold_left _ _ None) as [p|].
    + destruct IH as [(b & Hb & <-) Hle]. split; [exists b; split; [apply elem_of_app; by left|done]|].
      intros x [Hx| ->%list_elem_of_singleton]%elem_of_app Hs; [by apply Hle|done].
    + intros x [Hx| ->%list_elem_of_singleton]%elem_of_app; [by apply IH|done].
Qed.

Lemma in_join_row (d : ProtocolDb) r : db_ok J d -> r ∈ history_join session d -> exists a, a ∈ append_rows d /\ append_session a = session /\ snd r = append_position a.
Proof. destruct r as [[id row] p]. intros Hd (a & Ha & _ & Hs & _ & <- & _)%(in_join J session_id d Hd). eauto. Qed.

Lemma new_row_later a b : a ∈ append_rows db -> b ∈ append_rows db' -> b ∉ append_rows db -> (append_position a < append_position b)%Z.
Proof.
  destruct Hext as [(more & Hm) _]. intros Ha Hb Hn. rewrite Hm in Hb. apply elem_of_app in Hb as [Hb|Hb]; [done|].
  pose proof (ok_positions _ _ Hok') as Hs. rewrite Hm in Hs. apply sorted_app in Hs as [_ Hs]. by apply Hs.
Qed.

(** What was there is known at the fence of the snapshot. *)
Lemma extended_history : exists new, canonical_history J session_id db' = canonical_history J session_id db ++ new /\
  known_up_to session_id db' (max_position session db) = length (canonical_history J session_id db).
Proof.
  destruct extended_join as (more & Hj & Hmore). unfold canonical_history. rewrite Hj, omap_app. eexists. split; [done|].
  fold (canonical_history J session_id db). rewrite (history_length J JL session_id db Hok). unfold known_up_to.
  pose proof (max_position_spec db) as Hmax. destruct (max_position session db) as [p|].
  - rewrite Hj, List.filter_app. destruct Hmax as [(b & Hb & <-) Hle].
    rewrite (filter_all _ (history_join session db)).
    + assert (List.filter (fun r => (snd r <=? append_position b)%Z) more = []) as ->; [|by rewrite app_nil_r].
      clear Hj. induction more as [|r more IH]; [done|]. cbn [List.filter]. destruct (Hmore r ltac:(by left)) as (a & Ha & Hn & ->).
      pose proof (new_row_later b a Hb Ha Hn). destruct (Z.leb_spec (append_position a) (append_position b)); [lia|].
      apply IH. intros r' Hr'. apply Hmore. by right.
    + intros r (a & Ha & Hs & ->)%(in_join_row db r Hok). apply Z.leb_le. by apply Hle.
  - destruct (history_join session db) as [|r l] eqn:E; [done|]. destruct (in_join_row db r Hok) as (a & Ha & Hs & _); [rewrite E; by left|].
    by apply Hmax in Ha.
Qed.

Lemma compacts_prefix (a b : list (HistoryItem V)) : compacts_its_view (a ++ b) -> compacts_its_view a.
Proof. intros Hc before x after -> id Hid. apply (Hc before x (after ++ b)); [by rewrite <- app_assoc|done]. Qed.

Lemma view_after_app (a b : list (HistoryItem V)) : view_after (a ++ b) = fst (ingest_items b (view_after a) ∅).
Proof. unfold view_after. rewrite ingest_items_app. destruct (ingest_items a [] ∅) as [items c]. apply ingest_items_view. Qed.

Definition none_overtaken (d : ProtocolDb) : Prop := forall item, item ∈ canonical_history J session_id d -> overtaken session_id d item = false.

Lemma nothing_overtaken (d : ProtocolDb) : stream_ok (canonical_history J session_id d) -> none_overtaken d ->
  live_view J session_id d = view_after (canonical_history J session_id d).
Proof. intros Hs Hno. unfold live_view. apply filter_all. intros item [Hi _]%view_members; [|done]. by rewrite Hno. Qed.

End Commits.

(** * Bounded reads of a history

    The two traversals that give up on a history that is too long: the canonical history of a fork, and the
    active history with limits on what is scanned and what is returned. *)

Open Scope nat_scope.

Section Bounded.
Context {V : Type} `{JsonLaws V} `{EqDecision V} `{UlidLaws} (J : ProtocolJson V) (JL : ProtocolJsonLaws J).
Context (session_id : SessionId) (db : ProtocolDb) (Hok : db_ok J db).
Local Abbreviation session := (ulid_to_string session_id).
Local Abbreviation join := (history_join session db).
Local Abbreviation history := (canonical_history J session_id db).
Local Abbreviation live := (live_view J session_id db).

(** ** Counting up to a limit *)

Definition too_long (limit : N) : StoreError := CanonicalSourceLimitExceeded (lit "history_item") limit.

Lemma history_bound : (Z.of_nat (length history) <= i64_max)%Z.
Proof. rewrite (history_length J JL session_id db Hok). by apply (join_bound J). Qed.

Lemma bounded_count limit : (0 < limit)%N -> protocol_source_count_bounded session_id HistoryItems limit db =
  if (limit <? count history)%N then Err (too_long limit) else Ok (count history).
Proof.
  intros Hl. unfold protocol_source_count_bounded. destruct (N.eqb_spec limit 0); [lia|]. cbv zeta. rewrite !sql_limit_take.
  set (fetch := sqlite_page_value (saturating_add_usize limit 1)).
  assert (length (table_ids HistoryItems session db) = length history) as E1 by (rewrite (history_length J JL session_id db Hok); by apply (table_length J)).
  assert (length (append_ids HistoryItems session db) = length history) as E2 by (rewrite (history_length J JL session_id db Hok); by apply (append_ids_join J)).
  assert (length (joined_ids HistoryItems session db) = length history) as E3 by (rewrite <- E1; by apply (joined_count J)).
  assert (forall A (l : list A), length l = length history -> count (take (N.to_nat fetch) l) = N.min fetch (count history)) as Hc.
  { intros A l El. unfold count. rewrite length_take, El. lia. }
  rewrite (Hc _ _ E1), (Hc _ _ E2), (Hc _ _ E3), N.eqb_refl. cbn [existsb negb orb]. pose proof history_bound as Hb.
  unfold fetch, sqlite_page_value, saturating_add_usize, usize_max, u64_max, i64_max, count in *. change (Z.to_N (2 ^ 63 - 1)) with 9223372036854775807%N.
  set (len := N.of_nat (length history)) in *.
  assert ((N.min limit 9223372036854775807 <? N.min (N.min (N.min (limit + 1) 18446744073709551615) 9223372036854775807) len)%N = (limit <? len)%N) as ->.
  { apply eq_true_iff_eq. rewrite !N.ltb_lt. unfold len. lia. }
  destruct (N.ltb_spec limit len) as [|Hle]; [done|]. cbn [orb]. f_equal. unfold len in *. lia.
Qed.

(** ** The canonical history *)

Definition canonical_cursor (k : nat) : option Z := snd <$> last (take k join).

Lemma fence_covers : List.filter (fun r => up_to (max_position session db) (snd r)) join = join.
Proof.
  apply filter_all. intros r (a & Ha & Hs & ->)%(in_join_row J session_id db r Hok). pose proof (max_position_spec session_id db) as Hm.
  destruct (max_position session db) as [p|]; cbn [up_to]; [apply Z.leb_le; by apply Hm|by apply Hm in Ha].
Qed.

Lemma filter_and {A} (p q : A -> bool) l : List.filter (fun x => p x && q x) l = List.filter p (List.filter q l).
Proof. induction l as [|x l IH]; [done|]. cbn. destruct (q x); cbn; [|by rewrite andb_false_r]. rewrite andb_true_r. by rewrite IH. Qed.

Lemma canonical_page k limit n : (0 < limit <= MAX_PROTOCOL_PAGE_LIMIT)%N -> k <= length join ->
  let snapshot := {| canonical_fence := max_position session db; snapshot_canonical_count := n |} in
  canonical_history_keyset_page J session_id snapshot (canonical_cursor k) (N.of_nat k) limit db =
  Ok {| page_offset := N.of_nat k; page_limit := limit; page_total := n; page_items := take (N.to_nat limit) (drop k history);
        page_next_cursor := snd <$> last (take (N.to_nat limit) (drop k join)) |}.
Proof.
  intros Hl Hk snapshot. unfold canonical_history_keyset_page. cbn [canonical_fence snapshot snapshot_canonical_count]. rewrite sql_limit_take.
  rewrite (filter_and (fun r => after_position (canonical_cursor k) (snd r))), fence_covers, (after_known J session_id db Hok).
  unfold canonical_cursor. rewrite (known_last J session_id db Hok), Nat.min_l by done.
  assert (N.to_nat (sqlite_page_value limit) = N.to_nat limit) as ->.
  { unfold sqlite_page_value, MAX_PROTOCOL_PAGE_LIMIT, i64_max in *. change (Z.to_N (2 ^ 63 - 1)) with 9223372036854775807%N. lia. }
  rewrite (result_map_ok _ (take (N.to_nat limit) (drop k history))); [done|].
  apply Forall2_take, Forall2_drop. eapply Forall2_impl; [by apply history_stored|]. intros item r Hr. cbn. by eapply stored_decodes.
Qed.

Lemma visit_rest {W} (visit : W -> list (HistoryItem V) -> W) limit : (0 < limit <= MAX_PROTOCOL_PAGE_LIMIT)%N ->
  (forall w, visit w [] = w) -> (forall w a b, visit (visit w a) b = visit w (a ++ b)) ->
  let snapshot := {| canonical_fence := max_position session db; snapshot_canonical_count := count history |} in
  forall fuel k w, length history - k <= fuel -> k <= length history ->
  visit_canonical J fuel session_id snapshot limit (fun w page => Ok (visit w (page_items page))) (N.of_nat k) (canonical_cursor k) w db =
  Some (Ok (visit w (drop k history))).
Proof.
  intros Hl Hnil Happ snapshot. pose proof (history_length J JL session_id db Hok) as Hlen. pose proof history_bound as Hb.
  induction fuel as [|fuel IH]; intros k w Hf Hk; cbn [visit_canonical]; cbn [snapshot_canonical_count snapshot].
  - assert (k = length history) as -> by lia. rewrite drop_ge, Hnil by lia. unfold count. by rewrite N.ltb_irrefl.
  - destruct (N.ltb_spec (N.of_nat k) (count history)) as [Hlt|Hge].
    2: { unfold count in *. assert (k = length history) as -> by lia. by rewrite drop_ge, Hnil by lia. }
    unfold count in Hlt. unfold snapshot at 1. rewrite (canonical_page k limit _ Hl) by lia. cbn [page_next_cursor page_items].
    set (n := N.to_nat limit). assert (n <> 0) as Hn by (unfold n; lia). rewrite (last_take_drop join k n Hn) by lia. fold (canonical_cursor (k + n)).
    assert (exists next, canonical_cursor (k + n) = Some next /\ after_position (canonical_cursor k) next = true) as (next & Enext & Hafter).
    { unfold canonical_cursor. rewrite <- (last_take_drop join k n Hn) by lia. destruct (last (take n (drop k join))) as [r|] eqn:E.
      - exists (snd r). split; [done|]. apply last_elem in E. assert (r ∈ drop k join) as Hr by (rewrite <- (take_drop n (drop k join)); apply elem_of_app; by left).
        pose proof (after_known J session_id db Hok (canonical_cursor k)) as Ha. unfold canonical_cursor in Ha. rewrite (known_last J session_id db Hok), Nat.min_l in Ha by lia.
        rewrite <- Ha in Hr. by apply list_elem_of_In, filter_In in Hr as [_ Hr].
      - apply last_None, (f_equal length) in E. rewrite length_take, length_drop in E. cbn in E. lia. }
    rewrite Enext, Hafter. unfold advance_canonical_fork_page_offset.
    assert (count (take n (drop k history)) = N.of_nat (Nat.min n (length history - k))) as -> by (unfold count; by rewrite length_take, length_drop).
    destruct (N.eqb_spec (N.of_nat (Nat.min n (length history - k))) 0); [lia|].
    assert (saturating_add_usize (N.of_nat k) (N.of_nat (Nat.min n (length history - k))) = N.of_nat (k + Nat.min n (length history - k))) as ->.
    { unfold saturating_add_usize, usize_max, u64_max, i64_max in *. lia. }
    destruct (N.ltb_spec (count history) (N.of_nat (k + Nat.min n (length history - k)))) as [F|_]; [unfold count in F; lia|].
    assert (Some next = canonical_cursor (k + Nat.min n (length history - k))) as ->.
    { rewrite <- Enext. unfold canonical_cursor. destruct (Nat.le_gt_cases n (length history - k)); [by rewrite Nat.min_l|].
      rewrite Nat.min_r, !take_ge by lia. done. }
    rewrite IH by lia. rewrite Happ. do 3 f_equal. rewrite <- (take_drop n (drop k history)) at 2. f_equal. rewrite drop_drop.
    destruct (Nat.le_gt_cases n (length history - k)); [by rewrite Nat.min_l|]. rewrite Nat.min_r by lia. rewrite !drop_ge by lia. done.
Qed.

(** The bounded traversal of the canonical history either refuses a history longer than the limit before any page is
    visited, or ends having visited every item once, in order, in pages of any permitted size. *)
Theorem bounded_canonical_history {W} (visit : W -> list (HistoryItem V) -> W) limit source_limit w :
  (0 < limit <= MAX_PROTOCOL_PAGE_LIMIT)%N -> (0 < source_limit)%N ->
  (forall w, visit w [] = w) -> (forall w a b, visit (visit w a) b = visit w (a ++ b)) ->
  visit_bounded_canonical_history_pages_for_session J None session_id limit source_limit (fun w page => Ok (visit w (page_items page))) w db =
  Some (if (source_limit <? count history)%N then Err (too_long source_limit)
        else Ok (visit w history, {| canonical_fence := max_position session db; snapshot_canonical_count := count history |})).
Proof.
  intros Hl Hs Hnil Happ. unfold visit_bounded_canonical_history_pages_for_session, resolve.
  destruct (N.eqb_spec limit 0); [lia|]. destruct (N.ltb_spec MAX_PROTOCOL_PAGE_LIMIT limit); [lia|]. rewrite (bounded_count source_limit Hs).
  destruct (source_limit <? count history)%N; [done|]. cbv zeta. change 0%N with (N.of_nat 0) at 1. change (@None Z) with (canonical_cursor 0) at 1.
  rewrite (visit_rest visit limit Hl Hnil Happ) by (unfold count; lia). by rewrite drop_0.
Qed.

(** ** The active history *)

Context (Hstream : stream_ok history) (Hcompacts : compacts_its_view history).

Lemma active_length : length (active_history J session db) = length live.
Proof. rewrite (active_rows J JL session_id db Hok). by rewrite length_map, (Permutation_length (live_perm J session_id db Hstream)). Qed.

Lemma insert_prefix n : insert_traversal (take n (active_history J session db)) = Ok (take n (active_history J session db)).
Proof.
  pose proof (insert_active J JL session_id db Hok Hstream Hcompacts) as Hi. unfold insert_traversal in *. destruct (_ && _) eqn:E; [|done].
  apply andb_true_iff in E as [E1%bool_decide_eq_true E2%bool_decide_eq_true]. rewrite !bool_decide_eq_true_2; [done| |]; rewrite fmap_take; by eapply sublist_NoDup, sublist_take.
Qed.

Definition too_many (limit : N) : StoreError := StoreMessage (lit "active history exceeds the bounded scan limit of " ++ show_N limit ++ lit " items").

Lemma prepared_bounded source_limit active_limit : (0 < source_limit)%N -> (0 < active_limit)%N ->
  prepare_active_history_snapshot J session_id (Some {| source_item_limit := source_limit; active_item_limit := active_limit |}) db =
  if (source_limit <? count history)%N then Err (too_long source_limit)
  else if (active_limit <? count live)%N then Err (too_many active_limit)
  else Ok ({| append_fence := max_position session db; canonical_count := count history; active_count := count live |}, active_history J session db).
Proof.
  intros Hs Ha. unfold prepare_active_history_snapshot. cbn [source_item_limit active_item_limit]. rewrite (bounded_count source_limit Hs).
  destruct (source_limit <? count history)%N; [done|]. cbn [and_then]. rewrite sql_limit_take, insert_prefix. cbn [and_then]. cbv zeta.
  pose proof active_length as Hal. pose proof (live_length J session_id db Hstream) as Hll. pose proof history_bound as Hb.
  unfold sqlite_page_value, saturating_add_usize, usize_max, u64_max, i64_max in *. change (Z.to_N (2 ^ 63 - 1)) with 9223372036854775807%N.
  destruct (N.ltb_spec active_limit (count live)) as [Hlt|Hge]; unfold count in *; rewrite length_take, Hal.
  - destruct (N.ltb_spec (N.of_nat (length history)) (N.of_nat (Nat.min (N.to_nat (N.min (N.min (active_limit + 1) 18446744073709551615) 9223372036854775807)) (length live)))); [lia|].
    destruct (N.ltb_spec active_limit (N.of_nat (Nat.min (N.to_nat (N.min (N.min (active_limit + 1) 18446744073709551615) 9223372036854775807)) (length live)))); [done|lia].
  - rewrite take_ge by lia. rewrite Nat.min_r by lia. destruct (N.ltb_spec (N.of_nat (length history)) (N.of_nat (length live))); [lia|].
    destruct (N.ltb_spec active_limit (N.of_nat (length live))); [lia|done].
Qed.

(** With limits on both, the traversal of the active history refuses a canonical history longer than the first and an active
    one longer than the second before any page is visited; otherwise it ends having visited the live view. *)
Theorem bounded_active_history {W} (visit : W -> list (HistoryItem V) -> W) limit source_limit active_limit w :
  (0 < limit <= MAX_PROTOCOL_PAGE_LIMIT)%N -> (0 < source_limit)%N -> (0 < active_limit)%N ->
  (forall w, visit w [] = w) -> (forall w a b, visit (visit w a) b = visit w (a ++ b)) ->
  visit_bounded_active_history_pages_for_session J None session_id limit source_limit active_limit (fun w page => Ok (visit w (ProtocolStore.active_items page))) w db =
  Some (if (source_limit <? count history)%N then Err (too_long source_limit)
        else if (active_limit <? count live)%N then Err (too_many active_limit)
        else Ok (visit w live, {| append_fence := max_position session db; canonical_count := count history; active_count := count live |})).
Proof.
  intros Hl Hs Ha Hnil Happ. unfold visit_bounded_active_history_pages_for_session, bounds_new.
  destruct (N.eqb_spec source_limit 0); [lia|]. destruct (N.eqb_spec active_limit 0); [lia|].
  unfold traverse_active_history, validate_active_history_page_limit. destruct (N.eqb_spec limit 0); [lia|]. destruct (N.ltb_spec MAX_PROTOCOL_PAGE_LIMIT limit); [lia|].
  cbn [and_then]. rewrite (prepared_bounded source_limit active_limit Hs Ha). destruct (source_limit <? count history)%N; [done|]. destruct (active_limit <? count live)%N; [done|].
  cbn [and_then active_count]. change None with (cursor_at J session_id db 0) at 1. change 0%N with (N.of_nat 0) at 1.
  rewrite (traverse_rest J JL session_id db Hok Hstream Hcompacts visit limit) by (done || (unfold count; lia)). rewrite drop_0. by rewrite N.eqb_refl.
Qed.
End Bounded.
