(* ===== verification/ProtocolInserts.v ===== *)
(** * Committing to the store

    A bundle of an event with its history item and its turn item: one sequence number above all of the turn,
    three rows behind all others, and a database that stays consistent. *)
From S2P Require Import Prelude.
From S2P Require Import Text.
From S2P Require Import ListSort.
From S2P Require Import Json.
From S2P Require Import PermissionFence.
From S2P Require Import ContextWindow.
From S2P Require Import ClmCheckpoint.
From S2P Require Import History.
From S2P Require Import SourceRecords.
From S2P Require Import ContextManager.
From S2P Require Import ContextProjection.
From S2P Require Import ContextStream.
From S2P Require Import ActiveOrder.
From S2P Require Import ProtocolStore.
From S2P Require Import ProtocolStoreFacts.
From S2P Require Import ContextRefresh.
From Stdlib Require Import Sorted.

Open Scope nat_scope.

Lemma source_kind_inj t t' : source_kind_of t = source_kind_of t' -> t = t'.
Proof. destruct t, t'; try done; intros E; discriminate E. Qed.

Section Inserts.
Context {V : Type} `{JsonLaws V} `{UlidLaws} (J : ProtocolJson V) (JL : ProtocolJsonLaws J).
Implicit Types (db : ProtocolDb) (item : HistoryItem V) (event : RuntimeEvent V).

(** ** One more row *)

(** [db1] is [db] with one source row that has no place in the append order yet. *)
Record with_row (t : Table) (id session : text) db db1 : Prop := {
  row_appends : append_rows db1 = append_rows db;
  row_next : next_append_position db1 = next_append_position db;
  row_sources : forall t' id' s', (id', s') ∈ source_rows t' db1 <-> (id', s') ∈ source_rows t' db \/ (t' = t /\ id' = id /\ s' = session);
  row_fresh : forall s', (id, s') ∉ source_rows t db;
  row_history : forall id' row, history_rows db1 !! id' = Some row -> exists item, encodes J item id' row;
  row_runtime : forall id' row, runtime_rows db1 !! id' = Some row -> exists event, encodes_event J event id' row
}.

Definition new_append (t : Table) (id : text) (session_id : SessionId) (sc : HistoryScope) (n ms : Z) db : AppendRow :=
  {| append_position := next_append_position db; append_session := ulid_to_string session_id; append_scope_kind := scope_as_str sc;
     append_turn := ulid_to_string <$> scope_turn_id sc; append_sequence_no := n; append_source_kind := source_kind_of t; append_source_id := id;
     append_created_at_ms := ms |}.

(** The checks of the append order hold, and so the row is not skipped. *)
Lemma append_admitted t id session_id sc n ms db db1 : db_ok J db -> with_row t id (ulid_to_string session_id) db db1 -> (0 <= n)%Z ->
  (sc = SessionScope -> t = HistoryItems) -> append_check (new_append t id session_id sc n ms db1) db1 = true.
Proof.
  intros Hok Hw Hn Hsc. unfold append_check, new_append. cbn [append_scope_kind append_turn append_source_kind append_source_id append_sequence_no].
  rewrite (proj2 (Z.leb_le 0 n) Hn). cbn [andb]. apply andb_true_iff. split.
  - destruct sc as [turn|]; cbn [scope_as_str scope_turn_id]; [by destruct t|]. by rewrite (Hsc eq_refl).
  - apply negb_true_iff, not_true_iff_false. intros (a & Ha%list_elem_of_In & Hk)%existsb_exists. apply andb_true_iff in Hk as [Hk%text_eqb_eq Hi%text_eqb_eq].
    rewrite (row_appends _ _ _ _ _ Hw) in Ha. apply (row_fresh _ _ _ _ _ Hw (append_session a)), (ok_sources _ _ Hok). exists a. unfold append_key. by rewrite Hk, Hi.
Qed.

Lemma appended_ok t id session_id sc n ms db db1 db2 : db_ok J db -> with_row t id (ulid_to_string session_id) db db1 -> (0 <= n)%Z ->
  (sc = SessionScope -> t = HistoryItems) ->
  insert_protocol_append_order session_id sc n (source_kind_of t) id ms db1 = Ok db2 ->
  db2 = push_append (new_append t id session_id sc n ms db1) db1 /\ db_ok J db2.
Proof.
  intros Hok Hw Hn Hsc. unfold insert_protocol_append_order. cbv zeta. fold (new_append t id session_id sc n ms db1). set (row := new_append _ _ _ _ _ _ _).
  pose proof (append_admitted t id session_id sc n ms db db1 Hok Hw Hn Hsc) as Hadm. fold row in Hadm. rewrite Hadm. cbn [negb]. destruct (Z.ltb_spec i64_max (next_append_position db1)) as [|Hmax]; [done|].
  intros [= <-]. split; [done|]. destruct Hw as [Ha Hnext Hs Hf Hh Hr]. rewrite Hnext in *. unfold push_append. split; cbn [append_rows next_append_position history_rows runtime_rows].
  - rewrite Ha. apply sorted_snoc; [apply Hok|]. intros a Hin. subst row. cbn. rewrite Hnext. by apply (ok_next _ _ Hok).
  - rewrite Ha. intros a [Hin|Hin]%elem_of_app; [pose proof (ok_next _ _ Hok a Hin); lia|]. apply list_elem_of_singleton in Hin as ->.
    cbn. rewrite Hnext. pose proof (ok_range _ _ Hok). lia.
  - pose proof (ok_range _ _ Hok). lia.
  - rewrite Ha, fmap_app. apply NoDup_app. split; [apply Hok|]. split; [|apply NoDup_singleton]. intros k (a & -> & Hin)%list_elem_of_fmap Hk.
    apply list_elem_of_singleton in Hk. eapply (Hf (append_session a)), (ok_sources _ _ Hok). by exists a.
  - intros t' id' s'. rewrite Ha. change (source_rows t' _) with (source_rows t' db1). rewrite Hs, (ok_sources _ _ Hok). split.
    + intros [(a & Hin & Hk & Has)|(-> & -> & ->)]; [exists a; split; [apply elem_of_app; by left|done]|].
      exists row. split; [apply elem_of_app; right; by left|done].
    + intros (a & [Hin|Hin]%elem_of_app & Hk & Has); [left; eauto|]. apply list_elem_of_singleton in Hin as ->. unfold append_key in Hk. cbn in Hk, Has.
      injection Hk as Hk <-. apply source_kind_inj in Hk as ->. by right.
  - done.
  - done.
Qed.

(** ** The three tables *)

Lemma in_map_rows {R} (f : R -> text) (m : gmap text R) id s : (id, s) ∈ map (fun '(id, row) => (id, f row)) (map_to_list m) <-> exists row, m !! id = Some row /\ f row = s.
Proof.
  rewrite list_elem_of_In, in_map_iff. split.
  - intros ([i row] & [= <- <-] & Hin%list_elem_of_In%elem_of_map_to_list). by exists row.
  - intros (row & Hr%elem_of_map_to_list%list_elem_of_In & <-). by exists (id, row).
Qed.

Lemma in_inserted {R} (f : R -> text) (m : gmap text R) id row id' s' : m !! id = None ->
  (exists r, <[id := row]> m !! id' = Some r /\ f r = s') <-> (exists r, m !! id' = Some r /\ f r = s') \/ (id' = id /\ s' = f row).
Proof.
  intros Hn. destruct (decide (id' = id)) as [->|Hne].
  - rewrite lookup_insert_eq, Hn. split; [intros (r & [= <-] & <-); by right|]. intros [(r & ? & _)|[_ ->]]; [done|eauto].
  - rewrite lookup_insert_ne by done. split; [by left|]. intros [?|[? _]]; done.
Qed.

Lemma history_with_row item row db : db_ok J db -> history_rows db !! ulid_to_string (item_id item) = None -> encodes J item (ulid_to_string (item_id item)) row ->
  with_row HistoryItems (ulid_to_string (item_id item)) (ulid_to_string (item_session item)) db (set_history (<[ulid_to_string (item_id item) := row]> (history_rows db)) db).
Proof.
  intros Hok Hn He. split; try done.
  - intros t' id' s'. destruct t'; cbn [source_rows]; [|cbn; naive_solver..]. rewrite !in_map_rows. cbn [history_rows set_history]. rewrite (in_inserted _ _ _ _ _ _ Hn).
    destruct He as (_ & _ & <- & _). naive_solver.
  - intros s' (r & Hr & _)%in_map_rows. congruence.
  - intros id' r. cbn. destruct (decide (id' = ulid_to_string (item_id item))) as [->|Hne]; [rewrite lookup_insert_eq; intros [= <-]; eauto|].
    rewrite lookup_insert_ne by done. apply Hok.
  - apply Hok.
Qed.

Lemma runtime_with_row event row db : db_ok J db -> runtime_rows db !! ulid_to_string (event_id event) = None -> encodes_event J event (ulid_to_string (event_id event)) row ->
  with_row RuntimeEvents (ulid_to_string (event_id event)) (ulid_to_string (event_session_id event)) db (set_runtime (<[ulid_to_string (event_id event) := row]> (runtime_rows db)) db).
Proof.
  intros Hok Hn He. split; try done.
  - intros t' id' s'. destruct t'; cbn [source_rows]; [cbn; naive_solver| |cbn; naive_solver]. rewrite !in_map_rows. cbn [runtime_rows set_runtime]. rewrite (in_inserted _ _ _ _ _ _ Hn).
    destruct He as (_ & <- & _). naive_solver.
  - intros s' (r & Hr & _)%in_map_rows. congruence.
  - apply Hok.
  - intros id' r. cbn. destruct (decide (id' = ulid_to_string (event_id event))) as [->|Hne]; [rewrite lookup_insert_eq; intros [= <-]; eauto|].
    rewrite lookup_insert_ne by done. apply Hok.
Qed.

Lemma turn_with_row (item : TurnItem V) row db : db_ok J db -> turn_rows db !! ulid_to_string (turn_item_id item) = None -> turn_row_session row = ulid_to_string (turn_item_session item) ->
  with_row TurnItems (ulid_to_string (turn_item_id item)) (ulid_to_string (turn_item_session item)) db (set_turn (<[ulid_to_string (turn_item_id item) := row]> (turn_rows db)) db).
Proof.
  intros Hok Hn He. split; try done.
  - intros t' id' s'. destruct t'; cbn [source_rows]; [cbn; naive_solver..|]. rewrite !in_map_rows. cbn [turn_rows set_turn]. rewrite (in_inserted _ _ _ _ _ _ Hn), He. naive_solver.
  - intros s' (r & Hr & _)%in_map_rows. congruence.
  - apply Hok.
  - apply Hok.
Qed.

(** ** The inserts *)

(** What an insert does: one row behind the others, history rows kept. *)
Record inserted (t : Table) (id : text) (session_id : SessionId) db db' : Prop := {
  inserted_ok : db_ok J db';
  inserted_append : exists a, append_rows db' = append_rows db ++ [a] /\ append_key a = (source_kind_of t, id) /\ append_session a = ulid_to_string session_id;
  inserted_history : history_rows db ⊆ history_rows db'
}.

Lemma inserted_extends t id session_id db db' : inserted t id session_id db db' -> extends db db'.
Proof. intros [_ (a & Ha & _) Hh]. split; [by exists [a]|done]. Qed.

Lemma runtime_inserted event db db' : db_ok J db -> (0 <= event_sequence_no event)%Z -> insert_runtime_event J event db = Ok db' ->
  inserted RuntimeEvents (ulid_to_string (event_id event)) (event_session_id event) db db' /\ history_rows db' = history_rows db.
Proof.
  intros Hok Hn. unfold insert_runtime_event. destruct (msg_to_string J (event_msg event)) as [msg_json|] eqn:Em; [|done].
  destruct (runtime_check _ _ _ _) eqn:Ec; [|done]. intros Hi. apply andb_true_iff in Ec as [Hfresh%bool_decide_eq_true _].
  eapply (appended_ok RuntimeEvents) in Hi as [-> Hok']; [|done|by apply runtime_with_row|done|done].
  split; [|done]. split; [done| |done]. eexists. by split.
Qed.

Lemma turn_inserted (item : TurnItem V) db db' : db_ok J db -> (0 <= turn_item_sequence_no item)%Z -> insert_turn_item J item db = Ok db' ->
  inserted TurnItems (ulid_to_string (turn_item_id item)) (turn_item_session item) db db' /\ history_rows db' = history_rows db.
Proof.
  intros Hok Hn. unfold insert_turn_item. destruct (turn_payload_to_string J _) as [payload_json|] eqn:Em; [|done].
  destruct (turn_check _ _ _) eqn:Ec; [|done]. intros Hi. apply andb_true_iff in Ec as [Hfresh%bool_decide_eq_true _].
  eapply (appended_ok TurnItems) in Hi as [-> Hok']; [|done|by apply turn_with_row|done|done].
  split; [|done]. split; [done| |done]. eexists. by split.
Qed.

Lemma history_inserted item db db' : db_ok J db -> insert_history_item J item db = Ok db' ->
  inserted HistoryItems (ulid_to_string (item_id item)) (item_session item) db db' /\
  exists row, encodes J item (ulid_to_string (item_id item)) row /\ history_rows db' !! ulid_to_string (item_id item) = Some row.
Proof.
  intros Hok. unfold insert_history_item. destruct (validate_compaction_checkpoint (payload item)) as [[]|] eqn:Ev; [|done].
  destruct (payload_to_string J (payload item)) as [payload_json|] eqn:Ep; [|done].
  destruct (history_check _ _ _ _) eqn:Ec; [|done]. intros Hi. unfold history_check in Ec. rewrite !andb_true_iff in Ec.
  destruct Ec as [[[[Hfresh%bool_decide_eq_true Hn%Z.leb_le] _] _] _]. cbn [row_sequence_no] in Hn.
  eapply (appended_ok HistoryItems) in Hi as [-> Hok']; [|done|by apply history_with_row|done|done].
  split; [split; [done| |]|].
  - eexists. by split.
  - by apply insert_subseteq.
  - eexists. split; [|apply lookup_insert_eq]. by split_and!.
Qed.

(** ** The canonical history after an insert *)

Lemma history_unchanged session_id t id sid db db' : db_ok J db -> inserted t id sid db db' -> t <> HistoryItems ->
  canonical_history J session_id db' = canonical_history J session_id db.
Proof.
  intros Hok [Hok' (a & Ha & Hk & _) Hh] Hne. unfold canonical_history. rewrite (join_extends J (ulid_to_string session_id) db db' [a]) by done. cbn [omap list_omap].
  assert (joined (ulid_to_string session_id) db' a = None) as ->; [|by rewrite app_nil_r]. unfold joined. destruct (of_source _ _ a) eqn:E; [|done].
  apply of_source_spec in E as [_ E]. unfold append_key in Hk. rewrite E in Hk. injection Hk as Hk _. by apply (source_kind_inj HistoryItems t) in Hk; subst t.
Qed.

Lemma history_appended session_id item db db' row : db_ok J db -> inserted HistoryItems (ulid_to_string (item_id item)) (item_session item) db db' ->
  encodes J item (ulid_to_string (item_id item)) row -> history_rows db' !! ulid_to_string (item_id item) = Some row ->
  canonical_history J session_id db' = canonical_history J session_id db ++ (if decide (item_session item = session_id) then [item] else []).
Proof.
  intros Hok [Hok' (a & Ha & Hk & Hs) Hh] He Hr. unfold canonical_history. rewrite (join_extends J (ulid_to_string session_id) db db' [a]) by done. rewrite omap_app. f_equal.
  unfold append_key in Hk. injection Hk as Hk Hi. cbn [omap list_omap]. unfold joined, of_source. rewrite Hk, text_eqb_refl, andb_true_r, Hs, Hi, Hr.
  pose proof He as (_ & _ & Hrs & _). rewrite Hrs. case_decide as Hd.
  - subst session_id. rewrite text_eqb_refl. cbn [omap list_omap]. cbn [fst]. by rewrite (decode_encoded J JL _ _ _ _ He).
  - assert (text_eqb (ulid_to_string (item_session item)) (ulid_to_string session_id) = false) as ->; [|done].
    apply text_eqb_neq. by intros ?%ulid_inj.
Qed.

(** ** The sequence number *)

Lemma max_of_spec l : match max_of l with None => l = [] | Some m => forall x, x ∈ l -> (x <= m)%Z end.
Proof.
  destruct l as [|p l]; [done|]. cbn [max_of]. revert p. induction l as [|q l IH]; intros p x; cbn [fold_left]; [by intros ->%list_elem_of_singleton|].
  pose proof (IH (Z.max p q) (Z.max p q) ltac:(by left)). intros [->|[->|Hx]%elem_of_cons]%elem_of_cons; [lia|lia|]. apply IH. by right.
Qed.

Lemma claimed session_id turn_id requested db db' n : claim_protocol_sequence_in_transaction session_id turn_id requested db = Ok (db', n) ->
  (exists m, db' = set_allocators m db) /\ (0 <= n)%Z /\ (requested <= n)%Z /\ (n < i64_max)%Z /\
  (forall m, m ∈ turn_sequence_numbers (ulid_to_string session_id) (ulid_to_string turn_id) db -> (m < n)%Z) /\
  allocators db' !! (ulid_to_string session_id, ulid_to_string turn_id) = Some (n + 1)%Z /\
  (forall next, allocators db !! (ulid_to_string session_id, ulid_to_string turn_id) = Some next -> (next <= n)%Z).
Proof.
  unfold claim_protocol_sequence_in_transaction. cbn [fst snd]. set (numbers := turn_sequence_numbers _ _ _). pose proof (max_of_spec numbers) as Hm.
  set (floor := Z.max _ _). set (next := match _ with None => _ | Some _ => _ end). destruct (Z.ltb_spec i64_max next) as [|Hle]; [done|]. intros [= <- <-].
  assert (floor + 1 <= next)%Z as Hf by (unfold next; destruct (allocators db !! _); lia).
  assert (0 <= floor /\ requested <= floor)%Z as [H1' H2'] by (unfold floor; lia).
  split; [by eexists|]. split; [lia|]. split; [lia|]. split; [lia|]. split.
  - intros m Hin. destruct (max_of numbers) as [stored|]; [|rewrite Hm in Hin; by apply elem_of_nil in Hin]. specialize (Hm m Hin).
    unfold floor in Hf. cbn [default] in Hf. unfold id, saturating_add_i64 in Hf. lia.
  - split; [rewrite Z.sub_add; apply lookup_insert_eq|]. intros old Hold. unfold next in *. rewrite Hold in *. lia.
Qed.

Lemma allocators_ok m db : db_ok J db -> db_ok J (set_allocators m db).
Proof. intros []. by split. Qed.

(** ** A bundle *)

(** What follows a claimed sequence number. *)
Definition insert_bundle_rows event (history_item : option (HistoryItem V)) (turn_item : option (TurnItem V)) db : result ProtocolDb StoreError :=
  let? db := insert_runtime_event J event db in
  let? db := match history_item with Some item => insert_history_item J item db | None => Ok db end in
  match turn_item with Some turn => insert_turn_item J turn db | None => Ok db end.

Lemma bundle_rows event history_item turn_item db db' : db_ok J db -> (0 <= event_sequence_no event)%Z ->
  (forall turn, turn_item = Some turn -> (0 <= turn_item_sequence_no turn)%Z) -> insert_bundle_rows event history_item turn_item db = Ok db' ->
  db_ok J db' /\ extends db db' /\ forall session_id, canonical_history J session_id db' = canonical_history J session_id db ++
    match history_item with Some item => if decide (item_session item = session_id) then [item] else [] | None => [] end.
Proof.
  intros Hok Hn Ht (db1 & H1' & H2')%and_then_ok. apply and_then_ok in H2' as (db2 & H2' & H3').
  destruct (runtime_inserted _ _ _ Hok Hn H1') as [Hi1 _]. pose proof (inserted_ok _ _ _ _ _ Hi1) as Hok1.
  assert (db_ok J db2 /\ extends db1 db2 /\ forall session_id, canonical_history J session_id db2 = canonical_history J session_id db1 ++
    match history_item with Some item => if decide (item_session item = session_id) then [item] else [] | None => [] end) as (Hok2 & He2 & Hh2).
  { destruct history_item as [item|]; [|injection H2' as <-; split; [done|]; split; [apply extends_refl|]; intros ?; by rewrite app_nil_r].
    destruct (history_inserted _ _ _ Hok1 H2') as (Hi2 & row & He & Hr). split; [by eapply inserted_ok|]. split; [by eapply inserted_extends|].
    intros session_id. by apply (history_appended session_id item db1 db2 row). }
  assert (db_ok J db' /\ extends db2 db' /\ forall session_id, canonical_history J session_id db' = canonical_history J session_id db2) as (Hok3 & He3 & Hh3).
  { destruct turn_item as [turn|]; [|injection H3' as <-; split; [done|]; split; [apply extends_refl|done]].
    destruct (turn_inserted _ _ _ Hok2 (Ht turn eq_refl) H3') as [Hi3 _]. split; [by eapply inserted_ok|]. split; [by eapply inserted_extends|].
    intros session_id. by eapply (history_unchanged session_id TurnItems). }
  split; [done|]. split; [eapply extends_trans; [by eapply inserted_extends|]; by eapply extends_trans|].
  intros session_id. rewrite Hh3, Hh2. f_equal. by eapply (history_unchanged session_id RuntimeEvents).
Qed.

Lemma bundle_claimed event history_item turn_item db db' event' stored : insert_event_bundle_unchecked J event history_item turn_item db = Ok (db', (event', stored)) ->
  exists m n, claim_protocol_sequence_in_transaction (event_session_id event) (event_turn_id event) (event_sequence_no event) db = Ok (set_allocators m db, n) /\
    event' = with_event_sequence n event /\ stored = with_item_sequence n <$> history_item /\
    insert_bundle_rows (with_event_sequence n event) (with_item_sequence n <$> history_item) (with_turn_sequence n <$> turn_item) (set_allocators m db) = Ok db' /\
    forall item, history_item = Some item -> item_session item = event_session_id event.
Proof.
  intros (u & Hv & Hi)%and_then_ok. apply and_then_ok in Hi as ([db0 n] & Hc & Hi). pose proof Hc as ((m & ->) & _)%claimed. exists m, n. split; [done|].
  cbv zeta in Hi. apply and_then_ok in Hi as (db1 & E1 & Hi). apply and_then_ok in Hi as (db2 & E2 & Hi). apply and_then_ok in Hi as (db3 & E3 & Hi).
  injection Hi as -> <- <-. split; [done|]. split; [done|]. split.
  - unfold insert_bundle_rows. rewrite E1. cbn [and_then]. rewrite E2. cbn [and_then]. by destruct turn_item.
  - intros item ->. unfold validate_event_bundle_coherence in Hv. apply and_then_ok in Hv as (u' & Hv & _). unfold validate_event_history_identity in Hv.
    by destruct (N.eqb_spec (event_session_id event) (item_session item)).
Qed.

Lemma bundle_committed event history_item turn_item db db' event' stored : db_ok J db ->
  insert_event_bundle_unchecked J event history_item turn_item db = Ok (db', (event', stored)) ->
  db_ok J db' /\ extends db db' /\ forall session_id, canonical_history J session_id db' = canonical_history J session_id db ++
    match stored with Some item => if decide (item_session item = session_id) then [item] else [] | None => [] end.
Proof.
  intros Hok (m & n & (_ & Hn & _)%claimed & -> & -> & Hrows & _)%bundle_claimed.
  by apply (bundle_rows (with_event_sequence n event) _ (with_turn_sequence n <$> turn_item) _ _ (allocators_ok m db Hok) Hn); [intros turn (t & -> & ->)%fmap_Some|].
Qed.

(** C19. A bundle that is committed gets a sequence number that is above every number stored for the turn and
    not below the requested one; the database stays consistent, its rows only grow at the end, and what a
    reader decodes is the history as it was with the bundle's item behind it, under the new number: in the session of the
    event, and nothing in any other. *)
Theorem bundle_appends_to_the_history event history_item turn_item db db' event' stored : db_ok J db ->
  insert_event_bundle_unchecked J event history_item turn_item db = Ok (db', (event', stored)) ->
  db_ok J db' /\ extends db db' /\
  (forall session_id, canonical_history J session_id db' = canonical_history J session_id db ++
    match stored with Some item => if decide (event_session_id event = session_id) then [item] else [] | None => [] end) /\
  stored = with_item_sequence (event_sequence_no event') <$> history_item /\ (event_sequence_no event <= event_sequence_no event')%Z /\
  forall m, m ∈ turn_sequence_numbers (ulid_to_string (event_session_id event)) (ulid_to_string (event_turn_id event)) db -> (m < event_sequence_no event')%Z.
Proof.
  intros Hok Hi. destruct (bundle_committed _ _ _ _ _ _ _ Hok Hi) as (Hok' & He & Hh). apply bundle_claimed in Hi as (m & n & (_ & _ & Hr & _ & Hmax & _)%claimed & -> & -> & _ & Hsess).
  split; [done|]. split; [done|]. split; [|done]. intros session_id. rewrite Hh. f_equal. destruct history_item as [item|]; [|done].
  cbn [fmap option_fmap option_map item_session with_item_sequence]. by rewrite (Hsess item eq_refl).
Qed.

(** ** Databases that arise *)

Definition empty_db : ProtocolDb :=
  {| history_rows := ∅; runtime_rows := ∅; turn_rows := ∅; append_rows := []; next_append_position := 1; allocators := ∅; stop_fences := []; spawn_edges := [] |}.

Lemma empty_ok : db_ok J empty_db.
Proof.
  split; cbn.
  - constructor.
  - by intros a ?%elem_of_nil.
  - unfold i64_max. lia.
  - constructor.
  - intros t id s. split; [destruct t; cbn; rewrite map_to_list_empty; by intros ?%elem_of_nil|]. by intros (a & ?%elem_of_nil & _).
  - done.
  - done.
Qed.

Definition Bundle : Type := RuntimeEvent V * option (HistoryItem V) * option (TurnItem V).
Definition commit (b : Bundle) db : result ProtocolDb StoreError := let? committed := insert_event_bundle_unchecked J (fst (fst b)) (snd (fst b)) (snd b) db in Ok (fst committed).
Fixpoint commits (bundles : list Bundle) db : result ProtocolDb StoreError :=
  match bundles with [] => Ok db | b :: rest => let? db := commit b db in commits rest db end.

Lemma commits_ok bundles db db' : db_ok J db -> commits bundles db = Ok db' -> db_ok J db' /\ extends db db'.
Proof.
  revert db. induction bundles as [|[[event item] turn] rest IH]; intros db Hok; cbn [commits]; [intros [= <-]; split; [done|apply extends_refl]|].
  intros (db1 & Hc & Hr)%and_then_ok. unfold commit in Hc. apply and_then_ok in Hc as ([db2 [event' stored]] & Hi & [= <-]).
  destruct (bundle_committed _ _ _ _ _ _ _ Hok Hi) as (Hok1 & He & _). destruct (IH _ Hok1 Hr) as [Hok' He']. split; [done|]. by eapply extends_trans.
Qed.

(** ** What is accepted *)

Lemma in_turn_numbers_event session turn id row db : runtime_rows db !! id = Some row -> event_row_session row = session -> event_row_turn row = turn ->
  event_row_sequence_no row ∈ turn_sequence_numbers session turn db.
Proof.
  intros Hr Hs Ht. apply elem_of_app. left. apply list_elem_of_omap. exists (id, row). split; [by apply elem_of_map_to_list|]. cbn. by rewrite Hs, Ht, !text_eqb_refl.
Qed.
Lemma in_turn_numbers_history session turn id row db : history_rows db !! id = Some row -> row_session row = session -> row_turn row = Some turn ->
  row_sequence_no row ∈ turn_sequence_numbers session turn db.
Proof.
  intros Hr Hs Ht. apply elem_of_app. right. apply elem_of_app. left. apply list_elem_of_omap. exists (id, row). split; [by apply elem_of_map_to_list|]. cbn.
  by rewrite Hs, Ht, text_eqb_refl, bool_decide_eq_true_2.
Qed.
Lemma in_turn_numbers_turn session turn id row db : turn_rows db !! id = Some row -> turn_row_session row = session -> turn_row_turn row = turn ->
  turn_row_sequence_no row ∈ turn_sequence_numbers session turn db.
Proof.
  intros Hr Hs Ht. apply elem_of_app. right. apply elem_of_app. right. apply list_elem_of_omap. exists (id, row). split; [by apply elem_of_map_to_list|]. cbn.
  by rewrite Hs, Ht, !text_eqb_refl.
Qed.

Lemma no_row {R} (f : text * R -> bool) (m : gmap text R) : (forall id row, m !! id = Some row -> f (id, row) = false) -> existsb f (map_to_list m) = false.
Proof.
  intros Hf. apply not_true_iff_false. intros ([id row] & Hin%list_elem_of_In%elem_of_map_to_list & Ht)%existsb_exists. by rewrite (Hf id row Hin) in Ht.
Qed.

Lemma append_succeeds t id session_id sc n ms db db1 : db_ok J db -> with_row t id (ulid_to_string session_id) db db1 -> (0 <= n)%Z ->
  (sc = SessionScope -> t = HistoryItems) -> (next_append_position db <= i64_max)%Z ->
  insert_protocol_append_order session_id sc n (source_kind_of t) id ms db1 = Ok (push_append (new_append t id session_id sc n ms db1) db1).
Proof.
  intros Hok Hw Hn Hsc Hmax. unfold insert_protocol_append_order. cbv zeta. fold (new_append t id session_id sc n ms db1).
  rewrite (append_admitted t id session_id sc n ms db db1 Hok Hw Hn Hsc). cbn [negb]. rewrite (row_next _ _ _ _ _ Hw). destruct (Z.ltb_spec i64_max (next_append_position db)); [lia|done].
Qed.

(** The bundle is new to the database, serialises, and does not end a turn twice. *)
Record acceptable event (history_item : option (HistoryItem V)) (turn_item : option (TurnItem V)) db : Prop := {
  new_event : runtime_rows db !! ulid_to_string (event_id event) = None;
  event_json : is_Some (msg_to_string J (event_msg event));
  new_terminal : is_terminal event = true -> forall id row, runtime_rows db !! id = Some row -> event_row_session row = ulid_to_string (event_session_id event) ->
    event_row_turn row = ulid_to_string (event_turn_id event) -> json_kind J (event_row_msg_json row) <> Some (lit "turn_terminal");
  new_item : forall item, history_item = Some item -> history_rows db !! ulid_to_string (item_id item) = None /\ is_Some (payload_to_string J (payload item)) /\
    validate_compaction_checkpoint (payload item) = Ok tt /\ payload_kind (payload item) <> lit "collaboration_mode_instruction";
  new_turn_item : forall turn, turn_item = Some turn -> turn_rows db !! ulid_to_string (turn_item_id turn) = None /\ is_Some (turn_payload_to_string J (turn_item_payload turn));
  room : (next_append_position db + 2 <= i64_max)%Z;
  sequence_room : (event_sequence_no event + 1 <= i64_max)%Z /\
    (forall m, m ∈ turn_sequence_numbers (ulid_to_string (event_session_id event)) (ulid_to_string (event_turn_id event)) db -> (m + 2 <= i64_max)%Z) /\
    (forall next, allocators db !! (ulid_to_string (event_session_id event), ulid_to_string (event_turn_id event)) = Some next -> (next + 1 <= i64_max)%Z)
}.

Lemma max_of_in l m : max_of l = Some m -> m ∈ l.
Proof.
  destruct l as [|p l]; [done|]. cbn [max_of]. intros [= <-]. revert p. induction l as [|q l IH]; intros p; cbn [fold_left]; [by left|].
  destruct (Z.max_spec p q) as [[_ ->]|[_ ->]].
  - right. apply IH.
  - destruct (proj1 (elem_of_cons _ _ _) (IH p)) as [E|Hin]; [rewrite E at 1; by left|right; by right].
Qed.

Lemma claim_succeeds session_id turn_id requested db : (requested + 1 <= i64_max)%Z ->
  (forall m, m ∈ turn_sequence_numbers (ulid_to_string session_id) (ulid_to_string turn_id) db -> (m + 2 <= i64_max)%Z) ->
  (forall next, allocators db !! (ulid_to_string session_id, ulid_to_string turn_id) = Some next -> (next + 1 <= i64_max)%Z) ->
  exists db' n, claim_protocol_sequence_in_transaction session_id turn_id requested db = Ok (db', n).
Proof.
  intros Hr Hm Ha. unfold claim_protocol_sequence_in_transaction. cbn [fst snd]. set (floor := Z.max _ _).
  assert (floor + 1 <= i64_max)%Z as Hf.
  { unfold floor, saturating_add_i64. destruct (max_of _) as [m|] eqn:E; cbn [default]; [apply max_of_in, Hm in E; unfold id|]; unfold i64_max in *; lia. }
  set (next := match _ with None => _ | Some _ => _ end). destruct (Z.ltb_spec i64_max next) as [Hlt|_]; [|by eexists _, _].
  unfold next in Hlt. destruct (allocators db !! _) as [old|] eqn:E; [specialize (Ha old eq_refl)|]; lia.
Qed.

Lemma terminal_kind event : bool_decide (Some (runtime_event_kind (event_msg event)) = Some (lit "turn_terminal")) = is_terminal event.
Proof. unfold is_terminal, terminal_outcome. destruct (event_msg event); cbn [runtime_event_kind]; case_bool_decide as E; try done; discriminate E. Qed.

Lemma runtime_accepted event db n : db_ok J db -> (0 <= n)%Z -> runtime_rows db !! ulid_to_string (event_id event) = None -> is_Some (msg_to_string J (event_msg event)) ->
  (is_terminal event = true -> forall id row, runtime_rows db !! id = Some row -> event_row_session row = ulid_to_string (event_session_id event) ->
    event_row_turn row = ulid_to_string (event_turn_id event) -> json_kind J (event_row_msg_json row) <> Some (lit "turn_terminal")) ->
  (next_append_position db <= i64_max)%Z ->
  (forall m, m ∈ turn_sequence_numbers (ulid_to_string (event_session_id event)) (ulid_to_string (event_turn_id event)) db -> (m < n)%Z) ->
  exists db', insert_runtime_event J (with_event_sequence n event) db = Ok db' /\ history_rows db' = history_rows db /\ turn_rows db' = turn_rows db /\
    next_append_position db' = (next_append_position db + 1)%Z.
Proof.
  intros Hok Hn Hnew [msg Hmsg] Hterm Hroom Hfresh. unfold insert_runtime_event. cbn [event_msg with_event_sequence event_id]. rewrite Hmsg. cbv zeta.
  set (row := {| event_row_session := _ |}). assert (runtime_check J (ulid_to_string (event_id event)) row db = true) as ->.
  { unfold runtime_check. rewrite bool_decide_eq_true_2 by done. cbn [andb]. apply negb_true_iff, no_row. intros id r Hr. cbn [snd].
    apply not_true_iff_false. rewrite !andb_true_iff, orb_true_iff, andb_true_iff, Z.eqb_eq, !text_eqb_eq, !bool_decide_eq_true.
    intros [[Hs Ht] [Hseq|[Hk Hk']]].
    - assert (event_row_sequence_no r < n)%Z; [|cbn in Hseq; lia]. by apply Hfresh, (in_turn_numbers_event _ _ id).
    - cbn [row event_row_msg_json] in Hk'. rewrite (msg_json_kind _ JL _ _ Hmsg) in Hk'. refine (Hterm _ id r Hr Hs Ht Hk).
      rewrite <- terminal_kind. by apply bool_decide_eq_true. }
  eexists. split; [apply (append_succeeds RuntimeEvents _ _ _ _ _ db); [done|by apply (runtime_with_row (with_event_sequence n event))|done..]|done].
Qed.

Lemma history_accepted item db turn n : db_ok J db -> (0 <= n)%Z -> scope item = TurnScope turn -> history_rows db !! ulid_to_string (item_id item) = None ->
  is_Some (payload_to_string J (payload item)) -> validate_compaction_checkpoint (payload item) = Ok tt ->
  payload_kind (payload item) <> lit "collaboration_mode_instruction" -> (next_append_position db <= i64_max)%Z ->
  (forall id row, history_rows db !! id = Some row -> row_session row = ulid_to_string (item_session item) -> row_turn row = Some (ulid_to_string turn) -> (row_sequence_no row < n)%Z) ->
  exists db', insert_history_item J (with_item_sequence n item) db = Ok db' /\ turn_rows db' = turn_rows db /\ next_append_position db' = (next_append_position db + 1)%Z.
Proof.
  intros Hok Hn Hsc Hnew [json Hjson] Hval Hkind Hroom Hfresh. unfold insert_history_item. cbn [payload with_item_sequence item_id]. rewrite Hval, Hjson. cbv zeta.
  set (row := {| row_session := _ |}). assert (history_check J (ulid_to_string (item_id item)) row db = true) as ->.
  { unfold history_check. cbv zeta. rewrite bool_decide_eq_true_2 by done. cbn [row_sequence_no row row_scope_kind row_turn row_payload_json sequence_no with_item_sequence scope].
    rewrite (proj2 (Z.leb_le 0 n) Hn), (payload_json_kind _ JL _ _ Hjson), Hsc. cbn [andb scope_as_str scope_turn_id fmap option_fmap option_map].
    rewrite (bool_decide_eq_true_2 (is_Some (Some (payload_kind (payload item))))) by done.
    rewrite (bool_decide_eq_true_2 (is_Some (Some (ulid_to_string turn)))) by done.
    rewrite (bool_decide_eq_false_2 (Some (payload_kind (payload item)) = _)) by congruence. rewrite text_eqb_refl. cbn [andb orb negb].
    apply negb_true_iff, no_row. intros id r Hr. cbn [snd]. apply not_true_iff_false.
    rewrite !andb_true_iff, Z.eqb_eq, !text_eqb_eq, !bool_decide_eq_true. intros [[[Hs _] Ht] Hseq].
    assert (row_sequence_no r < n)%Z; [by eapply Hfresh|lia]. }
  eexists. split; [apply (append_succeeds HistoryItems _ _ _ _ _ db); [done| |done..]|done].
  apply (history_with_row (with_item_sequence n item)); [done..|]. by split_and!.
Qed.

Lemma turn_accepted (turn : TurnItem V) db n : db_ok J db -> (0 <= n)%Z -> turn_rows db !! ulid_to_string (turn_item_id turn) = None ->
  is_Some (turn_payload_to_string J (turn_item_payload turn)) -> (next_append_position db <= i64_max)%Z ->
  (forall id row, turn_rows db !! id = Some row -> turn_row_session row = ulid_to_string (turn_item_session turn) ->
    turn_row_turn row = ulid_to_string (turn_item_turn turn) -> (turn_row_sequence_no row < n)%Z) ->
  exists db', insert_turn_item J (with_turn_sequence n turn) db = Ok db'.
Proof.
  intros Hok Hn Hnew [json Hjson] Hroom Hfresh. unfold insert_turn_item. cbn [turn_item_payload with_turn_sequence turn_item_id]. rewrite Hjson. cbv zeta.
  set (row := {| turn_row_session := _ |}). assert (turn_check (ulid_to_string (turn_item_id turn)) row db = true) as ->.
  { unfold turn_check. rewrite bool_decide_eq_true_2 by done. cbn [andb]. apply negb_true_iff, no_row. intros id r Hr. cbn [snd]. apply not_true_iff_false.
    rewrite !andb_true_iff, Z.eqb_eq, !text_eqb_eq. intros [[Hs Ht] Hseq]. specialize (Hfresh id r Hr Hs Ht). cbn in Hseq. lia. }
  eexists. apply (append_succeeds TurnItems _ _ _ _ _ db); [done| |done..]. by apply (turn_with_row (with_turn_sequence n turn)).
Qed.

End Inserts.
