(* ===== verification/ProtocolDemo.v ===== *)
(** * A concrete store

    A database that bundles were committed to, with a compaction in between, on which the theorems of the store
    apply: their hypotheses hold together. *)
From S2P Require Import Prelude.
From S2P Require Import Text.
From S2P Require Import ListSort.
From S2P Require Import Json.
From S2P Require Import PermissionFence.
From S2P Require Import ContextWindow.
From S2P Require Import ClmCheckpoint.
From S2P Require Import History.
From S2P Require Import SourceRecords.
From S2P Require Import ContextManager.
From S2P Require Import ContextProjection.
From S2P Require Import ContextStream.
From S2P Require Import ActiveOrder.
From S2P Require Import ProtocolStore.
From S2P Require Import ProtocolStoreFacts.
From S2P Require Import ActiveTraversal.
From S2P Require Import ProtocolContext.
From S2P Require Import RehydratedContext.
From S2P Require Import ContextRefresh.
From S2P Require Import ProtocolInserts.

Open Scope nat_scope.

#[local] Existing Instance one_char_ulid.
#[local] Existing Instance one_char_laws.

(** User turns of one text, compactions without attachments, and warnings serialise. *)
Definition demo_json : ProtocolJson Tree := {|
  payload_to_string p := match p with
    | UserTurn [TextContent t] None None => Some (117%N :: t)
    | Compaction Automatic LegacyPrefix [] None [] ids => Some (99%N :: ids)
    | _ => None
    end;
  payload_from_str t := match t with
    | 117%N :: t => Ok (UserTurn [TextContent t] None None)
    | 99%N :: ids => Ok (Compaction Automatic LegacyPrefix [] None [] ids)
    | _ => Err (lit "unknown payload")
    end;
  msg_to_string m := match m with Warning t => Some (119%N :: t) | _ => None end;
  msg_from_str t := match t with 119%N :: t => Ok (Warning t) | _ => Err (lit "unknown message") end;
  turn_payload_to_string v := match v with TNull => Some (lit "null") | _ => None end;
  json_kind t := match t with
    | 117%N :: _ => Some (lit "user_turn")
    | 99%N :: _ => Some (lit "compaction")
    | 119%N :: _ => Some (lit "warning")
    | _ => None
    end;
  json_replacements t := match t with 99%N :: ids => map (fun id => Some [id]) ids | _ => [] end;
  json_trigger_turn _ := false;
  hash_text t := t;
  debug_scope _ := lit "scope";
  debug_source _ := lit "source";
  debug_turn _ := lit "turn"
|}.

Ltac by_payload p := repeat match goal with
  | E : context [match ?x with _ => _ end] |- _ => destruct x; try discriminate E
  end; simplify_eq; try done.

Lemma demo_json_laws : ProtocolJsonLaws demo_json.
Proof.
  split; cbn.
  - intros p t E _. by_payload p.
  - intros m t E. by_payload m.
  - intros p t E. by_payload p.
  - intros m t E. by_payload m.
  - intros p t E. by_payload p.
  - intros p t E. by_payload p.
Qed.

Definition demo_event (id : N) : RuntimeEvent Tree :=
  {| event_id := id; event_session_id := 1; event_turn_id := 2; event_sequence_no := 0; event_created_at_ms := 5; event_msg := Warning (lit "w") |}.
Definition demo_bundle (id : N) (p : HistoryItemPayload Tree) : Bundle := (demo_event (100 + id), Some (demo_item id p), None).

Definition first_commits : list (Bundle (V := Tree)) :=
  [demo_bundle 11 (UserTurn [TextContent (lit "one")] None None); demo_bundle 12 (UserTurn [TextContent (lit "two")] None None)].
Definition later_commits : list (Bundle (V := Tree)) :=
  [demo_bundle 13 (Compaction Automatic LegacyPrefix [] None [] [11%N; 12%N]); demo_bundle 14 (UserTurn [TextContent (lit "three")] None None)].

Definition after_commits (bundles : list (Bundle (V := Tree))) (db : ProtocolDb) : ProtocolDb :=
  match commits demo_json bundles db with Ok db => db | Err _ => empty_db end.
Definition first_db : ProtocolDb := Eval vm_compute in after_commits first_commits empty_db.
Definition later_db : ProtocolDb := Eval vm_compute in after_commits later_commits first_db.

Lemma first_committed : commits demo_json first_commits empty_db = Ok first_db.
Proof. vm_compute. reflexivity. Qed.
Lemma later_committed : commits demo_json later_commits first_db = Ok later_db.
Proof. vm_compute. reflexivity. Qed.

Lemma first_ok : db_ok demo_json first_db.
Proof. apply (commits_ok demo_json demo_json_laws _ empty_db _ (empty_ok demo_json) first_committed). Qed.
Lemma later_ok : db_ok demo_json later_db /\ extends first_db later_db.
Proof. apply (commits_ok demo_json demo_json_laws _ first_db _ first_ok later_committed). Qed.

Definition later_history : list (HistoryItem Tree) :=
  [with_item_sequence 0 (demo_item 11 (UserTurn [TextContent (lit "one")] None None));
   with_item_sequence 1 (demo_item 12 (UserTurn [TextContent (lit "two")] None None));
   with_item_sequence 2 (demo_item 13 (Compaction Automatic LegacyPrefix [] None [] [11%N; 12%N]));
   with_item_sequence 3 (demo_item 14 (UserTurn [TextContent (lit "three")] None None))].

Lemma later_history_is : canonical_history demo_json 1 later_db = later_history.
Proof. vm_compute. reflexivity. Qed.

Ltac concrete_nodup :=
  vm_compute; repeat (constructor; [intros F; repeat (apply elem_of_cons in F as [F|F]; [discriminate F|]); by apply elem_of_nil in F|]); constructor.
Ltac each_prefix before E :=
  unfold later_history in E; destruct before as [|b1 [|b2 [|b3 [|b4 [|b5 rest]]]]]; cbn in E;
  repeat match goal with F : _ :: _ = _ :: _ |- _ => injection F as ? F; subst end; try discriminate.

Lemma later_stream : stream_ok later_history.
Proof.
  split; [concrete_nodup| |concrete_nodup|concrete_nodup| |].
  - intros before item after E id Hid. each_prefix before E; cbn in Hid; try (by apply elem_of_nil in Hid); cbn.
    repeat (apply elem_of_cons in Hid as [->|Hid]; [set_solver|]). by apply elem_of_nil in Hid.
  - repeat constructor; intros call E; cbn in E |- *; congruence.
  - intros item Hi. repeat (apply elem_of_cons in Hi as [->|Hi]; [reflexivity|]). by apply elem_of_nil in Hi.
Qed.

Lemma later_compacts : compacts_its_view later_history.
Proof.
  intros before x after E id Hid. each_prefix before E; cbn in Hid; try (by apply elem_of_nil in Hid); vm_compute.
  repeat (apply elem_of_cons in Hid as [->|Hid]; [set_solver|]). by apply elem_of_nil in Hid.
Qed.

Lemma later_view : item_id <$> view_after later_history = [13%N; 14%N].
Proof. vm_compute. reflexivity. Qed.

Lemma none_stopped (db : ProtocolDb) : stop_fences db = [] -> none_overtaken demo_json 1 db.
Proof.
  intros Hs item _. unfold overtaken, stopped_before. assert (fenced_scope db = []) as -> by (unfold fenced_scope; by rewrite Hs).
  destruct (scope item), (payload item); cbn; rewrite ?andb_false_r; done.
Qed.

Lemma rehydrated_context_is_the_live_view_witness :
  option_map (fun r => match r with Ok c => item_id <$> history_items c | Err _ => [] end) (context_manager demo_services demo_json None 1 false later_db) = Some [13%N; 14%N].
Proof.
  rewrite (rehydrated_context_is_the_live_view demo_json demo_json_laws 1 later_db (proj1 later_ok)).
  - vm_compute. reflexivity.
  - rewrite later_history_is. exact later_stream.
  - rewrite later_history_is. exact later_compacts.
Defined.

Lemma active_pages_hold_the_live_view_witness : exists snapshot,
  visit_active_history_pages_for_session demo_json None 1 1 (fun items page => Ok (items ++ ProtocolStore.active_items page)) [] later_db =
    Some (Ok (live_view demo_json 1 later_db, snapshot)) /\ active_count snapshot = 2%N.
Proof.
  destruct (active_pages_hold_the_live_view demo_json demo_json_laws 1 later_db (proj1 later_ok)
    ltac:(rewrite later_history_is; exact later_stream) ltac:(rewrite later_history_is; exact later_compacts) 1 ltac:(split; [reflexivity|discriminate])) as (snapshot & E & Hc & _).
  exists snapshot. split; [exact E|]. rewrite Hc. vm_compute. reflexivity.
Defined.

Lemma refreshing_is_one_ingestion_witness :
  refresh_to_the_end demo_services demo_json 1 None 1 later_db (from_active_history demo_services [] None 0) =
  Some (Ok (fst (ingest_committed_delta demo_services later_history (Some 8%Z) (from_active_history demo_services [] None 0)))).
Proof.
  rewrite (refreshing_is_one_ingestion demo_services demo_json demo_json_laws 1 later_db (proj1 later_ok) 1 (from_active_history demo_services [] None 0)).
  - vm_compute. reflexivity.
  - apply Nat.leb_le. vm_compute. reflexivity.
  - discriminate.
Defined.


Lemma bounded_canonical_history_witness :
  visit_bounded_canonical_history_pages_for_session demo_json None 1 3 3 (fun w page => Ok (w ++ page_items page)) [] later_db = Some (Err (too_long 3)) /\
  exists snapshot, visit_bounded_canonical_history_pages_for_session demo_json None 1 3 4 (fun w page => Ok (w ++ page_items page)) [] later_db = Some (Ok (later_history, snapshot)).
Proof.
  assert (forall source_limit, (0 < source_limit)%N -> _) as Hb by (intros source_limit Hs;
    refine (bounded_canonical_history demo_json demo_json_laws 1 later_db (proj1 later_ok) (fun w items => w ++ items) 3 source_limit [] _ Hs _ _);
    [split; [reflexivity|discriminate]|apply app_nil_r|intros w a b; symmetry; apply app_assoc]).
  split; [|eexists]; rewrite Hb; try reflexivity; vm_compute; reflexivity.
Defined.

Lemma bounded_active_history_witness :
  visit_bounded_active_history_pages_for_session demo_json None 1 3 9 1 (fun w page => Ok (w ++ ProtocolStore.active_items page)) [] later_db = Some (Err (too_many 1)).
Proof.
  rewrite (bounded_active_history demo_json demo_json_laws 1 later_db (proj1 later_ok)
    ltac:(rewrite later_history_is; exact later_stream) ltac:(rewrite later_history_is; exact later_compacts) (fun w items => w ++ items) 3 9 1 []);
    [vm_compute; reflexivity|split; [reflexivity|discriminate]|reflexivity|reflexivity|apply app_nil_r|intros w a b; symmetry; apply app_assoc].
Defined.

Lemma later_commit : exists committed,
  insert_event_bundle_unchecked demo_json (demo_event 115) (Some (demo_item 15 (UserTurn [TextContent (lit "four")] None None))) None later_db = Ok committed.
Proof. eexists. vm_compute. reflexivity. Qed.

Lemma bundle_appends_to_the_history_witness : exists db' event' stored,
  insert_event_bundle_unchecked demo_json (demo_event 115) (Some (demo_item 15 (UserTurn [TextContent (lit "four")] None None))) None later_db = Ok (db', (event', stored)) /\
  item_id <$> canonical_history demo_json 1 db' = [11; 12; 13; 14; 15]%N.
Proof.
  destruct later_commit as [[db' [event' stored]] E]. exists db', event', stored. split; [exact E|].
  destruct (bundle_appends_to_the_history demo_json demo_json_laws _ _ _ _ _ _ _ (proj1 later_ok) E) as (_ & _ & Hh & -> & _).
  rewrite Hh, later_history_is. reflexivity.
Defined.

