(* ===== verification/ProviderStream.v ===== *)
(** * Provider streams (src/src/llm/provider.rs, src/src/llm/openai_compat.rs, src/src/error.rs)

    What the transports share: the errors, the budget of a stream with its stage for one chunk, the
    summaries of provider texts, and the sink that traces an attempt.  Of a failure and of a phase
    event the fields that only identify or time the request are left out. *)
From S2P Require Import Prelude.
From S2P Require Import Text.
From S2P Require Import Utf8.
From S2P Require Import ContextTokens.

Open Scope N_scope.

Definition saturating_add_u64 (a b : N) : N := N.min (a + b) u64_max.

(** ** Data *)

Inductive FinishReason := Stop | ToolCall | Length | FinishCancelled | FinishError.
#[export] Instance FinishReason_eq_dec : EqDecision FinishReason.
Proof. solve_decision. Defined.

(** [{:?}] of a [FinishReason]. *)
Definition debug_finish_reason (f : FinishReason) : text :=
  match f with
  | Stop => lit "Stop" | ToolCall => lit "ToolCall" | Length => lit "Length" | FinishCancelled => lit "Cancelled" | FinishError => lit "Error"
  end.

Inductive LlmEvent :=
  | TextDelta (delta : text)
  | ReasoningSummaryDelta (delta : text)
  | ToolCallStart (call_id tool_name : text)
  | ToolCallArgsDelta (call_id delta : text)
  | Finished (finish_reason : FinishReason) (usage : option TokenUsage).

Inductive ProviderPhase := AttemptStarted | RequestInFlight | HeadersReceived | FirstProgress | LastProgress | ProviderTerminal.
Inductive ProviderTerminalStatus := TerminalCompleted | TerminalCancelled | TerminalFailed.
Inductive ProviderFailureKind :=
  ConnectKind | RequestTimeoutKind | ResponseStartTimeoutKind | StreamIdleTimeoutKind | HttpStatusKind | GenerationKind |
  ProtocolKind | DecodeKind | CancelledKind | EventProjectionKind | OtherKind.

Record ProviderFailure := {
  failure_phase : ProviderPhase;
  failure_attempt : N;
  failure_kind : ProviderFailureKind;
  failure_status : option N;
  failure_code : option text;
  failure_message : text
}.

Inductive ProviderStreamLimit := RawBytes | EventCount | ToolCallCount | ToolCallArgumentBytes | DurationMs.

(** An error of another crate is the text it displays; of an HTTP error the code also asks for its class. *)
Inductive LlmError :=
  | HttpError (connect decode : bool) (message : text)
  | JsonError (shown : text)
  | ProviderResponseStartTimeout (timeout_ms : N)
  | ProviderStreamIdleTimeout (timeout_ms : N)
  | ProviderRequestTimeout (timeout_ms : N)
  | ProviderRequestLimitExceeded (shown : text)
  | ProviderRequestImage (shown : text)
  | ProviderStreamLimitExceeded (surface : ProviderStreamLimit) (actual maximum : N)
  | ProviderRejected (status : option N) (code param : option text) (message : text)
  | ProviderGenerationFailed (response_id code : option text) (message : text)
  | IncompleteResponse (reason : text) (usage : option TokenUsage)
  | ProviderFailed (failure : ProviderFailure) (source : LlmError)
  | LlmMessage (message : text)
  | OtherLlmError (shown : text).

Fixpoint token_usage (e : LlmError) : option TokenUsage :=
  match e with
  | IncompleteResponse _ usage => usage
  | ProviderFailed _ source => token_usage source
  | _ => None
  end.

(** ** Limits of a stream *)

Record ProviderStreamLimits := { max_raw_bytes : N; max_events : N; max_tool_calls : N; max_tool_call_argument_bytes : N }.

Definition product_default : ProviderStreamLimits :=
  {| max_raw_bytes := 16 * 1024 * 1024; max_events := 100000; max_tool_calls := 256; max_tool_call_argument_bytes := 1024 * 1024 |}.

Definition ensure_stream_limit (surface : ProviderStreamLimit) (actual maximum : N) : result unit LlmError :=
  if maximum <? actual then Err (ProviderStreamLimitExceeded surface actual maximum) else Ok tt.

(** The chunks of the body as the SSE decoder gets them. *)
Fixpoint bounded_response_bytes {Bytes} (len : Bytes -> N) (maximum observed : N) (chunks : list (result Bytes LlmError))
    : list (result Bytes LlmError) :=
  match chunks with
  | [] => []
  | Err e :: rest => Err e :: bounded_response_bytes len maximum observed rest
  | Ok chunk :: rest =>
    let observed := saturating_add_u64 observed (len chunk) in
    (if maximum <? observed then Err (ProviderStreamLimitExceeded RawBytes observed maximum) else Ok chunk)
    :: bounded_response_bytes len maximum observed rest
  end.

(** The idle deadline is the environment's; the rest is counted. *)
Record ProviderStreamBudget := {
  limits : ProviderStreamLimits;
  idle_timeout_ms : N;
  event_count : N;
  budget_tool_calls : gset text;
  tool_argument_bytes : gmap text N
}.

Definition budget_new (limits : ProviderStreamLimits) (idle_timeout_ms : N) : ProviderStreamBudget :=
  {| limits := limits; idle_timeout_ms := idle_timeout_ms; event_count := 0; budget_tool_calls := ∅; tool_argument_bytes := ∅ |}.

Definition timeout_error (b : ProviderStreamBudget) : LlmError := ProviderStreamIdleTimeout (idle_timeout_ms b).

Definition record_event (b : ProviderStreamBudget) : ProviderStreamBudget * result unit LlmError :=
  let count := saturating_add_u64 (event_count b) 1 in
  ({| limits := limits b; idle_timeout_ms := idle_timeout_ms b; event_count := count;
      budget_tool_calls := budget_tool_calls b; tool_argument_bytes := tool_argument_bytes b |},
   ensure_stream_limit EventCount count (max_events (limits b))).

Record ProviderStreamBudgetStage := { new_tool_calls : gset text; staged_argument_bytes : gmap text N }.
Definition empty_stage : ProviderStreamBudgetStage := {| new_tool_calls := ∅; staged_argument_bytes := ∅ |}.

Definition stage_tool_call (b : ProviderStreamBudget) (key : text) (s : ProviderStreamBudgetStage)
    : result ProviderStreamBudgetStage LlmError :=
  if bool_decide (key ∈ budget_tool_calls b) || bool_decide (key ∈ new_tool_calls s) then Ok s
  else
    let actual := saturating_add_u64 (saturating_add_u64 (N.of_nat (size (budget_tool_calls b))) (N.of_nat (size (new_tool_calls s)))) 1 in
    let? _ := ensure_stream_limit ToolCallCount actual (max_tool_calls (limits b)) in
    Ok {| new_tool_calls := {[key]} ∪ new_tool_calls s; staged_argument_bytes := staged_argument_bytes s |}.

Definition stage_tool_arguments (b : ProviderStreamBudget) (key : text) (delta_bytes : N) (s : ProviderStreamBudgetStage)
    : result ProviderStreamBudgetStage LlmError :=
  let prior := default 0 (tool_argument_bytes b !! key) in
  let staged := default 0 (staged_argument_bytes s !! key) in
  let actual := saturating_add_u64 (saturating_add_u64 prior staged) delta_bytes in
  let? _ := ensure_stream_limit ToolCallArgumentBytes actual (max_tool_call_argument_bytes (limits b)) in
  Ok {| new_tool_calls := new_tool_calls s; staged_argument_bytes := <[key := saturating_add_u64 staged delta_bytes]> (staged_argument_bytes s) |}.

(** [commit]: the keys are distinct, so the order in which the map is drained does not show. *)
Definition commit_stage (s : ProviderStreamBudgetStage) (b : ProviderStreamBudget) : ProviderStreamBudget :=
  {| limits := limits b; idle_timeout_ms := idle_timeout_ms b; event_count := event_count b;
     budget_tool_calls := budget_tool_calls b ∪ new_tool_calls s;
     tool_argument_bytes :=
       merge (fun total delta => match delta with None => total | Some d => Some (saturating_add_u64 (default 0 total) d) end)
         (tool_argument_bytes b) (staged_argument_bytes s) |}.

(** ** Texts of the provider in errors *)

Definition PROVIDER_FAILURE_SUMMARY_LIMIT_BYTES : N := 243.
Definition PROVIDER_STREAM_SUMMARY_SCAN_LIMIT_BYTES : N := PROVIDER_FAILURE_SUMMARY_LIMIT_BYTES * 4.
Definition PROVIDER_STREAM_ERROR_MESSAGE_LIMIT_BYTES : N := 160.
Definition PROVIDER_STREAM_ERROR_FIELD_LIMIT_BYTES : N := 48.

Record Compaction := { compact : text; scanned_end : N; was_truncated : bool }.

Fixpoint compact_chars (content_limit max_scan_bytes offset : N) (s : text) (pending_space : bool) (c : Compaction) : Compaction :=
  match s with
  | [] => c
  | character :: s =>
    let character_end := saturating_add_usize offset (len_utf8 character) in
    if max_scan_bytes <? character_end then {| compact := compact c; scanned_end := scanned_end c; was_truncated := true |}
    else
      let next := offset + len_utf8 character in
      if is_whitespace character
      then compact_chars content_limit max_scan_bytes next s (negb (is_empty (compact c)))
             {| compact := compact c; scanned_end := character_end; was_truncated := was_truncated c |}
      else
        let separator := pending_space && negb (is_empty (compact c)) in
        let required := saturating_add_usize (if separator then 1 else 0) (len_utf8 character) in
        if content_limit <? saturating_add_usize (byte_len (compact c)) required
        then {| compact := compact c; scanned_end := character_end; was_truncated := true |}
        else compact_chars content_limit max_scan_bytes next s false
               {| compact := compact c ++ (if separator then lit " " else []) ++ [character];
                  scanned_end := character_end; was_truncated := was_truncated c |}
  end.

Definition compact_provider_text_bounded (s : text) (max_bytes max_scan_bytes : N) : text :=
  if max_bytes =? 0 then []
  else
    let ELLIPSIS := lit "..." in
    let content_limit := max_bytes - byte_len ELLIPSIS in
    let c := compact_chars content_limit max_scan_bytes 0 s false {| compact := []; scanned_end := 0; was_truncated := false |} in
    if was_truncated c || (scanned_end c <? byte_len s)
    then if max_bytes <? byte_len ELLIPSIS then repeat (46 : N) (N.to_nat max_bytes) else compact c ++ ELLIPSIS
    else compact c.

(** What the code matches of a [serde_json::Value]. *)
Inductive JsonShape :=
  | ShapeNull
  | ShapeBool (b : bool)
  | ShapeNumber (integer : bool) (shown : text)
  | ShapeString (s : text)
  | ShapeArray
  | ShapeObject.

Record OpenAiErrorPayload := { error_message : option text; error_type : option text; error_code : option JsonShape }.

Definition compact_stream_error_field (value : text) : option text :=
  let value := compact_provider_text_bounded value PROVIDER_STREAM_ERROR_FIELD_LIMIT_BYTES PROVIDER_STREAM_SUMMARY_SCAN_LIMIT_BYTES in
  if is_empty value then None else Some value.

Definition summarize_stream_error_code (code : JsonShape) : text :=
  match code with
  | ShapeString value =>
    lit "code=" ++ compact_provider_text_bounded value PROVIDER_STREAM_ERROR_FIELD_LIMIT_BYTES PROVIDER_STREAM_SUMMARY_SCAN_LIMIT_BYTES
  | ShapeNull => lit "code=null"
  | ShapeBool value => lit "code=" ++ show_bool value
  | ShapeNumber _ shown => lit "code=" ++ shown
  | ShapeArray => lit "code=<array>"
  | ShapeObject => lit "code=<object>"
  end.

Definition chat_stream_error_code (error : OpenAiErrorPayload) : option text :=
  let code :=
    match error_code error with
    | Some (ShapeString value) => compact_stream_error_field value
    | Some (ShapeNumber true shown) => Some shown
    | _ => None
    end in
  match code with
  | Some code => Some code
  | None => error_type error ≫= compact_stream_error_field
  end.

Definition summary_part (limit : N) (value : option text) : list text :=
  match value with
  | None => []
  | Some value =>
    let summary := compact_provider_text_bounded value limit PROVIDER_STREAM_SUMMARY_SCAN_LIMIT_BYTES in
    if is_empty summary then [] else [summary]
  end.

Definition summarize_stream_error (error : OpenAiErrorPayload) : text :=
  let parts :=
    summary_part PROVIDER_STREAM_ERROR_MESSAGE_LIMIT_BYTES (error_message error) ++
    map (fun summary => lit "type=" ++ summary) (summary_part PROVIDER_STREAM_ERROR_FIELD_LIMIT_BYTES (error_type error)) ++
    match error_code error with None => [] | Some code => [summarize_stream_error_code code] end in
  if is_empty parts then lit "provider returned an unspecified stream error"
  else compact_provider_text_bounded (join (lit " | ") parts) PROVIDER_FAILURE_SUMMARY_LIMIT_BYTES PROVIDER_STREAM_SUMMARY_SCAN_LIMIT_BYTES.

(** ** The traced sink *)

Record ProviderPhaseEvent := {
  event_phase : ProviderPhase;
  event_attempt : N;
  terminal_status : option ProviderTerminalStatus;
  event_usage : option TokenUsage;
  event_failure : option ProviderFailure
}.

(** [LlmEventSink] as the transport uses it: a state and two fallible calls. *)
Class LlmEventSink (S : Type) := {
  push : LlmEvent -> S -> S * result unit LlmError;
  provider_phase : ProviderPhaseEvent -> S -> S * result unit LlmError
}.

(** Of [last_progress_elapsed_ms] only whether it is set; [failure_origin] has one value. *)
Record ProviderTraceSink (S : Type) := {
  inner : S;
  attempt : N;
  current_phase : ProviderPhase;
  first_progress_seen : bool;
  progress_seen : bool;
  projection_failed : bool;
  replay_blocked : bool
}.
Arguments inner {S} _.
Arguments attempt {S} _.
Arguments current_phase {S} _.
Arguments first_progress_seen {S} _.
Arguments progress_seen {S} _.
Arguments projection_failed {S} _.
Arguments replay_blocked {S} _.

Section Trace.
Context {S : Type} `{LlmEventSink S}.
Local Abbreviation Trace := (ProviderTraceSink S) (only parsing).

Definition trace_new (inner : S) : Trace :=
  {| inner := inner; attempt := 0; current_phase := AttemptStarted; first_progress_seen := false; progress_seen := false;
     projection_failed := false; replay_blocked := false |}.

Definition set_inner (s : S) (t : Trace) : Trace :=
  {| inner := s; attempt := attempt t; current_phase := current_phase t; first_progress_seen := first_progress_seen t;
     progress_seen := progress_seen t; projection_failed := projection_failed t; replay_blocked := replay_blocked t |}.
Definition set_phase (p : ProviderPhase) (t : Trace) : Trace :=
  {| inner := inner t; attempt := attempt t; current_phase := p; first_progress_seen := first_progress_seen t;
     progress_seen := progress_seen t; projection_failed := projection_failed t; replay_blocked := replay_blocked t |}.
Definition set_projection_failed (t : Trace) : Trace :=
  {| inner := inner t; attempt := attempt t; current_phase := current_phase t; first_progress_seen := first_progress_seen t;
     progress_seen := progress_seen t; projection_failed := true; replay_blocked := replay_blocked t |}.
Definition block_replay (blocked : bool) (t : Trace) : Trace :=
  {| inner := inner t; attempt := attempt t; current_phase := current_phase t; first_progress_seen := first_progress_seen t;
     progress_seen := progress_seen t; projection_failed := projection_failed t; replay_blocked := replay_blocked t || blocked |}.
Definition set_progress (attempt : N) (first any : bool) (t : Trace) : Trace :=
  {| inner := inner t; attempt := attempt; current_phase := current_phase t; first_progress_seen := first; progress_seen := any;
     projection_failed := projection_failed t; replay_blocked := replay_blocked t |}.

Definition record_projection_result (r : S * result unit LlmError) (t : Trace) : Trace * result unit LlmError :=
  let t := set_inner (fst r) t in
  (if is_ok (snd r) then t else set_projection_failed t, snd r).

Definition project_model_event (event : LlmEvent) (t : Trace) : Trace * result unit LlmError :=
  let t := block_replay true t in record_projection_result (push event (inner t)) t.
Definition project_provider_phase (event : ProviderPhaseEvent) (t : Trace) : Trace * result unit LlmError :=
  record_projection_result (provider_phase event (inner t)) t.

(** [for event in events { sink.push(event)?; }] *)
Fixpoint push_events (events : list LlmEvent) (t : Trace) : Trace * result unit LlmError :=
  match events with
  | [] => (t, Ok tt)
  | event :: events =>
    match project_model_event event t with
    | (t, Ok _) => push_events events t
    | (t, Err e) => (t, Err e)
    end
  end.

Definition plain_event (phase : ProviderPhase) (t : Trace) : ProviderPhaseEvent :=
  {| event_phase := phase; event_attempt := attempt t; terminal_status := None; event_usage := None; event_failure := None |}.

Definition phase (p : ProviderPhase) (t : Trace) : Trace * result unit LlmError :=
  let t := set_phase p t in project_provider_phase (plain_event p t) t.

Definition begin_attempt (attempt : N) (t : Trace) : Trace * result unit LlmError :=
  phase AttemptStarted (set_progress attempt false false t).

Definition record_progress (t : Trace) : Trace * result unit LlmError :=
  let first := first_progress_seen t in
  let t := set_progress (attempt t) true true t in
  if first then (t, Ok tt) else phase FirstProgress t.

(** [to_string] of an error. *)
Definition in_parens (code : option text) : text := match code with Some code => lit " (" ++ code ++ lit ")" | None => [] end.
Definition display_surface (surface : ProviderStreamLimit) : text :=
  match surface with
  | RawBytes => lit "raw bytes"
  | EventCount => lit "event count"
  | ToolCallCount => lit "tool-call count"
  | ToolCallArgumentBytes => lit "tool-call argument bytes"
  | DurationMs => lit "duration milliseconds"
  end.
Definition display_error (display_failure : ProviderFailure -> text) (e : LlmError) : text :=
  match e with
  | HttpError _ _ message => message
  | JsonError shown => lit "llm json error: " ++ shown
  | ProviderResponseStartTimeout timeout_ms => lit "provider response-start deadline expired after " ++ show_N timeout_ms ++ lit "ms"
  | ProviderStreamIdleTimeout timeout_ms => lit "provider stream was idle for " ++ show_N timeout_ms ++ lit "ms"
  | ProviderRequestTimeout timeout_ms => lit "provider request timed out after " ++ show_N timeout_ms ++ lit "ms"
  | ProviderRequestLimitExceeded shown => shown
  | ProviderRequestImage shown => lit "provider request image was rejected: " ++ shown
  | ProviderStreamLimitExceeded surface actual maximum =>
    lit "provider stream " ++ display_surface surface ++ lit " " ++ show_N actual ++ lit " exceeds the admitted limit " ++ show_N maximum
  | ProviderRejected status code param message =>
    lit "provider rejected the request" ++ match status with Some status => lit " with status " ++ show_N status | None => [] end ++
    in_parens code ++ match param with Some param => lit " for " ++ param | None => [] end ++ lit ": " ++ message
  | ProviderGenerationFailed response_id code message =>
    lit "provider generation failed" ++ match response_id with Some id => lit " for response " ++ id | None => [] end ++
    in_parens code ++ lit ": " ++ message
  | IncompleteResponse reason _ => lit "provider returned an incomplete response: " ++ reason
  | ProviderFailed failure _ => display_failure failure
  | LlmMessage message => message
  | OtherLlmError shown => shown
  end.

Context (display_failure : ProviderFailure -> text).

Definition classify_failure (projection_failed : bool) (current_phase : ProviderPhase) (source : LlmError)
    : ProviderFailureKind * option N * option text :=
  if projection_failed then (EventProjectionKind, None, None)
  else
    match source with
    | HttpError true _ _ => (ConnectKind, None, None)
    | HttpError false true _ => (DecodeKind, None, None)
    | ProviderRequestTimeout _ => (RequestTimeoutKind, None, None)
    | ProviderResponseStartTimeout _ => (ResponseStartTimeoutKind, None, None)
    | ProviderStreamIdleTimeout _ => (StreamIdleTimeoutKind, None, None)
    | ProviderStreamLimitExceeded _ _ _ => (ProtocolKind, None, None)
    | ProviderRejected status code _ _ => (HttpStatusKind, status, code)
    | ProviderGenerationFailed _ code _ => (GenerationKind, None, code)
    | IncompleteResponse _ _ => (GenerationKind, None, None)
    | JsonError _ => (DecodeKind, None, None)
    | LlmMessage _ =>
      match current_phase with
      | HeadersReceived | FirstProgress | LastProgress => (ProtocolKind, None, None)
      | _ => (OtherKind, None, None)
      end
    | _ => (OtherKind, None, None)
    end.

Definition failure_for_origin (source : LlmError) (projection_failed : bool) (t : Trace) : ProviderFailure :=
  let '(kind, status, code) := classify_failure projection_failed (current_phase t) source in
  {| failure_phase := current_phase t; failure_attempt := attempt t; failure_kind := kind; failure_status := status;
     failure_code := code; failure_message := display_error display_failure source |}.
Definition failure_for (source : LlmError) (t : Trace) : ProviderFailure := failure_for_origin source (projection_failed t) t.
Definition provider_failure_for (source : LlmError) (t : Trace) : ProviderFailure := failure_for_origin source false t.

Definition normalize_projection_failure (projection_source : LlmError) (pending : option LlmError) (t : Trace) : LlmError :=
  ProviderFailed (failure_for projection_source t) (default projection_source pending).
Definition normalize_failure (source : LlmError) (t : Trace) : LlmError := normalize_projection_failure source None t.
End Trace.
