(* ===== verification/ChatStream.v ===== *)
(** * The chat completion stream (src/src/llm/openai_compat.rs, src/src/llm/dto.rs)

    Chunks are applied to an accumulator as a transaction: what a chunk changed before it is refused is undone
    from a journal.  A text is a list of characters; cutting one inside a character panics, which is
    [None].  The parser of a chunk, the waits and the sink are the environment's. *)
From S2P Require Import Prelude.
From S2P Require Import Text.
From S2P Require Import Utf8.
From S2P Require Import ContextManager.
From S2P Require Import ContextTokens.
From S2P Require Import ProviderStream.

Open Scope N_scope.

(** ** Chunks as the provider sends them *)

Record OpenAiToolCallFunctionDelta := { function_name : option text; function_arguments : option text }.
Record OpenAiToolCallDelta := { delta_index : N; delta_id : option text; delta_function : option OpenAiToolCallFunctionDelta }.
Record OpenAiDelta := {
  content : option text;
  delta_tool_calls : option (list OpenAiToolCallDelta);
  reasoning_content : option text;
  reasoning : option text;
  additional_fields : list (text * JsonShape)
}.
Record OpenAiChoice := { choice_index : N; choice_delta : OpenAiDelta; choice_finish_reason : option text }.
Record OpenAiUsage := {
  usage_prompt_tokens : N; usage_completion_tokens : N; usage_total_tokens : N;
  usage_reasoning_tokens : option N;
  completion_tokens_details : option (option N)
}.
Record OpenAiChatChunk := { choices : list OpenAiChoice; chunk_usage : option OpenAiUsage; chunk_error : option OpenAiErrorPayload }.

Definition parse_finish_reason (value : text) : result FinishReason LlmError :=
  if text_eqb value (lit "stop") then Ok Stop
  else if text_eqb value (lit "tool_calls") || text_eqb value (lit "function_call") then Ok ToolCall
  else if text_eqb value (lit "length") then Ok Length
  else if text_eqb value (lit "cancelled") || text_eqb value (lit "canceled") then Ok FinishCancelled
  else if text_eqb value (lit "error") || text_eqb value (lit "content_filter") then Ok FinishError
  else Err (LlmMessage (lit "openai-compatible provider returned unknown finish_reason `" ++ value ++ lit "`")).

Definition to_usage (value : OpenAiUsage) : result TokenUsage LlmError :=
  let usage reasoning :=
    {| prompt_tokens := usage_prompt_tokens value; completion_tokens := usage_completion_tokens value;
       total_tokens := usage_total_tokens value; reasoning_tokens := reasoning |} in
  match usage_reasoning_tokens value, completion_tokens_details value ≫= id with
  | Some legacy, Some nested =>
    if negb (legacy =? nested)
    then Err (LlmMessage (lit "openai-compatible usage contains conflicting reasoning token counts: reasoning_tokens=" ++ show_N legacy ++
                          lit ", completion_tokens_details.reasoning_tokens=" ++ show_N nested))
    else Ok (usage (Some legacy))
  | Some value, None | None, Some value => Ok (usage (Some value))
  | None, None => Ok (usage None)
  end.

Definition same_token_usage (left right : TokenUsage) : bool :=
  (prompt_tokens left =? prompt_tokens right) && (completion_tokens left =? completion_tokens right) &&
  (total_tokens left =? total_tokens right) && bool_decide (reasoning_tokens left = reasoning_tokens right).

(** ** Text that may be an artifact of the chat template *)

Definition CHATML_ARTIFACT_HOLDBACK_MAX_BYTES : N := 256.
Definition CHATML_BARE_START_ARTIFACT : text := lit "<|im_start|>".
Definition CHATML_ROLE_BOUNDARY_ARTIFACTS : list text :=
  [lit "<|im_start|>system"; lit "<|im_start|>developer"; lit "<|im_start|>user"; lit "<|im_start|>assistant"; lit "<|im_start|>tool";
   lit "<|im_end|>"].

Inductive ChatmlArtifactCandidate := Complete | Prefix | No.
#[export] Instance candidate_eq_dec : EqDecision ChatmlArtifactCandidate.
Proof. solve_decision. Defined.

(** What remains behind the first artifact of the list the value starts with. *)
Fixpoint strip_artifact (artifacts : list text) (value : text) : option text :=
  match artifacts with
  | [] => None
  | artifact :: artifacts =>
    match strip_prefix artifact value with Some value => Some value | None => strip_artifact artifacts value end
  end.

(** Every turn of the loops removes a character, so the length is enough fuel. *)
Fixpoint classify_loop (fuel : nat) (value : text) : ChatmlArtifactCandidate :=
  match fuel with
  | O => No
  | S fuel =>
    let value := trim_start value in
    if is_empty value then Complete
    else
      match strip_artifact CHATML_ROLE_BOUNDARY_ARTIFACTS value with
      | Some value => classify_loop fuel value
      | None => if existsb (fun artifact => starts_with value artifact) CHATML_ROLE_BOUNDARY_ARTIFACTS then Prefix else No
      end
  end.
Definition classify_chatml_artifact_candidate (value : text) : ChatmlArtifactCandidate := classify_loop (S (length value)) value.

Fixpoint complete_loop (fuel : nat) (value : text) : bool :=
  match fuel with
  | O => false
  | S fuel =>
    let value := trim_start value in
    if is_empty value then true
    else
      match strip_artifact CHATML_ROLE_BOUNDARY_ARTIFACTS value with
      | Some value => complete_loop fuel value
      | None =>
        match strip_prefix CHATML_BARE_START_ARTIFACT value with
        | Some remaining => complete_loop fuel remaining
        | None => false
        end
      end
  end.
Definition is_complete_chatml_artifact_sequence (value : text) : bool := complete_loop (S (length value)) value.

Record ChatAssistantTextHoldback := { pending : text; passthrough : bool }.
Definition empty_holdback : ChatAssistantTextHoldback := {| pending := []; passthrough := false |}.

(** [flush_pending] appends to the events; it leaves nothing pending. *)
Definition flush_pending (h : ChatAssistantTextHoldback) : list LlmEvent :=
  if is_empty (pending h) then [] else [TextDelta (pending h)].
Definition passed_through : ChatAssistantTextHoldback := {| pending := []; passthrough := true |}.

Definition push_delta (delta : text) (h : ChatAssistantTextHoldback) : ChatAssistantTextHoldback * list LlmEvent :=
  if passthrough h then (h, [TextDelta delta])
  else if CHATML_ARTIFACT_HOLDBACK_MAX_BYTES <? saturating_add_usize (byte_len (pending h)) (byte_len delta)
  then (passed_through, flush_pending h ++ (if is_empty delta then [] else [TextDelta delta]))
  else
    let h := {| pending := pending h ++ delta; passthrough := false |} in
    if bool_decide (classify_chatml_artifact_candidate (pending h) = No) && negb (is_complete_chatml_artifact_sequence (pending h))
    then (passed_through, flush_pending h)
    else (h, []).

Definition holdback_finish (finish_reason : FinishReason) (has_complete_tool_calls : bool) (h : ChatAssistantTextHoldback)
    : ChatAssistantTextHoldback * list LlmEvent :=
  if passthrough h then (h, [])
  else
    let suppress := bool_decide (finish_reason = ToolCall) && has_complete_tool_calls && is_complete_chatml_artifact_sequence (pending h) in
    (passed_through, if suppress then [] else flush_pending h).

Definition flush_before_early_exit (h : ChatAssistantTextHoldback) : ChatAssistantTextHoldback * list LlmEvent :=
  if passthrough h then (h, []) else (passed_through, flush_pending h).

(** ** Tool calls under construction *)

Record PartialToolCall := {
  call_id : option text;
  tool_name : option text;
  arguments : text;
  saw_arguments_field : bool;
  emitted_len : N;
  started : bool
}.
Definition empty_call : PartialToolCall :=
  {| call_id := None; tool_name := None; arguments := []; saw_arguments_field := false; emitted_len := 0; started := false |}.

Definition record_call_id (id : text) (delta_index : N) (c : PartialToolCall) : result PartialToolCall LlmError :=
  match call_id c with
  | Some existing =>
    if negb (text_eqb existing id)
    then Err (LlmMessage (lit "openai-compatible stream changed the call id for tool delta index " ++ show_N delta_index))
    else Ok c
  | None =>
    Ok {| call_id := Some id; tool_name := tool_name c; arguments := arguments c; saw_arguments_field := saw_arguments_field c;
          emitted_len := emitted_len c; started := started c |}
  end.

Definition record_tool_name (name : text) (delta_index : N) (c : PartialToolCall) : result PartialToolCall LlmError :=
  match tool_name c with
  | Some existing =>
    if negb (text_eqb existing name)
    then Err (LlmMessage (lit "openai-compatible stream changed the tool name for delta index " ++ show_N delta_index))
    else Ok c
  | None =>
    Ok {| call_id := call_id c; tool_name := Some name; arguments := arguments c; saw_arguments_field := saw_arguments_field c;
          emitted_len := emitted_len c; started := started c |}
  end.

Definition set_arguments (args : text) (saw : bool) (c : PartialToolCall) : PartialToolCall :=
  {| call_id := call_id c; tool_name := tool_name c; arguments := args; saw_arguments_field := saw;
     emitted_len := emitted_len c; started := started c |}.
Definition set_started (c : PartialToolCall) : PartialToolCall :=
  {| call_id := call_id c; tool_name := tool_name c; arguments := arguments c; saw_arguments_field := saw_arguments_field c;
     emitted_len := emitted_len c; started := true |}.
Definition set_emitted (n : N) (c : PartialToolCall) : PartialToolCall :=
  {| call_id := call_id c; tool_name := tool_name c; arguments := arguments c; saw_arguments_field := saw_arguments_field c;
     emitted_len := n; started := started c |}.

Definition blank (s : text) : bool := is_empty (trim s).

Definition identity (c : PartialToolCall) : option (text * text) :=
  match call_id c, tool_name c with
  | Some id, Some name => if blank id || blank name then None else Some (id, name)
  | _, _ => None
  end.

(** The unsent part of the arguments; [None] would be a slice inside a character. *)
Definition arguments_delta (c : PartialToolCall) : option (PartialToolCall * text) :=
  match slice_from (emitted_len c) (arguments c) with
  | Some delta => Some (set_emitted (byte_len (arguments c)) c, delta)
  | None => None
  end.

Record ChatStreamAccumulator := {
  finish_reason : option FinishReason;
  tool_calls : gmap N PartialToolCall;
  call_id_to_delta_index : gmap text N;
  assistant_text : ChatAssistantTextHoldback;
  reasoning_text : option text
}.
Definition empty_accumulator : ChatStreamAccumulator :=
  {| finish_reason := None; tool_calls := ∅; call_id_to_delta_index := ∅; assistant_text := empty_holdback; reasoning_text := None |}.

Definition set_calls (m : gmap N PartialToolCall) (a : ChatStreamAccumulator) : ChatStreamAccumulator :=
  {| finish_reason := finish_reason a; tool_calls := m; call_id_to_delta_index := call_id_to_delta_index a;
     assistant_text := assistant_text a; reasoning_text := reasoning_text a |}.
Definition set_aliases (m : gmap text N) (a : ChatStreamAccumulator) : ChatStreamAccumulator :=
  {| finish_reason := finish_reason a; tool_calls := tool_calls a; call_id_to_delta_index := m;
     assistant_text := assistant_text a; reasoning_text := reasoning_text a |}.
Definition set_finish (f : option FinishReason) (a : ChatStreamAccumulator) : ChatStreamAccumulator :=
  {| finish_reason := f; tool_calls := tool_calls a; call_id_to_delta_index := call_id_to_delta_index a;
     assistant_text := assistant_text a; reasoning_text := reasoning_text a |}.
Definition set_text (h : ChatAssistantTextHoldback) (a : ChatStreamAccumulator) : ChatStreamAccumulator :=
  {| finish_reason := finish_reason a; tool_calls := tool_calls a; call_id_to_delta_index := call_id_to_delta_index a;
     assistant_text := h; reasoning_text := reasoning_text a |}.
Definition set_reasoning (r : option text) (a : ChatStreamAccumulator) : ChatStreamAccumulator :=
  {| finish_reason := finish_reason a; tool_calls := tool_calls a; call_id_to_delta_index := call_id_to_delta_index a;
     assistant_text := assistant_text a; reasoning_text := r |}.

(** ** The journal of a chunk *)

(** [String::truncate]. *)
Definition truncate (n : N) (s : text) : option text := if byte_len s <=? n then Some s else slice_to n s.

Record PartialToolCallCheckpoint := {
  checkpoint_index : N;
  existed : bool;
  call_id_was_none : bool;
  tool_name_was_none : bool;
  arguments_len : N;
  checkpoint_saw_arguments_field : bool;
  checkpoint_emitted_len : N;
  checkpoint_started : bool
}.

Definition capture (m : gmap N PartialToolCall) (delta_index : N) : PartialToolCallCheckpoint :=
  match m !! delta_index with
  | None =>
    {| checkpoint_index := delta_index; existed := false; call_id_was_none := true; tool_name_was_none := true; arguments_len := 0;
       checkpoint_saw_arguments_field := false; checkpoint_emitted_len := 0; checkpoint_started := false |}
  | Some c =>
    {| checkpoint_index := delta_index; existed := true; call_id_was_none := bool_decide (call_id c = None);
       tool_name_was_none := bool_decide (tool_name c = None); arguments_len := byte_len (arguments c);
       checkpoint_saw_arguments_field := saw_arguments_field c; checkpoint_emitted_len := emitted_len c; checkpoint_started := started c |}
  end.

Definition rollback_call (k : PartialToolCallCheckpoint) (m : gmap N PartialToolCall) : option (gmap N PartialToolCall) :=
  if negb (existed k) then Some (delete (checkpoint_index k) m)
  else
    match m !! checkpoint_index k with
    | None => Some m
    | Some c =>
      match truncate (arguments_len k) (arguments c) with
      | None => None
      | Some arguments =>
        Some (<[checkpoint_index k :=
          {| call_id := if call_id_was_none k then None else call_id c; tool_name := if tool_name_was_none k then None else tool_name c;
             arguments := arguments; saw_arguments_field := checkpoint_saw_arguments_field k; emitted_len := checkpoint_emitted_len k;
             started := checkpoint_started k |}]> m)
      end
    end.

Record ChatChunkJournal := {
  original_finish_reason : option FinishReason;
  tool_call_checkpoints : list PartialToolCallCheckpoint;
  inserted_call_id_aliases : list text;
  original_assistant_text : ChatAssistantTextHoldback;
  original_reasoning_len : option N
}.

Definition journal_new (a : ChatStreamAccumulator) : ChatChunkJournal :=
  {| original_finish_reason := finish_reason a; tool_call_checkpoints := []; inserted_call_id_aliases := [];
     original_assistant_text := assistant_text a; original_reasoning_len := byte_len <$> reasoning_text a |}.

Fixpoint rollback_calls (checkpoints : list PartialToolCallCheckpoint) (m : gmap N PartialToolCall) : option (gmap N PartialToolCall) :=
  match checkpoints with
  | [] => Some m
  | k :: checkpoints => match rollback_call k m with None => None | Some m => rollback_calls checkpoints m end
  end.

Definition rollback (j : ChatChunkJournal) (a : ChatStreamAccumulator) : option ChatStreamAccumulator :=
  let aliases := fold_left (fun m alias => delete alias m) (rev (inserted_call_id_aliases j)) (call_id_to_delta_index a) in
  match rollback_calls (rev (tool_call_checkpoints j)) (tool_calls a) with
  | None => None
  | Some calls =>
    let restored reasoning :=
      {| finish_reason := original_finish_reason j; tool_calls := calls; call_id_to_delta_index := aliases;
         assistant_text := original_assistant_text j; reasoning_text := reasoning |} in
    match original_reasoning_len j with
    | None => Some (restored None)
    | Some length =>
      match reasoning_text a with
      | None => Some (restored None)
      | Some reasoning => (fun reasoning => restored (Some reasoning)) <$> truncate length reasoning
      end
    end
  end.

(** ** The transaction

    Its state is what the function holds [&mut] references to, with the events collected so far; a refused
    chunk keeps its changes until they are rolled back.  [None] is a panic. *)
Record ChunkTxn := {
  acc : ChatStreamAccumulator;
  budget_stage : ProviderStreamBudgetStage;
  journal : ChatChunkJournal;
  collected : list LlmEvent
}.

Definition txn (A : Type) : Type := ChunkTxn -> option (ChunkTxn * result A LlmError).
Definition ret {A} (a : A) : txn A := fun t => Some (t, Ok a).
Definition fail {A} (e : LlmError) : txn A := fun t => Some (t, Err e).
Definition bind {A B} (m : txn A) (k : A -> txn B) : txn B := fun t =>
  match m t with
  | None => None
  | Some (t, Err e) => Some (t, Err e)
  | Some (t, Ok a) => k a t
  end.
Definition reads {A} (f : ChunkTxn -> A) : txn A := fun t => Some (t, Ok (f t)).
Definition lift {A} (r : result A LlmError) : txn A := fun t => Some (t, r).

Notation "'let!' x := m 'in' k" := (bind m (fun x => k)) (at level 10, x pattern, m at level 100, k at level 200) : rust_scope.

Definition modify_acc (f : ChatStreamAccumulator -> ChatStreamAccumulator) : txn unit := fun t =>
  Some ({| acc := f (acc t); budget_stage := budget_stage t; journal := journal t; collected := collected t |}, Ok tt).
Definition emit (events : list LlmEvent) : txn unit := fun t =>
  Some ({| acc := acc t; budget_stage := budget_stage t; journal := journal t; collected := collected t ++ events |}, Ok tt).
Definition on_stage (f : ProviderStreamBudgetStage -> result ProviderStreamBudgetStage LlmError) : txn unit := fun t =>
  Some (match f (budget_stage t) with
        | Ok s => ({| acc := acc t; budget_stage := s; journal := journal t; collected := collected t |}, Ok tt)
        | Err e => (t, Err e)
        end).
Definition journal_alias (alias : text) : txn unit := fun t =>
  let j := journal t in
  Some ({| acc := acc t; budget_stage := budget_stage t;
           journal := {| original_finish_reason := original_finish_reason j; tool_call_checkpoints := tool_call_checkpoints j;
                         inserted_call_id_aliases := inserted_call_id_aliases j ++ [alias];
                         original_assistant_text := original_assistant_text j; original_reasoning_len := original_reasoning_len j |};
           collected := collected t |}, Ok tt).
Definition checkpoint_tool_call (delta_index : N) : txn unit := fun t =>
  let j := journal t in
  Some ({| acc := acc t; budget_stage := budget_stage t;
           journal := {| original_finish_reason := original_finish_reason j;
                         tool_call_checkpoints := tool_call_checkpoints j ++ [capture (tool_calls (acc t)) delta_index];
                         inserted_call_id_aliases := inserted_call_id_aliases j;
                         original_assistant_text := original_assistant_text j; original_reasoning_len := original_reasoning_len j |};
           collected := collected t |}, Ok tt).

(** [tool_calls.entry(delta_index).or_default()] and what is done to the entry; a refused change leaves it as it is. *)
Definition with_entry (delta_index : N) (f : PartialToolCall -> result PartialToolCall LlmError) : txn unit := fun t =>
  let m := tool_calls (acc t) in
  let c := default empty_call (m !! delta_index) in
  let '(c, r) := match f c with Ok c => (c, Ok tt) | Err e => (c, Err e) end in
  Some ({| acc := set_calls (<[delta_index := c]> m) (acc t); budget_stage := budget_stage t; journal := journal t; collected := collected t |}, r).

Definition bind_call_id (delta_index : N) (id : text) : txn (option text) :=
  let! existing := reads (fun t => call_id_to_delta_index (acc t) !! id) in
  match existing with
  | Some existing_index =>
    if negb (existing_index =? delta_index)
    then fail (LlmMessage (lit "openai-compatible stream associated provider call id `" ++ id ++ lit "` with multiple tool delta indices (`" ++
                           show_N existing_index ++ lit "` and `" ++ show_N delta_index ++ lit "`)"))
    else
      let! _ := with_entry delta_index (record_call_id id delta_index) in
      ret None
  | None =>
    let! _ := with_entry delta_index (record_call_id id delta_index) in
    let! _ := modify_acc (fun a => set_aliases (<[id := delta_index]> (call_id_to_delta_index a)) a) in
    ret (Some id)
  end.

Definition budget_key (delta_index : N) : text := lit "chat:" ++ show_N delta_index.

(** [&mut entry] after [entry().or_default()]. *)
Definition read_entry (delta_index : N) : txn PartialToolCall := reads (fun t => default empty_call (tool_calls (acc t) !! delta_index)).

Definition start_call (delta_index : N) : txn unit :=
  let! entry := read_entry delta_index in
  if started entry then ret tt
  else
    match identity entry with
    | Some (id, name) =>
      let! _ := emit [ToolCallStart id name] in
      with_entry delta_index (fun c => Ok (set_started c))
    | None => ret tt
    end.

Definition emit_arguments (delta_index : N) : txn unit :=
  let! entry := read_entry delta_index in
  if started entry && (emitted_len entry <? byte_len (arguments entry)) then
    match arguments_delta entry with
    | None => fun _ => None
    | Some (entry', delta) =>
      let! _ := with_entry delta_index (fun _ => Ok entry') in
      emit [ToolCallArgsDelta (default [] (call_id entry)) delta]
    end
  else ret tt.

Definition apply_tool_call_delta (delta : OpenAiToolCallDelta) (stream_budget : ProviderStreamBudget) : txn unit :=
  let index := delta_index delta in
  let key := budget_key index in
  let! _ := on_stage (stage_tool_call stream_budget key) in
  let! _ :=
    match delta_id delta with
    | None => ret tt
    | Some id =>
      let! inserted := bind_call_id index id in
      match inserted with Some alias => journal_alias alias | None => ret tt end
    end in
  let! _ := with_entry index Ok in
  let! _ :=
    match delta_function delta with
    | None => ret tt
    | Some function =>
      let! _ := match function_name function with None => ret tt | Some name => with_entry index (record_tool_name name index) end in
      match function_arguments function with
      | None => ret tt
      | Some args =>
        let! _ := with_entry index (fun c => Ok (set_arguments (arguments c) true c)) in
        let! _ := on_stage (stage_tool_arguments stream_budget key (byte_len args)) in
        with_entry index (fun c => Ok (set_arguments (arguments c ++ args) (saw_arguments_field c) c))
      end
    end in
  let! _ := start_call index in
  emit_arguments index.

Definition record_finish_reason (value : FinishReason) : txn unit :=
  let! existing := reads (fun t => finish_reason (acc t)) in
  match existing with
  | Some existing =>
    if bool_decide (existing = value) then ret tt
    else fail (LlmMessage (lit "openai-compatible stream returned conflicting finish reasons `" ++ debug_finish_reason existing ++ lit "` and `" ++
                           debug_finish_reason value ++ lit "` for choice index `0`"))
  | None => modify_acc (set_finish (Some value))
  end.

(** ** The end of a response *)

Definition stream_missing_tool_name_error (delta_index : N) : LlmError :=
  LlmMessage (lit "openai-compatible stream ended with tool-call arguments but no function.name for delta index " ++ show_N delta_index).

Definition validate_entry (delta_index : N) (entry : PartialToolCall) : result unit LlmError :=
  if match call_id entry with None => true | Some id => blank id end
  then Err (LlmMessage (lit "openai-compatible stream ended with a tool call that has no call id at delta index " ++ show_N delta_index))
  else
    match tool_name entry with
    | None => Err (stream_missing_tool_name_error delta_index)
    | Some name =>
      if blank name then Err (stream_missing_tool_name_error delta_index)
      else if negb (saw_arguments_field entry)
      then Err (LlmMessage (lit "openai-compatible stream ended without an arguments field for tool `" ++ name ++ lit "` at delta index " ++ show_N delta_index))
      else Ok tt
    end.

Fixpoint validate_entries (entries : list (N * PartialToolCall)) : result bool LlmError :=
  match entries with
  | [] => Ok true
  | (delta_index, entry) :: entries => let? _ := validate_entry delta_index entry in validate_entries entries
  end.

Section Order.
Context `{HashIteration}.

Definition validate_streamed_tool_calls (calls : gmap N PartialToolCall) : result bool LlmError :=
  if bool_decide (calls = ∅) then Ok false else validate_entries (hash_iter calls).

Definition resolve_finish_reason (finish_reason : option FinishReason) (has_tool_calls : bool) : result FinishReason LlmError :=
  match finish_reason, has_tool_calls with
  | None, _ => Err (LlmMessage (lit "openai-compatible stream ended without a finish_reason"))
  | Some ToolCall, false => Err (LlmMessage (lit "openai-compatible stream ended with finish_reason=tool_calls but no complete tool call"))
  | Some ToolCall, true => Ok ToolCall
  | Some finish_reason, true =>
    Err (LlmMessage (lit "openai-compatible stream ended with finish_reason=" ++ debug_finish_reason finish_reason ++ lit " and a tool-call payload"))
  | Some finish_reason, false => Ok finish_reason
  end.

(** ** Applying a chunk *)

Record ChatChunkUpdate := { update_events : list LlmEvent; update_terminal : bool }.

Fixpoint apply_deltas (deltas : list OpenAiToolCallDelta) (stream_budget : ProviderStreamBudget) : txn unit :=
  match deltas with
  | [] => ret tt
  | delta :: deltas =>
    let! _ := checkpoint_tool_call (delta_index delta) in
    let! _ := apply_tool_call_delta delta stream_budget in
    apply_deltas deltas stream_budget
  end.

(** The two names of the private reasoning field. *)
Definition choose_reasoning (delta : OpenAiDelta) : result (option text) LlmError :=
  match reasoning_content delta, reasoning delta with
  | Some first, Some second =>
    if negb (text_eqb first second)
    then Err (LlmMessage (lit "openai-compatible stream returned conflicting private reasoning aliases"))
    else Ok (Some first)
  | Some value, None | None, Some value => Ok (Some value)
  | None, None => Ok None
  end.

(** One turn of the loop over the choices; whether it brought the finish reason. *)
Definition apply_choice (choice : OpenAiChoice) (stream_budget : ProviderStreamBudget) : txn bool :=
  if negb (choice_index choice =? 0)
  then fail (LlmMessage (lit "openai-compatible stream returned unsupported choice index `" ++ show_N (choice_index choice) ++
                         lit "`; moyAI admits exactly choice index `0`"))
  else
    let delta := choice_delta choice in
    let! reasoning := lift (choose_reasoning delta) in
    let! _ :=
      match reasoning with
      | None => ret tt
      | Some value => modify_acc (fun a => set_reasoning (Some (default [] (reasoning_text a) ++ value)) a)
      end in
    let! _ :=
      match content delta with
      | None => ret tt
      | Some value =>
        let! r := reads (fun t => push_delta value (assistant_text (acc t))) in
        let! _ := modify_acc (set_text (fst r)) in
        emit (snd r)
      end in
    let! _ := match delta_tool_calls delta with None => ret tt | Some deltas => apply_deltas deltas stream_budget end in
    match choice_finish_reason choice with
    | None => ret false
    | Some value =>
      let! finish := lift (parse_finish_reason value) in
      let! _ := record_finish_reason finish in
      ret true
    end.

Fixpoint apply_choices (choices : list OpenAiChoice) (stream_budget : ProviderStreamBudget) (saw_terminal_signal : bool) : txn bool :=
  match choices with
  | [] => ret saw_terminal_signal
  | choice :: choices =>
    let! terminal := apply_choice choice stream_budget in
    apply_choices choices stream_budget (saw_terminal_signal || terminal)
  end.

Definition is_role_field (field : text * JsonShape) : bool :=
  text_eqb (fst field) (lit "role") && match snd field with ShapeString s => text_eqb s (lit "assistant") | _ => false end.

Definition ok_finish (value : text) : option FinishReason := match parse_finish_reason value with Ok f => Some f | Err _ => None end.

(** A terminal choice that is repeated with the final usage. *)
Definition repeats_terminal (chunk : OpenAiChatChunk) (choice : OpenAiChoice) (finished : option FinishReason) : bool :=
  let delta := choice_delta choice in
  match chunk_usage chunk with Some _ => true | None => false end &&
  (choice_index choice =? 0) &&
  bool_decide (choice_finish_reason choice ≫= ok_finish = finished) &&
  match content delta with None => true | Some s => is_empty s end &&
  match delta_tool_calls delta with None => true | Some _ => false end &&
  match reasoning_content delta with None => true | Some _ => false end &&
  match reasoning delta with None => true | Some _ => false end &&
  forallb is_role_field (additional_fields delta).

(** The body once the number of choices was checked. *)
Definition apply_new_choices (chunk : OpenAiChatChunk) (stream_budget : ProviderStreamBudget) : txn ChatChunkUpdate :=
  let! saw_terminal_signal := apply_choices (choices chunk) stream_budget false in
  let! _ :=
    if saw_terminal_signal then
      let! a := reads acc in
      let! complete := lift (validate_streamed_tool_calls (tool_calls a)) in
      let! finish := lift (resolve_finish_reason (finish_reason a) complete) in
      let '(h, events) := holdback_finish finish complete (assistant_text a) in
      let! _ := modify_acc (set_text h) in
      emit events
    else ret tt in
  reads (fun t => {| update_events := collected t; update_terminal := saw_terminal_signal |}).

Definition apply_chunk_transaction (chunk : OpenAiChatChunk) (stream_budget : ProviderStreamBudget) : txn ChatChunkUpdate :=
  match choices chunk with
  | _ :: _ :: _ =>
    fail (LlmMessage (lit "openai-compatible stream returned " ++ show_nat (length (choices chunk)) ++
                      lit " choice entries in one chunk; moyAI admits at most one choice entry for index `0`"))
  | choice :: _ =>
    let! finished := reads (fun t => finish_reason (acc t)) in
    match finished with
    | None => apply_new_choices chunk stream_budget
    | Some _ =>
      if repeats_terminal chunk choice finished then ret {| update_events := []; update_terminal := false |}
      else fail (LlmMessage (lit "openai-compatible stream returned a non-empty choices chunk after choice index `0` was terminal"))
    end
  | [] => apply_new_choices chunk stream_budget
  end.

Definition apply_chunk (chunk : OpenAiChatChunk) (stream_budget : ProviderStreamBudget) (a : ChatStreamAccumulator)
    : option (ChatStreamAccumulator * ProviderStreamBudget * result ChatChunkUpdate LlmError) :=
  match apply_chunk_transaction chunk stream_budget
          {| acc := a; budget_stage := empty_stage; journal := journal_new a; collected := [] |} with
  | None => None
  | Some (t, Ok update) => Some (acc t, commit_stage (budget_stage t) stream_budget, Ok update)
  | Some (t, Err e) => (fun a => (a, stream_budget, Err e)) <$> rollback (journal t) (acc t)
  end.
End Order.
