(* ===== verification/ChatClient.v ===== *)
(** * The chat completion client (src/src/llm/openai_compat.rs)

    One attempt reads a stream to its end; attempts are repeated while the provider answers with a rate
    limit and nothing of an answer was seen; the sink is told how it all ended.  The answers of the
    environment are lists: what a stream yields in turn, what a send yields, how a delay ends. *)
From S2P Require Import Prelude.
From S2P Require Import Text.
From S2P Require Import ContextManager.
From S2P Require Import ContextTokens.
From S2P Require Import ProviderStream.
From S2P Require Import ChatStream.

Open Scope N_scope.

(** What one turn of the loop is woken by; behind the last one the stream has ended. *)
Inductive StreamInput :=
  | CancelSeen
  | IdleElapsed
  | SseEvent (data : text)
  | TransportFailed (e : LlmError)
  | SseFailed (shown : text).

(** Of the continuation the reasoning; its scope is the request's. *)
Record LlmResponseSummary := {
  summary_finish_reason : FinishReason;
  summary_usage : option TokenUsage;
  response_id : option text;
  continuation : option text
}.
Definition cancelled_summary (usage : option TokenUsage) : LlmResponseSummary :=
  {| summary_finish_reason := FinishCancelled; summary_usage := usage; response_id := None; continuation := None |}.

Definition stream_missing_terminal_signal_error : LlmError :=
  LlmMessage (lit "openai-compatible stream ended without terminal [DONE] event or finish_reason").

(** What makes a chunk progress that must not be replayed. *)
Definition choice_is_progress (choice : OpenAiChoice) : bool :=
  let delta := choice_delta choice in
  match content delta with Some s => negb (is_empty s) | None => false end ||
  match reasoning_content delta with Some _ => true | None => false end ||
  match reasoning delta with Some _ => true | None => false end ||
  match delta_tool_calls delta with Some calls => negb (is_empty calls) | None => false end ||
  existsb (fun field => negb (is_role_field field)) (additional_fields delta) ||
  match choice_finish_reason choice with Some _ => true | None => false end.
Definition chunk_is_progress (chunk : OpenAiChatChunk) : bool :=
  match chunk_usage chunk with Some _ => true | None => false end || existsb choice_is_progress (choices chunk).

(** [Waiting]: the environment has not answered yet. *)
Inductive Outcome (A : Type) := Panicked | Waiting | Ended (a : A).
Arguments Panicked {A}.
Arguments Waiting {A}.
Arguments Ended {A} a.

Section Client.
Context `{HashIteration} {S : Type} `{LlmEventSink S}.
Context (parse_chunk : text -> result OpenAiChatChunk (N * N)).
Local Abbreviation Trace := (ProviderTraceSink S) (only parsing).

(** ** One stream *)

Record ChatState := {
  accumulator : ChatStreamAccumulator;
  stream_budget : ProviderStreamBudget;
  usage : option TokenUsage;
  saw_terminal_signal : bool;
  sink : Trace
}.
Definition with_sink (t : Trace) (st : ChatState) : ChatState :=
  {| accumulator := accumulator st; stream_budget := stream_budget st; usage := usage st; saw_terminal_signal := saw_terminal_signal st; sink := t |}.
Definition with_budget (b : ProviderStreamBudget) (st : ChatState) : ChatState :=
  {| accumulator := accumulator st; stream_budget := b; usage := usage st; saw_terminal_signal := saw_terminal_signal st; sink := sink st |}.

Definition usage_of_chunk (chunk : OpenAiChatChunk) : result (option TokenUsage) LlmError :=
  match chunk_usage chunk with None => Ok None | Some value => let? usage := to_usage value in Ok (Some usage) end.

(** [usage] conflicts with what an earlier chunk reported. *)
Definition usage_conflicts (existing candidate : option TokenUsage) : bool :=
  match existing, candidate with Some existing, Some candidate => negb (same_token_usage existing candidate) | _, _ => false end.

(** What follows the parsing of a chunk. *)
Definition take_chunk (chunk : OpenAiChatChunk) (st : ChatState) : option (ChatState * result unit LlmError) :=
  let st := with_sink (block_replay (chunk_is_progress chunk) (sink st)) st in
  match chunk_error chunk with
  | Some error => Some (st, Err (ProviderGenerationFailed None (chat_stream_error_code error) (summarize_stream_error error)))
  | None =>
    match usage_of_chunk chunk with
    | Err e => Some (st, Err e)
    | Ok chunk_usage =>
      if usage_conflicts (usage st) chunk_usage
      then Some (st, Err (LlmMessage (lit "openai-compatible stream returned conflicting usage payloads across chunks")))
      else
        match apply_chunk chunk (stream_budget st) (accumulator st) with
        | None => None
        | Some (a, b, r) =>
          match r with
          | Err e =>
            Some ({| accumulator := a; stream_budget := b; usage := usage st; saw_terminal_signal := saw_terminal_signal st; sink := sink st |}, Err e)
          | Ok update =>
            let (t, r) := push_events (update_events update) (sink st) in
            Some ({| accumulator := a; stream_budget := b; usage := match usage st with None => chunk_usage | some => some end;
                     saw_terminal_signal := saw_terminal_signal st || update_terminal update; sink := t |}, r)
          end
        end
    end
  end.

(** An event of the stream; whether it was the last one. *)
Definition take_event (data : text) (st : ChatState) : option (ChatState * result bool LlmError) :=
  let (b, r) := record_event (stream_budget st) in
  let st := with_budget b st in
  match r with
  | Err e => Some (st, Err e)
  | Ok _ =>
    let (t, r) := record_progress (sink st) in
    let st := with_sink t st in
    match r with
    | Err e => Some (st, Err e)
    | Ok _ =>
      if text_eqb data (lit "[DONE]")
      then Some ({| accumulator := accumulator st; stream_budget := stream_budget st; usage := usage st; saw_terminal_signal := true; sink := sink st |},
                 Ok true)
      else
        match parse_chunk data with
        | Err (line, column) =>
          Some (st, Err (LlmMessage (lit "failed to parse openai-compatible stream chunk at line " ++ show_N line ++ lit ", column " ++ show_N column)))
        | Ok chunk =>
          match take_chunk chunk st with
          | None => None
          | Some (st, Ok _) => Some (st, Ok false)
          | Some (st, Err e) => Some (st, Err e)
          end
        end
    end
  end.

(** How the loop was left, with what it did not read. *)
Inductive LoopExit := Broke (ended_by_eof : bool) | Returned (r : result LlmResponseSummary LlmError).

Fixpoint chat_loop (inputs : list StreamInput) (st : ChatState) : option (list StreamInput * ChatState * LoopExit) :=
  match inputs with
  | [] => Some ([], st, Broke true)
  | CancelSeen :: rest => Some (rest, st, Returned (Ok (cancelled_summary (usage st))))
  | IdleElapsed :: rest => Some (rest, st, Returned (Err (timeout_error (stream_budget st))))
  | TransportFailed e :: rest => Some (rest, st, Returned (Err e))
  | SseFailed shown :: rest => Some (rest, st, Returned (Err (LlmMessage (lit "SSE stream error: " ++ shown))))
  | SseEvent data :: rest =>
    match take_event data st with
    | None => None
    | Some (st, Err e) => Some (rest, st, Returned (Err e))
    | Some (st, Ok true) => Some (rest, st, Broke false)
    | Some (st, Ok false) => chat_loop rest st
    end
  end.

(** What follows the loop when it was not returned from. *)
Definition conclude (ended_by_eof : bool) (st : ChatState) : ChatState * result LlmResponseSummary LlmError :=
  if ended_by_eof && negb (saw_terminal_signal st) then (st, Err stream_missing_terminal_signal_error)
  else
    match validate_streamed_tool_calls (tool_calls (accumulator st)) with
    | Err e => (st, Err e)
    | Ok complete =>
      match resolve_finish_reason (finish_reason (accumulator st)) complete with
      | Err e => (st, Err e)
      | Ok finish =>
        let (t, r) := project_model_event (Finished finish (usage st)) (sink st) in
        let st := with_sink t st in
        match r with
        | Err e => (st, Err e)
        | Ok _ =>
          let summary continuation :=
            {| summary_finish_reason := finish; summary_usage := usage st; response_id := None; continuation := continuation |} in
          if bool_decide (finish = ToolCall)
          then ({| accumulator := set_reasoning None (accumulator st); stream_budget := stream_budget st; usage := usage st;
                   saw_terminal_signal := saw_terminal_signal st; sink := sink st |},
                Ok (summary (reasoning_text (accumulator st))))
          else (st, Ok (summary None))
        end
      end
    end.

Definition flush_assistant_text_before_early_exit (st : ChatState) : ChatState * result unit LlmError :=
  let (h, events) := flush_before_early_exit (assistant_text (accumulator st)) in
  let (t, r) := push_events events (sink st) in
  ({| accumulator := set_text h (accumulator st); stream_budget := stream_budget st; usage := usage st;
      saw_terminal_signal := saw_terminal_signal st; sink := t |}, r).

(** The match on the result of the stream. *)
Definition settle_stream (st : ChatState) (r : result LlmResponseSummary LlmError) : ChatState * result LlmResponseSummary LlmError :=
  let flushed :=
    let (st, flushed) := flush_assistant_text_before_early_exit st in
    (st, match flushed with Ok _ => r | Err e => Err e end) in
  match r with
  | Ok summary => if bool_decide (summary_finish_reason summary = FinishCancelled) then flushed else (st, r)
  | Err _ => if projection_failed (sink st) then (st, r) else flushed
  end.

Definition chat_start (limits : ProviderStreamLimits) (idle_timeout_ms : N) (t : Trace) : ChatState :=
  {| accumulator := empty_accumulator; stream_budget := budget_new limits idle_timeout_ms; usage := None; saw_terminal_signal := false; sink := t |}.

(** From the response of a request to the end of its stream. *)
Definition read_stream (limits : ProviderStreamLimits) (idle_timeout_ms : N) (inputs : list StreamInput) (t : Trace)
    : option (list StreamInput * ChatState * result LlmResponseSummary LlmError) :=
  match chat_loop inputs (chat_start limits idle_timeout_ms t) with
  | None => None
  | Some (rest, st, exit) =>
    let (st, r) := match exit with Broke ended_by_eof => conclude ended_by_eof st | Returned r => (st, r) end in
    let (st, r) := settle_stream st r in
    Some (rest, st, r)
  end.

(** ** Sending the request *)

Definition RETRY_INITIAL_DELAY_MS : N := 10000.
Definition RETRY_BACKOFF_FACTOR : N := 2.
Definition RETRY_MAX_DELAY_MS : N := 300000.
Definition saturating_mul_u64 (a b : N) : N := N.min (a * b) u64_max.
Definition saturating_pow_u64 (a b : N) : N := N.min (a ^ b) u64_max.
Definition saturating_add_u16 (a b : N) : N := N.min (a + b) 65535.

Definition retry_delay_ms (attempt : N) (header_delay_ms : option N) : N :=
  match header_delay_ms with
  | Some delay => N.min delay RETRY_MAX_DELAY_MS
  | None => N.min (saturating_mul_u64 RETRY_INITIAL_DELAY_MS (saturating_pow_u64 RETRY_BACKOFF_FACTOR (attempt - 1))) RETRY_MAX_DELAY_MS
  end.

(** The clock and the token during a delay: what remains of the deadline before and after it, whether it is
    cancelled meanwhile, and whether the token is cancelled when it is asked behind it. *)
Record Delay := { remaining_before : option N; cancelled_during : bool; remaining_after : option N; cancelled_after : bool }.

Definition sleep_retry_delay_until_deadline (delay_ms : N) (d : Delay) : bool :=
  let sleep_for := match remaining_before d with None => delay_ms | Some remaining => N.min remaining delay_ms end in
  if sleep_for =? 0 then false
  else if cancelled_during d then false
  else match remaining_after d with None => true | Some remaining => negb (remaining =? 0) end.

Record ProviderDeadlines := { request_timeout_ms : N; max_connect_retries : N }.

Record ResponseFailure := { rejected_status : N; rejected_code : option text; rejected_param : option text; rejected_message : text }.

(** How a send ends; of a response that is no success, how reading its body ends. *)
Inductive SendAnswer :=
  | SendCancelled
  | SendTimedOut
  | SendSucceeded
  | SendRejected (body : result (option ResponseFailure) LlmError)
  | SendFailed (connect decode : bool) (message : text) (delay : Delay).

Context (deadlines : ProviderDeadlines).

Definition within_retries (attempt : N) : bool := attempt <=? max_connect_retries deadlines.
Definition delay_ms (attempt : N) : N := retry_delay_ms (N.min attempt 255) None.
Definition timed_out : LlmError := ProviderRequestTimeout (request_timeout_ms deadlines).

(** The loop of [send_request]; [Ok false] is a cancelled send. *)
Fixpoint send_loop (answers : list SendAnswer) (t : Trace) : Outcome (Trace * result bool LlmError) :=
  match answers with
  | [] => Waiting
  | answer :: answers =>
    let this := saturating_add_u16 (attempt t) 1 in
    match begin_attempt this t with
    | (t, Err e) => Ended (t, Err e)
    | (t, Ok _) =>
      match phase RequestInFlight t with
      | (t, Err e) => Ended (t, Err e)
      | (t, Ok _) =>
        match answer with
        | SendCancelled => Ended (t, Ok false)
        | SendTimedOut => Ended (t, Err timed_out)
        | SendSucceeded | SendRejected _ =>
          match phase HeadersReceived t with
          | (t, Err e) => Ended (t, Err e)
          | (t, Ok _) =>
            match answer with
            | SendRejected (Err e) => Ended (t, Err e)
            | SendRejected (Ok None) => Ended (t, Ok false)
            | SendRejected (Ok (Some failure)) =>
              Ended (t, Err (ProviderRejected (Some (rejected_status failure)) (rejected_code failure) (rejected_param failure) (rejected_message failure)))
            | _ => Ended (t, Ok true)
            end
          end
        | SendFailed connect decode message delay =>
          if connect && within_retries this
          then
            if sleep_retry_delay_until_deadline (delay_ms this) delay then send_loop answers t
            else if cancelled_after delay then Ended (t, Ok false) else Ended (t, Err timed_out)
          else Ended (t, Err (HttpError connect decode message))
        end
      end
    end
  end.

(** ** Attempts *)

(** What the environment answers during one attempt, and during the delay behind it. *)
Record Attempt := { sends : list SendAnswer; stream : list StreamInput; after : Delay }.

(** [prepare]: building and serialising the body, and its capture before the first attempt; [set_up]: the headers,
    the HTTP client and the URL. *)
Context (prepare : N -> result unit LlmError) (set_up : result unit LlmError).
Context (limits : ProviderStreamLimits) (idle_timeout_ms : N).

Definition stream_chat_attempt (a : Attempt) (t : Trace) : Outcome (Trace * result LlmResponseSummary LlmError) :=
  match prepare (attempt t) with
  | Err e => Ended (t, Err e)
  | Ok _ =>
    match set_up with
    | Err e => Ended (t, Err e)
    | Ok _ =>
      match send_loop (sends a) t with
      | Panicked => Panicked
      | Waiting => Waiting
      | Ended (t, Err e) => Ended (t, Err e)
      | Ended (t, Ok false) => Ended (t, Ok (cancelled_summary None))
      | Ended (t, Ok true) =>
        match read_stream limits idle_timeout_ms (stream a) t with
        | None => Panicked
        | Some (_, st, r) => Ended (sink st, r)
        end
      end
    end
  end.

Definition is_rate_limit_error (e : LlmError) : bool :=
  match e with
  | ProviderRejected (Some status) _ _ _ => status =? 429
  | ProviderGenerationFailed _ (Some code) _ => text_eqb code (lit "429") || text_eqb code (lit "rate_limit_exceeded")
  | _ => false
  end.

(** Whether the attempt may be repeated after [e]. *)
Definition may_retry (e : LlmError) (t : Trace) : bool :=
  is_rate_limit_error e && negb (replay_blocked t) && negb (projection_failed t) && (attempt t <=? max_connect_retries deadlines).

Fixpoint attempt_loop (attempts : list Attempt) (t : Trace) : Outcome (Trace * result LlmResponseSummary LlmError) :=
  match attempts with
  | [] => Waiting
  | a :: attempts =>
    match stream_chat_attempt a t with
    | Panicked => Panicked
    | Waiting => Waiting
    | Ended (t, Ok summary) => Ended (t, Ok summary)
    | Ended (t, Err e) =>
      if negb (may_retry e t) then Ended (t, Err e)
      else if sleep_retry_delay_until_deadline (delay_ms (attempt t)) (after a) then attempt_loop attempts t
      else if cancelled_after (after a) then Ended (t, Ok (cancelled_summary None))
      else Ended (t, Err timed_out)
    end
  end.

Context (validate_provider_lifecycle : result unit LlmError).

Definition stream_chat_traced (attempts : list Attempt) (t : Trace) : Outcome (Trace * result LlmResponseSummary LlmError) :=
  match validate_provider_lifecycle with
  | Err e => Ended (t, Err e)
  | Ok _ => attempt_loop attempts t
  end.

(** ** The end of the trace *)

Context (display_failure : ProviderFailure -> text).

(** Errors that already say what happened. *)
Definition is_classified (e : LlmError) : bool :=
  match e with ProviderRequestLimitExceeded _ | ProviderRequestImage _ | ProviderFailed _ _ => true | _ => false end.

Definition terminal_event (status : ProviderTerminalStatus) (usage : option TokenUsage) (failure : option ProviderFailure) (t : Trace)
    : ProviderPhaseEvent :=
  {| event_phase := ProviderTerminal; event_attempt := attempt t; terminal_status := Some status; event_usage := usage; event_failure := failure |}.

(** The error of projecting the last progress, and the sink afterwards. *)
Definition project_last_progress (t : Trace) : Trace * option LlmError :=
  if progress_seen t then
    let t := set_phase LastProgress t in
    let (t, r) := project_provider_phase (plain_event LastProgress t) t in
    (t, match r with Ok _ => None | Err e => Some e end)
  else (t, None).

Definition classify_result (r : result LlmResponseSummary LlmError) (t : Trace)
    : result LlmResponseSummary LlmError * option ProviderFailure :=
  match r with
  | Ok summary => (Ok summary, None)
  | Err source =>
    if is_classified source then (Err source, None)
    else
      let failure := provider_failure_for display_failure source t in
      (Err (ProviderFailed failure source), Some failure)
  end.

Definition project_terminal (status : ProviderTerminalStatus) (usage : option TokenUsage) (failure : option ProviderFailure) (t : Trace)
    : Trace * result unit LlmError :=
  let t := set_phase ProviderTerminal t in project_provider_phase (terminal_event status usage failure t) t.

Definition finish_phases (r : result LlmResponseSummary LlmError) (t : Trace) : Trace * result LlmResponseSummary LlmError :=
  let (t, last_progress_error) := project_last_progress t in
  let (r, provider_failure) := classify_result r t in
  match last_progress_error with
  | Some source => (t, Err (normalize_projection_failure display_failure source (match r with Ok _ => None | Err e => Some e end) t))
  | None =>
    match r with
    | Ok summary =>
      let status := if bool_decide (summary_finish_reason summary = FinishCancelled) then TerminalCancelled else TerminalCompleted in
      match project_terminal status (summary_usage summary) None t with
      | (t, Err source) => (t, Err (normalize_failure display_failure source t))
      | (t, Ok _) => (t, Ok summary)
      end
    | Err source =>
      match provider_failure with
      | None => (t, Err source)
      | Some failure =>
        match project_terminal TerminalFailed (token_usage source) (Some failure) t with
        | (t, Err projection_source) => (t, Err (normalize_projection_failure display_failure projection_source (Some source) t))
        | (t, Ok _) => (t, Err source)
        end
      end
    end
  end.

Definition trace_finish (r : result LlmResponseSummary LlmError) (t : Trace) : Trace * result LlmResponseSummary LlmError :=
  if attempt t =? 0 then (t, r)
  else
    match r with
    | Err source => if projection_failed t then (t, Err (normalize_failure display_failure source t)) else finish_phases r t
    | Ok _ => finish_phases r t
    end.

Definition stream_chat (attempts : list Attempt) (s : S) : Outcome (S * result LlmResponseSummary LlmError) :=
  match stream_chat_traced attempts (trace_new s) with
  | Panicked => Panicked
  | Waiting => Waiting
  | Ended (t, r) => let (t, r) := trace_finish r t in Ended (inner t, r)
  end.
End Client.
