(* ===== verification/ChatHoldback.v ===== *)
(** * Held-back assistant text

    The loops over a possible artifact against the grammar they decide, and what the holdback keeps back. *)
From S2P Require Import Prelude.
From S2P Require Import Text.
From S2P Require Import Utf8.
From S2P Require Import ProviderStream.
From S2P Require Import ChatStream.

Open Scope nat_scope.

(** ** The grammar of artifacts *)

(** Markers of the chat template with white space around them. *)
Inductive artifacts : text -> Prop :=
  | artifacts_nil : artifacts []
  | artifacts_space c s : is_whitespace c = true -> artifacts s -> artifacts (c :: s)
  | artifacts_marker m s : m ∈ CHATML_BARE_START_ARTIFACT :: CHATML_ROLE_BOUNDARY_ARTIFACTS -> artifacts s -> artifacts (m ++ s).

Lemma strip_artifact_some list value rest : strip_artifact list value = Some rest -> exists a, a ∈ list /\ value = a ++ rest.
Proof.
  induction list as [|a list IH]; [done|]. cbn. destruct (strip_prefix a value) as [r|] eqn:E.
  - intros [= <-]. apply strip_prefix_Some in E. exists a. split; [by left|done].
  - intros (b & Hb & ->)%IH. exists b. split; [by right|done].
Qed.

Lemma strip_artifact_none list value a rest : strip_artifact list value = None -> a ∈ list -> value <> a ++ rest.
Proof.
  induction list as [|b list IH]; [by intros _ ?%elem_of_nil|]. cbn. destruct (strip_prefix b value) as [r|] eqn:E; [done|].
  intros Hn [->|Hin]%elem_of_cons Hv; [|by apply (IH Hn Hin)]. subst value. by rewrite strip_prefix_app in E.
Qed.

Lemma marker_nonempty m : m ∈ CHATML_BARE_START_ARTIFACT :: CHATML_ROLE_BOUNDARY_ARTIFACTS -> 0 < length m.
Proof. intros Hm. repeat (apply elem_of_cons in Hm as [->|Hm]; [vm_compute; lia|]). by apply elem_of_nil in Hm. Qed.

Lemma role_nonempty m : m ∈ CHATML_ROLE_BOUNDARY_ARTIFACTS -> 0 < length m.
Proof. intros Hm. apply marker_nonempty. by right. Qed.

Lemma artifacts_start s : artifacts s -> match s with [] => True | c :: _ => is_whitespace c = true \/ c = 60%N end.
Proof.
  induction 1 as [|c s Hc _ _|m s Hm _ _]; [done|by left|].
  repeat (apply elem_of_cons in Hm as [->|Hm]; [vm_compute; by right|]). by apply elem_of_nil in Hm.
Qed.

Lemma artifacts_trim s : artifacts s -> artifacts (trim_start s).
Proof.
  induction 1 as [|c s Hc Hs IH|m s Hm Hs IH]; [constructor|cbn [trim_start trim_start_by]; unfold trim_start; cbn; by rewrite Hc|].
  assert (trim_start (m ++ s) = m ++ s) as ->; [|by constructor]. apply trim_start_by_id. intros c s' E.
  repeat (apply elem_of_cons in Hm as [->|Hm]; [vm_compute in E; injection E as <- _; reflexivity|]). by apply elem_of_nil in Hm.
Qed.

Lemma trimmed_back s : artifacts (trim_start s) -> artifacts s.
Proof.
  unfold trim_start. induction s as [|c s IH]; [done|]. cbn. destruct (is_whitespace c) eqn:E; [|done]. intros Hs. by constructor; [|apply IH].
Qed.

Lemma trim_length s : length (trim_start s) <= length s.
Proof. destruct (trim_start_by_suffix is_whitespace s) as (p & Hp & _). apply (f_equal length) in Hp. rewrite length_app in Hp. unfold trim_start. lia. Qed.

(** The marker the greedy loop takes is the one the text was made with. *)
Lemma role_taken m s a rest : m ∈ CHATML_BARE_START_ARTIFACT :: CHATML_ROLE_BOUNDARY_ARTIFACTS -> a ∈ CHATML_ROLE_BOUNDARY_ARTIFACTS ->
  artifacts s -> m ++ s = a ++ rest -> rest = s.
Proof.
  intros Hm Ha Hs%artifacts_start E.
  repeat (apply elem_of_cons in Hm as [->|Hm]; [
    repeat (apply elem_of_cons in Ha as [->|Ha]; [
      vm_compute in E; first [by injection E | discriminate E | injection E as ->; vm_compute in Hs; by destruct Hs]|]);
    by apply elem_of_nil in Ha|]).
  by apply elem_of_nil in Hm.
Qed.

Lemma complete_loop_artifacts fuel value : complete_loop fuel value = true -> artifacts value.
Proof.
  revert value. induction fuel as [|fuel IH]; intros value; [done|]. cbn [complete_loop]. intros Hl. apply trimmed_back.
  destruct (trim_start value) as [|c s] eqn:E; [constructor|]. cbn [is_empty] in Hl.
  destruct (strip_artifact _ (c :: s)) as [r|] eqn:Er.
  - apply strip_artifact_some in Er as (a & Ha & ->). constructor; [by right|by apply IH].
  - destruct (strip_prefix _ (c :: s)) as [r|] eqn:Eb; [|done]. apply strip_prefix_Some in Eb as ->. constructor; [by left|by apply IH].
Qed.

Lemma artifacts_complete_loop fuel value : artifacts value -> length value < fuel -> complete_loop fuel value = true.
Proof.
  revert value. induction fuel as [|fuel IH]; intros value Hv Hf; [lia|]. cbn [complete_loop]. apply artifacts_trim in Hv.
  pose proof (trim_length value) as Hl. destruct (is_empty (trim_start value)) eqn:Ee; [done|].
  assert (exists m s, m ∈ CHATML_BARE_START_ARTIFACT :: CHATML_ROLE_BOUNDARY_ARTIFACTS /\ artifacts s /\ trim_start value = m ++ s) as (m & s & Hm & Hs & Ev).
  { inversion Hv as [F|c s Hc Hs F|m s Hm Hs F]; [by rewrite <- F in Ee| |by exists m, s].
    exfalso. pose proof (trim_start_by_suffix is_whitespace value) as _. unfold trim_start in F. clear -F Hc.
    induction value as [|d v IH]; [done|]. cbn in F. destruct (is_whitespace d) eqn:E; [by apply IH|]. injection F as -> _. congruence. }
  rewrite Ev in *. clear Ev. rewrite length_app in Hl. pose proof (marker_nonempty m Hm).
  destruct (strip_artifact _ (m ++ s)) as [r|] eqn:Er.
  - apply strip_artifact_some in Er as (a & Ha & E). apply IH; rewrite (role_taken m s a r Hm Ha Hs E); [done|lia].
  - apply elem_of_cons in Hm as [->|Hm]; [|by destruct (strip_artifact_none _ _ _ s Er Hm)]. rewrite strip_prefix_app. apply IH; [done|lia].
Qed.

Lemma complete_iff value : is_complete_chatml_artifact_sequence value = true <-> artifacts value.
Proof.
  unfold is_complete_chatml_artifact_sequence. assert (length value < S (length value)) as Hf by lia. revert Hf. generalize (S (length value)). intros fuel Hf.
  split; [apply complete_loop_artifacts|intros Hv; by apply artifacts_complete_loop].
Qed.

Lemma trim_start_app s r : trim_start s <> [] -> trim_start (s ++ r) = trim_start s ++ r.
Proof. unfold trim_start. induction s as [|c s IH]; [done|]. cbn. destruct (is_whitespace c); [apply IH|done]. Qed.

Lemma trimmed_back_app s r : artifacts (trim_start s ++ r) -> artifacts (s ++ r).
Proof.
  unfold trim_start. induction s as [|c s IH]; [done|]. cbn. destruct (is_whitespace c) eqn:E; [|done]. intros Hs. by constructor; [|apply IH].
Qed.

Lemma existsb_elem {A} (f : A -> bool) l : existsb f l = true -> exists x, x ∈ l /\ f x = true.
Proof. intros (x & Hx & Hf)%existsb_exists. exists x. by rewrite list_elem_of_In. Qed.

Lemma classified_may_complete fuel value : classify_loop fuel value <> No -> exists more, artifacts (value ++ more).
Proof.
  revert value. induction fuel as [|fuel IH]; intros value; [done|]. cbn [classify_loop].
  destruct (is_empty (trim_start value)) eqn:Ee.
  - intros _. exists []. apply trimmed_back_app. destruct (trim_start value); [constructor|done].
  - destruct (strip_artifact _ (trim_start value)) as [r|] eqn:Er.
    + intros Hc. destruct (IH _ Hc) as (more & Hm). exists more. apply trimmed_back_app. apply strip_artifact_some in Er as (a & Ha & ->).
      rewrite <- app_assoc. constructor; [by right|done].
    + destruct (existsb _ _) eqn:Ex; [|done]. intros _. apply existsb_elem in Ex as (a & Ha & (more & Hm)%starts_with_true). exists more.
      apply trimmed_back_app. rewrite <- Hm. rewrite <- (app_nil_r a). constructor; [by right|constructor].
Qed.

(** The length of the text is fuel enough: more of it changes nothing. *)
Lemma classify_loop_fuel n m value : length value < n -> length value < m -> classify_loop n value = classify_loop m value.
Proof.
  revert m value. induction n as [|n IH]; intros [|m] value Hn Hm; try lia. cbn [classify_loop]. pose proof (trim_length value) as Hl.
  destruct (is_empty (trim_start value)); [done|]. destruct (strip_artifact _ (trim_start value)) as [r|] eqn:Er; [|done].
  apply strip_artifact_some in Er as (a & Ha & E). rewrite E, length_app in Hl. pose proof (role_nonempty a Ha). apply IH; lia.
Qed.

Lemma candidate_may_complete value : classify_chatml_artifact_candidate value <> No -> exists more, artifacts (value ++ more).
Proof. unfold classify_chatml_artifact_candidate. generalize (S (length value)). intros fuel. apply classified_may_complete. Qed.
#[global] Opaque is_complete_chatml_artifact_sequence classify_chatml_artifact_candidate.

(** ** The holdback *)

Definition text_of (events : list LlmEvent) : text := concat (map (fun e => match e with TextDelta s => s | _ => [] end) events).

Lemma text_of_app a b : text_of (a ++ b) = text_of a ++ text_of b.
Proof. unfold text_of. by rewrite map_app, concat_app. Qed.

Lemma text_of_flush h : text_of (flush_pending h) = pending h.
Proof. unfold flush_pending, text_of. destruct (pending h) as [|c s]; [done|]. cbn. by rewrite app_nil_r. Qed.

Definition text_events (events : list LlmEvent) : Prop := Forall (fun e => match e with TextDelta _ => True | _ => False end) events.

Lemma flush_text_events h : text_events (flush_pending h).
Proof. unfold flush_pending. destruct (is_empty _); repeat constructor. Qed.

(** Text is held back only while it may still become artifacts, and never more than the bound. *)
Definition holdback_ok (h : ChatAssistantTextHoldback) : Prop :=
  (passthrough h = true -> pending h = []) /\ (byte_len (pending h) <= CHATML_ARTIFACT_HOLDBACK_MAX_BYTES)%N /\
  exists more, artifacts (pending h ++ more).

Lemma empty_holdback_ok : holdback_ok empty_holdback.
Proof. split; [done|]. split; [by vm_compute|]. exists []. constructor. Qed.

Lemma passed_through_ok : holdback_ok passed_through.
Proof. split; [done|]. split; [by vm_compute|]. exists []. constructor. Qed.

Lemma held_bound a b : (saturating_add_usize (byte_len a) (byte_len b) <= CHATML_ARTIFACT_HOLDBACK_MAX_BYTES)%N -> (byte_len (a ++ b) <= CHATML_ARTIFACT_HOLDBACK_MAX_BYTES)%N.
Proof. rewrite byte_len_app. unfold saturating_add_usize, usize_max, u64_max, CHATML_ARTIFACT_HOLDBACK_MAX_BYTES. lia. Qed.

Lemma push_delta_spec delta h : holdback_ok h ->
  let '(h', events) := push_delta delta h in
  holdback_ok h' /\ text_events events /\ pending h ++ delta = text_of events ++ pending h' /\ (passthrough h = true -> passthrough h' = true).
Proof.
  intros (Hp & Hb & Hm). unfold push_delta. destruct (passthrough h) eqn:Ep.
  - split; [by repeat split; [intros _; apply Hp|..]|]. split; [repeat constructor|]. rewrite (Hp eq_refl). cbn. by rewrite !app_nil_r.
  - destruct (N.ltb_spec CHATML_ARTIFACT_HOLDBACK_MAX_BYTES (saturating_add_usize (byte_len (pending h)) (byte_len delta))) as [Hlt|Hle].
    + split; [apply passed_through_ok|]. split; [apply Forall_app; split; [apply flush_text_events|destruct (is_empty delta); repeat constructor]|].
      split; [|done]. rewrite text_of_app, text_of_flush. cbn [pending passed_through]. rewrite app_nil_r. f_equal. destruct delta; [done|]. cbn. by rewrite app_nil_r.
    + cbn [pending]. destruct (bool_decide _ && _) eqn:Ec.
      * split; [apply passed_through_ok|]. split; [apply flush_text_events|]. split; [|done]. rewrite text_of_flush. cbn. by rewrite app_nil_r.
      * split; [|by repeat split; [constructor|]]. split; [done|]. cbn [pending]. split.
        { apply (held_bound _ _ Hle). }
        apply andb_false_iff in Ec as [Hc%bool_decide_eq_false|Hc%negb_false_iff]; [by apply candidate_may_complete|].
        exists []. rewrite app_nil_r. by apply complete_iff.
Qed.

Lemma holdback_finish_spec finish complete h : holdback_ok h ->
  let '(h', events) := holdback_finish finish complete h in
  holdback_ok h' /\ passthrough h' = true /\ text_events events /\
  exists suppressed, pending h = text_of events ++ suppressed /\
    (suppressed <> [] -> finish = ToolCall /\ complete = true /\ artifacts suppressed /\ (byte_len suppressed <= CHATML_ARTIFACT_HOLDBACK_MAX_BYTES)%N).
Proof.
  intros Hh. pose proof Hh as (Hp & Hb & _). unfold holdback_finish. destruct (passthrough h) eqn:Ep.
  - split; [done|]. split; [done|]. split; [constructor|]. exists []. rewrite (Hp eq_refl). done.
  - split; [apply passed_through_ok|]. split; [done|]. destruct (_ && is_complete_chatml_artifact_sequence _) eqn:E.
    + split; [constructor|]. exists (pending h). split; [done|]. intros _. apply andb_true_iff in E as [[->%bool_decide_eq_true ->]%andb_true_iff Ec].
      by apply complete_iff in Ec.
    + split; [apply flush_text_events|]. exists []. rewrite text_of_flush, app_nil_r. done.
Qed.

Lemma flush_early_spec h : holdback_ok h ->
  let '(h', events) := flush_before_early_exit h in holdback_ok h' /\ passthrough h' = true /\ text_events events /\ text_of events = pending h.
Proof.
  intros Hh. pose proof Hh as (Hp & _). unfold flush_before_early_exit. destruct (passthrough h) eqn:Ep.
  - split; [done|]. split; [done|]. split; [constructor|]. by rewrite (Hp eq_refl).
  - split; [apply passed_through_ok|]. split; [done|]. split; [apply flush_text_events|]. apply text_of_flush.
Qed.

(** ** Chunks decide *)

Definition hold_all (chunks : list text) : ChatAssistantTextHoldback * list LlmEvent :=
  fold_left (fun '(h, events) delta => let '(h, more) := push_delta delta h in (h, events ++ more)) chunks (empty_holdback, []).
Definition shown_at_tool_terminal (chunks : list text) : text :=
  let '(h, events) := hold_all chunks in text_of (events ++ snd (holdback_finish ToolCall true h)).

(** Behind a bare start marker the classifier no longer sees that a marker may follow, so a sequence that is
    suppressed in one piece is shown when a chunk ends inside its second marker. *)
Lemma suppression_depends_on_chunks :
  shown_at_tool_terminal [lit "<|im_start|> <|im_start|>"] = [] /\
  shown_at_tool_terminal [lit "<|im_start|> <|im"; lit "_start|>"] = lit "<|im_start|> <|im_start|>".
Proof. split; vm_compute; reflexivity. Qed.

#[global] Arguments text_of : simpl never.
