(* ===== verification/ChatChunk.v ===== *)
(** * One chunk is applied whole or not at all

    Whatever a refused chunk did is undone by its journal. *)
From S2P Require Import Prelude.
From S2P Require Import Text.
From S2P Require Import Utf8.
From S2P Require Import ContextManager.
From S2P Require Import ProviderStream.
From S2P Require Import ChatStream.
From S2P Require Import ChatHoldback.

Open Scope nat_scope.

(** ** Transactions *)

(** [m] never panics and keeps [P], whether it fails or not. *)
Definition stable (P : ChunkTxn -> Prop) {A} (m : txn A) : Prop := forall t, P t -> exists t' r, m t = Some (t', r) /\ P t'.

Section Stable.
Context (P : ChunkTxn -> Prop).

Lemma stable_ret {A} (a : A) : stable P (ret a).
Proof. intros t Ht. by exists t, (Ok a). Qed.
Lemma stable_fail {A} e : stable P (@fail A e).
Proof. intros t Ht. by exists t, (Err e). Qed.
Lemma stable_reads {A} (f : ChunkTxn -> A) : stable P (reads f).
Proof. intros t Ht. by exists t, (Ok (f t)). Qed.
Lemma stable_lift {A} (r : result A LlmError) : stable P (lift r).
Proof. intros t Ht. by exists t, r. Qed.
Lemma stable_bind {A B} (m : txn A) (k : A -> txn B) : stable P m -> (forall a, stable P (k a)) -> stable P (bind m k).
Proof.
  intros Hm Hk t Ht. destruct (Hm t Ht) as (t1 & r & E & Ht1). unfold bind. rewrite E. destruct r as [a|e]; [by apply Hk|by exists t1, (Err e)].
Qed.
End Stable.

Lemma bind_some {A B} (m : txn A) (k : A -> txn B) t t' b : bind m k t = Some (t', Ok b) <-> exists t1 a, m t = Some (t1, Ok a) /\ k a t1 = Some (t', Ok b).
Proof.
  unfold bind. destruct (m t) as [[t1 [a|e]]|]; split; try done.
  - intros E. by exists t1, a.
  - by intros (? & ? & [= <- <-] & E).
  - by intros (? & ? & ? & ?).
  - by intros (? & ? & ? & ?).
Qed.

(** ** Undoing a tool call *)

Definition entry (index : N) (t : ChunkTxn) : PartialToolCall := default empty_call (tool_calls (acc t) !! index).

(** Identifiers are set once, arguments only grow. *)
Definition extends_call (c c' : PartialToolCall) : Prop :=
  (call_id c = None \/ call_id c' = call_id c) /\ (tool_name c = None \/ tool_name c' = tool_name c) /\ exists more, arguments c' = arguments c ++ more.

(** What was sent of the arguments is a prefix of them. *)
Definition sent_ok (c : PartialToolCall) : Prop := exists sent rest, arguments c = sent ++ rest /\ emitted_len c = byte_len sent.

Lemma extends_call_refl c : extends_call c c.
Proof. split; [by right|]. split; [by right|]. exists []. by rewrite app_nil_r. Qed.

Lemma extends_call_trans a b c : extends_call a b -> extends_call b c -> extends_call a c.
Proof.
  intros (Hi & Hn & m & Hm) (Hi' & Hn' & m' & Hm'). split; [|split].
  - destruct Hi as [?|Hi]; [by left|]. destruct Hi' as [Hb|Hi']; [left; congruence|right; congruence].
  - destruct Hn as [?|Hn]; [by left|]. destruct Hn' as [Hb|Hn']; [left; congruence|right; congruence].
  - exists (m ++ m'). by rewrite Hm', Hm, app_assoc.
Qed.

Lemma empty_sent : sent_ok empty_call.
Proof. by exists [], []. Qed.

Lemma truncate_back s more : truncate (byte_len s) (s ++ more) = Some s.
Proof.
  unfold truncate. destruct (N.leb_spec (byte_len (s ++ more)) (byte_len s)) as [Hle|Hgt].
  - rewrite byte_len_app in Hle. assert (more = []) as -> by (apply byte_len_nil; lia). by rewrite app_nil_r.
  - unfold slice_to. by rewrite split_bytes_app.
Qed.

Lemma call_restored (b : PartialToolCall) (c : PartialToolCall) : extends_call b c ->
  {| call_id := if bool_decide (call_id b = None) then None else call_id c; tool_name := if bool_decide (tool_name b = None) then None else tool_name c;
     arguments := arguments b; saw_arguments_field := saw_arguments_field b; emitted_len := emitted_len b; started := started b |} = b.
Proof.
  intros (Hi & Hn & _). destruct b as [bi bn ba bs be bt]. cbn in *. f_equal; case_bool_decide; try done; intuition congruence.
Qed.

Lemma rollback_captured m i : rollback_call (capture m i) m = Some m.
Proof.
  unfold rollback_call, capture. destruct (m !! i) as [c|] eqn:E; cbn.
  - rewrite E. unfold truncate. rewrite N.leb_refl. f_equal. rewrite (call_restored c c (extends_call_refl c)). by apply insert_id.
  - f_equal. by apply delete_id.
Qed.

Lemma rollback_extended m i c' : extends_call (default empty_call (m !! i)) c' -> rollback_call (capture m i) (<[i := c']> m) = Some m.
Proof.
  intros He. unfold rollback_call, capture. destruct (m !! i) as [c|] eqn:E; cbn in *.
  - rewrite lookup_insert_eq. pose proof He as (_ & _ & more & ->). rewrite truncate_back. f_equal.
    rewrite insert_insert_eq, (call_restored c c' He). by apply insert_id.
  - f_equal. rewrite delete_insert_eq. by apply delete_id.
Qed.

(** ** What a tool call delta touches *)

Definition with_aliases (ids : list text) (j : ChatChunkJournal) : ChatChunkJournal :=
  {| original_finish_reason := original_finish_reason j; tool_call_checkpoints := tool_call_checkpoints j;
     inserted_call_id_aliases := inserted_call_id_aliases j ++ ids;
     original_assistant_text := original_assistant_text j; original_reasoning_len := original_reasoning_len j |}.

Definition undo_aliases (ids : list text) (m : gmap text N) : gmap text N := fold_left (fun m alias => delete alias m) (rev ids) m.

#[global] Arguments undo_aliases : simpl never.

Lemma undo_aliases_app a b m : undo_aliases (a ++ b) m = undo_aliases a (undo_aliases b m).
Proof. unfold undo_aliases. by rewrite rev_app_distr, fold_left_app. Qed.

Record touched (i : N) (t t' : ChunkTxn) : Prop := {
  touched_calls : tool_calls (acc t') = tool_calls (acc t) \/
                  exists c, tool_calls (acc t') = <[i := c]> (tool_calls (acc t)) /\ extends_call (entry i t) c;
  touched_finish : finish_reason (acc t') = finish_reason (acc t);
  touched_text : assistant_text (acc t') = assistant_text (acc t);
  touched_reasoning : reasoning_text (acc t') = reasoning_text (acc t);
  touched_aliases : exists ids, journal t' = with_aliases ids (journal t) /\
                    undo_aliases ids (call_id_to_delta_index (acc t')) = call_id_to_delta_index (acc t)
}.

Lemma touched_extends i t t' : touched i t t' -> extends_call (entry i t) (entry i t').
Proof.
  intros [[Hc|(c & Hc & He)] _ _ _ _]; unfold entry in *; rewrite Hc; [apply extends_call_refl|]. rewrite lookup_insert_eq. done.
Qed.

Lemma touched_refl i t : touched i t t.
Proof.
  split; try done; [by left|]. exists []. split; [|done]. unfold with_aliases. rewrite app_nil_r. by destruct (journal t).
Qed.

Lemma touched_trans i a b c : touched i a b -> touched i b c -> touched i a c.
Proof.
  intros H1 H2. pose proof (touched_extends _ _ _ H1) as He1. pose proof (touched_extends _ _ _ H2) as He2.
  destruct H1 as [Hc1 Hf1 Ht1 Hr1 (ids1 & Hj1 & Hu1)]. destruct H2 as [Hc2 Hf2 Ht2 Hr2 (ids2 & Hj2 & Hu2)].
  split; try congruence.
  - destruct Hc2 as [Hc2|(c2 & Hc2 & Hx2)]; [destruct Hc1 as [Hc1|(c1 & Hc1 & Hx1)]|].
    + left. congruence.
    + right. exists c1. split; [congruence|done].
    + right. exists c2. split; [|by eapply extends_call_trans]. rewrite Hc2. destruct Hc1 as [Hc1|(c1 & Hc1 & _)]; rewrite Hc1; [done|]. by rewrite insert_insert_eq.
  - exists (ids1 ++ ids2). split; [|by rewrite undo_aliases_app, Hu2]. rewrite Hj2, Hj1. unfold with_aliases. cbn. by rewrite app_assoc.
Qed.

(** ** A delta keeps what it may not touch *)

Section Delta.
Context (i : N) (t0 : ChunkTxn) (stream_budget : ProviderStreamBudget).
Definition progressed (t : ChunkTxn) : Prop := touched i t0 t /\ sent_ok (entry i t).

Lemma progressed_step t t' : progressed t -> touched i t t' -> sent_ok (entry i t') -> progressed t'.
Proof. intros [Ht _] Ht' Hs. split; [by eapply touched_trans|done]. Qed.

Lemma stable_stage f : stable progressed (on_stage f).
Proof.
  intros t Ht. unfold on_stage. destruct (f (budget_stage t)) as [s|e]; eexists _, _; (split; [reflexivity|]); [|done].
  apply (progressed_step t); [done| |apply Ht]. pose proof (touched_refl i t) as [? ? ? ? ?]. by split.
Qed.

Lemma stable_emit events : stable progressed (emit events).
Proof.
  intros t Ht. eexists _, _. split; [reflexivity|]. apply (progressed_step t); [done| |apply Ht]. pose proof (touched_refl i t) as [? ? ? ? ?]. by split.
Qed.

Lemma entry_after t c : entry i {| acc := set_calls (<[i := c]> (tool_calls (acc t))) (acc t); budget_stage := budget_stage t; journal := journal t; collected := collected t |} = c.
Proof. unfold entry. cbn. by rewrite lookup_insert_eq. Qed.

Lemma entry_step f t : progressed t -> (forall c', f (entry i t) = Ok c' -> extends_call (entry i t) c' /\ sent_ok c') ->
  exists t' r, with_entry i f t = Some (t', r) /\ progressed t'.
Proof.
  intros Ht Hf. unfold with_entry. fold (entry i t).
  assert (exists c' r, match f (entry i t) with Ok c => (c, Ok tt) | Err e => (entry i t, Err e) end = (c', r) /\ extends_call (entry i t) c' /\ sent_ok c') as (c' & r & -> & He & Hs).
  { destruct Ht as [_ Hs]. destruct (f (entry i t)) as [c'|e] eqn:E.
    - destruct (Hf _ eq_refl). by exists c', (Ok tt).
    - exists (entry i t), (Err e). split; [done|]. split; [apply extends_call_refl|done]. }
  eexists _, r. split; [reflexivity|]. apply (progressed_step t); [done| |by rewrite entry_after].
  pose proof (touched_refl i t) as [_ ? ? ? ?]. split; cbn; try done. right. by exists c'.
Qed.

Lemma stable_entry f : (forall c c', sent_ok c -> f c = Ok c' -> extends_call c c' /\ sent_ok c') -> stable progressed (with_entry i f).
Proof. intros Hf t Ht. apply entry_step; [done|]. intros c'. apply Hf, Ht. Qed.

Lemma record_call_id_ok id c c' : record_call_id id i c = Ok c' ->
  c' = {| call_id := Some id; tool_name := tool_name c; arguments := arguments c; saw_arguments_field := saw_arguments_field c;
          emitted_len := emitted_len c; started := started c |} /\ (call_id c = None \/ call_id c = Some id).
Proof.
  unfold record_call_id. destruct (call_id c) as [e|] eqn:E.
  - destruct (text_eqb e id) eqn:Ee; [|done]. apply text_eqb_eq in Ee as ->. intros [= <-]. split; [destruct c; cbn in *; congruence|by right].
  - intros [= <-]. split; [done|by left].
Qed.

Lemma record_tool_name_ok name c c' : record_tool_name name i c = Ok c' ->
  c' = {| call_id := call_id c; tool_name := Some name; arguments := arguments c; saw_arguments_field := saw_arguments_field c;
          emitted_len := emitted_len c; started := started c |} /\ (tool_name c = None \/ tool_name c = Some name).
Proof.
  unfold record_tool_name. destruct (tool_name c) as [e|] eqn:E.
  - destruct (text_eqb e name) eqn:Ee; [|done]. apply text_eqb_eq in Ee as ->. intros [= <-]. split; [destruct c; cbn in *; congruence|by right].
  - intros [= <-]. split; [done|by left].
Qed.

Lemma stable_call_id id : stable progressed (with_entry i (record_call_id id i)).
Proof.
  apply stable_entry. intros c c' Hs [-> Hi]%record_call_id_ok. split; [|done]. split; [cbn; destruct Hi; [by left|right; congruence]|].
  split; [by right|]. exists []. by rewrite app_nil_r.
Qed.

(** Binding an identifier and noting it in the journal. *)
Lemma stable_bind_id id :
  stable progressed (bind (bind_call_id i id) (fun inserted => match inserted with Some alias => journal_alias alias | None => ret tt end)).
Proof.
  intros t Ht. unfold bind_call_id, bind, reads. destruct (call_id_to_delta_index (acc t) !! id) as [existing|] eqn:Ea.
  - destruct (negb _); [by eexists _, _|]. destruct (stable_call_id id t Ht) as (t1 & r & -> & Ht1). destruct r as [a|e]; [by exists t1, (Ok tt)|by exists t1, (Err e)].
  - destruct (stable_call_id id t Ht) as (t1 & r & E & Ht1). rewrite E. destruct r as [[]|e]; [|by exists t1, (Err e)].
    eexists _, _. split; [reflexivity|]. apply (progressed_step t1); [done| |apply Ht1]. cbn [modify_acc acc journal_alias]. unfold set_aliases.
    split; cbn; try done; [by left|]. exists [id]. split; [done|]. unfold undo_aliases. cbn. unfold with_entry in E.
    assert (call_id_to_delta_index (acc t1) = call_id_to_delta_index (acc t)) as Hal by (destruct (record_call_id _ _ _) in E; [by injection E as <-|done]).
    rewrite Hal. rewrite delete_insert_eq. by apply delete_id.
Qed.

Lemma stable_start : stable progressed (start_call i).
Proof.
  apply stable_bind; [apply stable_reads|]. intros c. destruct (started c); [apply stable_ret|]. destruct (identity c) as [[id name]|]; [|apply stable_ret].
  apply stable_bind; [apply stable_emit|]. intros _. apply stable_entry. intros c1 c2 Hs [= <-]. split; [|done]. split; [by right|]. split; [by right|].
  exists []. by rewrite app_nil_r.
Qed.

Lemma arguments_delta_some c : sent_ok c -> exists sent rest, arguments c = sent ++ rest /\ emitted_len c = byte_len sent /\
  arguments_delta c = Some (set_emitted (byte_len (arguments c)) c, rest).
Proof.
  intros (sent & rest & Ha & He). exists sent, rest. split; [done|]. split; [done|]. unfold arguments_delta, slice_from. rewrite He, Ha at 1.
  by rewrite split_bytes_app.
Qed.

Lemma stable_emit_arguments : stable progressed (emit_arguments i).
Proof.
  intros t Ht. unfold emit_arguments, bind at 1, read_entry, reads. fold (entry i t). pose proof Ht as [_ Hs].
  destruct (_ && _); [|by apply stable_ret]. destruct (arguments_delta_some _ Hs) as (sent & rest & Ha & He & ->). unfold bind at 1.
  destruct (entry_step (fun _ => Ok (set_emitted (byte_len (arguments (entry i t))) (entry i t))) t Ht) as (t1 & r & E & Ht1).
  - intros c' [= <-]. split; [|exists (arguments (entry i t)), []; split; [by rewrite app_nil_r|done]].
    split; [by right|]. split; [by right|]. exists []. by rewrite app_nil_r.
  - rewrite E. destruct r as [a|e]; [by apply stable_emit|by exists t1, (Err e)].
Qed.

Lemma stable_delta d : delta_index d = i -> stable progressed (apply_tool_call_delta d stream_budget).
Proof.
  intros Hd. unfold apply_tool_call_delta. rewrite Hd. apply stable_bind; [apply stable_stage|]. intros _.
  apply stable_bind; [destruct (delta_id d); [apply stable_bind_id|apply stable_ret]|]. intros _.
  apply stable_bind; [apply stable_entry; intros c c' Hs [= <-]; by split; [apply extends_call_refl|]|]. intros _.
  apply stable_bind; [|intros _; apply stable_bind; [apply stable_start|intros _; apply stable_emit_arguments]].
  destruct (delta_function d) as [f|]; [|apply stable_ret]. apply stable_bind.
  - destruct (function_name f) as [name|]; [|apply stable_ret]. apply stable_entry. intros c c' Hs [-> Hn]%record_tool_name_ok. split; [|done].
    split; [by right|]. split; [cbn; destruct Hn; [by left|right; congruence]|]. exists []. by rewrite app_nil_r.
  - intros _. destruct (function_arguments f) as [args|]; [|apply stable_ret]. apply stable_bind; [|intros _; apply stable_bind; [apply stable_stage|intros _]].
    + apply stable_entry. intros c c' Hs [= <-]. split; [|done]. split; [by right|]. split; [by right|]. exists []. by rewrite app_nil_r.
    + apply stable_entry. intros c c' (sent & rest & Ha & He) [= <-]. split.
      * split; [by right|]. split; [by right|]. by exists args.
      * exists sent, (rest ++ args). cbn. by rewrite Ha, app_assoc.
Qed.
End Delta.

(** ** A chunk can be undone at every point *)

Definition all_sent (m : gmap N PartialToolCall) : Prop := map_Forall (fun _ c => sent_ok c) m.

Record undoable (a0 : ChatStreamAccumulator) (t : ChunkTxn) : Prop := {
  undo_calls : rollback_calls (rev (tool_call_checkpoints (journal t))) (tool_calls (acc t)) = Some (tool_calls a0);
  undo_ids : undo_aliases (inserted_call_id_aliases (journal t)) (call_id_to_delta_index (acc t)) = call_id_to_delta_index a0;
  undo_finish : original_finish_reason (journal t) = finish_reason a0;
  undo_text : original_assistant_text (journal t) = assistant_text a0;
  undo_reasoning_len : original_reasoning_len (journal t) = byte_len <$> reasoning_text a0;
  undo_reasoning : match reasoning_text a0 with None => True | Some r => exists more, reasoning_text (acc t) = Some (r ++ more) end;
  undo_sent : all_sent (tool_calls (acc t))
}.

Lemma undoable_rollback a0 t : undoable a0 t -> rollback (journal t) (acc t) = Some a0.
Proof.
  intros [Hc Hi Hf Ht Hl Hr _]. unfold rollback. rewrite Hc. unfold undo_aliases in Hi. rewrite Hi, Hf, Ht, Hl.
  destruct a0 as [f m al h [r|]]; cbn in *; [|done]. destruct Hr as (more & ->). by rewrite truncate_back.
Qed.

Lemma undoable_start a : all_sent (tool_calls a) -> undoable a {| acc := a; budget_stage := empty_stage; journal := journal_new a; collected := [] |}.
Proof. intros Hs. split; try done. cbn. destruct (reasoning_text a) as [r|]; [|done]. exists []. by rewrite app_nil_r. Qed.

Section Undo.
Context (a0 : ChatStreamAccumulator) (stream_budget : ProviderStreamBudget).
Local Abbreviation P := (undoable a0).

(** A change outside tool calls and aliases. *)
Lemma stable_modify f : (forall a, tool_calls (f a) = tool_calls a) -> (forall a, call_id_to_delta_index (f a) = call_id_to_delta_index a) ->
  (forall a r, reasoning_text a = Some r -> exists more, reasoning_text (f a) = Some (r ++ more)) -> stable P (modify_acc f).
Proof.
  intros Hc Hi Hr t [? ? ? ? ? Hu ?]. eexists _, _. split; [reflexivity|]. split; cbn; rewrite ?Hc, ?Hi; try done.
  destruct (reasoning_text a0) as [r|]; [|done]. destruct Hu as (more & Hu). destruct (Hr _ _ Hu) as (more' & ->). exists (more ++ more'). by rewrite app_assoc.
Qed.

Lemma stable_same_reasoning f : (forall a, tool_calls (f a) = tool_calls a) -> (forall a, call_id_to_delta_index (f a) = call_id_to_delta_index a) ->
  (forall a, reasoning_text (f a) = reasoning_text a) -> stable P (modify_acc f).
Proof. intros Hc Hi Hr. apply stable_modify; [done..|]. intros a r Ha. exists []. by rewrite Hr, app_nil_r. Qed.

Lemma stable_collect events : stable P (emit events).
Proof. intros t [? ? ? ? ? ? ?]. eexists _, _. split; [reflexivity|]. by split. Qed.

Lemma rollback_calls_app a b m : rollback_calls (a ++ b) m = match rollback_calls a m with None => None | Some m => rollback_calls b m end.
Proof. revert m. induction a as [|k a IH]; intros m; [done|]. cbn. by destruct (rollback_call k m). Qed.

(** A checkpoint and the delta it guards. *)
Lemma stable_guarded d : stable P (bind (checkpoint_tool_call (delta_index d)) (fun _ => apply_tool_call_delta d stream_budget)).
Proof.
  intros t Ht. set (i := delta_index d). unfold bind, checkpoint_tool_call.
  match goal with |- context [apply_tool_call_delta d stream_budget ?u] => set (t0 := u) end.
  assert (progressed i t0 t0) as Hp.
  { split; [apply touched_refl|]. unfold entry. cbn. destruct (tool_calls (acc t) !! i) as [c|] eqn:E; [|apply empty_sent]. by apply (undo_sent _ _ Ht i). }
  destruct (stable_delta i t0 stream_budget d eq_refl t0 Hp) as (t' & r & -> & [Htc Hs]). exists t', r. split; [done|].
  pose proof (touched_extends _ _ _ Htc) as He. destruct Htc as [Hc Hf Htx Hr (ids & Hj & Hu)]. destruct Ht as [Uc Ui Uf Ut Ul Ur Us].
  split; rewrite ?Hj, ?Hf, ?Htx, ?Hr; cbn; try done.
  - rewrite rev_app_distr. cbn [rev app rollback_calls].
    assert (rollback_call (capture (tool_calls (acc t)) i) (tool_calls (acc t')) = Some (tool_calls (acc t))) as ->; [|done].
    destruct Hc as [->|(c & -> & Hx)]; [apply rollback_captured|by apply rollback_extended].
  - by rewrite undo_aliases_app, Hu.
  - destruct Hc as [->|(c & Hc & _)]; [done|]. rewrite Hc. apply map_Forall_insert_2; [|done].
    unfold entry in Hs. rewrite Hc, lookup_insert_eq in Hs. done.
Qed.

Lemma stable_bind_assoc {A B C} (m : txn A) (k : A -> txn B) (h : B -> txn C) :
  stable P (bind m k) -> (forall b, stable P (h b)) -> stable P (bind m (fun a => bind (k a) h)).
Proof.
  intros Hm Hh t Ht. destruct (stable_bind P (bind m k) h Hm Hh t Ht) as (t' & r & E & Ht'). exists t', r. split; [|done].
  rewrite <- E. unfold bind. destruct (m t) as [[t1 [a|e]]|]; try done.
Qed.

Lemma stable_deltas ds : stable P (apply_deltas ds stream_budget).
Proof. induction ds as [|d ds IH]; [apply stable_ret|]. cbn [apply_deltas]. apply stable_bind_assoc; [apply stable_guarded|done]. Qed.

Lemma stable_finish f : stable P (record_finish_reason f).
Proof.
  apply stable_bind; [apply stable_reads|]. intros [e|]; [destruct (bool_decide _); [apply stable_ret|apply stable_fail]|]. by apply stable_same_reasoning.
Qed.

Lemma stable_choice c : stable P (apply_choice c stream_budget).
Proof.
  unfold apply_choice. destruct (negb _); [apply stable_fail|]. apply stable_bind; [apply stable_lift|]. intros r.
  apply stable_bind; [|intros _; apply stable_bind; [|intros _; apply stable_bind]].
  - destruct r as [value|]; [|apply stable_ret]. apply stable_modify; [done..|]. intros a s Hs. exists value. cbn. by rewrite Hs.
  - destruct (content _) as [value|]; [|apply stable_ret]. apply stable_bind; [apply stable_reads|]. intros [h events].
    apply stable_bind; [by apply stable_same_reasoning|intros _; apply stable_collect].
  - destruct (delta_tool_calls _); [apply stable_deltas|apply stable_ret].
  - intros _. destruct (choice_finish_reason c) as [value|]; [|apply stable_ret]. apply stable_bind; [apply stable_lift|]. intros f.
    apply stable_bind; [apply stable_finish|intros _; apply stable_ret].
Qed.

Lemma stable_choices cs seen : stable P (apply_choices cs stream_budget seen).
Proof. revert seen. induction cs as [|c cs IH]; intros seen; [apply stable_ret|]. apply stable_bind; [apply stable_choice|intros b; apply IH]. Qed.

Context `{HashIteration}.

Lemma stable_new_choices chunk : stable P (apply_new_choices chunk stream_budget).
Proof.
  apply stable_bind; [apply stable_choices|]. intros seen. apply stable_bind; [|intros _; apply stable_reads]. destruct seen; [|apply stable_ret].
  apply stable_bind; [apply stable_reads|]. intros a. apply stable_bind; [apply stable_lift|]. intros complete. apply stable_bind; [apply stable_lift|]. intros finish.
  destruct (holdback_finish _ _ _) as [h events]. apply stable_bind; [by apply stable_same_reasoning|intros _; apply stable_collect].
Qed.

Lemma stable_transaction chunk : stable P (apply_chunk_transaction chunk stream_budget).
Proof.
  unfold apply_chunk_transaction. destruct (choices chunk) as [|c [|c' cs]] eqn:E; [apply stable_new_choices| |apply stable_fail].
  apply stable_bind; [apply stable_reads|]. intros [f|]; [|apply stable_new_choices]. destruct (repeats_terminal _ _ _); [apply stable_ret|apply stable_fail].
Qed.
End Undo.

(** ** Chunks are atomic *)

Section Atomic.
Context `{HashIteration}.

Lemma chunk_applied chunk b a : all_sent (tool_calls a) ->
  exists a' b' r, apply_chunk chunk b a = Some (a', b', r) /\ all_sent (tool_calls a') /\ (forall e, r = Err e -> a' = a /\ b' = b).
Proof.
  intros Hs. unfold apply_chunk. destruct (stable_transaction a b chunk _ (undoable_start a Hs)) as (t & r & -> & Hu).
  destruct r as [u|e].
  - eexists _, _, _. split; [reflexivity|]. split; [apply Hu|done].
  - rewrite (undoable_rollback a t Hu). eexists _, _, _. split; [reflexivity|]. split; [done|]. by intros ? [= <-].
Qed.

(** C34. Applying a chunk never panics.  A chunk that is refused, at whatever point of whatever tool call, leaves the accumulator
    and the budget exactly as they were. *)
Theorem chunks_are_atomic chunk b a : all_sent (tool_calls a) ->
  exists a' b' r, apply_chunk chunk b a = Some (a', b', r) /\ all_sent (tool_calls a') /\ (forall e, r = Err e -> a' = a /\ b' = b).
Proof. apply chunk_applied. Qed.
End Atomic.
