(* ===== verification/ChatCalls.v ===== *)
(** * What an accepted chunk does

    The effect of tool call deltas on the calls and on the events, and what a consumer of the events has
    collected. *)
From S2P Require Import Prelude.
From S2P Require Import Text.
From S2P Require Import Utf8.
From S2P Require Import ContextManager.
From S2P Require Import ProviderStream.
From S2P Require Import ChatStream.
From S2P Require Import ChatHoldback.
From S2P Require Import ChatChunk.

Open Scope nat_scope.

(** ** One delta *)

Definition delta_name (d : OpenAiToolCallDelta) : option text := delta_function d ≫= function_name.
Definition delta_arguments (d : OpenAiToolCallDelta) : option text := delta_function d ≫= function_arguments.

Definition or_else {A} (new old : option A) : option A := match new with Some a => Some a | None => old end.
Definition is_some {A} (o : option A) : bool := match o with Some _ => true | None => false end.

(** The call a delta leaves. *)
Definition merged (d : OpenAiToolCallDelta) (c : PartialToolCall) : PartialToolCall :=
  let id := or_else (delta_id d) (call_id c) in
  let name := or_else (delta_name d) (tool_name c) in
  let args := arguments c ++ default [] (delta_arguments d) in
  let saw := saw_arguments_field c || is_some (delta_arguments d) in
  let begun := is_some (identity {| call_id := id; tool_name := name; arguments := args; saw_arguments_field := saw; emitted_len := 0; started := false |}) in
  {| call_id := id; tool_name := name; arguments := args; saw_arguments_field := saw;
     emitted_len := if begun then byte_len args else 0; started := begun |}.

(** A call is announced as soon as it can be identified, and then sent as far as it is known. *)
Definition call_ok (c : PartialToolCall) : Prop :=
  started c = is_some (identity c) /\ emitted_len c = if started c then byte_len (arguments c) else 0%N.

Lemma empty_call_ok : call_ok empty_call.
Proof. by split. Qed.

Lemma merged_ok d c : call_ok (merged d c).
Proof. split; cbn; [|done]. unfold identity. done. Qed.

Lemma call_ok_sent c : call_ok c -> sent_ok c.
Proof. intros [_ He]. destruct (started c); [exists (arguments c), []|by exists [], (arguments c)]. by rewrite app_nil_r. Qed.

Definition delta_events (d : OpenAiToolCallDelta) (c : PartialToolCall) : list LlmEvent :=
  match identity (merged d c) with
  | None => []
  | Some (id, name) =>
    let unsent := if started c then default [] (delta_arguments d) else arguments (merged d c) in
    (if started c then [] else [ToolCallStart id name]) ++ (if is_empty unsent then [] else [ToolCallArgsDelta id unsent])
  end.

Lemma bind_unit {B} (m : txn unit) (k : unit -> txn B) t t' b :
  bind m k t = Some (t', Ok b) <-> exists t1, m t = Some (t1, Ok tt) /\ k tt t1 = Some (t', Ok b).
Proof. rewrite bind_some. split; [intros (t1 & [] & ?); by exists t1|intros (t1 & ?); by exists t1, tt]. Qed.

Definition put (i : N) (c : PartialToolCall) (t : ChunkTxn) : ChunkTxn :=
  {| acc := set_calls (<[i := c]> (tool_calls (acc t))) (acc t); budget_stage := budget_stage t; journal := journal t; collected := collected t |}.

Lemma entry_put i c t : entry i (put i c t) = c.
Proof. unfold entry. cbn. by rewrite lookup_insert_eq. Qed.

Lemma put_put i c c' t : put i c' (put i c t) = put i c' t.
Proof. unfold put, set_calls. cbn. by rewrite insert_insert_eq. Qed.

Lemma with_entry_some i f t t' r : with_entry i f t = Some (t', r) -> r = Ok tt -> exists c, f (entry i t) = Ok c /\ t' = put i c t.
Proof. unfold with_entry. fold (entry i t). destruct (f (entry i t)) as [c|e]; intros [= <- <-]; [|done]. intros _. by exists c. Qed.

Lemma with_entry_ok i f t c : f (entry i t) = Ok c -> with_entry i f t = Some (put i c t, Ok tt).
Proof. unfold with_entry. fold (entry i t). by intros ->. Qed.

Lemma identity_set c id name args saw n b : call_id c = id -> tool_name c = name ->
  identity {| call_id := id; tool_name := name; arguments := args; saw_arguments_field := saw; emitted_len := n; started := b |} = identity c.
Proof. by intros <- <-. Qed.

Lemma start_call_ok i t t' : start_call i t = Some (t', Ok tt) ->
  match identity (entry i t) with
  | Some (id, name) =>
    if started (entry i t) then t' = t
    else entry i t' = set_started (entry i t) /\ tool_calls (acc t') = <[i := set_started (entry i t)]> (tool_calls (acc t)) /\
         collected t' = collected t ++ [ToolCallStart id name] /\ call_id_to_delta_index (acc t') = call_id_to_delta_index (acc t) /\
         budget_stage t' = budget_stage t
  | None => t' = t
  end.
Proof.
  unfold start_call. intros (t1 & c & [= <- <-] & E)%bind_some. fold (entry i t) in E. destruct (started (entry i t)) eqn:Es.
  - injection E as <-. by destruct (identity _) as [[]|].
  - destruct (identity (entry i t)) as [[id name]|] eqn:Ei; [|by injection E as <-].
    apply bind_some in E as (t1 & [] & [= <-] & E). apply with_entry_some in E as (c & [= <-] & ->); [|done].
    rewrite entry_put. done.
Qed.

Lemma call_eq a b : call_id a = call_id b -> tool_name a = tool_name b -> arguments a = arguments b -> saw_arguments_field a = saw_arguments_field b ->
  emitted_len a = emitted_len b -> started a = started b -> a = b.
Proof. destruct a, b. cbn. congruence. Qed.

Definition id_set (id : option text) (c : PartialToolCall) : PartialToolCall :=
  {| call_id := or_else id (call_id c); tool_name := tool_name c; arguments := arguments c; saw_arguments_field := saw_arguments_field c;
     emitted_len := emitted_len c; started := started c |}.
Definition name_set (name : option text) (c : PartialToolCall) : PartialToolCall :=
  {| call_id := call_id c; tool_name := or_else name (tool_name c); arguments := arguments c; saw_arguments_field := saw_arguments_field c;
     emitted_len := emitted_len c; started := started c |}.

Lemma id_set_none c : id_set None c = c.
Proof. by destruct c. Qed.
Lemma name_set_none c : name_set None c = c.
Proof. by destruct c. Qed.

(** An identifier or name that is known stays. *)
Definition agrees {A} (new old : option A) : Prop := match new with Some a => old = None \/ old = Some a | None => True end.

Definition id_step (i : N) (id : option text) : txn unit :=
  match id with
  | None => ret tt
  | Some id => let! inserted := bind_call_id i id in match inserted with Some alias => journal_alias alias | None => ret tt end
  end.

Definition alias_after (i : N) (id : option text) (m : gmap text N) : gmap text N := match id with Some id => <[id := i]> m | None => m end.

Lemma id_step_ok i id t t' : id_step i id t = Some (t', Ok tt) ->
  (t' = t /\ id = None \/ tool_calls (acc t') = <[i := id_set id (entry i t)]> (tool_calls (acc t))) /\
  collected t' = collected t /\ budget_stage t' = budget_stage t /\ entry i t' = id_set id (entry i t) /\
  call_id_to_delta_index (acc t') = alias_after i id (call_id_to_delta_index (acc t)) /\ agrees id (call_id (entry i t)) /\
  (forall a, id = Some a -> call_id_to_delta_index (acc t) !! a = None \/ call_id_to_delta_index (acc t) !! a = Some i).
Proof.
  unfold id_step. destruct id as [id|].
  - intros (t2 & inserted & E1 & E2)%bind_some. unfold bind_call_id in E1. apply bind_some in E1 as (t1 & ex & [= <- <-] & E1).
    destruct (call_id_to_delta_index (acc t) !! id) as [existing|] eqn:Ea.
    + destruct (N.eqb_spec existing i) as [->|]; [|done]. cbn [negb] in E1. apply bind_some in E1 as (t3 & [] & E1 & [= <- <-]).
      apply with_entry_some in E1 as (c & [-> Hc]%record_call_id_ok & ->); [|done]. injection E2 as <-.
      split; [by right|]. split; [done|]. split; [done|]. split; [by rewrite entry_put|]. cbn. split; [by rewrite insert_id|]. split; [done|].
      intros a [= <-]. by right.
    + apply bind_some in E1 as (t3 & [] & E1 & E3). apply with_entry_some in E1 as (c & [-> Hc]%record_call_id_ok & ->); [|done].
      apply bind_some in E3 as (t4 & [] & [= <-] & [= <- <-]). injection E2 as <-.
      split; [by right|]. split; [done|]. split; [done|]. split; [unfold entry; cbn; by rewrite lookup_insert_eq|]. split; [done|]. split; [done|].
      intros a [= <-]. by left.
  - intros [= <-]. split; [by left|]. rewrite id_set_none. done.
Qed.

Definition function_step (i : N) (f : option OpenAiToolCallFunctionDelta) (b : ProviderStreamBudget) : txn unit :=
  match f with
  | None => ret tt
  | Some function =>
    let! _ := match function_name function with None => ret tt | Some name => with_entry i (record_tool_name name i) end in
    match function_arguments function with
    | None => ret tt
    | Some args =>
      let! _ := with_entry i (fun c => Ok (set_arguments (arguments c) true c)) in
      let! _ := on_stage (stage_tool_arguments b (budget_key i) (byte_len args)) in
      with_entry i (fun c => Ok (set_arguments (arguments c ++ args) (saw_arguments_field c) c))
    end
  end.

Definition staged_arguments (i : N) (args : option text) (b : ProviderStreamBudget) (s s' : ProviderStreamBudgetStage) : Prop :=
  match args with None => s' = s | Some args => stage_tool_arguments b (budget_key i) (byte_len args) s = Ok s' end.

Lemma stage_some f t t' : on_stage f t = Some (t', Ok tt) ->
  exists s, f (budget_stage t) = Ok s /\ t' = {| acc := acc t; budget_stage := s; journal := journal t; collected := collected t |}.
Proof. unfold on_stage. destruct (f (budget_stage t)) as [s|e]; intros [= <-]. by exists s. Qed.

Lemma name_step_ok i f t t' : (match f with None => ret tt | Some name => with_entry i (record_tool_name name i) end) t = Some (t', Ok tt) ->
  (f = None /\ t' = t \/ t' = put i (name_set f (entry i t)) t) /\ agrees f (tool_name (entry i t)).
Proof.
  destruct f as [name|].
  - intros (c & [-> Hn]%record_tool_name_ok & ->)%with_entry_some; [|done]. split; [by right|done].
  - intros [= <-]. split; [by left|done].
Qed.

Lemma function_step_ok i f b t t' : is_Some (tool_calls (acc t) !! i) -> function_step i f b t = Some (t', Ok tt) ->
  let name := f ≫= function_name in
  let args := f ≫= function_arguments in
  let c := entry i t in
  tool_calls (acc t') = <[i := set_arguments (arguments c ++ default [] args) (saw_arguments_field c || is_some args) (name_set name c)]> (tool_calls (acc t)) /\
  collected t' = collected t /\ call_id_to_delta_index (acc t') = call_id_to_delta_index (acc t) /\
  agrees name (tool_name c) /\ staged_arguments i args b (budget_stage t) (budget_stage t').
Proof.
  intros [c Hc]. assert (entry i t = c) as Ec by (unfold entry; by rewrite Hc). unfold function_step. destruct f as [f|].
  - intros (t1 & u & E1 & E2)%bind_some. destruct u. apply name_step_ok in E1 as [E1 Hn]. cbn [mbind option_bind]. rewrite Ec in *.
    assert (tool_calls (acc t1) = <[i := name_set (function_name f) c]> (tool_calls (acc t)) /\ entry i t1 = name_set (function_name f) c /\ collected t1 = collected t /\
            call_id_to_delta_index (acc t1) = call_id_to_delta_index (acc t) /\ budget_stage t1 = budget_stage t) as (Hm & He & Hcl & Hal & Hst).
    { destruct E1 as [[-> ->]| ->]; [|by rewrite entry_put]. rewrite name_set_none, insert_id; done. }
    destruct (function_arguments f) as [args|]; cbn [default is_some].
    + apply bind_some in E2 as (t2 & [] & E2 & E3). apply with_entry_some in E2 as (c1 & [= <-] & ->); [|done].
      apply bind_some in E3 as (t3 & [] & (s & Es & ->)%stage_some & E4). apply with_entry_some in E4 as (c2 & [= <-] & ->); [|done].
      rewrite He in *. unfold put, entry. cbn. rewrite lookup_insert_eq, insert_insert_eq, Hm, insert_insert_eq. cbn.
      split; [by rewrite orb_true_r|]. split; [done|]. split; [done|]. split; [done|]. by rewrite <- Hst.
    + injection E2 as <-. rewrite app_nil_r, orb_false_r. rewrite Hm. split; [by destruct c|]. done.
  - intros [= <-]. cbn. rewrite Ec, name_set_none, app_nil_r, orb_false_r. split; [|done]. rewrite insert_id; [done|]. rewrite Hc. by destruct c.
Qed.

Lemma emit_arguments_ok i t t' : sent_ok (entry i t) -> emit_arguments i t = Some (t', Ok tt) -> is_Some (tool_calls (acc t) !! i) ->
  exists sent rest, arguments (entry i t) = sent ++ rest /\ emitted_len (entry i t) = byte_len sent /\
  let shown := started (entry i t) && negb (is_empty rest) in
  tool_calls (acc t') = <[i := if shown then set_emitted (byte_len (arguments (entry i t))) (entry i t) else entry i t]> (tool_calls (acc t)) /\
  collected t' = collected t ++ (if shown then [ToolCallArgsDelta (default [] (call_id (entry i t))) rest] else []) /\
  call_id_to_delta_index (acc t') = call_id_to_delta_index (acc t) /\ budget_stage t' = budget_stage t.
Proof.
  intros Hs E [c Hc]. assert (entry i t = c) as Ec by (unfold entry; by rewrite Hc). destruct (arguments_delta_some _ Hs) as (sent & rest & Ha & He & Ed).
  exists sent, rest. split; [done|]. split; [done|]. unfold emit_arguments in E. apply bind_some in E as (t1 & u & [= <- <-] & E). fold (entry i t) in E.
  assert ((emitted_len (entry i t) <? byte_len (arguments (entry i t)))%N = negb (is_empty rest)) as Hl.
  { rewrite He, Ha, byte_len_app. destruct rest as [|x rest]; cbn [is_empty negb byte_len]; [apply N.ltb_ge; lia|apply N.ltb_lt]. pose proof (len_utf8_bounds x). lia. }
  rewrite Hl in E. cbv zeta. destruct (started (entry i t) && negb (is_empty rest)).
  - rewrite Ed in E. apply bind_some in E as (t1 & [] & (c1 & [= <-] & ->)%with_entry_some & [= <-]); done.
  - injection E as <-. rewrite app_nil_r, insert_id; [done|]. by rewrite Ec.
Qed.

Lemma identity_cases c : identity c = None \/ exists id name, identity c = Some (id, name) /\ call_id c = Some id /\ tool_name c = Some name /\ blank id = false /\ blank name = false.
Proof.
  unfold identity. destruct (call_id c) as [id|]; [|by left]. destruct (tool_name c) as [name|]; [|by left].
  destruct (blank id) eqn:Ei; [by left|]. destruct (blank name) eqn:En; [by left|]. right. by exists id, name.
Qed.

(** Once a call can be identified it always can. *)
Lemma merged_identity d c id name : agrees (delta_id d) (call_id c) -> agrees (delta_name d) (tool_name c) -> identity c = Some (id, name) ->
  identity (merged d c) = Some (id, name).
Proof.
  intros Hi Hn E. destruct (identity_cases c) as [?|(id' & name' & E' & Ei & En & Bi & Bn)]; [congruence|]. rewrite E in E'. injection E' as <- <-.
  unfold identity, merged. cbn. destruct (delta_id d) as [a|]; cbn in *.
  - assert (a = id) as -> by (destruct Hi; congruence). destruct (delta_name d) as [b|]; cbn in *; [|by rewrite En, Bi, Bn].
    assert (b = name) as -> by (destruct Hn; congruence). by rewrite Bi, Bn.
  - rewrite Ei. destruct (delta_name d) as [b|]; cbn in *; [|by rewrite En, Bi, Bn]. assert (b = name) as -> by (destruct Hn; congruence). by rewrite Bi, Bn.
Qed.

(** What the delta itself writes, before the call is announced. *)
Definition written (d : OpenAiToolCallDelta) (c : PartialToolCall) : PartialToolCall :=
  set_arguments (arguments c ++ default [] (delta_arguments d)) (saw_arguments_field c || is_some (delta_arguments d))
    (name_set (delta_name d) (id_set (delta_id d) c)).

Record delta_written (d : OpenAiToolCallDelta) (b : ProviderStreamBudget) (t t' : ChunkTxn) : Prop := {
  written_calls : tool_calls (acc t') = <[delta_index d := written d (entry (delta_index d) t)]> (tool_calls (acc t));
  written_events : collected t' = collected t;
  written_aliases : call_id_to_delta_index (acc t') = alias_after (delta_index d) (delta_id d) (call_id_to_delta_index (acc t));
  written_fresh : forall id, delta_id d = Some id ->
    call_id_to_delta_index (acc t) !! id = None \/ call_id_to_delta_index (acc t) !! id = Some (delta_index d);
  written_id : agrees (delta_id d) (call_id (entry (delta_index d) t));
  written_name : agrees (delta_name d) (tool_name (entry (delta_index d) t));
  written_stage : exists s, stage_tool_call b (budget_key (delta_index d)) (budget_stage t) = Ok s /\
                  staged_arguments (delta_index d) (delta_arguments d) b s (budget_stage t')
}.

Lemma delta_writes d b t t' : apply_tool_call_delta d b t = Some (t', Ok tt) ->
  exists t1, delta_written d b t t1 /\ bind (start_call (delta_index d)) (fun _ => emit_arguments (delta_index d)) t1 = Some (t', Ok tt).
Proof.
  set (i := delta_index d). intros E. unfold apply_tool_call_delta in E. fold i in E.
  apply bind_unit in E as (t0 & (s & Es & ->)%stage_some & E).
  set (t0 := {| acc := acc t; budget_stage := s; journal := journal t; collected := collected t |}) in E.
  assert (entry i t0 = entry i t) as E0 by done.
  apply bind_unit in E as (t1 & (H1 & Hc1 & Hst1 & He1 & Hal1 & Hid & Hfr)%id_step_ok & E).
  apply bind_unit in E as (t2 & (c & [= <-] & ->)%with_entry_some & E); [|done]. rewrite He1, E0 in E. set (c1 := id_set (delta_id d) (entry i t)) in E.
  assert (tool_calls (acc (put i c1 t1)) = <[i := c1]> (tool_calls (acc t))) as Hm2.
  { unfold put; cbn. destruct H1 as [[-> _]| ->]; [done|]. by rewrite insert_insert_eq. }
  apply bind_unit in E as (t3 & E3 & E). exists t3. split; [|exact E].
  apply function_step_ok in E3 as (Hm3 & Hc3 & Hal3 & Hn & Hst3); [|rewrite Hm2, lookup_insert_eq; by eexists]. rewrite entry_put in *.
  change (collected t3 = collected t1) in Hc3. change (call_id_to_delta_index (acc t3) = call_id_to_delta_index (acc t1)) in Hal3. change (budget_stage (put i c1 t1)) with (budget_stage t1) in Hst3.
  rewrite Hm2, insert_insert_eq in Hm3. split; fold i; try done; [by rewrite Hc3, Hc1|by rewrite Hal3, Hal1|].
  exists s. split; [done|]. by rewrite Hst1 in Hst3.
Qed.

(** The call once it was announced and sent as far as possible. *)
Definition announced (c : PartialToolCall) : PartialToolCall :=
  let begun := is_some (identity c) in
  {| call_id := call_id c; tool_name := tool_name c; arguments := arguments c; saw_arguments_field := saw_arguments_field c;
     emitted_len := if begun then byte_len (arguments c) else 0; started := begun |}.
Definition announce_events (c : PartialToolCall) (more : text) : list LlmEvent :=
  match identity c with
  | None => []
  | Some (id, name) =>
    let unsent := if started c then more else arguments c in
    (if started c then [] else [ToolCallStart id name]) ++ (if is_empty unsent then [] else [ToolCallArgsDelta id unsent])
  end.

(** A call of which a part was sent and to which [more] was added. *)
Record half_sent (c : PartialToolCall) (more : text) : Prop := {
  half_started : started c = true -> is_some (identity c) = true;
  half_rest : if started c then exists old, arguments c = old ++ more /\ emitted_len c = byte_len old else emitted_len c = 0%N
}.

Lemma half_split c more : half_sent c more -> exists sent, arguments c = sent ++ (if started c then more else arguments c) /\ emitted_len c = byte_len sent.
Proof. intros [_ Hr]. destruct (started c); [done|]. by exists []. Qed.

Lemma start_announces i c t t' : tool_calls (acc t) !! i = Some c -> start_call i t = Some (t', Ok tt) ->
  tool_calls (acc t') = <[i := if is_some (identity c) then set_started c else c]> (tool_calls (acc t)) /\
  collected t' = collected t ++ match identity c with None => [] | Some (id, name) => if started c then [] else [ToolCallStart id name] end /\
  call_id_to_delta_index (acc t') = call_id_to_delta_index (acc t) /\ budget_stage t' = budget_stage t.
Proof.
  intros Hc E%start_call_ok. assert (entry i t = c) as Ec by (unfold entry; by rewrite Hc). rewrite Ec in E. destruct (identity c) as [[id name]|]; cbn [is_some].
  - destruct (started c) eqn:Es; [|destruct E as (_ & -> & -> & -> & ->); done]. subst t'. rewrite app_nil_r. split; [|done]. rewrite insert_id; [done|]. rewrite Hc. f_equal.
    unfold set_started. rewrite <- Es. by destruct c.
  - subst t'. rewrite app_nil_r. split; [by rewrite insert_id|done].
Qed.

Lemma announce_ok i c more t t' : tool_calls (acc t) !! i = Some c -> half_sent c more ->
  bind (start_call i) (fun _ => emit_arguments i) t = Some (t', Ok tt) ->
  tool_calls (acc t') = <[i := announced c]> (tool_calls (acc t)) /\ collected t' = collected t ++ announce_events c more /\
  call_id_to_delta_index (acc t') = call_id_to_delta_index (acc t) /\ budget_stage t' = budget_stage t.
Proof.
  intros Hc Hh (t1 & E1 & E2)%bind_unit. destruct (start_announces i c t t1 Hc E1) as (Hm1 & Hc1 & Hal1 & Hst1).
  set (begun := is_some (identity c)) in *. set (c1 := if begun then set_started c else c) in *.
  assert (entry i t1 = c1) as He1 by (unfold entry; by rewrite Hm1, lookup_insert_eq).
  assert (started c1 = begun /\ arguments c1 = arguments c /\ emitted_len c1 = emitted_len c /\ call_id c1 = call_id c) as (Hs1 & Ha1 & Hl1 & Hi1).
  { unfold c1. destruct begun eqn:Eb; [done|]. split; [|done]. destruct Hh as [Hs _]. destruct (started c); [|done]. by rewrite <- Eb, <- Hs. }
  destruct (half_split c more Hh) as (sent & Hsa & Hse). set (unsent := if started c then more else arguments c) in *.
  apply emit_arguments_ok in E2 as (sent' & rest & Ha & Hl & Hm2 & Hc2 & Hal2 & Hst2); rewrite ?He1 in *.
  2: { exists sent, unsent. by rewrite Ha1, Hl1. }
  2: { rewrite Hm1, lookup_insert_eq. by eexists. }
  assert (rest = unsent) as ->.
  { pose proof (split_bytes_app sent unsent) as F. rewrite <- Hsa, <- Ha1, Ha, <- Hse, <- Hl1, Hl, split_bytes_app in F. congruence. }
  rewrite Hs1 in Hm2, Hc2. split; [|split; [|split; congruence]].
  - rewrite Hm2, Hm1, insert_insert_eq. f_equal. destruct (is_empty unsent) eqn:Eu; cbn [negb].
    + rewrite andb_false_r. assert (unsent = []) as Eun by by destruct unsent. apply call_eq; try (unfold c1; by destruct begun); [|by rewrite Hs1].
      unfold announced. cbn [emitted_len]. fold begun. rewrite Hl1, Hse. rewrite Eun, app_nil_r in Hsa. rewrite Hsa. destruct begun eqn:Eb; [done|].
      destruct Hh as [Hs Hr]. destruct (started c); [specialize (Hs eq_refl); fold begun in Hs; congruence|]. by rewrite <- Hse.
    + rewrite andb_true_r. apply call_eq; try (unfold c1; by destruct begun); [|transitivity (started c1); [by destruct begun|by rewrite Hs1]].
      unfold announced. cbn [emitted_len]. fold begun. destruct begun eqn:Eb; [change (byte_len (arguments c1) = byte_len (arguments c)); by rewrite Ha1|]. rewrite Hl1. destruct Hh as [Hs Hr]. destruct (started c); [specialize (Hs eq_refl); fold begun in Hs; congruence|done].
  - rewrite Hc2, Hc1, <- app_assoc. f_equal. unfold announce_events. fold unsent. rewrite Hi1. unfold begun.
    destruct (identity_cases c) as [->|(id & name & -> & -> & _)]; [done|]. cbn [is_some andb default]. f_equal. by destruct (is_empty unsent).
Qed.

Record delta_done (d : OpenAiToolCallDelta) (b : ProviderStreamBudget) (t t' : ChunkTxn) : Prop := {
  done_calls : tool_calls (acc t') = <[delta_index d := merged d (entry (delta_index d) t)]> (tool_calls (acc t));
  done_events : collected t' = collected t ++ delta_events d (entry (delta_index d) t);
  done_aliases : call_id_to_delta_index (acc t') = alias_after (delta_index d) (delta_id d) (call_id_to_delta_index (acc t));
  done_fresh : forall id, delta_id d = Some id ->
    call_id_to_delta_index (acc t) !! id = None \/ call_id_to_delta_index (acc t) !! id = Some (delta_index d);
  done_id : agrees (delta_id d) (call_id (entry (delta_index d) t));
  done_name : agrees (delta_name d) (tool_name (entry (delta_index d) t));
  done_stage : exists s, stage_tool_call b (budget_key (delta_index d)) (budget_stage t) = Ok s /\
               staged_arguments (delta_index d) (delta_arguments d) b s (budget_stage t')
}.

Lemma written_half d c : call_ok c -> agrees (delta_id d) (call_id c) -> agrees (delta_name d) (tool_name c) ->
  half_sent (written d c) (default [] (delta_arguments d)).
Proof.
  intros [Hs He] Hi Hn. split; cbn [written set_arguments name_set id_set started arguments emitted_len].
  - rewrite Hs. destruct (identity_cases c) as [->|(id & name & Ei & _)]; [done|]. intros _. change (identity (written d c)) with (identity (merged d c)).
    by rewrite (merged_identity d c id name Hi Hn Ei).
  - destruct (started c); [by exists (arguments c)|done].
Qed.

Lemma delta_ok d b t t' : call_ok (entry (delta_index d) t) -> apply_tool_call_delta d b t = Some (t', Ok tt) -> delta_done d b t t'.
Proof.
  intros Hok (t1 & [Wc We Wa Wf Wi Wn (s & Ws & Wg)] & E)%delta_writes. set (i := delta_index d) in *. set (c := entry i t) in *.
  assert (tool_calls (acc t1) !! i = Some (written d c)) as Hc by (by rewrite Wc, lookup_insert_eq).
  destruct (announce_ok i _ _ t1 t' Hc (written_half d c Hok Wi Wn) E) as (Hm & Hev & Hal & Hst).
  split; fold i c; try done.
  - rewrite Hm, Wc, insert_insert_eq. done.
  - rewrite Hev, We. f_equal.
  - congruence.
  - exists s. by rewrite Hst.
Qed.

(** ** The consumer of the events *)

(** What a consumer makes of the events: the calls by identifier, with name and arguments.  A call that is started
    twice, or continued before it was started, is an error. *)
Definition collect_event (k : gmap text (text * text)) (e : LlmEvent) : option (gmap text (text * text)) :=
  match e with
  | ToolCallStart id name => match k !! id with None => Some (<[id := (name, [])]> k) | Some _ => None end
  | ToolCallArgsDelta id delta => match k !! id with Some (name, args) => Some (<[id := (name, args ++ delta)]> k) | None => None end
  | _ => Some k
  end.
Fixpoint collect (events : list LlmEvent) (k : gmap text (text * text)) : option (gmap text (text * text)) :=
  match events with
  | [] => Some k
  | e :: events => collect_event k e ≫= collect events
  end.

Lemma collect_app a b k : collect (a ++ b) k = collect a k ≫= collect b.
Proof. revert k. induction a as [|e a IH]; intros k; [done|]. cbn. destruct (collect_event k e); [apply IH|done]. Qed.

Lemma collect_text events k : text_events events -> collect events k = Some k.
Proof. induction 1 as [|e events He _ IH]; [done|]. by destruct e. Qed.

(** The consumer has exactly the calls that were announced, as far as they are known. *)
Definition announces (k : gmap text (text * text)) (m : gmap N PartialToolCall) : Prop :=
  forall id name args, k !! id = Some (name, args) <->
    exists i c, m !! i = Some c /\ started c = true /\ call_id c = Some id /\ tool_name c = Some name /\ arguments c = args.

(** Calls as the accumulator keeps them: announced when identified, each under an identifier of its own. *)
Record calls_ok (m : gmap N PartialToolCall) (aliases : gmap text N) : Prop := {
  each_ok : map_Forall (fun _ c => call_ok c) m;
  own_id : forall i c id, m !! i = Some c -> call_id c = Some id -> aliases !! id = Some i
}.

Lemma entry_ok i t : calls_ok (tool_calls (acc t)) (call_id_to_delta_index (acc t)) -> call_ok (entry i t).
Proof. intros [He _]. unfold entry. destruct (tool_calls (acc t) !! i) as [c|] eqn:E; [by apply (He i)|apply empty_call_ok]. Qed.

Lemma entry_id i t id : calls_ok (tool_calls (acc t)) (call_id_to_delta_index (acc t)) -> call_id (entry i t) = Some id ->
  call_id_to_delta_index (acc t) !! id = Some i.
Proof. intros [_ Ho]. unfold entry. destruct (tool_calls (acc t) !! i) as [c|] eqn:E; [|done]. by apply Ho. Qed.

Lemma announces_insert k m i c id name args : announces k m -> started c = true -> call_id c = Some id -> tool_name c = Some name -> arguments c = args ->
  (forall j d, m !! j = Some d -> call_id d = Some id -> j = i) ->
  (forall d, m !! i = Some d -> started d = true -> call_id d = Some id) ->
  announces (<[id := (name, args)]> k) (<[i := c]> m).
Proof.
  intros Ha Hs Hi Hn Hg Hother Hself id' name' args'. destruct (decide (id' = id)) as [->|Hne].
  - rewrite lookup_insert_eq. split.
    + intros [= <- <-]. exists i, c. by rewrite lookup_insert_eq.
    + intros (j & d & Hj & Hsd & Hid & Hnd & Hgd). destruct (decide (j = i)) as [->|Hji]; [rewrite lookup_insert_eq in Hj; congruence|].
      rewrite lookup_insert_ne in Hj by done. by destruct Hji; eapply Hother.
  - rewrite lookup_insert_ne by done. rewrite (Ha id' name' args'). split.
    + intros (j & d & Hj & Hsd & Hid & Hnd & Hgd). exists j, d. destruct (decide (j = i)) as [->|Hji]; [|by rewrite lookup_insert_ne].
      pose proof (Hself d Hj Hsd). congruence.
    + intros (j & d & Hj & Hsd & Hid & Hnd & Hgd). exists j, d. destruct (decide (j = i)) as [->|Hji]; [|by rewrite lookup_insert_ne in Hj].
      rewrite lookup_insert_eq in Hj. congruence.
Qed.

Lemma announces_quiet k m i c : announces k m -> started c = false -> (forall d, m !! i = Some d -> started d = false) -> announces k (<[i := c]> m).
Proof.
  intros Ha Hs Hself id' name' args'. rewrite (Ha id' name' args'). split; intros (j & d & Hj & Hsd & Hr); exists j, d; (split; [|done]).
  - destruct (decide (j = i)) as [->|Hji]; [|by rewrite lookup_insert_ne]. rewrite (Hself d Hj) in Hsd. done.
  - destruct (decide (j = i)) as [->|Hji]; [rewrite lookup_insert_eq in Hj; congruence|]. by rewrite lookup_insert_ne in Hj.
Qed.

Lemma delta_calls_ok d b t t' : calls_ok (tool_calls (acc t)) (call_id_to_delta_index (acc t)) -> delta_done d b t t' ->
  calls_ok (tool_calls (acc t')) (call_id_to_delta_index (acc t')).
Proof.
  intros Hok [Hc _ Ha Hf _ _ _]. rewrite Hc, Ha. pose proof Hok as [He Ho]. split; [apply map_Forall_insert_2; [apply merged_ok|done]|].
  intros j c id Hj Hid. destruct (decide (j = delta_index d)) as [->|Hne].
  - rewrite lookup_insert_eq in Hj. injection Hj as <-. cbn in Hid. destruct (delta_id d) as [id'|]; cbn in *.
    + injection Hid as ->. apply lookup_insert_eq.
    + by apply entry_id.
  - rewrite lookup_insert_ne in Hj by done. specialize (Ho j c id Hj Hid). destruct (delta_id d) as [id'|]; cbn; [|done].
    destruct (decide (id = id')) as [->|Hii]; [|by rewrite lookup_insert_ne]. destruct (Hf id' eq_refl) as [F|F]; congruence.
Qed.

Lemma delta_collects d b t t' k : calls_ok (tool_calls (acc t)) (call_id_to_delta_index (acc t)) -> delta_done d b t t' ->
  announces k (tool_calls (acc t)) ->
  exists k', collect (delta_events d (entry (delta_index d) t)) k = Some k' /\ announces k' (tool_calls (acc t')).
Proof.
  intros Hok Hd Ha. pose proof (delta_calls_ok d b t t' Hok Hd) as Hok'. destruct Hd as [Hc _ Hal Hf Hid Hn _]. rewrite Hc in *.
  set (i := delta_index d) in *. set (c := entry i t) in *. pose proof (entry_ok i t Hok) as [Hs _]. fold c in Hs.
  assert (forall e, tool_calls (acc t) !! i = Some e -> c = e) as Hce by (intros e He; unfold c, entry; by rewrite He).
  unfold delta_events. destruct (identity_cases (merged d c)) as [E|(id & name & E & Eid & En & _)]; rewrite E.
  - exists k. split; [done|]. apply announces_quiet; [done| |].
    + destruct (merged_ok d c) as [-> _]. by rewrite E.
    + intros e He. rewrite <- (Hce e He), Hs. destruct (identity_cases c) as [->|(id & name & Ei & _)]; [done|]. rewrite (merged_identity d c id name Hid Hn Ei) in E. done.
  - assert (started (merged d c) = true) as Hst by (destruct (merged_ok d c) as [-> _]; by rewrite E).
    assert (forall j e, tool_calls (acc t) !! j = Some e -> call_id e = Some id -> j = i) as Hother.
    { intros j e Hj He. destruct (decide (j = i)) as [|Hne]; [done|]. destruct Hok' as [_ Ho]. pose proof (Ho j e id ltac:(by rewrite lookup_insert_ne) He) as H1.
      pose proof (Ho i (merged d c) id ltac:(by rewrite lookup_insert_eq) Eid) as H2. congruence. }
    destruct (started c) eqn:Es.
    + destruct (identity_cases c) as [F|(id0 & name0 & Ei & Ei1 & Ei2 & _)]; [by rewrite F in Hs|].
      rewrite (merged_identity d c id0 name0 Hid Hn Ei) in E. injection E as -> ->.
      assert (exists e, tool_calls (acc t) !! i = Some e) as [e He].
      { unfold c, entry in Es. destruct (tool_calls (acc t) !! i) as [e|]; [by exists e|done]. }
      pose proof (Hce e He) as Hece. assert (k !! id = Some (name, arguments c)) as Hk by (apply Ha; exists i, c; split; [by rewrite Hece|done]).
      cbn [app]. exists (<[id := (name, arguments (merged d c))]> k). split.
      * change (arguments (merged d c)) with (arguments c ++ default [] (delta_arguments d)).
        destruct (default [] (delta_arguments d)) as [|x xs]; cbn; [rewrite app_nil_r; f_equal; symmetry; by apply insert_id|by rewrite Hk].
      * apply announces_insert; [done..|]. intros e' He' _. by rewrite <- (Hce e' He').
    + assert (k !! id = None) as Hk.
      { destruct (k !! id) as [[nm ar]|] eqn:Ek; [|done]. apply Ha in Ek as (j & e & Hj & Hse & Hide & _). pose proof (Hother j e Hj Hide) as ->.
        rewrite (Hce e Hj) in Es. congruence. }
      exists (<[id := (name, arguments (merged d c))]> k). split.
      * cbn [app collect collect_event]. rewrite Hk. cbn [mbind option_bind]. destruct (is_empty (arguments (merged d c))) eqn:Ee.
        -- assert (arguments (merged d c) = []) as -> by by destruct (arguments (merged d c)). done.
        -- cbn [collect collect_event]. rewrite lookup_insert_eq. cbn [mbind option_bind collect app]. by rewrite insert_insert_eq.
      * apply announces_insert; [done..|]. intros e' He' Hse'. rewrite <- (Hce e' He') in Hse'. congruence.
Qed.
