(* ===== verification/ChatAccepted.v ===== *)
(** * The accumulator over accepted chunks

    After any sequence of accepted chunks the accumulator, the budget and the events handed out so far are what
    the chunks say. *)
From S2P Require Import Prelude.
From S2P Require Import Text.
From S2P Require Import Utf8.
From S2P Require Import ContextManager.
From S2P Require Import ProviderStream.
From S2P Require Import ChatStream.
From S2P Require Import ChatHoldback.
From S2P Require Import ChatChunk.
From S2P Require Import ChatCalls.

Open Scope nat_scope.

(** ** What the chunks say *)

Definition chunk_deltas (chunk : OpenAiChatChunk) : list OpenAiToolCallDelta :=
  choices chunk ≫= fun c => default [] (delta_tool_calls (choice_delta c)).
Definition chunk_content (chunk : OpenAiChatChunk) : text := choices chunk ≫= fun c => default [] (content (choice_delta c)).

Definition merge_into (m : gmap N PartialToolCall) (d : OpenAiToolCallDelta) : gmap N PartialToolCall :=
  <[delta_index d := merged d (default empty_call (m !! delta_index d))]> m.
Definition calls_of (deltas : list OpenAiToolCallDelta) : gmap N PartialToolCall := fold_left merge_into deltas ∅.

(** ** The budget *)

Definition within_u64 (l : ProviderStreamLimits) : Prop := (max_tool_calls l < u64_max)%N /\ (max_tool_call_argument_bytes l < u64_max)%N.

Definition charged (b : ProviderStreamBudget) (s : ProviderStreamBudgetStage) (i : N) : N :=
  default 0%N (tool_argument_bytes b !! budget_key i) + default 0%N (staged_argument_bytes s !! budget_key i).

(** Every call is counted, and its arguments byte for byte. *)
Record staged_ok (b : ProviderStreamBudget) (s : ProviderStreamBudgetStage) (m : gmap N PartialToolCall) : Prop := {
  staged_keys : forall i, is_Some (m !! i) -> budget_key i ∈ budget_tool_calls b ∪ new_tool_calls s;
  staged_apart : new_tool_calls s ## budget_tool_calls b;
  staged_count : (N.of_nat (size (budget_tool_calls b)) + N.of_nat (size (new_tool_calls s)) <= max_tool_calls (limits b))%N;
  staged_bytes : forall i, charged b s i = byte_len (arguments (default empty_call (m !! i))) /\ (charged b s i <= max_tool_call_argument_bytes (limits b))%N
}.

Lemma lit_inj a b : lit a = lit b -> a = b.
Proof.
  revert b. induction a as [|x a IH]; intros [|y b]; [done..|]. cbn. intros [= E1 E2%IH]. subst. f_equal.
  rewrite <- (Ascii.ascii_N_embedding x), <- (Ascii.ascii_N_embedding y). by rewrite E1.
Qed.

Lemma budget_key_inj i j : budget_key i = budget_key j -> i = j.
Proof. intros E%app_inv_head. unfold show_N in E. apply lit_inj in E. by apply (inj pretty). Qed.

Lemma ensured surface actual maximum : ensure_stream_limit surface actual maximum = Ok tt <-> (actual <= maximum)%N.
Proof. unfold ensure_stream_limit. destruct (N.ltb_spec maximum actual); split; try done; lia. Qed.

Lemma stage_call_ok b key s s' : within_u64 (limits b) -> stage_tool_call b key s = Ok s' ->
  new_tool_calls s ## budget_tool_calls b ->
  (N.of_nat (size (budget_tool_calls b)) + N.of_nat (size (new_tool_calls s)) <= max_tool_calls (limits b))%N ->
  staged_argument_bytes s' = staged_argument_bytes s /\ new_tool_calls s' ## budget_tool_calls b /\
  budget_tool_calls b ∪ new_tool_calls s' = {[key]} ∪ (budget_tool_calls b ∪ new_tool_calls s) /\
  (N.of_nat (size (budget_tool_calls b)) + N.of_nat (size (new_tool_calls s')) <= max_tool_calls (limits b))%N.
Proof.
  intros [Hl _] E Hd Hc. unfold stage_tool_call in E. case_bool_decide as H1; cbn in E; [injection E as <-; split; [done|]; split; [done|]; split; [set_solver|done]|].
  case_bool_decide as H2; [injection E as <-; split; [done|]; split; [done|]; split; [set_solver|done]|].
  apply and_then_ok in E as ([] & E%ensured & [= <-]). cbn [staged_argument_bytes new_tool_calls]. split; [done|]. split; [set_solver|]. split; [set_solver|].
  rewrite size_union by set_solver. rewrite size_singleton. unfold saturating_add_u64 in E. lia.
Qed.

Lemma delta_staged d b t t' : within_u64 (limits b) -> delta_done d b t t' -> staged_ok b (budget_stage t) (tool_calls (acc t)) ->
  staged_ok b (budget_stage t') (tool_calls (acc t')).
Proof.
  intros Hl [Hc _ _ _ _ _ (s & Es & Ea)] [Hk Hap Hn Hb]. set (i := delta_index d) in *.
  destruct (stage_call_ok _ _ _ _ Hl Es Hap Hn) as (Hs1 & Hs2 & Hs3 & Hs4).
  assert (new_tool_calls (budget_stage t') = new_tool_calls s /\
          forall j, charged b (budget_stage t') j = byte_len (arguments (default empty_call (tool_calls (acc t') !! j))) /\
                    (charged b (budget_stage t') j <= max_tool_call_argument_bytes (limits b))%N) as [Hnew Hby].
  { unfold charged in *. unfold staged_arguments in Ea. rewrite Hc.
    destruct (delta_arguments d) as [args|] eqn:Eargs.
    - unfold stage_tool_arguments in Ea. apply and_then_ok in Ea as ([] & Ele%ensured & Est). injection Est as Est.
      rewrite <- Est. cbn [new_tool_calls staged_argument_bytes]. split; [done|]. intros j. destruct (Hb i) as [Hbi Hbl]. rewrite <- Hs1 in Hbi, Hbl.
      unfold saturating_add_u64 in *. destruct Hl as [_ Hl]. destruct (decide (j = i)) as [->|Hne].
      + rewrite !lookup_insert_eq. cbn [default]. unfold id. change (arguments (merged d (entry i t))) with (arguments (entry i t) ++ default [] (delta_arguments d)).
        rewrite Eargs. cbn [default]. rewrite byte_len_app. unfold entry. unfold id in *. lia.
      + rewrite !lookup_insert_ne; [|done|by intros F%budget_key_inj]. rewrite Hs1. apply Hb.
    - rewrite Ea. split; [done|]. intros j. rewrite Hs1. destruct (decide (j = i)) as [->|Hne]; [|rewrite lookup_insert_ne by done; apply Hb].
      rewrite lookup_insert_eq. cbn [default]. unfold id. change (arguments (merged d (entry i t))) with (arguments (entry i t) ++ default [] (delta_arguments d)).
      rewrite Eargs, app_nil_r. apply Hb. }
  split; rewrite ?Hnew; try done. intros j [c Hj]. rewrite Hs3. rewrite Hc in Hj. destruct (decide (j = i)) as [->|Hne]; [set_solver|].
  rewrite lookup_insert_ne in Hj by done. apply elem_of_union_r, Hk. by exists c.
Qed.

Lemma commit_ok b s m : within_u64 (limits b) -> staged_ok b s m -> staged_ok (commit_stage s b) empty_stage m.
Proof.
  intros [_ Hl] [Hk Ha Hn Hb]. split; cbn [commit_stage budget_tool_calls new_tool_calls empty_stage limits].
  - intros i Hi. rewrite union_empty_r_L. by apply Hk.
  - apply disjoint_empty_l.
  - rewrite size_union by set_solver. rewrite size_empty. lia.
  - intros i. destruct (Hb i) as [H1 H2]. unfold charged in *. cbn [commit_stage tool_argument_bytes staged_argument_bytes empty_stage].
    rewrite lookup_empty, lookup_merge. unfold diag_None.
    destruct (tool_argument_bytes b !! budget_key i), (staged_argument_bytes s !! budget_key i); cbn [default] in *; unfold id, saturating_add_u64 in *; lia.
Qed.

Lemma fresh_budget_ok l idle : staged_ok (budget_new l idle) empty_stage ∅.
Proof. split; cbn; [intros i [c Hc]; by rewrite lookup_empty in Hc|apply disjoint_empty_l|rewrite size_empty; lia|]. intros i. unfold charged. cbn. rewrite !lookup_empty. cbn. unfold id. lia. Qed.

(** ** The deltas of a chunk *)

Definition tool_events (events : list LlmEvent) : Prop :=
  Forall (fun e => match e with ToolCallStart _ _ | ToolCallArgsDelta _ _ => True | _ => False end) events.

Lemma tool_events_text events : tool_events events -> text_of events = [].
Proof. induction 1 as [|e events He _ IH]; [done|]. by destruct e. Qed.

Lemma delta_events_tool d c : tool_events (delta_events d c).
Proof.
  unfold delta_events, tool_events. destruct (identity _) as [[id name]|]; [|constructor]. apply Forall_app. split; [destruct (started c)|destruct (is_empty _)]; repeat constructor.
Qed.

Lemma delta_untouched d b t t' : all_sent (tool_calls (acc t)) -> apply_tool_call_delta d b t = Some (t', Ok tt) ->
  finish_reason (acc t') = finish_reason (acc t) /\ assistant_text (acc t') = assistant_text (acc t) /\ reasoning_text (acc t') = reasoning_text (acc t).
Proof.
  intros Hs E. assert (progressed (delta_index d) t t) as Hp.
  { split; [apply touched_refl|]. unfold entry. destruct (tool_calls (acc t) !! delta_index d) as [c|] eqn:Ec; [by apply (Hs (delta_index d))|apply empty_sent]. }
  destruct (stable_delta _ t b d eq_refl t Hp) as (t1 & r & E1 & [[_ Hf Ht Hr _] _]). rewrite E in E1. injection E1 as <- _. done.
Qed.

Lemma calls_ok_sent m al : calls_ok m al -> all_sent m.
Proof. intros [He _] i c Hc. by apply call_ok_sent, (He i). Qed.

(** What several deltas did. *)
Record deltas_done (ds : list OpenAiToolCallDelta) (b : ProviderStreamBudget) (t t' : ChunkTxn) : Prop := {
  all_calls : tool_calls (acc t') = fold_left merge_into ds (tool_calls (acc t));
  all_ids : calls_ok (tool_calls (acc t')) (call_id_to_delta_index (acc t'));
  all_events : exists events, collected t' = collected t ++ events /\ tool_events events /\
    forall k, announces k (tool_calls (acc t)) -> exists k', collect events k = Some k' /\ announces k' (tool_calls (acc t'));
  all_finish : finish_reason (acc t') = finish_reason (acc t);
  all_text : assistant_text (acc t') = assistant_text (acc t);
  all_reasoning : reasoning_text (acc t') = reasoning_text (acc t);
  all_staged : within_u64 (limits b) -> staged_ok b (budget_stage t) (tool_calls (acc t)) -> staged_ok b (budget_stage t') (tool_calls (acc t'))
}.

Lemma no_deltas b t : calls_ok (tool_calls (acc t)) (call_id_to_delta_index (acc t)) -> deltas_done [] b t t.
Proof. intros Hok. split; try done. exists []. split; [by rewrite app_nil_r|]. split; [constructor|]. intros k Hk. by exists k. Qed.

Lemma deltas_ok ds b t t' : calls_ok (tool_calls (acc t)) (call_id_to_delta_index (acc t)) -> apply_deltas ds b t = Some (t', Ok tt) -> deltas_done ds b t t'.
Proof.
  revert t. induction ds as [|d ds IH]; intros t Hok E; [injection E as <-; by apply no_deltas|].
  cbn [apply_deltas] in E. apply bind_unit in E as (t1 & [= <-] & E). set (t1 := {| acc := acc t; budget_stage := budget_stage t; journal := _; collected := collected t |}) in E.
  apply bind_unit in E as (t2 & E1 & E2). change (calls_ok (tool_calls (acc t1)) (call_id_to_delta_index (acc t1))) in Hok.
  pose proof (delta_ok d b t1 t2 (entry_ok _ t1 Hok) E1) as Hd. pose proof (delta_calls_ok d b t1 t2 Hok Hd) as Hok2.
  destruct (delta_untouched d b t1 t2 (calls_ok_sent _ _ Hok) E1) as (Hf & Ht & Hr).
  destruct (IH t2 Hok2 E2) as [Ac Ai (evs & Ae & Aq & Ak) Af At Ar As].
  split; [|done| |by rewrite Af, Hf|by rewrite At, Ht|by rewrite Ar, Hr|].
  - rewrite Ac. cbn [fold_left]. f_equal. rewrite (done_calls _ _ _ _ Hd). done.
  - exists (delta_events d (entry (delta_index d) t1) ++ evs). split; [by rewrite Ae, (done_events _ _ _ _ Hd), <- app_assoc|].
    split; [apply Forall_app; split; [apply delta_events_tool|done]|]. intros k Hk. destruct (delta_collects d b t1 t2 k Hok Hd Hk) as (k1 & Hk1 & Ha1).
    destruct (Ak k1 Ha1) as (k2 & Hk2 & Ha2). exists k2. split; [|done]. by rewrite collect_app, Hk1.
  - intros Hl Hs. apply As; [done|]. by apply (delta_staged d b t1 t2 Hl Hd).
Qed.

(** ** A choice *)

(** The text a choice adds and what of it is shown at once. *)
Record choice_done (c : OpenAiChoice) (b : ProviderStreamBudget) (t t' : ChunkTxn) (terminal : bool) : Prop := {
  choice_calls : tool_calls (acc t') = fold_left merge_into (default [] (delta_tool_calls (choice_delta c))) (tool_calls (acc t));
  choice_ids : calls_ok (tool_calls (acc t')) (call_id_to_delta_index (acc t'));
  choice_events : exists texts tools, collected t' = collected t ++ texts ++ tools /\ text_events texts /\ tool_events tools /\
    pending (assistant_text (acc t)) ++ default [] (content (choice_delta c)) = text_of texts ++ pending (assistant_text (acc t')) /\
    forall k, announces k (tool_calls (acc t)) -> exists k', collect tools k = Some k' /\ announces k' (tool_calls (acc t'));
  choice_hold : holdback_ok (assistant_text (acc t'));
  choice_staged : within_u64 (limits b) -> staged_ok b (budget_stage t) (tool_calls (acc t)) -> staged_ok b (budget_stage t') (tool_calls (acc t'));
  choice_finish : if terminal then exists value f, choice_finish_reason c = Some value /\ parse_finish_reason value = Ok f /\ finish_reason (acc t') = Some f
                  else choice_finish_reason c = None /\ finish_reason (acc t') = finish_reason (acc t)
}.

Lemma lift_some {A} (r : result A LlmError) t t' a : lift r t = Some (t', Ok a) <-> r = Ok a /\ t' = t.
Proof. unfold lift. split; [intros [= -> ->]; done|by intros [-> ->]]. Qed.

Lemma choice_ok c b t t' terminal : calls_ok (tool_calls (acc t)) (call_id_to_delta_index (acc t)) -> holdback_ok (assistant_text (acc t)) ->
  finish_reason (acc t) = None -> apply_choice c b t = Some (t', Ok terminal) -> choice_done c b t t' terminal.
Proof.
  intros Hok Hh Hf E. unfold apply_choice in E. destruct (negb _); [done|].
  apply bind_some in E as (t0 & r & [Hr ->]%lift_some & E).
  apply bind_unit in E as (t1 & E1 & E).
  assert (exists r', acc t1 = set_reasoning r' (acc t) /\ collected t1 = collected t /\ budget_stage t1 = budget_stage t) as (r' & Ha1 & Hc1 & Hs1).
  { destruct r as [value|]; injection E1 as <-; [by eexists|]. exists (reasoning_text (acc t)). split; [by destruct (acc t)|done]. }
  apply bind_unit in E as (t2 & E2 & E).
  assert (exists h texts, acc t2 = set_text h (acc t1) /\ collected t2 = collected t1 ++ texts /\ budget_stage t2 = budget_stage t1 /\ holdback_ok h /\ text_events texts /\
    pending (assistant_text (acc t)) ++ default [] (content (choice_delta c)) = text_of texts ++ pending h) as (h & texts & Ha2 & Hc2 & Hs2 & Hh2 & Htx & Hp2).
  { destruct (content (choice_delta c)) as [value|].
    - apply bind_some in E2 as (u & rr & [= <- <-] & E2). pose proof (push_delta_spec value (assistant_text (acc t1))) as Hp. rewrite Ha1 in Hp at 1. specialize (Hp Hh).
      apply bind_unit in E2 as (u & [= <-] & [= <-]). destruct (push_delta value (assistant_text (acc t1))) as [h texts] eqn:Ep.
      exists h, texts. split; [done|]. split; [done|]. split; [done|]. rewrite Ha1 in Hp. destruct Hp as (? & ? & ? & _). done.
    - injection E2 as <-. exists (assistant_text (acc t1)), []. split; [by destruct (acc t1)|]. split; [by rewrite app_nil_r|]. split; [done|].
      rewrite Ha1. split; [done|]. split; [constructor|]. cbn. by rewrite app_nil_r. }
  assert (calls_ok (tool_calls (acc t2)) (call_id_to_delta_index (acc t2))) as Hok2 by by rewrite Ha2, Ha1.
  apply bind_unit in E as (t3 & E3 & E).
  assert (deltas_done (default [] (delta_tool_calls (choice_delta c))) b t2 t3) as [Dc Di (tools & De & Dq & Dk) Df Dt Dr Ds].
  { destruct (delta_tool_calls (choice_delta c)) as [ds|]; [by apply deltas_ok|]. injection E3 as <-. by apply no_deltas. }
  assert (exists F, acc t' = set_finish F (acc t3) /\ collected t' = collected t3 /\ budget_stage t' = budget_stage t3 /\
    if terminal then exists value f, choice_finish_reason c = Some value /\ parse_finish_reason value = Ok f /\ F = Some f
    else choice_finish_reason c = None /\ F = finish_reason (acc t3)) as (F & Ha4 & Hc4 & Hs4 & Hfin).
  { destruct (choice_finish_reason c) as [value|].
    - apply bind_some in E as (u & f & [Hp ->]%lift_some & E). apply bind_unit in E as (t5 & E5 & [= <- <-]).
      unfold record_finish_reason in E5. apply bind_some in E5 as (u & ex & [= <- <-] & E5). rewrite Df, Ha2, Ha1 in E5. cbn in E5. rewrite Hf in E5.
      injection E5 as <-. exists (Some f). split; [done|]. split; [done|]. split; [done|]. by exists value, f.
    - injection E as <- <-. exists (finish_reason (acc t3)). split; [by destruct (acc t3)|done]. }
  split; rewrite ?Ha4; cbn [set_finish tool_calls call_id_to_delta_index assistant_text finish_reason].
  - by rewrite Dc, Ha2, Ha1.
  - done.
  - exists texts, tools. rewrite Hc4, De, Hc2, Hc1, <- app_assoc. split; [done|]. split; [done|]. split; [done|]. rewrite Dt, Ha2. split; [done|].
    intros k Hk. apply Dk. by rewrite Ha2, Ha1.
  - by rewrite Dt, Ha2.
  - intros Hl Hst. rewrite Hs4. apply Ds; [done|]. rewrite Hs2, Hs1, Ha2, Ha1. done.
  - destruct terminal; [done|]. destruct Hfin as [? ->]. by rewrite Df, Ha2, Ha1.
Qed.

(** ** Accepted chunks *)

Section Accepted.
Context `{HashIteration}.

Definition is_finished (e : LlmEvent) : bool := match e with Finished _ _ => true | _ => false end.

(** What is not shown yet: held back while the answer goes on, suppressed once it has ended in tool calls. *)
Definition unshown_ok (a : ChatStreamAccumulator) (unshown : text) : Prop :=
  match finish_reason a with
  | None => unshown = pending (assistant_text a)
  | Some f => passthrough (assistant_text a) = true /\
    (unshown <> [] -> f = ToolCall /\ artifacts unshown /\ (byte_len unshown <= CHATML_ARTIFACT_HOLDBACK_MAX_BYTES)%N)
  end.

Record accepted (chunks : list OpenAiChatChunk) (events : list LlmEvent) (a : ChatStreamAccumulator) (b : ProviderStreamBudget) : Prop := {
  acc_calls : tool_calls a = calls_of (chunks ≫= chunk_deltas);
  acc_ids : calls_ok (tool_calls a) (call_id_to_delta_index a);
  acc_collect : exists k, collect events ∅ = Some k /\ announces k (tool_calls a);
  acc_text : exists unshown, text_of events ++ unshown = chunks ≫= chunk_content /\ unshown_ok a unshown;
  acc_hold : holdback_ok (assistant_text a);
  acc_finish : forall f, finish_reason a = Some f -> exists complete, validate_streamed_tool_calls (tool_calls a) = Ok complete /\ resolve_finish_reason (Some f) complete = Ok f;
  acc_running : Forall (fun e => is_finished e = false) events;
  acc_budget : within_u64 (limits b) -> staged_ok b empty_stage (tool_calls a)
}.

Lemma accepted_nothing l idle : accepted [] [] empty_accumulator (budget_new l idle).
Proof.
  split; try done.
  - exists ∅. split; [done|]. intros id name args. rewrite lookup_empty. split; [done|]. intros (i & c & Hc & _). cbn in Hc. by rewrite lookup_empty in Hc.
  - by exists [].
  - apply empty_holdback_ok.
  - intros _. apply fresh_budget_ok.
Qed.

Lemma resolve_same f complete f' : resolve_finish_reason (Some f) complete = Ok f' -> f' = f.
Proof. destruct f, complete; cbn; by intros [= <-]. Qed.

Lemma resolve_tools f : resolve_finish_reason (Some f) true = Ok f -> f = ToolCall.
Proof. by destruct f. Qed.

Lemma running_app a b : Forall (fun e => is_finished e = false) a -> Forall (fun e => is_finished e = false) b -> Forall (fun e => is_finished e = false) (a ++ b).
Proof. intros. by apply Forall_app. Qed.

Lemma text_events_running e : text_events e -> Forall (fun e => is_finished e = false) e.
Proof. intros He. eapply Forall_impl; [exact He|]. by intros []. Qed.
Lemma tool_events_running e : tool_events e -> Forall (fun e => is_finished e = false) e.
Proof. intros He. eapply Forall_impl; [exact He|]. by intros []. Qed.

(** The end of [apply_new_choices]. *)
Lemma new_choices_ok chunk b a t u : finish_reason a = None -> calls_ok (tool_calls a) (call_id_to_delta_index a) -> holdback_ok (assistant_text a) ->
  length (choices chunk) <= 1 ->
  apply_new_choices chunk b {| acc := a; budget_stage := empty_stage; journal := journal_new a; collected := [] |} = Some (t, Ok u) ->
  (update_terminal u = is_some (finish_reason (acc t))) /\
  tool_calls (acc t) = fold_left merge_into (chunk_deltas chunk) (tool_calls a) /\ calls_ok (tool_calls (acc t)) (call_id_to_delta_index (acc t)) /\
  (forall k, announces k (tool_calls a) -> exists k', collect (update_events u) k = Some k' /\ announces k' (tool_calls (acc t))) /\
  (exists unshown, pending (assistant_text a) ++ chunk_content chunk = text_of (update_events u) ++ unshown /\ unshown_ok (acc t) unshown) /\
  holdback_ok (assistant_text (acc t)) /\
  (forall f, finish_reason (acc t) = Some f -> exists complete, validate_streamed_tool_calls (tool_calls (acc t)) = Ok complete /\ resolve_finish_reason (Some f) complete = Ok f) /\
  Forall (fun e => is_finished e = false) (update_events u) /\
  (within_u64 (limits b) -> staged_ok b empty_stage (tool_calls a) -> staged_ok b (budget_stage t) (tool_calls (acc t))).
Proof.
  intros Hf Hok Hh Hlen E. set (t0 := {| acc := a; budget_stage := empty_stage; journal := journal_new a; collected := [] |}) in E.
  unfold apply_new_choices in E. apply bind_some in E as (t1 & terminal & E1 & E).
  assert (tool_calls (acc t1) = fold_left merge_into (chunk_deltas chunk) (tool_calls a) /\ calls_ok (tool_calls (acc t1)) (call_id_to_delta_index (acc t1)) /\
    (exists texts tools, collected t1 = texts ++ tools /\ text_events texts /\ tool_events tools /\
       pending (assistant_text a) ++ chunk_content chunk = text_of texts ++ pending (assistant_text (acc t1)) /\
       forall k, announces k (tool_calls a) -> exists k', collect tools k = Some k' /\ announces k' (tool_calls (acc t1))) /\
    holdback_ok (assistant_text (acc t1)) /\
    (within_u64 (limits b) -> staged_ok b empty_stage (tool_calls a) -> staged_ok b (budget_stage t1) (tool_calls (acc t1))) /\
    if terminal then is_Some (finish_reason (acc t1)) else finish_reason (acc t1) = None)
    as (Hc1 & Hok1 & (texts & tools & Hcol & Htx & Htl & Hp1 & Hk1) & Hh1 & Hs1 & Hf1).
  { unfold chunk_deltas, chunk_content. destruct (choices chunk) as [|c [|c' cs]]; [| |cbn in Hlen; lia].
    - injection E1 as <- <-. cbn. split; [done|]. split; [done|]. split; [|done]. exists [], []. split; [done|]. split; [constructor|]. split; [constructor|].
      split; [by rewrite app_nil_r|]. intros k Hk. by exists k.
    - cbn [apply_choices] in E1. apply bind_some in E1 as (t2 & tm & E1 & E2). injection E2 as <- <-. cbn [orb mbind list_bind]. rewrite !app_nil_r.
      destruct (choice_ok c b t0 t2 tm Hok Hh Hf E1) as [Cc Ci (texts & tools & Ce & Ctx & Ctl & Cp & Ck) Ch Cs Cf].
      split; [done|]. split; [done|]. split; [by exists texts, tools|]. split; [done|]. split; [done|].
      destruct tm; [destruct Cf as (v & f & _ & _ & ->); by eexists|]. destruct Cf as [_ ->]. done. }
  apply bind_unit in E as (t2 & E2 & [= <- <-]). cbn [update_terminal update_events].
  destruct terminal.
  - destruct Hf1 as [f Hf1]. apply bind_some in E2 as (u1 & a1 & [= <- <-] & E2). apply bind_some in E2 as (u1 & complete & [Hv ->]%lift_some & E2).
    apply bind_some in E2 as (u1 & fin & [Hr ->]%lift_some & E2). rewrite Hf1 in Hr. pose proof (resolve_same _ _ _ Hr) as ->.
    pose proof (holdback_finish_spec f complete (assistant_text (acc t1)) Hh1) as Hfs. destruct (holdback_finish f complete (assistant_text (acc t1))) as [h events].
    destruct Hfs as (Hh2 & Hpt & Htx2 & suppressed & Hsup & Hwhy). apply bind_unit in E2 as (u1 & [= <-] & [= <-]). cbn. rewrite Hf1, Hcol.
    split; [done|]. split; [done|]. split; [done|]. split.
    { intros k Hk. destruct (Hk1 k Hk) as (k' & Hk' & Ha'). exists k'. split; [|done]. rewrite !collect_app, (collect_text texts) by done. cbn. rewrite Hk'. cbn. by rewrite collect_text. }
    split. { exists suppressed. rewrite Hp1, !text_of_app, (tool_events_text tools), app_nil_r by done. split; [by rewrite Hsup, app_assoc|]. unfold unshown_ok. cbn. rewrite Hf1.
             split; [done|]. intros Hne. by destruct (Hwhy Hne) as (? & _ & ? & ?). }
    split; [done|]. split; [intros f' [= <-]; by exists complete|]. split; [|done]. apply running_app; [apply running_app|]; by auto using text_events_running, tool_events_running.
  - injection E2 as <-. rewrite Hf1, Hcol. split; [done|]. split; [done|]. split; [done|]. split.
    { intros k Hk. destruct (Hk1 k Hk) as (k' & Hk' & Ha'). exists k'. split; [|done]. rewrite collect_app, (collect_text texts) by done. done. }
    split. { exists (pending (assistant_text (acc t1))). rewrite Hp1, text_of_app, (tool_events_text tools), app_nil_r by done. split; [done|]. unfold unshown_ok. by rewrite Hf1. }
    split; [done|]. split; [done|]. split; [|done]. apply running_app; by auto using text_events_running, tool_events_running.
Qed.

Lemma calls_of_app a b : calls_of (a ++ b) = fold_left merge_into b (calls_of a).
Proof. apply fold_left_app. Qed.

Lemma accepted_step chunks events a b chunk a' b' u : accepted chunks events a b -> apply_chunk chunk b a = Some (a', b', Ok u) ->
  accepted (chunks ++ [chunk]) (events ++ update_events u) a' b' /\ limits b' = limits b /\
  is_some (finish_reason a') = is_some (finish_reason a) || update_terminal u /\ (finish_reason a <> None -> update_events u = []).
Proof.
  intros [Ac Ai (k & Ak & Aan) (un & At & Au) Ah Af Ar Ab] E. unfold apply_chunk in E. destruct (apply_chunk_transaction _ _ _) as [[t [u'|e]]|] eqn:Et; [| |done].
  2: { destruct (rollback _ _); done. }
  injection E as <- <- <-. unfold apply_chunk_transaction in Et. destruct (finish_reason a) as [f|] eqn:Ef.
  - (* the answer has ended *)
    destruct (choices chunk) as [|c [|c' cs]] eqn:Ech; [| |done].
    + unfold apply_new_choices in Et. rewrite Ech in Et. injection Et as <- <-. cbn. assert (chunk_deltas chunk = []) as Hd by (unfold chunk_deltas; by rewrite Ech).
      assert (chunk_content chunk = []) as Hc by (unfold chunk_content; by rewrite Ech). split; [|by rewrite Ef].
      split; rewrite ?bind_app; cbn; rewrite ?Hd, ?Hc, ?app_nil_r; try done; [by exists k|by exists un|intros f0 Hf0; apply Af; congruence|]. intros Hl. apply commit_ok; [done|by apply Ab].
    + apply bind_some in Et as (t0 & fin & [= <- <-] & Et). cbn in Et. rewrite Ef in Et. destruct (repeats_terminal chunk c (Some f)) eqn:Er; [|done]. injection Et as <- <-. cbn.
      assert (chunk_deltas chunk = []) as Hd.
      { unfold chunk_deltas. rewrite Ech. cbn. unfold repeats_terminal in Er. destruct (delta_tool_calls (choice_delta c)); [|done]. rewrite !andb_false_r in Er. done. }
      assert (chunk_content chunk = []) as Hc.
      { unfold chunk_content. rewrite Ech. cbn. unfold repeats_terminal in Er. destruct (content (choice_delta c)) as [[|x xs]|]; [done| |done]. rewrite !andb_false_r in Er. done. }
      split; [|by rewrite Ef].
      split; rewrite ?bind_app; cbn; rewrite ?Hd, ?Hc, ?app_nil_r; try done; [by exists k|by exists un|intros f0 Hf0; apply Af; congruence|]. intros Hl. apply commit_ok; [done|by apply Ab].
  - assert (length (choices chunk) <= 1 /\ apply_new_choices chunk b {| acc := a; budget_stage := empty_stage; journal := journal_new a; collected := [] |} = Some (t, Ok u')) as [Hlen En].
    { destruct (choices chunk) as [|c [|c' cs]]; [by split; [cbn; lia|]| |done]. split; [cbn; lia|]. apply bind_some in Et as (t0 & fin & [= <- <-] & Et). cbn in Et. by rewrite Ef in Et. }
    destruct (new_choices_ok chunk b a t u' Ef Ai Ah Hlen En) as (Hu & Nc & Ni & Nk & (un' & Nt & Nu) & Nh & Nf & Nr & Nb).
    split; [|split; [done|split; [by rewrite Hu|done]]]. unfold unshown_ok in Au. rewrite Ef in Au. subst un.
    split; try done.
    + rewrite Nc, Ac, bind_app, calls_of_app. cbn. by rewrite app_nil_r.
    + destruct (Nk k Aan) as (k' & Hk' & Ha'). exists k'. split; [by rewrite collect_app, Ak|done].
    + exists un'. split; [|done]. rewrite bind_app, <- At, text_of_app. cbn. by rewrite app_nil_r, <- !app_assoc, Nt.
    + by apply running_app.
    + intros Hl. apply commit_ok; [done|]. apply Nb; [done|by apply Ab].
Qed.
End Accepted.
