(* ===== verification/ChatRun.v ===== *)
(** * One stream of a chat completion

    What reaches the sink while a stream is read, however it ends. *)
From S2P Require Import Prelude.
From S2P Require Import Text.
From S2P Require Import Utf8.
From S2P Require Import ContextManager.
From S2P Require Import ContextTokens.
From S2P Require Import ProviderStream.
From S2P Require Import ChatStream.
From S2P Require Import ChatHoldback.
From S2P Require Import ChatChunk.
From S2P Require Import ChatCalls.
From S2P Require Import ChatAccepted.
From S2P Require Import ChatClient.

Open Scope nat_scope.

(** ** Calls of the sink *)

Inductive SinkCall := PushCall (event : LlmEvent) | PhaseCall (event : ProviderPhaseEvent).

Definition events_of (calls : list SinkCall) : list LlmEvent := omap (fun c => match c with PushCall e => Some e | PhaseCall _ => None end) calls.

Lemma events_of_app a b : events_of (a ++ b) = events_of a ++ events_of b.
Proof. apply omap_app. Qed.

Section Sink.
Context {S : Type} `{LlmEventSink S}.

Definition deliver (calls : list SinkCall) (s : S) : S :=
  fold_left (fun s c => match c with PushCall e => fst (push e s) | PhaseCall p => fst (provider_phase p s) end) calls s.

Lemma deliver_app a b s : deliver (a ++ b) s = deliver b (deliver a s).
Proof. apply fold_left_app. Qed.

(** [t'] is [t] after [calls]; a failed call is the last one and is remembered. *)
Record sent (calls : list SinkCall) (ok : bool) (t t' : ProviderTraceSink S) : Prop := {
  sent_inner : inner t' = deliver calls (inner t);
  sent_failed : projection_failed t' = projection_failed t || negb ok;
  sent_attempt : attempt t' = attempt t;
  sent_blocked : replay_blocked t = true -> replay_blocked t' = true;
  sent_pushes : events_of calls <> [] -> replay_blocked t' = true
}.

Lemma sent_nothing t : sent [] true t t.
Proof. split; try done. cbn. by rewrite orb_false_r. Qed.

Lemma sent_trans calls1 calls2 ok t1 t2 t3 : sent calls1 true t1 t2 -> sent calls2 ok t2 t3 -> sent (calls1 ++ calls2) ok t1 t3.
Proof.
  intros [Hi Hf Ha Hb Hp] [Hi' Hf' Ha' Hb' Hp']. split.
  - by rewrite Hi', Hi, deliver_app.
  - rewrite Hf', Hf. cbn. by rewrite orb_false_r.
  - congruence.
  - auto.
  - rewrite events_of_app. intros Hne. destruct (events_of calls2) as [|e l] eqn:E; [rewrite app_nil_r in Hne; by apply Hb', Hp|by apply Hp'].
Qed.

Lemma project_model_sent e t : let '(t', r) := project_model_event e t in sent [PushCall e] (is_ok r) t t'.
Proof.
  unfold project_model_event, record_projection_result. cbn [block_replay inner]. destruct (push e (inner t)) as [s r] eqn:E. cbn [fst snd].
  destruct (is_ok r) eqn:Er; split; cbn; rewrite ?E, ?orb_true_r, ?orb_false_r; done.
Qed.

Lemma phase_sent p t : let '(t', r) := phase p t in sent [PhaseCall (plain_event p (set_phase p t))] (is_ok r) t t'.
Proof.
  unfold phase, project_provider_phase, record_projection_result. cbn [set_phase inner]. destruct (provider_phase _ (inner t)) as [s r] eqn:E. cbn [fst snd].
  destruct (is_ok r) eqn:Er; split; cbn; rewrite ?E, ?orb_true_r, ?orb_false_r; done.
Qed.

(** What is pushed of a list of events is a prefix of it, all of it when no call fails. *)
Lemma push_events_sent events t : let '(t', r) := push_events events t in
  exists calls rest, sent calls (is_ok r) t t' /\ events = events_of calls ++ rest /\ (is_ok r = true -> rest = []).
Proof.
  revert t. induction events as [|e events IH]; intros t; [exists [], []; split; [apply sent_nothing|done]|].
  cbn [push_events]. pose proof (project_model_sent e t) as He. destruct (project_model_event e t) as [t1 [u|err]].
  - specialize (IH t1). destruct (push_events events t1) as [t2 r]. destruct IH as (calls & rest & Hs & -> & Hr).
    exists (PushCall e :: calls), rest. split; [by apply (sent_trans [PushCall e] calls _ t t1 t2)|done].
  - by exists [PushCall e], events.
Qed.

Lemma record_progress_sent t : let '(t', r) := record_progress t in exists calls, sent calls (is_ok r) t t' /\ events_of calls = [].
Proof.
  unfold record_progress. destruct (first_progress_seen t).
  - exists []. split; [|done]. split; try done. cbn. by rewrite orb_false_r.
  - pose proof (phase_sent FirstProgress (set_progress (attempt t) true true t)) as Hp. destruct (phase FirstProgress _) as [t' r].
    exists [PhaseCall (plain_event FirstProgress (set_phase FirstProgress (set_progress (attempt t) true true t)))]. split; [|done]. destruct Hp as [Hi Hf Ha Hb Hp]. by split.
Qed.
End Sink.

Section Run.
Context `{HashIteration} {S : Type} `{LlmEventSink S} (parse_chunk : text -> result OpenAiChatChunk (N * N)).

(** The chunk an input carries. *)
Definition chunk_of (input : StreamInput) : option OpenAiChatChunk :=
  match input with
  | SseEvent data => if text_eqb data (lit "[DONE]") then None else match parse_chunk data with Ok chunk => Some chunk | Err _ => None end
  | _ => None
  end.
Definition chunks_of (inputs : list StreamInput) : list OpenAiChatChunk := omap chunk_of inputs.

(** ** The loop *)

(** The stream so far: the accepted chunks and the calls the sink got, none of which failed. *)
Record running (chunks : list OpenAiChatChunk) (calls : list SinkCall) (t0 : ProviderTraceSink S) (st : ChatState) : Prop := {
  run_accepted : accepted chunks (events_of calls) (accumulator st) (stream_budget st);
  run_sent : sent calls true t0 (sink st)
}.

(** A call failed: what was pushed is a prefix of what the accepted chunks give. *)
Definition broken (chunks : list OpenAiChatChunk) (calls : list SinkCall) (t0 : ProviderTraceSink S) (st : ChatState) : Prop :=
  sent calls false t0 (sink st) /\ exists rest, accepted chunks (events_of calls ++ rest) (accumulator st) (stream_budget st).

Lemma accepted_budget chunks events a b b' : limits b' = limits b -> budget_tool_calls b' = budget_tool_calls b ->
  tool_argument_bytes b' = tool_argument_bytes b -> accepted chunks events a b -> accepted chunks events a b'.
Proof.
  intros Hl Hc Hb [? ? ? ? ? ? ? Hs]. split; try done. intros Hw. rewrite Hl in Hw. destruct (Hs Hw) as [Hk Hd Hn Hy].
  split; rewrite ?Hc, ?Hl; try done. intros i. unfold charged in *. rewrite Hb. apply Hy.
Qed.

Lemma record_event_same b : let '(b', _) := record_event b in limits b' = limits b /\ budget_tool_calls b' = budget_tool_calls b /\ tool_argument_bytes b' = tool_argument_bytes b.
Proof. done. Qed.

Lemma block_sent b (t : ProviderTraceSink S) : sent [] true t (block_replay b t).
Proof. split; cbn; rewrite ?orb_false_r; try done. by intros ->. Qed.

Lemma running_sent chunks calls t0 st calls' t' : running chunks calls t0 st -> sent calls' true (sink st) t' -> events_of calls' = [] ->
  running chunks (calls ++ calls') t0 (with_sink t' st).
Proof. intros [Ha Hs] Hs' He. split; [by rewrite events_of_app, He, app_nil_r|by eapply sent_trans]. Qed.

Lemma take_chunk_ok chunks calls t0 st chunk : running chunks calls t0 st ->
  exists st' r, take_chunk chunk st = Some (st', r) /\
  match r with
  | Ok _ => exists more, running (chunks ++ [chunk]) (calls ++ more) t0 st'
  | Err _ => running chunks calls t0 st' \/ exists more, broken (chunks ++ [chunk]) (calls ++ more) t0 st'
  end.
Proof.
  intros Hr. pose proof (running_sent _ _ _ _ [] _ Hr (block_sent (chunk_is_progress chunk) (sink st)) eq_refl) as Hr1. rewrite app_nil_r in Hr1.
  unfold take_chunk. set (st1 := with_sink _ st) in *. cbv zeta. destruct (chunk_error chunk) as [error|]; [eexists _, _; split; [reflexivity|by left]|].
  destruct (usage_of_chunk chunk) as [cu|e]; [|eexists _, _; split; [reflexivity|by left]].
  destruct (usage_conflicts _ _); [eexists _, _; split; [reflexivity|by left]|].
  destruct Hr1 as [Ha Hs].
  destruct (chunk_applied chunk (stream_budget st1) (accumulator st1) (calls_ok_sent _ _ (acc_ids _ _ _ _ Ha))) as (a' & b' & r & E & _ & Herr).
  rewrite E. destruct r as [u|e].
  - destruct (accepted_step _ _ _ _ _ _ _ _ Ha E) as (Ha' & _). pose proof (push_events_sent (update_events u) (sink st1)) as Hp.
    destruct (push_events (update_events u) (sink st1)) as [t' r]. destruct Hp as (more & rest & Hm & Hu & Hall). eexists _, _. split; [reflexivity|].
    rewrite Hu in Ha'. destruct r as [[]|e].
    + exists more. rewrite (Hall eq_refl), app_nil_r in Ha'. split; [by rewrite events_of_app|by eapply sent_trans].
    + right. exists more. split; [by eapply sent_trans|]. exists rest. by rewrite events_of_app, <- app_assoc.
  - destruct (Herr e eq_refl) as [-> ->]. eexists _, _. split; [reflexivity|]. left. by split.
Qed.

(** What one event did: its chunk was accepted, or it was not. *)
Lemma take_event_ok chunks calls t0 st data : running chunks calls t0 st ->
  exists st' r more, take_event parse_chunk data st = Some (st', r) /\
  match r with
  | Ok _ => running (chunks ++ chunks_of [SseEvent data]) (calls ++ more) t0 st'
  | Err _ => running chunks (calls ++ more) t0 st' \/ broken chunks (calls ++ more) t0 st' \/ broken (chunks ++ chunks_of [SseEvent data]) (calls ++ more) t0 st'
  end.
Proof.
  intros [Ha Hs]. unfold take_event. pose proof (record_event_same (stream_budget st)) as Hb. destruct (record_event (stream_budget st)) as [b r].
  destruct Hb as (Hb1 & Hb2 & Hb3). assert (running chunks calls t0 (with_budget b st)) as Hr by (split; [by eapply accepted_budget|done]). clear Ha Hs.
  cbv zeta. destruct r as [[]|e]; [|exists (with_budget b st), (Err e), []; rewrite app_nil_r; split; [done|by left]].
  pose proof (record_progress_sent (sink (with_budget b st))) as Hp. destruct (record_progress _) as [t' r]. destruct Hp as (more & Hm & He).
  destruct r as [[]|e].
  2: { exists (with_sink t' (with_budget b st)), (Err e), more. split; [done|]. right. left. destruct Hr as [Ha Hs]. split; [by eapply sent_trans|].
       exists []. by rewrite events_of_app, He, !app_nil_r. }
  pose proof (running_sent _ _ _ _ _ _ Hr Hm He) as Hr1. set (st1 := with_sink t' (with_budget b st)) in *. cbn [chunks_of omap list_omap chunk_of].
  destruct (text_eqb data (lit "[DONE]")).
  - eexists _, _, more. split; [reflexivity|]. rewrite app_nil_r. destruct Hr1 as [Ha Hs]. by split.
  - destruct (parse_chunk data) as [chunk|[line column]]; [|eexists _, _, more; split; [reflexivity|by left]].
    destruct (take_chunk_ok _ _ _ _ chunk Hr1) as (st' & r & -> & Hres). destruct r as [[]|e].
    + destruct Hres as (more' & Hres). eexists _, _, (more ++ more'). split; [reflexivity|]. by rewrite app_assoc.
    + destruct Hres as [Hres|(more' & Hres)].
      * eexists _, _, more. split; [reflexivity|]. by left.
      * eexists _, _, (more ++ more'). split; [reflexivity|]. right. right. by rewrite app_assoc.
Qed.

(** How the loop ends: everything it read was accepted but for the last input when it fails. *)
Definition read_all (inputs rest : list StreamInput) (calls : list SinkCall) (t0 : ProviderTraceSink S) (st : ChatState) (failed : bool)
    (chunks : list OpenAiChatChunk) : Prop :=
  exists seen refused, inputs = seen ++ refused ++ rest /\ length refused <= 1 /\ (failed = false -> refused = []) /\
    (running (chunks ++ chunks_of seen) calls t0 st \/ failed = true /\ broken (chunks ++ chunks_of seen) calls t0 st).

Definition exit_failed (exit : LoopExit) : bool := match exit with Returned (Err _) => true | _ => false end.

Lemma chunks_of_app a b : chunks_of (a ++ b) = chunks_of a ++ chunks_of b.
Proof. apply omap_app. Qed.

Lemma chat_loop_ok inputs chunks calls t0 st : running chunks calls t0 st ->
  exists rest st' exit more, chat_loop parse_chunk inputs st = Some (rest, st', exit) /\
    read_all inputs rest (calls ++ more) t0 st' (exit_failed exit) chunks /\
    (forall summary, exit = Returned (Ok summary) -> summary_finish_reason summary = FinishCancelled).
Proof.
  revert chunks calls st. induction inputs as [|input inputs IH]; intros chunks calls st Hr.
  - exists [], st, (Broke true), []. split; [done|]. split; [|done]. exists [], []. cbn. rewrite !app_nil_r. split; [done|]. split; [lia|]. split; [done|by left].
  - assert (chunk_of input = None -> forall exit, (forall summary, exit = Returned (Ok summary) -> summary_finish_reason summary = FinishCancelled) ->
      chat_loop parse_chunk (input :: inputs) st = Some (inputs, st, exit) ->
      exists rest st' exit more, chat_loop parse_chunk (input :: inputs) st = Some (rest, st', exit) /\
      read_all (input :: inputs) rest (calls ++ more) t0 st' (exit_failed exit) chunks /\
      (forall summary, exit = Returned (Ok summary) -> summary_finish_reason summary = FinishCancelled)) as Hquiet.
    { intros Hn exit Hx E. exists inputs, st, exit, []. split; [done|]. split; [|done]. exists [input], []. rewrite app_nil_r. split; [done|]. cbn. split; [lia|]. split; [done|].
      left. unfold chunks_of. cbn. by rewrite Hn, app_nil_r. }
    destruct input as [| |data|e|shown]; try (eapply Hquiet; [done|..|reflexivity]; by intros ? [= <-]). clear Hquiet. cbn [chat_loop].
    destruct (take_event_ok chunks calls t0 st data Hr) as (st1 & r & more & -> & Hres). destruct r as [[]|e].
    + exists inputs, st1, (Broke false), more. split; [done|]. split; [|done]. exists [SseEvent data], []. split; [done|]. cbn [length]. split; [lia|]. split; [done|by left].
    + destruct (IH _ _ _ Hres) as (rest & st' & exit & more' & -> & (seen & refused & -> & Hl & Hf & Hend) & Hx).
      exists rest, st', exit, (more ++ more'). split; [done|]. split; [|done]. exists (SseEvent data :: seen), refused. split; [done|]. split; [done|]. split; [done|].
      change (SseEvent data :: seen) with ([SseEvent data] ++ seen). by rewrite chunks_of_app, !app_assoc in *.
    + exists inputs, st1, (Returned (Err e)), more. split; [done|]. split; [|done]. destruct Hres as [Hres|[Hres|Hres]].
      * exists [], [SseEvent data]. cbn. rewrite app_nil_r. split; [done|]. split; [lia|]. split; [done|by left].
      * exists [], [SseEvent data]. cbn. rewrite app_nil_r. split; [done|]. split; [lia|]. split; [done|by right].
      * exists [SseEvent data], []. split; [done|]. cbn [length]. split; [lia|]. split; [done|by right].
Qed.

(** ** The end of the stream *)

Definition content_of (chunks : list OpenAiChatChunk) : text := chunks ≫= chunk_content.

(** What the sink was told of the text; unless a call failed, all of it but artifacts before tool calls. *)
Record told (chunks : list OpenAiChatChunk) (calls : list SinkCall) (ok : bool) (t0 : ProviderTraceSink S) (st : ChatState) : Prop := {
  told_sent : sent calls ok t0 (sink st);
  told_text : exists unshown, text_of (events_of calls) ++ unshown = content_of chunks /\
    (ok = true -> unshown <> [] -> finish_reason (accumulator st) = Some ToolCall /\ artifacts unshown /\
                  (byte_len unshown <= CHATML_ARTIFACT_HOLDBACK_MAX_BYTES)%N)
}.

Lemma broken_told chunks calls t0 st : broken chunks calls t0 st -> told chunks calls false t0 st.
Proof.
  intros [Hs (rest & Ha)]. split; [done|]. destruct (acc_text _ _ _ _ Ha) as (un & Ht & _). exists (text_of rest ++ un). rewrite app_assoc, <- text_of_app. done.
Qed.

Lemma flush_told chunks calls t0 st : running chunks calls t0 st ->
  let '(st', r) := flush_assistant_text_before_early_exit st in exists more, told chunks (calls ++ more) (is_ok r) t0 st'.
Proof.
  intros [Ha Hs]. unfold flush_assistant_text_before_early_exit. pose proof (flush_early_spec _ (acc_hold _ _ _ _ Ha)) as Hf.
  destruct (flush_before_early_exit (assistant_text (accumulator st))) as [h events] eqn:Ef. destruct Hf as (_ & _ & Htx & Hfl).
  pose proof (push_events_sent events (sink st)) as Hp. destruct (push_events events (sink st)) as [t' r]. destruct Hp as (more & rest & Hm & He & Hall).
  exists more. destruct (acc_text _ _ _ _ Ha) as (un & Ht & Hun). split; [by eapply sent_trans|]. cbn [accumulator set_text finish_reason]. unfold unshown_ok in Hun.
  destruct (finish_reason (accumulator st)) as [f|] eqn:Ef'.
  - destruct Hun as [Hpt Hun]. unfold flush_before_early_exit in Ef. rewrite Hpt in Ef. injection Ef as <- <-. symmetry in He. apply app_eq_nil in He as [He _].
    exists un. rewrite events_of_app, He, app_nil_r. split; [done|]. intros _ Hne. destruct (Hun Hne) as (-> & ? & ?). done.
  - subst un. rewrite <- Hfl, He in Ht. exists (text_of rest). rewrite events_of_app, text_of_app, <- app_assoc, <- text_of_app. split; [done|].
    intros Hok. by rewrite (Hall Hok).
Qed.

(** An answer that was concluded: the last event says how. *)
Record concluded (chunks : list OpenAiChatChunk) (calls : list SinkCall) (t0 : ProviderTraceSink S) (st : ChatState) (summary : LlmResponseSummary) : Prop := {
  end_sent : sent (calls ++ [PushCall (Finished (summary_finish_reason summary) (summary_usage summary))]) true t0 (sink st);
  end_reason : finish_reason (accumulator st) = Some (summary_finish_reason summary);
  end_accepted : exists a, accepted chunks (events_of calls) a (stream_budget st) /\ tool_calls (accumulator st) = tool_calls a /\
                 assistant_text (accumulator st) = assistant_text a /\ finish_reason (accumulator st) = finish_reason a
}.

Lemma conclude_ok chunks calls t0 st eof : running chunks calls t0 st ->
  let '(st', r) := conclude eof st in
  match r with
  | Ok summary => concluded chunks calls t0 st' summary
  | Err _ => st' = st \/ exists more, told chunks (calls ++ more) false t0 st'
  end.
Proof.
  intros [Ha Hs]. unfold conclude. destruct (eof && _); [by left|]. destruct (validate_streamed_tool_calls _) as [complete|e] eqn:Ev; [|by left].
  destruct (resolve_finish_reason _ complete) as [f|e] eqn:Er; [|by left].
  pose proof (project_model_sent (Finished f (usage st)) (sink st)) as Hp. destruct (project_model_event _ (sink st)) as [t' r].
  destruct r as [[]|e].
  - assert (finish_reason (accumulator st) = Some f) as Hf.
    { destruct (finish_reason (accumulator st)) as [f'|]; [|done]. by rewrite (resolve_same _ _ _ Er). }
    case_bool_decide; (split; [by eapply sent_trans|done|exists (accumulator st); done]).
  - right. exists [PushCall (Finished f (usage st))]. destruct (acc_text _ _ _ _ Ha) as (un & Ht & _). split; [by eapply sent_trans|].
    exists un. rewrite events_of_app, text_of_app. cbn. by rewrite app_nil_r.
Qed.

Lemma concluded_told chunks calls t0 st summary : concluded chunks calls t0 st summary ->
  told chunks (calls ++ [PushCall (Finished (summary_finish_reason summary) (summary_usage summary))]) true t0 st.
Proof.
  intros [Hs Hr (a & Ha & Hc & Ht & Hf)]. split; [done|]. destruct (acc_text _ _ _ _ Ha) as (un & Hx & Hun). exists un. rewrite events_of_app, text_of_app. cbn.
  rewrite app_nil_r. split; [done|]. intros _ Hne. unfold unshown_ok in Hun. rewrite <- Hf, Hr in Hun. destruct Hun as [_ Hun]. destruct (Hun Hne) as (E & ? & ?). by rewrite Hr, E.
Qed.

Lemma concluded_passthrough chunks calls t0 st summary : concluded chunks calls t0 st summary -> passthrough (assistant_text (accumulator st)) = true.
Proof.
  intros [_ Hr (a & Ha & _ & -> & Hf)]. destruct (acc_text _ _ _ _ Ha) as (un & _ & Hun). unfold unshown_ok in Hun. rewrite <- Hf, Hr in Hun. apply Hun.
Qed.

(** How a stream that was read ends. *)
Definition ended (chunks : list OpenAiChatChunk) (t : ProviderTraceSink S) (st : ChatState) (r : result LlmResponseSummary LlmError) : Prop :=
  exists calls, told chunks calls (negb (projection_failed (sink st))) t st /\
    forall summary, r = Ok summary -> summary_finish_reason summary = FinishCancelled \/
      exists before, calls = before ++ [PushCall (Finished (summary_finish_reason summary) (summary_usage summary))] /\ concluded chunks before t st summary.

Context (limits : ProviderStreamLimits) (idle_timeout_ms : N) (t : ProviderTraceSink S) (Hfresh : projection_failed t = false).

Lemma told_ended chunks calls ok st r : told chunks calls ok t st -> (forall summary, r = Ok summary -> summary_finish_reason summary = FinishCancelled) ->
  ended chunks t st r.
Proof.
  intros Ht Hc. exists calls. assert (negb (projection_failed (sink st)) = ok) as ->; [|split; [done|auto]].
  rewrite (sent_failed _ _ _ _ (told_sent _ _ _ _ _ Ht)), Hfresh. apply negb_involutive.
Qed.

Lemma settle_running chunks calls st r : running chunks calls t st -> (forall summary, r = Ok summary -> summary_finish_reason summary = FinishCancelled) ->
  let '(st', r') := settle_stream st r in ended chunks t st' r' /\ (is_ok r' = true -> is_ok r = true).
Proof.
  intros Hr Hc. unfold settle_stream. pose proof (flush_told _ _ _ _ Hr) as Hf.
  assert (projection_failed (sink st) = false) as Hp by (by rewrite (sent_failed _ _ _ _ (run_sent _ _ _ _ Hr)), Hfresh). rewrite Hp.
  assert (match r with Ok summary => bool_decide (summary_finish_reason summary = FinishCancelled) = true | Err _ => True end) as Hd
    by (destruct r as [summary|e]; [apply bool_decide_eq_true_2; by apply Hc|done]).
  destruct (flush_assistant_text_before_early_exit st) as [st' flushed]. destruct Hf as (more & Ht).
  destruct r as [summary|e]; [rewrite Hd|]; (destruct flushed as [[]|e']; split; [|done| |done]; by eapply told_ended).
Qed.

Lemma settle_broken chunks calls st e : told chunks calls false t st -> settle_stream st (Err e) = (st, Err e) /\ ended chunks t st (Err e).
Proof.
  intros Ht. split; [|by eapply told_ended]. unfold settle_stream. by rewrite (sent_failed _ _ _ _ (told_sent _ _ _ _ _ Ht)), orb_true_r.
Qed.

Lemma settle_concluded chunks calls st summary : concluded chunks calls t st summary ->
  let '(st', r) := settle_stream st (Ok summary) in r = Ok summary /\ ended chunks t st' r.
Proof.
  intros Hc. assert (settle_stream st (Ok summary) = (st, Ok summary)) as ->.
  { unfold settle_stream. case_bool_decide; [|done]. unfold flush_assistant_text_before_early_exit, flush_before_early_exit.
    rewrite (concluded_passthrough _ _ _ _ _ Hc). destruct st as [[]]; done. }
  split; [done|]. eexists. split; [|intros s [= <-]; right; by exists calls].
  pose proof (concluded_told _ _ _ _ _ Hc) as Ht. by rewrite (sent_failed _ _ _ _ (told_sent _ _ _ _ _ Ht)), Hfresh.
Qed.

(** What was read, but for an input that was refused, and how it ended. *)
Lemma read_stream_ok inputs :
  exists rest st r, read_stream parse_chunk limits idle_timeout_ms inputs t = Some (rest, st, r) /\
  exists seen refused, inputs = seen ++ refused ++ rest /\ length refused <= 1 /\ (is_ok r = true -> refused = []) /\ ended (chunks_of seen) t st r.
Proof.
  unfold read_stream. assert (running [] [] t (chat_start limits idle_timeout_ms t)) as Hstart by (split; [apply accepted_nothing|apply sent_nothing]).
  destruct (chat_loop_ok inputs [] [] t _ Hstart) as (rest & st & exit & calls & -> & (seen & refused & -> & Hlen & Href & Hend) & Hx). cbn [app] in Hend.
  assert (exists st' r', (let (st, r) := match exit with Broke eof => conclude eof st | Returned r => (st, r) end in settle_stream st r) = (st', r') /\
    ended (chunks_of seen) t st' r' /\ (is_ok r' = true -> exit_failed exit = false)) as (st' & r' & Heq & He & Hok).
  { destruct exit as [eof|[summary|e]].
    - destruct Hend as [Hrun|[F _]]; [|done]. pose proof (conclude_ok _ _ _ _ eof Hrun) as Hc. destruct (conclude eof st) as [st1 [summary|e]].
      + pose proof (settle_concluded _ _ _ _ Hc) as Hs. destruct (settle_stream _ _) as [st2 r2]. destruct Hs as [-> Hs]. by exists st2, (Ok summary).
      + destruct Hc as [->|(more & Ht)].
        * pose proof (settle_running _ _ _ (Err e) Hrun ltac:(done)) as Hs. destruct (settle_stream _ _) as [st2 r2]. exists st2, r2. split; [done|]. split; [apply Hs|done].
        * destruct (settle_broken _ _ _ e Ht) as [-> Hs]. by exists st1, (Err e).
    - destruct Hend as [Hrun|[F _]]; [|done]. pose proof (settle_running _ _ _ (Ok summary) Hrun ltac:(intros s [= <-]; by apply Hx)) as Hs.
      destruct (settle_stream _ _) as [st2 r2]. exists st2, r2. split; [done|]. split; [apply Hs|done].
    - destruct Hend as [Hrun|[_ Hb%broken_told]].
      + pose proof (settle_running _ _ _ (Err e) Hrun ltac:(done)) as Hs. destruct (settle_stream _ _) as [st2 r2]. exists st2, r2. split; [done|]. split; [apply Hs|].
        intros F%Hs. done.
      + destruct (settle_broken _ _ _ e Hb) as [-> Hs]. by exists st, (Err e). }
  destruct (match exit with Broke eof => _ | Returned r => _ end) as [st1 r1]. rewrite Heq. exists rest, st', r'. split; [done|].
  exists seen, refused. split; [done|]. split; [done|]. split; [|done]. intros Hr. by apply Href, Hok.
Qed.
End Run.
