(* ===== verification/ChatAnswers.v ===== *)
(** * What a stream delivers

    The text of an answer, its tool calls, and the bounds they stay in. *)
From S2P Require Import Prelude.
From S2P Require Import Text.
From S2P Require Import Utf8.
From S2P Require Import ContextManager.
From S2P Require Import ContextTokens.
From S2P Require Import ProviderStream.
From S2P Require Import ChatStream.
From S2P Require Import ChatClient.
From S2P Require Import ChatHoldback.
From S2P Require Import ChatChunk.
From S2P Require Import ChatCalls.
From S2P Require Import ChatAccepted.
From S2P Require Import ChatRun.

Open Scope nat_scope.

(** ** The calls the deltas describe *)

(** The identifier, or name, last given for an index, and all arguments given for it. *)
Definition given (what : OpenAiToolCallDelta -> option text) (i : N) (deltas : list OpenAiToolCallDelta) : option text :=
  fold_left (fun known d => if (delta_index d =? i)%N then or_else (what d) known else known) deltas None.
Definition arguments_of (i : N) (deltas : list OpenAiToolCallDelta) : text :=
  concat (map (fun d => if (delta_index d =? i)%N then default [] (delta_arguments d) else []) deltas).

Definition described (i : N) (deltas : list OpenAiToolCallDelta) (c : PartialToolCall) : Prop :=
  call_id c = given delta_id i deltas /\ tool_name c = given delta_name i deltas /\ arguments c = arguments_of i deltas.

Lemma given_snoc what i ds d : given what i (ds ++ [d]) = if (delta_index d =? i)%N then or_else (what d) (given what i ds) else given what i ds.
Proof. unfold given. by rewrite fold_left_app. Qed.

Lemma arguments_snoc i ds d : arguments_of i (ds ++ [d]) = arguments_of i ds ++ (if (delta_index d =? i)%N then default [] (delta_arguments d) else []).
Proof. unfold arguments_of. rewrite map_app, concat_app. cbn. by rewrite app_nil_r. Qed.

Lemma calls_of_entry ds i : described i ds (default empty_call (calls_of ds !! i)).
Proof.
  induction ds as [|d ds IH] using rev_ind; [by unfold calls_of; cbn; rewrite lookup_empty|].
  unfold described. rewrite calls_of_app, !given_snoc, arguments_snoc. cbn [fold_left]. unfold merge_into at 1 2 3.
  destruct (N.eqb_spec (delta_index d) i) as [<-|Hne].
  - rewrite lookup_insert_eq. cbn [default]. destruct IH as (Hi & Hn & Ha). unfold id. cbn. rewrite <- Hi, <- Hn, <- Ha. done.
  - rewrite lookup_insert_ne by done. rewrite app_nil_r. apply IH.
Qed.

Lemma calls_of_present ds i : is_Some (calls_of ds !! i) <-> i ∈ delta_index <$> ds.
Proof.
  induction ds as [|d ds IH] using rev_ind; [unfold calls_of; cbn; rewrite lookup_empty; split; [by intros []|by intros ?%elem_of_nil]|].
  rewrite calls_of_app, fmap_app, elem_of_app. cbn. unfold merge_into. destruct (decide (delta_index d = i)) as [<-|Hne].
  - rewrite lookup_insert_eq. split; [intros _; right; by left|by eexists].
  - rewrite lookup_insert_ne, IH by done. split; [by left|]. intros [?|F]; [done|]. by apply list_elem_of_singleton in F.
Qed.

Lemma calls_of_some ds i c : calls_of ds !! i = Some c -> described i ds c.
Proof. intros E. pose proof (calls_of_entry ds i) as Hd. by rewrite E in Hd. Qed.

Lemma validated_entries l : validate_entries l = Ok true -> Forall (fun p => validate_entry (fst p) (snd p) = Ok tt) l.
Proof. induction l as [|[i c] l IH]; [constructor|]. cbn. intros ([] & E & Hl)%and_then_ok. constructor; [done|by apply IH]. Qed.

Lemma validated_entry i c : validate_entry i c = Ok tt -> exists id name, call_id c = Some id /\ tool_name c = Some name /\ blank id = false /\ blank name = false.
Proof.
  unfold validate_entry. destruct (call_id c) as [id|]; [|done]. destruct (blank id) eqn:Ei; [done|]. destruct (tool_name c) as [name|]; [|done].
  destruct (blank name) eqn:En; [done|]. intros _. by exists id, name.
Qed.

Section Answers.
Context `{HashIteration} {S : Type} `{LlmEventSink S} (parse_chunk : text -> result OpenAiChatChunk (N * N)).

Lemma validated m complete : validate_streamed_tool_calls m = Ok complete ->
  complete = bool_decide (m <> ∅) /\ forall i c, m !! i = Some c -> validate_entry i c = Ok tt.
Proof.
  unfold validate_streamed_tool_calls. case_bool_decide as Hm; [subst m; intros [= <-]; split; [done|]; intros i c E; by rewrite lookup_empty in E|].
  intros E. assert (complete = true) as -> by (revert E; generalize (hash_iter m); intros l; induction l as [|[i c] l IH]; cbn; [by intros [= <-]|intros (? & _ & E)%and_then_ok; by apply IH]).
  split; [symmetry; by apply bool_decide_eq_true_2|]. apply validated_entries in E. intros i c Hc. rewrite Forall_forall in E. apply (E (i, c)).
  rewrite hash_iter_perm. by apply elem_of_map_to_list.
Qed.

Lemma announced_calls chunks events a b : accepted chunks events a b -> finish_reason a = Some ToolCall ->
  exists k, collect events ∅ = Some k /\
  let ds := chunks ≫= chunk_deltas in ds <> [] /\
  (forall i, i ∈ delta_index <$> ds -> exists id name, given delta_id i ds = Some id /\ given delta_name i ds = Some name /\
     blank id = false /\ blank name = false /\ k !! id = Some (name, arguments_of i ds)) /\
  (forall id, is_Some (k !! id) -> exists i, i ∈ delta_index <$> ds /\ given delta_id i ds = Some id) /\
  (forall i j, i ∈ delta_index <$> ds -> j ∈ delta_index <$> ds -> given delta_id i ds = given delta_id j ds -> i = j).
Proof.
  intros [Ac [Ai Ao] (k & Ak & Aan) _ _ Af _ _] Hf. destruct (Af _ Hf) as (complete & [Hcomp Hval]%validated & Hr).
  assert (complete = true) as -> by (by destruct complete). symmetry in Hcomp. apply bool_decide_eq_true in Hcomp.
  exists k. split; [done|]. cbv zeta. rewrite Ac in *. set (ds := chunks ≫= chunk_deltas) in *.
  assert (forall i, i ∈ delta_index <$> ds -> exists c id name, calls_of ds !! i = Some c /\ call_id c = Some id /\ tool_name c = Some name /\
            blank id = false /\ blank name = false /\ started c = true) as Hcall.
  { intros i [c Hc]%calls_of_present. destruct (validated_entry i c (Hval i c Hc)) as (id & name & Hi & Hn & Bi & Bn). exists c, id, name.
    destruct (Ai i c Hc) as [Hs _]. unfold identity in Hs. rewrite Hi, Hn, Bi, Bn in Hs. done. }
  split; [intros ->; by apply Hcomp|]. split; [|split].
  - intros i Hi. destruct (Hcall i Hi) as (c & id & name & Hc & Hid & Hn & Bi & Bn & Hs). destruct (calls_of_some ds i c Hc) as (Di & Dn & Da).
    exists id, name. split; [congruence|]. split; [congruence|]. split; [done|]. split; [done|]. apply Aan. by exists i, c.
  - intros id [[name args] (i & c & Hc & _ & Hid & _)%Aan]. exists i. split; [apply calls_of_present; by exists c|]. destruct (calls_of_some ds i c Hc) as (Di & _). congruence.
  - intros i j Hi Hj E. destruct (Hcall i Hi) as (c & id & name & Hc & Hid & _). destruct (Hcall j Hj) as (c' & id' & name' & Hc' & Hid' & _).
    destruct (calls_of_some ds i c Hc) as (Di & _). destruct (calls_of_some ds j c' Hc') as (Dj & _).
    pose proof (Ao i c id Hc Hid) as H1. pose proof (Ao j c' id' Hc' Hid') as H2. congruence.
Qed.

Context (maximum : ProviderStreamLimits) (idle_timeout_ms : N) (t : ProviderTraceSink S) (Hfresh : projection_failed t = false).
Local Abbreviation read inputs := (read_stream parse_chunk maximum idle_timeout_ms inputs t).

(** C33. Reading a stream never panics, and however it ends - with an answer, cancelled, timed out, refused or broken off - the sink
    has been given exactly the text of the chunks that were accepted, which are all that were read but for at most
    the last one of a failed stream.  Only if the sink itself failed is more missing, and only an answer that ends
    in tool calls may keep text back: chat template markers, at most 256 bytes. *)
Theorem answers_are_shown_whole inputs :
  exists rest st r seen refused calls unshown, read inputs = Some (rest, st, r) /\
    inputs = seen ++ refused ++ rest /\ length refused <= 1 /\ (is_ok r = true -> refused = []) /\
    inner (sink st) = deliver calls (inner t) /\ text_of (events_of calls) ++ unshown = content_of (chunks_of parse_chunk seen) /\
    (projection_failed (sink st) = false -> unshown <> [] ->
       finish_reason (accumulator st) = Some ToolCall /\ artifacts unshown /\ (byte_len unshown <= CHATML_ARTIFACT_HOLDBACK_MAX_BYTES)%N).
Proof.
  destruct (read_stream_ok parse_chunk maximum idle_timeout_ms t Hfresh inputs) as (rest & st & r & E & seen & refused & Hi & Hl & Hr & calls & [Hs (un & Ht & Hu)] & _).
  exists rest, st, r, seen, refused, calls, un. split; [done|]. split; [done|]. split; [done|]. split; [done|]. split; [apply Hs|]. split; [done|].
  intros Hp. apply Hu. by rewrite Hp.
Qed.

(** C32. When a stream ends in tool calls, a consumer that collects the events gets every call the accepted chunks describe exactly
    once: under the identifier and name given for its index, with the concatenation of all its argument fragments, and
    no other call; the terminal event comes last and once. *)
Theorem tool_calls_are_delivered_whole inputs rest st summary : read inputs = Some (rest, st, Ok summary) -> summary_finish_reason summary = ToolCall ->
  exists seen calls before k, inputs = seen ++ rest /\ inner (sink st) = deliver calls (inner t) /\
    events_of calls = before ++ [Finished ToolCall (summary_usage summary)] /\ Forall (fun e => is_finished e = false) before /\
    collect before ∅ = Some k /\
    let ds := chunks_of parse_chunk seen ≫= chunk_deltas in ds <> [] /\
    (forall i, i ∈ delta_index <$> ds -> exists id name, given delta_id i ds = Some id /\ given delta_name i ds = Some name /\
       blank id = false /\ blank name = false /\ k !! id = Some (name, arguments_of i ds)) /\
    (forall id, is_Some (k !! id) -> exists i, i ∈ delta_index <$> ds /\ given delta_id i ds = Some id) /\
    (forall i j, i ∈ delta_index <$> ds -> j ∈ delta_index <$> ds -> given delta_id i ds = given delta_id j ds -> i = j).
Proof.
  intros E Hf. destruct (read_stream_ok parse_chunk maximum idle_timeout_ms t Hfresh inputs) as (rest' & st' & r & E' & seen & refused & Hi & _ & Hr & calls & [Hs _] & Hend).
  rewrite E in E'. injection E' as <- <- <-. rewrite (Hr eq_refl) in Hi. destruct (Hend summary eq_refl) as [F|(before & Hb & [_ Hreason (a & Ha & _ & _ & Hfa)])]; [congruence|].
  destruct (announced_calls _ _ _ _ Ha) as (k & Hk & Hrest); [by rewrite <- Hfa, Hreason, Hf|].
  exists seen, calls, (events_of before), k. split; [done|]. split; [apply Hs|]. split; [by rewrite Hb, events_of_app, Hf|]. split; [apply Ha|]. done.
Qed.

(** ** Bounds *)

Lemma apply_chunk_budget chunk b a a' b' r : apply_chunk chunk b a = Some (a', b', r) -> limits b' = limits b /\ event_count b' = event_count b.
Proof. unfold apply_chunk. destruct (apply_chunk_transaction _ _ _) as [[tx [u|e]]|]; [by intros [= <- <- <-]| |done]. destruct (rollback _ _); [by intros [= <- <- <-]|done]. Qed.

Lemma take_chunk_budget chunk (st st' : ChatState (S := S)) r : take_chunk chunk st = Some (st', r) ->
  limits (stream_budget st') = limits (stream_budget st) /\ event_count (stream_budget st') = event_count (stream_budget st).
Proof.
  unfold take_chunk. destruct (chunk_error chunk); [by intros [= <- <-]|]. destruct (usage_of_chunk chunk); [|by intros [= <- <-]].
  destruct (usage_conflicts _ _); [by intros [= <- <-]|]. cbn [stream_budget with_sink accumulator].
  destruct (apply_chunk _ _ _) as [[[a1 b1] r']|] eqn:E; [|done]. apply apply_chunk_budget in E. destruct r' as [u|e]; [|by intros [= <- <-]].
  destruct (push_events _ _) as [t' r']. by intros [= <- <-].
Qed.

Lemma take_event_budget data (st st' : ChatState (S := S)) r : take_event parse_chunk data st = Some (st', r) ->
  limits (stream_budget st') = limits (stream_budget st) /\ event_count (stream_budget st') = saturating_add_u64 (event_count (stream_budget st)) 1 /\
  (is_ok r = true -> (event_count (stream_budget st') <= max_events (limits (stream_budget st)))%N).
Proof.
  unfold take_event, record_event. cbv zeta. destruct (ensure_stream_limit EventCount _ _) as [[]|e] eqn:El; [|by intros [= <- <-]]. apply ensured in El.
  destruct (record_progress _) as [t' [[]|e]]; [|by intros [= <- <-]]. destruct (text_eqb data _); [by intros [= <- <-]|].
  destruct (parse_chunk data) as [chunk|[line column]]; [|by intros [= <- <-]]. destruct (take_chunk chunk _) as [[st1 r1]|] eqn:E; [|done].
  apply take_chunk_budget in E as [E1 E2]. destruct r1; intros [= <- <-]; rewrite E1, E2; done.
Qed.

Lemma loop_events inputs (st st' : ChatState (S := S)) rest exit : chat_loop parse_chunk inputs st = Some (rest, st', exit) ->
  (max_events (limits (stream_budget st)) < u64_max)%N -> (event_count (stream_budget st) <= max_events (limits (stream_budget st)))%N ->
  limits (stream_budget st') = limits (stream_budget st) /\
  (N.of_nat (length inputs) + event_count (stream_budget st) <= N.of_nat (length rest) + max_events (limits (stream_budget st)) + 1)%N.
Proof.
  revert st. induction inputs as [|input inputs IH]; intros st E Hm Hc; [injection E as <- <- <-; split; [done|cbn; lia]|].
  destruct input as [| |data|e|shown]; try (injection E as <- <- <-; split; [done|cbn [length]; lia]).
  cbn [chat_loop] in E. destruct (take_event parse_chunk data st) as [[st1 r]|] eqn:Et; [|done]. destruct (take_event_budget _ _ _ _ Et) as (Hl & He & Hok).
  unfold saturating_add_u64 in He. destruct r as [[]|err]; try (injection E as <- <- <-; split; [done|cbn [length]; lia]).
  specialize (Hok eq_refl). destruct (IH st1 E ltac:(by rewrite Hl) ltac:(by rewrite Hl)) as [Hl' Hi]. split; [congruence|]. rewrite Hl in Hi. cbn [length]. lia.
Qed.

Lemma conclude_calls eof (st : ChatState (S := S)) : tool_calls (accumulator (fst (conclude eof st))) = tool_calls (accumulator st).
Proof.
  unfold conclude. destruct (eof && _); [done|]. destruct (validate_streamed_tool_calls _); [|done]. destruct (resolve_finish_reason _ _); [|done].
  destruct (project_model_event _ _) as [t' [[]|e]]; [|done]. by case_bool_decide.
Qed.

Lemma settle_calls (st : ChatState (S := S)) r : tool_calls (accumulator (fst (settle_stream st r))) = tool_calls (accumulator st).
Proof.
  unfold settle_stream, flush_assistant_text_before_early_exit. destruct (flush_before_early_exit _) as [h events]. destruct (push_events _ _) as [t' f].
  destruct r as [summary|e]; [by case_bool_decide|]. by destruct (projection_failed (sink st)).
Qed.

Lemma counted_calls b m : staged_ok b empty_stage m -> (N.of_nat (size m) <= max_tool_calls (limits b))%N.
Proof.
  intros [Hk _ Hc _]. cbn in Hc. rewrite size_empty in Hc. etransitivity; [|exact Hc]. enough (size m <= size (budget_tool_calls b)) by lia.
  set (keys := budget_key <$> (fst <$> map_to_list m)). assert (size m = length keys) as -> by (unfold keys; rewrite !length_fmap; symmetry; apply length_map_to_list).
  unfold size, set_size. cbn. apply submseteq_length, NoDup_submseteq.
  - unfold keys. apply NoDup_fmap_2_strong; [intros i j _ _; apply budget_key_inj|]. apply NoDup_fst_map_to_list.
  - intros key (i & -> & ((j & c) & -> & Hj)%list_elem_of_fmap)%list_elem_of_fmap. apply elem_of_map_to_list in Hj. apply elem_of_elements.
    specialize (Hk j ltac:(by exists c)). set_solver.
Qed.

(** A stream never makes the client keep more tool calls, longer arguments or more events than the limits admit: the calls and
    the arguments kept stay within theirs however the stream ends, and at most one event beyond the limit is read. *)
Theorem streams_stay_in_budget inputs rest st r : read inputs = Some (rest, st, r) ->
  (max_tool_calls maximum < u64_max)%N -> (max_tool_call_argument_bytes maximum < u64_max)%N -> (max_events maximum < u64_max)%N ->
  (N.of_nat (size (tool_calls (accumulator st))) <= max_tool_calls maximum)%N /\
  (forall i c, tool_calls (accumulator st) !! i = Some c -> (byte_len (arguments c) <= max_tool_call_argument_bytes maximum)%N) /\
  (N.of_nat (length inputs) <= N.of_nat (length rest) + max_events maximum + 1)%N.
Proof.
  intros E Hc Hb He. unfold read_stream in E.
  assert (running [] [] t (chat_start maximum idle_timeout_ms t)) as Hstart by (split; [apply accepted_nothing|apply sent_nothing]).
  destruct (chat_loop_ok parse_chunk inputs [] [] t _ Hstart) as (rest' & st1 & exit & calls & El & (seen & refused & Hi & _ & _ & Hend) & _). rewrite El in E.
  destruct (loop_events _ _ _ _ _ El He) as [Hl Hn]; [cbn; lia|]. cbn [chat_start stream_budget budget_new limits event_count] in Hl, Hn.
  assert (staged_ok (stream_budget st1) empty_stage (tool_calls (accumulator st1))) as Hst.
  { assert (exists chunks events, accepted chunks events (accumulator st1) (stream_budget st1)) as (chunks & events & Ha).
    { destruct Hend as [[Ha _]|[_ [_ (ev & Ha)]]]; by eexists _, _. }
    apply (acc_budget _ _ _ _ Ha). by rewrite Hl. }
  assert (rest = rest' /\ tool_calls (accumulator st) = tool_calls (accumulator st1)) as [-> Htc].
  { destruct exit as [eof|r1].
    - pose proof (conclude_calls eof st1) as H1. destruct (conclude eof st1) as [st2 r2]. pose proof (settle_calls st2 r2) as H2.
      destruct (settle_stream st2 r2) as [st3 r3]. injection E as <- <- _. cbn in *. split; [done|congruence].
    - pose proof (settle_calls st1 r1) as H2. destruct (settle_stream st1 r1) as [st3 r3]. injection E as <- <- _. done. }
  rewrite Htc. split; [rewrite <- Hl; by apply counted_calls|]. split; [|lia]. intros i c Hic. destruct Hst as [_ _ _ Hy]. destruct (Hy i) as [H1 H2].
  rewrite Hic in H1. cbn in H1. unfold id in H1. rewrite Hl in H2. lia.
Qed.
End Answers.

(** * Attempts of a chat completion

    A request is only repeated while nothing of an answer was delivered; the sink is told how it ended. *)

Open Scope N_scope.

Section Attempts.
Context `{HashIteration} {S : Type} `{LlmEventSink S} (parse_chunk : text -> result OpenAiChatChunk (N * N)).
Context (deadlines : ProviderDeadlines) (prepare : N -> result unit LlmError) (set_up : result unit LlmError).
Context (maximum : ProviderStreamLimits) (idle_timeout_ms : N).
Implicit Types t : ProviderTraceSink S.

Local Abbreviation send := (send_loop deadlines).
Local Abbreviation run_attempt := (stream_chat_attempt parse_chunk deadlines prepare set_up maximum idle_timeout_ms).
Local Abbreviation run_attempts := (attempt_loop parse_chunk deadlines prepare set_up maximum idle_timeout_ms).

(** Calls under which the number of the attempt may change. *)
Record delivered (calls : list SinkCall) (ok : bool) t t' : Prop := {
  delivered_inner : inner t' = deliver calls (inner t);
  delivered_failed : projection_failed t' = projection_failed t || negb ok;
  delivered_blocked : replay_blocked t = true -> replay_blocked t' = true;
  delivered_pushes : events_of calls <> [] -> replay_blocked t' = true
}.

Lemma sent_delivered calls ok t t' : sent calls ok t t' -> delivered calls ok t t'.
Proof. by intros [? ? ? ? ?]. Qed.

Lemma delivered_trans calls1 calls2 ok t1 t2 t3 : delivered calls1 true t1 t2 -> delivered calls2 ok t2 t3 -> delivered (calls1 ++ calls2) ok t1 t3.
Proof.
  intros [Hi Hf Hb Hp] [Hi' Hf' Hb' Hp']. split.
  - by rewrite Hi', Hi, deliver_app.
  - rewrite Hf', Hf. cbn. by rewrite orb_false_r.
  - auto.
  - rewrite events_of_app. intros Hne. destruct (events_of calls2) as [|e l] eqn:E; [rewrite app_nil_r in Hne; by apply Hb', Hp|by apply Hp'].
Qed.

(** ** Sending *)

Lemma begin_sent n t : let '(t', r) := begin_attempt n t in
  exists calls, delivered calls (is_ok r) t t' /\ events_of calls = [] /\ attempt t' = n.
Proof.
  unfold begin_attempt. pose proof (phase_sent AttemptStarted (set_progress n false false t)) as Hp.
  assert (attempt (fst (phase AttemptStarted (set_progress n false false t))) = n) as Ha.
  { unfold phase, project_provider_phase, record_projection_result. cbn. by destruct (is_ok _). }
  destruct (phase AttemptStarted _) as [t' r]. eexists [PhaseCall _]. split; [|done]. destruct Hp as [? ? ? ? ?]. by split.
Qed.

Lemma phase_quiet p t : let '(t', r) := phase p t in exists calls, delivered calls (is_ok r) t t' /\ events_of calls = [] /\ attempt t' = attempt t.
Proof.
  pose proof (phase_sent p t) as Hp. assert (attempt (fst (phase p t)) = attempt t) as Ha.
  { unfold phase, project_provider_phase, record_projection_result. cbn. by destruct (is_ok _). }
  destruct (phase p t) as [t' r]. eexists [PhaseCall _]. split; [by apply sent_delivered|done].
Qed.

(** Sending delivers nothing of an answer; every send but the first follows one that could not connect within the
    retries. *)
Lemma send_ok answers t t' r : send answers t = Ended (t', r) ->
  exists calls ok, delivered calls ok t t' /\ events_of calls = [] /\ (r = Ok true -> ok = true) /\ (attempt t <= max_connect_retries deadlines -> attempt t' <= max_connect_retries deadlines + 1).
Proof.
  revert t. induction answers as [|answer answers IH]; intros t E; [done|]. cbn [send_loop] in E.
  pose proof (begin_sent (saturating_add_u16 (attempt t) 1) t) as H1. destruct (begin_attempt _ t) as [t1 r1]. destruct H1 as (c1 & Hs1 & He1 & Ha1).
  assert (attempt t1 <= attempt t + 1) as Hb1 by (rewrite Ha1; unfold saturating_add_u16; lia).
  destruct r1 as [[]|e1]; [|injection E as <- <-; exists c1, false; split; [done|]; split; [done|]; split; [done|lia]].
  pose proof (phase_quiet RequestInFlight t1) as H2. destruct (phase RequestInFlight t1) as [t2 r2]. destruct H2 as (c2 & Hs2 & He2 & Ha2).
  pose proof (delivered_trans _ _ _ _ _ _ Hs1 Hs2) as Hs. assert (events_of (c1 ++ c2) = []) as He by by rewrite events_of_app, He1, He2.
  destruct r2 as [[]|e2]; [|injection E as <- <-; exists (c1 ++ c2), false; split; [done|]; split; [done|]; split; [done|lia]].
  assert (forall r', Ended (t2, r') = Ended (t', r) -> exists calls ok, delivered calls ok t t' /\ events_of calls = [] /\ (r = Ok true -> ok = true) /\
            (attempt t <= max_connect_retries deadlines -> attempt t' <= max_connect_retries deadlines + 1)) as Hstop.
  { intros r' [= <- <-]. exists (c1 ++ c2), true. split; [done|]. split; [done|]. split; [done|lia]. }
  assert (forall k : ProviderTraceSink S -> Outcome (ProviderTraceSink S * result bool LlmError), (forall t3, exists r', k t3 = Ended (t3, r')) ->
            match phase HeadersReceived t2 with (t, Err e) => Ended (t, Err e) | (t, Ok _) => k t end = Ended (t', r) ->
            exists calls ok, delivered calls ok t t' /\ events_of calls = [] /\ (r = Ok true -> ok = true) /\
            (attempt t <= max_connect_retries deadlines -> attempt t' <= max_connect_retries deadlines + 1)) as Hresp.
  { intros k Hk E3. pose proof (phase_quiet HeadersReceived t2) as H3. destruct (phase HeadersReceived t2) as [t3 r3]. destruct H3 as (c3 & Hs3 & He3 & Ha3).
    exists ((c1 ++ c2) ++ c3), (is_ok r3). pose proof (delivered_trans _ _ _ _ _ _ Hs Hs3) as Hs4. destruct r3 as [[]|e3].
    - destruct (Hk t3) as (r' & Hr'). rewrite Hr' in E3. injection E3 as <- <-. split; [done|]. split; [by rewrite events_of_app, He, He3|]. split; [done|lia].
    - injection E3 as <- <-. split; [done|]. split; [by rewrite events_of_app, He, He3|]. split; [done|lia]. }
  destruct answer as [| | |body|connect decode message delay]; [eapply Hstop; exact E|eapply Hstop; exact E| | |].
  - eapply (Hresp (fun t => Ended (t, Ok true))); [by intros t3; eexists|done].
  - eapply (Hresp (fun t => match body with Err e => Ended (t, Err e) | Ok None => Ended (t, Ok false)
                       | Ok (Some failure) => Ended (t, Err (ProviderRejected (Some (rejected_status failure)) (rejected_code failure) (rejected_param failure) (rejected_message failure))) end)); [|exact E].
    intros t3. destruct body as [[f|]|e]; eexists; reflexivity.
  - destruct (connect && within_retries deadlines _) eqn:Ew; [|eapply Hstop; exact E]. apply andb_true_iff in Ew as [_ Ew]. unfold within_retries in Ew. apply N.leb_le in Ew.
    destruct (sleep_retry_delay_until_deadline _ _); [|destruct (cancelled_after delay); eapply Hstop; exact E].
    destruct (IH _ E) as (c & ok & Hc & Hec & Hr & Ha). exists ((c1 ++ c2) ++ c), ok. split; [by eapply delivered_trans|]. split; [by rewrite events_of_app, He, Hec|]. split; [done|].
    intros _. apply Ha. rewrite Ha2, Ha1. done.
Qed.

(** ** Attempts *)

Lemma attempt_ok a t t' r : projection_failed t = false -> run_attempt a t = Ended (t', r) ->
  exists calls ok, delivered calls ok t t' /\ (attempt t <= max_connect_retries deadlines -> attempt t' <= max_connect_retries deadlines + 1).
Proof.
  intros Hf E. unfold stream_chat_attempt in E.
  assert (exists calls ok, delivered calls ok t t /\ (attempt t <= max_connect_retries deadlines -> attempt t <= max_connect_retries deadlines + 1)) as Hnone.
  { exists [], true. split; [apply sent_delivered, sent_nothing|lia]. }
  destruct (prepare (attempt t)); [|by injection E as <- <-]. destruct set_up; [|by injection E as <- <-]. clear Hnone.
  destruct (send (sends a) t) as [| |[t1 r1]] eqn:Es; [done|done|]. destruct (send_ok _ _ _ _ Es) as (calls & ok & Hd & He & Hok & Ha).
  destruct r1 as [[]|e].
  - rewrite (Hok eq_refl) in Hd. assert (projection_failed t1 = false) as Hf1 by (by rewrite (delivered_failed _ _ _ _ Hd), Hf).
    destruct (read_stream_ok parse_chunk maximum idle_timeout_ms t1 Hf1 (stream a)) as (rest & st & r' & Er & _ & _ & _ & _ & _ & more & [Hs _] & _).
    rewrite Er in E. injection E as <- <-. exists (calls ++ more), (negb (projection_failed (sink st))). split; [by eapply delivered_trans, sent_delivered|].
    by rewrite (sent_attempt _ _ _ _ Hs).
  - injection E as <- <-. by exists calls, ok.
  - injection E as <- <-. by exists calls, ok.
Qed.

(** What a failed attempt that may be repeated leaves. *)
Lemma retried a t t' e : projection_failed t = false -> run_attempt a t = Ended (t', Err e) -> may_retry deadlines e t' = true ->
  (exists calls, delivered calls true t t' /\ events_of calls = []) /\ projection_failed t' = false /\ replay_blocked t' = false /\
  attempt t' <= max_connect_retries deadlines.
Proof.
  intros Hf E Hr. destruct (attempt_ok _ _ _ _ Hf E) as (calls & ok & Hd & _). unfold may_retry in Hr.
  apply andb_true_iff in Hr as [[[_ Hb%negb_true_iff]%andb_true_iff Hp%negb_true_iff]%andb_true_iff Ha%N.leb_le].
  assert (ok = true) as -> by (rewrite (delivered_failed _ _ _ _ Hd), Hf in Hp; by destruct ok).
  split; [|done]. exists calls. split; [done|]. destruct (events_of calls) as [|x l] eqn:Ee; [done|]. rewrite (delivered_pushes _ _ _ _ Hd) in Hb; [done|by rewrite Ee].
Qed.

(** A request is repeated only after attempts that handed nothing of an answer to the sink, so that whatever the sink got of the
    answer comes from the last attempt; no more requests are sent than the retries admit and one. *)
Theorem answers_come_from_one_attempt attempts t t' r : projection_failed t = false -> attempt t <= max_connect_retries deadlines ->
  run_attempts attempts t = Ended (t', r) ->
  attempt t' <= max_connect_retries deadlines + 1 /\
  exists earlier last later before t1 r1, attempts = earlier ++ last :: later /\
    delivered before true t t1 /\ events_of before = [] /\ run_attempt last t1 = Ended (t', r1) /\
    (r1 = r \/ exists e calls, r1 = Err e /\ may_retry deadlines e t' = true /\ delivered calls true t t' /\ events_of calls = [] /\
       sleep_retry_delay_until_deadline (delay_ms (attempt t')) (after last) = false /\
       r = if cancelled_after (after last) then Ok (cancelled_summary None) else Err (timed_out deadlines)).
Proof.
  revert t. induction attempts as [|a attempts IH]; intros t Hf Ha E; [done|]. cbn [attempt_loop] in E.
  destruct (run_attempt a t) as [| |[t2 r2]] eqn:Er; [done|done|]. destruct (attempt_ok _ _ _ _ Hf Er) as (calls2 & ok2 & Hd2 & Ha2).
  assert (delivered [] true t t) as Hnil by apply sent_delivered, sent_nothing.
  destruct r2 as [summary|e].
  { injection E as <- <-. split; [by apply Ha2|]. exists [], a, attempts, [], t, (Ok summary). split; [done|]. split; [done|]. split; [done|]. split; [done|]. by left. }
  destruct (negb (may_retry deadlines e t2)) eqn:Em.
  { injection E as <- <-. split; [by apply Ha2|]. exists [], a, attempts, [], t, (Err e). split; [done|]. split; [done|]. split; [done|]. split; [done|]. by left. }
  apply negb_false_iff in Em. destruct (retried _ _ _ _ Hf Er Em) as ((calls & Hd & He) & Hf' & _ & Hle).
  destruct (sleep_retry_delay_until_deadline _ (after a)) eqn:Esl.
  - destruct (IH t2 Hf' Hle E) as (Hb & earlier & last & later & before & t1 & r1 & -> & Hd1 & He1 & Hrun & Hlast). split; [done|].
    exists (a :: earlier), last, later, (calls ++ before), t1, r1. split; [done|]. split; [by eapply delivered_trans|]. split; [by rewrite events_of_app, He, He1|]. split; [done|].
    destruct Hlast as [?|(e' & c' & ? & ? & Hd' & He' & ? & ?)]; [by left|]. right. exists e', (calls ++ c'). split; [done|]. split; [done|]. split; [by eapply delivered_trans|].
    by rewrite events_of_app, He, He'.
  - assert (t' = t2 /\ r = if cancelled_after (after a) then Ok (cancelled_summary None) else Err (timed_out deadlines)) as [-> ->]
      by (destruct (cancelled_after (after a)); by injection E as <- <-).
    split; [lia|]. exists [], a, attempts, [], t, (Err e). split; [done|]. split; [done|]. split; [done|]. split; [done|]. right. by exists e, calls.
Qed.
End Attempts.

(** ** The end of the trace *)

Section Finish.
Context {S : Type} `{LlmEventSink S} (display_failure : ProviderFailure -> text).
Implicit Types t : ProviderTraceSink S.
Local Abbreviation finished := (trace_finish display_failure).

Definition status_of (summary : LlmResponseSummary) : ProviderTerminalStatus :=
  if bool_decide (summary_finish_reason summary = FinishCancelled) then TerminalCancelled else TerminalCompleted.

Lemma projected_phase p e t : let '(t', r) := project_provider_phase e (set_phase p t) in
  sent [PhaseCall e] (is_ok r) t t' /\ current_phase t' = p /\ attempt t' = attempt t.
Proof.
  unfold project_provider_phase, record_projection_result. cbn [set_phase inner]. destruct (provider_phase e (inner t)) as [s r] eqn:E. cbn [fst snd].
  destruct (is_ok r) eqn:Er; (split; [split; cbn; rewrite ?E, ?orb_true_r, ?orb_false_r; done|done]).
Qed.

(** The last event of a request. *)
Definition final_event (status : ProviderTerminalStatus) (usage : option TokenUsage) (failure : option ProviderFailure) (attempt : N) : SinkCall :=
  PhaseCall {| event_phase := ProviderTerminal; event_attempt := attempt; terminal_status := Some status; event_usage := usage; event_failure := failure |}.

(** What the trace says of a result, and what it returns. *)
Definition reported (t : ProviderTraceSink S) (r r' : result LlmResponseSummary LlmError) (calls : list SinkCall) : Prop :=
  match r with
  | Ok summary => r' = Ok summary /\ exists before, calls = before ++ [final_event (status_of summary) (summary_usage summary) None (attempt t)]
  | Err e =>
    if is_classified e then r' = Err e
    else exists failure before, r' = Err (ProviderFailed failure e) /\ failure_kind failure <> EventProjectionKind /\ failure_attempt failure = attempt t /\
           calls = before ++ [final_event TerminalFailed (token_usage e) (Some failure) (attempt t)]
  end.

Lemma provider_kind source (t : ProviderTraceSink S) : failure_kind (provider_failure_for display_failure source t) <> EventProjectionKind.
Proof.
  unfold provider_failure_for, failure_for_origin, classify_failure.
  destruct source as [[] []| | | | | | | | | | | | |]; try done. by destruct (current_phase t).
Qed.

Lemma projection_kind source (t : ProviderTraceSink S) : projection_failed t = true -> failure_kind (failure_for display_failure source t) = EventProjectionKind.
Proof. unfold failure_for, failure_for_origin. by intros ->. Qed.

Lemma last_progress_sent t : let '(t', e) := project_last_progress t in
  exists calls, sent calls (bool_decide (e = None)) t t' /\ events_of calls = [] /\ attempt t' = attempt t.
Proof.
  unfold project_last_progress. destruct (progress_seen t).
  - pose proof (projected_phase LastProgress (plain_event LastProgress (set_phase LastProgress t)) t) as Hp.
    destruct (project_provider_phase _ (set_phase LastProgress t)) as [t' [[]|e]]; eexists [PhaseCall _]; destruct Hp as (Hp & _ & Ha);
      (split; [by rewrite bool_decide_decide; destruct (decide _)|by split]).
  - exists []. split; [|done]. apply sent_nothing.
Qed.

(** Once a request was sent and unless the sink fails, its outcome is reported to the sink as the last event: completed or cancelled with
    the usage, or failed with a failure that names the attempt, and the error returned carries that failure and its
    source; an error that already says what happened is returned as it is.  A sink that fails is answered with a projection
    failure.  Nothing of an answer is delivered at this point. *)
Theorem outcomes_are_reported r t : attempt t <> 0 -> projection_failed t = false ->
  let '(t', r') := finished r t in
  exists calls, sent calls (negb (projection_failed t')) t t' /\ events_of calls = [] /\
    if projection_failed t' then exists failure source, r' = Err (ProviderFailed failure source) /\ failure_kind failure = EventProjectionKind
    else reported t r r' calls.
Proof.
  intros Ha Hf. unfold trace_finish. destruct (N.eqb_spec (attempt t) 0); [done|]. rewrite Hf.
  assert (forall c ok t', sent c ok t t' -> negb (projection_failed t') = ok) as Hok by (intros c ok t' Hs; rewrite (sent_failed _ _ _ _ Hs), Hf; apply negb_involutive).
  enough (let '(t', r') := finish_phases display_failure r t in exists calls ok, sent calls ok t t' /\ events_of calls = [] /\
    if ok then reported t r r' calls else exists failure source, r' = Err (ProviderFailed failure source) /\ failure_kind failure = EventProjectionKind) as Hmain.
  { replace (match r with Ok _ => finish_phases display_failure r t | Err _ => finish_phases display_failure r t end) with (finish_phases display_failure r t) by (by destruct r).
    destruct (finish_phases display_failure r t) as [t' r']. destruct Hmain as (calls & ok & Hs & He & Hr). exists calls. pose proof (Hok _ _ _ Hs) as E. rewrite E.
    split; [done|]. split; [done|]. destruct ok; [apply negb_true_iff in E|apply negb_false_iff in E]; by rewrite E. }
  unfold finish_phases. pose proof (last_progress_sent t) as Hl. destruct (project_last_progress t) as [t1 e1]. destruct Hl as (c1 & Hs1 & He1 & Ha1).
  destruct (classify_result display_failure r t1) as [r1 pf] eqn:Ec. destruct e1 as [source|].
  { exists c1, false. split; [done|]. split; [done|]. eexists _, _. split; [reflexivity|]. apply projection_kind. by rewrite (sent_failed _ _ _ _ Hs1), orb_true_r. }
  assert (forall status us failure, let '(t', r') := project_terminal status us failure t1 in
    exists ok, sent (c1 ++ [PhaseCall (terminal_event status us failure t)]) ok t t' /\ ok = is_ok r' /\ (ok = false -> projection_failed t' = true)) as Hterm.
  { intros status us failure. unfold project_terminal. pose proof (projected_phase ProviderTerminal (terminal_event status us failure (set_phase ProviderTerminal t1)) t1) as Hp.
    destruct (project_provider_phase _ (set_phase ProviderTerminal t1)) as [t' r']. destruct Hp as (Hp & _). exists (is_ok r').
    assert (terminal_event status us failure (set_phase ProviderTerminal t1) = terminal_event status us failure t) as Et by (unfold terminal_event; cbn; by rewrite Ha1). rewrite Et in Hp.
    pose proof (sent_trans _ _ _ _ _ _ Hs1 Hp) as Hs. split; [done|]. split; [done|]. intros E. by rewrite (sent_failed _ _ _ _ Hs), E, orb_true_r. }
  assert (forall p, events_of (c1 ++ [PhaseCall p]) = []) as Hquiet by (intros p; by rewrite events_of_app, He1).
  destruct r as [summary|source]; cbn in Ec.
  - injection Ec as <- <-. fold (status_of summary). specialize (Hterm (status_of summary) (summary_usage summary) None).
    destruct (project_terminal _ _ _ t1) as [t' [u|e]]; destruct Hterm as (ok & Hs & -> & Hpf); eexists _, _; (split; [exact Hs|]); (split; [apply Hquiet|]); cbn.
    + split; [done|]. by exists c1.
    + eexists _, _. split; [reflexivity|]. by apply projection_kind, Hpf.
  - destruct (is_classified source) eqn:Ecl; injection Ec as <- <-.
    + exists c1, true. split; [done|]. split; [done|]. unfold reported. by rewrite Ecl.
    + set (failure := provider_failure_for display_failure source t1). specialize (Hterm TerminalFailed (token_usage source) (Some failure)).
      change (token_usage (ProviderFailed failure source)) with (token_usage source).
      destruct (project_terminal _ _ _ t1) as [t' [u|e]]; destruct Hterm as (ok & Hs & -> & Hpf); eexists _, _; (split; [exact Hs|]); (split; [apply Hquiet|]); cbn [is_ok].
      * unfold reported. rewrite Ecl. exists failure, c1. split; [done|]. split; [apply provider_kind|]. split; [|done]. unfold failure, provider_failure_for, failure_for_origin.
        by destruct (classify_failure _ _ _) as [[? ?] ?].
      * eexists _, _. split; [reflexivity|]. by apply projection_kind, Hpf.
Qed.
End Finish.
