(* ===== verification/ChatDemo.v ===== *)
(** * A chat completion read to its end

    A sink that records, a parser for four chunks, and the theorems at concrete streams. *)
From S2P Require Import Prelude.
From S2P Require Import Text.
From S2P Require Import Utf8.
From S2P Require Import ContextManager.
From S2P Require Import ContextTokens.
From S2P Require Import ProviderStream.
From S2P Require Import ChatStream.
From S2P Require Import ChatHoldback.
From S2P Require Import ChatChunk.
From S2P Require Import ChatCalls.
From S2P Require Import ChatAccepted.
From S2P Require Import ChatClient.
From S2P Require Import ChatRun.
From S2P Require Import ChatAnswers.

Open Scope N_scope.

#[local] Instance map_order : HashIteration := {| hash_iter A m := map_to_list m; hash_iter_perm A m := reflexivity _ |}.
#[local] Instance recorder : LlmEventSink (list SinkCall) :=
  {| push e s := (s ++ [PushCall e], Ok tt); provider_phase p s := (s ++ [PhaseCall p], Ok tt) |}.

Definition demo_call (index : N) (id name args : option string) : OpenAiToolCallDelta :=
  {| delta_index := index; delta_id := lit <$> id; delta_function := Some {| function_name := lit <$> name; function_arguments := lit <$> args |} |}.
Definition demo_chunk (text : option string) (calls : list OpenAiToolCallDelta) (finish : option string) : OpenAiChatChunk :=
  {| choices := [{| choice_index := 0;
                    choice_delta := {| content := lit <$> text; delta_tool_calls := if is_empty calls then None else Some calls;
                                       reasoning_content := None; reasoning := None; additional_fields := [] |};
                    choice_finish_reason := lit <$> finish |}];
     chunk_usage := None; chunk_error := None |}.

Definition opening : OpenAiChatChunk := demo_chunk (Some "<|im_start|>user"%string) [demo_call 0 (Some "call-1") (Some "read") (Some "{pa")]%string None.
Definition middle : OpenAiChatChunk := demo_chunk None [demo_call 0 None None (Some "th}"); demo_call 1 (Some "call-2") (Some "list") (Some "{}")]%string None.
Definition closing : OpenAiChatChunk := demo_chunk None [] (Some "tool_calls"%string).
(** Its second delta gives the call 0 another identifier. *)
Definition contradicting : OpenAiChatChunk :=
  demo_chunk (Some "text"%string) [demo_call 2 (Some "call-3") (Some "list") (Some "{}"); demo_call 0 (Some "other") None (Some "!")]%string None.

Definition demo_parse (data : text) : result OpenAiChatChunk (N * N) :=
  if text_eqb data (lit "opening") then Ok opening
  else if text_eqb data (lit "middle") then Ok middle
  else if text_eqb data (lit "closing") then Ok closing
  else if text_eqb data (lit "contradicting") then Ok contradicting
  else Err (1, 1).

Definition event (data : string) : StreamInput := SseEvent (lit data).
Definition tool_stream : list StreamInput := [event "opening"; event "middle"; event "closing"; event "[DONE]"].
Definition broken_stream : list StreamInput := [event "opening"; event "contradicting"; event "middle"].
Definition demo_trace : ProviderTraceSink (list SinkCall) := trace_new [].

Definition pushed (r : option (list StreamInput * ChatState (S := list SinkCall) * result LlmResponseSummary LlmError)) : list LlmEvent :=
  match r with Some (_, st, _) => events_of (inner (sink st)) | None => [] end.

(** The marker is dropped before tool calls, and shown when the stream breaks off. *)
Example tool_stream_events : pushed (read_stream demo_parse product_default 1000 tool_stream demo_trace) =
  [ToolCallStart (lit "call-1") (lit "read"); ToolCallArgsDelta (lit "call-1") (lit "{pa"); ToolCallArgsDelta (lit "call-1") (lit "th}");
   ToolCallStart (lit "call-2") (lit "list"); ToolCallArgsDelta (lit "call-2") (lit "{}"); Finished ToolCall None].
Proof. vm_compute. reflexivity. Qed.

Example broken_stream_events : pushed (read_stream demo_parse product_default 1000 broken_stream demo_trace) =
  [ToolCallStart (lit "call-1") (lit "read"); ToolCallArgsDelta (lit "call-1") (lit "{pa"); TextDelta (lit "<|im_start|>user")].
Proof. vm_compute. reflexivity. Qed.

(** ** Witnesses *)

Definition after_opening : ChatStreamAccumulator * ProviderStreamBudget :=
  match apply_chunk opening (budget_new product_default 1000) empty_accumulator with
  | Some (a, b, _) => (a, b)
  | None => (empty_accumulator, budget_new product_default 1000)
  end.

Lemma chunks_are_atomic_witness : all_sent (tool_calls (fst after_opening)) /\
  exists e, apply_chunk contradicting (snd after_opening) (fst after_opening) = Some (fst after_opening, snd after_opening, Err e).
Proof.
  assert (all_sent (tool_calls (fst after_opening))) as Hs.
  { unfold after_opening. destruct (chunk_applied opening (budget_new product_default 1000) empty_accumulator) as (a & b & r & -> & Hs & _); [|done].
    intros i c Hc. exfalso. revert Hc. cbn. by rewrite lookup_empty. }
  split; [exact Hs|]. destruct (chunks_are_atomic contradicting (snd after_opening) (fst after_opening) Hs) as (a' & b' & r & E & _ & Hr).
  destruct r as [u|e]; [exfalso; vm_compute in E; discriminate E|]. destruct (Hr e eq_refl) as [Ha Hb]. exists e. rewrite E, Ha, Hb. reflexivity.
Defined.

Lemma answers_are_shown_whole_witness : projection_failed demo_trace = false /\
  exists rest st r seen refused calls unshown, read_stream demo_parse product_default 1000 broken_stream demo_trace = Some (rest, st, r) /\
    broken_stream = seen ++ refused ++ rest /\ (length refused <= 1)%nat /\ (is_ok r = true -> refused = []) /\
    inner (sink st) = deliver calls [] /\ text_of (events_of calls) ++ unshown = content_of (chunks_of demo_parse seen).
Proof.
  split; [reflexivity|].
  destruct (answers_are_shown_whole demo_parse product_default 1000 demo_trace eq_refl broken_stream) as (rest & st & r & seen & refused & calls & unshown & H1 & H2 & H3 & H4 & H5 & H6 & _).
  exists rest, st, r, seen, refused, calls, unshown. repeat (split; [assumption|]). assumption.
Defined.

Definition tool_summary : LlmResponseSummary :=
  {| summary_finish_reason := ToolCall; summary_usage := None; response_id := None; continuation := None |}.

Lemma tool_calls_are_delivered_whole_witness :
  exists st seen calls before k, read_stream demo_parse product_default 1000 tool_stream demo_trace = Some ([], st, Ok tool_summary) /\
    tool_stream = seen ++ [] /\ events_of calls = before ++ [Finished ToolCall None] /\ collect before ∅ = Some k /\
    (forall i, i ∈ delta_index <$> (chunks_of demo_parse seen ≫= chunk_deltas) -> exists id name,
       k !! id = Some (name, arguments_of i (chunks_of demo_parse seen ≫= chunk_deltas))).
Proof.
  destruct (read_stream demo_parse product_default 1000 tool_stream demo_trace) as [[[rest st] r]|] eqn:E; [|vm_compute in E; discriminate E].
  assert (rest = [] /\ r = Ok tool_summary) as [-> ->] by (vm_compute in E; injection E as <- _ <-; split; reflexivity).
  destruct (tool_calls_are_delivered_whole demo_parse product_default 1000 demo_trace eq_refl tool_stream [] st tool_summary E eq_refl)
    as (seen & calls & before & k & H1 & _ & H2 & _ & H3 & _ & H4 & _).
  exists st, seen, calls, before, k. split; [reflexivity|]. split; [exact H1|]. split; [exact H2|]. split; [exact H3|].
  intros i Hi. destruct (H4 i Hi) as (id & name & _ & _ & _ & _ & Hk). exists id, name. exact Hk.
Defined.

Lemma streams_stay_in_budget_witness :
  exists rest st r, read_stream demo_parse product_default 1000 broken_stream demo_trace = Some (rest, st, r) /\
    N.of_nat (size (tool_calls (accumulator st))) <= 256 /\
    (forall i c, tool_calls (accumulator st) !! i = Some c -> byte_len (arguments c) <= 1024 * 1024) /\
    N.of_nat (length broken_stream) <= N.of_nat (length rest) + 100001.
Proof.
  destruct (read_stream demo_parse product_default 1000 broken_stream demo_trace) as [[[rest st] r]|] eqn:E; [|vm_compute in E; discriminate E].
  exists rest, st, r. split; [reflexivity|].
  destruct (streams_stay_in_budget demo_parse product_default 1000 demo_trace eq_refl broken_stream rest st r E eq_refl eq_refl eq_refl) as (H1 & H2 & H3).
  split; [exact H1|]. split; [exact H2|]. cbn [max_events product_default] in H3. lia.
Defined.

Definition no_delay : Delay := {| remaining_before := None; cancelled_during := false; remaining_after := None; cancelled_after := false |}.
Definition demo_deadlines : ProviderDeadlines := {| request_timeout_ms := 0; max_connect_retries := 2 |}.
Definition limited : Attempt :=
  {| sends := [SendRejected (Ok (Some {| rejected_status := 429; rejected_code := None; rejected_param := None; rejected_message := [] |}))]; stream := []; after := no_delay |}.
Definition answering : Attempt := {| sends := [SendSucceeded]; stream := tool_stream; after := no_delay |}.

Lemma answers_come_from_one_attempt_witness : attempt demo_trace <= max_connect_retries demo_deadlines /\
  exists t' r earlier last later,
    attempt_loop demo_parse demo_deadlines (fun _ => Ok tt) (Ok tt) product_default 1000 [limited; answering] demo_trace = Ended (t', r) /\
    attempt t' <= 3 /\ [limited; answering] = earlier ++ last :: later /\
    exists before t1 r1, delivered before true demo_trace t1 /\ events_of before = [] /\
      stream_chat_attempt demo_parse demo_deadlines (fun _ => Ok tt) (Ok tt) product_default 1000 last t1 = Ended (t', r1).
Proof.
  split; [discriminate|].
  destruct (attempt_loop demo_parse demo_deadlines (fun _ => Ok tt) (Ok tt) product_default 1000 [limited; answering] demo_trace) as [| |[t' r]] eqn:E;
    [vm_compute in E; discriminate E|vm_compute in E; discriminate E|].
  destruct (answers_come_from_one_attempt demo_parse demo_deadlines (fun _ => Ok tt) (Ok tt) product_default 1000 [limited; answering] demo_trace t' r eq_refl ltac:(discriminate) E)
    as (H1 & earlier & last & later & before & t1 & r1 & H2 & H3 & H4 & H5 & _).
  exists t', r, earlier, last, later. split; [reflexivity|]. split; [exact H1|]. split; [exact H2|]. exists before, t1, r1. split; [exact H3|]. split; [exact H4|exact H5].
Defined.

Definition begun_trace : ProviderTraceSink (list SinkCall) := fst (begin_attempt 1 demo_trace).

Lemma outcomes_are_reported_witness : attempt begun_trace <> 0 /\ projection_failed begun_trace = false /\
  exists calls failure before,
    snd (trace_finish failure_message (Err (LlmMessage (lit "broken"))) begun_trace) = Err (ProviderFailed failure (LlmMessage (lit "broken"))) /\
    inner (fst (trace_finish failure_message (Err (LlmMessage (lit "broken"))) begun_trace)) = deliver calls (inner begun_trace) /\
    calls = before ++ [final_event TerminalFailed None (Some failure) (attempt begun_trace)].
Proof.
  split; [discriminate|]. split; [reflexivity|].
  pose proof (outcomes_are_reported failure_message (Err (LlmMessage (lit "broken"))) begun_trace ltac:(discriminate) eq_refl) as Ho.
  destruct (trace_finish failure_message (Err (LlmMessage (lit "broken"))) begun_trace) as [t' r'] eqn:E. destruct Ho as (calls & Hs & _ & Hr).
  assert (projection_failed t' = false) as Hp by (vm_compute in E; injection E as <- _; reflexivity). rewrite Hp in Hr.
  destruct Hr as (failure & before & -> & _ & _ & Hc). exists calls, failure, before. split; [reflexivity|]. split; [apply Hs|exact Hc].
Defined.
