(* ===== verification/Prog.v ===== *)
(** * Programs that call their environment

    A free monad over a type of calls: a program is a tree of calls whose branches are the answers.  Its behaviours are
    traces of calls with their answers; a trace is abstracted to a list of facts, a monitor reads the facts, and
    [always] proves at once that every behaviour is accepted by the monitor and ends as a postcondition says. *)
From S2P Require Import Prelude.

Open Scope nat_scope.

(** Why a program gave no result: a panic, the fuel of a loop, or the observation ended. *)
Inductive Halt := Panic | OutOfFuel | Observed.
Inductive Ending (A : Type) := Returned (a : A) | Halted (why : Halt).
Arguments Returned {A} a.
Arguments Halted {A} why.

Section Prog.
Context {Call : Type} {answer : Call -> Type}.

Inductive prog (A : Type) : Type :=
  | ret (a : A)
  | halt (why : Halt)
  | act (c : Call) (k : answer c -> prog A).
Arguments ret {A} a.
Arguments halt {A} why.
Arguments act {A} c k.

Fixpoint bind {A B} (p : prog A) (f : A -> prog B) : prog B :=
  match p with
  | ret a => f a
  | halt why => halt why
  | act c k => act c (fun r => bind (k r) f)
  end.

(** A single call. *)
Definition ask (c : Call) : prog (answer c) := act c ret.

(** [?] on what a program returns. *)
Definition bind_ok {A B E} (p : prog (result A E)) (f : A -> prog (result B E)) : prog (result B E) :=
  bind p (fun r => match r with Ok a => f a | Err e => ret (Err e) end).

(** A value that may panic. *)
Definition unpanicked {A} (o : option A) : prog A := match o with Some a => ret a | None => halt Panic end.

(** ** Behaviours *)

Definition Event : Type := { c : Call & answer c }.
Definition event (c : Call) (r : answer c) : Event := existT c r.

(** A trace may end anywhere. *)
Inductive behaves {A} : prog A -> list Event -> Ending A -> Prop :=
  | behaves_ret a : behaves (ret a) [] (Returned a)
  | behaves_halt why : behaves (halt why) [] (Halted why)
  | behaves_observed p : behaves p [] (Halted Observed)
  | behaves_act c k r tr e : behaves (k r) tr e -> behaves (act c k) (event c r :: tr) e.

(** Running against an environment that answers from its own state. *)
Fixpoint run {A S} (respond : forall c, S -> S * answer c) (p : prog A) (s : S) : S * list Event * Ending A :=
  match p with
  | ret a => (s, [], Returned a)
  | halt why => (s, [], Halted why)
  | act c k => let (s, r) := respond c s in let '(s, tr, e) := run respond (k r) s in (s, event c r :: tr, e)
  end.

Lemma run_behaves {A S} (respond : forall c, S -> S * answer c) (p : prog A) s :
  let '(_, tr, e) := run respond p s in behaves p tr e.
Proof.
  revert s. induction p as [a|why|c k IH]; intros s; cbn; [constructor|constructor|]. destruct (respond c s) as [s' r].
  specialize (IH r s'). destruct (run respond (k r) s') as [[s'' tr] e]. by constructor.
Qed.

(** ** Facts *)

Context {Fact : Type} (fact_of : forall c, answer c -> list Fact).
Definition facts (tr : list Event) : list Fact := tr ≫= fun '(existT c r) => fact_of c r.

(** ** Monitors

    A monitor reads the facts one by one and says which may come next. *)

Context {W : Type} (next : W -> Fact -> W) (ok : W -> Fact -> Prop).

Definition after (w : W) (fs : list Fact) : W := fold_left next fs w.
Fixpoint accepts (w : W) (fs : list Fact) : Prop := match fs with [] => True | f :: fs => ok w f /\ accepts (next w f) fs end.

(** Every behaviour of [p] from [w] is accepted and ends as [Q] says. *)
Fixpoint always {A} (Q : W -> Ending A -> Prop) (p : prog A) (w : W) : Prop :=
  match p with
  | ret a => Q w (Returned a)
  | halt why => Q w (Halted why)
  | act c k => forall r, accepts w (fact_of c r) /\ always Q (k r) (after w (fact_of c r))
  end.

Lemma after_app w a b : after w (a ++ b) = after (after w a) b.
Proof. apply fold_left_app. Qed.
Lemma accepts_app w a b : accepts w (a ++ b) <-> accepts w a /\ accepts (after w a) b.
Proof. revert w. induction a as [|f a IH]; intros w; cbn; [tauto|]. rewrite IH. unfold after. cbn. tauto. Qed.
Lemma accepts_at w before f behind : accepts w (before ++ f :: behind) -> ok (after w before) f.
Proof. rewrite accepts_app. cbn. tauto. Qed.

Lemma always_bind {A B} (Q : W -> Ending B -> Prop) (p : prog A) (f : A -> prog B) w :
  always (fun w e => match e with Returned a => always Q (f a) w | Halted why => Q w (Halted why) end) p w -> always Q (bind p f) w.
Proof. revert w. induction p as [a|why|c k IH]; intros w; [done|done|]. intros Hp r. destruct (Hp r) as [Ha Hr]. split; [done|]. by apply IH. Qed.

Lemma always_mono {A} (Q Q' : W -> Ending A -> Prop) p w : (forall w e, Q w e -> Q' w e) -> always Q p w -> always Q' p w.
Proof. intros HQ. revert w. induction p as [a|why|c k IH]; intros w; [apply HQ|apply HQ|]. intros Hp r. destruct (Hp r) as [Ha Hr]. split; [done|]. by apply IH. Qed.

(** What [always] proves holds of every behaviour. *)
Lemma always_ends {A} (Q : W -> Ending A -> Prop) p w tr e :
  always Q p w -> behaves p tr e -> e <> Halted Observed -> Q (after w (facts tr)) e.
Proof.
  intros Ha Hb He. revert w Ha. induction Hb as [a|why|p|c k r tr e Hb IH]; intros w Ha; [done|done|done|]. destruct (Ha r) as [Hk Hr].
  change (facts (event c r :: tr)) with (fact_of c r ++ facts tr). rewrite after_app. by apply IH.
Qed.
Lemma always_accepts {A} (Q : W -> Ending A -> Prop) p w tr e : always Q p w -> behaves p tr e -> accepts w (facts tr).
Proof.
  intros Ha Hb. revert w Ha. induction Hb as [a|why|p|c k r tr e Hb IH]; intros w Ha; [done|done|done|]. destruct (Ha r) as [Hk Hr].
  change (facts (event c r :: tr)) with (fact_of c r ++ facts tr). apply accepts_app. split; [done|]. by apply IH.
Qed.
End Prog.
Arguments prog {Call} answer A.
Arguments ret {Call answer A} a.
Arguments halt {Call answer A} why.
Arguments act {Call answer A} c k.
