(* ===== verification/TurnCalls.v ===== *)
(** * What a turn asks of its environment (src/src/agent/mod.rs)

    The agent loop talks to the run owner, the session store, the provider, the tools and the observer of the run.
    Every such operation is a call of [Prog]; this file holds the data that is exchanged, the calls with
    their answers and the facts a trace of calls is reduced to. *)
From S2P Require Import Prelude.
From S2P Require Import Text.
From S2P Require Import TurnOutcome.
From S2P Require Import RunControl.
From S2P Require Import Json.
From S2P Require Import PermissionFence.
From S2P Require Import ContextWindow.
From S2P Require Import ClmCheckpoint.
From S2P Require Import History.
From S2P Require Import ProtocolStore.
From S2P Require Import ContextManager.
From S2P Require Import ContextTokens.
From S2P Require Import ProviderStream.
From S2P Require Import ChatClient.
From S2P Require Import Prog.

Open Scope nat_scope.

Abbreviation AdmissionId := N (only parsing).

(** ** Errors *)

(** Errors of the other layers are known by what they show. *)
Inductive AgentError :=
  | RunSuperseded (session_id : SessionId) (admission_id : AdmissionId)
  | LlmFailed (error : LlmError)
  | ToolFailed (shown : text)
  | SessionFailed (shown : text)
  | StorageFailed (shown : text)
  | RuntimeFailed (shown : text)
  | WorkspaceFailed (shown : text)
  | ProviderOutputLimit
  | ProviderFinishError
  | ProviderFinishShape (finish_reason : FinishReason) (has_tool_calls : bool)
  | AgentMessageError (message : text).

(** [public_message]; what the client shows of its own errors is a parameter. *)
Definition public_message (llm_public_message : LlmError -> text) (e : AgentError) : text :=
  match e with
  | LlmFailed error => llm_public_message error
  | ProviderOutputLimit => lit "The model stopped because its output limit was reached. Ask for a shorter response or increase the model output limit."
  | ProviderFinishError | ProviderFinishShape _ _ =>
    lit "The model provider returned an invalid completion state. Check the configured connection type."
  | ToolFailed _ => lit "A tool could not be completed. Review the latest tool result before trying again."
  | SessionFailed _ | StorageFailed _ => lit "The task state could not be saved safely. Reopen the task before trying again."
  | RuntimeFailed _ => lit "The task runtime stopped unexpectedly. Reopen the task and try again."
  | WorkspaceFailed _ => lit "The workspace could not be accessed safely. Check the project path and permissions."
  | RunSuperseded _ _ => lit "This run no longer owns the task. Refresh the task before trying again."
  | AgentMessageError _ => lit "The task could not be completed. Review the task state and try again."
  end.

(** [is_context_window_exceeded] *)
Fixpoint is_context_window_exceeded (e : LlmError) : bool :=
  match e with
  | ProviderFailed _ source => is_context_window_exceeded source
  | ProviderRejected _ (Some code) _ _ | ProviderGenerationFailed _ (Some code) _ => text_eqb code (lit "context_length_exceeded")
  | _ => false
  end.

(** ** Counting usage *)

Record CumulativeTokenUsage := {
  reported_request_count : N;
  reasoning_reported_request_count : N;
  cumulative_prompt_tokens : N;
  cumulative_completion_tokens : N;
  cumulative_total_tokens : N;
  cumulative_reasoning_tokens : option N
}.
Definition no_usage : CumulativeTokenUsage :=
  {| reported_request_count := 0; reasoning_reported_request_count := 0; cumulative_prompt_tokens := 0; cumulative_completion_tokens := 0;
     cumulative_total_tokens := 0; cumulative_reasoning_tokens := None |}.

Definition record_response (usage : option TokenUsage) (c : CumulativeTokenUsage) : CumulativeTokenUsage :=
  match usage with
  | None => c
  | Some usage =>
    {| reported_request_count := saturating_add_usize (reported_request_count c) 1;
       reasoning_reported_request_count :=
         match reasoning_tokens usage with
         | Some _ => saturating_add_usize (reasoning_reported_request_count c) 1
         | None => reasoning_reported_request_count c
         end;
       cumulative_prompt_tokens := saturating_add_u64 (cumulative_prompt_tokens c) (prompt_tokens usage);
       cumulative_completion_tokens := saturating_add_u64 (cumulative_completion_tokens c) (completion_tokens usage);
       cumulative_total_tokens := saturating_add_u64 (cumulative_total_tokens c) (total_tokens usage);
       cumulative_reasoning_tokens :=
         match reasoning_tokens usage with
         | Some reasoning => Some (saturating_add_u64 (default 0%N (cumulative_reasoning_tokens c)) reasoning)
         | None => cumulative_reasoning_tokens c
         end |}
  end.

Record RunMetrics := {
  metrics_model_request_count : N;
  elapsed_ms : option N;
  metrics_token_usage : option TokenUsage;
  metrics_cumulative_token_usage : option CumulativeTokenUsage;
  metrics_tool_calls_by_name : gmap text N;
  metrics_failed_tool_calls_by_name : gmap text N
}.

Record DurableTurnTerminal := {
  outcome : TurnTerminalOutcome;
  final_response_id : option ModelResponseId;
  terminal_tool_call_count : N;
  terminal_failed_tool_count : N;
  terminal_change_count : N;
  metrics : RunMetrics
}.

Record RunSummary := { summary_session : SessionId; summary_turn : TurnId; admission_revision : N; summary_terminal : DurableTurnTerminal }.
Definition from_terminal (session_id : SessionId) (turn_id : TurnId) (terminal : DurableTurnTerminal) : RunSummary :=
  {| summary_session := session_id; summary_turn := turn_id; admission_revision := 0; summary_terminal := terminal |}.
Definition summary_status (s : RunSummary) : SessionStatus := session_status (outcome (summary_terminal s)).

(** ** Ownership of the turn *)

Inductive AdmittedRunState := OwnedRunning | StateStopFenced (o : TurnTerminalOutcome) | StateTerminal (terminal : DurableTurnTerminal) | SupersededOrExpired.
Inductive RunAdmissionLeaseRenewalOutcome :=
  | Renewed
  | InterruptRequested (cause : TurnInterruptionCause)
  | RenewalStopFenced (o : TurnTerminalOutcome)
  | RenewalTerminal (terminal : DurableTurnTerminal)
  | RenewalSupersededOrExpired.
Inductive AdmittedTerminalSettlement :=
  | TerminalApplied (terminal : DurableTurnTerminal)
  | AlreadyTerminalizedBySameAdmission (terminal : DurableTurnTerminal)
  | NotOwned.
Definition into_terminal (s : AdmittedTerminalSettlement) : option DurableTurnTerminal :=
  match s with TerminalApplied terminal | AlreadyTerminalizedBySameAdmission terminal => Some terminal | NotOwned => None end.

Section Calls.
Context {V : Type}.

(** ** Tool calls *)

Record PreparedModelToolCall := {
  prepared_id : ToolCallId;
  prepared_call : ModelToolCall;
  prepared_tool : ToolName.t;
  prepared_arguments : V;
  validation_error : option text
}.

(** What is only stored and shown of a change is a JSON value. *)
Record ToolResult := {
  result_title : text;
  result_output_text : text;
  result_metadata : V;
  truncated_output_path : option text;
  recorded_changes : list N;
  change_summaries : list V
}.

(** Errors of a tool; a denial carries the reservation under which it is settled. *)
Inductive ToolFailure :=
  | PermissionDenied (settlement : bool) (shown : text)
  | PermissionAborted (shown : text)
  | OtherToolError (shown : text).

(** What a poll of a running tool shows: the requests its permission review sent meanwhile with the usage they
    reported, and how it ended; until then 100 ms went by, or the time to clean up. *)
Record ToolRun := {
  guardian_request_count : N;
  guardian_usage : list (option TokenUsage);
  tool_result : option (result ToolResult ToolFailure)
}.

Inductive ToolCallStatus := StatusPending | StatusRunning | StatusCompleted | StatusDeclined | StatusCancelled | StatusFailed.

(** The transactions that settle a tool call. *)
Inductive ToolSettlementWrite :=
  | CompleteToolCall (title : text) (metadata : V) (output_text : text) (output_path : option text)
  | CompleteWithFileChanges (title : text) (metadata : V) (output_text : text) (output_path : option text) (changes : list V)
  | FailToolCall (error : text) (metadata : V)
  | SettleWithoutExecution (status : ToolCallStatus) (reason : text) (metadata : V)
  | SettleExecutedWithFileChanges (title : text) (metadata : V) (output_text : text) (output_path : option text) (status : ToolCallStatus)
      (reason : text) (changes : list V).

Definition settles_as_failed (w : ToolSettlementWrite) : bool :=
  match w with
  | FailToolCall _ _ | SettleExecutedWithFileChanges _ _ _ _ StatusFailed _ _ => true
  | _ => false
  end.

(** ** The response of the model *)

Record PendingToolCallWrite := { pending_id : ToolCallId; pending_call : ModelToolCall; pending_sequence_no : option Z }.
Record ModelResponseWrite := {
  write_response_id : ModelResponseId;
  write_assistant_text : option text;
  assistant_protocol_sequence_no : option Z;
  write_tool_calls : list PendingToolCallWrite
}.

(** ** Events for the observer *)

Inductive DurableFeedbackCategory :=
  FeedbackTransport | FeedbackPermission | FeedbackProvider | FeedbackUserAction | FeedbackContext | FeedbackRuntime.
Inductive DurableFeedbackSeverity := FeedbackInfo | FeedbackWarning | FeedbackError.
Record DurableRuntimeFeedback := { severity : DurableFeedbackSeverity; category : DurableFeedbackCategory; feedback_public_message : text }.

(** The events the loop emits; [RunStored] is one a transaction of the store returned. *)
Inductive RunEvent :=
  | RunWorldStateUpdated (snapshot : V) (rendered : text)
  | RunModelRequestPrepared (request : ChatRequest V) (context_status : option ContextWindowTokenStatus)
  | RecoverableRuntimeFeedback (feedback : DurableRuntimeFeedback)
  | CompactionCompleted (summarized_messages : nat) (preserved_user_messages : list text) (summary : text) (replacement_item_ids : list HistoryItemId)
  | RuntimeNotice (message : text)
  | RunTurnTerminal (terminal : DurableTurnTerminal)
  | RunStored (event : V).

(** ** Compaction diagnostics *)

Inductive CompactionDiagnosticOutcome :=
  | PreparationFailed | DiagnosticCancelled | DiagnosticProviderFailed | DiagnosticSourceContextOverflow | UsageAccountingFailed | InvalidFinish
  | UnexpectedToolCalls | EmptySummary | DiagnosticReasoningOnlySaturation | InvalidCheckpoint | CheckpointRejected | CommitFailed | DiagnosticCommitted.

(** ** The step *)

(** What a round captures of the environment: the tools shown to the model and the world state. *)
Record StepContext := {
  step_tools : list (ToolSchema V);
  step_snapshot : V;
  step_rendered : text;
  step_system_prompt : text
}.

(** The end of a stream: the events its sink accepted, and what the client returned.  A poll shows it, or that
    100 ms went by. *)
Record StreamEnd := { stream_events : list LlmEvent; stream_result : result LlmResponseSummary LlmError }.

Inductive Permit := PermitGranted | PermitGateClosed | PermitCancelled.

(** What the review state of a turn says of it, if anything. *)
Abbreviation ReviewFeedback := (option DurableRuntimeFeedback) (only parsing).

(** ** Calls *)

Inductive Call :=
  (* the run owner *)
  | IsCancelled
  | CurrentCause
  | RequestCancel (cause : RunCancellationCause)
  | Supersede
  | BeginSuccessCommit
  | SealSuccess
  | ResolveSuccess (cause : RunCancellationCause)
  | AbandonSuccess (cause : RunCancellationCause)
  | BeginToolSettlement
  | ReleaseToolSettlement
  (* the session store *)
  | ReadAdmission
  | RenewLease
  | ReadDurableTerminal
  | SettleTurn (terminal : DurableTurnTerminal) (sequence_no : option Z) (expected_active_goal_id : option text)
  | SettleSuccess (terminal : DurableTurnTerminal) (sequence_no : option Z) (current_turn_mail : bool)
  | RecordModelResponse (write : ModelResponseWrite)
  | SettleToolCall (id : ToolCallId) (tool : ToolName.t) (write : ToolSettlementWrite) (sequence_nos : list (option Z))
  | CommitCompaction (event : RunEvent) (sequence_no : option Z)
  | AccountGoalUsage (delta : Z) (goal_id : text)
  | HasPendingSteers
  | DeliverSteers
  | DeliverMailbox (limit : N)
  | ReadHistoryPage (after : option Z) (limit : N)
  | ReadReviewFeedback
  (* the observer *)
  | EmitEvent (event : RunEvent)
  | EmitCommitted (event : RunEvent)
  | EmitRuntimeOnly (event : RunEvent)
  | ReserveSequence
  | RecordDiagnostic (outcome : CompactionDiagnosticOutcome)
  | SetActivity (activity : text)
  (* the model *)
  | PrepareServices
  | CaptureStep
  | AcquirePermit
  | AttachApiKey
  | StartStream (compaction : bool) (request : ChatRequest V)
  | PollStream
  | AwaitStream
  (* the tools *)
  | StartTool (call : PreparedModelToolCall)
  | PollTool
  | AwaitCleanup
  | ReadRetainedService
  | ReadLocalWork
  (* fresh identifiers and the clock *)
  | NewModelResponseId
  | NewToolCallId
  | NewHistoryItemId
  | ReadElapsed.

Definition answer (c : Call) : Type :=
  match c with
  | IsCancelled | Supersede | BeginSuccessCommit | SealSuccess | BeginToolSettlement | ReadLocalWork => bool
  | CurrentCause => option RunCancellationCause
  | RequestCancel _ => RunCancelOutcome
  | ResolveSuccess _ | AbandonSuccess _ | ReleaseToolSettlement | SetActivity _ | StartStream _ _ | StartTool _ | RecordDiagnostic _ => unit
  | ReadAdmission => result AdmittedRunState AgentError
  | RenewLease => result RunAdmissionLeaseRenewalOutcome AgentError
  | ReadDurableTerminal => result (option DurableTurnTerminal) AgentError
  | SettleTurn _ _ _ | SettleSuccess _ _ _ => result AdmittedTerminalSettlement AgentError
  | RecordModelResponse _ => result (list RunEvent) AgentError
  | SettleToolCall _ _ _ _ => result (option (list RunEvent)) AgentError
  | CommitCompaction _ _ | AccountGoalUsage _ _ | PrepareServices | AttachApiKey => result unit AgentError
  | EmitEvent _ | EmitCommitted _ | EmitRuntimeOnly _ => result unit AgentError
  | HasPendingSteers => result bool AgentError
  | DeliverSteers => result N AgentError
  | DeliverMailbox _ => result (N * bool) AgentError
  | ReadHistoryPage _ _ => result (ProtocolPage (HistoryItem V)) AgentError
  | ReadReviewFeedback => result ReviewFeedback AgentError
  | ReserveSequence => option Z
  | CaptureStep => result StepContext AgentError
  | AcquirePermit => Permit
  | PollStream => option StreamEnd
  | AwaitStream => StreamEnd
  | PollTool | AwaitCleanup => ToolRun
  | ReadRetainedService => option N
  | NewModelResponseId => ModelResponseId
  | NewToolCallId => ToolCallId
  | NewHistoryItemId => HistoryItemId
  | ReadElapsed => N
  end.

(** ** Facts *)

(** What a trace is reduced to.  A reservation is given to the turn when the run owner grants it, and also with a denial
    that carries one. *)
Inductive Fact :=
  | Saw (cancelled : bool)
  | SawCause (cause : option RunCancellationCause)
  | AppliedFailure (message : text)
  | Requested (compaction : bool)
  | Responded (response_id : ModelResponseId) (calls : list ToolCallId)
  | Started (call : ToolCallId)
  | Settled (call : ToolCallId) (write : ToolSettlementWrite)
  | CompactionCommitted (replacement_item_ids : list HistoryItemId)
  | Reserved (success : bool)
  | Released (success : bool)
  | Wrote (terminal : DurableTurnTerminal)
  | Terminal (terminal : DurableTurnTerminal).

Definition holds_settlement (r : result ToolResult ToolFailure) : bool :=
  match r with Err (PermissionDenied settlement _) => settlement | _ => false end.
Definition reserved_by (run : ToolRun) : list Fact :=
  match tool_result run with Some r => if holds_settlement r then [Reserved false] else [] | None => [] end.
Definition settled_terminal (r : result AdmittedTerminalSettlement AgentError) : list Fact :=
  match r with Ok settlement => match into_terminal settlement with Some terminal => [Terminal terminal] | None => [] end | Err _ => [] end.

Definition fact_of (c : Call) : answer c -> list Fact :=
  match c with
  | IsCancelled => fun cancelled => [Saw cancelled]
  | CurrentCause => fun cause => [SawCause cause]
  | RequestCancel (Failure message) => fun outcome => match outcome with Applied => [AppliedFailure message] | _ => [] end
  | StartStream compaction _ => fun _ => [Requested compaction]
  | RecordModelResponse write => fun r =>
      match r with Ok _ => [Responded (write_response_id write) (map pending_id (write_tool_calls write))] | Err _ => [] end
  | StartTool call => fun _ => [Started (prepared_id call)]
  | PollTool => reserved_by
  | AwaitCleanup => reserved_by
  | SettleToolCall id _ write _ => fun r => match r with Ok (Some _) => [Settled id write] | _ => [] end
  | CommitCompaction event _ => fun r =>
      match r, event with Ok _, CompactionCompleted _ _ _ replacement_item_ids => [CompactionCommitted replacement_item_ids] | _, _ => [] end
  | BeginSuccessCommit => fun reserved => if reserved then [Reserved true] else []
  | BeginToolSettlement => fun reserved => if reserved then [Reserved false] else []
  | SealSuccess => fun _ => [Released true]
  | ResolveSuccess _ => fun _ => [Released true]
  | AbandonSuccess _ => fun _ => [Released true]
  | ReleaseToolSettlement => fun _ => [Released false]
  | ReadAdmission => fun r => match r with Ok (StateTerminal terminal) => [Terminal terminal] | _ => [] end
  | ReadDurableTerminal => fun r => match r with Ok (Some terminal) => [Terminal terminal] | _ => [] end
  | SettleTurn terminal _ _ => fun r => Wrote terminal :: settled_terminal r
  | SettleSuccess terminal _ _ => fun r => Wrote terminal :: settled_terminal r
  | _ => fun _ => []
  end.
End Calls.
#[global] Arguments PreparedModelToolCall V : clear implicits.
#[global] Arguments ToolResult V : clear implicits.
#[global] Arguments ToolRun V : clear implicits.
#[global] Arguments ToolSettlementWrite V : clear implicits.
#[global] Arguments RunEvent V : clear implicits.
#[global] Arguments StepContext V : clear implicits.
#[global] Arguments Call V : clear implicits.
#[global] Arguments Fact V : clear implicits.
#[global] Arguments answer {V} c.
