(* ===== verification/TurnEnds.v ===== *)
(** * The state of a turn, its ownership and its end (src/src/agent/mod.rs)

    The local variables of the agent loop as the state of a monad over the calls; who owns the turn, and how a
    classified end becomes a durable terminal. *)
From S2P Require Import Prelude.
From S2P Require Import Text.
From S2P Require Import ContextWindow.
From S2P Require Import TurnOutcome.
From S2P Require Import RunControl.
From S2P Require Import PermissionFence.
From S2P Require Import Json.
From S2P Require Import ClmCheckpoint.
From S2P Require Import History.
From S2P Require Import ContextManager.
From S2P Require Import ContextTokens.
From S2P Require Import ProviderStream.
From S2P Require Import Prog.
From S2P Require Import TurnCalls.

Open Scope nat_scope.

(** ** The state *)

Record Counters := {
  tool_call_count : N;
  failed_tool_count : N;
  change_count : N;
  model_request_count : N;
  tool_calls_by_name : gmap text N;
  failed_tool_calls_by_name : gmap text N;
  latest_usage : option TokenUsage;
  cumulative_token_usage : CumulativeTokenUsage
}.

Inductive MailboxDeliveryPhase := CurrentTurnAll | NextTurn.
#[export] Instance MailboxDeliveryPhase_eq_dec : EqDecision MailboxDeliveryPhase.
Proof. solve_decision. Defined.
Definition after_model_tool_call (phase : MailboxDeliveryPhase) : MailboxDeliveryPhase := CurrentTurnAll.

(** What of the request is fixed for the turn. *)
Record TurnRequest := {
  request_session : SessionId;
  request_admission : AdmissionId;
  request_turn : TurnId;
  initial_user_history_item_id : option HistoryItemId;
  has_agent_context : bool;
  goal_id : option text;
  has_request_gate : bool;
  supports_images : bool;
  chat_completions : bool;
  overflow_margin_tokens : N;
  effective_context_token_limit : N;
  working_context_token_limit : N
}.

Section Monad.
Context {V : Type} `{JsonValue V} `{EqDecision V} `{Ulid}.

Record LoopState := {
  context : ContextManager V;
  counters : Counters;
  last_model_response_id : option ModelResponseId;
  compaction_unavailable_at_revision : option text;
  model_needs_follow_up : bool;
  mailbox_delivery_phase : MailboxDeliveryPhase;
  pre_turn_compaction_item_id : option HistoryItemId;
  can_drain_pending_input : bool;
  must_sample_without_compaction : bool;
  active_context_token_state : ActiveContextTokenState
}.

Definition set_context (c : ContextManager V) (st : LoopState) : LoopState :=
  {| context := c; counters := counters st; last_model_response_id := last_model_response_id st;
     compaction_unavailable_at_revision := compaction_unavailable_at_revision st; model_needs_follow_up := model_needs_follow_up st;
     mailbox_delivery_phase := mailbox_delivery_phase st; pre_turn_compaction_item_id := pre_turn_compaction_item_id st;
     can_drain_pending_input := can_drain_pending_input st; must_sample_without_compaction := must_sample_without_compaction st;
     active_context_token_state := active_context_token_state st |}.
Definition set_counters (c : Counters) (st : LoopState) : LoopState :=
  {| context := context st; counters := c; last_model_response_id := last_model_response_id st;
     compaction_unavailable_at_revision := compaction_unavailable_at_revision st; model_needs_follow_up := model_needs_follow_up st;
     mailbox_delivery_phase := mailbox_delivery_phase st; pre_turn_compaction_item_id := pre_turn_compaction_item_id st;
     can_drain_pending_input := can_drain_pending_input st; must_sample_without_compaction := must_sample_without_compaction st;
     active_context_token_state := active_context_token_state st |}.

(** ** The monad *)

(** [Result<A, AgentError>] of an [async fn] that borrows the state. *)
Definition turn (A : Type) : Type := LoopState -> prog (@answer V) (LoopState * result A AgentError).

Definition pure {A} (a : A) : turn A := fun st => ret (st, Ok a).
Definition fail {A} (e : AgentError) : turn A := fun st => ret (st, Err e).
Definition then_ {A B} (m : turn A) (f : A -> turn B) : turn B :=
  fun st => bind (m st) (fun '(st, r) => match r with Ok a => f a st | Err e => ret (st, Err e) end).
Definition call (c : Call V) : turn (answer c) := fun st => act c (fun r => ret (st, Ok r)).
Definition from_result {A} (r : result A AgentError) : turn A := match r with Ok a => pure a | Err e => fail e end.
Definition from_option {A} (o : option A) : turn A := match o with Some a => pure a | None => fun _ => halt Panic end.
Definition gets {A} (f : LoopState -> A) : turn A := fun st => ret (st, Ok (f st)).
Definition modify (f : LoopState -> LoopState) : turn unit := fun st => ret (f st, Ok tt).
(** The result as a value: nothing is propagated. *)
Definition attempt {A} (m : turn A) : turn (result A AgentError) := fun st => bind (m st) (fun '(st, r) => ret (st, Ok r)).
Definition out_of_fuel {A} : turn A := fun _ => halt OutOfFuel.

Definition count (f : Counters -> Counters) : turn unit := modify (fun st => set_counters (f (counters st)) st).
End Monad.
#[global] Arguments LoopState V : clear implicits.
#[global] Arguments turn V A : clear implicits.

Declare Scope turn_scope.
Notation "'do!' x := m 'in' k" := (then_ m (fun x => k)) (at level 10, x pattern, m at level 100, k at level 200) : turn_scope.
Notation "'call?' x := c 'in' k" := (then_ (call c) (fun r => then_ (from_result r) (fun x => k)))
  (at level 10, x pattern, c at level 100, k at level 200) : turn_scope.
#[global] Open Scope turn_scope.

Section Turn.
Context {V : Type} `{JsonValue V} `{EqDecision V} `{Ulid}.
Local Abbreviation turn := (turn V) (only parsing).
Context (request : TurnRequest).

(** ** Ownership *)

Definition run_superseded_error : AgentError := RunSuperseded (request_session request) (request_admission request).

Definition classify_run_control_for_terminal_outcome (o : TurnTerminalOutcome) : turn unit :=
  match o with
  | OutcomeCompleted => do! _ := call Supersede in pure tt
  | OutcomeInterrupted cause => do! _ := call (RequestCancel (Interruption cause)) in pure tt
  | OutcomeFailed error => do! _ := call (RequestCancel (Failure error)) in pure tt
  end.

Definition supersede_run {A} : turn A := do! _ := call Supersede in fail run_superseded_error.

Definition ensure_admission_active : turn unit :=
  call? state := ReadAdmission in
  match state with
  | OwnedRunning => pure tt
  | StateStopFenced outcome => do! _ := classify_run_control_for_terminal_outcome outcome in fail run_superseded_error
  | StateTerminal _ | SupersededOrExpired => supersede_run
  end.

Definition renew_admission_lease : turn unit :=
  call? renewed := RenewLease in
  match renewed with
  | Renewed => pure tt
  | InterruptRequested cause => do! _ := call (RequestCancel (Interruption cause)) in fail run_superseded_error
  | RenewalStopFenced outcome => do! _ := classify_run_control_for_terminal_outcome outcome in fail run_superseded_error
  | RenewalTerminal _ | RenewalSupersededOrExpired => supersede_run
  end.

(** ** Terminals *)

Definition run_metrics : turn RunMetrics :=
  do! elapsed := call ReadElapsed in
  do! c := gets counters in
  pure {| metrics_model_request_count := model_request_count c; elapsed_ms := Some (N.min elapsed u64_max); metrics_token_usage := latest_usage c;
          metrics_cumulative_token_usage := Some (cumulative_token_usage c); metrics_tool_calls_by_name := tool_calls_by_name c;
          metrics_failed_tool_calls_by_name := failed_tool_calls_by_name c |}.

Definition turn_terminal (o : TurnTerminalOutcome) (response_id : option ModelResponseId) : turn DurableTurnTerminal :=
  do! metrics := run_metrics in
  do! c := gets counters in
  pure {| outcome := o; final_response_id := response_id; terminal_tool_call_count := tool_call_count c;
          terminal_failed_tool_count := failed_tool_count c; terminal_change_count := change_count c; metrics := metrics |}.

Definition run_summary_from_terminal (terminal : DurableTurnTerminal) : RunSummary :=
  from_terminal (request_session request) (request_turn request) terminal.

Definition durable_terminal_summary : turn (option RunSummary) :=
  call? terminal := ReadDurableTerminal in pure (run_summary_from_terminal <$> terminal).

(** The terminal is durable once the store has applied it: whether the observer takes the event does not matter. *)
Definition settle_terminal (terminal : DurableTurnTerminal) (expected_active_goal_id : option text) : turn AdmittedTerminalSettlement :=
  do! sequence_no := call ReserveSequence in
  call? settlement := SettleTurn terminal sequence_no expected_active_goal_id in
  match settlement with
  | TerminalApplied terminal => do! _ := call (EmitCommitted (RunTurnTerminal terminal)) in pure settlement
  | _ => pure settlement
  end.

(** What follows the settlement of an interruption or a failure. *)
Definition settle_classified (o : TurnTerminalOutcome) (expected_active_goal_id : option text) : turn RunSummary :=
  do! terminal := turn_terminal o None in
  do! settlement := settle_terminal terminal expected_active_goal_id in
  match into_terminal settlement with
  | Some effective_terminal => pure (run_summary_from_terminal effective_terminal)
  | None =>
    do! summary := durable_terminal_summary in
    match summary with
    | Some summary => pure summary
    | None => supersede_run
    end
  end.

Definition finish_for_run_control_cause : turn RunSummary :=
  do! cause := call CurrentCause in
  match cause with
  | Some (Interruption cause) => settle_classified (OutcomeInterrupted cause) None
  | Some Superseded =>
    do! summary := durable_terminal_summary in
    match summary with
    | Some summary => pure summary
    | None => fail run_superseded_error
    end
  | Some (Failure message) => settle_classified (OutcomeFailed message) (goal_id request)
  | None => fail (AgentMessageError (lit "run cancellation was observed without a classified cause"))
  end.

(** [resolve_success_commit_from_durable_summary] *)
Definition resolve_success_commit_from_durable_summary (summary : RunSummary) : turn unit :=
  match outcome (summary_terminal summary) with
  | OutcomeCompleted => do! _ := call SealSuccess in pure tt
  | OutcomeInterrupted cause => call (ResolveSuccess (Interruption cause))
  | OutcomeFailed _ => call (ResolveSuccess (Failure (lit "durable failure owner won the terminal commit")))
  end.
End Turn.

(** * Tool calls of a turn (src/src/agent/mod.rs, [handle_tool_call])

    A prepared call is executed under the eyes of the run owner and the store, and its end is settled in one
    transaction under a reservation of the run owner. *)

Open Scope nat_scope.

Inductive ToolDispatchOutcome :=
  | DispatchCompleted (result_text : text) (change_count : N)
  | DispatchDeclined (result_text : text)
  | DispatchFailed (result_text : text)
  | DispatchInterrupted (change_count : N).

Definition MANAGED_PROCESS_CLEANUP_GRACE_MS : N := 12000.

(** How JSON objects are built: [json!], [Map::insert] on a value that is an object, strings and flags. *)
Record JsonBuild (V : Type) := { json_object : V; json_insert : text -> V -> V -> V; json_text : text -> V; json_bool : bool -> V }.
Arguments json_object {V} _.
Arguments json_insert {V} _ _ _ _.
Arguments json_text {V} _ _.
Arguments json_bool {V} _ _.

Section Tools.
Context {V : Type} `{JsonValue V} `{EqDecision V} `{Ulid} (build : JsonBuild V).
Local Abbreviation turn := (turn V) (only parsing).

(** ** Metadata *)

Definition failed_tool_metadata (metadata : V) : V := json_insert build (lit "success") (json_bool build false) metadata.
Definition tool_cleanup_diagnostic_metadata (metadata : V) (diagnostic : text) : V :=
  json_insert build (lit "cancellation_cleanup_error") (json_text build diagnostic) metadata.
Definition tool_result_text (r : ToolResult V) : text := if is_empty (trim (result_output_text r)) then result_title r else result_output_text r.
Definition merge_tool_metadata (metadata : V) (r : ToolResult V) : V :=
  let success := default true (json_field json_as_bool (result_metadata r) "success") in
  json_insert build (lit "success") (json_bool build success) (json_insert build (lit "tool_metadata") (result_metadata r) metadata).

(** ** Settlements *)

Context (request : TurnRequest).

Definition tool_terminal_race_outcome : turn ToolDispatchOutcome :=
  do! cause := call CurrentCause in
  match cause with
  | Some (Interruption _) => pure (DispatchInterrupted 0)
  | Some Superseded => fail (run_superseded_error request)
  | Some (Failure message) => fail (AgentMessageError message)
  | None => supersede_run request
  end.

(** Transactions that also record file changes take two sequence numbers. *)
Definition takes_two_numbers (write : ToolSettlementWrite V) : bool :=
  match write with CompleteWithFileChanges _ _ _ _ _ | SettleExecutedWithFileChanges _ _ _ _ _ _ _ => true | _ => false end.

Definition reserve_sequence_numbers (write : ToolSettlementWrite V) : turn (list (option Z)) :=
  do! first := call ReserveSequence in
  if takes_two_numbers write then do! second := call ReserveSequence in pure [first; second] else pure [first].

Fixpoint emit_all (events : list (RunEvent V)) : turn unit :=
  match events with
  | [] => pure tt
  | event :: events => call? _ := EmitCommitted event in emit_all events
  end.

(** One transaction, under a reservation if [reserved], whose end is given back before anything else happens. *)
Definition settle_call (reserved : bool) (id : ToolCallId) (tool : ToolName.t) (write : ToolSettlementWrite V) (dispatched : ToolDispatchOutcome)
    : turn ToolDispatchOutcome :=
  do! numbers := reserve_sequence_numbers write in
  do! settled := call (SettleToolCall id tool write numbers) in
  do! _ := if reserved then call ReleaseToolSettlement else pure tt in
  do! settled := from_result settled in
  match settled with
  | None => tool_terminal_race_outcome
  | Some events => do! _ := emit_all events in pure dispatched
  end.

Definition settle_pending_tool_for_run_cause (id : ToolCallId) (tool : ToolName.t) (metadata : V) : turn ToolDispatchOutcome :=
  do! cause := call CurrentCause in
  match cause with
  | Some (Interruption interruption) =>
    settle_call false id tool (SettleWithoutExecution StatusCancelled (interruption_summary interruption) metadata) (DispatchInterrupted 0)
  | Some (Failure message) => settle_call false id tool (FailToolCall message metadata) (DispatchFailed message)
  | Some Superseded | None => tool_terminal_race_outcome
  end.

Definition settle_executed_tool_for_run_cause (id : ToolCallId) (tool : ToolName.t) (metadata : V) (result_text : text) (r : ToolResult V)
    : turn ToolDispatchOutcome :=
  let change_count := N.of_nat (length (recorded_changes r)) in
  do! cause := call CurrentCause in
  let settle status reason dispatched :=
    if is_empty (change_summaries r)
    then
      settle_call false id tool
        (match status with StatusCancelled => SettleWithoutExecution status reason metadata | _ => FailToolCall reason metadata end) dispatched
    else
      settle_call false id tool
        (SettleExecutedWithFileChanges (result_title r) metadata result_text (truncated_output_path r) status reason (change_summaries r)) dispatched in
  match cause with
  | Some (Interruption interruption) => settle StatusCancelled (interruption_summary interruption) (DispatchInterrupted change_count)
  | Some (Failure message) => settle StatusFailed message (DispatchFailed message)
  | Some Superseded | None => tool_terminal_race_outcome
  end.

(** ** Execution *)

(** Tools whose operation crosses the agent tree and the store: once started they are not given up. *)
Definition settles_multi_agent_mutation (tool_name : text) : bool :=
  existsb (text_eqb tool_name) [lit "spawn_agent"; lit "send_message"; lit "followup_task"; lit "interrupt_agent"].

(** What the permission review of a poll adds to the counters. *)
Definition count_guardian (run : ToolRun V) : turn unit :=
  count (fun c =>
    {| tool_call_count := tool_call_count c; failed_tool_count := failed_tool_count c; change_count := change_count c;
       model_request_count := model_request_count c + guardian_request_count run; tool_calls_by_name := tool_calls_by_name c;
       failed_tool_calls_by_name := failed_tool_calls_by_name c; latest_usage := latest_usage c;
       cumulative_token_usage := fold_left (fun u usage => record_response usage u) (guardian_usage run) (cumulative_token_usage c) |}).

Definition cleanup_exceeded : text := lit "tool cancellation cleanup exceeded " ++ show_N MANAGED_PROCESS_CLEANUP_GRACE_MS ++ lit " ms".

(** The loop of [tokio::select!]; with the diagnostic of a cleanup that took too long. *)
Fixpoint poll_tool (fuel : nat) (multi_agent : bool) : turn (result (ToolResult V) ToolFailure * option text) :=
  match fuel with
  | O => out_of_fuel
  | S fuel =>
    do! run := call PollTool in
    do! _ := count_guardian run in
    match tool_result run with
    | Some r => pure (r, None)
    | None =>
      do! cancelled := call IsCancelled in
      if cancelled : bool then
        do! run := call AwaitCleanup in
        do! _ := count_guardian run in
        match tool_result run with
        | Some r => pure (r, None)
        | None => pure (Err (OtherToolError cleanup_exceeded), Some cleanup_exceeded)
        end
      else
        do! _ := if multi_agent then pure tt else ensure_admission_active request in
        poll_tool fuel multi_agent
    end
  end.

Definition with_settlement (m : turn ToolDispatchOutcome) (lost : turn ToolDispatchOutcome) : turn ToolDispatchOutcome :=
  do! reserved := call BeginToolSettlement in
  if reserved : bool then m else lost.

Definition is_approval_aborted (cause : option RunCancellationCause) : bool :=
  match cause with Some (Interruption ApprovalAborted) => true | _ => false end.

(** The settlement of a call that was executed. *)
Definition settle_execution (call_ : PreparedModelToolCall V) (metadata : V) (execution : result (ToolResult V) ToolFailure) : turn ToolDispatchOutcome :=
  let id := prepared_id call_ in
  let tool := prepared_tool call_ in
  match execution with
  | Ok r =>
    let result_text := tool_result_text r in
    let metadata := merge_tool_metadata metadata r in
    let executed := settle_executed_tool_for_run_cause id tool metadata result_text r in
    let completed := DispatchCompleted result_text (N.of_nat (length (recorded_changes r))) in
    do! cause := call CurrentCause in
    match cause with
    | Some _ => executed
    | None =>
      with_settlement
        (settle_call true id tool
           (if is_empty (change_summaries r)
            then CompleteToolCall (result_title r) metadata result_text (truncated_output_path r)
            else CompleteWithFileChanges (result_title r) metadata result_text (truncated_output_path r) (change_summaries r)) completed)
        executed
    end
  | Err (PermissionDenied settlement shown) =>
    if settlement
    then settle_call true id tool (SettleWithoutExecution StatusDeclined shown metadata) (DispatchDeclined shown)
    else fail (RuntimeFailed (lit "accepted permission denial lost its durable settlement owner"))
  | Err (PermissionAborted shown) =>
    do! cause := call CurrentCause in
    let settle reserved := settle_call reserved id tool (SettleWithoutExecution StatusDeclined shown metadata) (DispatchInterrupted 0) in
    if is_approval_aborted cause then settle false else with_settlement (settle true) (settle_pending_tool_for_run_cause id tool metadata)
  | Err (OtherToolError shown) =>
    do! cause := call CurrentCause in
    match cause with
    | Some _ => settle_pending_tool_for_run_cause id tool metadata
    | None =>
      with_settlement (settle_call true id tool (FailToolCall shown (failed_tool_metadata metadata)) (DispatchFailed shown))
        (settle_pending_tool_for_run_cause id tool metadata)
    end
  end.

(** The effect a tool declares for a call: the registry's, if it knows the tool. *)
Context (validate_call_effect : text -> V -> option text).

Definition handle_tool_call (fuel : nat) (call_ : PreparedModelToolCall V) : turn ToolDispatchOutcome :=
  let id := prepared_id call_ in
  let tool := prepared_tool call_ in
  let name := tool_name (prepared_call call_) in
  let with_effect effect := json_insert build (lit "security_effect") (json_text build effect) (json_object build) in
  match validation_error call_ with
  | Some error_text =>
    let metadata := with_effect (lit "read") in
    let result_text := lit "invalid arguments for `" ++ name ++ lit "`: " ++ error_text in
    with_settlement (settle_call true id tool (FailToolCall result_text (failed_tool_metadata metadata)) (DispatchFailed result_text))
      (settle_pending_tool_for_run_cause id tool metadata)
  | None =>
    let metadata := with_effect (default (lit "read") (validate_call_effect name (prepared_arguments call_))) in
    do! _ := renew_admission_lease request in
    do! _ := call (StartTool call_) in
    do! ran := poll_tool fuel (settles_multi_agent_mutation name) in
    let (execution, cleanup_diagnostic) := ran in
    let metadata := match cleanup_diagnostic with Some diagnostic => tool_cleanup_diagnostic_metadata metadata diagnostic | None => metadata end in
    do! active := attempt (ensure_admission_active request) in
    match active with
    | Ok _ => settle_execution call_ metadata execution
    | Err e => do! _ := if holds_settlement execution then call ReleaseToolSettlement else pure tt in fail e
    end
  end.
End Tools.
