(* ===== verification/TurnModel.v ===== *)
(** * Asking the model (src/src/agent/mod.rs)

    The request of a round, the collector of a stream's events, the polled stream, the check of the answer's
    shape and the preparation of its tool calls; following the committed history. *)
From S2P Require Import Prelude.
From S2P Require Import Text.
From S2P Require Import TurnOutcome.
From S2P Require Import RunControl.
From S2P Require Import Json.
From S2P Require Import PermissionFence.
From S2P Require Import ContextWindow.
From S2P Require Import ClmCheckpoint.
From S2P Require Import History.
From S2P Require Import ProtocolStore.
From S2P Require Import SourceRecords.
From S2P Require Import ContextManager.
From S2P Require Import ContextTokens.
From S2P Require Import ProtocolContext.
From S2P Require Import ProviderStream.
From S2P Require Import ChatClient.
From S2P Require Import Prog.
From S2P Require Import TurnCalls.
From S2P Require Import TurnEnds.

Open Scope nat_scope.

(** ** Collecting an answer *)

Record ResponseCollector := {
  collected_text : text;
  collected_tool_calls : list ModelToolCall;
  tool_call_order : list text;
  tool_call_args : gmap text text;
  tool_call_names : gmap text text
}.
Definition empty_collector : ResponseCollector :=
  {| collected_text := []; collected_tool_calls := []; tool_call_order := []; tool_call_args := ∅; tool_call_names := ∅ |}.

Definition rebuild_tool_calls (c : ResponseCollector) : ResponseCollector :=
  {| collected_text := collected_text c;
     collected_tool_calls := omap (fun call_id =>
       name ← tool_call_names c !! call_id;
       Some {| call_id := call_id; tool_name := name; arguments_json := default (lit "{}") (tool_call_args c !! call_id) |}) (tool_call_order c);
     tool_call_order := tool_call_order c; tool_call_args := tool_call_args c; tool_call_names := tool_call_names c |}.

(** [entry(call_id).or_default().push_str(delta)] *)
Definition append_args (id delta : text) (args : gmap text text) : gmap text text := <[id := default [] (args !! id) ++ delta]> args.

Definition collector_push (event : LlmEvent) (c : ResponseCollector) : ResponseCollector :=
  rebuild_tool_calls
    match event with
    | TextDelta delta =>
      {| collected_text := collected_text c ++ delta; collected_tool_calls := collected_tool_calls c; tool_call_order := tool_call_order c;
         tool_call_args := tool_call_args c; tool_call_names := tool_call_names c |}
    | ToolCallStart id name =>
      {| collected_text := collected_text c; collected_tool_calls := collected_tool_calls c;
         tool_call_order := if existsb (text_eqb id) (tool_call_order c) then tool_call_order c else tool_call_order c ++ [id];
         tool_call_args := append_args id [] (tool_call_args c); tool_call_names := <[id := name]> (tool_call_names c) |}
    | ToolCallArgsDelta id delta =>
      {| collected_text := collected_text c; collected_tool_calls := collected_tool_calls c; tool_call_order := tool_call_order c;
         tool_call_args := append_args id delta (tool_call_args c); tool_call_names := tool_call_names c |}
    | ReasoningSummaryDelta _ | Finished _ _ => c
    end.
Definition collect_events (events : list LlmEvent) : ResponseCollector := fold_left (fun c event => collector_push event c) events empty_collector.

(** [validate_provider_response_terminal] *)
Definition validate_provider_response_terminal (finish_reason : FinishReason) (has_tool_calls : bool) : result unit AgentError :=
  match finish_reason, has_tool_calls with
  | Length, _ => Err ProviderOutputLimit
  | FinishError, _ => Err ProviderFinishError
  | ProviderStream.ToolCall, false | Stop, true => Err (ProviderFinishShape finish_reason has_tool_calls)
  | Stop, false | ProviderStream.ToolCall, true | FinishCancelled, _ => Ok tt
  end.

Section Model.
Context {V : Type} `{JsonValue V} `{EqDecision V} `{Ulid} `{HashIteration} (services : Services V).
Local Abbreviation turn := (turn V) (only parsing).
Local Abbreviation Msg := (ModelMessage V) (only parsing).
Context (request : TurnRequest).

(** ** The request *)

(** [insert_before_final_compaction_summary] *)
Definition insert_before_final_compaction_summary (messages : list Msg) (transient : Msg) : list Msg :=
  match last messages with
  | Some message =>
    if is_semantic_compaction_message message then removelast messages ++ [transient; message] else messages ++ [transient]
  | None => messages ++ [transient]
  end.

(** What of a request does not depend on the round: the window of the model, the messages about the agent tree, the goal
    that steers the turn, what the hub will add to the prompt, and the check of the provider target. *)
Record TurnPrompt := {
  context_window : N;
  multi_agent_context_messages : list Msg;
  goal_message : option Msg;
  hub_prompt_tokens : option N;
  validate_provider_lifecycle : ChatRequest V -> result unit AgentError
}.
Context (prompt : TurnPrompt).

Definition chat_request (step : StepContext V) (messages : list Msg) : result (ChatRequest V) AgentError :=
  let request_messages := multi_agent_context_messages prompt ++ messages in
  let request_messages :=
    match goal_message prompt with
    | Some goal_message => insert_before_final_compaction_summary request_messages goal_message
    | None => request_messages
    end in
  let chat_request :=
    {| model_context_window := context_window prompt; system_prompt := step_system_prompt step; pending_system_prompt_tokens := hub_prompt_tokens prompt;
       messages := request_messages; tools := step_tools step |} in
  let? _ := validate_provider_lifecycle prompt chat_request in Ok chat_request.

(** ** Streaming *)

Definition wait_for_permit : turn unit :=
  if has_request_gate request then
    do! permit := call AcquirePermit in
    match permit with
    | PermitGateClosed => fail (AgentMessageError (lit "model request concurrency gate closed"))
    | PermitGranted | PermitCancelled => pure tt
    end
  else pure tt.

Fixpoint poll_stream (fuel : nat) : turn (option (result LlmResponseSummary LlmError * ResponseCollector)) :=
  match fuel with
  | O => out_of_fuel
  | S fuel =>
    do! polled := call PollStream in
    match polled with
    | Some ended => pure (Some (stream_result ended, collect_events (stream_events ended)))
    | None =>
      do! cancelled := call IsCancelled in
      if cancelled : bool then pure None
      else do! _ := ensure_admission_active request in poll_stream fuel
    end
  end.

(** [None] if the run was cancelled before the answer was complete. *)
Definition execute_model_request (fuel : nat) (sent : ChatRequest V) : turn (option (result LlmResponseSummary LlmError * ResponseCollector)) :=
  do! _ := wait_for_permit in
  do! cancelled := call IsCancelled in
  if cancelled : bool then pure None
  else
    call? _ := AttachApiKey in
    do! _ := call (StartStream false sent) in
    poll_stream fuel.

(** ** Tool calls of the answer *)

(** Parsing the arguments and checking them against the schema of the tool. *)
Context (parse_tool_arguments : text -> result V text) (validate_shallow_schema : text -> V -> list (ToolSchema V) -> result V text).

Definition prepare_model_tool_call (id : ToolCallId) (call_ : ModelToolCall) (schemas : list (ToolSchema V)) : PreparedModelToolCall V :=
  let parsed := let? value := parse_tool_arguments (arguments_json call_) in validate_shallow_schema (tool_name call_) value schemas in
  {| prepared_id := id; prepared_call := call_; prepared_tool := ToolName.parse (tool_name call_);
     prepared_arguments := match parsed with Ok value => value | Err _ => json_null end;
     validation_error := match parsed with Ok _ => None | Err error => Some error end |}.

(** ** Following the history *)

(** [refresh_committed_context_page], behind the read of the page. *)
Definition refresh_context_page : turn CommittedContextRefreshPage :=
  do! context_ := gets context in
  call? page := ReadHistoryPage (append_cursor context_) MAX_PROTOCOL_PAGE_LIMIT in
  match ingest_committed_page services (request_session request) page context_ with
  | Err message => fail (AgentMessageError message)
  | Ok (context_, refreshed) => do! _ := modify (set_context context_) in pure refreshed
  end.
End Model.
#[global] Arguments TurnPrompt V : clear implicits.
