(* ===== verification/TurnCompaction.v ===== *)
(** * Compacting the context of a turn (src/src/agent/mod.rs, src/src/agent/model_compaction.rs)

    Which units of the history a summary replaces, the request that writes it, the check that it helps and its
    commit; and the compaction the model proposes itself. *)
From S2P Require Import Prelude.
From S2P Require Import Text.
From S2P Require Import TurnOutcome.
From S2P Require Import RunControl.
From S2P Require Import Json.
From S2P Require Import PermissionFence.
From S2P Require Import ContextWindow.
From S2P Require Import ClmCheckpoint.
From S2P Require Import History.
From S2P Require Import ProtocolStore.
From S2P Require Import SourceRecords.
From S2P Require Import ContextManager.
From S2P Require Import ContextTokens.
From S2P Require Import ProtocolContext.
From S2P Require Import ProviderStream.
From S2P Require Import ChatClient.
From S2P Require Import Prog.
From S2P Require Import TurnCalls.
From S2P Require Import TurnEnds.
From S2P Require Import TurnModel.

Open Scope N_scope.

(** ** Pure code that may fail or panic *)

Definition fallible (A : Type) : Type := option (result A AgentError).
Definition done_ {A} (a : A) : fallible A := Some (Ok a).
Definition or_fail {A B} (m : fallible A) (f : A -> fallible B) : fallible B :=
  match m with None => None | Some (Err e) => Some (Err e) | Some (Ok a) => f a end.
Definition unpanic {A} (o : option A) : fallible A := Ok <$> o.
(** [map_err(AgentError::Message)] *)
Definition or_message {A} (r : result A text) : fallible A := match r with Ok a => done_ a | Err message => Some (Err (AgentMessageError message)) end.
Notation "'try!' x := m 'in' k" := (or_fail m (fun x => k)) (at level 10, x pattern, m at level 100, k at level 200) : turn_scope.

(** ** Searching a prefix *)

(** [usize::BITS + 1] *)
Definition COMPACTION_PREFIX_SEARCH_MAX_EVALUATIONS : nat := 65.
Definition COMPACTION_CHECKPOINT_RESERVE_TOKENS : N := 1800.

(** The loop of [first_monotonic_prefix_count]. *)
Fixpoint first_prefix (evaluations : nat) (low high : N) (result : option N) (predicate : N -> fallible bool) : fallible (option N) :=
  match evaluations with
  | O => done_ result
  | S evaluations =>
    if high <? low then done_ result
    else
      let middle := low + (high - low) / 2 in
      try! holds := predicate middle in
      if holds : bool
      then if middle =? 0 then done_ (Some middle) else first_prefix evaluations low (middle - 1) (Some middle) predicate
      else first_prefix evaluations (saturating_add_usize middle 1) high result predicate
  end.
Definition first_monotonic_prefix_count (low high : N) (predicate : N -> fallible bool) : fallible (option N) :=
  first_prefix COMPACTION_PREFIX_SEARCH_MAX_EVALUATIONS low high None predicate.

(** The loop of [last_monotonic_prefix_count]. *)
Fixpoint last_prefix (evaluations : nat) (low high : N) (result : option N) (predicate : N -> fallible bool) : fallible (option N) :=
  match evaluations with
  | O => done_ result
  | S evaluations =>
    if high <? low then done_ result
    else
      let middle := low + (high - low) / 2 in
      try! holds := predicate middle in
      if holds : bool
      then last_prefix evaluations (saturating_add_usize middle 1) high (Some middle) predicate
      else if middle =? 0 then done_ result else last_prefix evaluations low (middle - 1) result predicate
  end.
Definition last_monotonic_prefix_count (low high : N) (predicate : N -> fallible bool) : fallible (option N) :=
  last_prefix COMPACTION_PREFIX_SEARCH_MAX_EVALUATIONS low high None predicate.

Definition compaction_prefix_count (unit_count preferred_limit actual_limit : N) (source_tokens : N -> fallible N) : fallible N :=
  if unit_count =? 0 then done_ 0
  else
    try! tokens := source_tokens unit_count in
    if tokens <=? preferred_limit then done_ unit_count
    else
      try! found := last_monotonic_prefix_count 1 (unit_count - 1) (fun count => try! tokens := source_tokens count in done_ (tokens <=? preferred_limit)) in
      match found with
      | Some count => done_ count
      | None => try! tokens := source_tokens 1 in done_ (if tokens <=? actual_limit then 1 else 0)
      end.

(** ** Budgets *)

Definition compaction_source_token_limit (effective_context_token_limit : N) : N :=
  effective_context_token_limit - N.min (effective_context_token_limit / 5) 20000.

(** [usable] of [compaction_checkpoint_budget] with the projected request it computes. *)
Definition projected_request_tokens (before_context_tokens after_context_tokens before_request_tokens : N) : N :=
  saturating_add_u32 (before_request_tokens - before_context_tokens) after_context_tokens.
Definition checkpoint_usable (before_context_tokens after_context_tokens before_request_tokens observed_prompt_gap working_context_token_limit : N) : bool :=
  (after_context_tokens <? before_context_tokens) &&
  (saturating_add_u32 (projected_request_tokens before_context_tokens after_context_tokens before_request_tokens) observed_prompt_gap
     <? working_context_token_limit).

Definition provider_prompt_gap (usage : option TokenUsage) (local_request_tokens : N) : N :=
  match usage with Some usage => prompt_tokens usage - local_request_tokens | None => 0 end.

Definition reasoning_only_saturated_usage (usage : option TokenUsage) (effective_context_limit : N) : option TokenUsage :=
  usage ← usage;
  if (0 <? completion_tokens usage) && bool_decide (reasoning_tokens usage = Some (completion_tokens usage))
     && (effective_context_limit <=? total_tokens usage)
  then Some usage else None.

Definition reasoning_only_compaction_error (usage : TokenUsage) (effective_context_limit observed_prompt_gap : N) : AgentError :=
  AgentMessageError
    (lit "semantic compaction returned an empty summary after host-owned reasoning consumed the entire completion near the context limit (prompt " ++
     show_N (prompt_tokens usage) ++ lit ", completion " ++ show_N (completion_tokens usage) ++ lit ", reasoning " ++
     show_N (default 0 (reasoning_tokens usage)) ++ lit ", total " ++ show_N (total_tokens usage) ++ lit ", effective input limit " ++
     show_N effective_context_limit ++ lit ", observed provider/local prompt gap " ++ show_N observed_prompt_gap ++
     lit "); no smaller safe semantic-unit prefix was available and canonical history was left unchanged").

Definition context_limit_error (status : ContextWindowTokenStatus) : AgentError :=
  AgentMessageError
    (lit "context window limit reached after semantic compaction was unavailable or insufficient (estimated active context " ++
     show_N (active_context_tokens status) ++ lit " tokens, effective full context limit " ++ show_N (full_context_window_limit status) ++
     lit " tokens, configured overflow margin " ++ show_N (ContextWindow.overflow_margin_tokens status) ++
     lit " tokens); canonical history was left unchanged").

Definition goal_token_delta (usage : option TokenUsage) : Z := match usage with Some usage => Z.of_N (total_tokens usage) | None => 0 end.

(** The filter that keeps the identifiers it has not seen. *)
Fixpoint newly_seen (seen : gset HistoryItemId) (ids : list HistoryItemId) : list HistoryItemId :=
  match ids with
  | [] => []
  | id :: ids => if bool_decide (id ∈ seen) then newly_seen seen ids else id :: newly_seen ({[id]} ∪ seen) ids
  end.
Definition flatten_compaction_unit_prefix (units : list (list HistoryItemId)) (unit_count : N) : list HistoryItemId :=
  newly_seen ∅ (concat (take (N.to_nat unit_count) units)).

(** ["x".repeat(..)] *)
Definition checkpoint_reserve_text : text := replicate (N.to_nat (COMPACTION_CHECKPOINT_RESERVE_TOKENS * 4)) 120.

Record CompactionPrefixProjection := { after_context_tokens : N; projected_tokens : N; source_request_tokens : N }.

Inductive CompactionSummaryOutcome :=
  | Summary (text_ : text) (prompt_gap : N)
  | ReasoningOnlySaturation (usage : TokenUsage) (local_request_tokens : N)
  | SourceContextOverflow (error : LlmError) (local_request_tokens : N).

Section Compaction.
Context {V : Type} `{JsonValue V} `{EqDecision V} `{Ulid} `{HashIteration} (services : Services V) (json_to_string : V -> text).
Local Abbreviation turn := (turn V) (only parsing).
Local Abbreviation Msg := (ModelMessage V) (only parsing).
Context (request : TurnRequest) (prompt : TurnPrompt V).

(** The trimmed asset [compaction.md], and the identifiers of provisional items: they are never stored. *)
Context (compaction_prompt : text) (provisional_id : HistoryItemId).

Definition request_tokens (r : ChatRequest V) : N := active_context_tokens (for_request json_to_string r 0).
Definition chat_request_for (step : StepContext V) (messages : list Msg) : fallible (ChatRequest V) := Some (chat_request prompt step messages).

(** ** The request for a summary *)

Definition without_continuation (message : Msg) : Msg :=
  match message with AssistantToolCalls content tool_calls _ => AssistantToolCalls content tool_calls None | _ => message end.

Definition compaction_request_with_messages (template : ChatRequest V) (source_messages : list Msg) : ChatRequest V :=
  {| model_context_window := model_context_window template; system_prompt := system_prompt template;
     pending_system_prompt_tokens := pending_system_prompt_tokens template;
     messages := map without_continuation source_messages ++ [UserMessage compaction_prompt]; tools := [] |}.

(** ** Which units *)

Section Selection.
Context (st : LoopState V) (step : StepContext V) (units : list (list HistoryItemId)) (excluded : gset HistoryItemId).
Context (before_context_tokens before_request_tokens : N).
Definition unit_count : N := N.of_nat (length units).

(** [compaction_prefix_projection]; the map that keeps the projections of a selection is not observable. *)
Definition compaction_prefix_projection (unit_count : N) : fallible CompactionPrefixProjection :=
  let c := context st in
  let selected_item_ids := flatten_compaction_unit_prefix units unit_count in
  try! checkpoint_reserve := or_message (checkpoint_with_source_records checkpoint_reserve_text selected_item_ids c) in
  try! users := unpanic (compaction_user_messages_for_items selected_item_ids c) in
  try! preserved_user_messages := unpanic (bounded_compaction_user_messages users) in
  try! after_messages :=
    unpanic (model_messages_after_compaction services provisional_id (request_session request) (request_turn request) preserved_user_messages
               checkpoint_reserve selected_item_ids excluded (supports_images request) c) in
  let after_context_tokens := estimate_model_messages_tokens after_messages in
  try! source_messages := unpanic (compaction_source_messages_for_items services selected_item_ids excluded (supports_images request) c) in
  try! source_template := chat_request_for step source_messages in
  done_ {| after_context_tokens := after_context_tokens;
           projected_tokens := projected_request_tokens before_context_tokens after_context_tokens before_request_tokens;
           source_request_tokens := request_tokens (compaction_request_with_messages source_template (messages source_template)) |}.

Definition useful (projection : CompactionPrefixProjection) : bool :=
  checkpoint_usable before_context_tokens (after_context_tokens projection) before_request_tokens 0 (working_context_token_limit request).

(** The limit a summary's source must keep for the checkpoint to fit the window. *)
Definition actual_source_limit : N := effective_context_token_limit request - COMPACTION_CHECKPOINT_RESERVE_TOKENS.

Definition compaction_unit_selection : fallible N :=
  let source_limit := compaction_source_token_limit (effective_context_token_limit request) in
  let source_tokens count := try! projection := compaction_prefix_projection count in done_ (source_request_tokens projection) in
  try! initial_count := compaction_prefix_count unit_count (N.min source_limit actual_source_limit) actual_source_limit source_tokens in
  if 0 <? initial_count then
    try! projection := compaction_prefix_projection initial_count in
    if useful projection then done_ initial_count
    else
      try! found := first_monotonic_prefix_count (initial_count + 1) unit_count
        (fun count => try! projection := compaction_prefix_projection count in done_ (useful projection)) in
      match found with
      | Some count => try! tokens := source_tokens count in done_ (if tokens <=? actual_source_limit then count else initial_count)
      | None => done_ initial_count
      end
  else done_ initial_count.

Definition gap_safe (observed_prompt_gap : N) (projection : CompactionPrefixProjection) : bool :=
  (after_context_tokens projection <? before_context_tokens) &&
  (saturating_add_u32 (projected_tokens projection) observed_prompt_gap <? working_context_token_limit request).
Definition source_safe (failed_source_request_tokens observed_prompt_gap : N) (projection : CompactionPrefixProjection) : bool :=
  (source_request_tokens projection <? failed_source_request_tokens) &&
  (saturating_add_u32 (source_request_tokens projection) observed_prompt_gap <? working_context_token_limit request).

Definition compaction_retry_unit_count (failed_unit_count failed_source_request_tokens observed_prompt_gap : N) : fallible (option N) :=
  if failed_unit_count <=? 1 then done_ None
  else
    let max_retry_count := failed_unit_count - 1 in
    let safe test count := try! projection := compaction_prefix_projection count in done_ (test projection : bool) in
    try! minimum_gap_safe_count := first_monotonic_prefix_count 1 max_retry_count (safe (gap_safe observed_prompt_gap)) in
    try! largest_source_safe_count :=
      last_monotonic_prefix_count 1 max_retry_count (safe (source_safe failed_source_request_tokens observed_prompt_gap)) in
    match minimum_gap_safe_count, largest_source_safe_count with
    | Some retry_count, Some largest_source_safe_count =>
      if largest_source_safe_count <? retry_count then done_ None
      else
        try! projection := compaction_prefix_projection retry_count in
        done_ (if gap_safe observed_prompt_gap projection && source_safe failed_source_request_tokens observed_prompt_gap projection
               then Some retry_count else None)
    | _, _ => done_ None
    end.
End Selection.

Definition from_fallible {A} (m : fallible A) : turn A := match m with Some r => from_result r | None => fun _ => halt Panic end.

(** ** Asking for the summary *)

Definition count_request (c : Counters) : Counters :=
  {| tool_call_count := tool_call_count c; failed_tool_count := failed_tool_count c; change_count := change_count c;
     model_request_count := model_request_count c + 1; tool_calls_by_name := tool_calls_by_name c;
     failed_tool_calls_by_name := failed_tool_calls_by_name c; latest_usage := latest_usage c;
     cumulative_token_usage := cumulative_token_usage c |}.
Definition set_latest_usage (usage : option TokenUsage) (c : Counters) : Counters :=
  {| tool_call_count := tool_call_count c; failed_tool_count := failed_tool_count c; change_count := change_count c;
     model_request_count := model_request_count c; tool_calls_by_name := tool_calls_by_name c;
     failed_tool_calls_by_name := failed_tool_calls_by_name c; latest_usage := usage;
     cumulative_token_usage := cumulative_token_usage c |}.
Definition count_response (usage : option TokenUsage) (c : Counters) : Counters :=
  {| tool_call_count := tool_call_count c; failed_tool_count := failed_tool_count c; change_count := change_count c;
     model_request_count := model_request_count c; tool_calls_by_name := tool_calls_by_name c;
     failed_tool_calls_by_name := failed_tool_calls_by_name c; latest_usage := latest_usage c;
     cumulative_token_usage := record_response usage (cumulative_token_usage c) |}.

(** The goal of the turn pays for an answer. *)
Definition account_goal (usage : option TokenUsage) : turn unit :=
  match goal_id request with
  | Some goal_id => call? _ := AccountGoalUsage (goal_token_delta usage) goal_id in pure tt
  | None => pure tt
  end.

(** An error, recorded as a diagnostic. *)
Definition diagnose {A} (outcome : CompactionDiagnosticOutcome) (e : AgentError) : turn A :=
  do! _ := call (RecordDiagnostic outcome) in fail e.

Definition announce (sent : ChatRequest V) (status : option ContextWindowTokenStatus) : turn unit :=
  match pending_system_prompt_tokens sent with
  | None => call? _ := EmitEvent (RunModelRequestPrepared sent status) in pure tt
  | Some _ => pure tt
  end.

Definition wait_for_compaction_permit : turn unit :=
  if has_request_gate request then
    do! permit := call AcquirePermit in
    match permit with
    | PermitGranted => pure tt
    | PermitGateClosed => diagnose PreparationFailed (AgentMessageError (lit "model request concurrency gate closed"))
    | PermitCancelled => diagnose DiagnosticCancelled (AgentMessageError (lit "semantic compaction was cancelled"))
    end
  else pure tt.

Definition failed_compaction_request (error : LlmError) : turn CompactionSummaryOutcome :=
  do! _ := call (RecordDiagnostic (if is_context_window_exceeded error then DiagnosticSourceContextOverflow else DiagnosticProviderFailed)) in
  do! _ := count (count_response (token_usage error)) in
  do! _ :=
    match token_usage error with
    | Some usage => do! _ := count (set_latest_usage (Some usage)) in account_goal (Some usage)
    | None => pure tt
    end in
  fail (LlmFailed error).

(** What the collected answer is worth. *)
Definition judge_summary (local_request_tokens : N) (response : LlmResponseSummary) (collector : ResponseCollector) : turn CompactionSummaryOutcome :=
  let has_tool_calls := negb (is_empty (collected_tool_calls collector)) in
  if bool_decide (summary_finish_reason response = FinishCancelled) then
    diagnose DiagnosticCancelled (AgentMessageError (lit "semantic compaction was cancelled; canonical history was left unchanged"))
  else
    match validate_provider_response_terminal (summary_finish_reason response) has_tool_calls with
    | Err e => diagnose InvalidFinish e
    | Ok _ =>
      if has_tool_calls then
        diagnose UnexpectedToolCalls (AgentMessageError (lit "semantic compaction returned tool calls instead of a summary"))
      else
        let summary := trim (collected_text collector) in
        if is_empty summary then
          match reasoning_only_saturated_usage (summary_usage response) (effective_context_token_limit request) with
          | Some usage => do! _ := call (RecordDiagnostic DiagnosticReasoningOnlySaturation) in pure (ReasoningOnlySaturation usage local_request_tokens)
          | None => diagnose EmptySummary (AgentMessageError (lit "semantic compaction returned an empty summary"))
          end
        else
          match validate_checkpoint_body summary with
          | Err error =>
            diagnose InvalidCheckpoint (AgentMessageError (lit "semantic compaction checkpoint failed validation: " ++ error ++
                                                            lit "; canonical history was left unchanged"))
          | Ok _ => pure (Summary summary (provider_prompt_gap (summary_usage response) local_request_tokens))
          end
    end.

Definition run_compaction_request (sent : ChatRequest V) : turn CompactionSummaryOutcome :=
  do! _ := call NewModelResponseId in
  let local_request_tokens := request_tokens sent in
  do! _ := announce sent None in
  do! renewed := attempt (renew_admission_lease request) in
  match renewed with
  | Err e => diagnose PreparationFailed e
  | Ok _ =>
    do! _ := count count_request in
    do! _ := wait_for_compaction_permit in
    do! attached := call AttachApiKey in
    match attached with
    | Err e => diagnose PreparationFailed e
    | Ok _ =>
      do! _ := call (StartStream true sent) in
      do! ended := call AwaitStream in
      match stream_result ended with
      | Err error => failed_compaction_request error
      | Ok response =>
        do! _ := count (set_latest_usage (summary_usage response)) in
        do! _ := count (count_response (summary_usage response)) in
        do! accounted := attempt (account_goal (summary_usage response)) in
        match accounted with
        | Err e => diagnose UsageAccountingFailed e
        | Ok _ => judge_summary local_request_tokens response (collect_events (stream_events ended))
        end
      end
    end
  end.

Definition summarize_compaction_history (template : ChatRequest V) : turn CompactionSummaryOutcome :=
  let sent := compaction_request_with_messages template (messages template) in
  do! outcome := attempt (run_compaction_request sent) in
  match outcome with
  | Err (LlmFailed error) =>
    if is_context_window_exceeded error then pure (SourceContextOverflow error (request_tokens sent)) else fail (LlmFailed error)
  | outcome => from_result outcome
  end.

(** ** Compacting before a request *)

Record CompactionDraft := {
  draft_item_ids : list HistoryItemId;
  draft_user_messages : list text;
  draft_summary : text;
  draft_prompt_gap : N
}.

Section CompactContext.
Context (template : ChatRequest V) (step : StepContext V) (units : list (list HistoryItemId)) (excluded : gset HistoryItemId).

Definition selection_parameters (st : LoopState V) : fallible (N * N) :=
  try! before_messages := unpanic (model_messages_excluding services excluded (supports_images request) (context st)) in
  done_ (estimate_model_messages_tokens before_messages, request_tokens template).

Definition select_units : turn N :=
  do! st := gets id in
  from_fallible
    (try! before := selection_parameters st in
     let (before_context_tokens, before_request_tokens) := before in
     compaction_unit_selection st step units excluded before_context_tokens before_request_tokens).

Definition retry_units (failed_unit_count failed_source_request_tokens observed_prompt_gap : N) : turn (option N) :=
  do! st := gets id in
  from_fallible
    (try! before := selection_parameters st in
     let (before_context_tokens, before_request_tokens) := before in
     compaction_retry_unit_count st step units excluded before_context_tokens before_request_tokens failed_unit_count failed_source_request_tokens
       observed_prompt_gap).

Definition draft_of (item_ids : list HistoryItemId) (user_messages : list text) (summary : text) (prompt_gap : N) : turn CompactionDraft :=
  do! c := gets context in
  match checkpoint_with_source_records summary item_ids c with
  | Ok summary => pure {| draft_item_ids := item_ids; draft_user_messages := user_messages; draft_summary := summary; draft_prompt_gap := prompt_gap |}
  | Err error =>
    fail (AgentMessageError (lit "semantic compaction source records could not be preserved: " ++ error ++ lit "; canonical history was left unchanged"))
  end.

(** The loop of [compact_context]: [retries] is 1 while a retry is available. *)
Fixpoint draft_compaction (retries : nat) (required_prompt_gap selected_unit_count : N) : turn (option CompactionDraft) :=
  let item_ids := flatten_compaction_unit_prefix units selected_unit_count in
  if is_empty item_ids then pure None
  else
    do! c := gets context in
    do! users := from_option (compaction_user_messages_for_items item_ids c) in
    do! user_messages := from_option (bounded_compaction_user_messages users) in
    do! source_messages := from_option (compaction_source_messages_for_items services item_ids excluded (supports_images request) c) in
    do! source_template := from_fallible (chat_request_for step source_messages) in
    do! outcome := summarize_compaction_history source_template in
    match outcome with
    | Summary text_ prompt_gap =>
      do! draft := draft_of item_ids user_messages text_ (N.max required_prompt_gap prompt_gap) in pure (Some draft)
    | ReasoningOnlySaturation usage local_request_tokens =>
      let observed_prompt_gap := provider_prompt_gap (Some usage) local_request_tokens in
      let exhausted := fail (reasoning_only_compaction_error usage (effective_context_token_limit request) observed_prompt_gap) in
      match retries with
      | O => exhausted
      | S retries =>
        do! retry := retry_units selected_unit_count local_request_tokens observed_prompt_gap in
        match retry with
        | Some retry_count => draft_compaction retries observed_prompt_gap retry_count
        | None => exhausted
        end
      end
    | SourceContextOverflow error local_request_tokens =>
      match retries with
      | O => fail (LlmFailed error)
      | S retries =>
        do! retry := retry_units selected_unit_count local_request_tokens 0 in
        match retry with
        | Some retry_count => draft_compaction retries required_prompt_gap retry_count
        | None => fail (LlmFailed error)
        end
      end
    end.

Definition COMPACTION_ACCURACY_WARNING : text :=
  lit "Heads up: Long threads and multiple compactions can cause the model to be less accurate. Start a new thread when possible to keep threads small and targeted.".

Definition compaction_event (draft : CompactionDraft) : RunEvent V :=
  CompactionCompleted (length (draft_item_ids draft)) (draft_user_messages draft) (draft_summary draft) (draft_item_ids draft).

(** Whether the draft frees enough; its commit. *)
Definition draft_usable (draft : CompactionDraft) : turn bool :=
  do! c := gets context in
  do! before_messages := from_option (model_messages_excluding services excluded (supports_images request) c) in
  do! after_messages :=
    from_option (model_messages_after_compaction services provisional_id (request_session request) (request_turn request) (draft_user_messages draft)
                   (draft_summary draft) (draft_item_ids draft) excluded (supports_images request) c) in
  pure (checkpoint_usable (estimate_model_messages_tokens before_messages) (estimate_model_messages_tokens after_messages) (request_tokens template)
          (draft_prompt_gap draft) (working_context_token_limit request)).

Definition commit_draft (draft : CompactionDraft) : turn bool :=
  let event := compaction_event draft in
  do! sequence_no := call ReserveSequence in
  do! committed := call (CommitCompaction event sequence_no) in
  match committed with
  | Err e => diagnose CommitFailed e
  | Ok _ =>
    do! _ := call (RecordDiagnostic DiagnosticCommitted) in
    do! _ := call (EmitCommitted event) in
    call? _ := EmitRuntimeOnly (RuntimeNotice COMPACTION_ACCURACY_WARNING) in
    pure true
  end.

Definition adopt_draft (draft : CompactionDraft) : turn bool :=
  do! usable := draft_usable draft in
  if usable : bool then commit_draft draft
  else do! _ := call (RecordDiagnostic CheckpointRejected) in pure false.
End CompactContext.

Definition excluded_set (item : option HistoryItemId) : gset HistoryItemId := match item with Some item => {[item]} | None => ∅ end.

Definition compact_context (template : ChatRequest V) (step : StepContext V) (excluded_item_id : option HistoryItemId) : turn bool :=
  let excluded := excluded_set excluded_item_id in
  do! c := gets context in
  let units := automatic_compaction_units_excluding excluded c in
  if is_empty units then pure false
  else
    do! selected := select_units template step units excluded in
    do! draft := draft_compaction template step units excluded 1 0 selected in
    match draft with
    | None => pure false
    | Some draft => adopt_draft template excluded draft
    end.

(** ** The compaction of the model *)

Definition context_warning (message : text) : RunEvent V :=
  RecoverableRuntimeFeedback {| severity := FeedbackWarning; category := FeedbackContext; feedback_public_message := message |}.

Definition reject_model_compaction (message : text) : turn bool :=
  call? _ := EmitEvent (context_warning message) in pure false.

Definition commit_model_compaction (event : RunEvent V) : turn bool :=
  do! reserved := call BeginToolSettlement in
  if reserved : bool then
    do! committed := attempt (
      do! _ := ensure_admission_active request in
      do! sequence_no := call ReserveSequence in
      call? _ := CommitCompaction event sequence_no in pure tt) in
    do! _ := call ReleaseToolSettlement in
    do! _ := from_result committed in
    do! _ := call (EmitCommitted event) in
    do! _ := refresh_context_page services request in
    pure true
  else fail (AgentMessageError (lit "context compaction cancelled before commit")).

Definition apply_model_compaction (before_request_tokens : N) (summary : text) (source_item_ids : list HistoryItemId) : turn bool :=
  do! c := gets context in
  let active_ids : gset HistoryItemId := list_to_set (active_item_ids c) in
  if is_empty source_item_ids || existsb (fun id => negb (bool_decide (id ∈ active_ids))) source_item_ids then
    reject_model_compaction (lit "Context compaction was not applied: there was no eligible completed history in the sampled context.")
  else
    match checkpoint_with_source_records summary source_item_ids c with
    | Err error =>
      reject_model_compaction (lit "Context compaction was not applied: " ++ error ++ lit ". Original context is retained.")
    | Ok summary =>
      do! user_messages := from_option (compaction_user_messages_for_items source_item_ids c) in
      do! before_messages := from_option (model_messages services (supports_images request) c) in
      do! after_messages :=
        from_option (model_messages_after_compaction services provisional_id (request_session request) (request_turn request) user_messages summary
                       source_item_ids ∅ (supports_images request) c) in
      if checkpoint_usable (estimate_model_messages_tokens before_messages) (estimate_model_messages_tokens after_messages) before_request_tokens 0
           (working_context_token_limit request)
      then commit_model_compaction (CompactionCompleted (length source_item_ids) user_messages summary source_item_ids)
      else
        reject_model_compaction (lit "Context compaction was not applied: the proposed notes did not reduce the input below its compaction threshold. Original context is retained.")
    end.
End Compaction.
