(* ===== verification/TurnLoop.v ===== *)
(** * The agent loop (src/src/agent/mod.rs, [run_inner])

    A round follows the committed history, compacts it or takes in waiting input when it must, asks the model,
    commits the answer and runs its tools, until the turn ends; an error ends it by what the store and the run owner
    say of it. *)
From S2P Require Import Prelude.
From S2P Require Import Text.
From S2P Require Import TurnOutcome.
From S2P Require Import RunControl.
From S2P Require Import Json.
From S2P Require Import PermissionFence.
From S2P Require Import ContextWindow.
From S2P Require Import ClmCheckpoint.
From S2P Require Import History.
From S2P Require Import ProtocolStore.
From S2P Require Import SourceRecords.
From S2P Require Import ContextManager.
From S2P Require Import ContextTokens.
From S2P Require Import ProtocolContext.
From S2P Require Import ProviderStream.
From S2P Require Import ChatClient.
From S2P Require Import Prog.
From S2P Require Import TurnCalls.
From S2P Require Import TurnEnds.
From S2P Require Import TurnModel.
From S2P Require Import TurnCompaction.

Open Scope nat_scope.

(** ** Outcomes *)

(** A delegation to a shared child that a yielding run proposes; the progress is the counters. *)
Record SharedYieldProposal (Child : Type) := { yield_call : ToolCallId; child : Child; retained_service : option N; progress : Counters }.
Arguments yield_call {Child} _.
Arguments child {Child} _.
Arguments retained_service {Child} _.
Arguments progress {Child} _.
Inductive AgentRunOutcome (Child : Type) := RunCompleted (summary : RunSummary) | RunYielded (proposal : SharedYieldProposal Child).
Arguments RunCompleted {Child} summary.
Arguments RunYielded {Child} proposal.

(** Whether the loop continues. *)
Inductive Flow (Child : Type) := Again | Ended (outcome : AgentRunOutcome Child).
Arguments Again {Child}.
Arguments Ended {Child} outcome.

(** A shared run: whether it resumes, the progress of its checkpoint, and the delegation a call describes. *)
Record SharedRun (V Child : Type) := { resumes : bool; checkpoint : result (option Counters) text; parse_child : V -> option Child }.
Arguments resumes {V Child} _.
Arguments checkpoint {V Child} _.
Arguments parse_child {V Child} _.

Definition no_progress : Counters :=
  {| tool_call_count := 0; failed_tool_count := 0; change_count := 0; model_request_count := 0; tool_calls_by_name := ∅;
     failed_tool_calls_by_name := ∅; latest_usage := None; cumulative_token_usage := no_usage |}.

(** The identifier a message shows. *)
Definition show_ulid `{Ulid} (id : option HistoryItemId) : text := match id with Some id => ulid_to_string id | None => [] end.

(** [{:?}] of a finish reason. *)
Definition debug_finish_reason (reason : FinishReason) : text :=
  match reason with
  | Stop => lit "Stop" | ProviderStream.ToolCall => lit "ToolCall" | Length => lit "Length" | FinishCancelled => lit "Cancelled" | FinishError => lit "Error"
  end.

(** ** Counting tools *)

Definition increment (name : text) (counts : gmap text N) : gmap text N := <[name := (default 0 (counts !! name) + 1)%N]> counts.
Definition count_tool_call (name : text) (c : Counters) : Counters :=
  {| tool_call_count := tool_call_count c + 1; failed_tool_count := failed_tool_count c; change_count := change_count c;
     model_request_count := model_request_count c; tool_calls_by_name := increment name (tool_calls_by_name c);
     failed_tool_calls_by_name := failed_tool_calls_by_name c; latest_usage := latest_usage c; cumulative_token_usage := cumulative_token_usage c |}.
(** [record_tool_dispatch_failure] *)
Definition count_failed_tool (name : text) (c : Counters) : Counters :=
  {| tool_call_count := tool_call_count c; failed_tool_count := failed_tool_count c + 1; change_count := change_count c;
     model_request_count := model_request_count c; tool_calls_by_name := tool_calls_by_name c;
     failed_tool_calls_by_name := increment name (failed_tool_calls_by_name c); latest_usage := latest_usage c;
     cumulative_token_usage := cumulative_token_usage c |}.
Definition count_changes (changes : N) (c : Counters) : Counters :=
  {| tool_call_count := tool_call_count c; failed_tool_count := failed_tool_count c; change_count := change_count c + changes;
     model_request_count := model_request_count c; tool_calls_by_name := tool_calls_by_name c;
     failed_tool_calls_by_name := failed_tool_calls_by_name c; latest_usage := latest_usage c; cumulative_token_usage := cumulative_token_usage c |}.

Section Loop.
Context {V : Type} `{JsonValue V} `{EqDecision V} `{Ulid} `{HashIteration} (services : Services V) (json_to_string : V -> text) (build : JsonBuild V).
Context {Child : Type}.
Local Abbreviation turn := (turn V) (only parsing).
Local Abbreviation Flow := (Flow Child) (only parsing).
Context (request : TurnRequest) (prompt : TurnPrompt V) (compaction_prompt : text) (provisional_id : HistoryItemId).
Context (parse_tool_arguments : text -> result V text) (validate_shallow_schema : text -> V -> list (ToolSchema V) -> result V text).
Context (validate_call_effect : text -> V -> option text) (parse_summary : V -> result text text) (llm_public_message : LlmError -> text).
Context (shared_run : option (SharedRun V Child)).

(** ** The flags *)

Definition set_flags (unavailable : option text) (follow_up : bool) (phase : MailboxDeliveryPhase) (pre_turn : option HistoryItemId)
    (drain sample : bool) (st : LoopState V) : LoopState V :=
  {| context := context st; counters := counters st; last_model_response_id := last_model_response_id st;
     compaction_unavailable_at_revision := unavailable; model_needs_follow_up := follow_up; mailbox_delivery_phase := phase;
     pre_turn_compaction_item_id := pre_turn; can_drain_pending_input := drain; must_sample_without_compaction := sample;
     active_context_token_state := active_context_token_state st |}.
Definition set_unavailable (r : option text) (st : LoopState V) : LoopState V :=
  set_flags r (model_needs_follow_up st) (mailbox_delivery_phase st) (pre_turn_compaction_item_id st) (can_drain_pending_input st)
    (must_sample_without_compaction st) st.
Definition set_phase (phase : MailboxDeliveryPhase) (st : LoopState V) : LoopState V :=
  set_flags (compaction_unavailable_at_revision st) (model_needs_follow_up st) phase (pre_turn_compaction_item_id st) (can_drain_pending_input st)
    (must_sample_without_compaction st) st.
Definition set_drain (drain : bool) (st : LoopState V) : LoopState V :=
  set_flags (compaction_unavailable_at_revision st) (model_needs_follow_up st) (mailbox_delivery_phase st) (pre_turn_compaction_item_id st) drain
    (must_sample_without_compaction st) st.
Definition set_sample (sample : bool) (st : LoopState V) : LoopState V :=
  set_flags (compaction_unavailable_at_revision st) (model_needs_follow_up st) (mailbox_delivery_phase st) (pre_turn_compaction_item_id st)
    (can_drain_pending_input st) sample st.
Definition set_follow_up (follow_up : bool) (st : LoopState V) : LoopState V :=
  set_flags (compaction_unavailable_at_revision st) follow_up (mailbox_delivery_phase st) (pre_turn_compaction_item_id st)
    (can_drain_pending_input st) (must_sample_without_compaction st) st.
Definition clear_pre_turn (st : LoopState V) : LoopState V :=
  set_flags (compaction_unavailable_at_revision st) (model_needs_follow_up st) (mailbox_delivery_phase st) None (can_drain_pending_input st)
    (must_sample_without_compaction st) st.
Definition set_tokens (tokens : ActiveContextTokenState) (st : LoopState V) : LoopState V :=
  {| context := context st; counters := counters st; last_model_response_id := last_model_response_id st;
     compaction_unavailable_at_revision := compaction_unavailable_at_revision st; model_needs_follow_up := model_needs_follow_up st;
     mailbox_delivery_phase := mailbox_delivery_phase st; pre_turn_compaction_item_id := pre_turn_compaction_item_id st;
     can_drain_pending_input := can_drain_pending_input st; must_sample_without_compaction := must_sample_without_compaction st;
     active_context_token_state := tokens |}.
Definition set_last_response (r : ModelResponseId) (st : LoopState V) : LoopState V :=
  {| context := context st; counters := counters st; last_model_response_id := Some r;
     compaction_unavailable_at_revision := compaction_unavailable_at_revision st; model_needs_follow_up := model_needs_follow_up st;
     mailbox_delivery_phase := mailbox_delivery_phase st; pre_turn_compaction_item_id := pre_turn_compaction_item_id st;
     can_drain_pending_input := can_drain_pending_input st; must_sample_without_compaction := must_sample_without_compaction st;
     active_context_token_state := active_context_token_state st |}.

(** [reset_after_compaction] and the revision that is available again. *)
Definition compacted (st : LoopState V) : LoopState V := set_unavailable None (set_tokens (reset_after_compaction (active_context_token_state st)) st).

(** ** Ends *)

Definition finish : turn Flow := do! summary := finish_for_run_control_cause request in pure (Ended (RunCompleted summary)).
Definition ended (summary : RunSummary) : turn Flow := pure (Ended (RunCompleted summary)).

Definition set_activity (activity : text) : turn unit := if has_agent_context request then call (SetActivity activity) else pure tt.

(** ** Waiting input *)

Fixpoint commit_pending_agent_communications (fuel : nat) (delivered : N) : turn N :=
  match fuel with
  | O => out_of_fuel
  | S fuel =>
    call? page := DeliverMailbox MAX_PROTOCOL_PAGE_LIMIT in
    let '(page_len, more) := page in
    if more && N.eqb page_len 0 then
      fail (AgentMessageError (lit "durable mailbox delivery for session " ++ ulid_to_string (request_session request) ++ lit " made no progress"))
    else
      let delivered := saturating_add_usize delivered page_len in
      if more : bool then commit_pending_agent_communications fuel delivered else pure delivered
  end.

Definition deliver_mail (fuel : nat) : turn N :=
  do! phase := gets mailbox_delivery_phase in
  match phase with
  | NextTurn => pure 0%N
  | CurrentTurnAll => if has_agent_context request then commit_pending_agent_communications fuel 0 else pure 0%N
  end.

(** The boundary is consumed once; whether the round starts over. *)
Definition drain_pending_input (fuel : nat) : turn bool :=
  do! drain := gets can_drain_pending_input in
  if drain : bool then
    call? delivered_steers := DeliverSteers in
    do! _ := if (0 <? delivered_steers)%N then modify (set_phase CurrentTurnAll) else pure tt in
    do! delivered_mail := deliver_mail fuel in
    do! _ := modify (set_drain false) in
    if (0 <? delivered_steers)%N || (0 <? delivered_mail)%N then do! _ := modify (set_sample true) in pure true else pure false
  else pure false.

(** ** Compaction before a request *)

Definition compaction_unavailable_notice : RunEvent V :=
  context_warning (lit "Semantic compaction was unavailable, so the task continued with the existing history. If the context fills up, start a new task or reduce the request.").

Definition compaction_unavailable : turn unit :=
  do! _ := modify (fun st => set_unavailable (Some (revision (context st))) st) in
  call? _ := EmitEvent compaction_unavailable_notice in pure tt.

Definition note_failed_usage (e : AgentError) : turn unit :=
  match e with
  | LlmFailed llm_error =>
    match token_usage llm_error with Some usage => count (set_latest_usage (Some usage)) | None => pure tt end
  | _ => pure tt
  end.

Definition chat_request_of (step : StepContext V) (messages : list (ModelMessage V)) : turn (ChatRequest V) :=
  from_result (chat_request prompt step messages).

(** [can_drain_pending_input] behind a compaction. *)
Definition drain_after_compaction (pre_turn : option HistoryItemId) (st : LoopState V) : LoopState V :=
  match pre_turn with Some _ => set_drain false st | None => set_drain (negb (model_needs_follow_up st)) st end.

(** Whether the round starts over. *)
Definition attempt_compaction (template : ChatRequest V) (step : StepContext V) (pre_turn : option HistoryItemId) (status : ContextWindowTokenStatus)
    : turn bool :=
  do! compacted_ := attempt (compact_context services json_to_string request prompt compaction_prompt provisional_id template step pre_turn) in
  match compacted_ with
  | Ok true => do! _ := modify (fun st => drain_after_compaction pre_turn (set_sample true (compacted st))) in pure true
  | Ok false =>
    if token_limit_reached status then fail (context_limit_error status)
    else do! _ := compaction_unavailable in pure false
  | Err e =>
    do! _ := note_failed_usage e in
    if token_limit_reached status then fail e
    else do! _ := compaction_unavailable in pure false
  end.

Definition status_of (sent : ChatRequest V) : turn ContextWindowTokenStatus :=
  do! st := gets id in
  from_option (status_for_request services json_to_string (active_context_token_state st) (context st) sent (supports_images request)
                 (overflow_margin_tokens request)).

Definition compact_if_needed (step : StepContext V) (prepared : ChatRequest V) : turn bool :=
  do! pre_turn := gets pre_turn_compaction_item_id in
  do! _ := modify clear_pre_turn in
  do! _ := match pre_turn with Some _ => modify (set_sample true) | None => pure tt end in
  do! template :=
    match pre_turn with
    | Some _ =>
      do! c := gets context in
      do! prior_messages := from_option (model_messages_excluding services (excluded_set pre_turn) (supports_images request) c) in
      chat_request_of step prior_messages
    | None => pure prepared
    end in
  do! status :=
    match pre_turn with
    | Some _ => pure (for_request json_to_string template (overflow_margin_tokens request))
    | None => status_of template
    end in
  do! st := gets id in
  let should_compact := negb (must_sample_without_compaction st) || match pre_turn with Some _ => true | None => false end in
  let should_compact := should_compact && (working_context_token_limit request <=? active_context_tokens status)%N in
  let suppressed := bool_decide (compaction_unavailable_at_revision st = Some (revision (context st))) in
  if should_compact && negb suppressed then attempt_compaction template step pre_turn status else pure false.

(** ** Sampling *)

(** The error of a request: its usage is accounted before it ends the round. *)
Definition fail_request {A} (error : LlmError) : turn A :=
  do! _ :=
    match token_usage error with
    | Some usage => do! _ := count (set_latest_usage (Some usage)) in account_goal request (Some usage)
    | None => pure tt
    end in
  fail (LlmFailed error).

(** The request of the round and its answer; [None] when the run was cancelled meanwhile. *)
Definition sample (fuel : nat) (step : StepContext V) (prepared : ChatRequest V) (status : ContextWindowTokenStatus)
    : turn (option (ModelResponseId * LlmResponseSummary * ResponseCollector)) :=
  call? _ := EmitEvent (RunWorldStateUpdated (step_snapshot step) (step_rendered step)) in
  do! _ := announce prepared (Some status) in
  do! _ := renew_admission_lease request in
  do! _ := count count_request in
  do! response_id := call NewModelResponseId in
  do! answered := execute_model_request request fuel prepared in
  match answered with
  | None => pure None
  | Some (response, collector) =>
    do! _ := count (count_response match response with Ok response => summary_usage response | Err error => token_usage error end) in
    do! _ := ensure_admission_active request in
    match response with
    | Err error => fail_request error
    | Ok response =>
      do! _ := count (set_latest_usage (summary_usage response)) in
      do! _ := account_goal request (summary_usage response) in
      pure (Some (response_id, response, collector))
    end
  end.

(** ** Committing the answer *)

Fixpoint identify_calls (calls : list ModelToolCall) : turn (list (ToolCallId * ModelToolCall)) :=
  match calls with
  | [] => pure []
  | call_ :: calls => do! id := call NewToolCallId in do! rest := identify_calls calls in pure ((id, call_) :: rest)
  end.
Fixpoint pending_writes (calls : list (ToolCallId * ModelToolCall)) : turn (list PendingToolCallWrite) :=
  match calls with
  | [] => pure []
  | (id, call_) :: calls =>
    do! sequence_no := call ReserveSequence in
    do! rest := pending_writes calls in
    pure ({| pending_id := id; pending_call := call_; pending_sequence_no := sequence_no |} :: rest)
  end.

Definition assistant_text_of (answer_text : text) : option text :=
  let present := if chat_completions request then negb (is_empty (trim answer_text)) else negb (is_empty answer_text) in
  if present then Some answer_text else None.

(** The answer and its calls become durable before anything is executed. *)
Definition record_answer (response_id : ModelResponseId) (answer_text : text) (raw_tool_calls : list (ToolCallId * ModelToolCall)) : turn unit :=
  let assistant_text := assistant_text_of answer_text in
  do! assistant_sequence := match assistant_text with Some _ => call ReserveSequence | None => pure None end in
  do! writes := pending_writes raw_tool_calls in
  call? events := RecordModelResponse {| write_response_id := response_id; write_assistant_text := assistant_text;
                                         assistant_protocol_sequence_no := assistant_sequence; write_tool_calls := writes |} in
  emit_all events.

(** What the loop keeps of a committed answer. *)
Definition after_answer (response_id : ModelResponseId) (response : LlmResponseSummary) (sent : ChatRequest V) (sent_messages : list (ModelMessage V))
    (sent_item_ids : list HistoryItemId) (has_tool_calls : bool) (st : LoopState V) : LoopState V :=
  let st := set_last_response response_id st in
  let st :=
    match continuation response with
    | Some continuation => if has_tool_calls then set_context (record_chat_continuation response_id {| reasoning_content := continuation |} (context st)) st else st
    | None => st
    end in
  let st := set_drain false (set_sample false (set_follow_up false st)) in
  set_tokens (record_provider_response json_to_string response_id (summary_usage response) sent sent_messages sent_item_ids (active_context_token_state st)) st.

Definition empty_final_response (reason : FinishReason) : AgentError :=
  AgentMessageError (lit "provider returned an empty final response with finish_reason=" ++ debug_finish_reason reason).

(** ** The end of a successful turn *)

(** The reservation ends as the durable terminal says. *)
Definition conclude (summary : RunSummary) : turn Flow := do! _ := resolve_success_commit_from_durable_summary summary in ended summary.
Definition abandon {A} (cause : RunCancellationCause) (e : AgentError) : turn A := do! _ := call (AbandonSuccess cause) in fail e.
Definition abandon_failure {A} (message : text) : turn A := abandon (Failure message) (AgentMessageError message).

(** How an error shows itself. *)
Context (error_text : AgentError -> text).

Definition resolve_failed_commit (error : AgentError) : turn Flow :=
  do! durable := attempt (durable_terminal_summary request) in
  match durable with
  | Ok (Some summary) => conclude summary
  | Ok None => abandon_failure (lit "success terminal commit failed without durable terminal evidence: " ++ error_text error)
  | Err authority_error =>
    abandon_failure (lit "success terminal commit failed and durable ownership could not be read: " ++ error_text error ++
                     lit "; authority read: " ++ error_text authority_error)
  end.

Definition resolve_lost_commit : turn Flow :=
  do! durable := attempt (durable_terminal_summary request) in
  match durable with
  | Ok (Some summary) => conclude summary
  | Ok None => abandon Superseded (run_superseded_error request)
  | Err error => abandon_failure (lit "durable terminal ownership could not be resolved after a lost success commit: " ++ error_text error)
  end.

Definition commit_success (terminal : DurableTurnTerminal) : turn Flow :=
  do! reserved := call BeginSuccessCommit in
  if reserved : bool then
    do! sequence_no := call ReserveSequence in
    do! phase := gets mailbox_delivery_phase in
    do! settlement := call (SettleSuccess terminal sequence_no (bool_decide (phase = CurrentTurnAll))) in
    match settlement with
    | Err error => resolve_failed_commit error
    | Ok NotOwned => resolve_lost_commit
    | Ok (TerminalApplied effective) =>
      let summary := run_summary_from_terminal request effective in
      do! _ := resolve_success_commit_from_durable_summary summary in
      do! _ := call (EmitCommitted (RunTurnTerminal effective)) in
      ended summary
    | Ok (AlreadyTerminalizedBySameAdmission effective) => conclude (run_summary_from_terminal request effective)
    end
  else finish.

(** An answer without tool calls ends the turn unless more input is there. *)
Definition finish_answer (pending_steer : bool) : turn Flow :=
  if pending_steer then do! _ := modify (fun st => set_drain true (set_phase CurrentTurnAll st)) in pure Again
  else
    do! _ := modify (set_phase NextTurn) in
    do! refreshed := refresh_context_page services request in
    if negb (is_empty (steer_item_ids (refresh_delta refreshed))) then do! _ := modify (set_phase CurrentTurnAll) in pure Again
    else if refresh_has_more refreshed || negb (is_empty (agent_communication_item_ids (refresh_delta refreshed))) then pure Again
    else
      call? feedback := ReadReviewFeedback in
      do! _ := match feedback with Some feedback => (call? _ := EmitEvent (RecoverableRuntimeFeedback feedback) in pure tt) | None => pure tt end in
      do! response_id := gets last_model_response_id in
      do! terminal := turn_terminal OutcomeCompleted response_id in
      commit_success terminal.

(** ** The tools of an answer *)

(** What follows the end of a call; [Some] ends the round. *)
Definition after_dispatch (name : text) (dispatched : ToolDispatchOutcome) : turn (option Flow) :=
  match dispatched with
  | DispatchCompleted _ changes =>
    do! _ := ensure_admission_active request in
    do! _ := count (count_changes changes) in pure None
  | DispatchDeclined _ => do! _ := ensure_admission_active request in pure None
  | DispatchFailed _ =>
    do! _ := count (count_failed_tool name) in
    do! cause := call CurrentCause in
    match cause with
    | Some (Failure message) => fail (AgentMessageError message)
    | _ => do! _ := ensure_admission_active request in pure None
    end
  | DispatchInterrupted changes =>
    do! _ := count (count_changes changes) in
    do! flow := finish in pure (Some flow)
  end.

Definition proposed_summary (call_ : PreparedModelToolCall V) (dispatched : ToolDispatchOutcome) (summary : option text) : turn (option text) :=
  match prepared_tool call_, dispatched with
  | ToolName.CompactContext, DispatchCompleted _ _ =>
    match parse_summary (prepared_arguments call_) with
    | Ok summary => pure (Some summary)
    | Err error => fail (ToolFailed error)
    end
  | _, _ => pure summary
  end.

(** The tools in order; [inl] ends the round, [inr] is the summary the model proposed. *)
Fixpoint run_tools (fuel : nat) (calls : list (PreparedModelToolCall V)) (summary : option text) : turn (Flow + option text) :=
  match calls with
  | [] => pure (inr summary)
  | call_ :: calls =>
    do! cancelled := call IsCancelled in
    if cancelled : bool then do! flow := finish in pure (inl flow)
    else
      let name := tool_name (prepared_call call_) in
      do! _ := ensure_admission_active request in
      do! _ := set_activity (lit "Running " ++ name) in
      do! _ := count (count_tool_call name) in
      do! dispatched := handle_tool_call build request validate_call_effect fuel call_ in
      do! summary := proposed_summary call_ dispatched summary in
      do! after := after_dispatch name dispatched in
      match after with
      | Some flow => pure (inl flow)
      | None => run_tools fuel calls summary
      end
  end.

(** The call a shared run yields to. *)
Definition delegation (shared : SharedRun V Child) (calls : list (PreparedModelToolCall V)) : option (ToolCallId * option Child) :=
  match calls with
  | [call_] =>
    match prepared_tool call_, validation_error call_ with
    | ToolName.SharedDelegate, None => Some (prepared_id call_, parse_child shared (prepared_arguments call_))
    | _, _ => None
    end
  | _ => None
  end.

Definition yield_to_child (retained : option N) (calls : list (PreparedModelToolCall V)) : turn (option Flow) :=
  match shared_run with
  | None => pure None
  | Some shared =>
    match delegation shared calls with
    | None => pure None
    | Some (id, child) =>
      do! local_work := call ReadLocalWork in
      if (local_work : bool) && match retained with Some _ => false | None => true end then pure None
      else
        do! cancelled := call IsCancelled in
        if cancelled : bool then pure None
        else
          match child with
          | None => pure None
          | Some child =>
            do! _ := ensure_admission_active request in
            do! _ := count (count_tool_call (lit "shared_delegate")) in
            do! c := gets counters in
            pure (Some (Ended (RunYielded {| yield_call := id; child := child; retained_service := retained; progress := c |})))
          end
    end
  end.

(** ** The summary the model proposed *)

Fixpoint refresh_context_to_the_end (fuel : nat) : turn unit :=
  match fuel with
  | O => out_of_fuel
  | S fuel =>
    do! refreshed := refresh_context_page services request in
    if refresh_has_more refreshed then refresh_context_to_the_end fuel else pure tt
  end.

Definition adopt_proposed_summary (fuel : nat) (step : StepContext V) (source_item_ids : list HistoryItemId) (summary : text) : turn unit :=
  do! _ := refresh_context_to_the_end fuel in
  do! c := gets context in
  do! current_messages := from_option (model_messages services (supports_images request) c) in
  do! current_template := chat_request_of step current_messages in
  do! current_status := status_of current_template in
  do! applied := apply_model_compaction services request provisional_id (active_context_tokens current_status) summary source_item_ids in
  if applied : bool then modify compacted else pure tt.

(** ** Rounds *)

(** The tools of a committed answer, and the next round. *)
Definition act (fuel : nat) (step : StepContext V) (source_item_ids : list HistoryItemId) (calls : list (PreparedModelToolCall V)) : turn Flow :=
  do! _ := modify (fun st => set_phase (after_model_tool_call (mailbox_delivery_phase st)) st) in
  do! retained := call ReadRetainedService in
  do! yielded := yield_to_child retained calls in
  match yielded with
  | Some flow => pure flow
  | None =>
    do! ran := run_tools fuel calls None in
    match ran with
    | inl flow => pure flow
    | inr summary =>
      do! _ := match summary with Some summary => adopt_proposed_summary fuel step source_item_ids summary | None => pure tt end in
      do! _ := modify (fun st => set_follow_up true (set_drain true st)) in
      pure Again
    end
  end.

(** A valid answer is committed before anything follows from it. *)
Definition commit_and_act (fuel : nat) (step : StepContext V) (sent_messages : list (ModelMessage V)) (prepared : ChatRequest V)
    (source_item_ids sent_item_ids : list HistoryItemId) (response_id : ModelResponseId) (response : LlmResponseSummary) (collector : ResponseCollector)
    : turn Flow :=
  let calls := collected_tool_calls collector in
  do! raw_tool_calls := identify_calls calls in
  do! _ := record_answer response_id (collected_text collector) raw_tool_calls in
  do! _ := modify (after_answer response_id response prepared sent_messages sent_item_ids (negb (is_empty calls))) in
  call? pending_steer := HasPendingSteers in
  let prepared_calls :=
    map (fun '(id, call_) => prepare_model_tool_call parse_tool_arguments validate_shallow_schema id call_ (step_tools step)) raw_tool_calls in
  if is_empty prepared_calls then finish_answer pending_steer else act fuel step source_item_ids prepared_calls.

(** Behind the input boundary: the request, its answer and what follows from it. *)
Definition sample_and_act (fuel : nat) (step : StepContext V) (sent_messages : list (ModelMessage V)) (prepared : ChatRequest V) : turn Flow :=
  do! st := gets id in
  if negb (has_model_context (context st)) then
    fail (AgentMessageError (lit "session " ++ ulid_to_string (request_session request) ++
                             lit " has no model-visible input after its durable pending-input boundary"))
  else
    let source_item_ids := model_compaction_source_item_ids (context st) in
    do! status := status_of prepared in
    if token_limit_reached status then fail (context_limit_error status)
    else
      let sent_item_ids := active_item_ids (context st) in
      do! answered := sample fuel step prepared status in
      match answered with
      | None => finish
      | Some (response_id, response, collector) =>
        let reason := summary_finish_reason response in
        if bool_decide (reason = FinishCancelled) then finish
        else
          do! cancelled := call IsCancelled in
          if cancelled : bool then finish
          else
            let has_tool_calls := negb (is_empty (collected_tool_calls collector)) in
            do! _ := from_result (validate_provider_response_terminal reason has_tool_calls) in
            if negb has_tool_calls && is_empty (trim (collected_text collector)) then fail (empty_final_response reason)
            else commit_and_act fuel step sent_messages prepared source_item_ids sent_item_ids response_id response collector
      end.

(** The round behind the history it follows. *)
Definition prepare_and_sample (fuel : nat) : turn Flow :=
  call? step := CaptureStep in
  do! st := gets id in
  do! sent_messages := from_option (model_messages services (supports_images request) (context st)) in
  do! _ := set_activity (lit "Preparing model request " ++ show_N (model_request_count (counters st) + 1)) in
  do! prepared := chat_request_of step sent_messages in
  do! compacted_ := compact_if_needed step prepared in
  if compacted_ : bool then pure Again
  else
    do! drained := drain_pending_input fuel in
    if drained : bool then pure Again
    else sample_and_act fuel step sent_messages prepared.

(** One iteration of the loop. *)
Definition round (fuel : nat) : turn Flow :=
  do! cancelled := call IsCancelled in
  if cancelled : bool then finish
  else
    do! _ := ensure_admission_active request in
    do! refreshed := refresh_context_page services request in
    do! _ := match change (refresh_delta refreshed) with Compacted => modify compacted | Unchanged | Appended => pure tt end in
    if negb (is_empty (steer_item_ids (refresh_delta refreshed))) then do! _ := modify (set_phase CurrentTurnAll) in pure Again
    else if refresh_has_more refreshed then pure Again
    else prepare_and_sample fuel.

(** ** The epilogue of an error *)

(** The terminal a failed turn writes itself. *)
Definition settle_failure (error : AgentError) (failure_message : text) : turn (AgentRunOutcome Child) :=
  do! terminal := turn_terminal (OutcomeFailed failure_message) None in
  do! settlement := settle_terminal terminal (goal_id request) in
  match settlement, into_terminal settlement with
  | TerminalApplied _, Some effective =>
    match outcome effective with
    | OutcomeFailed _ => fail error
    | _ => pure (RunCompleted (run_summary_from_terminal request effective))
    end
  | _, Some effective => pure (RunCompleted (run_summary_from_terminal request effective))
  | _, None =>
    do! summary := durable_terminal_summary request in
    match summary with
    | Some summary => pure (RunCompleted summary)
    | None => supersede_run request
    end
  end.

Definition finish_run : turn (AgentRunOutcome Child) := do! summary := finish_for_run_control_cause request in pure (RunCompleted summary).

Definition classify_failure (error : AgentError) : turn (AgentRunOutcome Child) :=
  let failure_message := public_message llm_public_message error in
  do! requested := call (RequestCancel (Failure failure_message)) in
  match requested with
  | Applied => settle_failure error failure_message
  | Deferred _ | Rejected =>
    do! cause := call CurrentCause in
    match cause with
    | Some _ => finish_run
    | None => fail error
    end
  end.

(** Who owns a turn whose run owner has no cause yet. *)
Definition resolve_error (error : AgentError) : turn (AgentRunOutcome Child) :=
  call? state := ReadAdmission in
  match state with
  | OwnedRunning => classify_failure error
  | StateTerminal terminal => pure (RunCompleted (run_summary_from_terminal request terminal))
  | StateStopFenced o => do! _ := classify_run_control_for_terminal_outcome o in finish_run
  | SupersededOrExpired => supersede_run request
  end.

Definition end_in_error (error : AgentError) : turn (AgentRunOutcome Child) :=
  do! summary := durable_terminal_summary request in
  match summary with
  | Some summary => pure (RunCompleted summary)
  | None =>
    do! cancelled := call IsCancelled in
    if cancelled : bool then finish_run
    else match error with RunSuperseded _ _ => fail error | _ => resolve_error error end
  end.

(** The loop; every round and every inner loop has the same fuel. *)
Fixpoint rounds (fuel inner : nat) : turn (AgentRunOutcome Child) :=
  match fuel with
  | O => out_of_fuel
  | S fuel =>
    do! flow := round inner in
    match flow with
    | Again => rounds fuel inner
    | Ended outcome => pure outcome
    end
  end.

Definition initial_state (c : ContextManager V) (progress : Counters) : LoopState V :=
  {| context := c; counters := progress; last_model_response_id := None; compaction_unavailable_at_revision := None;
     model_needs_follow_up := match shared_run with Some shared => resumes shared | None => false end;
     mailbox_delivery_phase := CurrentTurnAll; pre_turn_compaction_item_id := initial_user_history_item_id request;
     can_drain_pending_input := match initial_user_history_item_id request with None => true | Some _ => false end;
     must_sample_without_compaction := false; active_context_token_state := {| provider_baseline := None |} |}.

Definition starting_progress : result Counters AgentError :=
  match shared_run with
  | None => Ok no_progress
  | Some shared =>
    match checkpoint shared with
    | Ok progress => Ok (default no_progress progress)
    | Err message => Err (AgentMessageError message)
    end
  end.

(** [run_inner] *)
Definition run_inner (fuel inner : nat) : turn (AgentRunOutcome Child) :=
  do! _ := ensure_admission_active request in
  do! _ := modify (fun st => set_context (clear_chat_continuations (context st)) st) in
  call? _ := PrepareServices in
  do! c := gets context in
  let missing := match initial_user_history_item_id request with Some item => negb (contains_user_turn_item item c) | None => false end in
  if missing then
    fail (AgentMessageError (lit "admitted initial UserTurn " ++ show_ulid (initial_user_history_item_id request) ++
                             lit " is missing from canonical model context"))
  else
    do! progress := from_result starting_progress in
    do! _ := modify (fun st => initial_state (context st) progress) in
    do! ran := attempt (rounds fuel inner) in
    match ran with
    | Ok outcome => pure outcome
    | Err error => end_in_error error
    end.
End Loop.
