(* ===== verification/TurnWatch.v ===== *)
(** * What a turn may do (src/src/agent/mod.rs)

    The specification of the agent loop as a monitor over its facts, and the rules by which a program of the turn
    monad is shown to keep it. *)
From S2P Require Import Prelude.
From S2P Require Import Text.
From S2P Require Import TurnOutcome.
From S2P Require Import RunControl.
From S2P Require Import Json.
From S2P Require Import PermissionFence.
From S2P Require Import ClmCheckpoint.
From S2P Require Import History.
From S2P Require Import ContextManager.
From S2P Require Import Prog.
From S2P Require Import TurnCalls.
From S2P Require Import TurnEnds.

Open Scope nat_scope.

(** ** The monitor *)

Record Watch := {
  held : option bool;                      (** the reservation of the run owner: [true] for the success commit *)
  waiting : list ToolCallId;               (** the committed calls that are not settled *)
  started : bool;                          (** whether the first of them was started *)
  fresh : bool;                            (** whether the run owner said "not cancelled" since the last act *)
  cause : option RunCancellationCause;     (** its last word on the cause *)
  settled : N;
  failed : N;
  unanswered : bool;                       (** a request without a committed answer *)
  drafts : nat;                            (** compaction requests since the last answer *)
  adopted : bool;                          (** a compaction before a request since the last answer *)
  stored : option DurableTurnTerminal      (** the last terminal the store answered *)
}.

Definition watching : Watch :=
  {| held := None; waiting := []; started := false; fresh := false; cause := None; settled := 0; failed := 0; unanswered := false; drafts := 0;
     adopted := false; stored := None |}.

Section Watch.
Context {V : Type}.

Definition one_if (b : bool) : N := if b then 1 else 0.

Definition next (w : Watch) (f : Fact V) : Watch :=
  match f with
  | Saw cancelled =>
    {| held := held w; waiting := waiting w; started := started w; fresh := negb cancelled; cause := cause w; settled := settled w;
       failed := failed w; unanswered := unanswered w; drafts := drafts w; adopted := adopted w; stored := stored w |}
  | SawCause c =>
    {| held := held w; waiting := waiting w; started := started w; fresh := fresh w; cause := c; settled := settled w;
       failed := failed w; unanswered := unanswered w; drafts := drafts w; adopted := adopted w; stored := stored w |}
  | AppliedFailure message =>
    {| held := held w; waiting := waiting w; started := started w; fresh := fresh w; cause := Some (Failure message); settled := settled w;
       failed := failed w; unanswered := unanswered w; drafts := drafts w; adopted := adopted w; stored := stored w |}
  | Requested compaction =>
    {| held := held w; waiting := waiting w; started := started w; fresh := false; cause := cause w; settled := settled w;
       failed := failed w; unanswered := if compaction then unanswered w else true;
       drafts := if compaction then S (drafts w) else drafts w; adopted := adopted w; stored := stored w |}
  | Responded _ calls =>
    {| held := held w; waiting := calls; started := false; fresh := false; cause := cause w; settled := settled w;
       failed := failed w; unanswered := false; drafts := 0; adopted := false; stored := stored w |}
  | Started _ =>
    {| held := held w; waiting := waiting w; started := true; fresh := false; cause := cause w; settled := settled w;
       failed := failed w; unanswered := unanswered w; drafts := drafts w; adopted := adopted w; stored := stored w |}
  | Settled _ write =>
    {| held := held w; waiting := tail (waiting w); started := false; fresh := false; cause := cause w; settled := settled w + 1;
       failed := failed w + one_if (settles_as_failed write); unanswered := unanswered w; drafts := drafts w; adopted := adopted w; stored := stored w |}
  | CompactionCommitted _ =>
    {| held := held w; waiting := waiting w; started := started w; fresh := fresh w; cause := cause w; settled := settled w;
       failed := failed w; unanswered := unanswered w; drafts := drafts w;
       adopted := match held w with Some _ => adopted w | None => true end; stored := stored w |}
  | Reserved success =>
    {| held := Some success; waiting := waiting w; started := started w; fresh := fresh w; cause := cause w; settled := settled w;
       failed := failed w; unanswered := unanswered w; drafts := drafts w; adopted := adopted w; stored := stored w |}
  | Released _ =>
    {| held := None; waiting := waiting w; started := started w; fresh := fresh w; cause := cause w; settled := settled w;
       failed := failed w; unanswered := unanswered w; drafts := drafts w; adopted := adopted w; stored := stored w |}
  | Wrote _ => w
  | Terminal terminal =>
    {| held := held w; waiting := waiting w; started := started w; fresh := fresh w; cause := cause w; settled := settled w;
       failed := failed w; unanswered := unanswered w; drafts := drafts w; adopted := adopted w; stored := Some terminal |}
  end.

(** A completed call was started and is recorded under a reservation; any other end of a call needs one too, unless the
    run owner has named the cause of its end. *)
Definition may_settle (w : Watch) (write : ToolSettlementWrite V) : Prop :=
  match write with
  | CompleteToolCall _ _ _ _ | CompleteWithFileChanges _ _ _ _ _ => held w = Some false /\ started w = true
  | SettleExecutedWithFileChanges _ _ _ _ _ _ _ => started w = true /\ is_Some (cause w)
  | FailToolCall _ _ | SettleWithoutExecution _ _ _ => held w = Some false \/ is_Some (cause w)
  end.

Definition may_write (base_calls base_failed : N) (w : Watch) (terminal : DurableTurnTerminal) : Prop :=
  match outcome terminal with
  | OutcomeCompleted =>
    held w = Some true /\ waiting w = [] /\ unanswered w = false /\
    terminal_tool_call_count terminal = (base_calls + settled w)%N /\ terminal_failed_tool_count terminal = (base_failed + failed w)%N
  | OutcomeInterrupted c => held w = None /\ cause w = Some (Interruption c)
  | OutcomeFailed message => held w = None /\ cause w = Some (Failure message)
  end.

(** What may come next; the counts are those the turn began with. *)
Definition allowed (base_calls base_failed : N) (w : Watch) (f : Fact V) : Prop :=
  match f with
  | Requested false => held w = None /\ waiting w = [] /\ unanswered w = false /\ fresh w = true
  | Requested true => held w = None /\ waiting w = [] /\ unanswered w = false /\ drafts w < 2
  | Responded _ _ => held w = None /\ waiting w = [] /\ unanswered w = true
  | Started id => held w = None /\ head (waiting w) = Some id /\ started w = false /\ fresh w = true
  | Settled id write => head (waiting w) = Some id /\ may_settle w write
  | CompactionCommitted _ => waiting w = [] /\ unanswered w = false /\ (held w = Some false \/ held w = None /\ adopted w = false)
  | Reserved _ => held w = None
  | Released success => held w = Some success
  | Wrote terminal => may_write base_calls base_failed w terminal
  | Saw _ | SawCause _ | AppliedFailure _ | Terminal _ => True
  end.
End Watch.

(** ** Rules *)

Section Rules.
Context {V F W : Type} (fact : forall c : Call V, answer c -> list F) (next : W -> F -> W) (ok : W -> F -> Prop).
Local Abbreviation turn := (turn V) (only parsing).
Local Abbreviation LoopState := (LoopState V) (only parsing).

Definition Post (A : Type) : Type := LoopState -> result A AgentError -> W -> Prop.

(** From [st] and [w] every behaviour of [m] is accepted, and ends as [Q] says. *)
Definition wp {A} (m : turn A) (st : LoopState) (w : W) (Q : Post A) : Prop :=
  always fact next ok (fun w e => match e with Returned (st, r) => Q st r w | Halted _ => True end) (m st) w.

Lemma wp_mono {A} (m : turn A) st w (Q Q' : Post A) : (forall st r w, Q st r w -> Q' st r w) -> wp m st w Q -> wp m st w Q'.
Proof. intros HQ. apply always_mono. intros w' [[st' r]|why]; [apply HQ|done]. Qed.
Lemma wp_pure {A} (a : A) st w (Q : Post A) : Q st (Ok a) w -> wp (pure a) st w Q.
Proof. done. Qed.
Lemma wp_fail {A} e st w (Q : Post A) : Q st (Err e) w -> wp (fail e) st w Q.
Proof. done. Qed.
Lemma wp_then {A B} (m : turn A) (f : A -> turn B) st w (Q : Post B) :
  wp m st w (fun st r w => match r with Ok a => wp (f a) st w Q | Err e => Q st (Err e) w end) -> wp (then_ m f) st w Q.
Proof. intros Hm. apply always_bind. revert Hm. apply always_mono. intros w' [[st' [a|e]]|why]; done. Qed.
Lemma wp_call (c : Call V) st w (Q : Post (answer c)) :
  (forall r, accepts next ok w (fact c r) /\ Q st (Ok r) (after next w (fact c r))) -> wp (call c) st w Q.
Proof. done. Qed.
Lemma wp_from_result {A} (r : result A AgentError) st w (Q : Post A) : Q st r w -> wp (from_result r) st w Q.
Proof. by destruct r. Qed.
Lemma wp_from_option {A} (o : option A) st w (Q : Post A) : (forall a, o = Some a -> Q st (Ok a) w) -> wp (from_option o) st w Q.
Proof. destruct o as [a|]; intros Hq; [by apply Hq|done]. Qed.
Lemma wp_gets {A} (f : LoopState -> A) st w (Q : Post A) : Q st (Ok (f st)) w -> wp (gets f) st w Q.
Proof. done. Qed.
Lemma wp_modify (f : LoopState -> LoopState) st w (Q : Post unit) : Q (f st) (Ok tt) w -> wp (modify f) st w Q.
Proof. done. Qed.
Lemma wp_count (f : Counters -> Counters) st w (Q : Post unit) : Q (set_counters (f (counters st)) st) (Ok tt) w -> wp (count f) st w Q.
Proof. done. Qed.
Lemma wp_attempt {A} (m : turn A) st w (Q : Post (result A AgentError)) : wp m st w (fun st r w => Q st (Ok r) w) -> wp (attempt m) st w Q.
Proof. intros Hm. apply always_bind. revert Hm. apply always_mono. intros w' [[st' r]|why]; done. Qed.
Lemma wp_out_of_fuel {A} st w (Q : Post A) : wp out_of_fuel st w Q.
Proof. done. Qed.
End Rules.
#[global] Arguments Post V W A : clear implicits.
