(* ===== verification/TurnFacts.v ===== *)
(** * The parts of a turn keep its monitor (src/src/agent/mod.rs)

    For every part of the agent loop what it does to the monitor and to the state, by the rules of [TurnWatch]. *)
From S2P Require Import Prelude.
From S2P Require Import Text.
From S2P Require Import TurnOutcome.
From S2P Require Import RunControl.
From S2P Require Import Json.
From S2P Require Import PermissionFence.
From S2P Require Import ContextWindow.
From S2P Require Import ClmCheckpoint.
From S2P Require Import History.
From S2P Require Import ProtocolStore.
From S2P Require Import SourceRecords.
From S2P Require Import ContextManager.
From S2P Require Import ContextTokens.
From S2P Require Import ProtocolContext.
From S2P Require Import ProviderStream.
From S2P Require Import ChatClient.
From S2P Require Import Prog.
From S2P Require Import TurnCalls.
From S2P Require Import TurnEnds.
From S2P Require Import TurnModel.
From S2P Require Import TurnCompaction.
From S2P Require Import TurnLoop.
From S2P Require Import TurnWatch.

Open Scope nat_scope.
#[global] Arguments wp : simpl never.
#[global] Arguments call : simpl never.
#[global] Arguments after : simpl never.

(** ** What a part leaves alone *)

(** Only the last words of the run owner and of the store may have changed. *)
Definition quiet (w w' : Watch) : Prop :=
  held w' = held w /\ waiting w' = waiting w /\ started w' = started w /\ settled w' = settled w /\ failed w' = failed w /\
  unanswered w' = unanswered w /\ drafts w' = drafts w /\ adopted w' = adopted w.
Lemma quiet_refl w : quiet w w.
Proof. done. Qed.
Lemma quiet_trans a b c : quiet a b -> quiet b c -> quiet a c.
Proof. unfold quiet. intuition congruence. Qed.

Lemma quiet_held w w' : quiet w w' -> held w = None -> held w' = None.
Proof. unfold quiet. intuition congruence. Qed.

(** What the loop decides by and what a terminal counts. *)
Definition steady {V} (st st' : LoopState V) : Prop :=
  tool_call_count (counters st') = tool_call_count (counters st) /\ failed_tool_count (counters st') = failed_tool_count (counters st) /\
  must_sample_without_compaction st' = must_sample_without_compaction st /\ pre_turn_compaction_item_id st' = pre_turn_compaction_item_id st.
Lemma steady_refl {V} (st : LoopState V) : steady st st.
Proof. done. Qed.
Lemma steady_trans {V} (a b c : LoopState V) : steady a b -> steady b c -> steady a c.
Proof. unfold steady. intuition congruence. Qed.
#[export] Hint Resolve quiet_refl quiet_trans steady_refl steady_trans : turn.

(** ** Tactics *)

Ltac reduce_facts :=
  cbn [fact_of reserved_by settled_terminal into_terminal accepts next allowed fold_left List.app holds_settlement tool_result
    held waiting started fresh cause settled failed unanswered drafts adopted stored] in *.

(** Facts of a single call are split by its answer. *)
Ltac by_answer := repeat first [progress reduce_facts | match goal with |- context [reserved_by ?r] => is_var r; destruct r as [? ? [[?|[[] ?|?|?]]|]] end | progress unfold settled_terminal, into_terminal | match goal with |- context [match ?r with _ => _ end] => is_var r; destruct r end].

Ltac wp_step :=
  lazymatch goal with
  | |- wp _ _ _ (then_ _ _) _ _ _ => apply wp_then
  | |- wp _ _ _ (pure _) _ _ _ => apply wp_pure
  | |- wp _ _ _ (fail _) _ _ _ => apply wp_fail
  | |- wp _ _ _ (gets _) _ _ _ => apply wp_gets
  | |- wp _ _ _ (modify _) _ _ _ => apply wp_modify
  | |- wp _ _ _ (count _) _ _ _ => apply wp_count
  | |- wp _ _ _ (attempt _) _ _ _ => apply wp_attempt
  | |- wp _ _ _ out_of_fuel _ _ _ => apply wp_out_of_fuel
  | |- wp _ _ _ (from_result ?r) _ _ _ => apply wp_from_result
  | |- wp _ _ _ (from_option _) _ _ _ => apply wp_from_option; intros ? ?
  | |- wp _ _ _ (call _) _ _ _ => apply wp_call; (let a := fresh "ans" in intros a); unfold after; by_answer; (split; [try done|])
  | |- wp _ _ _ (match ?x with _ => _ end) _ _ _ => destruct x eqn:?
  | |- match ?x with Ok _ => _ | Err _ => _ end => destruct x eqn:?
  end.
Ltac wp_steps := repeat (wp_step; cbv beta iota).
Tactic Notation "use" uconstr(lemma) := eapply wp_mono; [|apply lemma]; cbn beta.

(** ** Postconditions *)

Section Posts.
Context {V : Type} (request : TurnRequest).
Local Abbreviation LoopState := (LoopState V) (only parsing).

Definition undisturbed {A} (st : LoopState) (w : Watch) : Post V Watch A :=
  fun st' r w' => st' = st /\ quiet w w' /\ match r with Ok _ => w' = w | Err _ => True end.

(** A summary is of the terminal the store answered last. *)
Definition stored_summary (w : Watch) (summary : RunSummary) : Prop :=
  exists terminal, stored w = Some terminal /\ summary = run_summary_from_terminal request terminal.
Definition ending {A} (summary_of : A -> option RunSummary) (st : LoopState) (w : Watch) : Post V Watch A :=
  fun st' r w' => st' = st /\ quiet w w' /\ match r with Ok a => forall s, summary_of a = Some s -> stored_summary w' s | Err _ => True end.
End Posts.

(** Closing a postcondition. *)
Ltac fin := unfold undisturbed, ending in *; split_and?; first [done | by repeat split | by eauto 3 with turn | idtac].
Ltac after_end := let st := fresh "st" in let r := fresh "r" in let w := fresh "w" in intros st r w; cbn beta.

Section Ends.
Context {V : Type} `{JsonValue V} `{EqDecision V} `{Ulid} (request : TurnRequest) (base_calls base_failed : N).
Local Abbreviation wp := (wp fact_of next (allowed base_calls base_failed)) (only parsing).
Local Abbreviation LoopState := (LoopState V) (only parsing).

(** ** Ownership *)

Lemma classify_wp o (st : LoopState) w : wp (classify_run_control_for_terminal_outcome o) st w (fun st' _ w' => st' = st /\ quiet w w').
Proof. unfold classify_run_control_for_terminal_outcome. wp_steps; by repeat split. Qed.
Lemma supersede_wp {A} (st : LoopState) w : wp (supersede_run request (A := A)) st w (fun st' r w' => st' = st /\ w' = w /\ r = Err (run_superseded_error request)).
Proof. unfold supersede_run. wp_steps. by repeat split. Qed.

Lemma ensure_wp (st : LoopState) w : wp (ensure_admission_active request) st w (undisturbed st w).
Proof.
  unfold ensure_admission_active. wp_steps; [fin| | | |fin].
  - use (classify_wp o st w). after_end. intros [-> Hq]. destruct r; wp_steps; fin.
  - use (supersede_wp (A := unit)). after_end. intros (-> & -> & ->). fin.
  - use (supersede_wp (A := unit)). after_end. intros (-> & -> & ->). fin.
Qed.

Lemma renew_wp (st : LoopState) w : wp (renew_admission_lease request) st w (undisturbed st w).
Proof.
  unfold renew_admission_lease. wp_steps; try fin.
  use (classify_wp o st w). after_end. intros [-> Hq]. destruct r; wp_steps; fin.
Qed.

(** ** Ends *)

Lemma terminal_wp o response_id (st : LoopState) w :
  wp (turn_terminal o response_id) st w (fun st' r w' => st' = st /\ w' = w /\ exists terminal, r = Ok terminal /\ outcome terminal = o /\
    terminal_tool_call_count terminal = tool_call_count (counters st) /\ terminal_failed_tool_count terminal = failed_tool_count (counters st)).
Proof. unfold turn_terminal, run_metrics. wp_steps. split; [done|]. split; [done|]. eexists. fin. Qed.

Lemma durable_wp (st : LoopState) w : wp (durable_terminal_summary request) st w (ending request (fun s => s) st w).
Proof. unfold durable_terminal_summary. wp_steps; repeat split; try done. intros s [= <-]. by eexists. Qed.

(** What the turn writes of itself must be allowed. *)
Lemma settle_terminal_wp terminal goal (st : LoopState) w : may_write base_calls base_failed w terminal ->
  wp (settle_terminal terminal goal) st w (fun st' r w' => st' = st /\ quiet w w' /\
    match r with Ok settlement => match into_terminal settlement with Some t => stored w' = Some t | None => True end | Err _ => True end).
Proof. intros Hm. unfold settle_terminal. wp_steps; fin. Qed.

Lemma settle_classified_wp o goal (st : LoopState) w :
  (forall terminal, outcome terminal = o -> may_write base_calls base_failed w terminal) ->
  wp (settle_classified request o goal) st w (ending request Some st w).
Proof.
  intros Hm. unfold settle_classified. wp_steps. use terminal_wp. after_end. intros (-> & -> & terminal & -> & Ho & _). wp_steps.
  use settle_terminal_wp; [|by apply Hm]. after_end. intros (-> & Hq & Hs). destruct r as [settlement|e]; [|fin].
  destruct (into_terminal settlement) as [t|]; wp_steps; [repeat split; [apply Hq..|]; intros s [= <-]; by eexists|].
  use durable_wp. after_end. intros (-> & Hq' & Hs'). destruct r as [[s|]|e]; wp_steps.
  - split; [done|]. split; [by apply quiet_trans with w0|]. intros s' [= <-]. by apply Hs'.
  - use (supersede_wp (A := RunSummary)). after_end. intros (-> & -> & ->). split; [done|]. split; [by apply quiet_trans with w0|done].
  - split; [done|]. split; [by apply quiet_trans with w0|done].
Qed.

Lemma finish_cause_wp (st : LoopState) w : held w = None -> wp (finish_for_run_control_cause request) st w (ending request Some st w).
Proof.
  intros Hh. unfold finish_for_run_control_cause. wp_steps; [| | |fin].
  - use settle_classified_wp; [done|]. intros terminal Ho. unfold may_write. by rewrite Ho.
  - use durable_wp. after_end. intros (-> & Hq & Hs). destruct r as [[s|]|e]; wp_steps; fin.
  - use settle_classified_wp; [done|]. intros terminal Ho. unfold may_write. by rewrite Ho.
Qed.

Lemma resolve_wp summary (st : LoopState) w : held w = Some true ->
  wp (resolve_success_commit_from_durable_summary summary) st w (fun st' r w' => st' = st /\ r = Ok tt /\ held w' = None /\ stored w' = stored w).
Proof. intros Hh. unfold resolve_success_commit_from_durable_summary. wp_steps; try by destruct_or?; fin. all: by destruct ans. Qed.
End Ends.

(** ** Tools *)

Section Tools.
Context {V : Type} `{JsonValue V} `{EqDecision V} `{Ulid} (build : JsonBuild V) (request : TurnRequest) (base_calls base_failed : N).
Context (validate_call_effect : text -> V -> option text).
Local Abbreviation wp := (wp fact_of next (allowed base_calls base_failed)) (only parsing).
Local Abbreviation LoopState := (LoopState V) (only parsing).

Definition dispatch_failed (d : ToolDispatchOutcome) : bool := match d with DispatchFailed _ => true | _ => false end.
Definition interrupted (d : ToolDispatchOutcome) : bool := match d with DispatchInterrupted _ => true | _ => false end.

(** The first waiting call is settled. *)
Definition settled_first (w w' : Watch) (as_failed : bool) : Prop :=
  waiting w' = tail (waiting w) /\ started w' = false /\ settled w' = (settled w + 1)%N /\ failed w' = (failed w + one_if as_failed)%N /\
  unanswered w' = unanswered w /\ drafts w' = drafts w /\ adopted w' = adopted w.

(** A call ends settled, or it ends the turn; no reservation is left. *)
Definition dispatched (st : LoopState) (w : Watch) : Post V Watch ToolDispatchOutcome :=
  fun st' r w' => steady st st' /\ held w' = None /\
    match r with Ok d => interrupted d = false -> settled_first w w' (dispatch_failed d) | Err _ => True end.

Lemma race_wp (st : LoopState) w : held w = None -> wp (tool_terminal_race_outcome request) st w (dispatched st w).
Proof. intros Hh. unfold tool_terminal_race_outcome. wp_steps; [done..|]. use supersede_wp. after_end. by intros (-> & -> & ->). Qed.

Lemma emit_all_wp events (st : LoopState) w : wp (emit_all events) st w (fun st' _ w' => st' = st /\ w' = w).
Proof. revert st w. induction events as [|event events IH]; intros st w; cbn [emit_all]; wp_steps; [done| |done]. apply IH. Qed.

Lemma numbers_wp write (st : LoopState) w : wp (reserve_sequence_numbers write) st w (fun st' r w' => st' = st /\ w' = w /\ exists numbers, r = Ok numbers).
Proof. unfold reserve_sequence_numbers. wp_steps; by eauto. Qed.

Lemma settle_call_wp (reserved : bool) id tool write d (st : LoopState) w :
  head (waiting w) = Some id -> may_settle w write -> held w = (if reserved then Some false else None) ->
  (interrupted d = false -> settles_as_failed write = dispatch_failed d) ->
  wp (settle_call request reserved id tool write d) st w (dispatched st w).
Proof.
  intros Hhead Hmay Hheld Hd. unfold settle_call. wp_steps. use numbers_wp. after_end. intros (-> & -> & numbers & ->). wp_steps; try done.
  all: lazymatch goal with
    | |- TurnWatch.wp _ _ _ (emit_all _) _ _ _ =>
      use emit_all_wp; after_end; intros [-> ->]; destruct r; wp_steps; [|done]; do 2 (split; [done|]); intros Hi; rewrite <- (Hd Hi); done
    | |- _ => use race_wp; [after_end; done|done]
    end.
Qed.

(** A settlement the monitor allows. *)
Ltac allow := cbn [may_settle] in *; first [done | by left | by right; eexists | split; [done|by eexists] | by intros].
Ltac settle lemma := use lemma; try done; try allow.

Lemma settle_pending_wp id tool metadata (st : LoopState) w : head (waiting w) = Some id -> held w = None ->
  wp (settle_pending_tool_for_run_cause request id tool metadata) st w (dispatched st w).
Proof.
  intros Hhead Hh. unfold settle_pending_tool_for_run_cause. wp_steps.
  - settle settle_call_wp.
  - settle race_wp.
  - settle settle_call_wp.
  - settle race_wp.
Qed.

Lemma settle_executed_wp id tool metadata result_text r (st : LoopState) w : head (waiting w) = Some id -> held w = None -> started w = true ->
  wp (settle_executed_tool_for_run_cause request id tool metadata result_text r) st w (dispatched st w).
Proof.
  intros Hhead Hh Hs. unfold settle_executed_tool_for_run_cause. wp_steps.
  all: lazymatch goal with |- TurnWatch.wp _ _ _ (settle_call _ _ _ _ _ _) _ _ _ => settle settle_call_wp | |- _ => settle race_wp end.
Qed.

(** A poll may hand over the reservation of a denial. *)
Definition polled (st : LoopState) (w : Watch) : Post V Watch (result (ToolResult V) ToolFailure * option text) :=
  fun st' r w' => steady st st' /\ waiting w' = waiting w /\ settled w' = settled w /\ failed w' = failed w /\ unanswered w' = unanswered w /\
    drafts w' = drafts w /\ adopted w' = adopted w /\
    match r with
    | Ok (execution, _) => started w' = started w /\ held w' = if holds_settlement execution then Some false else None
    | Err _ => held w' = None
    end.

Lemma poll_tool_wp fuel multi_agent (st : LoopState) w : held w = None -> wp (poll_tool request fuel multi_agent) st w (polled st w).
Proof.
  revert st w. induction fuel as [|fuel IH]; intros st w Hh; [apply wp_out_of_fuel|]. cbn [poll_tool]. unfold count_guardian. wp_steps; try done.
  - by use IH.
  - use ensure_wp. after_end. intros (-> & Hq & Hr). destruct Hq as (? & ? & ? & ? & ? & ? & ? & ?). reduce_facts.
    destruct r; [subst w0; by use IH|]. unfold polled. split_and?; congruence || done.
Qed.

Lemma settle_execution_wp (call_ : PreparedModelToolCall V) metadata execution (st : LoopState) w :
  head (waiting w) = Some (prepared_id call_) -> started w = true -> held w = (if holds_settlement execution then Some false else None) ->
  wp (settle_execution build request call_ metadata execution) st w (dispatched st w).
Proof.
  intros Hhead Hs Hh. unfold settle_execution, with_settlement. wp_steps; cbn [holds_settlement] in *; try done.
  all: lazymatch goal with
    | |- TurnWatch.wp _ _ _ (settle_call _ _ _ _ _ _) _ _ _ => settle settle_call_wp
    | |- TurnWatch.wp _ _ _ (settle_executed_tool_for_run_cause _ _ _ _ _ _) _ _ _ => settle settle_executed_wp
    | |- TurnWatch.wp _ _ _ (settle_pending_tool_for_run_cause _ _ _ _) _ _ _ => settle settle_pending_wp
    | |- _ => idtac end.
  - by destruct (is_empty (change_summaries a)).
  - by destruct (is_empty (change_summaries a)).
  - right. cbn. destruct ans; [by eexists|done].
Qed.

Lemma handle_tool_call_wp fuel (call_ : PreparedModelToolCall V) (st : LoopState) w :
  held w = None -> head (waiting w) = Some (prepared_id call_) -> started w = false -> fresh w = true ->
  wp (handle_tool_call build request validate_call_effect fuel call_) st w (dispatched st w).
Proof.
  intros Hh Hhead Hs Hf. unfold handle_tool_call, with_settlement. wp_steps; try done.
  - settle settle_call_wp.
  - settle settle_pending_wp.
  - use renew_wp. after_end. intros (-> & Hq & Hr). destruct r as [[]|e]; [subst w0|by split; [|split; [rewrite (proj1 Hq)|]]].
    wp_steps.
    use poll_tool_wp; [|done]. after_end. intros (Hst & Hw & Hse & Hfa & Hun & Hdr & Had & Hr). destruct r as [[execution diagnostic]|e]; [|done].
    destruct Hr as [Hs' Hh']. reduce_facts.
    wp_steps. use ensure_wp. after_end. intros (-> & Hq' & Hr). destruct r as [[]|e]; wp_steps.
    + subst w1. use settle_execution_wp; [|congruence..]. after_end. intros (Hst' & Hh'' & Hr'). split; [by eauto with turn|]. split; [done|].
      destruct r as [d|e]; [|done]. intros Hi. destruct (Hr' Hi) as (? & ? & ? & ? & ? & ? & ?). unfold settled_first. split_and?; congruence.
    + destruct Hq' as [Hq' _]. split; [congruence|done].
    + done.
    + destruct Hq' as [Hq' _]. split; [done|]. split; [congruence|done].
Qed.
End Tools.
