(* ===== verification/TurnRounds.v ===== *)
(** * The rounds of a turn keep its monitor (src/src/agent/mod.rs)

    Compaction, sampling, the tools of an answer and the end of a turn by the rules of [TurnWatch]; the invariant of the
    loop, and with it [run_inner]. *)
From S2P Require Import Prelude.
From S2P Require Import Text.
From S2P Require Import TurnOutcome.
From S2P Require Import RunControl.
From S2P Require Import Json.
From S2P Require Import PermissionFence.
From S2P Require Import ContextWindow.
From S2P Require Import ClmCheckpoint.
From S2P Require Import History.
From S2P Require Import ProtocolStore.
From S2P Require Import SourceRecords.
From S2P Require Import ContextManager.
From S2P Require Import ContextTokens.
From S2P Require Import ProtocolContext.
From S2P Require Import ProviderStream.
From S2P Require Import ChatClient.
From S2P Require Import Prog.
From S2P Require Import TurnCalls.
From S2P Require Import TurnEnds.
From S2P Require Import TurnModel.
From S2P Require Import TurnCompaction.
From S2P Require Import TurnLoop.
From S2P Require Import TurnWatch.

From S2P Require Import TurnFacts.

Open Scope nat_scope.

Section Compacting.
Context {V : Type} `{JsonValue V} `{EqDecision V} `{Ulid} `{HashIteration} (services : Services V) (json_to_string : V -> text).
Context (request : TurnRequest) (prompt : TurnPrompt V) (compaction_prompt : text) (provisional_id : HistoryItemId) (base_calls base_failed : N).
Local Abbreviation wp := (wp fact_of next (allowed base_calls base_failed)) (only parsing).
Local Abbreviation LoopState := (LoopState V) (only parsing).

(** At most [n] more requests for a summary were sent. *)
Definition drafting (n : nat) (w w' : Watch) : Prop :=
  held w' = held w /\ waiting w' = waiting w /\ started w' = started w /\ settled w' = settled w /\ failed w' = failed w /\
  unanswered w' = unanswered w /\ adopted w' = adopted w /\ drafts w' <= n + drafts w.
Definition drafts_only {A} (n : nat) (st : LoopState) (w : Watch) : Post V Watch A := fun st' _ w' => steady st st' /\ drafting n w w'.
Lemma quiet_drafting n w w' : quiet w w' -> drafting n w w'.
Proof. unfold quiet, drafting. intuition lia. Qed.
Lemma drafting_trans m n a b c : drafting m a b -> drafting n b c -> drafting (n + m) a c.
Proof. unfold drafting. intuition (congruence || lia). Qed.

Lemma drafts_only_trans {A} m n k st st1 w w1 st' (r : result A AgentError) w' : steady st st1 -> drafting m w w1 -> n + m <= k ->
  drafts_only n st1 w1 st' r w' -> drafts_only k st w st' r w'.
Proof. intros Hs Hm Hk [Hs' Hn]. split; [by eauto with turn|]. pose proof (drafting_trans _ _ _ _ _ Hm Hn) as Hd. unfold drafting in *. intuition lia. Qed.

(** No reservation, no open call and no open request. *)
Definition at_rest (w : Watch) : Prop := held w = None /\ waiting w = [] /\ unanswered w = false.
Lemma drafting_rest n w w' : drafting n w w' -> at_rest w -> at_rest w'.
Proof. unfold drafting, at_rest. intuition congruence. Qed.
Lemma quiet_rest w w' : quiet w w' -> at_rest w -> at_rest w'.
Proof. unfold quiet, at_rest. intuition congruence. Qed.

Lemma account_wp usage (st : LoopState) w : wp (account_goal request usage) st w (fun st' _ w' => st' = st /\ w' = w).
Proof. unfold account_goal. by wp_steps. Qed.
Lemma announce_wp sent status (st : LoopState) w : wp (announce sent status) st w (fun st' _ w' => st' = st /\ w' = w).
Proof. unfold announce. by wp_steps. Qed.
Lemma diagnose_wp {A} o e (st : LoopState) w : wp (diagnose o e (A := A)) st w (fun st' r w' => st' = st /\ w' = w /\ r = Err e).
Proof. unfold diagnose. by wp_steps. Qed.

Lemma compaction_permit_wp (st : LoopState) w : wp (wait_for_compaction_permit request) st w (fun st' _ w' => st' = st /\ w' = w).
Proof. unfold wait_for_compaction_permit. wp_steps; [done|..|done]; use (diagnose_wp (A := unit)); after_end; by intros (-> & -> & ->). Qed.

Lemma failed_request_wp error (st : LoopState) w : wp (failed_compaction_request request error) st w (drafts_only 0 st w).
Proof.
  unfold failed_compaction_request. wp_steps; try by repeat split.
  use account_wp. after_end. intros [-> ->]. destruct r; wp_steps; by repeat split.
Qed.

Lemma judge_wp local response collector (st : LoopState) w : wp (judge_summary request local response collector) st w (drafts_only 0 st w).
Proof.
  unfold judge_summary. wp_steps; try by repeat split.
  all: use (diagnose_wp (A := CompactionSummaryOutcome)); after_end; intros (-> & -> & ->); by repeat split.
Qed.
Lemma run_request_wp sent (st : LoopState) w : at_rest w -> drafts w < 2 ->
  wp (run_compaction_request json_to_string request sent) st w (drafts_only 1 st w).
Proof.
  intros (Hh & Hw & Hu) Hd. unfold run_compaction_request. wp_steps. use announce_wp. after_end. intros [-> ->]. destruct r; wp_steps; [|by repeat split; lia].
  use renew_wp. after_end. intros (-> & Hq & Hr). destruct r as [[]|e]; wp_steps.
  2: { use (diagnose_wp (A := CompactionSummaryOutcome)). after_end. intros (-> & -> & ->). split; [done|by apply quiet_drafting]. }
  subst w0. use compaction_permit_wp. after_end. intros [-> ->]. destruct r; wp_steps.
  - use account_wp. after_end. intros [-> ->].
    assert (forall st' (r' : result CompactionSummaryOutcome AgentError) w', drafts_only 0 st (next w (Requested (V := V) true)) st' r' w' -> drafts_only 1 st w st' r' w') as Hl.
    { intros st' r' w'. apply drafts_only_trans with 1; [done| |done]. by repeat split. }
    destruct r; [use judge_wp|use (diagnose_wp (A := CompactionSummaryOutcome))]; after_end; [apply Hl|intros (-> & -> & ->); apply Hl; by repeat split].
  - use failed_request_wp. after_end. apply drafts_only_trans with 1; [done| |done]. by repeat split.
  - use (diagnose_wp (A := CompactionSummaryOutcome)). after_end. intros (-> & -> & ->). split; [done|]. by apply quiet_drafting.
  - split; [done|]. by apply quiet_drafting.
Qed.

Lemma summarize_wp template (st : LoopState) w : at_rest w -> drafts w < 2 ->
  wp (summarize_compaction_history json_to_string request compaction_prompt template) st w (drafts_only 1 st w).
Proof. intros Hr Hd. unfold summarize_compaction_history. wp_steps. use run_request_wp; [|done..]. after_end. intros Hp. by wp_steps. Qed.

Lemma from_fallible_wp {A} (m : fallible A) (st : LoopState) w : wp (from_fallible m) st w (fun st' _ w' => st' = st /\ w' = w).
Proof. destruct m as [[a|e]|]; [by split..|done]. Qed.

Lemma draft_of_wp item_ids users summary gap (st : LoopState) w : wp (draft_of item_ids users summary gap) st w (fun st' _ w' => st' = st /\ w' = w).
Proof. unfold draft_of. by wp_steps. Qed.

Lemma retry_units_wp template step units excluded failed_count tokens gap (st : LoopState) w :
  wp (retry_units services json_to_string request prompt compaction_prompt provisional_id template step units excluded failed_count tokens gap) st w
     (fun st' _ w' => st' = st /\ w' = w).
Proof. unfold retry_units. wp_steps. apply from_fallible_wp. Qed.
Lemma drafts_now {A} n (st : LoopState) w (r : result A AgentError) : drafts_only n st w st r w.
Proof. split; [done|by apply quiet_drafting]. Qed.

Lemma draft_compaction_wp template step units excluded retries gap selected (st : LoopState) w : at_rest w -> drafts w + S retries <= 2 ->
  wp (draft_compaction services json_to_string request prompt compaction_prompt provisional_id template step units excluded retries gap selected) st w
     (drafts_only (S retries) st w).
Proof.
  revert gap selected st w. induction retries as [|retries IH]; intros gap selected st w Hr Hd; cbn [draft_compaction]; wp_steps; try apply drafts_now.
  all: use from_fallible_wp; after_end; intros [-> ->]; destruct r as [sent|e]; [|apply drafts_now]; wp_steps.
  all: use summarize_wp; [|done|lia]; after_end; intros [Hst Hdr]; assert (at_rest w0) as Hr0 by (by apply (drafting_rest 1 w)).
  all: assert (forall st' (r' : result (option CompactionDraft) AgentError) w' k, drafts_only k st0 w0 st' r' w' -> drafts_only (S k) st w st' r' w') as Hl
         by (intros st' r' w' k; by apply drafts_only_trans with 1; [..|lia]).
  all: destruct r as [outcome|e]; [|apply (Hl _ _ _ 0), drafts_now || apply (Hl _ _ _ (S retries)), drafts_now]; wp_steps.
  all: try (use draft_of_wp; after_end; intros [-> ->]; destruct r; wp_steps).
  all: try (apply (Hl _ _ _ 0), drafts_now || apply (Hl _ _ _ (S retries)), drafts_now).
  all: use retry_units_wp; after_end; intros [-> ->]; destruct r as [[count|]|e]; wp_steps; try apply (Hl _ _ _ (S retries)), drafts_now.
  all: use IH; [|done|unfold drafting in Hdr; lia]; after_end; apply Hl.
Qed.
(** At most two requests for a summary, and at most one compaction. *)
Definition compacting (w w' : Watch) : Prop :=
  at_rest w' /\ started w' = started w /\ settled w' = settled w /\ failed w' = failed w /\ drafts w' <= 2.
Definition compacts {A} (st : LoopState) (w : Watch) : Post V Watch A := fun st' _ w' => steady st st' /\ compacting w w'.

Lemma adopt_wp template excluded draft (st : LoopState) w : at_rest w -> adopted w = false -> drafts w <= 2 ->
  wp (adopt_draft services json_to_string request provisional_id template excluded draft) st w (compacts st w).
Proof.
  intros (Hh & Hw & Hu) Ha Hd. unfold adopt_draft, draft_usable, commit_draft. wp_steps; try by repeat split; auto.
  all: try (use (diagnose_wp (A := bool)); after_end; intros (-> & -> & ->)); repeat split; cbn; auto.
Qed.

Lemma compact_context_wp template step excluded (st : LoopState) w : at_rest w -> adopted w = false -> drafts w = 0 ->
  wp (compact_context services json_to_string request prompt compaction_prompt provisional_id template step excluded) st w (compacts st w).
Proof.
  intros Hr Ha Hd. unfold compact_context, select_units. wp_steps; [split; [done|]; split; [done|]; repeat split; lia|].
  use from_fallible_wp. after_end. intros [-> ->]. destruct r as [selected|e]; [|split; [done|]; split; [done|]; repeat split; lia]. wp_steps.
  use draft_compaction_wp; [|done|lia]. after_end. intros [Hst Hdr]. pose proof (drafting_rest _ _ _ Hdr Hr) as Hr0. destruct Hdr as (_ & _ & ? & ? & ? & _ & ? & ?).
  assert (compacts st w st0 (Ok true) w0) as Hc by (split; [done|]; split; [done|]; repeat split; (congruence || lia)).
  destruct r as [[draft|]|e]; wp_steps; [|apply Hc..].
  use adopt_wp; [|done|congruence|lia]. after_end. intros [? (? & ? & ? & ? & ?)]. split; [by eauto with turn|]. split; [done|]. repeat split; (congruence || lia).
Qed.

(** ** The compaction of the model *)

Lemma refresh_wp (st : LoopState) w : wp (refresh_context_page services request) st w (fun st' _ w' => steady st st' /\ w' = w).
Proof. unfold refresh_context_page. wp_steps; by repeat split. Qed.

Definition quietly {A} (st : LoopState) (w : Watch) : Post V Watch A := fun st' _ w' => steady st st' /\ quiet w w'.

Lemma commit_model_wp event (st : LoopState) w : at_rest w -> wp (commit_model_compaction services request event) st w (quietly st w).
Proof.
  intros (Hh & Hw & Hu). unfold commit_model_compaction. wp_steps; try by repeat split.
  use ensure_wp. after_end. intros (-> & Hq & Hr). destruct r as [[]|e]; [subst w0|]; wp_steps; try done; try (by unfold quiet in *; intuition).
  all: use refresh_wp; after_end; intros [Hst ->]; lazymatch goal with |- match ?r with Ok _ => _ | Err _ => _ end => destruct r end; wp_steps; by repeat split; try apply Hst.
Qed.

Lemma apply_model_wp before summary ids (st : LoopState) w : at_rest w ->
  wp (apply_model_compaction services request provisional_id before summary ids) st w (quietly st w).
Proof. intros Hr. unfold apply_model_compaction, reject_model_compaction. wp_steps; try by repeat split. by use commit_model_wp. Qed.
End Compacting.

Section Sampling.
Context {V : Type} `{JsonValue V} `{EqDecision V} `{Ulid} `{HashIteration} (services : Services V) (json_to_string : V -> text).
Context (request : TurnRequest) (prompt : TurnPrompt V) (compaction_prompt : text) (provisional_id : HistoryItemId) (base_calls base_failed : N).
Local Abbreviation wp := (wp fact_of next (allowed base_calls base_failed)) (only parsing).
Local Abbreviation LoopState := (LoopState V) (only parsing).

(** What an unfinished request leaves. *)
Definition left_over (w w' : Watch) : Prop :=
  held w' = held w /\ waiting w' = waiting w /\ started w' = started w /\ settled w' = settled w /\ failed w' = failed w /\
  drafts w' = drafts w /\ adopted w' = adopted w.
Definition requested {A} (st : LoopState) (w : Watch) : Post V Watch (option A) :=
  fun st' r w' => steady st st' /\ left_over w w' /\ match r with Ok (Some _) => unanswered w' = true | _ => True end.
Lemma quiet_left w w' : quiet w w' -> left_over w w'.
Proof. unfold quiet, left_over. intuition. Qed.

Lemma left_trans a b c : left_over a b -> left_over b c -> left_over a c.
Proof. unfold left_over. intuition congruence. Qed.

Lemma permit_wp (st : LoopState) w : wp (wait_for_permit request) st w (fun st' _ w' => st' = st /\ w' = w).
Proof. unfold wait_for_permit. by wp_steps. Qed.

Lemma poll_stream_wp fuel (st : LoopState) w : unanswered w = true -> wp (poll_stream request fuel) st w (requested st w).
Proof.
  revert st w. induction fuel as [|fuel IH]; intros st w Hu; [apply wp_out_of_fuel|]. cbn [poll_stream]. wp_steps; try by repeat split.
  use ensure_wp. after_end. intros (-> & Hq & Hr). destruct r as [[]|e]; [subst w0; by use IH|]. split; [done|]. split; [|done]. by apply quiet_left in Hq.
Qed.

Lemma execute_wp fuel sent (st : LoopState) w : at_rest w -> wp (execute_model_request request fuel sent) st w (requested st w).
Proof.
  intros (Hh & Hw & Hu). unfold execute_model_request. wp_steps. use permit_wp. after_end. intros [-> ->]. destruct r; wp_steps; try by repeat split.
  by use poll_stream_wp.
Qed.

Lemma fail_request_wp {A} error (st : LoopState) w : wp (fail_request request error (A := A)) st w (fun st' r w' => steady st st' /\ w' = w /\ exists e, r = Err e).
Proof.
  unfold fail_request. wp_steps; try by (split; [done|]; split; [done|]; eexists).
  use account_wp. after_end. intros [-> ->]. destruct r; wp_steps; (split; [done|]; split; [done|]; by eexists).
Qed.

Lemma sample_wp fuel step prepared status (st : LoopState) w : at_rest w -> wp (sample request fuel step prepared status) st w (requested st w).
Proof.
  intros Hr. unfold sample. wp_steps; [|by repeat split]. use announce_wp. after_end. intros [-> ->]. destruct r; wp_steps; [|by repeat split].
  use renew_wp. after_end. intros (-> & Hq & He). destruct r as [[]|e]; [subst w0|split; [done|]; split; [by apply quiet_left|done]]. wp_steps.
  use execute_wp; [|done]. after_end. intros (Hst & Hl & Hu). destruct r as [[[response collector]|]|e]; wp_steps; [|by split..].
  use ensure_wp. after_end. intros (-> & Hq' & He). apply quiet_left in Hq'. pose proof (left_trans _ _ _ Hl Hq') as Hl'. destruct r as [[]|e]; [subst w1|by split]. wp_steps.
  - use account_wp. after_end. intros [-> ->]. destruct r; wp_steps; by split.
  - use fail_request_wp. after_end. intros (Hst' & -> & e' & ->). split; [|by split]. apply steady_trans with st0; [done|]. by apply steady_trans with (2 := Hst').
Qed.

(** ** Committing the answer *)

Lemma identify_wp calls (st : LoopState) w :
  wp (identify_calls calls) st w (fun st' r w' => st' = st /\ w' = w /\ exists raw, r = Ok raw /\ map snd raw = calls).
Proof.
  revert st w. induction calls as [|c calls IH]; intros st w; cbn [identify_calls]; wp_steps; [by eauto|].
  use IH. after_end. intros (-> & -> & raw & -> & <-). wp_steps. by eauto.
Qed.
Lemma writes_wp calls (st : LoopState) w :
  wp (pending_writes calls) st w (fun st' r w' => st' = st /\ w' = w /\ exists writes, r = Ok writes /\ map pending_id writes = map fst calls).
Proof.
  revert st w. induction calls as [|[id c] calls IH]; intros st w; cbn [pending_writes]; wp_steps; [by eauto|].
  use IH. after_end. intros (-> & -> & writes & -> & Hm). wp_steps. repeat split. eexists. split; [done|]. cbn. by rewrite Hm.
Qed.

(** The calls of the answer wait. *)
Definition answered (calls : list ToolCallId) (w w' : Watch) : Prop :=
  held w' = None /\ settled w' = settled w /\ failed w' = failed w /\ waiting w' = calls /\ started w' = false /\ unanswered w' = false /\
  drafts w' = 0 /\ adopted w' = false.

Lemma record_wp response_id answer_text raw (st : LoopState) w : held w = None -> waiting w = [] -> unanswered w = true ->
  wp (record_answer request response_id answer_text raw) st w (fun st' r w' => st' = st /\ held w' = None /\
    match r with Ok _ => answered (map fst raw) w w' | Err _ => True end).
Proof.
  intros Hh Hw Hu. unfold record_answer. wp_steps.
  all: use writes_wp; after_end; intros (-> & -> & writes & -> & Hm); wp_steps; try done.
  all: use emit_all_wp; after_end; intros [-> ->]; repeat split; destruct r; try done; repeat split; done.
Qed.
End Sampling.

Section Rounds.
Context {V : Type} `{JsonValue V} `{EqDecision V} `{Ulid} `{HashIteration} (services : Services V) (json_to_string : V -> text) (build : JsonBuild V).
Context {Child : Type}.
Context (request : TurnRequest) (prompt : TurnPrompt V) (compaction_prompt : text) (provisional_id : HistoryItemId).
Context (parse_tool_arguments : text -> result V text) (validate_shallow_schema : text -> V -> list (ToolSchema V) -> result V text).
Context (validate_call_effect : text -> V -> option text) (parse_summary : V -> result text text) (llm_public_message : LlmError -> text).
Context (shared_run : option (SharedRun V Child)) (error_text : AgentError -> text) (base_calls base_failed : N).
Local Abbreviation wp := (wp fact_of next (allowed base_calls base_failed)) (only parsing).
Local Abbreviation LoopState := (LoopState V) (only parsing).

(** ** The invariant of the loop *)

(** The counters count what was settled. *)
Definition counted (st : LoopState) (w : Watch) : Prop :=
  tool_call_count (counters st) = (base_calls + settled w)%N /\ failed_tool_count (counters st) = (base_failed + failed w)%N.
Definition untouched (w : Watch) : Prop := drafts w = 0 /\ adopted w = false.
(** Behind a compaction attempt the next request comes without another one. *)
Definition must_ask (st : LoopState) : Prop := must_sample_without_compaction st = true /\ pre_turn_compaction_item_id st = None.
Definition loop_invariant (st : LoopState) (w : Watch) : Prop := at_rest w /\ counted st w /\ (untouched w \/ must_ask st).

Definition ended_well (o : AgentRunOutcome Child) (w : Watch) : Prop :=
  held w = None /\
  match o with
  | RunCompleted summary => stored_summary request w summary
  | RunYielded proposal => waiting w = [yield_call proposal] /\ started w = false /\ unanswered w = false
  end.
Definition flows : Post V Watch (Flow Child) :=
  fun st r w => match r with Ok Again => loop_invariant st w | Ok (Ended o) => ended_well o w | Err _ => held w = None end.
Definition ends : Post V Watch (AgentRunOutcome Child) := fun st r w => match r with Ok o => ended_well o w | Err _ => held w = None end.

Lemma finish_wp (st : LoopState) w : held w = None -> wp (finish request) st w flows.
Proof.
  intros Hh. unfold finish. wp_steps. use finish_cause_wp; [|done]. after_end. intros (-> & Hq & Hs). apply quiet_held in Hq; [|done].
  destruct r as [s|e]; wp_steps; [|done]. split; [done|by apply Hs].
Qed.

(** ** The end of a successful turn *)

Lemma conclude_wp summary (st : LoopState) w : held w = Some true -> stored_summary request w summary -> wp (conclude summary) st w flows.
Proof.
  intros Hh (terminal & Ht & ->). unfold conclude, ended. wp_steps. use resolve_wp; [|done]. after_end. intros (-> & -> & Hn & Hs). wp_steps. split; [done|].
  exists terminal. by rewrite Hs.
Qed.
Lemma abandon_wp {A} c e (st : LoopState) w : held w = Some true -> wp (abandon c e (A := A)) st w (fun st' r w' => held w' = None /\ r = Err e).
Proof. intros Hh. unfold abandon. by wp_steps. Qed.

Lemma resolve_failed_wp e (st : LoopState) w : held w = Some true -> wp (resolve_failed_commit request error_text e) st w flows.
Proof.
  intros Hh. unfold resolve_failed_commit, abandon_failure. wp_steps. use durable_wp. after_end. intros (-> & Hq & Hs).
  assert (held w0 = Some true) as Hh0 by (destruct Hq; congruence).
  destruct r as [[s|]|e']; cbv iota; [apply conclude_wp; [done|by apply Hs]|..]; use (abandon_wp (A := Flow Child)); try done; after_end; by intros [? ->].
Qed.
Lemma resolve_lost_wp (st : LoopState) w : held w = Some true -> wp (resolve_lost_commit request error_text) st w flows.
Proof.
  intros Hh. unfold resolve_lost_commit, abandon_failure. wp_steps. use durable_wp. after_end. intros (-> & Hq & Hs).
  assert (held w0 = Some true) as Hh0 by (destruct Hq; congruence).
  destruct r as [[s|]|e']; cbv iota; [apply conclude_wp; [done|by apply Hs]|..]; use (abandon_wp (A := Flow Child)); try done; after_end; by intros [? ->].
Qed.

Lemma commit_success_wp terminal (st : LoopState) w : at_rest w -> outcome terminal = OutcomeCompleted ->
  terminal_tool_call_count terminal = (base_calls + settled w)%N -> terminal_failed_tool_count terminal = (base_failed + failed w)%N ->
  wp (commit_success request error_text terminal) st w flows.
Proof.
  intros (Hh & Hw & Hu) Ho Ht Hf. unfold commit_success, ended. wp_steps.
  all: try (unfold may_write; rewrite Ho; repeat split; done).
  - use resolve_wp; [|done]. after_end. intros (-> & -> & Hn & Hs). wp_steps. split; [done|]. by exists terminal0.
  - apply conclude_wp; [done|by eexists].
  - by apply resolve_lost_wp.
  - by apply resolve_failed_wp.
  - by apply finish_wp.
Qed.

Lemma finish_answer_wp pending (st : LoopState) w : at_rest w -> counted st w -> untouched w ->
  wp (finish_answer services request error_text pending) st w flows.
Proof.
  intros Hr Hc Hun. unfold finish_answer. destruct pending; wp_steps; [by repeat split; [apply Hr..|apply Hc|apply Hc|left]|].
  use refresh_wp. after_end. intros [Hst ->].
  assert (forall st', steady st0 st' -> loop_invariant st' w) as Hi.
  { intros st' Hst'. split; [done|]. split; [|by left]. unfold counted, steady in *. cbn in *. intuition congruence. }
  wp_steps; try by apply Hi. all: try apply Hr.
  all: use terminal_wp; after_end; intros (-> & -> & terminal & -> & Ho & Ht & Hf); wp_steps.
  all: destruct Hst as (Ht' & Hf' & _), Hc as [Hc Hc']; cbn in Ht', Hf'; apply commit_success_wp; [done|done|congruence|congruence].
Qed.

(** ** The tools of an answer *)

Definition tools_done : Post V Watch (Flow Child + option text) :=
  fun st r w => match r with
  | Ok (inr _) => at_rest w /\ counted st w /\ untouched w
  | Ok (inl flow) => flows st (Ok flow) w
  | Err _ => held w = None
  end.

Lemma after_dispatch_wp name d (st : LoopState) w : held w = None ->
  wp (after_dispatch request name d) st w (fun st' r w' => match r with
    | Ok (Some flow) => flows st' (Ok flow) w'
    | Ok None => interrupted d = false /\ quiet w w' /\ tool_call_count (counters st') = tool_call_count (counters st) /\
        failed_tool_count (counters st') = (failed_tool_count (counters st) + one_if (dispatch_failed d))%N
    | Err _ => held w' = None end).
Proof.
  intros Hh. unfold after_dispatch. wp_steps; try done.
  all: try (use ensure_wp; after_end; intros (-> & Hq & Hr); destruct r as [[]|e]; wp_steps; [subst w0; cbn; repeat split; lia|by apply quiet_held in Hq]).
  use finish_wp; [|done]. after_end. intros Hf. destruct r; by wp_steps.
Qed.

Lemma proposed_wp (call_ : PreparedModelToolCall V) d summary (st : LoopState) w :
  wp (proposed_summary parse_summary call_ d summary) st w (fun st' _ w' => st' = st /\ w' = w).
Proof. unfold proposed_summary. by wp_steps. Qed.

Lemma set_activity_wp activity (st : LoopState) w : wp (set_activity request activity) st w (fun st' _ w' => st' = st /\ w' = w).
Proof. unfold set_activity. by wp_steps. Qed.

Lemma run_tools_wp fuel calls summary (st : LoopState) w : held w = None -> waiting w = map prepared_id calls -> started w = false ->
  unanswered w = false -> counted st w -> untouched w ->
  wp (run_tools build request validate_call_effect parse_summary fuel calls summary) st w tools_done.
Proof.
  revert summary st w. induction calls as [|call_ calls IH]; intros summary st w Hh Hw Hs Hu Hc Hun; cbn [run_tools]; wp_steps; [done| |].
  - use finish_wp; [|done]. after_end. intros Hf. destruct r; by wp_steps.
  - use ensure_wp. after_end. intros (-> & Hq & Hr). destruct r as [[]|e]; [subst w0|by apply quiet_held in Hq]. wp_steps.
    use set_activity_wp. after_end. intros [-> ->]. destruct r as [[]|e]; [|done]. wp_steps. cbn [map] in Hw.
    use handle_tool_call_wp; [|reduce_facts; first [done|by rewrite Hw]..]. after_end. intros (Hst & Hh' & Hd). destruct r as [d|e]; [|done]. wp_steps.
    use proposed_wp. after_end. intros [-> ->]. destruct r as [summary'|e]; [|done]. wp_steps.
    use after_dispatch_wp; [|done]. after_end. intros Ha. destruct r as [[flow|]|e]; wp_steps; [done| |done]. destruct Ha as (Hi & Hq' & Ht & Hf).
    destruct (Hd Hi) as (Hw1 & Hs1 & Hse & Hfa & Hu1 & Hd1 & Ha1). reduce_facts. destruct Hq' as (Eh & Ew & Es & Ese & Ef & Eu & Ed & Ea).
    destruct Hst as (Ht0 & Hf0 & _), Hc as [Hc Hc'], Hun. cbn in Ht0, Hf0. rewrite Hw in Hw1. cbn in Hw1.
    apply IH; try congruence; split; try congruence; rewrite ?Ht, ?Hf, ?Ht0, ?Hf0, ?Ese, ?Ef; lia.
Qed.
Lemma delegation_id shared (calls : list (PreparedModelToolCall V)) id child_ :
  delegation (Child := Child) shared calls = Some (id, child_) -> map prepared_id calls = [id].
Proof.
  unfold delegation. destruct calls as [|only [|]]; try done. destruct (prepared_tool only), (validation_error only); try done. by intros [= <- _].
Qed.

Lemma yield_wp retained calls (st : LoopState) w : held w = None -> unanswered w = false -> waiting w = map prepared_id calls -> started w = false ->
  wp (yield_to_child request shared_run retained calls) st w (fun st' r w' => match r with
    | Ok (Some flow) => flows st' (Ok flow) w' | Ok None => st' = st /\ quiet w w' | Err _ => held w' = None end).
Proof.
  intros Hh Hu Hw Hs. unfold yield_to_child. wp_steps; try by repeat split.
  all: use ensure_wp; after_end; intros (-> & Hq & Hr); destruct r as [[]|e]; [subst w0|by apply quiet_held in Hq]; wp_steps.
  all: repeat split; try done; cbn; rewrite Hw; by eapply delegation_id.
Qed.

(** ** The input of a round *)

Lemma communications_wp fuel delivered (st : LoopState) w :
  wp (commit_pending_agent_communications request fuel delivered) st w (fun st' _ w' => st' = st /\ w' = w).
Proof.
  revert delivered. induction fuel as [|fuel IH]; intros delivered; [apply wp_out_of_fuel|]. cbn [commit_pending_agent_communications]. wp_steps; try done. all: apply IH.
Qed.
Lemma deliver_mail_wp fuel (st : LoopState) w : wp (deliver_mail request fuel) st w (fun st' _ w' => st' = st /\ w' = w).
Proof. unfold deliver_mail. wp_steps; try done. apply communications_wp. Qed.

Definition core_of (st : LoopState) : N * N * option HistoryItemId :=
  (tool_call_count (counters st), failed_tool_count (counters st), pre_turn_compaction_item_id st).

Lemma drain_wp fuel (st : LoopState) w :
  wp (drain_pending_input request fuel) st w (fun st' r w' => w' = w /\ core_of st' = core_of st /\
    match r with
    | Ok true => must_sample_without_compaction st' = true
    | Ok false => must_sample_without_compaction st' = must_sample_without_compaction st
    | Err _ => True
    end).
Proof.
  unfold drain_pending_input. wp_steps; try done.
  all: use deliver_mail_wp; after_end; intros [-> ->]; destruct r; by wp_steps.
Qed.

(** ** Compaction *)

Lemma unavailable_wp (st : LoopState) w : wp compaction_unavailable st w (fun st' r w' => steady st st' /\ w' = w).
Proof. unfold compaction_unavailable. by wp_steps. Qed.
Lemma failed_usage_wp e (st : LoopState) w : wp (note_failed_usage e) st w (fun st' r w' => steady st st' /\ w' = w).
Proof. unfold note_failed_usage. by wp_steps. Qed.

Definition attempted (st : LoopState) (w : Watch) : Post V Watch bool :=
  fun st' r w' => compacting w w' /\ core_of st' = core_of st /\ match r with Ok true => must_sample_without_compaction st' = true | _ => True end.

Lemma steady_core (st st' : LoopState) : steady st st' -> core_of st' = core_of st.
Proof. unfold steady, core_of. intros (-> & -> & _ & ->). done. Qed.

Lemma attempt_wp template step pre_turn status (st : LoopState) w : at_rest w -> untouched w ->
  wp (attempt_compaction services json_to_string request prompt compaction_prompt provisional_id template step pre_turn status) st w (attempted st w).
Proof.
  intros Hr [Hd Ha]. unfold attempt_compaction. wp_steps. use compact_context_wp; [|done..]. after_end. intros [Hst Hc]. pose proof (steady_core _ _ Hst) as Hco. wp_steps.
  - split; [done|]. split; [by destruct pre_turn|by destruct pre_turn].
  - by split.
  - use unavailable_wp. after_end. intros [Hst' ->]. apply steady_core in Hst'. destruct r; wp_steps; (split; [done|]; split; [congruence|done]).
  - use failed_usage_wp. after_end. intros [Hst' ->]. apply steady_core in Hst'. destruct r; wp_steps; try (split; [done|]; split; [congruence|done]).
    all: use unavailable_wp; after_end; intros [Hst'' ->]; apply steady_core in Hst''.
    all: lazymatch goal with |- match ?r with Ok _ => _ | Err _ => _ end => destruct r end; wp_steps; (split; [done|]; split; [congruence|done]).
Qed.

(** Behind the compaction of a round nothing is open, and what comes next is a request or another round. *)
Definition compacted_round (st : LoopState) (w : Watch) : Post V Watch bool :=
  fun st' r w' => at_rest w' /\ settled w' = settled w /\ failed w' = failed w /\
    tool_call_count (counters st') = tool_call_count (counters st) /\ failed_tool_count (counters st') = failed_tool_count (counters st) /\
    pre_turn_compaction_item_id st' = None /\
    match r with Ok true => must_sample_without_compaction st' = true | _ => True end.

Lemma compact_if_needed_wp step prepared (st : LoopState) w : at_rest w -> untouched w \/ must_ask st ->
  wp (compact_if_needed services json_to_string request prompt compaction_prompt provisional_id step prepared) st w (compacted_round st w).
Proof.
  intros Hr Ho. unfold compact_if_needed, status_of, chat_request_of. wp_steps; try by repeat split; apply Hr.
  all: use attempt_wp; [|done|]; [after_end; intros (Hc & Hco & Hm); destruct Hc as (? & _ & ? & ? & _); unfold core_of in Hco; cbn in Hco; injection Hco as ? ? ?; unfold compacted_round; split_and?; done|].
  all: destruct Ho as [Ho|[Hm Hp]]; [done|].
  - congruence.
  - exfalso. cbn in *. by rewrite Hm in *.
Qed.

(** ** Adopting a proposed summary *)

Lemma refresh_end_wp fuel (st : LoopState) w : wp (refresh_context_to_the_end services request fuel) st w (fun st' _ w' => steady st st' /\ w' = w).
Proof.
  revert st. induction fuel as [|fuel IH]; intros st; [apply wp_out_of_fuel|]. cbn [refresh_context_to_the_end]. wp_steps.
  use refresh_wp. after_end. intros [Hst ->]. wp_steps; [|done..]. use IH. after_end. intros [Hst' ->]. by eauto with turn.
Qed.

Lemma adopt_proposed_wp fuel step ids summary (st : LoopState) w : at_rest w ->
  wp (adopt_proposed_summary services json_to_string request prompt provisional_id fuel step ids summary) st w
     (fun st' _ w' => tool_call_count (counters st') = tool_call_count (counters st) /\ failed_tool_count (counters st') = failed_tool_count (counters st) /\ quiet w w').
Proof.
  intros Hr. unfold adopt_proposed_summary, chat_request_of, status_of. wp_steps. use refresh_end_wp. after_end. intros [(Ht & Hf & _) ->].
  wp_steps; try done. all: use apply_model_wp; [|done]; after_end; intros [(Ht' & Hf' & _) Hq]; wp_steps; split_and?; first [done|by rewrite <- Ht, <- Ht'|by rewrite <- Hf, <- Hf'].
Qed.

(** ** Rounds *)

Lemma act_wp fuel step ids calls (st : LoopState) w : held w = None -> waiting w = map prepared_id calls -> started w = false -> unanswered w = false ->
  counted st w -> untouched w ->
  wp (act services json_to_string build request prompt provisional_id validate_call_effect parse_summary shared_run fuel step ids calls) st w flows.
Proof.
  intros Hh Hw Hs Hu Hc Hun. unfold act. wp_steps. use yield_wp; [|done..]. after_end. intros Hy. destruct r as [[flow|]|e]; wp_steps; [done| |done].
  destruct Hy as [-> Hq]. destruct Hq as (Eh & Ew & Es & Ese & Ef & Eu & Ed & Ea).
  use run_tools_wp; [|congruence..| |]; [|unfold counted in *; cbn; by rewrite Ese, Ef|destruct Hun; split; congruence].
  after_end. intros Ht. destruct r as [[flow|summary]|e]; wp_steps; [done|..|done]; destruct Ht as (Hr & Hc' & Hun').
  - use adopt_proposed_wp; [|done]. after_end. intros (Ht & Hf & Hq). destruct r as [[]|e]; wp_steps; [|by apply quiet_held in Hq; [|apply Hr]].
    split; [by apply quiet_rest in Hq|]. destruct Hq as (_ & _ & _ & Ese' & Ef' & _ & Ed' & Ea').
    split; [|left; destruct Hun'; split; congruence]. destruct Hc'. split; cbn; congruence.
  - split; [done|]. by split; [|left].
Qed.

Lemma after_answer_counters response_id response sent messages ids calls (st : LoopState) :
  counters (after_answer json_to_string response_id response sent messages ids calls st) = counters st.
Proof. unfold after_answer. by destruct (continuation response), calls. Qed.

Lemma commit_and_act_wp fuel step messages prepared source_ids sent_ids response_id response collector (st : LoopState) w :
  held w = None -> waiting w = [] -> unanswered w = true -> counted st w ->
  wp (commit_and_act services json_to_string build request prompt provisional_id parse_tool_arguments validate_shallow_schema validate_call_effect
        parse_summary shared_run error_text fuel step messages prepared source_ids sent_ids response_id response collector) st w flows.
Proof.
  intros Hh Hw Hu Hc. unfold commit_and_act. wp_steps. use identify_wp. after_end. intros (-> & -> & raw & -> & Hraw). wp_steps.
  use record_wp; [|done..]. after_end. intros (-> & Hh' & Ha). destruct r as [[]|e]; [|done]. wp_steps; [..|done].
  all: destruct Ha as (_ & Hse & Hfa & Hw' & Hs' & Hu' & Hd' & Ha'); assert (untouched w0) as Hun by done.
  all: assert (counted (after_answer json_to_string response_id response prepared messages sent_ids (negb (is_empty (collected_tool_calls collector))) st) w0) as Hc'
         by (unfold counted; by rewrite after_answer_counters, Hse, Hfa).
  - apply finish_answer_wp; [|done..]. destruct raw; [done|discriminate].
  - apply act_wp; [done| |done..]. rewrite Hw', map_map. apply map_ext. by intros [].
Qed.

Lemma sample_and_act_wp fuel step messages prepared (st : LoopState) w : at_rest w -> counted st w ->
  wp (sample_and_act services json_to_string build request prompt provisional_id parse_tool_arguments validate_shallow_schema validate_call_effect
        parse_summary shared_run error_text fuel step messages prepared) st w flows.
Proof.
  intros Hr Hc. unfold sample_and_act, status_of. wp_steps; try apply Hr.
  all: use sample_wp; [|done]; after_end; intros (Hst & Hl & Hu); destruct Hl as (Eh & Ew & _ & Ese & Ef & _), Hr as (Hh & Hw & _).
  all: assert (held w0 = None) as Hh0 by congruence.
  all: destruct r as [[[[response_id response] collector]|]|e]; cbv iota; [|by apply finish_wp|done].
  all: wp_steps; try done; try by apply finish_wp.
  apply commit_and_act_wp; [done|cbn; congruence|done|]. destruct Hst as (Ht & Hf & _), Hc. split; cbn; congruence.
Qed.

Local Abbreviation the_round fuel := (round services json_to_string build request prompt compaction_prompt provisional_id parse_tool_arguments
  validate_shallow_schema validate_call_effect parse_summary shared_run error_text fuel) (only parsing).

Lemma prepare_and_sample_wp fuel (st : LoopState) w : loop_invariant st w ->
  wp (prepare_and_sample services json_to_string build request prompt compaction_prompt provisional_id parse_tool_arguments validate_shallow_schema
        validate_call_effect parse_summary shared_run error_text fuel) st w flows.
Proof.
  intros (Hr & Hc & Ho). unfold prepare_and_sample, chat_request_of. wp_steps; [|apply Hr].
  use set_activity_wp. after_end. intros [-> ->]. destruct r as [[]|e]; [|apply Hr]. wp_steps; [|apply Hr].
  use compact_if_needed_wp; [|done..]. after_end. intros (Hr' & Hse & Hfa & Ht & Hf & Hp & Hm).
  assert (counted st0 w0) as Hc' by (destruct Hc; split; congruence).
  destruct r as [[]|e]; wp_steps; [|..|apply Hr'].
  - split; [done|]. split; [done|]. by right.
  - use drain_wp. after_end. intros (-> & Hco & Hm'). injection Hco as Ht' Hf' Hp'. assert (counted st1 w0) as Hc'' by (destruct Hc'; split; congruence).
    destruct r as [[]|e]; wp_steps; [| |apply Hr'].
    + split; [done|]. split; [done|]. right. split; congruence.
    + by apply sample_and_act_wp.
Qed.

Lemma round_wp fuel (st : LoopState) w : loop_invariant st w -> wp (the_round fuel) st w flows.
Proof.
  intros (Hr & Hc & Ho). unfold round. wp_steps; [apply finish_wp; apply Hr|].
  use ensure_wp. after_end. intros (-> & Hq & He). destruct r as [[]|e]; [subst w0|apply quiet_held in Hq; [done|apply Hr]]. wp_steps.
  use refresh_wp. after_end. intros [(Ht & Hf & Hs & Hp) ->]. destruct r as [refreshed|e]; [|apply Hr].
  assert (forall st' : LoopState, tool_call_count (counters st') = tool_call_count (counters st0) -> failed_tool_count (counters st') = failed_tool_count (counters st0) ->
    must_sample_without_compaction st' = must_sample_without_compaction st0 -> pre_turn_compaction_item_id st' = pre_turn_compaction_item_id st0 ->
    loop_invariant st' (next w (Saw (V := V) false))) as Hi.
  { intros st' Ht' Hf' Hs' Hp'. split; [done|]. split; [destruct Hc; split; cbn; congruence|].
    destruct Ho as [Ho|[? ?]]; [by left|right; split; congruence]. }
  wp_steps; try by apply Hi. all: by apply prepare_and_sample_wp, Hi.
Qed.

Lemma rounds_wp fuel inner (st : LoopState) w : loop_invariant st w ->
  wp (rounds services json_to_string build request prompt compaction_prompt provisional_id parse_tool_arguments validate_shallow_schema
        validate_call_effect parse_summary shared_run error_text fuel inner) st w ends.
Proof.
  revert st w. induction fuel as [|fuel IH]; intros st w Hi; [apply wp_out_of_fuel|]. cbn [rounds]. wp_steps.
  use round_wp; [|done]. after_end. intros Hf. destruct r as [[|o]|e]; wp_steps; [by apply IH|done..].
Qed.

(** ** The end of a run *)

Lemma finish_run_wp (st : LoopState) w : held w = None -> wp (finish_run request) st w ends.
Proof.
  intros Hh. unfold finish_run. wp_steps. use finish_cause_wp; [|done]. after_end. intros (-> & Hq & Hs). apply quiet_held in Hq; [|done].
  destruct r as [s|e]; wp_steps; [|done]. split; [done|by apply Hs].
Qed.

Lemma supersede_ends (st : LoopState) w : held w = None -> wp (supersede_run request) st w ends.
Proof. intros Hh. use supersede_wp. after_end. by intros (-> & -> & ->). Qed.

Lemma settle_failure_wp e message (st : LoopState) w : held w = None -> cause w = Some (Failure message) ->
  wp (settle_failure request e message) st w ends.
Proof.
  intros Hh Hcause. unfold settle_failure. wp_steps. use terminal_wp. after_end. intros (-> & -> & terminal & -> & Ho & _). wp_steps.
  use settle_terminal_wp; [|unfold may_write; by rewrite Ho]. after_end. intros (-> & Hq & Hs). apply quiet_held in Hq; [|done]. destruct r as [settlement|e']; [|done].
  destruct settlement as [t|t|]; cbn [into_terminal] in *.
  - destruct (outcome t); wp_steps; try done; (split; [done|by exists t]).
  - wp_steps. split; [done|by exists t].
  - wp_steps. use durable_wp. after_end. intros (-> & Hq' & Hs'). apply quiet_held in Hq'; [|done]. destruct r as [[s|]|e']; wp_steps; [|by apply supersede_ends|done].
    split; [done|by apply Hs'].
Qed.

Lemma classify_failure_wp e (st : LoopState) w : held w = None -> wp (classify_failure request llm_public_message e) st w ends.
Proof.
  intros Hh. unfold classify_failure. wp_steps; try done; try by apply finish_run_wp. by apply settle_failure_wp.
Qed.

Lemma resolve_error_wp e (st : LoopState) w : held w = None -> wp (resolve_error request llm_public_message e) st w ends.
Proof.
  intros Hh. unfold resolve_error. wp_steps; try done.
  - by apply classify_failure_wp.
  - use classify_wp. after_end. intros [-> Hq]. apply quiet_held in Hq; [|done]. destruct r; wp_steps; [by apply finish_run_wp|done].
  - split; [done|by eexists].
Qed.

Lemma end_in_error_wp e (st : LoopState) w : held w = None -> wp (end_in_error request llm_public_message e) st w ends.
Proof.
  intros Hh. unfold end_in_error. wp_steps. use durable_wp. after_end. intros (-> & Hq & Hs). apply quiet_held in Hq; [|done].
  destruct r as [[s|]|e']; cbv iota; [split; [done|by apply Hs]| |done]. apply wp_then, wp_call. intros [|]; (split; [done|]); [by apply finish_run_wp|].
  destruct e; first [by apply resolve_error_wp|done].
Qed.

End Rounds.

(** ** The whole run *)

Section Run.
Context {V : Type} `{JsonValue V} `{EqDecision V} `{Ulid} `{HashIteration} (services : Services V) (json_to_string : V -> text) (build : JsonBuild V).
Context {Child : Type}.
Context (request : TurnRequest) (prompt : TurnPrompt V) (compaction_prompt : text) (provisional_id : HistoryItemId).
Context (parse_tool_arguments : text -> result V text) (validate_shallow_schema : text -> V -> list (ToolSchema V) -> result V text).
Context (validate_call_effect : text -> V -> option text) (parse_summary : V -> result text text) (llm_public_message : LlmError -> text).
Context (shared_run : option (SharedRun V Child)) (error_text : AgentError -> text).

(** The counts the run begins with. *)
Definition first_counts : Counters := match starting_progress shared_run with Ok progress => progress | Err _ => no_progress end.

Lemma run_inner_wp fuel inner (st : LoopState V) :
  wp fact_of next (allowed (tool_call_count first_counts) (failed_tool_count first_counts))
    (run_inner services json_to_string build request prompt compaction_prompt provisional_id parse_tool_arguments validate_shallow_schema
       validate_call_effect parse_summary llm_public_message shared_run error_text fuel inner) st watching (ends (Child := Child) request).
Proof.
  unfold run_inner, first_counts. wp_steps. use ensure_wp. after_end. intros (-> & Hq & He). destruct r as [[]|e]; [subst w|by apply quiet_held in Hq]. wp_steps; try done.
  use rounds_wp.
  - after_end. intros Hends. destruct r as [o|e]; wp_steps; [done|by apply end_in_error_wp].
  - split; [done|]. split; [split; cbn; lia|by left].
Qed.
End Run.
