(* ===== verification/TurnTheorems.v ===== *)
(** * What holds of every turn (src/src/agent/mod.rs)

    The monitor of [TurnWatch] in terms of the facts of a trace, and the theorems about [run_inner]. *)
From S2P Require Import Prelude.
From S2P Require Import Text.
From S2P Require Import TurnOutcome.
From S2P Require Import RunControl.
From S2P Require Import Json.
From S2P Require Import PermissionFence.
From S2P Require Import ContextWindow.
From S2P Require Import ClmCheckpoint.
From S2P Require Import History.
From S2P Require Import ProtocolStore.
From S2P Require Import SourceRecords.
From S2P Require Import ContextManager.
From S2P Require Import ContextTokens.
From S2P Require Import ProtocolContext.
From S2P Require Import ProviderStream.
From S2P Require Import ChatClient.
From S2P Require Import Prog.
From S2P Require Import TurnCalls.
From S2P Require Import TurnEnds.
From S2P Require Import TurnModel.
From S2P Require Import TurnCompaction.
From S2P Require Import TurnLoop.
From S2P Require Import TurnWatch.

From S2P Require Import TurnFacts.
From S2P Require Import TurnRounds.

Open Scope nat_scope.

(** ** Reading a trace *)

Section Reading.
Context {V : Type}.
Local Abbreviation Fact := (Fact V) (only parsing).

Definition settled_call (f : Fact) : option ToolCallId := match f with Settled id _ => Some id | _ => None end.
Definition started_call (f : Fact) : option ToolCallId := match f with Started id => Some id | _ => None end.
Definition settled_calls (fs : list Fact) : list ToolCallId := omap settled_call fs.
Definition started_calls (fs : list Fact) : list ToolCallId := omap started_call fs.
Definition responds (f : Fact) : bool := match f with Responded _ _ => true | _ => false end.
Definition requests (f : Fact) : bool := match f with Requested _ => true | _ => false end.
Definition settles_failed (f : Fact) : bool := match f with Settled _ write => settles_as_failed write | _ => false end.
Definition drafts_summary (f : Fact) : bool := match f with Requested true => true | _ => false end.
Definition reserves (f : Fact) : bool := match f with Reserved _ => true | _ => false end.
Definition releases (f : Fact) : bool := match f with Released _ => true | _ => false end.
Definition terminal_of (f : Fact) : option DurableTurnTerminal := match f with Terminal t => Some t | _ => None end.
Definition cause_of (f : Fact) : option (option RunCancellationCause) :=
  match f with SawCause c => Some c | AppliedFailure message => Some (Some (Failure message)) | _ => None end.

Definition count_facts (p : Fact -> bool) (fs : list Fact) : nat := length (List.filter p fs).
(** No fact of [fs] is a [p]. *)
Definition none (p : Fact -> bool) (fs : list Fact) : Prop := List.filter p fs = [].
(** Every reservation was given back. *)
Definition balanced (fs : list Fact) : Prop := count_facts reserves fs = count_facts releases fs.

Lemma count_snoc p (fs : list Fact) f : count_facts p (fs ++ [f]) = count_facts p fs + if p f then 1 else 0.
Proof. unfold count_facts. rewrite List.filter_app, length_app. cbn. by destruct (p f). Qed.
Lemma none_snoc p (fs : list Fact) f : none p (fs ++ [f]) <-> none p fs /\ p f = false.
Proof. unfold none. rewrite List.filter_app, app_nil. cbn. destruct (p f); naive_solver. Qed.
Lemma omap_snoc {A B} (g : A -> option B) l x : omap g (l ++ [x]) = omap g l ++ match g x with Some y => [y] | None => [] end.
Proof. rewrite omap_app. cbn. by destruct (g x). Qed.
End Reading.

(** ** The monitor and the trace *)

Section Monitor.
Context {V : Type} (base_calls base_failed : N).
Local Abbreviation Fact := (Fact V) (only parsing).
Local Abbreviation accepted fs := (accepts next (allowed (V := V) base_calls base_failed) watching fs) (only parsing).
Local Abbreviation watched fs := (after (next (V := V)) watching fs) (only parsing).

Lemma watched_snoc (fs : list Fact) f : watched (fs ++ [f]) = next (watched fs) f.
Proof. by rewrite after_app. Qed.
Lemma accepted_snoc (fs : list Fact) f : accepted (fs ++ [f]) <-> accepted fs /\ allowed base_calls base_failed (watched fs) f.
Proof. rewrite accepts_app. cbn. tauto. Qed.

Lemma watched_counts (fs : list Fact) :
  settled (watched fs) = N.of_nat (length (settled_calls fs)) /\ failed (watched fs) = N.of_nat (count_facts settles_failed fs).
Proof.
  induction fs as [|f fs [IHs IHf]] using rev_ind; [done|]. rewrite watched_snoc, count_snoc. unfold settled_calls in *. rewrite omap_snoc, length_app.
  destruct f; cbn [next settled failed settled_call settles_failed length]; rewrite ?IHs, ?IHf; cbn; try (split; lia).
  split; [lia|]. unfold one_if. destruct (settles_as_failed write); lia.
Qed.

Lemma watched_held (fs : list Fact) : accepted fs ->
  count_facts reserves fs = count_facts releases fs + match held (watched fs) with Some _ => 1 | None => 0 end.
Proof.
  induction fs as [|f fs IH] using rev_ind; [done|]. rewrite watched_snoc, !count_snoc, accepted_snoc. intros [Ha Hf]. specialize (IH Ha).
  destruct f; cbn [next held reserves releases allowed] in *; rewrite ?Hf in *; lia.
Qed.

Lemma balanced_held (fs : list Fact) : accepted fs -> balanced fs <-> held (watched fs) = None.
Proof. intros Ha. unfold balanced. rewrite (watched_held fs Ha). destruct (held (watched fs)); split; (done || lia). Qed.

Lemma watched_stored (fs : list Fact) : stored (watched fs) = last (omap terminal_of fs).
Proof.
  induction fs as [|f fs IH] using rev_ind; [done|]. rewrite watched_snoc, omap_snoc.
  destruct f; cbn [next stored terminal_of]; rewrite ?app_nil_r; try done. by rewrite last_snoc.
Qed.

Lemma watched_cause (fs : list Fact) : cause (watched fs) = default None (last (omap cause_of fs)).
Proof.
  induction fs as [|f fs IH] using rev_ind; [done|]. rewrite watched_snoc, omap_snoc.
  destruct f; cbn [next TurnWatch.cause cause_of]; rewrite ?app_nil_r, ?last_snoc; done.
Qed.

(** The calls of the last answer are the settled ones and the waiting ones. *)
Definition answered_by (fs : list Fact) (w : Watch) : Prop :=
  exists earlier response calls since, fs = earlier ++ Responded response calls :: since /\ none responds since /\
    calls = settled_calls since ++ waiting w /\ (waiting w <> [] -> none requests since) /\
    started_calls since ⊆ settled_calls since ++ if started w then take 1 (waiting w) else [].

Definition running (w : Watch) : list ToolCallId := if started w then take 1 (waiting w) else [].
Lemma answered_extend fs w f w' : answered_by fs w -> responds f = false -> waiting w = settled_calls [f] ++ waiting w' ->
  (waiting w' <> [] -> requests f = false) -> started_calls [f] ++ running w ⊆ settled_calls [f] ++ running w' -> answered_by (fs ++ [f]) w'.
Proof.
  intros (earlier & response & calls & since & -> & Hn & -> & Hq & Hs) Hf Hw Hr Hst. exists earlier, response, (settled_calls since ++ waiting w), (since ++ [f]).
  unfold settled_calls, started_calls in *. rewrite !omap_app. split; [by rewrite <- app_assoc|]. split; [by apply none_snoc|]. split; [by rewrite Hw, app_assoc|].
  split; [intros Hw'; apply none_snoc; split; [apply Hq; rewrite Hw; by destruct (omap settled_call [f]), (waiting w')|by apply Hr]|].
  unfold running in *. set_solver.
Qed.

Lemma watched_answer (fs : list Fact) : accepted fs -> (none responds fs /\ waiting (watched fs) = []) \/ answered_by fs (watched fs).
Proof.
  induction fs as [|f fs IH] using rev_ind; [by left|]. rewrite watched_snoc, accepted_snoc, none_snoc. intros [Ha Hf]. specialize (IH Ha).
  destruct (responds f) eqn:Er.
  - right. destruct f; try done. exists fs, response_id, calls, []. by repeat split.
  - destruct IH as [[Hn Hw]|IH].
    + left. destruct f; cbn [next waiting allowed] in *; try done. by rewrite Hw in *.
    + right. apply answered_extend with (1 := IH); [done|..]; destruct f; cbn [next waiting allowed started running] in *; try done.
      all: unfold running in *; set (w := watched fs) in *.
      * destruct Hf as [Hh _]. by destruct (waiting w); [|injection Hh as ->].
      * intros Hw. by destruct compaction, Hf as (_ & Hw' & _).
      * destruct Hf as (_ & Hh & -> & _). by destruct (waiting w); [|injection Hh as ->].
      * destruct Hf as [Hh _]. destruct (waiting w); [done|injection Hh as ->]. cbn. by destruct (started w); set_solver.
Qed.

(** The last word of the run owner. *)
Lemma watched_cancelled (fs : list Fact) before after_ : fs = before ++ Saw true :: after_ -> ~ In (Saw false) after_ -> fresh (watched fs) = false.
Proof.
  revert before after_. induction fs as [|f fs IH] using rev_ind; intros before after_ E Hn; [by destruct before|]. rewrite watched_snoc.
  destruct after_ as [|g after_ _] using rev_ind.
  - apply app_inj_tail in E as [-> ->]. done.
  - rewrite app_comm_cons, app_assoc in E. apply app_inj_tail in E as [-> ->]. rewrite in_app_iff in Hn.
    assert (fresh (watched (before ++ Saw true :: after_)) = false) as Hf by (apply (IH before after_); [done|tauto]).
    destruct g; cbn [next fresh]; try done. destruct cancelled; [done|]. exfalso. apply Hn. right. by left.
Qed.

(** Requests for summaries and compactions since the last answer. *)
Lemma watched_drafts (past fs : list Fact) : accepted (past ++ fs) -> none responds fs ->
  drafts (watched (past ++ fs)) = drafts (watched past) + count_facts drafts_summary fs /\ (drafts (watched (past ++ fs)) <= 2).
Proof.
  intros Ha Hn. split.
  - clear Ha. induction fs as [|f fs IH] using rev_ind; [rewrite app_nil_r; cbn; lia|]. apply none_snoc in Hn as [Hn Hf].
    rewrite app_assoc, watched_snoc, count_snoc. specialize (IH Hn). destruct f; cbn [next drafts drafts_summary] in *; try lia; [|done]. destruct compaction; lia.
  - clear Hn. revert Ha. generalize (past ++ fs). clear past fs. intros fs. induction fs as [|f fs IH] using rev_ind; [intros _; change (0 <= 2); lia|]. rewrite watched_snoc, accepted_snoc.
    intros [Ha Hf]. specialize (IH Ha). destruct f; cbn [next drafts allowed] in *; try lia. destruct compaction; lia.
Qed.

Lemma watched_adopted (past fs : list Fact) ids : none responds fs -> held (watched past) = None -> adopted (watched (past ++ CompactionCommitted ids :: fs)) = true.
Proof.
  intros Hn Hh. induction fs as [|f fs IH] using rev_ind.
  - rewrite watched_snoc. cbn. by rewrite Hh.
  - apply none_snoc in Hn as [Hn Hf]. rewrite app_comm_cons, app_assoc, watched_snoc. specialize (IH Hn). destruct f; cbn [next adopted] in *; try done.
    by case_match.
Qed.
End Monitor.

(** ** Theorems *)

Section Theorems.
Context {V : Type} `{JsonValue V} `{EqDecision V} `{Ulid} `{HashIteration} (services : Services V) (json_to_string : V -> text) (build : JsonBuild V).
Context {Child : Type}.
Context (request : TurnRequest) (prompt : TurnPrompt V) (compaction_prompt : text) (provisional_id : HistoryItemId).
Context (parse_tool_arguments : text -> result V text) (validate_shallow_schema : text -> V -> list (ToolSchema V) -> result V text).
Context (validate_call_effect : text -> V -> option text) (parse_summary : V -> result text text) (llm_public_message : LlmError -> text).
Context (shared_run : option (SharedRun V Child)) (error_text : AgentError -> text) (fuel inner : nat) (st : LoopState V).
Context (tr : list (Event (answer := @answer V))) (e : Ending (LoopState V * result (AgentRunOutcome Child) AgentError)).
Hypothesis Hrun : behaves (run_inner services json_to_string build request prompt compaction_prompt provisional_id parse_tool_arguments
  validate_shallow_schema validate_call_effect parse_summary llm_public_message shared_run error_text fuel inner st) tr e.

Local Abbreviation first := (first_counts shared_run) (only parsing).
Local Abbreviation fs := (facts fact_of tr) (only parsing).

Lemma run_accepted : accepts next (allowed (tool_call_count first) (failed_tool_count first)) watching fs.
Proof using Hrun. eapply always_accepts; [|exact Hrun]. apply run_inner_wp. Qed.
Lemma run_allowed before f behind : fs = before ++ f :: behind ->
  accepts next (allowed (tool_call_count first) (failed_tool_count first)) watching before /\
  allowed (tool_call_count first) (failed_tool_count first) (after next watching before) f.
Proof using Hrun.
  intros E. pose proof run_accepted as Ha. rewrite E, accepts_app in Ha. destruct Ha as [Hb [Hf _]]. done.
Qed.
Lemma run_ends st' r : e = Returned (st', r) -> ends request st' r (after next watching fs).
Proof using Hrun. intros E. pose proof (always_ends _ _ _ _ _ _ _ _ (run_inner_wp services json_to_string build request prompt compaction_prompt provisional_id
    parse_tool_arguments validate_shallow_schema validate_call_effect parse_summary llm_public_message shared_run error_text fuel inner st) Hrun) as Hq.
  rewrite E in Hq. by apply Hq.
Qed.

(** C3. A tool is started only for the first unsettled call of the last committed answer: the calls of that answer
    are those settled since, in their order, and then this one, no request was sent since, and every tool started since
    has been settled. *)
Theorem tools_follow_their_answer before id behind : fs = before ++ Started id :: behind ->
  exists earlier response calls since rest, before = earlier ++ Responded response calls :: since /\ none responds since /\ none requests since /\
    calls = settled_calls since ++ id :: rest /\ started_calls since ⊆ settled_calls since.
Proof using Hrun.
  intros E. destruct (run_allowed _ _ _ E) as [Ha (Hh & Hw & Hs & Hf)]. pose proof (watched_answer _ _ _ Ha) as Hl.
  set (w := after _ _ _) in *. clearbody w. destruct Hl as [[_ Hn]|(earlier & response & calls & since & -> & Hn & -> & Hq & Hst)]; [by rewrite Hn in Hw|].
  rewrite Hs, app_nil_r in Hst. destruct (waiting w) as [|id' rest]; [done|]. injection Hw as ->.
  exists earlier, response, (settled_calls since ++ id :: rest), since, rest. split_and?; try done. by apply Hq.
Qed.

(** C4. Before another request is sent, and before a turn is recorded as completed, every call of the last committed
    answer was settled, in order. *)
Theorem answers_are_settled_first before f behind : fs = before ++ f :: behind ->
  match f with Requested _ => True | Wrote t => outcome t = OutcomeCompleted | _ => False end ->
  none responds before \/
  exists earlier response calls since, before = earlier ++ Responded response calls :: since /\ none responds since /\ settled_calls since = calls.
Proof using Hrun.
  intros E Hf. destruct (run_allowed _ _ _ E) as [Ha Hal]. pose proof (watched_answer _ _ _ Ha) as Hl. set (w := after _ _ _) in *. clearbody w.
  assert (waiting w = []) as Hw.
  { destruct f; try done; [destruct compaction; by destruct Hal as (_ & ? & _)|]. cbn in Hal. unfold may_write in Hal. rewrite Hf in Hal. by destruct Hal as (_ & ? & _). }
  destruct Hl as [[Hn _]|(earlier & response & calls & since & -> & Hn & -> & _)]; [by left|right].
  exists earlier, response, (settled_calls since ++ waiting w), since. split_and?; [done..|]. by rewrite Hw, app_nil_r.
Qed.

(** C8. A terminal that records the turn as completed is written under a success commit of the run owner, after the answer
    to the last request was committed, and it counts the calls of the turn, with those of the run it resumes, and
    those that failed. *)
Theorem completed_terminals_count_the_calls before t behind : fs = before ++ Wrote t :: behind -> outcome t = OutcomeCompleted ->
  terminal_tool_call_count t = (tool_call_count first + N.of_nat (length (settled_calls before)))%N /\
  terminal_failed_tool_count t = (failed_tool_count first + N.of_nat (count_facts settles_failed before))%N.
Proof using Hrun.
  intros E Ho. destruct (run_allowed _ _ _ E) as [Ha Hal]. cbn in Hal. unfold may_write in Hal. rewrite Ho in Hal.
  destruct Hal as (_ & _ & _ & -> & ->). by destruct (watched_counts before) as [-> ->].
Qed.

(** C23. A terminal that records an interruption or a failure names the cause the run owner named last. *)
Theorem other_terminals_name_the_cause before t behind : fs = before ++ Wrote t :: behind ->
  match outcome t with
  | OutcomeCompleted => True
  | OutcomeInterrupted c => last (omap cause_of before) = Some (Some (Interruption c))
  | OutcomeFailed message => last (omap cause_of before) = Some (Some (Failure message))
  end.
Proof using Hrun.
  intros E. destruct (run_allowed _ _ _ E) as [Ha Hal]. cbn in Hal. unfold may_write in Hal. destruct (outcome t); [done|..].
  all: destruct Hal as [_ Hc]; rewrite watched_cause in Hc; by destruct (last (omap cause_of before)) as [[c|]|]; cbn in Hc; simplify_eq.
Qed.

(** C9. A run never holds two reservations of its owner, and has given all of them back when it returns, whatever it
    returns. *)
Theorem reservations_are_returned :
  (forall before success behind, fs = before ++ Reserved success :: behind -> balanced before) /\
  (forall st' r, e = Returned (st', r) -> balanced fs).
Proof using Hrun.
  split.
  - intros before success behind E. destruct (run_allowed _ _ _ E) as [Ha Hal]. by apply (balanced_held _ _ _ Ha).
  - intros st' r E. pose proof (run_ends _ _ E) as Hq. apply (balanced_held _ _ _ run_accepted). destruct r as [o|e']; [by destruct Hq|done].
Qed.

(** C24. The summary a run reports is of the terminal the store answered last. *)
Theorem summaries_are_stored st' summary : e = Returned (st', Ok (RunCompleted summary)) ->
  exists terminal, last (omap terminal_of fs) = Some terminal /\ summary = from_terminal (request_session request) (request_turn request) terminal.
Proof using Hrun.
  intros E. destruct (run_ends _ _ E) as [_ (terminal & Ht & ->)]. exists terminal. by rewrite <- watched_stored.
Qed.

(** C5. Once the run owner has said the run is cancelled, and it does not take that back, no request for an answer is sent and
    no tool is started. *)
Theorem nothing_starts_behind_a_cancellation before behind : fs = before ++ Saw true :: behind -> ~ In (Saw false) behind ->
  ~ In (Requested false) behind /\ started_calls behind = [].
Proof using Hrun.
  intros E Hn.
  assert (forall mid f rest, behind = mid ++ f :: rest -> fresh (after (next (V := V)) watching (before ++ Saw true :: mid)) = false /\
    allowed (tool_call_count first) (failed_tool_count first) (after next watching (before ++ Saw true :: mid)) f) as Hb.
  { intros mid f rest ->. split.
    - apply (watched_cancelled _ before mid); [done|]. intros Hi. apply Hn. apply in_app_iff. by left.
    - eapply (run_allowed (before ++ Saw true :: mid) f rest). by rewrite E, <- app_assoc. }
  split.
  - intros (mid & rest & Hi)%in_split. destruct (Hb _ _ _ Hi) as [Hf (_ & _ & _ & Hf')]. congruence.
  - destruct (started_calls behind) as [|id l] eqn:El; [done|]. assert (id ∈ started_calls behind) as Hi by (rewrite El; left).
    unfold started_calls in Hi. apply list_elem_of_omap in Hi as (f & (mid & rest & Hi)%list_elem_of_split & Hf). destruct f; try done. injection Hf as ->.
    destruct (Hb _ _ _ Hi) as [Hf (_ & _ & _ & Hf')]. congruence.
Qed.

(** C25. Between two answers a run sends at most two requests for a summary, and commits at most one compaction of its
    own: a second one is committed under a reservation, for the model. *)
Theorem compactions_need_an_answer past mid behind : fs = past ++ mid ++ behind -> none responds mid ->
  count_facts drafts_summary mid <= 2 /\
  (forall a ids between ids' rest, mid = a ++ CompactionCommitted ids :: between ++ CompactionCommitted ids' :: rest ->
     balanced (past ++ a) -> ~ balanced (past ++ a ++ CompactionCommitted ids :: between)).
Proof using Hrun.
  intros E Hn. split.
  - pose proof run_accepted as Ha. rewrite E, app_assoc, accepts_app in Ha. destruct Ha as [Ha _]. destruct (watched_drafts _ _ _ _ Ha Hn) as [Hd Hl]. lia.
  - intros a ids between ids' rest -> Hb Hb'.
    assert (fs = (past ++ a) ++ CompactionCommitted ids :: between ++ CompactionCommitted ids' :: rest ++ behind) as E1 by (rewrite E; by repeat (rewrite <- app_assoc || rewrite <- app_comm_cons)).
    assert (fs = (past ++ a ++ CompactionCommitted ids :: between) ++ CompactionCommitted ids' :: rest ++ behind) as E2 by (rewrite E1; by repeat (rewrite <- app_assoc || rewrite <- app_comm_cons)).
    destruct (run_allowed _ _ _ E1) as [Ha1 _], (run_allowed _ _ _ E2) as [Ha2 (_ & _ & Hal)].
    pose proof (proj1 (balanced_held _ _ _ Ha1) Hb) as Hn1. pose proof (proj1 (balanced_held _ _ _ Ha2) Hb') as Hn2.
    assert (none responds between) as Hnb.
    { unfold none in *. rewrite !List.filter_app in Hn. cbn in Hn. rewrite List.filter_app in Hn. apply app_nil in Hn as [_ Hn]. by apply app_nil in Hn as [Hn _]. }
    pose proof (watched_adopted (past ++ a) between ids Hnb Hn1) as Had. rewrite <- app_assoc in Had. destruct Hal as [Hal|[_ Hal]]; congruence.
Qed.
End Theorems.
