(* ===== verification/TurnCompactionFacts.v ===== *)
(** * Searching the prefix of a compaction (src/src/agent/mod.rs)

    The two binary searches find the least and the greatest count within their bound of evaluations, and what
    they find, as far as it is not monotone, satisfies the test anyway; the counts a compaction chooses fit
    the window of the model. *)
From S2P Require Import Prelude.
From S2P Require Import Text.
From S2P Require Import ContextWindow.
From S2P Require Import TurnOutcome.
From S2P Require Import RunControl.
From S2P Require Import PermissionFence.
From S2P Require Import Json.
From S2P Require Import ClmCheckpoint.
From S2P Require Import History.
From S2P Require Import SourceRecords.
From S2P Require Import ContextManager.
From S2P Require Import ContextTokens.
From S2P Require Import ProtocolStore.
From S2P Require Import ProtocolContext.
From S2P Require Import ProviderStream.
From S2P Require Import ChatClient.
From S2P Require Import Prog.
From S2P Require Import TurnCalls.
From S2P Require Import TurnEnds.
From S2P Require Import TurnModel.
From S2P Require Import TurnCompaction.
From S2P Require Import TurnLoop.
From S2P Require Import TurnWatch.
From S2P Require Import TurnFacts.

Open Scope N_scope.

(** ** The searches *)

Definition holds_at (predicate : N -> fallible bool) (p : N -> bool) (low high : N) : Prop :=
  forall k, low <= k <= high -> predicate k = done_ (p k).

Lemma middle_bounds low high : low <= high -> low <= low + (high - low) / 2 <= high.
Proof. intros Hl. pose proof (N.Div0.div_mod (high - low) 2). pose proof (N.mod_lt (high - low) 2 ltac:(lia)). set (x := (high - low) / 2) in *. set (y := (high - low) mod 2) in *. clearbody x y. lia. Qed.

Lemma search_range_halves n low high : low <= high -> high + 1 - low < 2 ^ N.of_nat (S n) ->
  (low + (high - low) / 2) - low < 2 ^ N.of_nat n /\ high + 1 - (low + (high - low) / 2 + 1) < 2 ^ N.of_nat n.
Proof.
  intros Hl Hs. rewrite Nat2N.inj_succ, N.pow_succ_r' in Hs. pose proof (N.Div0.div_mod (high - low) 2) as Hd. pose proof (N.mod_lt (high - low) 2 ltac:(lia)).
  set (x := (high - low) / 2) in *. set (y := (high - low) mod 2) in *. set (z := 2 ^ N.of_nat n) in *. clearbody x y z. lia.
Qed.

Lemma saturating_succ k : k < usize_max -> saturating_add_usize k 1 = k + 1.
Proof. unfold saturating_add_usize. lia. Qed.

Definition least_from (p : N -> bool) (low high : N) (result r : option N) : Prop :=
  (r = result /\ forall k, low <= k <= high -> p k = false) \/
  (exists m, r = Some m /\ low <= m <= high /\ p m = true /\ forall k, low <= k < m -> p k = false).
Definition greatest_to (p : N -> bool) (low high : N) (result r : option N) : Prop :=
  (r = result /\ forall k, low <= k <= high -> p k = false) \/
  (exists m, r = Some m /\ low <= m <= high /\ p m = true /\ forall k, m < k <= high -> p k = false).

Lemma first_prefix_spec n low high result predicate p :
  holds_at predicate p low high -> (forall a b, low <= a <= b -> b <= high -> p a = true -> p b = true) -> high < usize_max ->
  high + 1 - low < 2 ^ N.of_nat n -> exists r, first_prefix n low high result predicate = done_ r /\ least_from p low high result r.
Proof.
  revert low high result. induction n as [|n IH]; intros low high result Hp Hm Hu Hs.
  - exists result. split; [done|]. left. split; [done|]. cbn in Hs. lia.
  - cbn [first_prefix]. destruct (N.ltb_spec high low) as [Hlt|Hle]; [exists result; split; [done|]; left; split; [done|lia]|].
    pose proof (middle_bounds _ _ Hle) as Hmid. pose proof (search_range_halves _ _ _ Hle Hs) as [Hsl Hsr]. set (middle := low + (high - low) / 2) in *. clearbody middle.
    rewrite (Hp middle Hmid). cbn [or_fail done_]. destruct (p middle) eqn:Em.
    + destruct (N.eqb_spec middle 0) as [->|H0]; [exists (Some 0); split; [done|]; right; exists 0; repeat split; (done || lia)|].
      destruct (IH low (middle - 1) (Some middle)) as (r & -> & Hr); [intros k Hk; apply Hp; lia|intros a b ? ?; apply Hm; lia|lia|lia|].
      exists r. split; [done|]. right. destruct Hr as [[-> Hr]|(m & -> & Hb & Hpm & Hr)]; [exists middle|exists m]; repeat split; try done; try lia. intros k Hk. apply Hr. lia.
    + rewrite saturating_succ by lia. destruct (IH (middle + 1) high result) as (r & -> & Hr); [intros k Hk; apply Hp; lia|intros a b ? ?; apply Hm; lia|lia|lia|].
      assert (forall k, low <= k <= middle -> p k = false) as Hlow.
      { intros k Hk. destruct (p k) eqn:Ek; [|done]. by rewrite (Hm k middle) in Em by (done || lia). }
      exists r. split; [done|]. destruct Hr as [[-> Hr]|(m & -> & Hb & Hpm & Hr)]; [left|right; exists m]; repeat split; try done; try lia.
      all: intros k Hk; destruct (N.le_gt_cases k middle); [apply Hlow|apply Hr]; lia.
Qed.

Lemma last_prefix_spec n low high result predicate p :
  holds_at predicate p low high -> (forall a b, low <= a <= b -> b <= high -> p b = true -> p a = true) -> high < usize_max ->
  high + 1 - low < 2 ^ N.of_nat n -> exists r, last_prefix n low high result predicate = done_ r /\ greatest_to p low high result r.
Proof.
  revert low high result. induction n as [|n IH]; intros low high result Hp Hm Hu Hs.
  - exists result. split; [done|]. left. split; [done|]. cbn in Hs. lia.
  - cbn [last_prefix]. destruct (N.ltb_spec high low) as [Hlt|Hle]; [exists result; split; [done|]; left; split; [done|lia]|].
    pose proof (middle_bounds _ _ Hle) as Hmid. pose proof (search_range_halves _ _ _ Hle Hs) as [Hsl Hsr]. set (middle := low + (high - low) / 2) in *. clearbody middle.
    rewrite (Hp middle Hmid). cbn [or_fail done_]. destruct (p middle) eqn:Em.
    + rewrite saturating_succ by lia. destruct (IH (middle + 1) high (Some middle)) as (r & -> & Hr); [intros k Hk; apply Hp; lia|intros a b ? ?; apply Hm; lia|lia|lia|].
      exists r. split; [done|]. right. destruct Hr as [[-> Hr]|(m & -> & Hb & Hpm & Hr)]; [exists middle|exists m]; repeat split; try done; try lia. intros k Hk. apply Hr. lia.
    + assert (forall k, middle <= k <= high -> p k = false) as Hhigh.
      { intros k Hk. destruct (p k) eqn:Ek; [|done]. by rewrite (Hm middle k) in Em by (done || lia). }
      destruct (N.eqb_spec middle 0) as [->|H0]; [exists result; split; [done|]; left; split; [done|]; intros k Hk; apply Hhigh; lia|].
      destruct (IH low (middle - 1) result) as (r & -> & Hr); [intros k Hk; apply Hp; lia|intros a b ? ?; apply Hm; lia|lia|lia|].
      exists r. split; [done|]. destruct Hr as [[-> Hr]|(m & -> & Hb & Hpm & Hr)]; [left|right; exists m]; repeat split; try done; try lia.
      all: intros k Hk; destruct (N.le_gt_cases middle k); [apply Hhigh|apply Hr]; lia.
Qed.

(** What is found satisfies the test, monotone or not. *)
Lemma first_prefix_found n low high result predicate m : high <= usize_max -> first_prefix n low high result predicate = done_ (Some m) ->
  result = Some m \/ (low <= m <= high /\ predicate m = done_ true).
Proof.
  revert low high result. induction n as [|n IH]; intros low high result Hu E; [left; by injection E|]. cbn [first_prefix] in E.
  destruct (N.ltb_spec high low) as [Hlt|Hle]; [left; by injection E|]. pose proof (middle_bounds _ _ Hle) as Hmid. set (middle := low + (high - low) / 2) in *. clearbody middle.
  destruct (predicate middle) as [[[]|]|] eqn:Ep; cbn [or_fail] in E; try done.
  - destruct (N.eqb_spec middle 0) as [->|H0]; [injection E as <-; right; split; [lia|done]|].
    destruct (IH low (middle - 1) (Some middle) ltac:(lia) E) as [[= ->]|[Hb Hm]]; right; (split; [lia|done]).
  - assert (low <= saturating_add_usize middle 1) as Hl by (unfold saturating_add_usize; lia).
    destruct (IH _ high result Hu E) as [->|[Hb Hm]]; [by left|right; split; [lia|done]].
Qed.
Lemma last_prefix_found n low high result predicate m : high <= usize_max -> last_prefix n low high result predicate = done_ (Some m) ->
  result = Some m \/ (low <= m <= high /\ predicate m = done_ true).
Proof.
  revert low high result. induction n as [|n IH]; intros low high result Hu E; [left; by injection E|]. cbn [last_prefix] in E.
  destruct (N.ltb_spec high low) as [Hlt|Hle]; [left; by injection E|]. pose proof (middle_bounds _ _ Hle) as Hmid. set (middle := low + (high - low) / 2) in *. clearbody middle.
  destruct (predicate middle) as [[[]|]|] eqn:Ep; cbn [or_fail] in E; try done.
  - assert (low <= saturating_add_usize middle 1) as Hl by (unfold saturating_add_usize; lia).
    destruct (IH _ high (Some middle) Hu E) as [[= ->]|[Hb Hm]]; right; (split; [lia|done]).
  - destruct (N.eqb_spec middle 0) as [->|H0]; [left; by injection E|].
    destruct (IH low (middle - 1) result ltac:(lia) E) as [->|[Hb Hm]]; [by left|right; split; [lia|done]].
Qed.

#[local] Arguments COMPACTION_PREFIX_SEARCH_MAX_EVALUATIONS : simpl never.
#[local] Opaque COMPACTION_PREFIX_SEARCH_MAX_EVALUATIONS.
Lemma prefix_count_fits unit_count preferred actual tokens n : unit_count <= usize_max -> preferred <= actual ->
  compaction_prefix_count unit_count preferred actual tokens = done_ n -> 0 < n ->
  n <= unit_count /\ exists t, tokens n = done_ t /\ t <= actual.
Proof.
  intros Hu Hp E Hn. unfold compaction_prefix_count in E. destruct (N.eqb_spec unit_count 0) as [->|H0]; [injection E as <-; lia|].
  destruct (tokens unit_count) as [[t|]|] eqn:Et; cbn [or_fail] in E; try done. destruct (N.leb_spec t preferred) as [Hle|Hlt].
  { injection E as <-. split; [lia|]. exists t. split; [done|lia]. }
  destruct (last_monotonic_prefix_count 1 (unit_count - 1) _) as [[[count|]|]|] eqn:El; cbn [or_fail] in E; try done.
  - injection E as ->. unfold last_monotonic_prefix_count in El. apply last_prefix_found in El as [?|[Hb Hm]]; [done| |lia]. split; [lia|].
    destruct (tokens n) as [[t'|]|] eqn:Et'; cbn [or_fail] in Hm; try done. injection Hm as Hm. apply N.leb_le in Hm. exists t'. split; [done|lia].
  - destruct (tokens 1) as [[t1|]|] eqn:E1; cbn [or_fail] in E; try done. destruct (N.leb_spec t1 actual); injection E as <-; [|lia].
    split; [lia|]. by exists t1.
Qed.

#[local] Transparent COMPACTION_PREFIX_SEARCH_MAX_EVALUATIONS.

(** ** Theorems *)

(** C31. Within 65 evaluations of a monotone test the first search finds the least count that passes it, and the last
    search the greatest, or that none does. *)
Theorem searches_find_the_boundary low high p predicate : holds_at predicate p low high -> high < usize_max ->
  ((forall a b, low <= a <= b -> b <= high -> p a = true -> p b = true) ->
   exists r, first_monotonic_prefix_count low high predicate = done_ r /\
     match r with
     | Some m => low <= m <= high /\ p m = true /\ forall k, low <= k < m -> p k = false
     | None => forall k, low <= k <= high -> p k = false
     end) /\
  ((forall a b, low <= a <= b -> b <= high -> p b = true -> p a = true) ->
   exists r, last_monotonic_prefix_count low high predicate = done_ r /\
     match r with
     | Some m => low <= m <= high /\ p m = true /\ forall k, m < k <= high -> p k = false
     | None => forall k, low <= k <= high -> p k = false
     end).
Proof.
  intros Hp Hu. assert (high + 1 - low < 2 ^ N.of_nat COMPACTION_PREFIX_SEARCH_MAX_EVALUATIONS) as Hs.
  { apply N.le_lt_trans with (high + 1); [lia|]. apply N.le_lt_trans with usize_max; [lia|]. done. }
  split; intros Hm.
  - destruct (first_prefix_spec _ _ _ None _ _ Hp Hm Hu Hs) as (r & Er & Hr). exists r. split; [done|]. by destruct Hr as [[-> Hr]|(m & -> & Hr)].
  - destruct (last_prefix_spec _ _ _ None _ _ Hp Hm Hu Hs) as (r & Er & Hr). exists r. split; [done|]. by destruct Hr as [[-> Hr]|(m & -> & Hr)].
Qed.

Lemma searches_find_the_boundary_witness :
  exists r, first_monotonic_prefix_count 1 9 (fun k => done_ (5 <=? k)) = done_ r /\
    match r with
    | Some m => 1 <= m <= 9 /\ (5 <=? m) = true /\ forall k, 1 <= k < m -> (5 <=? k) = false
    | None => forall k, 1 <= k <= 9 -> (5 <=? k) = false
    end.
Proof.
  apply (proj1 (searches_find_the_boundary 1 9 (fun k => 5 <=? k) (fun k => done_ (5 <=? k)) (fun k _ => eq_refl) eq_refl)).
  intros a b Hab Hb Ha. apply N.leb_le in Ha. apply N.leb_le. lia.
Defined.

(** * What a compaction does (src/src/agent/mod.rs)

    The requests a compaction sends fit the window, a retry sends less, and what it commits frees room. *)

Open Scope N_scope.

(** The acts of a compaction: the requests for a summary it sends and the events it proposes to the store. *)
Inductive CompactionAct (V : Type) := Drafted (sent : ChatRequest V) | Proposed (event : RunEvent V).
Arguments Drafted {V} sent.
Arguments Proposed {V} event.
Definition compaction_acts {V} (c : Call V) : answer c -> list (CompactionAct V) :=
  match c with
  | StartStream true sent => fun _ => [Drafted sent]
  | CommitCompaction event _ => fun _ => [Proposed event]
  | _ => fun _ => []
  end.

Section Acts.
Context {V : Type} `{JsonValue V} `{EqDecision V} `{Ulid} `{HashIteration} (services : Services V) (json_to_string : V -> text).
Context (request : TurnRequest) (prompt : TurnPrompt V) (compaction_prompt : text) (provisional_id : HistoryItemId).
Context (template : ChatRequest V) (step : StepContext V) (units : list (list HistoryItemId)) (excluded : gset HistoryItemId) (c : ContextManager V).
Local Abbreviation LoopState := (LoopState V) (only parsing).
Local Abbreviation sent_tokens := (request_tokens json_to_string) (only parsing).

(** The estimate of the last request for a summary. *)
Definition next_act (w : option N) (a : CompactionAct V) : option N := match a with Drafted sent => Some (sent_tokens sent) | Proposed _ => w end.

(** A draft that frees room: whole units, the bounded user messages among them and a checkpoint that ends in the
    record of its source. *)
Definition frees_room (event : RunEvent V) : Prop :=
  exists count body users all_users summary before_messages after_messages,
    let ids := flatten_compaction_unit_prefix units count in
    event = CompactionCompleted (length ids) users summary ids /\ ids <> [] /\
    compaction_user_messages_for_items ids c = Some all_users /\ bounded_compaction_user_messages all_users = Some users /\
    checkpoint_with_source_records body ids c = Ok summary /\
    model_messages_excluding services excluded (supports_images request) c = Some before_messages /\
    model_messages_after_compaction services provisional_id (request_session request) (request_turn request) users summary ids excluded
      (supports_images request) c = Some after_messages /\
    estimate_model_messages_tokens after_messages < estimate_model_messages_tokens before_messages /\
    projected_request_tokens (estimate_model_messages_tokens before_messages) (estimate_model_messages_tokens after_messages) (sent_tokens template)
      < working_context_token_limit request.

(** A request fits the window behind the reserve, and the second one is smaller. *)
Definition act_allowed (w : option N) (a : CompactionAct V) : Prop :=
  match a with
  | Drafted sent => sent_tokens sent <= actual_source_limit request /\ match w with Some tokens => sent_tokens sent < tokens | None => True end
  | Proposed event => frees_room event
  end.
Local Abbreviation wp := (wp compaction_acts next_act act_allowed) (only parsing).

(** Nothing is sent or proposed, and the context stays. *)
Definition silent {A} (st : LoopState) (w : option N) : Post V (option N) A := fun st' _ w' => context st' = context st /\ w' = w.

Ltac act_steps := repeat (wp_step; cbn [compaction_acts next_act fold_left accepts] in *; cbv beta iota).
Ltac silence := act_steps; try by split.

Lemma silent_ensure (st : LoopState) w : wp (ensure_admission_active request) st w (silent st w).
Proof. unfold ensure_admission_active, classify_run_control_for_terminal_outcome, supersede_run. silence. Qed.
Lemma silent_renew (st : LoopState) w : wp (renew_admission_lease request) st w (silent st w).
Proof. unfold renew_admission_lease, classify_run_control_for_terminal_outcome, supersede_run. silence. Qed.
Lemma silent_account usage (st : LoopState) w : wp (account_goal request usage) st w (silent st w).
Proof. unfold account_goal. silence. Qed.
Lemma silent_announce sent status (st : LoopState) w : wp (announce sent status) st w (silent st w).
Proof. unfold announce. silence. Qed.
Lemma silent_diagnose {A} o e (st : LoopState) w : wp (diagnose o e (A := A)) st w (silent st w).
Proof. unfold diagnose. silence. Qed.
Lemma silent_permit (st : LoopState) w : wp (wait_for_compaction_permit request) st w (silent st w).
Proof. unfold wait_for_compaction_permit. silence. all: use silent_diagnose; by after_end. Qed.
Lemma silent_judge local response collector (st : LoopState) w : wp (judge_summary request local response collector) st w (silent st w).
Proof. unfold judge_summary. silence. all: use silent_diagnose; by after_end. Qed.
Lemma silent_failed error (st : LoopState) w :
  wp (failed_compaction_request request error) st w (fun st' r w' => context st' = context st /\ w' = w /\ exists e, r = Err e).
Proof.
  unfold failed_compaction_request. act_steps; [|by eauto]. use silent_account. after_end. intros [Hc ->]. destruct r; act_steps; by eauto.
Qed.

(** ** The request *)

Definition drafted (sent : ChatRequest V) (st : LoopState) (w : option N) : Post V (option N) CompactionSummaryOutcome :=
  fun st' r w' => context st' = context st /\ (w' = w \/ w' = Some (sent_tokens sent)) /\
    match r with
    | Ok (ReasoningOnlySaturation _ local) | Ok (SourceContextOverflow _ local) => local = sent_tokens sent
    | _ => True
    end.
Lemma silent_drafted sent (st st' : LoopState) w r w' : silent (A := CompactionSummaryOutcome) st w st' (Err r) w' -> drafted sent st w st' (Err r) w'.
Proof. intros [Hc ->]. split; [done|]. split; [by left|done]. Qed.

Lemma judge_drafted response collector sent (st st' : LoopState) w w' : context st' = context st -> w' = Some (sent_tokens sent) ->
  wp (judge_summary request (sent_tokens sent) response collector) st' w' (drafted sent st w).
Proof.
  intros Hc ->. unfold judge_summary, diagnose. act_steps; (split; [done|]; split; [by right|done]).
Qed.

Lemma run_request_acts sent (st : LoopState) w : act_allowed w (Drafted sent) ->
  wp (run_compaction_request json_to_string request sent) st w (drafted sent st w).
Proof.
  intros Hs. unfold run_compaction_request, diagnose. act_steps. use silent_announce. after_end. intros [Hc ->]. destruct r; act_steps; [|by apply silent_drafted].
  use silent_renew. after_end. intros [Hc' ->]. destruct r; act_steps; [|split; [congruence|]; split; [by left|done]].
  use silent_permit. after_end. intros [Hc'' ->]. destruct r; [|split; [cbn in Hc''; congruence|]; split; [by left|done]]. act_steps.
  - use silent_account. after_end. intros [Hc3 ->]. cbn in Hc3, Hc''. destruct r; act_steps; [apply judge_drafted; [congruence|done]|].
    split; [congruence|]. split; [by right|done].
  - use silent_failed. after_end. intros (Hc3 & -> & e' & ->). cbn in Hc''. split; [congruence|]. split; [by right|done].
  - split; [cbn in Hc''; congruence|]. split; [by left|done].
Qed.

Lemma summarize_acts source (st : LoopState) w : act_allowed w (Drafted (compaction_request_with_messages compaction_prompt source (messages source))) ->
  wp (summarize_compaction_history json_to_string request compaction_prompt source) st w
     (drafted (compaction_request_with_messages compaction_prompt source (messages source)) st w).
Proof.
  intros Hs. unfold summarize_compaction_history. act_steps. use run_request_acts; [|done]. after_end. intros (Hc & Hw & Hr). act_steps; by split.
Qed.

(** ** The counts that are chosen *)

Section Counts.
Context (before_context_tokens before_request_tokens : N) (st : LoopState).
Local Abbreviation projection_of :=
  (compaction_prefix_projection services json_to_string request prompt compaction_prompt provisional_id st step units excluded
     before_context_tokens before_request_tokens) (only parsing).

(** What the source of a count estimates to is what its request estimates to. *)
Lemma projection_source count projection source_messages source : projection_of count = done_ projection ->
  compaction_source_messages_for_items services (flatten_compaction_unit_prefix units count) excluded (supports_images request) (context st) = Some source_messages ->
  chat_request prompt step source_messages = Ok source ->
  source_request_tokens projection = sent_tokens (compaction_request_with_messages compaction_prompt source (messages source)).
Proof.
  unfold compaction_prefix_projection, chat_request_for, unpanic. intros Hp Hm Hc.
  destruct (checkpoint_with_source_records _ _ _); cbn [or_message or_fail done_] in Hp; [|done].
  destruct (compaction_user_messages_for_items _ _); cbn [or_fail fmap option_fmap option_map] in Hp; [|done].
  destruct (bounded_compaction_user_messages _); cbn [or_fail fmap option_fmap option_map] in Hp; [|done].
  destruct (model_messages_after_compaction _ _ _ _ _ _ _ _ _ _); cbn [or_fail fmap option_fmap option_map] in Hp; [|done].
  rewrite Hm in Hp. cbn [or_fail fmap option_fmap option_map] in Hp. rewrite Hc in Hp. cbn [or_fail] in Hp. by injection Hp as <-.
Qed.

(** What a count of units fits, whatever the projection of a count is. *)
Section AnyProjection.
Context (proj : N -> fallible CompactionPrefixProjection) (limit : N).
Definition source_of (count : N) : fallible N := try! projection := proj count in done_ (source_request_tokens projection).
Definition fits (w : option N) (count : N) : Prop :=
  0 < count -> exists projection, proj count = done_ projection /\ source_request_tokens projection <= limit /\
    match w with Some tokens => source_request_tokens projection < tokens | None => True end.

Lemma source_fits count t : source_of count = done_ t -> t <= limit -> fits None count.
Proof.
  unfold source_of. destruct (proj count) as [[projection|]|] eqn:E; cbn [or_fail]; [|discriminate..]. intros Et Ht _.
  assert (source_request_tokens projection = t) as <- by (unfold done_ in Et; congruence). exists projection. auto.
Qed.

Lemma selected_fits unit_count preferred (test : CompactionPrefixProjection -> bool) search count : unit_count <= usize_max -> preferred <= limit ->
  (try! initial_count := compaction_prefix_count unit_count preferred limit source_of in
   if 0 <? initial_count then
     try! projection := proj initial_count in
     if test projection then done_ initial_count
     else
       try! found := search initial_count in
       match found with
       | Some count => try! tokens := source_of count in done_ (if tokens <=? limit then count else initial_count)
       | None => done_ initial_count
       end
   else done_ initial_count) = done_ count -> fits None count.
Proof.
  intros Hu Hp E Hn. destruct (compaction_prefix_count unit_count preferred limit source_of) as [[initial|]|] eqn:Ec; cbn [or_fail] in E; [|discriminate E..].
  destruct (N.ltb_spec 0 initial) as [Hi|Hi]; [|assert (initial = count) by (unfold done_ in E; congruence); lia].
  destruct (prefix_count_fits _ _ _ _ _ Hu Hp Ec Hi) as [_ (t & Ht & Hle)].
  assert (initial = count -> exists projection, proj count = done_ projection /\ source_request_tokens projection <= limit /\ True) as Hinitial.
  { intros <-. exact (source_fits _ _ Ht Hle Hn). }
  destruct (proj initial) as [[projection|]|]; cbn [or_fail] in E; [|discriminate E..]. unfold done_ in E.
  destruct (test projection); [apply Hinitial; congruence|].
  destruct (search initial) as [[[found|]|]|]; cbn [or_fail] in E; [| |discriminate E..]; [|apply Hinitial; congruence].
  destruct (source_of found) as [[tf|]|] eqn:Ef; cbn [or_fail] in E; [|discriminate E..].
  destruct (N.leb_spec tf limit) as [Hf|Hf]; [|apply Hinitial; congruence]. assert (found = count) as <- by congruence. exact (source_fits _ _ Ef Hf Hn).
Qed.

Lemma retried_fits (gap_test source_test : CompactionPrefixProjection -> bool) tokens minimum largest count : tokens <= limit ->
  (forall projection, source_test projection = true -> source_request_tokens projection < tokens) ->
  (try! minimum := minimum in
   try! largest := largest in
   match minimum, largest with
   | Some retry_count, Some largest_count =>
     if largest_count <? retry_count then done_ None
     else try! projection := proj retry_count in done_ (if gap_test projection && source_test projection then Some retry_count else None)
   | _, _ => done_ None
   end) = done_ (Some count) -> fits (Some tokens) count.
Proof.
  intros Hle Hs E Hn. unfold done_ in *. destruct minimum as [[[first|]|]|]; cbn [or_fail] in E; [| |discriminate E..].
  - destruct largest as [[[largest|]|]|]; cbn [or_fail] in E; [|discriminate E..]. destruct (largest <? first); [discriminate E|].
    destruct (proj first) as [[projection|]|] eqn:Ep; cbn [or_fail] in E; [|discriminate E..].
    destruct (gap_test projection), (source_test projection) eqn:Es; cbn [andb] in E; [|discriminate E..]. assert (first = count) as <- by congruence.
    specialize (Hs _ Es). exists projection. split; [exact Ep|]. split; [lia|exact Hs].
  - destruct largest as [[?|]|]; discriminate E.
Qed.
End AnyProjection.

Lemma selection_fits count : N.of_nat (length units) <= usize_max ->
  compaction_unit_selection services json_to_string request prompt compaction_prompt provisional_id st step units excluded before_context_tokens
    before_request_tokens = done_ count -> fits projection_of (actual_source_limit request) None count.
Proof.
  intros Hu E. refine (selected_fits projection_of (actual_source_limit request) (unit_count units) _
    (useful request before_context_tokens before_request_tokens) _ count Hu (N.le_min_r _ _) E).
Qed.

Lemma retry_fits failed_count tokens gap count : tokens <= actual_source_limit request ->
  compaction_retry_unit_count services json_to_string request prompt compaction_prompt provisional_id st step units excluded before_context_tokens
    before_request_tokens failed_count tokens gap = done_ (Some count) -> fits projection_of (actual_source_limit request) (Some tokens) count.
Proof.
  intros Hle E. unfold compaction_retry_unit_count in E. destruct (failed_count <=? 1); [discriminate E|]. cbv zeta in E.
  refine (retried_fits projection_of (actual_source_limit request) (gap_safe request before_context_tokens gap) (source_safe request tokens gap) tokens _ _ count Hle _ E).
  intros projection Hs. apply andb_prop in Hs as [Hs _]. by apply N.ltb_lt in Hs.
Qed.
End Counts.

(** ** Drafts *)

Local Abbreviation projection_with b1 b2 st :=
  (compaction_prefix_projection services json_to_string request prompt compaction_prompt provisional_id st step units excluded b1 b2) (only parsing).

(** The request of a count fits. *)
Definition sendable (w : option N) (count : N) : Prop :=
  exists b1 b2 st, context st = c /\ fits (projection_with b1 b2 st) (actual_source_limit request) w count.

Lemma sendable_weaken w count : sendable w count -> sendable None count.
Proof. intros (b1 & b2 & st & Hc & Hf). exists b1, b2, st. split; [exact Hc|]. intros Hn. destruct (Hf Hn) as (projection & Hp & Hl & _). exists projection. exact (conj Hp (conj Hl I)). Qed.
Lemma sendable_below tokens tokens' count : tokens < tokens' -> sendable (Some tokens) count -> sendable (Some tokens') count.
Proof.
  intros Ht (b1 & b2 & st & Hc & Hf). exists b1, b2, st. split; [exact Hc|]. intros Hn. destruct (Hf Hn) as (projection & Hp & Hl & Hs). exists projection. exact (conj Hp (conj Hl (N.lt_trans _ _ _ Hs Ht))).
Qed.

Lemma fallible_acts {A} (m : fallible A) (st : LoopState) w (Q : Post V (option N) A) : (forall r, m = Some r -> Q st r w) -> wp (from_fallible m) st w Q.
Proof. intros Hm. destruct m as [r|]; [|done]. apply wp_from_result. by apply Hm. Qed.

(** A chosen number of units leaves the context alone and fits. *)
Definition chosen {A} (P : A -> Prop) (st : LoopState) (w : option N) : Post V (option N) A :=
  fun st' r w' => st' = st /\ w' = w /\ match r with Ok a => P a | Err _ => True end.

Context (units_fit : N.of_nat (length units) <= usize_max).

Lemma select_acts (st : LoopState) w : context st = c ->
  wp (select_units services json_to_string request prompt compaction_prompt provisional_id template step units excluded) st w (chosen (sendable None) st w).
Proof using units_fit.
  intros Hc. unfold select_units. do 2 wp_step. apply fallible_acts. intros r Hr. split; [done|]. split; [done|]. destruct r as [count|]; [|done].
  destruct (selection_parameters _ _ _ _ _ _) as [[[b1 b2]|]|]; cbn [or_fail] in Hr; [|discriminate Hr..]. exists b1, b2, st.
  exact (conj Hc (selection_fits b1 b2 st count units_fit Hr)).
Qed.

Lemma retry_acts failed_count tokens gap (st : LoopState) w : context st = c -> tokens <= actual_source_limit request ->
  wp (retry_units services json_to_string request prompt compaction_prompt provisional_id template step units excluded failed_count tokens gap) st w
     (chosen (fun retry => match retry with Some count => sendable (Some tokens) count | None => True end) st w).
Proof.
  intros Hc Ht. unfold retry_units. do 2 wp_step. apply fallible_acts. intros r Hr. split; [done|]. split; [done|]. destruct r as [[count|]|]; [|done..].
  destruct (selection_parameters _ _ _ _ _ _) as [[[b1 b2]|]|]; cbn [or_fail] in Hr; [|discriminate Hr..]. exists b1, b2, st.
  exact (conj Hc (retry_fits b1 b2 st _ _ _ _ Ht Hr)).
Qed.

(** What a draft is made of. *)
Definition whole_draft (draft : CompactionDraft) : Prop :=
  exists count body all_users, let ids := flatten_compaction_unit_prefix units count in
    draft_item_ids draft = ids /\ ids <> [] /\ compaction_user_messages_for_items ids c = Some all_users /\
    bounded_compaction_user_messages all_users = Some (draft_user_messages draft) /\
    checkpoint_with_source_records body ids c = Ok (draft_summary draft).
Definition drafting : Post V (option N) (option CompactionDraft) :=
  fun st' r w' => context st' = c /\ match r with Ok (Some draft) => whole_draft draft | _ => True end.

Lemma sent_fits w count source_messages source : sendable w count -> 0 < count ->
  compaction_source_messages_for_items services (flatten_compaction_unit_prefix units count) excluded (supports_images request) c = Some source_messages ->
  chat_request prompt step source_messages = Ok source ->
  act_allowed w (Drafted (compaction_request_with_messages compaction_prompt source (messages source))).
Proof.
  intros (b1 & b2 & st & Hc & Hf) Hn Hm Hs. destruct (Hf Hn) as (projection & Hp & Hl & Hw). rewrite <- Hc in Hm.
  unfold act_allowed. rewrite <- (projection_source b1 b2 st count projection source_messages source Hp Hm Hs). exact (conj Hl Hw).
Qed.

(** What a failed attempt leaves room for. *)
Lemma sendable_next w w' sent count : w' = w \/ w' = Some (sent_tokens sent) -> act_allowed w (Drafted sent) ->
  sendable (Some (sent_tokens sent)) count -> sendable w' count.
Proof.
  intros [->| ->] [_ Hw] Hs; [|exact Hs]. destruct w as [tokens|]; [exact (sendable_below _ _ _ Hw Hs)|exact (sendable_weaken _ _ Hs)].
Qed.

Lemma draft_of_acts count body users all_users gap (st : LoopState) w : context st = c ->
  flatten_compaction_unit_prefix units count <> [] ->
  compaction_user_messages_for_items (flatten_compaction_unit_prefix units count) c = Some all_users ->
  bounded_compaction_user_messages all_users = Some users ->
  wp (draft_of (flatten_compaction_unit_prefix units count) users body gap) st w
     (fun st' r w' => context st' = c /\ match r with Ok draft => whole_draft draft | Err _ => True end).
Proof.
  intros Hc Hn Hu Hb. unfold draft_of. do 2 wp_step. rewrite Hc. destruct (checkpoint_with_source_records _ _ _) as [summary|] eqn:Es; [|exact (conj Hc I)].
  split; [exact Hc|]. exists count, body, all_users. auto.
Qed.

Lemma draft_acts retries gap count (st : LoopState) w : context st = c -> sendable w count ->
  wp (draft_compaction services json_to_string request prompt compaction_prompt provisional_id template step units excluded retries gap count) st w drafting.
Proof.
  revert gap count st w. induction retries as [|retries IH]; intros gap count st w Hc Hs; cbn [draft_compaction].
  all: destruct (is_empty (flatten_compaction_unit_prefix units count)) eqn:Ei; [exact (conj Hc I)|].
  all: assert (flatten_compaction_unit_prefix units count <> []) as Hn by (intros E; by rewrite E in Ei).
  all: assert (0 < count) as Hp by (destruct (N.eq_0_gt_0_cases count) as [->|?]; [by destruct Hn|assumption]).
  all: do 2 wp_step; rewrite Hc; apply wp_then, wp_from_option; intros all_users Hu; apply wp_then, wp_from_option; intros users Hb.
  all: apply wp_then, wp_from_option; intros source_messages Hm; apply wp_then, fallible_acts; intros [source|] Hr; [|exact (conj Hc I)].
  all: apply wp_then; assert (chat_request prompt step source_messages = Ok source) as Hsrc by (unfold chat_request_for in Hr; congruence).
  all: pose proof (sent_fits w count source_messages source Hs Hp Hm Hsrc) as Hok.
  all: eapply wp_mono; [|exact (summarize_acts source st w Hok)]; intros st' [[body prompt_gap|usage local|error local]|e] w' (Hc' & Hw' & Hl); [..|exact (conj (eq_trans Hc' Hc) I)].
  all: rewrite Hc in Hc'; try subst local.
  1,4: apply wp_then; eapply wp_mono; [|exact (draft_of_acts count body users all_users _ st' w' Hc' Hn Hu Hb)]; intros st'' [draft|e] w''; exact id.
  1,2: exact (conj Hc' I).
  all: apply wp_then; eapply wp_mono; [|exact (retry_acts _ _ _ st' w' Hc' (proj1 Hok))]; intros st'' [[retry|]|e] w'' (-> & -> & Hf); [|exact (conj Hc' I)..].
  all: exact (IH _ retry st' w' Hc' (sendable_next _ _ _ _ Hw' Hok Hf)).
Qed.

(** ** Commits *)

Lemma usable_frees gap (before after_ sent : N) : checkpoint_usable before after_ sent gap (working_context_token_limit request) = true ->
  after_ < before /\ projected_request_tokens before after_ sent < working_context_token_limit request.
Proof using Type.
  clear units_fit. unfold checkpoint_usable. intros [Hlt%N.ltb_lt Hproj%N.ltb_lt]%andb_prop. split; [exact Hlt|]. revert Hproj. unfold projected_request_tokens, saturating_add_u32. lia.
Qed.

Lemma adopt_acts draft (st : LoopState) w : context st = c -> whole_draft draft ->
  wp (adopt_draft services json_to_string request provisional_id template excluded draft) st w (fun _ _ _ => True).
Proof.
  intros Hc (count & body & all_users & Hi & Hn & Hu & Hb & Hs). unfold adopt_draft. apply wp_then. unfold draft_usable. do 2 wp_step. rewrite Hc.
  apply wp_then, wp_from_option; intros before_messages Hbefore. apply wp_then, wp_from_option; intros after_messages Hafter. apply wp_pure.
  destruct (checkpoint_usable _ _ _ _ _) eqn:E; [|by act_steps]. apply usable_frees in E as [Hlt Hproj].
  assert (frees_room (compaction_event draft)) as Hroom.
  { unfold frees_room, compaction_event. rewrite Hi in *. exists count, body, (draft_user_messages draft), all_users, (draft_summary draft), before_messages, after_messages. auto 10. }
  unfold commit_draft, diagnose. act_steps. all: first [exact I|exact (conj Hroom I)].
Qed.
End Acts.

(** ** The theorem *)

Section Compacting.
Context {V : Type} `{JsonValue V} `{EqDecision V} `{Ulid} `{HashIteration} (services : Services V) (json_to_string : V -> text).
Context (request : TurnRequest) (prompt : TurnPrompt V) (compaction_prompt : text) (provisional_id : HistoryItemId).
Context (template : ChatRequest V) (step : StepContext V) (excluded_item_id : option HistoryItemId) (st : LoopState V).
Local Abbreviation excluded := (excluded_set excluded_item_id) (only parsing).
Local Abbreviation units := (automatic_compaction_units_excluding excluded (context st)) (only parsing).
Local Abbreviation sent_tokens := (request_tokens json_to_string) (only parsing).
Local Abbreviation compacting := (compact_context services json_to_string request prompt compaction_prompt provisional_id template step excluded_item_id) (only parsing).
Local Abbreviation allowed_act := (act_allowed services json_to_string request provisional_id template units excluded (context st)) (only parsing).

Lemma compacting_acts : N.of_nat (length units) <= usize_max ->
  wp compaction_acts (next_act json_to_string) allowed_act compacting st None (fun _ _ _ => True).
Proof.
  intros Hu. unfold compact_context. do 2 wp_step. destruct (is_empty units) eqn:Ei; [exact I|]. apply wp_then.
  eapply wp_mono; [|exact (select_acts services json_to_string request prompt compaction_prompt provisional_id template step _ _ (context st) Hu st None eq_refl)].
  intros st' [count|e] w (-> & -> & Hc); [|exact I]. apply wp_then.
  eapply wp_mono; [|exact (draft_acts services json_to_string request prompt compaction_prompt provisional_id template step _ _ (context st) 1 0 count st None eq_refl Hc)].
  intros st' [[draft|]|e] w [Hctx Hd]; [|exact I..].
  exact (adopt_acts services json_to_string request provisional_id template _ _ (context st) draft st' w Hctx Hd).
Qed.

Lemma last_is_least acts sent : accepts (next_act json_to_string) allowed_act None acts -> Drafted sent ∈ acts ->
  exists tokens, after (next_act json_to_string) None acts = Some tokens /\ tokens <= sent_tokens sent.
Proof.
  induction acts as [|a acts IH] using rev_ind; intros Ha Hi; [by apply elem_of_nil in Hi|]. apply accepts_app in Ha as [Ha [Hl _]]. rewrite after_app.
  apply elem_of_app in Hi as [Hi|Hi%list_elem_of_singleton].
  - destruct (IH Ha Hi) as (tokens & Ht & Hle). rewrite Ht. rewrite ?Ht in Hl. destruct a as [sent'|event]; cbn [next_act act_allowed after fold_left] in *; eexists; split; [reflexivity| |reflexivity|exact Hle].
    destruct Hl as [_ Hl]. lia.
  - subst a. exists (sent_tokens sent). exact (conj eq_refl (N.le_refl _)).
Qed.

(** C10. A compaction before a request sends for its summary only requests that leave the checkpoint its reserve in the
    window, each estimated smaller than the ones before it; and what it proposes to the store replaces whole units by the
    bounded user messages among them and a checkpoint with the record of its source, which makes the history
    smaller and brings the request below the working limit. *)
Theorem compactions_free_room tr e before a behind : behaves (compacting st) tr e -> N.of_nat (length units) <= usize_max ->
  facts compaction_acts tr = before ++ a :: behind ->
  match a with
  | Drafted sent => sent_tokens sent <= effective_context_token_limit request - 1800 /\
      (forall earlier, Drafted earlier ∈ before -> sent_tokens sent < sent_tokens earlier)
  | Proposed event => frees_room services json_to_string request provisional_id template units excluded (context st) event
  end.
Proof.
  intros Hb Hu E. pose proof (always_accepts _ _ _ _ _ _ _ _ (compacting_acts Hu) Hb) as Ha. rewrite E in Ha. apply accepts_app in Ha as [Ha [Hl _]].
  destruct a as [sent|event]; [|exact Hl]. destruct Hl as [Hl Hw]. split; [exact Hl|]. intros earlier Hi. destruct (last_is_least _ _ Ha Hi) as (tokens & Ht & Hle).
  rewrite Ht in Hw. lia.
Qed.
End Compacting.
