(* ===== verification/TurnFuel.v ===== *)
(** * The fuel of a turn

    The loops of a turn end when its environment says so, and take fuel.  More fuel changes no behaviour that did not run
    out of it. *)
From S2P Require Import Prelude.
From S2P Require Import Text.
From S2P Require Import TurnOutcome.
From S2P Require Import RunControl.
From S2P Require Import Json.
From S2P Require Import PermissionFence.
From S2P Require Import ContextWindow.
From S2P Require Import ClmCheckpoint.
From S2P Require Import History.
From S2P Require Import ProtocolStore.
From S2P Require Import SourceRecords.
From S2P Require Import ContextManager.
From S2P Require Import ContextTokens.
From S2P Require Import ProtocolContext.
From S2P Require Import ProviderStream.
From S2P Require Import ChatClient.
From S2P Require Import Prog.
From S2P Require Import TurnCalls.
From S2P Require Import TurnEnds.
From S2P Require Import TurnModel.
From S2P Require Import TurnCompaction.
From S2P Require Import TurnLoop.

Open Scope nat_scope.

(** ** Programs that go further *)

Section Extends.
Context {Call : Type} {answer : Call -> Type}.

(** [q] does what [p] does until [p] runs out of fuel. *)
Fixpoint extends {A} (p q : prog answer A) : Prop :=
  match p with
  | ret a => q = ret a
  | halt OutOfFuel => True
  | halt why => q = halt why
  | Prog.act c k => exists k', q = Prog.act c k' /\ forall r, extends (k r) (k' r)
  end.

Lemma longer_run_refl {A} (p : prog answer A) : extends p p.
Proof. induction p as [a|why|c k IH]; cbn; [done|by destruct why|]. by exists k. Qed.
Lemma extends_bind {A B} (p q : prog answer A) (f g : A -> prog answer B) :
  extends p q -> (forall a, extends (f a) (g a)) -> extends (bind p f) (bind q g).
Proof.
  intros Hp Hf. revert q Hp. induction p as [a|why|c k IH]; intros q; cbn.
  - intros ->. apply Hf.
  - destruct why; [by intros ->|done|by intros ->].
  - intros (k' & -> & Hk). cbn. exists (fun r => bind (k' r) g). split; [done|]. intros r. by apply IH.
Qed.

Lemma extends_behaves {A} (p q : prog answer A) tr e : extends p q -> behaves p tr e -> e <> Halted OutOfFuel -> behaves q tr e.
Proof.
  intros Hp Hb. revert q Hp. induction Hb as [a|why|p|c k r tr e Hb IH]; intros q; cbn [extends].
  - intros ->. constructor.
  - destruct why; [intros -> _; constructor|done|intros -> _; constructor].
  - constructor.
  - intros (k' & -> & Hk) He. constructor. by apply IH.
Qed.
End Extends.

(** ** Turns *)

Section Turns.
Context {V : Type} `{JsonValue V} `{EqDecision V} `{Ulid} `{HashIteration} (services : Services V) (json_to_string : V -> text) (build : JsonBuild V).
Context {Child : Type}.
Local Abbreviation turn := (turn V) (only parsing).
Context (request : TurnRequest) (prompt : TurnPrompt V) (compaction_prompt : text) (provisional_id : HistoryItemId).
Context (parse_tool_arguments : text -> result V text) (validate_shallow_schema : text -> V -> list (ToolSchema V) -> result V text).
Context (validate_call_effect : text -> V -> option text) (parse_summary : V -> result text text) (llm_public_message : LlmError -> text).
Context (shared_run : option (SharedRun V Child)) (error_text : AgentError -> text).

Definition further {A} (m m' : turn A) : Prop := forall st, extends (m st) (m' st).

Lemma further_refl {A} (m : turn A) : further m m.
Proof. intros st. apply longer_run_refl. Qed.
Lemma further_then {A B} (m m' : turn A) (f f' : A -> turn B) : further m m' -> (forall a, further (f a) (f' a)) -> further (then_ m f) (then_ m' f').
Proof. intros Hm Hf st. apply extends_bind; [apply Hm|]. intros [st' [a|e]]; [apply Hf|done]. Qed.
Lemma further_attempt {A} (m m' : turn A) : further m m' -> further (attempt m) (attempt m').
Proof. intros Hm st. apply extends_bind; [apply Hm|]. intros [st' r]. done. Qed.
Lemma further_out_of_fuel {A} (m : turn A) : further out_of_fuel m.
Proof. done. Qed.

#[local] Create HintDb further discriminated.
(** The same parts on both sides, or parts of which one goes further. *)
Ltac go_further := repeat first
  [ match goal with |- further ?m ?m' => constr_eq m m'; apply further_refl end
  | solve [eauto with further]
  | apply further_then; [|intros ?]
  | apply further_attempt
  | match goal with |- further (match ?x with _ => _ end) (match ?x with _ => _ end) => destruct x end
  | apply further_out_of_fuel ].

Lemma mail_further fuel fuel' delivered : fuel <= fuel' ->
  further (commit_pending_agent_communications request fuel delivered) (commit_pending_agent_communications request fuel' delivered).
Proof. revert fuel' delivered. induction fuel as [|fuel IH]; intros [|fuel'] delivered Hf; cbn; go_further; try lia. apply IH. lia. Qed.
Lemma poll_tool_further fuel fuel' multi : fuel <= fuel' -> further (poll_tool request fuel multi) (poll_tool request fuel' multi).
Proof. revert fuel'. induction fuel as [|fuel IH]; intros [|fuel'] Hf; cbn; go_further; try lia. apply IH. lia. Qed.
Lemma poll_stream_further fuel fuel' : fuel <= fuel' -> further (poll_stream request fuel) (poll_stream request fuel').
Proof. revert fuel'. induction fuel as [|fuel IH]; intros [|fuel'] Hf; cbn; go_further; try lia. apply IH. lia. Qed.
Lemma refresh_further fuel fuel' : fuel <= fuel' ->
  further (refresh_context_to_the_end services request fuel) (refresh_context_to_the_end services request fuel').
Proof. revert fuel'. induction fuel as [|fuel IH]; intros [|fuel'] Hf; cbn; go_further; try lia. apply IH. lia. Qed.

#[local] Hint Resolve mail_further poll_tool_further poll_stream_further refresh_further : further.

Local Abbreviation commit_and_act_ := (commit_and_act services json_to_string build request prompt provisional_id parse_tool_arguments validate_shallow_schema
  validate_call_effect parse_summary shared_run error_text) (only parsing).
Local Abbreviation sample_and_act_ := (sample_and_act services json_to_string build request prompt provisional_id parse_tool_arguments validate_shallow_schema
  validate_call_effect parse_summary shared_run error_text) (only parsing).
Local Abbreviation round_ := (round services json_to_string build request prompt compaction_prompt provisional_id parse_tool_arguments
  validate_shallow_schema validate_call_effect parse_summary shared_run error_text) (only parsing).
Local Abbreviation rounds_ := (rounds services json_to_string build request prompt compaction_prompt provisional_id parse_tool_arguments
  validate_shallow_schema validate_call_effect parse_summary shared_run error_text) (only parsing).
Local Abbreviation run_inner_ := (run_inner services json_to_string build request prompt compaction_prompt provisional_id parse_tool_arguments
  validate_shallow_schema validate_call_effect parse_summary llm_public_message shared_run error_text) (only parsing).

Section More.
Context (fuel fuel' : nat) (more : fuel <= fuel').

Lemma handle_tool_call_further call_ :
  further (handle_tool_call build request validate_call_effect fuel call_) (handle_tool_call build request validate_call_effect fuel' call_).
Proof using more. unfold handle_tool_call. go_further. Qed.
Lemma execute_further sent : further (execute_model_request request fuel sent) (execute_model_request request fuel' sent).
Proof using more. unfold execute_model_request. go_further. Qed.
Lemma drain_further : further (drain_pending_input request fuel) (drain_pending_input request fuel').
Proof using more. unfold drain_pending_input, deliver_mail. go_further. Qed.
#[local] Hint Resolve handle_tool_call_further execute_further drain_further : further.

Lemma sample_further step sent status : further (sample request fuel step sent status) (sample request fuel' step sent status).
Proof using more. unfold sample. go_further. Qed.
Lemma run_tools_further calls summary :
  further (run_tools build request validate_call_effect parse_summary (Child := Child) fuel calls summary)
          (run_tools build request validate_call_effect parse_summary (Child := Child) fuel' calls summary).
Proof using more. revert summary. induction calls as [|call_ calls IH]; intros summary; cbn [run_tools]; go_further. Qed.
Lemma adopt_further step ids summary :
  further (adopt_proposed_summary services json_to_string request prompt provisional_id fuel step ids summary)
          (adopt_proposed_summary services json_to_string request prompt provisional_id fuel' step ids summary).
Proof using more. unfold adopt_proposed_summary. go_further. Qed.
#[local] Hint Resolve sample_further run_tools_further adopt_further : further.

Lemma act_further step ids calls :
  further (act services json_to_string build request prompt provisional_id validate_call_effect parse_summary shared_run fuel step ids calls)
          (act services json_to_string build request prompt provisional_id validate_call_effect parse_summary shared_run fuel' step ids calls).
Proof using more. unfold act. go_further. Qed.
#[local] Hint Resolve act_further : further.

Lemma commit_and_act_further step sent_messages sent ids sent_ids response_id response collector :
  further (commit_and_act_ fuel step sent_messages sent ids sent_ids response_id response collector)
          (commit_and_act_ fuel' step sent_messages sent ids sent_ids response_id response collector).
Proof using more. unfold commit_and_act. go_further. Qed.
#[local] Hint Resolve commit_and_act_further : further.
Lemma sample_and_act_further step sent_messages sent :
  further (sample_and_act_ fuel step sent_messages sent) (sample_and_act_ fuel' step sent_messages sent).
Proof using more. unfold sample_and_act. go_further. Qed.
#[local] Hint Resolve sample_and_act_further : further.
Lemma round_further : further (round_ fuel) (round_ fuel').
Proof using more. unfold round, prepare_and_sample. go_further. Qed.
End More.
#[local] Hint Resolve round_further : further.

Lemma rounds_further fuel fuel' inner inner' : fuel <= fuel' -> inner <= inner' ->
  further (rounds_ fuel inner) (rounds_ fuel' inner').
Proof. revert fuel'. induction fuel as [|fuel IH]; intros [|fuel'] Hf Hi; cbn [rounds]; go_further; try lia. apply IH; lia. Qed.
#[local] Hint Resolve rounds_further : further.

End Turns.
