(* ===== verification/TurnDemo.v ===== *)
(** * Two turns and a compaction

    An environment that answers from a script, and the theorems about turns at concrete traces: a turn that runs a tool
    and completes, one that is stopped while its tool runs, and a compaction that frees room. *)
From S2P Require Import Prelude.
From S2P Require Import Text.
From S2P Require Import TurnOutcome.
From S2P Require Import RunControl.
From S2P Require Import Json.
From S2P Require Import PermissionFence.
From S2P Require Import ContextWindow.
From S2P Require Import ClmCheckpoint.
From S2P Require Import History.
From S2P Require Import SourceRecords.
From S2P Require Import ContextManager.
From S2P Require Import ContextStream.
From S2P Require Import ContextTokens.
From S2P Require Import ProtocolStore.
From S2P Require Import ProtocolContext.
From S2P Require Import ProviderStream.
From S2P Require Import ChatClient.
From S2P Require Import Prog.
From S2P Require Import TurnCalls.
From S2P Require Import TurnEnds.
From S2P Require Import TurnModel.
From S2P Require Import TurnCompaction.
From S2P Require Import TurnLoop.
From S2P Require Import TurnWatch.
From S2P Require Import TurnTheorems.
From S2P Require Import TurnCompactionFacts.
From S2P Require Import TurnFuel.

Open Scope nat_scope.

#[local] Instance map_order : HashIteration := {| hash_iter A m := map_to_list m; hash_iter_perm A m := reflexivity _ |}.
#[local] Existing Instance one_char_ulid.

(** ** The environment *)

(** What is left of the script; the run is cancelled once it was asked [patience] times. *)
Record Script := { patience : nat; history : list (ProtocolPage (HistoryItem Tree)); answers : list StreamEnd; identifiers : N }.
Definition read_page (s : Script) : Script :=
  {| patience := patience s; history := tail (history s); answers := answers s; identifiers := identifiers s |}.
Definition read_stream (s : Script) : Script :=
  {| patience := patience s; history := history s; answers := tail (answers s); identifiers := identifiers s |}.
Definition take_identifier (s : Script) : Script :=
  {| patience := patience s; history := history s; answers := answers s; identifiers := identifiers s + 1 |}.
Definition be_asked (s : Script) : Script :=
  {| patience := pred (patience s); history := history s; answers := answers s; identifiers := identifiers s |}.
Definition out_of_patience (s : Script) : bool := Nat.eqb (patience s) 0.

Definition empty_page : ProtocolPage (HistoryItem Tree) :=
  {| page_offset := 0; page_limit := 200; page_total := 0; page_items := []; page_next_cursor := None |}.
Definition page_of_items (items : list (HistoryItem Tree)) (cursor : Z) : ProtocolPage (HistoryItem Tree) :=
  {| page_offset := 0; page_limit := 200; page_total := N.of_nat (length items); page_items := items; page_next_cursor := Some cursor |}.

Definition demo_step : StepContext Tree := {| step_tools := []; step_snapshot := TNull; step_rendered := lit "world"; step_system_prompt := lit "system" |}.
Definition demo_summary (reason : FinishReason) : LlmResponseSummary :=
  {| summary_finish_reason := reason; summary_usage := None; response_id := None; continuation := None |}.
Definition answer_of (events : list LlmEvent) (reason : FinishReason) : StreamEnd := {| stream_events := events; stream_result := Ok (demo_summary reason) |}.
Definition no_answer : StreamEnd := {| stream_events := []; stream_result := Err (LlmMessage (lit "no answer")) |}.
Definition read_result : ToolResult Tree :=
  {| result_title := lit "read"; result_output_text := lit "text"; result_metadata := TObj []; truncated_output_path := None; recorded_changes := [];
     change_summaries := [] |}.
Definition unreviewed (r : option (result (ToolResult Tree) ToolFailure)) : ToolRun Tree :=
  {| guardian_request_count := 0; guardian_usage := []; tool_result := r |}.

Definition respond (c : Call Tree) : Script -> Script * answer c :=
  match c as c return Script -> Script * answer c with
  | IsCancelled => fun s => (be_asked s, out_of_patience s)
  | CurrentCause => fun s => (s, if out_of_patience s then Some (Interruption UserStop) else None)
  | RequestCancel _ => fun s => (s, Rejected)
  | Supersede | BeginSuccessCommit | SealSuccess | BeginToolSettlement => fun s => (s, true)
  | ReadLocalWork => fun s => (s, false)
  | ResolveSuccess _ | AbandonSuccess _ | ReleaseToolSettlement | SetActivity _ | StartStream _ _ | StartTool _ | RecordDiagnostic _ => fun s => (s, tt)
  | ReadAdmission => fun s => (s, Ok OwnedRunning)
  | RenewLease => fun s => (s, Ok Renewed)
  | ReadDurableTerminal => fun s => (s, Ok None)
  | SettleTurn terminal _ _ | SettleSuccess terminal _ _ => fun s => (s, Ok (TerminalApplied terminal))
  | RecordModelResponse _ => fun s => (s, Ok [])
  | SettleToolCall _ _ _ _ => fun s => (s, Ok (Some []))
  | CommitCompaction _ _ | AccountGoalUsage _ _ | PrepareServices | AttachApiKey | EmitEvent _ | EmitCommitted _ | EmitRuntimeOnly _ => fun s => (s, Ok tt)
  | HasPendingSteers => fun s => (s, Ok false)
  | DeliverSteers => fun s => (s, Ok 0%N)
  | DeliverMailbox _ => fun s => (s, Ok (0%N, false))
  | ReadHistoryPage _ _ => fun s => (read_page s, Ok (default empty_page (head (history s))))
  | ReadReviewFeedback => fun s => (s, Ok None)
  | ReserveSequence => fun s => (s, None)
  | CaptureStep => fun s => (s, Ok demo_step)
  | AcquirePermit => fun s => (s, PermitGranted)
  | PollStream => fun s => (read_stream s, Some (default no_answer (head (answers s))))
  | AwaitStream => fun s => (read_stream s, default no_answer (head (answers s)))
  | PollTool => fun s => (s, unreviewed (if (patience s <=? 2) then None else Some (Ok read_result)))
  | AwaitCleanup => fun s => (s, unreviewed (Some (Err (OtherToolError (lit "stopped")))))
  | ReadRetainedService => fun s => (s, None)
  | NewModelResponseId | NewToolCallId | NewHistoryItemId => fun s => (take_identifier s, identifiers s)
  | ReadElapsed => fun s => (s, 7%N)
  end.

(** ** The program *)

Definition demo_build : JsonBuild Tree :=
  {| json_object := TObj []; json_insert key value object := match object with TObj fields => TObj ((key, value) :: fields) | _ => object end;
     json_text := TStr; json_bool := TBool |}.
Definition demo_request (working : N) : TurnRequest :=
  {| request_session := 1; request_admission := 3; request_turn := 2; initial_user_history_item_id := None; has_agent_context := false; goal_id := None;
     has_request_gate := false; supports_images := false; chat_completions := true; overflow_margin_tokens := 100;
     effective_context_token_limit := 20000; working_context_token_limit := working |}.
Definition demo_prompt : TurnPrompt Tree :=
  {| context_window := 32000; multi_agent_context_messages := []; goal_message := None; hub_prompt_tokens := None;
     validate_provider_lifecycle _ := Ok tt |}.
Definition demo_text_of_json (v : Tree) : text := lit "{}".
Definition demo_context (items : list (HistoryItem Tree)) : ContextManager Tree := from_active_history demo_services items None (N.of_nat (length items)).
Definition demo_state (items : list (HistoryItem Tree)) : LoopState Tree :=
  initial_state (demo_request 10000) (Child := unit) None (demo_context items) no_progress.

Definition demo_turn (working : N) : turn Tree (AgentRunOutcome unit) :=
  run_inner demo_services demo_text_of_json demo_build (demo_request working) demo_prompt (lit "summarise") 99%N
    (fun _ => Ok TNull) (fun _ v _ => Ok v) (fun _ _ => None) (fun _ => Ok []) (fun _ => lit "error") None (fun _ => lit "error") 4 4.

(** ** Turns *)

Definition ran (working : N) (script : Script) := run respond (demo_turn working (demo_state [])) script.
Definition trace_of (working : N) (script : Script) : list (Event (answer := @answer Tree)) := snd (fst (ran working script)).
Definition end_of (working : N) (script : Script) : Ending (LoopState Tree * result (AgentRunOutcome unit) AgentError) := snd (ran working script).
Lemma ran_behaves working script : behaves (demo_turn working (demo_state [])) (trace_of working script) (end_of working script).
Proof.
  unfold trace_of, end_of, ran. pose proof (run_behaves respond (demo_turn working (demo_state [])) script) as Hb.
  by destruct (run respond _ _) as [[s tr] e].
Qed.

Definition tool_answer : StreamEnd := answer_of [ToolCallStart (lit "call-1") (lit "read"); ToolCallArgsDelta (lit "call-1") (lit "{}")] ProviderStream.ToolCall.
Definition text_answer : StreamEnd := answer_of [TextDelta (lit "done")] Stop.

(** A turn that runs a tool, and is cancelled while it runs if the patience is short. *)
Definition tool_script (patience_ : nat) : Script :=
  {| patience := patience_; history := [page_of_items [demo_item 1 (UserTurn [TextContent (lit "go")] None None)] 1%Z]; answers := [tool_answer; text_answer];
     identifiers := 30 |}.
Definition completed_facts : list (Fact Tree) := facts fact_of (trace_of 10000 (tool_script 100)).
Definition stopped_facts : list (Fact Tree) := facts fact_of (trace_of 10000 (tool_script 4)).

(** A turn whose history is long: an old answer is replaced by a summary before the model is asked. *)
Definition old_items : list (HistoryItem Tree) :=
  [demo_item 1 (UserTurn [TextContent (lit "go")] None None); demo_item 2 (AssistantItem 20 [TextContent (replicate (N.to_nat 16000) 97%N)]);
   demo_item 3 (UserTurn [TextContent (lit "next")] None None)].
Definition summary_item : HistoryItem Tree := demo_item 4 (History.Compaction Automatic UserAnchoredCheckpoint [lit "go"] None (lit "done") [1%N; 2%N]).
Definition long_script : Script :=
  {| patience := 100; history := [page_of_items old_items 3%Z; page_of_items [summary_item] 4%Z]; answers := [text_answer; text_answer]; identifiers := 30 |}.
Definition compacted_facts : list (Fact Tree) := facts fact_of (trace_of 3000 long_script).

Definition no_terminal : DurableTurnTerminal :=
  {| outcome := OutcomeCompleted; final_response_id := None; terminal_tool_call_count := 0; terminal_failed_tool_count := 0; terminal_change_count := 0;
     metrics := {| metrics_model_request_count := 0; elapsed_ms := None; metrics_token_usage := None; metrics_cumulative_token_usage := None;
                   metrics_tool_calls_by_name := ∅; metrics_failed_tool_calls_by_name := ∅ |} |}.
Definition written (n : nat) (fs : list (Fact Tree)) : DurableTurnTerminal :=
  match nth_error fs n with Some (Wrote terminal) => terminal | _ => no_terminal end.

(** A theorem about turns at a turn of the script. *)
Ltac of_turn theorem working script := pose proof (theorem Tree _ _ _ _ demo_services demo_text_of_json demo_build unit (demo_request working) demo_prompt
  (lit "summarise") 99%N (fun _ => Ok TNull) (fun _ v _ => Ok v) (fun _ _ => None) (fun _ => Ok []) (fun _ => lit "error") None (fun _ => lit "error") 4 4
  (demo_state []) _ _ (ran_behaves working script)) as Ht.

(** ** Witnesses *)

Lemma tools_follow_their_answer_witness : completed_facts = take 6 completed_facts ++ Started 31%N :: drop 7 completed_facts /\
  exists earlier response calls since rest, take 6 completed_facts = earlier ++ Responded response calls :: since /\ none responds since /\
    none requests since /\ calls = settled_calls since ++ 31%N :: rest /\ started_calls since ⊆ settled_calls since.
Proof.
  assert (completed_facts = take 6 completed_facts ++ Started 31%N :: drop 7 completed_facts) as E by (vm_compute; reflexivity).
  split; [exact E|]. of_turn @tools_follow_their_answer 10000%N (tool_script 100). exact (Ht _ _ _ E).
Defined.

Lemma answers_are_settled_first_witness : completed_facts = take 13 completed_facts ++ Requested false :: drop 14 completed_facts /\
  (none responds (take 13 completed_facts) \/
   exists earlier response calls since, take 13 completed_facts = earlier ++ Responded response calls :: since /\ none responds since /\ settled_calls since = calls).
Proof.
  assert (completed_facts = take 13 completed_facts ++ Requested false :: drop 14 completed_facts) as E by (vm_compute; reflexivity).
  split; [exact E|]. of_turn @answers_are_settled_first 10000%N (tool_script 100). exact (Ht _ _ _ E I).
Defined.

Lemma completed_terminals_count_the_calls_witness :
  terminal_tool_call_count (written 17 completed_facts) = (0 + N.of_nat (length (settled_calls (take 17 completed_facts))))%N /\
  terminal_tool_call_count (written 17 completed_facts) = 1%N.
Proof.
  assert (completed_facts = take 17 completed_facts ++ Wrote (written 17 completed_facts) :: drop 18 completed_facts) as E by (vm_compute; reflexivity).
  split; [|vm_compute; reflexivity]. of_turn @completed_terminals_count_the_calls 10000%N (tool_script 100).
  exact (proj1 (Ht _ _ _ E ltac:(vm_compute; reflexivity))).
Defined.

Lemma other_terminals_name_the_cause_witness : outcome (written 12 stopped_facts) = OutcomeInterrupted UserStop /\
  last (omap cause_of (take 12 stopped_facts)) = Some (Some (Interruption UserStop)).
Proof.
  assert (outcome (written 12 stopped_facts) = OutcomeInterrupted UserStop) as Ho by (vm_compute; reflexivity). split; [exact Ho|].
  assert (stopped_facts = take 12 stopped_facts ++ Wrote (written 12 stopped_facts) :: drop 13 stopped_facts) as E by (vm_compute; reflexivity).
  assert (match outcome (written 12 stopped_facts) with
          | OutcomeCompleted => True
          | OutcomeInterrupted c => last (omap cause_of (take 12 stopped_facts)) = Some (Some (Interruption c))
          | OutcomeFailed message => last (omap cause_of (take 12 stopped_facts)) = Some (Some (Failure message))
          end) as Hc by (of_turn @other_terminals_name_the_cause 10000%N (tool_script 4); exact (Ht _ _ _ E)).
  rewrite Ho in Hc. exact Hc.
Defined.

Lemma reservations_are_returned_witness : count_facts reserves completed_facts = 2 /\ count_facts releases completed_facts = 2 /\
  (forall before success behind, completed_facts = before ++ Reserved success :: behind -> balanced before).
Proof.
  split; [vm_compute; reflexivity|]. split; [vm_compute; reflexivity|].
  of_turn @reservations_are_returned 10000%N (tool_script 100). exact (proj1 Ht).
Defined.

Lemma summaries_are_stored_witness : exists st summary, end_of 10000 (tool_script 100) = Returned (st, Ok (RunCompleted summary)) /\
  exists terminal, last (omap terminal_of completed_facts) = Some terminal /\ summary = from_terminal 1 2 terminal.
Proof.
  assert (match end_of 10000 (tool_script 100) with Returned (_, Ok (RunCompleted _)) => true | _ => false end = true) as He by (vm_compute; reflexivity).
  of_turn @summaries_are_stored 10000%N (tool_script 100).
  destruct (end_of 10000 (tool_script 100)) as [[st [[summary|proposal]|e]]|why]; try discriminate He. exists st, summary. split; [reflexivity|].
  exact (Ht st summary eq_refl).
Defined.

Lemma nothing_starts_behind_a_cancellation_witness : stopped_facts = take 7 stopped_facts ++ Saw true :: drop 8 stopped_facts /\
  ~ In (Requested false) (drop 8 stopped_facts) /\ started_calls (drop 8 stopped_facts) = [].
Proof.
  assert (stopped_facts = take 7 stopped_facts ++ Saw true :: drop 8 stopped_facts) as E by (vm_compute; reflexivity).
  split; [exact E|]. of_turn @nothing_starts_behind_a_cancellation 10000%N (tool_script 4). apply (Ht _ _ E).
  vm_compute. intros Hi. repeat destruct Hi as [Hi|Hi]; try discriminate Hi. exact Hi.
Defined.

Lemma compactions_need_an_answer_witness : In (CompactionCommitted [1%N; 2%N]) (take 7 compacted_facts) /\ count_facts drafts_summary (take 7 compacted_facts) <= 2.
Proof.
  split; [vm_compute; repeat (first [left; reflexivity|right])|].
  assert (compacted_facts = [] ++ take 7 compacted_facts ++ drop 7 compacted_facts) as E by (vm_compute; reflexivity).
  of_turn @compactions_need_an_answer 3000%N long_script. exact (proj1 (Ht _ _ _ E ltac:(vm_compute; reflexivity))).
Defined.


(** A compaction by itself. *)
Definition old_state : LoopState Tree := demo_state old_items.
Definition old_template : ChatRequest Tree :=
  {| model_context_window := 32000; system_prompt := lit "system"; pending_system_prompt_tokens := None;
     messages := default [] (model_messages demo_services false (context old_state)); tools := [] |}.
Definition old_compaction : turn Tree bool :=
  compact_context demo_services demo_text_of_json (demo_request 3000) demo_prompt (lit "summarise") 99%N old_template demo_step None.
Definition old_ran := run respond (old_compaction old_state) long_script.
Definition old_acts : list (CompactionAct Tree) := facts compaction_acts (snd (fst old_ran)).
Definition sizes : list (option N) := map (fun a => match a with Drafted sent => Some (request_tokens demo_text_of_json sent) | Proposed _ => None end) old_acts.

Lemma compactions_free_room_witness : sizes = [Some 4051%N; None] /\ exists sent event, old_acts = [Drafted sent; Proposed event] /\
  frees_room demo_services demo_text_of_json (demo_request 3000) 99%N old_template
    (automatic_compaction_units_excluding (excluded_set None) (context old_state)) (excluded_set None) (context old_state) event.
Proof.
  split; [vm_compute; reflexivity|].
  assert (sizes = [Some 4051%N; None]) as Es by (vm_compute; reflexivity). unfold sizes in Es.
  pose proof (run_behaves respond (old_compaction old_state) long_script) as Hb. unfold old_acts in *. change (run respond (old_compaction old_state) long_script) with old_ran in Hb.
  destruct old_ran as [[s tr] e]. cbn [fst snd] in *. destruct (facts compaction_acts tr) as [|[sent|?] [|[?|event] [|? ?]]] eqn:E; try discriminate Es.
  exists sent, event. split; [reflexivity|].
  exact (compactions_free_room demo_services demo_text_of_json (demo_request 3000) demo_prompt (lit "summarise") 99%N old_template demo_step None old_state tr e
    [Drafted sent] (Proposed event) [] Hb ltac:(vm_compute; discriminate) E).
Defined.
