(* ===== verification/Projection.v ===== *)
(** * Run events as protocol records (src/src/protocol/projection.rs)

    Every event of a run that the session owns is projected onto the three protocol tables: a runtime event for
    the observers, a history item for the model and a turn item for the display.  This file holds the events
    (src/src/session/model.rs), the projection, what the recorder of a turn accepts of it
    (src/src/protocol/store.rs) and the theorems that tie the three records together.  What serde makes of the
    parts no modelled code reads is an interface, as are fresh identifiers and the clock. *)
From S2P Require Import Prelude.
From S2P Require Import Text.
From S2P Require Import TurnOutcome.
From S2P Require Import Json.
From S2P Require Import PermissionFence.
From S2P Require Import ToolOutput.
From S2P Require Import ContextWindow.
From S2P Require Import ClmCheckpoint.
From S2P Require Import History.
From S2P Require Import ProtocolStore.
From S2P Require Import ContextStream.
From S2P Require Import ProtocolDemo.
From S2P Require Import TurnCalls.

Open Scope nat_scope.
#[local] Existing Instance ToolName.t_eq_dec.

Abbreviation ChangeId := N (only parsing).

(** ** Data *)

Module ChangeKind.
Inductive kind := Add | Update | Delete | Move.
End ChangeKind.

Record ChangeSummary := { change_id : ChangeId; change_kind : ChangeKind.kind; path_before : option text; path_after : option text }.
Record FileChangeEvidence := {
  evidence_id : ChangeId; evidence_kind : ChangeKind.kind; evidence_before : option text; evidence_after : option text; evidence_summary : text
}.

(** [render_display_path] without a workspace root. *)
Definition render_display_path (path : option text) : text := default [] path.
Definition summary_line (change : ChangeSummary) : text :=
  match change_kind change with
  | ChangeKind.Add => lit "Added " ++ render_display_path (path_after change)
  | ChangeKind.Update => lit "Updated " ++ render_display_path (match path_after change with Some path => Some path | None => path_before change end)
  | ChangeKind.Delete => lit "Deleted " ++ render_display_path (path_before change)
  | ChangeKind.Move => lit "Moved " ++ render_display_path (path_before change) ++ lit " -> " ++ render_display_path (path_after change)
  end.

Module PlanStepStatus.
Inductive status := Pending | InProgress | Completed.
#[global] Instance status_eq_dec : EqDecision status.
Proof. solve_decision. Defined.
End PlanStepStatus.
Record PlanStep := { plan_step : text; plan_status : PlanStepStatus.status }.

Module PermissionDecision.
Inductive decision := NotRequired | Pending | Approved | Denied (reason : text).
End PermissionDecision.

Module SubAgentActivityKind.
Inductive activity := Started | Interacted | Interrupted.
End SubAgentActivityKind.

Record ToolLifecycleEnvelope := {
  envelope_call : ToolCallId; envelope_tool : ToolName.t; envelope_status : ToolLifecycleStatus; envelope_title : text;
  envelope_summary : text; envelope_success : option bool
}.

Inductive UserInputItem := TextInput (input_text : text) | ImageInput (input_image : Image).

Module UserTurn.
Record user_turn (V : Type) := { turn_id : TurnId; items : list UserInputItem; prompt_dispatch : option V; editor_context : option V }.
#[global] Arguments turn_id {V}.
#[global] Arguments items {V}.
#[global] Arguments prompt_dispatch {V}.
#[global] Arguments editor_context {V}.
End UserTurn.

Definition content_part_of (item : UserInputItem) : option ContentPart :=
  match item with
  | TextInput input_text => if is_empty input_text then None else Some (TextContent input_text)
  | ImageInput input_image => Some (ImageContent input_image)
  end.
Definition content_parts {V} (turn : UserTurn.user_turn V) : list ContentPart := omap content_part_of (UserTurn.items turn).

Module TurnItemPayload.
Inductive shown_item :=
  | UserMessage (shown : text)
  | SteerMessage (shown : text)
  | InterAgentCommunication (communication : History.InterAgentCommunication)
  | SubAgentActivity (activity_id : text) (agent_session_id : SessionId) (agent_path : text) (activity_kind : SubAgentActivityKind.activity)
  | AgentMessage (shown : text)
  | Plan (call_id : option ToolCallId) (explanation : option text) (plan : list PlanStep)
  | WorldState (summary : text)
  | ToolStatus (call_id : ToolCallId) (tool : ToolName.t) (status : ToolLifecycleStatus) (title summary : text)
  | FileChange (call_id : ToolCallId) (change_ids : list ChangeId) (changes : list FileChangeEvidence) (summary : text)
  | ContextCompaction (summary : text)
  | ApprovalRequest (call_id : ToolCallId) (summary : text)
  | Warning (message : text)
  | Error (message : text)
  | DurableFeedback (feedback : DurableRuntimeFeedback)
  | Terminal (outcome : TurnTerminalOutcome).
End TurnItemPayload.

(** [session::RunEvent] *)
Module RunEvent.
Inductive run_event (V : Type) :=
  | SessionStarted (session_id : SessionId) (title : text)
  | SessionTitleUpdated (session_id : SessionId) (title : text)
  | UserTurnStored (session_id : SessionId) (turn : UserTurn.user_turn V)
  | ModelRequestPrepared (session_id : SessionId) (diagnostics : V)
  | ProviderPhase (response_id : ModelResponseId) (event : V)
  | WorldStateUpdated (session_id : SessionId) (snapshot : V) (rendered : text)
  | TextDelta (response_id : ModelResponseId) (delta : text)
  | AssistantMessageCommitted (response_id : ModelResponseId) (committed : text)
  | ReasoningSummaryDelta (response_id : ModelResponseId) (delta : text)
  | ToolCallPending (tool_call_id : ToolCallId) (response_id : ModelResponseId) (model_call_id tool_name arguments_json : text)
  | ToolCallCompleted (tool_call_id : ToolCallId) (tool : ToolName.t) (title summary : text) (metadata : V)
  | ToolCallDeclined (tool_call_id : ToolCallId) (tool : ToolName.t) (reason : text) (metadata : V)
  | ToolCallCancelled (tool_call_id : ToolCallId) (tool : ToolName.t) (reason : text) (metadata : V)
  | ToolCallFailed (tool_call_id : ToolCallId) (tool : ToolName.t) (error : text) (metadata : V)
  | FileChangesRecorded (tool_call_id : ToolCallId) (changes : list ChangeSummary)
  | CompactionCompleted (summarized_messages : N) (layout : CompactionLayout) (clm_checkpoint : option (ClmCheckpoint (V := V)))
      (preserved_user_messages : list text) (summary : text) (replacement_item_ids : list HistoryItemId)
  | PermissionRequested (tool_call_id : ToolCallId) (tool : ToolName.t) (summary : text)
  | PermissionResolved (tool_call_id : ToolCallId) (tool : ToolName.t) (approved : bool)
  | RuntimeNotice (session_id : SessionId) (message : text)
  | RecoverableRuntimeFeedback (session_id : SessionId) (feedback : DurableRuntimeFeedback)
  | TurnTerminal (session_id : SessionId) (terminal : DurableTurnTerminal).
#[global] Arguments SessionStarted {V}.
#[global] Arguments SessionTitleUpdated {V}.
#[global] Arguments UserTurnStored {V}.
#[global] Arguments ModelRequestPrepared {V}.
#[global] Arguments ProviderPhase {V}.
#[global] Arguments WorldStateUpdated {V}.
#[global] Arguments TextDelta {V}.
#[global] Arguments AssistantMessageCommitted {V}.
#[global] Arguments ReasoningSummaryDelta {V}.
#[global] Arguments ToolCallPending {V}.
#[global] Arguments ToolCallCompleted {V}.
#[global] Arguments ToolCallDeclined {V}.
#[global] Arguments ToolCallCancelled {V}.
#[global] Arguments ToolCallFailed {V}.
#[global] Arguments FileChangesRecorded {V}.
#[global] Arguments CompactionCompleted {V}.
#[global] Arguments PermissionRequested {V}.
#[global] Arguments PermissionResolved {V}.
#[global] Arguments RuntimeNotice {V}.
#[global] Arguments RecoverableRuntimeFeedback {V}.
#[global] Arguments TurnTerminal {V}.
End RunEvent.

Inductive RunEventDurability := RuntimeOnly | Committed.
#[export] Instance RunEventDurability_eq_dec : EqDecision RunEventDurability.
Proof. solve_decision. Defined.

Definition durability {V} (event : RunEvent.run_event V) : RunEventDurability :=
  match event with
  | RunEvent.ProviderPhase _ _ | RunEvent.TextDelta _ _ | RunEvent.ReasoningSummaryDelta _ _ | RunEvent.RuntimeNotice _ _ => RuntimeOnly
  | _ => Committed
  end.

Definition run_event_session_id {V} (event : RunEvent.run_event V) : option SessionId :=
  match event with
  | RunEvent.SessionStarted session_id _ | RunEvent.SessionTitleUpdated session_id _ | RunEvent.UserTurnStored session_id _
  | RunEvent.ModelRequestPrepared session_id _ | RunEvent.WorldStateUpdated session_id _ _ | RunEvent.RuntimeNotice session_id _
  | RunEvent.RecoverableRuntimeFeedback session_id _ | RunEvent.TurnTerminal session_id _ => Some session_id
  | _ => None
  end.

(** What serde makes of the parts of a record, reads of a plan, and the number of sections of a world state. *)
Class ProtocolValues (V : Type) := {
  envelope_value : ToolLifecycleEnvelope -> V;
  decision_value : PermissionDecision.decision -> V;
  changes_value : list FileChangeEvidence -> V;
  feedback_value : DurableRuntimeFeedback -> V;
  terminal_value : DurableTurnTerminal -> V;
  activity_value : SubAgentActivityKind.activity -> V;
  turn_payload_value : TurnItemPayload.shown_item -> V;
  plan_from_value : V -> option (list PlanStep);
  section_count : V -> N
}.

(** What one projection draws: identifiers, in the order of the code, and the two readings of the clock. *)
Record Fresh := {
  fresh_history_item : HistoryItemId; history_now_ms : Z; fresh_runtime_event : RuntimeEventId; event_now_ms : Z;
  fresh_compacted : HistoryItemId; fresh_turn_item : TurnItemId
}.

Section Projection.
Context {V : Type} `{JsonValue V} `{ProtocolValues V}.

(** A turn item with its payload as the code has it; [stored_turn_item] is what the store is given. *)
Record ProjectedTurnItem := {
  projected_id : TurnItemId; projected_session : SessionId; projected_turn : TurnId; projected_source : option HistoryItemId;
  projected_sequence_no : Z; projected_payload : TurnItemPayload.shown_item
}.
Definition stored_turn_item (item : ProjectedTurnItem) : TurnItem V :=
  {| turn_item_id := projected_id item; turn_item_session := projected_session item; turn_item_turn := projected_turn item;
     source_item_id := projected_source item; turn_item_sequence_no := projected_sequence_no item;
     turn_item_payload := turn_payload_value (projected_payload item) |}.

Record ProtocolRunEventProjection := {
  runtime_event : RuntimeEvent V; history_item : option (HistoryItem V); turn_item : option ProjectedTurnItem
}.

(** ** Reading the metadata of a tool *)

Definition metadata_success (metadata : V) : option bool :=
  match json_get metadata (lit "tool_metadata") ≫= (fun value => json_field json_as_bool value "success") with
  | Some success => Some success
  | None => json_field json_as_bool metadata "success"
  end.

Definition completed_tool_display_status (metadata : V) : ToolLifecycleStatus :=
  if bool_decide (metadata_success metadata = Some false) then Failed else Completed.

Definition in_progress (step : PlanStep) : bool := bool_decide (plan_status step = PlanStepStatus.InProgress).

Definition plan_from_metadata (metadata : V) : option (option text * list PlanStep) :=
  let value := default metadata (json_get metadata (lit "tool_metadata")) in
  let explanation :=
    match trim <$> json_field json_as_str value "explanation" with
    | Some explanation => if is_empty explanation then None else Some explanation
    | None => None
    end in
  match json_get value (lit "plan") ≫= plan_from_value with
  | None => None
  | Some plan =>
    if existsb (fun item => is_empty (trim (plan_step item))) plan || (1 <? length (List.filter in_progress plan)) then None
    else Some (explanation, plan)
  end.

Definition permission_decision (approved : bool) : PermissionDecision.decision :=
  if approved then PermissionDecision.Approved else PermissionDecision.Denied (lit "permission denied by user").

Definition file_change_evidence (change : ChangeSummary) : FileChangeEvidence :=
  {| evidence_id := change_id change; evidence_kind := change_kind change; evidence_before := path_before change;
     evidence_after := path_after change; evidence_summary := summary_line change |}.
Definition file_changes_summary (changes : list ChangeSummary) : text := join (lit "; ") (map summary_line changes).

Definition image_text (image : Image) : text :=
  match image_source_path image with
  | Some path => path ++ lit " (" ++ show_N (image_byte_len image) ++ lit " bytes)"
  | None => lit "image attachment (" ++ show_N (image_byte_len image) ++ lit " bytes)"
  end.
Definition user_turn_text (turn : UserTurn.user_turn V) : text :=
  join [LF] (map (fun part => match part with TextContent t => t | ImageContent image => image_text image end) (content_parts turn)).

(** ** The three records *)

Definition history_payload (event : RunEvent.run_event V) : option (HistoryItemPayload V) :=
  match event with
  | RunEvent.TextDelta _ _ | RunEvent.ProviderPhase _ _ | RunEvent.ReasoningSummaryDelta _ _ | RunEvent.SessionStarted _ _
  | RunEvent.SessionTitleUpdated _ _ | RunEvent.RuntimeNotice _ _ | RunEvent.PermissionRequested _ _ _ | RunEvent.TurnTerminal _ _ => None
  | RunEvent.AssistantMessageCommitted response_id committed => Some (AssistantItem response_id [TextContent committed])
  | RunEvent.ModelRequestPrepared _ diagnostics => Some (RequestDiagnostics diagnostics)
  | RunEvent.WorldStateUpdated _ snapshot rendered => Some (WorldState snapshot rendered)
  | RunEvent.ToolCallPending tool_call_id response_id model_call_id tool_name arguments_json =>
    Some (ToolCall tool_call_id response_id model_call_id tool_name arguments_json)
  | RunEvent.ToolCallCompleted tool_call_id _ title summary metadata =>
    Some (ToolOutputItem tool_call_id Completed title summary metadata (Some (default true (metadata_success metadata))))
  | RunEvent.ToolCallDeclined tool_call_id _ reason metadata =>
    Some (ToolOutputItem tool_call_id Declined (lit "Tool declined") reason metadata (Some false))
  | RunEvent.ToolCallCancelled tool_call_id _ reason metadata =>
    Some (ToolOutputItem tool_call_id Cancelled (lit "Tool cancelled") reason metadata (Some false))
  | RunEvent.ToolCallFailed tool_call_id _ error metadata =>
    Some (ToolOutputItem tool_call_id Failed (lit "Tool failed") error metadata (Some false))
  | RunEvent.FileChangesRecorded tool_call_id changes =>
    Some (FileChange tool_call_id (map change_id changes) (changes_value (map file_change_evidence changes)) (file_changes_summary changes))
  | RunEvent.CompactionCompleted summarized_messages layout clm_checkpoint preserved_user_messages summary replacement_item_ids =>
    Some (Compaction Automatic layout preserved_user_messages clm_checkpoint
      (if is_empty (trim summary) then lit "summarized " ++ show_N summarized_messages ++ lit " messages" else summary) replacement_item_ids)
  | RunEvent.PermissionResolved tool_call_id _ approved => Some (ApprovalDecision tool_call_id (decision_value (permission_decision approved)))
  | RunEvent.RecoverableRuntimeFeedback _ feedback => Some (DurableFeedback (feedback_value feedback))
  | RunEvent.UserTurnStored _ turn => Some (UserTurn (content_parts turn) (UserTurn.prompt_dispatch turn) (UserTurn.editor_context turn))
  end.

Definition project_history_item (fresh : Fresh) (event : RunEvent.run_event V) (session_id : SessionId) (turn_id : TurnId) (sequence_no : Z)
    : option (HistoryItem V) :=
  (fun payload =>
    {| item_id := fresh_history_item fresh; item_session := session_id; scope := TurnScope turn_id; sequence_no := sequence_no;
       created_at_ms := history_now_ms fresh; payload := payload |}) <$> history_payload event.

Definition turn_payload (event : RunEvent.run_event V) : option TurnItemPayload.shown_item :=
  match event with
  | RunEvent.TextDelta _ _ | RunEvent.ProviderPhase _ _ | RunEvent.ReasoningSummaryDelta _ _ | RunEvent.SessionStarted _ _
  | RunEvent.SessionTitleUpdated _ _ | RunEvent.RuntimeNotice _ _ | RunEvent.ModelRequestPrepared _ _ => None
  | RunEvent.AssistantMessageCommitted _ committed => Some (TurnItemPayload.AgentMessage committed)
  | RunEvent.ToolCallPending tool_call_id _ _ tool_name _ =>
    Some (TurnItemPayload.ToolStatus tool_call_id (ToolName.parse tool_name) Pending tool_name [])
  | RunEvent.ToolCallCompleted tool_call_id tool title summary metadata =>
    match (if decide (tool = ToolName.UpdatePlan) then plan_from_metadata metadata else None) with
    | Some (explanation, plan) => Some (TurnItemPayload.Plan (Some tool_call_id) explanation plan)
    | None => Some (TurnItemPayload.ToolStatus tool_call_id tool (completed_tool_display_status metadata) title summary)
    end
  | RunEvent.ToolCallDeclined tool_call_id tool reason _ =>
    Some (TurnItemPayload.ToolStatus tool_call_id tool Declined (lit "Tool declined") reason)
  | RunEvent.ToolCallCancelled tool_call_id tool reason _ =>
    Some (TurnItemPayload.ToolStatus tool_call_id tool Cancelled (lit "Tool cancelled") reason)
  | RunEvent.ToolCallFailed tool_call_id tool error _ =>
    Some (TurnItemPayload.ToolStatus tool_call_id tool Failed (lit "Tool failed") error)
  | RunEvent.FileChangesRecorded tool_call_id changes =>
    Some (TurnItemPayload.FileChange tool_call_id (map change_id changes) (map file_change_evidence changes) (file_changes_summary changes))
  | RunEvent.CompactionCompleted _ _ _ _ summary _ => Some (TurnItemPayload.ContextCompaction summary)
  | RunEvent.PermissionRequested tool_call_id _ summary => Some (TurnItemPayload.ApprovalRequest tool_call_id summary)
  | RunEvent.PermissionResolved _ _ _ => None
  | RunEvent.RecoverableRuntimeFeedback _ feedback => Some (TurnItemPayload.DurableFeedback feedback)
  | RunEvent.TurnTerminal _ terminal => Some (TurnItemPayload.Terminal (outcome terminal))
  | RunEvent.UserTurnStored _ turn => Some (TurnItemPayload.UserMessage (user_turn_text turn))
  | RunEvent.WorldStateUpdated _ snapshot _ =>
    Some (TurnItemPayload.WorldState (lit "world state updated: " ++ show_N (section_count snapshot) ++ lit " sections"))
  end.

Definition project_turn_item_for_run_event (fresh : Fresh) (event : RunEvent.run_event V) (session_id : SessionId) (turn_id : TurnId) (sequence_no : Z)
    : option ProjectedTurnItem :=
  (fun payload =>
    {| projected_id := fresh_turn_item fresh; projected_session := session_id; projected_turn := turn_id; projected_source := None;
       projected_sequence_no := sequence_no; projected_payload := payload |}) <$> turn_payload event.

Definition lifecycle (call_id : ToolCallId) (tool : ToolName.t) (status : ToolLifecycleStatus) (title summary : text) (success : option bool)
    : RuntimeEventMsg V :=
  ToolLifecycle (envelope_value
    {| envelope_call := call_id; envelope_tool := tool; envelope_status := status; envelope_title := title; envelope_summary := summary;
       envelope_success := success |}).

(** [None]: the [unreachable!] of the streamed events. *)
Definition project_runtime_message (fresh : Fresh) (event : RunEvent.run_event V) (history_item : option (HistoryItem V)) : option (RuntimeEventMsg V) :=
  match event with
  | RunEvent.ProviderPhase _ _ | RunEvent.TextDelta _ _ | RunEvent.ReasoningSummaryDelta _ _ => None
  | RunEvent.SessionStarted _ title => Some (Warning (lit "thread started: " ++ title))
  | RunEvent.SessionTitleUpdated _ title => Some (Warning (lit "thread title updated: " ++ title))
  | RunEvent.UserTurnStored _ turn => Some (UserInputAccepted (N.of_nat (length (UserTurn.items turn))))
  | RunEvent.ModelRequestPrepared _ diagnostics => Some (ModelRequestPrepared diagnostics)
  | RunEvent.WorldStateUpdated _ snapshot _ => Some (WorldStateUpdated snapshot)
  | RunEvent.AssistantMessageCommitted response_id committed => Some (AssistantMessageCommitted response_id committed)
  | RunEvent.ToolCallPending tool_call_id _ _ tool_name _ =>
    Some (lifecycle tool_call_id (ToolName.parse tool_name) Pending tool_name [] None)
  | RunEvent.ToolCallCompleted tool_call_id tool title summary metadata =>
    Some (lifecycle tool_call_id tool Completed title summary (Some (default true (metadata_success metadata))))
  | RunEvent.ToolCallDeclined tool_call_id tool reason _ =>
    Some (lifecycle tool_call_id tool Declined (lit "Tool declined") reason (Some false))
  | RunEvent.ToolCallCancelled tool_call_id tool reason _ =>
    Some (lifecycle tool_call_id tool Cancelled (lit "Tool cancelled") reason (Some false))
  | RunEvent.ToolCallFailed tool_call_id tool error _ =>
    Some (lifecycle tool_call_id tool Failed (lit "Tool failed") error (Some false))
  | RunEvent.FileChangesRecorded tool_call_id changes =>
    Some (FileChangesRecorded tool_call_id (map change_id changes) (file_changes_summary changes))
  | RunEvent.CompactionCompleted _ _ _ _ _ _ =>
    Some (ContextCompacted (match history_item with Some item => item_id item | None => fresh_compacted fresh end) Automatic)
  | RunEvent.PermissionRequested tool_call_id tool summary => Some (ApprovalRequested tool_call_id (ToolName.fmt tool) summary)
  | RunEvent.PermissionResolved tool_call_id tool approved =>
    Some (ApprovalResolved tool_call_id (ToolName.fmt tool) (decision_value (permission_decision approved)))
  | RunEvent.RuntimeNotice _ message => Some (Warning message)
  | RunEvent.RecoverableRuntimeFeedback _ feedback => Some (DurableFeedbackMsg (feedback_value feedback))
  | RunEvent.TurnTerminal _ terminal => Some (TurnTerminal (outcome terminal) (terminal_value terminal))
  end.

Definition with_source (history_item : option (HistoryItem V)) (turn : ProjectedTurnItem) : ProjectedTurnItem :=
  match history_item with
  | Some item =>
    {| projected_id := projected_id turn; projected_session := projected_session turn; projected_turn := projected_turn turn;
       projected_source := Some (item_id item); projected_sequence_no := projected_sequence_no turn;
       projected_payload := projected_payload turn |}
  | None => turn
  end.

(** The outer [None] is a panic. *)
Definition project_protocol_run_event (fresh : Fresh) (event : RunEvent.run_event V) (fallback_session_id : option SessionId) (turn_id : TurnId)
    (sequence_no : Z) : option (option ProtocolRunEventProjection) :=
  match durability event with
  | RuntimeOnly => Some None
  | Committed =>
    match (match run_event_session_id event with Some session_id => Some session_id | None => fallback_session_id end) with
    | None => Some None
    | Some session_id =>
      let history_item := project_history_item fresh event session_id turn_id sequence_no in
      match project_runtime_message fresh event history_item with
      | None => None
      | Some message =>
        Some (Some
          {| runtime_event :=
               {| event_id := fresh_runtime_event fresh; event_session_id := session_id; event_turn_id := turn_id;
                  event_sequence_no := sequence_no; event_created_at_ms := event_now_ms fresh; event_msg := message |};
             history_item := history_item;
             turn_item := with_source history_item <$> project_turn_item_for_run_event fresh event session_id turn_id sequence_no |})
      end
    end
  end.

(** A mailbox message and an activity of a sub-agent. *)
Definition project_direct (fresh : Fresh) (session_id : SessionId) (turn_id : TurnId) (sequence_no : Z) (history_item_id : HistoryItemId)
    (message : RuntimeEventMsg V) (payload : HistoryItemPayload V) (shown : TurnItemPayload.shown_item) : ProtocolRunEventProjection :=
  {| runtime_event :=
       {| event_id := fresh_runtime_event fresh; event_session_id := session_id; event_turn_id := turn_id; event_sequence_no := sequence_no;
          event_created_at_ms := history_now_ms fresh; event_msg := message |};
     history_item := Some
       {| item_id := history_item_id; item_session := session_id; scope := TurnScope turn_id; sequence_no := sequence_no;
          created_at_ms := history_now_ms fresh; payload := payload |};
     turn_item := Some
       {| projected_id := fresh_turn_item fresh; projected_session := session_id; projected_turn := turn_id;
          projected_source := Some history_item_id; projected_sequence_no := sequence_no; projected_payload := shown |} |}.

Definition project_inter_agent_communication_with_history_item_id (fresh : Fresh) (session_id : SessionId) (turn_id : TurnId) (sequence_no : Z)
    (history_item_id : HistoryItemId) (communication : InterAgentCommunication) : ProtocolRunEventProjection :=
  project_direct fresh session_id turn_id sequence_no history_item_id (InterAgentCommunicationReceived communication)
    (InterAgentItem communication) (TurnItemPayload.InterAgentCommunication communication).

Definition project_inter_agent_communication (fresh : Fresh) (session_id : SessionId) (turn_id : TurnId) (sequence_no : Z)
    (communication : InterAgentCommunication) : ProtocolRunEventProjection :=
  project_inter_agent_communication_with_history_item_id fresh session_id turn_id sequence_no (fresh_history_item fresh) communication.

Definition project_sub_agent_activity (fresh : Fresh) (session_id : SessionId) (turn_id : TurnId) (sequence_no : Z) (activity_id : text)
    (agent_session_id : SessionId) (agent_path : text) (activity_kind : SubAgentActivityKind.activity) : ProtocolRunEventProjection :=
  project_direct fresh session_id turn_id sequence_no (fresh_history_item fresh)
    (SubAgentActivityMsg activity_id agent_session_id agent_path (activity_value activity_kind))
    (SubAgentActivity activity_id agent_session_id agent_path (activity_value activity_kind))
    (TurnItemPayload.SubAgentActivity activity_id agent_session_id agent_path activity_kind).

(** ** What the recorder of a turn may write (src/src/protocol/store.rs) *)

Context `{EqDecision V} `{Ulid} (J : ProtocolJson V).

Definition recording_allowed (message : RuntimeEventMsg V) (item : option (HistoryItem V)) (turn : option TurnItemPayload.shown_item) : bool :=
  match message, payload <$> item, turn with
  | Warning _, None, None => true
  | Warning message, Some (ErrorItem history_message), Some (TurnItemPayload.Error turn_message) =>
    text_eqb message history_message && text_eqb message turn_message
  | ModelRequestPrepared _, Some (RequestDiagnostics _), None => true
  | WorldStateUpdated _, Some (WorldState _ _), Some (TurnItemPayload.WorldState _) => true
  | ApprovalRequested call_id _ _, None, Some (TurnItemPayload.ApprovalRequest turn_call_id _) => (call_id =? turn_call_id)%N
  | ApprovalResolved call_id _ _, Some (ApprovalDecision history_call_id _), None => (call_id =? history_call_id)%N
  | ContextCompacted id mode, Some (Compaction history_mode _ _ _ _ _), Some (TurnItemPayload.ContextCompaction _) =>
    match item with Some item => (item_id item =? id)%N | None => false end && match mode, history_mode with Automatic, Automatic => true end
  | DurableFeedbackMsg feedback, Some (DurableFeedback history_feedback), Some (TurnItemPayload.DurableFeedback turn_feedback) =>
    bool_decide (feedback = history_feedback) && bool_decide (feedback = feedback_value turn_feedback)
  | _, _, _ => false
  end.

Definition recording_refused (message : RuntimeEventMsg V) : StoreError :=
  StoreMessage (lit "protocol recording sink cannot own runtime projection `" ++ runtime_event_kind message ++ lit "`; use its atomic state owner").

Definition validate_recording_projection (projection : ProtocolRunEventProjection) : result unit StoreError :=
  let? _ := validate_event_bundle_coherence J (runtime_event projection) (history_item projection) (stored_turn_item <$> turn_item projection) in
  if recording_allowed (event_msg (runtime_event projection)) (history_item projection) (projected_payload <$> turn_item projection)
  then Ok tt
  else Err (recording_refused (event_msg (runtime_event projection))).

(** ** What the records of one event have in common *)

(** The session an event is recorded for. *)
Definition recorded_session (event : RunEvent.run_event V) (fallback_session_id : option SessionId) : option SessionId :=
  match run_event_session_id event with Some session_id => Some session_id | None => fallback_session_id end.

(** The events the recorder of a turn owns: the others belong to the transaction of another owner. *)
Definition recorder_owns (event : RunEvent.run_event V) : bool :=
  match event with
  | RunEvent.SessionStarted _ _ | RunEvent.SessionTitleUpdated _ _ | RunEvent.ModelRequestPrepared _ _ | RunEvent.WorldStateUpdated _ _ _
  | RunEvent.CompactionCompleted _ _ _ _ _ _ | RunEvent.PermissionRequested _ _ _ | RunEvent.PermissionResolved _ _ _
  | RunEvent.RecoverableRuntimeFeedback _ _ => true
  | _ => false
  end.

(** How an event ended a tool call, as the event says it. *)
Definition ended_call (event : RunEvent.run_event V) : option (ToolCallId * ToolName.t * ToolLifecycleStatus * bool) :=
  match event with
  | RunEvent.ToolCallCompleted id tool _ _ metadata => Some (id, tool, Completed, default true (metadata_success metadata))
  | RunEvent.ToolCallDeclined id tool _ _ => Some (id, tool, Declined, false)
  | RunEvent.ToolCallCancelled id tool _ _ => Some (id, tool, Cancelled, false)
  | RunEvent.ToolCallFailed id tool _ _ => Some (id, tool, Failed, false)
  | _ => None
  end.

(** The same event with another checkpoint and other messages to replay. *)
Definition with_replay (checkpoint : option (ClmCheckpoint (V := V))) (preserved : list text) (event : RunEvent.run_event V) : RunEvent.run_event V :=
  match event with
  | RunEvent.CompactionCompleted n layout _ _ summary ids => RunEvent.CompactionCompleted n layout checkpoint preserved summary ids
  | _ => event
  end.

Definition well_formed_plan (explanation : option text) (plan : list PlanStep) : Prop :=
  (forall e, explanation = Some e -> e <> []) /\ (forall step, step ∈ plan -> trim (plan_step step) <> []) /\
  length (List.filter in_progress plan) <= 1.

Lemma projection_cases fresh event fallback turn_id n r : project_protocol_run_event fresh event fallback turn_id n = Some (Some r) ->
  durability event = Committed /\ exists session_id message, recorded_session event fallback = Some session_id /\
    project_runtime_message fresh event (project_history_item fresh event session_id turn_id n) = Some message /\
    r = {| runtime_event := {| event_id := fresh_runtime_event fresh; event_session_id := session_id; event_turn_id := turn_id;
             event_sequence_no := n; event_created_at_ms := event_now_ms fresh; event_msg := message |};
           history_item := project_history_item fresh event session_id turn_id n;
           turn_item := with_source (project_history_item fresh event session_id turn_id n) <$>
             project_turn_item_for_run_event fresh event session_id turn_id n |}.
Proof.
  unfold project_protocol_run_event. fold (recorded_session event fallback). destruct (durability event) eqn:Ed; [discriminate|].
  destruct (recorded_session event fallback) as [session_id|]; [|discriminate].
  destruct (project_runtime_message _ _ _) as [message|] eqn:Em; [|discriminate]. intros [= <-]. split; [done|]. by exists session_id, message.
Qed.

Lemma committed_message fresh event item : durability event = Committed -> is_Some (project_runtime_message fresh event item).
Proof. destruct event; cbn; intros E; try discriminate E; eexists; reflexivity. Qed.

(** A bundle of one session, turn and sequence number, whose turn item names its history item, passes the store's check. *)
Lemma bundle_coherent (event : RuntimeEvent V) (item : option (HistoryItem V)) (turn : option (TurnItem V)) :
  (forall i, item = Some i -> item_session i = event_session_id event /\ scope i = TurnScope (event_turn_id event)) ->
  (forall t, turn = Some t -> turn_item_session t = event_session_id event /\ turn_item_turn t = event_turn_id event) ->
  (forall i t, item = Some i -> turn = Some t -> source_item_id t = Some (item_id i)) ->
  validate_event_bundle_coherence J event item turn = Ok tt.
Proof.
  intros Hi Ht Hs. unfold validate_event_bundle_coherence, validate_event_history_identity, validate_event_turn_identity, validate_history_turn_bundle_coherence.
  destruct item as [i|], turn as [t|]; cbn [and_then].
  - destruct (Hi i eq_refl) as [E1 E2], (Ht t eq_refl) as [E3 E4]. rewrite E1, E2, E3, E4, !N.eqb_refl. cbn.
    by rewrite bool_decide_eq_true_2 by auto.
  - destruct (Hi i eq_refl) as [E1 E2]. by rewrite E1, E2, !N.eqb_refl.
  - destruct (Ht t eq_refl) as [E3 E4]. by rewrite E3, E4, !N.eqb_refl.
  - done.
Qed.

Lemma projection_coherent fresh event fallback turn_id n r : project_protocol_run_event fresh event fallback turn_id n = Some (Some r) ->
  validate_event_bundle_coherence J (runtime_event r) (history_item r) (stored_turn_item <$> turn_item r) = Ok tt.
Proof.
  intros (_ & s & m & _ & _ & ->)%projection_cases. apply bundle_coherent; cbn; unfold project_history_item, project_turn_item_for_run_event.
  - by intros i (p & _ & ->)%fmap_Some.
  - intros t (u & (w & (p & _ & ->)%fmap_Some & ->)%fmap_Some & ->)%fmap_Some. by destruct (history_payload event).
  - intros i t (p & -> & ->)%fmap_Some (u & (w & _ & ->)%fmap_Some & ->)%fmap_Some. done.
Qed.

Lemma direct_coherent fresh session_id turn_id n id message p shown :
  let r := project_direct fresh session_id turn_id n id message p shown in
  validate_event_bundle_coherence J (runtime_event r) (history_item r) (stored_turn_item <$> turn_item r) = Ok tt.
Proof. apply bundle_coherent; cbn; [by intros ? [= <-]..|by intros ? ? [= <-] [= <-]]. Qed.

(** C29. The projection of a run event never panics.  It records nothing exactly of the events the session does not own and of those
    without a session; whatever it records is one session, turn and sequence number with the turn item naming its history item, which is
    what the store demands of a bundle.  So are the projections of a delivered message and of a sub-agent's activity. *)
Theorem projected_bundles_are_coherent fresh event fallback_session_id turn_id n :
  (exists r, project_protocol_run_event fresh event fallback_session_id turn_id n = Some r /\
    (r = None <-> durability event = RuntimeOnly \/ recorded_session event fallback_session_id = None) /\
    forall b, r = Some b ->
      recorded_session event fallback_session_id = Some (event_session_id (runtime_event b)) /\ event_turn_id (runtime_event b) = turn_id /\
      event_sequence_no (runtime_event b) = n /\
      validate_event_bundle_coherence J (runtime_event b) (history_item b) (stored_turn_item <$> turn_item b) = Ok tt) /\
  (forall session_id id communication,
    let b := project_inter_agent_communication_with_history_item_id fresh session_id turn_id n id communication in
    validate_event_bundle_coherence J (runtime_event b) (history_item b) (stored_turn_item <$> turn_item b) = Ok tt) /\
  (forall session_id activity_id agent_session_id agent_path activity_kind,
    let b := project_sub_agent_activity fresh session_id turn_id n activity_id agent_session_id agent_path activity_kind in
    validate_event_bundle_coherence J (runtime_event b) (history_item b) (stored_turn_item <$> turn_item b) = Ok tt).
Proof.
  split; [|split; intros; apply direct_coherent].
  destruct (project_protocol_run_event fresh event fallback_session_id turn_id n) as [[b|]|] eqn:E.
  - exists (Some b). split; [done|]. pose proof E as (Hd & s & m & Hs & _ & Hb)%projection_cases. split.
    + split; [discriminate|]. intros [?|?]; congruence.
    + intros ? [= <-]. split; [by rewrite Hb|]. split; [by rewrite Hb|]. split; [by rewrite Hb|]. by apply projection_coherent in E.
  - exists None. split; [done|]. split; [|discriminate]. split; [intros _|done]. revert E. unfold project_protocol_run_event. fold (recorded_session event fallback_session_id).
    destruct (durability event); [by left|]. destruct (recorded_session _ _); [|by right]. by destruct (project_runtime_message _ _ _).
  - exfalso. revert E. unfold project_protocol_run_event. destruct (durability event) eqn:Ed; [discriminate|]. fold (recorded_session event fallback_session_id).
    destruct (recorded_session _ _) as [s|]; [|discriminate]. destruct (committed_message fresh event
      (project_history_item fresh event s turn_id n) Ed) as [m ->]. discriminate.
Qed.

(** C26. What the recorder of a turn accepts of the projections is exactly what no other owner commits: session notices, the request made,
    the world state, permission questions and answers, compactions and feedback.  An answer of the model, a tool call or its result, file
    changes, the user's input and the terminal are refused whatever they hold. *)
Theorem recorder_accepts_its_own_events fresh event fallback_session_id turn_id n b :
  project_protocol_run_event fresh event fallback_session_id turn_id n = Some (Some b) ->
  validate_recording_projection b = if recorder_owns event then Ok tt else Err (recording_refused (event_msg (runtime_event b))).
Proof.
  intros E. unfold validate_recording_projection. rewrite (projection_coherent _ _ _ _ _ _ E). cbn [and_then].
  apply projection_cases in E as (Hd & s & m & _ & Hm & ->).
  destruct event; try discriminate Hd; injection Hm as <-; cbn;
    rewrite ?N.eqb_refl, ?bool_decide_eq_true_2 by done; repeat case_match; done.
Qed.

(** When a tool call ends, the observers, the model and the display are told the same thing: the same call, title and text, the same
    status and the same evidence of success in the event and in the history; the display shows the call as completed exactly when the
    evidence says it succeeded, unless it shows the plan the call updated. *)
Theorem ended_calls_agree fresh event fallback_session_id turn_id n b id tool status success :
  ended_call event = Some (id, tool, status, success) ->
  project_protocol_run_event fresh event fallback_session_id turn_id n = Some (Some b) ->
  exists envelope item metadata turn,
    event_msg (runtime_event b) = ToolLifecycle (envelope_value envelope) /\ history_item b = Some item /\ turn_item b = Some turn /\
    envelope_call envelope = id /\ envelope_tool envelope = tool /\ envelope_status envelope = status /\ envelope_success envelope = Some success /\
    payload item = ToolOutputItem id status (envelope_title envelope) (envelope_summary envelope) metadata (Some success) /\
    match projected_payload turn with
    | TurnItemPayload.ToolStatus id' tool' shown title summary =>
      id' = id /\ tool' = tool /\ title = envelope_title envelope /\ summary = envelope_summary envelope /\
      (shown = Completed <-> success = true) /\ (status <> Completed -> shown = status)
    | TurnItemPayload.Plan call _ _ => call = Some id /\ tool = ToolName.UpdatePlan /\ status = Completed
    | _ => False
    end.
Proof.
  intros He (_ & s & m & _ & Hm & ->)%projection_cases.
  destruct event; try discriminate He; injection He as <- <- <- <-; injection Hm as <-; cbn.
  1: unfold project_turn_item_for_run_event; cbn [turn_payload];
     destruct (if decide (_ = _) then plan_from_metadata _ else None) as [[explanation plan]|] eqn:Ep.
  all: do 4 eexists; split; [reflexivity|]; split; [reflexivity|]; split; [reflexivity|]; cbn; repeat split; try done.
  - by case_decide.
  - unfold completed_tool_display_status. case_bool_decide as Es; [discriminate|]. intros _. by destruct (metadata_success metadata) as [[]|].
  - unfold completed_tool_display_status. case_bool_decide as Es; [|done]. by rewrite Es.
Qed.

(** A plan is shown only of a completed [update_plan] call, and a plan that is shown names every step, has at most one step in
    progress and no blank explanation. *)
Theorem shown_plans_are_well_formed fresh event fallback_session_id turn_id n b turn call explanation plan :
  project_protocol_run_event fresh event fallback_session_id turn_id n = Some (Some b) ->
  turn_item b = Some turn -> projected_payload turn = TurnItemPayload.Plan call explanation plan ->
  well_formed_plan explanation plan /\
  exists id title summary metadata, event = RunEvent.ToolCallCompleted id ToolName.UpdatePlan title summary metadata /\ call = Some id.
Proof.
  intros (_ & s & m & _ & _ & ->)%projection_cases Ht Hp. cbn in Ht. unfold project_turn_item_for_run_event in Ht.
  apply fmap_Some in Ht as (u & (p & Ep & ->)%fmap_Some & ->).
  assert (p = TurnItemPayload.Plan call explanation plan) as ->.
  { rewrite <- Hp. by destruct (project_history_item _ _ _ _ _). }
  destruct event; try discriminate Ep. cbn in Ep.
  destruct (decide (tool = ToolName.UpdatePlan)) as [->|_]; [|discriminate Ep].
  destruct (plan_from_metadata metadata) as [[e q]|] eqn:Em; [|discriminate Ep]. injection Ep as <- <- <-.
  split; [|by do 4 eexists]. revert Em. unfold plan_from_metadata. destruct (json_get _ _ ≫= _) as [steps|]; [|discriminate].
  destruct (existsb _ steps || _) eqn:Eb; [discriminate|]. intros [= <- <-]. apply orb_false_iff in Eb as [Hb Hn].
  split; [|split; [|by apply Nat.ltb_ge in Hn]].
  - intros e'. destruct (trim <$> _) as [x|]; [|discriminate]. destruct (is_empty x) eqn:Ex; [discriminate|]. by intros [= <-] ->.
  - intros step Hin Hblank. assert (existsb (fun item => is_empty (trim (plan_step item))) steps = true) as Ht.
    { apply existsb_exists. exists step. split; [by apply list_elem_of_In|]. by rewrite Hblank. }
    congruence.
Qed.

(** What is shown and published of a projection. *)
Definition observed (r : option ProtocolRunEventProjection) : option (RuntimeEvent V * option ProjectedTurnItem) :=
  (fun b => (runtime_event b, turn_item b)) <$> r.

(** What a compaction keeps to be replayed to the model - the checkpoint and the messages preserved - is recorded in the history item
    alone: the published event and the displayed item are the same whatever it is. *)
Theorem replayed_contents_stay_in_the_history fresh event checkpoint preserved fallback_session_id turn_id n :
  observed <$> project_protocol_run_event fresh (with_replay checkpoint preserved event) fallback_session_id turn_id n =
  observed <$> project_protocol_run_event fresh event fallback_session_id turn_id n /\
  forall summarized layout summary ids b,
    project_protocol_run_event fresh (RunEvent.CompactionCompleted summarized layout checkpoint preserved summary ids) fallback_session_id turn_id n =
      Some (Some b) ->
    exists item shown, history_item b = Some item /\ payload item = Compaction Automatic layout preserved checkpoint shown ids.
Proof.
  split.
  - destruct event; try done. unfold project_protocol_run_event. cbn. by destruct fallback_session_id.
  - intros summarized layout summary ids b (_ & s & m & _ & _ & ->)%projection_cases. by do 2 eexists.
Qed.
End Projection.
#[global] Arguments ProtocolRunEventProjection V : clear implicits.

(** ** Concrete events

    Records as objects of the concrete JSON; a plan is an object from steps to their status. *)
#[local] Existing Instance one_char_ulid.

Definition status_value (status : ToolLifecycleStatus) : Tree := TStr (tool_lifecycle_status_label status).
Definition flag_value (b : option bool) : Tree := match b with Some b => TBool b | None => TNull end.
Definition kind_value (kind : text) (shown : text) : Tree := TObj [(lit "kind", TStr kind); (lit "text", TStr shown)].
Definition step_status (v : Tree) : option PlanStepStatus.status :=
  match json_as_str v with
  | Some s => if text_eqb s (lit "pending") then Some PlanStepStatus.Pending
              else if text_eqb s (lit "in_progress") then Some PlanStepStatus.InProgress
              else if text_eqb s (lit "completed") then Some PlanStepStatus.Completed else None
  | None => None
  end.
Fixpoint plan_of_fields (fields : list (text * Tree)) : option (list PlanStep) :=
  match fields with
  | [] => Some []
  | (step, v) :: rest =>
    match step_status v, plan_of_fields rest with
    | Some status, Some plan => Some ({| plan_step := step; plan_status := status |} :: plan)
    | _, _ => None
    end
  end.

#[export] Instance Tree_values : ProtocolValues Tree := {|
  envelope_value e := TObj [(lit "call", TInt (Z.of_N (envelope_call e))); (lit "tool", TStr (ToolName.fmt (envelope_tool e)));
    (lit "status", status_value (envelope_status e)); (lit "title", TStr (envelope_title e)); (lit "summary", TStr (envelope_summary e));
    (lit "success", flag_value (envelope_success e))];
  decision_value d := TStr match d with
    | PermissionDecision.NotRequired => lit "not_required" | PermissionDecision.Pending => lit "pending"
    | PermissionDecision.Approved => lit "approved" | PermissionDecision.Denied reason => lit "denied: " ++ reason
    end;
  changes_value changes := TObj (map (fun c => (evidence_summary c, TInt (Z.of_N (evidence_id c)))) changes);
  feedback_value f := TStr (feedback_public_message f);
  terminal_value t := TInt (Z.of_N (terminal_tool_call_count t));
  activity_value a := TStr match a with
    | SubAgentActivityKind.Started => lit "started" | SubAgentActivityKind.Interacted => lit "interacted"
    | SubAgentActivityKind.Interrupted => lit "interrupted"
    end;
  turn_payload_value p := match p with
    | TurnItemPayload.UserMessage shown => kind_value (lit "user_message") shown
    | TurnItemPayload.AgentMessage shown => kind_value (lit "agent_message") shown
    | TurnItemPayload.ToolStatus _ _ status title _ => kind_value (tool_lifecycle_status_label status) title
    | TurnItemPayload.ContextCompaction summary => kind_value (lit "context_compaction") summary
    | _ => TNull
    end;
  plan_from_value v := match v with TObj fields => plan_of_fields fields | _ => None end;
  section_count v := match json_get v (lit "sections") with Some (TObj sections) => N.of_nat (length sections) | _ => 0%N end
|}.

Definition demo_fresh : Fresh :=
  {| fresh_history_item := 21; history_now_ms := 5; fresh_runtime_event := 22; event_now_ms := 6; fresh_compacted := 23; fresh_turn_item := 24 |}.
Definition demo_plan_update : RunEvent.run_event Tree :=
  RunEvent.ToolCallCompleted 7 ToolName.UpdatePlan (lit "Plan updated") (lit "Plan updated")
    (TObj [(lit "success", TBool true);
           (lit "tool_metadata", TObj [(lit "plan", TObj [(lit "Implement", TStr (lit "in_progress")); (lit "Test", TStr (lit "pending"))])])]).
Definition demo_failed_shell : RunEvent.run_event Tree :=
  RunEvent.ToolCallCompleted 8 ToolName.Shell (lit "make") (lit "exit 1")
    (TObj [(lit "success", TBool true); (lit "tool_metadata", TObj [(lit "success", TBool false)])]).
Definition demo_compaction : RunEvent.run_event Tree :=
  RunEvent.CompactionCompleted 3 LegacyPrefix None [] (lit "short") [11%N].

Definition demo_projection (event : RunEvent.run_event Tree) : ProtocolRunEventProjection Tree :=
  match project_protocol_run_event demo_fresh event (Some 1%N) 2 4 with
  | Some (Some b) => b
  | _ => project_inter_agent_communication_with_history_item_id demo_fresh 1 2 4 21
           {| author := []; recipient := []; communication_content := []; trigger_turn := false |}
  end.

Example nested_outcome_overrides_the_outer : metadata_success (TObj [(lit "success", TBool true); (lit "tool_metadata", TObj [(lit "success", TBool false)])]) = Some false.
Proof. reflexivity. Qed.
Example failed_command_shown_as_failed :
  projected_payload <$> turn_item (demo_projection demo_failed_shell) = Some (TurnItemPayload.ToolStatus 8 ToolName.Shell Failed (lit "make") (lit "exit 1")).
Proof. vm_compute. reflexivity. Qed.

Lemma projected_bundles_are_coherent_witness : exists b,
  project_protocol_run_event demo_fresh demo_plan_update (Some 1%N) 2 4 = Some (Some b) /\ event_sequence_no (runtime_event b) = 4%Z.
Proof.
  destruct (proj1 (projected_bundles_are_coherent demo_json demo_fresh demo_plan_update (Some 1%N) 2 4)) as (r & E & _ & Hb).
  assert (r = Some (demo_projection demo_plan_update)) as Hr by (injection E as <-; reflexivity). exists (demo_projection demo_plan_update).
  split; [by rewrite <- Hr|]. exact (proj1 (proj2 (proj2 (Hb _ Hr)))).
Defined.

Lemma recorder_accepts_its_own_events_witness :
  validate_recording_projection demo_json (demo_projection demo_compaction) = Ok tt /\
  validate_recording_projection demo_json (demo_projection demo_failed_shell) =
    Err (recording_refused (event_msg (runtime_event (demo_projection demo_failed_shell)))).
Proof.
  split.
  - exact (recorder_accepts_its_own_events demo_json demo_fresh demo_compaction (Some 1%N) 2 4 _ eq_refl).
  - exact (recorder_accepts_its_own_events demo_json demo_fresh demo_failed_shell (Some 1%N) 2 4 _ eq_refl).
Defined.

Lemma ended_calls_agree_witness : exists envelope item metadata turn,
  event_msg (runtime_event (demo_projection demo_failed_shell)) = ToolLifecycle (envelope_value envelope) /\
  history_item (demo_projection demo_failed_shell) = Some item /\ turn_item (demo_projection demo_failed_shell) = Some turn /\
  envelope_call envelope = 8%N /\ envelope_tool envelope = ToolName.Shell /\ envelope_status envelope = Completed /\
  envelope_success envelope = Some false /\
  payload item = ToolOutputItem 8 Completed (envelope_title envelope) (envelope_summary envelope) metadata (Some false) /\
  match projected_payload turn with
  | TurnItemPayload.ToolStatus id' tool' shown title summary =>
    id' = 8%N /\ tool' = ToolName.Shell /\ title = envelope_title envelope /\ summary = envelope_summary envelope /\
    (shown = Completed <-> false = true) /\ (Completed <> Completed -> shown = Completed)
  | TurnItemPayload.Plan call _ _ => call = Some 8%N /\ ToolName.Shell = ToolName.UpdatePlan /\ Completed = Completed
  | _ => False
  end.
Proof. exact (ended_calls_agree demo_fresh demo_failed_shell (Some 1%N) 2 4 _ 8 ToolName.Shell Completed false eq_refl eq_refl). Defined.

Lemma shown_plans_are_well_formed_witness : exists explanation plan, well_formed_plan explanation plan /\ length plan = 2.
Proof.
  exists None, [{| plan_step := lit "Implement"; plan_status := PlanStepStatus.InProgress |}; {| plan_step := lit "Test"; plan_status := PlanStepStatus.Pending |}].
  split; [|reflexivity]. exact (proj1 (shown_plans_are_well_formed demo_fresh demo_plan_update (Some 1%N) 2 4 _ _ (Some 7%N) None _ eq_refl eq_refl eq_refl)).
Defined.

Lemma replayed_contents_stay_in_the_history_witness : exists item shown,
  history_item (demo_projection demo_compaction) = Some item /\ payload item = Compaction Automatic LegacyPrefix [] None shown [11%N].
Proof.
  exact (proj2 (replayed_contents_stay_in_the_history demo_fresh demo_compaction None [] (Some 1%N) 2 4) 3%N LegacyPrefix (lit "short") [11%N] _ eq_refl).
Defined.
