(* ===== verification/EventHub.v ===== *)
(** * The hub of runtime events (src/src/runtime/event_bus.rs)

    Committed runtime events are fanned out to the observers of a session through one broadcast channel per session.  The hub remembers
    the last events it published, so that a replay is not delivered twice, and a channel is forgotten when its last subscription is
    dropped.  A method is split where the mutex is released: publishing claims an event and finds the channel under the lock and sends
    after it; dropping a subscription looks at the receivers under the lock and gives up its own afterwards.  The steps of all callers
    interleave.  The broadcast channel of tokio is an interface with its documented behaviour. *)
From S2P Require Import Prelude.
From S2P Require Import Text.
From S2P Require Import PermissionFence.
From S2P Require Import ProtocolStore.

Open Scope nat_scope.

(** ** The broadcast channel

    [waiting ch r] is what receiver [r] has not taken yet, with the number of events it lost for being slow; [None] if there is no such
    receiver.  Only [waiting], [receivers] and [capacity] are for stating the laws. *)

Inductive RecvAnswer (E : Type) := Got (event : E) | Lagged (missed : N) | NothingYet.
#[global] Arguments Got {E}.
#[global] Arguments Lagged {E}.
#[global] Arguments NothingYet {E}.

Class Broadcast (E Ch : Type) := {
  channel : nat -> Ch;
  chan_subscribe : Ch -> Ch * nat;
  chan_send : E -> Ch -> Ch;
  chan_recv : nat -> Ch -> Ch * RecvAnswer E;
  chan_drop : nat -> Ch -> Ch;
  receiver_count : Ch -> nat;
  waiting : Ch -> nat -> option (N * list E);
  receivers : Ch -> gset nat;
  capacity : Ch -> nat
}.

Class BroadcastLaws (E Ch : Type) `{Broadcast E Ch} : Prop := {
  receivers_law ch r : r ∈ receivers ch <-> is_Some (waiting ch r);
  receiver_count_law ch : receiver_count ch = size (receivers ch);
  channel_law n : receivers (channel n) = ∅ /\ n <= capacity (channel n);
  subscribe_law ch : let '(ch', r) := chan_subscribe ch in
    waiting ch r = None /\ waiting ch' r = Some (0%N, []) /\ (forall r', r' <> r -> waiting ch' r' = waiting ch r') /\ capacity ch' = capacity ch;
  send_law e ch r : match waiting ch r with
    | None => waiting (chan_send e ch) r = None
    | Some (missed, l) => exists k, waiting (chan_send e ch) r = Some ((missed + N.of_nat k)%N, drop k (l ++ [e])) /\
        k <= length l + 1 /\ (length l < capacity ch -> k = 0)
    end;
  send_capacity e ch : capacity (chan_send e ch) = capacity ch;
  recv_law r ch missed l : waiting ch r = Some (missed, l) ->
    let '(ch', answer) := chan_recv r ch in
    (forall r', r' <> r -> waiting ch' r' = waiting ch r') /\ capacity ch' = capacity ch /\
    (if (missed =? 0)%N
     then match l with
          | [] => answer = NothingYet /\ waiting ch' r = Some (0%N, [])
          | e :: rest => answer = Got e /\ waiting ch' r = Some (0%N, rest)
          end
     else answer = Lagged missed /\ waiting ch' r = Some (0%N, l));
  drop_law r ch : waiting (chan_drop r ch) r = None /\ (forall r', r' <> r -> waiting (chan_drop r ch) r' = waiting ch r') /\
    capacity (chan_drop r ch) = capacity ch
}.

Section Hub.
Context {V Ch : Type} `{Broadcast (RuntimeEvent V) Ch}.
Local Abbreviation Event := (RuntimeEvent V) (only parsing).

(** ** State *)

Record SessionRuntimeEventHubState := {
  buffer : nat;
  senders : gmap SessionId nat;
  published_event_order : gmap SessionId (list RuntimeEventId);
  published_event_ids : gmap SessionId (gset RuntimeEventId)
}.

Record SessionRuntimeEventSubscription := {
  sub_session : SessionId;
  sub_backfill : list Event;
  sub_backfill_event_ids : gset RuntimeEventId;
  sub_omitted_backfill_events : N;
  sub_sender : nat;
  sub_receiver : nat;
  sub_closing : bool
}.

(** The hub, the channels behind the senders, the subscriptions that exist (one being dropped is [sub_closing]) and the events that are
    claimed and not yet sent. *)
Record HubWorld := {
  state : SessionRuntimeEventHubState;
  channels : gmap nat Ch;
  subscriptions : gmap nat SessionRuntimeEventSubscription;
  flights : list (nat * Event)
}.

Definition set_state (s : SessionRuntimeEventHubState) (w : HubWorld) : HubWorld :=
  {| state := s; channels := channels w; subscriptions := subscriptions w; flights := flights w |}.
Definition set_channels (m : gmap nat Ch) (w : HubWorld) : HubWorld :=
  {| state := state w; channels := m; subscriptions := subscriptions w; flights := flights w |}.
Definition set_subscriptions (m : gmap nat SessionRuntimeEventSubscription) (w : HubWorld) : HubWorld :=
  {| state := state w; channels := channels w; subscriptions := m; flights := flights w |}.
Definition set_flights (l : list (nat * Event)) (w : HubWorld) : HubWorld :=
  {| state := state w; channels := channels w; subscriptions := subscriptions w; flights := l |}.
Definition set_senders (m : gmap SessionId nat) (s : SessionRuntimeEventHubState) : SessionRuntimeEventHubState :=
  {| buffer := buffer s; senders := m; published_event_order := published_event_order s; published_event_ids := published_event_ids s |}.

Definition hub_new (buffer : nat) : HubWorld :=
  {| state := {| buffer := Nat.max buffer 1; senders := ∅; published_event_order := ∅; published_event_ids := ∅ |};
     channels := ∅; subscriptions := ∅; flights := [] |}.

(** ** Operations *)

Definition on_channel (c : nat) (f : Ch -> Ch) (w : HubWorld) : HubWorld := set_channels (alter f c (channels w)) w.

(** The sender of a session, made if there is none. *)
Definition sender_of (session_id : SessionId) (w : HubWorld) : HubWorld * nat :=
  match senders (state w) !! session_id with
  | Some c => (w, c)
  | None =>
    let c := fresh (dom (channels w)) in
    (set_channels (<[c := channel (buffer (state w))]> (channels w))
       (set_state (set_senders (<[session_id := c]> (senders (state w))) (state w)) w), c)
  end.

Definition MAX_BACKFILL : nat := N.to_nat MAX_PROTOCOL_PAGE_LIMIT.

Definition bounded_backfill (backfill : list Event) (omitted_backfill_events : N) : list Event * N :=
  if length backfill <=? MAX_BACKFILL then (backfill, omitted_backfill_events)
  else
    let additionally_omitted := length backfill - MAX_BACKFILL in
    (drop additionally_omitted backfill, saturating_add_usize omitted_backfill_events (N.of_nat additionally_omitted)).

Definition event_ids (events : list Event) : gset RuntimeEventId := list_to_set (map event_id events).

Definition with_bounded_backfill_page (backfill : list Event) (omitted_backfill_events : N) (sub : SessionRuntimeEventSubscription)
    : SessionRuntimeEventSubscription :=
  let '(backfill, omitted) := bounded_backfill backfill omitted_backfill_events in
  {| sub_session := sub_session sub; sub_backfill := backfill; sub_backfill_event_ids := event_ids backfill;
     sub_omitted_backfill_events := omitted; sub_sender := sub_sender sub; sub_receiver := sub_receiver sub; sub_closing := sub_closing sub |}.
Definition with_backfill (backfill : list Event) : SessionRuntimeEventSubscription -> SessionRuntimeEventSubscription :=
  with_bounded_backfill_page backfill 0.

Definition new_subscription (session_id : SessionId) (c r : nat) : SessionRuntimeEventSubscription :=
  with_bounded_backfill_page [] 0
    {| sub_session := session_id; sub_backfill := []; sub_backfill_event_ids := ∅; sub_omitted_backfill_events := 0; sub_sender := c;
       sub_receiver := r; sub_closing := false |}.

(** A receiver of the channel [c]. *)
Definition take_receiver (c : nat) (w : HubWorld) : option (HubWorld * nat) :=
  match channels w !! c with
  | None => None
  | Some ch => let '(ch', r) := chan_subscribe ch in Some (set_channels (<[c := ch']> (channels w)) w, r)
  end.

(** [None] does not happen: a sender keeps its channel. *)
Definition subscribe (session_id : SessionId) (w : HubWorld) : option (HubWorld * nat) :=
  let '(w, c) := sender_of session_id w in
  match take_receiver c w with
  | None => None
  | Some (w, r) =>
    let id := fresh (dom (subscriptions w)) in
    Some (set_subscriptions (<[id := new_subscription session_id c r]> (subscriptions w)) w, id)
  end.

(** [publish] up to the release of the mutex: the sender to use, if the event is new and the session has one. *)
Definition publish_claim (event : Event) (w : HubWorld) : HubWorld * option nat :=
  let s := state w in
  let session_id := event_session_id event in
  let ids := default ∅ (published_event_ids s !! session_id) in
  if bool_decide (event_id event ∈ ids) then (w, None)
  else
    let ids := {[event_id event]} ∪ ids in
    let order := default [] (published_event_order s !! session_id) ++ [event_id event] in
    let '(order, ids) :=
      if buffer s <? length order
      then match order with [] => (order, ids) | evicted :: rest => (rest, ids ∖ {[evicted]}) end
      else (order, ids) in
    (set_state {| buffer := buffer s; senders := senders s;
                  published_event_order := <[session_id := order]> (published_event_order s);
                  published_event_ids := <[session_id := ids]> (published_event_ids s) |} w,
     senders s !! session_id).

(** What is left of it: an observer that is gone is no failure. *)
Definition publish_send (c : nat) (event : Event) (w : HubWorld) : HubWorld := on_channel c (chan_send event) w.

(** [publish] of a caller nobody interrupts. *)
Definition publish (event : Event) (w : HubWorld) : HubWorld :=
  let '(w, target) := publish_claim event w in
  match target with Some c => publish_send c event w | None => w end.

Definition set_sub (id : nat) (sub : SessionRuntimeEventSubscription) (w : HubWorld) : HubWorld :=
  set_subscriptions (<[id := sub]> (subscriptions w)) w.
Definition subscribe_with_backfill (session_id : SessionId) (backfill : list Event) (w : HubWorld) : option (HubWorld * nat) :=
  match subscribe session_id w with
  | None => None
  | Some (w, id) =>
    match subscriptions w !! id with Some sub => Some (set_sub id (with_backfill backfill sub) w, id) | None => None end
  end.

Definition pop_backfill (rest : list Event) (sub : SessionRuntimeEventSubscription) : SessionRuntimeEventSubscription :=
  {| sub_session := sub_session sub; sub_backfill := rest; sub_backfill_event_ids := sub_backfill_event_ids sub;
     sub_omitted_backfill_events := sub_omitted_backfill_events sub; sub_sender := sub_sender sub; sub_receiver := sub_receiver sub;
     sub_closing := sub_closing sub |}.
Definition forget_backfilled (event_id : RuntimeEventId) (sub : SessionRuntimeEventSubscription) : SessionRuntimeEventSubscription :=
  {| sub_session := sub_session sub; sub_backfill := sub_backfill sub; sub_backfill_event_ids := sub_backfill_event_ids sub ∖ {[event_id]};
     sub_omitted_backfill_events := sub_omitted_backfill_events sub; sub_sender := sub_sender sub; sub_receiver := sub_receiver sub;
     sub_closing := sub_closing sub |}.
Definition with_receiver (r : nat) (sub : SessionRuntimeEventSubscription) : SessionRuntimeEventSubscription :=
  {| sub_session := sub_session sub; sub_backfill := sub_backfill sub; sub_backfill_event_ids := sub_backfill_event_ids sub;
     sub_omitted_backfill_events := sub_omitted_backfill_events sub; sub_sender := sub_sender sub; sub_receiver := r;
     sub_closing := sub_closing sub |}.
Definition closing (sub : SessionRuntimeEventSubscription) : SessionRuntimeEventSubscription :=
  {| sub_session := sub_session sub; sub_backfill := sub_backfill sub; sub_backfill_event_ids := sub_backfill_event_ids sub;
     sub_omitted_backfill_events := sub_omitted_backfill_events sub; sub_sender := sub_sender sub; sub_receiver := sub_receiver sub;
     sub_closing := true |}.

(** One pass of [recv]: from the backfill, or one answer of the channel. *)
Inductive RecvStep := Delivered (event : Event) | Repeated (event : Event) | Behind (missed : N) | WouldWait | WrongSession (event : Event) | NoReceiver.

Definition recv_once (id : nat) (w : HubWorld) : HubWorld * RecvStep :=
  match subscriptions w !! id with
  | None => (w, NoReceiver)
  | Some sub =>
    match sub_backfill sub with
    | event :: rest => (set_sub id (pop_backfill rest sub) w, Delivered event)
    | [] =>
      match channels w !! sub_sender sub with
      | None => (w, NoReceiver)
      | Some ch =>
        let '(ch', answer) := chan_recv (sub_receiver sub) ch in
        let w := set_channels (<[sub_sender sub := ch']> (channels w)) w in
        match answer with
        | Lagged missed => (w, Behind missed)
        | NothingYet => (w, WouldWait)
        | Got event =>
          if negb (event_session_id event =? sub_session sub)%N then (w, WrongSession event)
          else if bool_decide (event_id event ∈ sub_backfill_event_ids sub) then (set_sub id (forget_backfilled (event_id event) sub) w, Repeated event)
          else (w, Delivered event)
        end
      end
    end
  end.

(** [recv] until it answers or would wait; [None] is out of fuel. *)
Fixpoint recv (fuel : nat) (id : nat) (w : HubWorld) : HubWorld * option RecvStep :=
  match fuel with
  | 0 => (w, None)
  | S fuel =>
    let '(w, answer) := recv_once id w in
    match answer with Repeated _ => recv fuel id w | _ => (w, Some answer) end
  end.

(** The new receiver replaces the old one, which is dropped. *)
Definition resubscribe (id : nat) (w : HubWorld) : option HubWorld :=
  match subscriptions w !! id with
  | None => None
  | Some sub =>
    match take_receiver (sub_sender sub) w with
    | None => None
    | Some (w, r) => Some (set_sub id (with_receiver r sub) (on_channel (sub_sender sub) (chan_drop (sub_receiver sub)) w))
    end
  end.

(** [Drop::drop]; [Weak::upgrade] fails only once there is neither a hub nor a publisher left. *)
Definition drop_body (id : nat) (w : HubWorld) : option HubWorld :=
  match subscriptions w !! id with
  | None => None
  | Some sub =>
    match channels w !! sub_sender sub with
    | None => None
    | Some ch =>
      let w := set_sub id (closing sub) w in
      Some (if receiver_count ch =? 1 then set_state (set_senders (delete (sub_session sub) (senders (state w))) (state w)) w else w)
    end
  end.

(** The fields go after it. *)
Definition drop_fields (id : nat) (w : HubWorld) : option HubWorld :=
  match subscriptions w !! id with
  | None => None
  | Some sub => Some (set_subscriptions (delete id (subscriptions w)) (on_channel (sub_sender sub) (chan_drop (sub_receiver sub)) w))
  end.

(** ** Interleaved callers *)

Inductive HubLabel :=
  | Subscribed (id : nat) | Backfilled (id : nat) | Claimed (event : Event) (target : option nat) | SentTo (c : nat) (event : Event)
  | Received (id : nat) (answer : RecvStep) | Resubscribed (id : nat) | Closing (id : nat) | Closed (id : nat).

Definition open_sub (w : HubWorld) (id : nat) (sub : SessionRuntimeEventSubscription) : Prop :=
  subscriptions w !! id = Some sub /\ sub_closing sub = false.

Inductive hub_step : HubWorld -> HubLabel -> HubWorld -> Prop :=
  | StepSubscribe w session_id w' id : subscribe session_id w = Some (w', id) -> hub_step w (Subscribed id) w'
  | StepBackfill w id sub backfill omitted : open_sub w id sub ->
      hub_step w (Backfilled id) (set_sub id (with_bounded_backfill_page backfill omitted sub) w)
  | StepClaim w event w' target : publish_claim event w = (w', target) ->
      hub_step w (Claimed event target) (set_flights (flights w' ++ match target with Some c => [(c, event)] | None => [] end) w')
  | StepSend w before c event after : flights w = before ++ (c, event) :: after ->
      hub_step w (SentTo c event) (publish_send c event (set_flights (before ++ after) w))
  | StepRecv w id sub w' answer : open_sub w id sub -> recv_once id w = (w', answer) -> hub_step w (Received id answer) w'
  | StepResubscribe w id sub w' : open_sub w id sub -> resubscribe id w = Some w' -> hub_step w (Resubscribed id) w'
  | StepDropBody w id sub w' : open_sub w id sub -> drop_body id w = Some w' -> hub_step w (Closing id) w'
  | StepDropFields w id sub w' : subscriptions w !! id = Some sub -> sub_closing sub = true -> drop_fields id w = Some w' -> hub_step w (Closed id) w'.

Inductive hub_run : HubWorld -> list HubLabel -> HubWorld -> Prop :=
  | RunNil w : hub_run w [] w
  | RunCons w label w' labels w'' : hub_step w label w' -> hub_run w' labels w'' -> hub_run w (label :: labels) w''.

Definition hub_reachable (w : HubWorld) : Prop := exists buffer labels, hub_run (hub_new buffer) labels w.

Lemma drop_S_tail {A} n (l : list A) : drop (S n) l = tail (drop n l).
Proof. revert l. induction n as [|n IH]; intros [|x l]; try done. by rewrite !skipn_cons, <- IH. Qed.

Lemma elem_of_dropped {A} (x : A) k l : x ∈ drop k l -> x ∈ l.
Proof. rewrite <- (take_drop k l) at 2. set_solver. Qed.

(** ** What holds in every state *)

Context `{!BroadcastLaws (RuntimeEvent V) Ch}.

(** [owner]: the session a channel was made for. *)
Record hub_wf (owner : gmap nat SessionId) (w : HubWorld) : Prop := {
  wf_senders s c : senders (state w) !! s = Some c -> owner !! c = Some s;
  wf_owner c s : owner !! c = Some s -> is_Some (channels w !! c);
  wf_subs id sub : subscriptions w !! id = Some sub -> owner !! sub_sender sub = Some (sub_session sub) /\
    exists ch, channels w !! sub_sender sub = Some ch /\ sub_receiver sub ∈ receivers ch;
  wf_open id sub : open_sub w id sub -> senders (state w) !! sub_session sub = Some (sub_sender sub);
  wf_distinct id id' sub sub' : subscriptions w !! id = Some sub -> subscriptions w !! id' = Some sub' ->
    sub_sender sub = sub_sender sub' -> sub_receiver sub = sub_receiver sub' -> id = id';
  wf_flights c e : (c, e) ∈ flights w -> owner !! c = Some (event_session_id e);
  wf_pending c ch r missed l e : channels w !! c = Some ch -> waiting ch r = Some (missed, l) -> e ∈ l -> owner !! c = Some (event_session_id e);
  wf_buffer : 1 <= buffer (state w)
}.

Lemma new_wf n : hub_wf ∅ (hub_new n).
Proof.
  split; try (intros; cbn in *; unfold open_sub in *; set_solver).
  cbn. lia.
Qed.

(** A channel that is changed without taking the receiver of a subscription away. *)
Lemma channel_changed owner w c ch ch' : hub_wf owner w -> channels w !! c = Some ch ->
  (forall id sub, subscriptions w !! id = Some sub -> sub_sender sub = c -> sub_receiver sub ∈ receivers ch -> sub_receiver sub ∈ receivers ch') ->
  (forall r missed l e, waiting ch' r = Some (missed, l) -> e ∈ l -> owner !! c = Some (event_session_id e)) ->
  hub_wf owner (set_channels (<[c := ch']> (channels w)) w).
Proof.
  intros [H1 H2 H3 H4 H5 H6 H7 H8] Ec Hr Hp. split; try done; cbn.
  - intros c' s Ho. destruct (decide (c' = c)) as [->|Hne]; [rewrite lookup_insert_eq; eauto|]. rewrite lookup_insert_ne by done. eauto.
  - intros id sub Es. destruct (H3 _ _ Es) as (Ho & ch0 & E0 & Hin). split; [done|].
    destruct (decide (sub_sender sub = c)) as [<-|Hne].
    + exists ch'. rewrite lookup_insert_eq. split; [done|]. assert (ch0 = ch) as -> by congruence. eauto.
    + exists ch0. by rewrite lookup_insert_ne by done.
  - intros c' ch0 r missed l e. destruct (decide (c' = c)) as [->|Hne]; [rewrite lookup_insert_eq; intros [= <-]; eauto|].
    rewrite lookup_insert_ne by done. eauto.
Qed.

(** A subscription that keeps its channel and its receiver. *)
Lemma sub_changed owner w id sub sub' : hub_wf owner w -> subscriptions w !! id = Some sub ->
  sub_session sub' = sub_session sub -> sub_sender sub' = sub_sender sub -> sub_receiver sub' = sub_receiver sub ->
  (sub_closing sub' = false -> sub_closing sub = false) -> hub_wf owner (set_sub id sub' w).
Proof.
  intros [H1 H2 H3 H4 H5 H6 H7 H8] Es E1 E2 E3 E4. split; try done; cbn.
  - intros id' sub0. destruct (decide (id' = id)) as [->|Hne]; [|rewrite lookup_insert_ne by done; eauto].
    rewrite lookup_insert_eq. intros [= <-]. rewrite E1, E2, E3. eauto.
  - intros id' sub0 [Hl Hc]. cbn in Hl. destruct (decide (id' = id)) as [->|Hne].
    + rewrite lookup_insert_eq in Hl. injection Hl as <-. rewrite E1, E2. apply (H4 id). split; auto.
    + rewrite lookup_insert_ne in Hl by done. apply (H4 id'). by split.
  - intros i j si sj. destruct (decide (i = id)) as [->|Hi], (decide (j = id)) as [->|Hj]; [done|..]; rewrite ?lookup_insert_eq, ?lookup_insert_ne by done.
    + intros [= <-] Hj' . rewrite E2, E3. eauto.
    + intros Hi' [= <-]. rewrite E2, E3. eauto.
    + eauto.
Qed.

Lemma recv_result r ch missed l ch' answer : waiting ch r = Some (missed, l) -> chan_recv r ch = (ch', answer) ->
  (forall r', r' <> r -> waiting ch' r' = waiting ch r') /\
  exists missed' l', waiting ch' r = Some (missed', l') /\
    match answer with Got e => missed = 0%N /\ l = e :: l' /\ missed' = 0%N | Lagged n => n = missed /\ n <> 0%N /\ l' = l | NothingYet => missed = 0%N /\ l = [] /\ l' = [] /\ missed' = 0%N end.
Proof.
  intros Hw E. pose proof (recv_law r ch missed l Hw) as Hl. rewrite E in Hl. destruct Hl as (Ho & _ & Hl). split; [done|].
  destruct (N.eqb_spec missed 0) as [->|Hn].
  - destruct l as [|e rest]; destruct Hl as [-> Hl]; by do 2 eexists.
  - destruct Hl as [-> Hl]. by do 2 eexists.
Qed.

Lemma recv_keeps_receivers r ch ch' answer r' : r ∈ receivers ch -> chan_recv r ch = (ch', answer) -> r' ∈ receivers ch -> r' ∈ receivers ch'.
Proof.
  intros [[missed l] Hw]%receivers_law E [x Hx]%receivers_law. apply receivers_law.
  destruct (recv_result _ _ _ _ _ _ Hw E) as (Ho & m' & l' & Hw' & _). destruct (decide (r' = r)) as [->|Hne]; [by eexists|]. rewrite Ho by done. by eexists.
Qed.

(** What is waiting after a receive was waiting before. *)
Lemma recv_keeps_events r ch ch' answer r' missed l e : r ∈ receivers ch -> chan_recv r ch = (ch', answer) ->
  waiting ch' r' = Some (missed, l) -> e ∈ l -> exists missed0 l0, waiting ch r' = Some (missed0, l0) /\ e ∈ l0.
Proof.
  intros [[m0 l0] Hw]%receivers_law E Hw' Hin. destruct (recv_result _ _ _ _ _ _ Hw E) as (Ho & m1 & l1 & Hw1 & Ha).
  destruct (decide (r' = r)) as [->|Hne]; [|exists missed, l; by rewrite <- Ho].
  rewrite Hw1 in Hw'. injection Hw' as <- <-. exists m0, l0. split; [done|]. destruct answer as [x|n|].
  - destruct Ha as (_ & -> & _). set_solver.
  - by destruct Ha as (_ & _ & ->).
  - destruct Ha as (_ & _ & -> & _). by apply elem_of_nil in Hin.
Qed.

Lemma send_keeps_receivers e ch r : r ∈ receivers (chan_send e ch) <-> r ∈ receivers ch.
Proof.
  rewrite !receivers_law. pose proof (send_law e ch r) as Hs. destruct (waiting ch r) as [[missed l]|].
  - destruct Hs as (k & -> & _). split; intros _; by eexists.
  - rewrite Hs. done.
Qed.

Lemma sender_of_wf owner w s w' c : hub_wf owner w -> sender_of s w = (w', c) ->
  exists owner', hub_wf owner' w' /\ owner' !! c = Some s /\ senders (state w') !! s = Some c /\
    subscriptions w' = subscriptions w /\ flights w' = flights w /\
    (forall c' ch, channels w !! c' = Some ch -> channels w' !! c' = Some ch).
Proof.
  intros Hwf. pose proof Hwf as [H1 H2 H3 H4 H5 H6 H7 H8]. unfold sender_of. destruct (senders (state w) !! s) as [c0|] eqn:Es; intros [= <- <-].
  - exists owner. eauto 10.
  - set (c := fresh (dom (channels w))). assert (channels w !! c = None) as Hf by (apply not_elem_of_dom, is_fresh).
    assert (owner !! c = None) as Hno. { destruct (owner !! c) as [x|] eqn:Ex; [|done]. apply H2 in Ex as [y Hy]. congruence. }
    assert (forall c' x, owner !! c' = Some x -> <[c:=s]> owner !! c' = Some x) as Hsub.
    { intros c' x Hx. rewrite lookup_insert_ne; [done|]. intros <-. congruence. }
    exists (<[c := s]> owner). split; [|cbn; rewrite !lookup_insert_eq; split_and!; try done; intros c' ch Hc; rewrite lookup_insert_ne; [done|intros <-; congruence]].
    split; cbn.
    + intros s' c'. destruct (decide (s' = s)) as [->|Hne]; [rewrite lookup_insert_eq; intros [= <-]; by rewrite lookup_insert_eq|].
      rewrite lookup_insert_ne by done. eauto.
    + intros c' s'. destruct (decide (c' = c)) as [->|Hne]; [rewrite !lookup_insert_eq; by eexists|]. rewrite !lookup_insert_ne by done. eauto.
    + intros id sub Hs. destruct (H3 _ _ Hs) as (Ho & ch & Hch & Hin). split; [auto|]. exists ch. split; [|done].
      rewrite lookup_insert_ne; [done|]. intros E. rewrite <- E in Hch. congruence.
    + intros id sub [Hs Ho]. cbn in Hs. pose proof (H4 id sub (conj Hs Ho)) as Hx. rewrite lookup_insert_ne; [done|]. intros E. rewrite <- E in Hx. congruence.
    + eauto.
    + intros c' e He. eauto.
    + intros c' ch r missed l e. destruct (decide (c' = c)) as [->|Hne].
      * rewrite lookup_insert_eq. intros [= <-] Hw. exfalso. assert (r ∈ receivers (channel (buffer (state w)))) as Hr by (apply receivers_law; by eexists).
        rewrite (proj1 (channel_law (buffer (state w)))) in Hr. set_solver.
      * rewrite lookup_insert_ne by done. intros. eauto.
    + done.
Qed.

Lemma take_receiver_wf owner w c s w' r : hub_wf owner w -> owner !! c = Some s -> take_receiver c w = Some (w', r) ->
  hub_wf owner w' /\ state w' = state w /\ subscriptions w' = subscriptions w /\ flights w' = flights w /\
  (forall id sub, subscriptions w !! id = Some sub -> sub_sender sub = c -> sub_receiver sub <> r) /\
  exists ch ch', channels w !! c = Some ch /\ channels w' = <[c := ch']> (channels w) /\ waiting ch' r = Some (0%N, []) /\
    (forall r', r' <> r -> waiting ch' r' = waiting ch r').
Proof.
  intros Hwf Ho. unfold take_receiver. destruct (channels w !! c) as [ch|] eqn:Ec; [|discriminate].
  pose proof (subscribe_law ch) as Hl. destruct (chan_subscribe ch) as [ch' r0]. destruct Hl as (Hn & Hr & Hne & _). intros [= <- <-].
  split; [|repeat split; try done].
  - eapply channel_changed; [done|done| |].
    + intros id sub _ _ [x Hx]%receivers_law. apply receivers_law. rewrite Hne; [by eexists|]. intros E. rewrite E in Hx. congruence.
    + intros r missed l e Hw Hin. destruct (decide (r = r0)) as [->|Hd].
      * rewrite Hr in Hw. injection Hw as <- <-. by apply elem_of_nil in Hin.
      * rewrite Hne in Hw by done. eauto using wf_pending.
  - intros id sub Hs E1 E2. destruct (wf_subs _ _ Hwf _ _ Hs) as (_ & ch1 & E & [x Hx]%receivers_law). rewrite E1, Ec in E. injection E as <-. congruence.
  - by exists ch, ch'.
Qed.

Lemma subscribe_wf owner w s w' id : hub_wf owner w -> subscribe s w = Some (w', id) ->
  exists owner', hub_wf owner' w' /\ subscriptions w !! id = None /\ flights w' = flights w /\
    exists c r, subscriptions w' = <[id := new_subscription s c r]> (subscriptions w) /\
      (exists ch, channels w' !! c = Some ch /\ waiting ch r = Some (0%N, [])) /\
      forall id0 sub0 ch0, subscriptions w !! id0 = Some sub0 -> channels w !! sub_sender sub0 = Some ch0 ->
        exists ch1, channels w' !! sub_sender sub0 = Some ch1 /\ waiting ch1 (sub_receiver sub0) = waiting ch0 (sub_receiver sub0).
Proof.
  intros Hwf. unfold subscribe. destruct (sender_of s w) as [w1 c] eqn:E1.
  destruct (sender_of_wf _ _ _ _ _ Hwf E1) as (owner' & Hwf1 & Ho & Hs & Hsubs & Hfl & Hch).
  destruct (take_receiver c w1) as [[w2 r]|] eqn:E2; [|discriminate].
  destruct (take_receiver_wf _ _ _ _ _ _ Hwf1 Ho E2) as (Hwf2 & Hst & Hsubs2 & Hfl2 & Hnew & ch & ch' & Hc & Hcs & Hw & Hother).
  intros [= <- <-]. set (id := fresh (dom (subscriptions w2))).
  assert (subscriptions w2 !! id = None) as Hf by (apply not_elem_of_dom, is_fresh).
  exists owner'. rewrite Hsubs2, Hsubs in Hf. split; [|split; [done|split; [cbn; congruence|]]].
  - destruct Hwf2 as [H1 H2 H3 H4 H5 H6 H7 H8]. split; try done; cbn.
    + intros id0 sub. destruct (decide (id0 = id)) as [->|Hne]; [|rewrite lookup_insert_ne by done; eauto].
      rewrite lookup_insert_eq. intros [= <-]. split; [done|]. exists ch'. rewrite Hcs. cbn. rewrite lookup_insert_eq. split; [done|]. apply receivers_law. by eexists.
    + intros id0 sub [Hl Hcl]. cbn in Hl. destruct (decide (id0 = id)) as [->|Hne].
      * rewrite lookup_insert_eq in Hl. injection Hl as <-. cbn. by rewrite Hst.
      * rewrite lookup_insert_ne in Hl by done. apply (H4 id0). by split.
    + intros i j si sj. rewrite Hsubs2 in *. assert (forall k x, <[id := new_subscription s c r]> (subscriptions w1) !! k = Some x ->
        (k = id /\ x = new_subscription s c r) \/ subscriptions w1 !! k = Some x) as Hk.
      { intros k x. destruct (decide (k = id)) as [->|Hne]; [rewrite lookup_insert_eq; intros [= <-]; by left|]. rewrite lookup_insert_ne by done. by right. }
      intros [[-> ->]|Hi]%Hk [[-> ->]|Hj]%Hk; [done| | |eauto].
      * intros Hs1 Hr1. cbn in Hs1, Hr1. exfalso. by apply (Hnew _ _ Hj).
      * intros Hs1 Hr1. cbn in Hs1, Hr1. exfalso. by apply (Hnew _ _ Hi).
  - exists c, r. split; [cbn; by rewrite Hsubs2, Hsubs|]. split.
    + exists ch'. cbn. rewrite Hcs, lookup_insert_eq. done.
    + intros id0 sub0 ch0 Hs0 Hc0. apply Hch in Hc0. cbn. rewrite Hcs. destruct (decide (sub_sender sub0 = c)) as [E|Hne].
      * exists ch'. rewrite E, lookup_insert_eq. split; [done|]. rewrite E, Hc in Hc0. injection Hc0 as <-. apply Hother.
        apply (Hnew id0); [by rewrite Hsubs|done].
      * exists ch0. by rewrite lookup_insert_ne by done.
Qed.

Lemma claim_wf owner w e w' target : hub_wf owner w -> publish_claim e w = (w', target) ->
  hub_wf owner w' /\ channels w' = channels w /\ subscriptions w' = subscriptions w /\ flights w' = flights w /\
  senders (state w') = senders (state w) /\ buffer (state w') = buffer (state w) /\
  (forall c, target = Some c -> senders (state w) !! event_session_id e = Some c).
Proof.
  intros Hwf. unfold publish_claim. case_bool_decide; [intros [= <- <-]; split; [exact Hwf|]; by split_and!|].
  destruct (if _ <? _ then _ else _) as [order ids]. intros [= <- <-]. split; [|by split_and!].
  destruct Hwf as [H1 H2 H3 H4 H5 H6 H7 H8]. by split.
Qed.

(** ** What a subscription has before it *)

(** The subscription [id] is [sub] and its receiver has [l] to take, after [missed] lost events. *)
Definition looks_at (w : HubWorld) (id : nat) (sub : SessionRuntimeEventSubscription) (missed : N) (l : list Event) : Prop :=
  subscriptions w !! id = Some sub /\ exists ch, channels w !! sub_sender sub = Some ch /\ waiting ch (sub_receiver sub) = Some (missed, l).

Lemma sub_looks owner w id sub : hub_wf owner w -> subscriptions w !! id = Some sub -> exists missed l, looks_at w id sub missed l.
Proof. intros Hwf Hs. destruct (wf_subs _ _ Hwf _ _ Hs) as (_ & ch & Hc & [[m l] Hw]%receivers_law). exists m, l. split; [done|]. by exists ch. Qed.

(** A step changes channel [c] and the subscription [id] and leaves every other receiver as it was. *)
Lemma looks_other w w' id id' sub sub' missed l c ch ch' : id' <> id -> looks_at w id' sub' missed l ->
  channels w !! c = Some ch -> channels w' = <[c := ch']> (channels w) ->
  subscriptions w' !! id' = subscriptions w !! id' ->
  (forall r, r <> sub_receiver sub -> waiting ch' r = waiting ch r) ->
  (sub_sender sub' = c -> sub_receiver sub' <> sub_receiver sub) -> looks_at w' id' sub' missed l.
Proof.
  intros Hne [Hs (ch0 & Hc0 & Hw)] Hc Ec Es Hother Hr. split; [congruence|]. rewrite Ec.
  destruct (decide (sub_sender sub' = c)) as [E|Hd].
  - exists ch'. rewrite E, lookup_insert_eq. split; [done|]. rewrite Hother by auto. rewrite E, Hc in Hc0. by injection Hc0 as <-.
  - exists ch0. by rewrite lookup_insert_ne by done.
Qed.

Lemma recv_once_view owner w id sub missed l w' answer : hub_wf owner w -> looks_at w id sub missed l -> recv_once id w = (w', answer) ->
  hub_wf owner w' /\ state w' = state w /\ flights w' = flights w /\
  (forall id' sub' m' l', id' <> id -> looks_at w id' sub' m' l' -> looks_at w' id' sub' m' l') /\
  match sub_backfill sub with
  | e :: rest => answer = Delivered e /\ looks_at w' id (pop_backfill rest sub) missed l
  | [] =>
    match answer with
    | Delivered e => missed = 0%N /\ event_id e ∉ sub_backfill_event_ids sub /\ exists rest, l = e :: rest /\ looks_at w' id sub 0 rest
    | Repeated e => missed = 0%N /\ event_id e ∈ sub_backfill_event_ids sub /\ exists rest, l = e :: rest /\ looks_at w' id (forget_backfilled (event_id e) sub) 0 rest
    | Behind n => n = missed /\ n <> 0%N /\ exists missed', looks_at w' id sub missed' l
    | WouldWait => missed = 0%N /\ l = [] /\ looks_at w' id sub 0 []
    | WrongSession _ | NoReceiver => False
    end
  end.
Proof.
  intros Hwf [Hs (ch & Hc & Hw)] E. unfold recv_once in E. rewrite Hs in E. destruct (sub_backfill sub) as [|e rest] eqn:Eb.
  2:{ injection E as <- <-. split; [by eapply sub_changed|]. split; [done|]. split; [done|]. split.
      - intros id' sub' m' l' Hne [H1 H2]. split; [|done]. cbn. by rewrite lookup_insert_ne.
      - split; [done|]. split; [cbn; by rewrite lookup_insert_eq|]. by exists ch. }
  rewrite Hc in E. destruct (chan_recv (sub_receiver sub) ch) as [ch' a] eqn:Er.
  destruct (recv_result _ _ _ _ _ _ Hw Er) as (Hother & m' & l' & Hw' & Ha).
  assert (sub_receiver sub ∈ receivers ch) as Hin by (apply receivers_law; by eexists).
  assert (hub_wf owner (set_channels (<[sub_sender sub := ch']> (channels w)) w)) as Hwf'.
  { eapply channel_changed; [done|done| |].
    - intros ? ? _ _. by apply (recv_keeps_receivers _ _ _ _ _ Hin Er).
    - intros r m0 l0 e Hw0 He. destruct (recv_keeps_events _ _ _ _ _ _ _ _ Hin Er Hw0 He) as (? & ? & ? & ?). eauto using wf_pending. }
  assert (forall id' sub' m0 l0, id' <> id -> looks_at w id' sub' m0 l0 -> sub_sender sub' = sub_sender sub -> sub_receiver sub' <> sub_receiver sub) as Hd.
  { intros id' sub' m0 l0 Hne [Hs' _] E1 E2. apply Hne. by apply (wf_distinct _ _ Hwf id' id sub' sub). }
  assert (forall f, (forall id', id' <> id -> subscriptions (f (set_channels (<[sub_sender sub := ch']> (channels w)) w)) !! id' = subscriptions w !! id') ->
    channels (f (set_channels (<[sub_sender sub := ch']> (channels w)) w)) = <[sub_sender sub := ch']> (channels w) ->
    forall id' sub' m0 l0, id' <> id -> looks_at w id' sub' m0 l0 -> looks_at (f (set_channels (<[sub_sender sub := ch']> (channels w)) w)) id' sub' m0 l0) as Hkeep.
  { intros f Hf1 Hf2 id' sub' m0 l0 Hne Hl. eapply looks_other; eauto. }
  destruct a as [e|n|].
  - destruct Ha as (-> & -> & ->). assert (event_session_id e = sub_session sub) as Hes.
    { pose proof (wf_pending _ _ Hwf _ _ _ _ _ e Hc Hw ltac:(set_solver)) as H1. pose proof (proj1 (wf_subs _ _ Hwf _ _ Hs)) as H2. congruence. }
    rewrite Hes, N.eqb_refl in E. cbn [negb] in E. case_bool_decide as Hb; injection E as <- <-.
    + split; [by eapply sub_changed|]. split; [done|]. split; [done|]. split.
      * apply (Hkeep (set_sub id (forget_backfilled (event_id e) sub))); [|done]. intros. cbn. by rewrite lookup_insert_ne.
      * split; [done|]. split; [done|]. exists l'. split; [done|]. split; [cbn; by rewrite lookup_insert_eq|]. exists ch'. cbn. by rewrite lookup_insert_eq.
    + split; [done|]. split; [done|]. split; [done|]. split; [by apply (Hkeep (fun w => w))|].
      split; [done|]. split; [done|]. exists l'. split; [done|]. split; [done|]. exists ch'. cbn. by rewrite lookup_insert_eq.
  - destruct Ha as (-> & Hn & ->). injection E as <- <-. split; [done|]. split; [done|]. split; [done|]. split; [by apply (Hkeep (fun w => w))|].
    split; [done|]. split; [done|]. exists m'. split; [done|]. exists ch'. cbn. by rewrite lookup_insert_eq.
  - destruct Ha as (-> & -> & -> & ->). injection E as <- <-. split; [done|]. split; [done|]. split; [done|]. split; [by apply (Hkeep (fun w => w))|].
    split; [done|]. split; [done|]. split; [done|]. exists ch'. cbn. by rewrite lookup_insert_eq.
Qed.

Lemma send_view owner w c e before after : hub_wf owner w -> flights w = before ++ (c, e) :: after ->
  let w' := publish_send c e (set_flights (before ++ after) w) in
  hub_wf owner w' /\ state w' = state w /\ subscriptions w' = subscriptions w /\
  forall id sub missed l, looks_at w id sub missed l ->
    if decide (sub_sender sub = c)
    then exists k, looks_at w' id sub (missed + N.of_nat k) (drop k (l ++ [e]))
    else looks_at w' id sub missed l.
Proof.
  intros Hwf Hf w'. assert (owner !! c = Some (event_session_id e)) as Ho by (apply (wf_flights _ _ Hwf); rewrite Hf; set_solver).
  destruct (wf_owner _ _ Hwf _ _ Ho) as [ch Hc].
  assert (channels w' = <[c := chan_send e ch]> (channels w)) as Ec.
  { cbn. apply map_eq. intros c'. destruct (decide (c' = c)) as [->|Hne]; [by rewrite lookup_alter_eq, Hc, lookup_insert_eq|].
    by rewrite lookup_alter_ne, lookup_insert_ne. }
  assert (hub_wf owner (set_flights (before ++ after) w)) as Hwf0.
  { destruct Hwf as [H1 H2 H3 H4 H5 H6 H7 H8]. split; try done. cbn. intros c' e' Hin. apply H6. rewrite Hf. set_solver. }
  assert (w' = set_channels (<[c := chan_send e ch]> (channels w)) (set_flights (before ++ after) w)) as Ew.
  { unfold w', publish_send, on_channel. cbn in Ec. unfold set_channels. cbn. by rewrite Ec. }
  split; [|split; [done|split; [done|]]].
  - rewrite Ew. apply (channel_changed owner (set_flights (before ++ after) w) c ch); [done|done| |].
    + intros ? ? _ _. by rewrite send_keeps_receivers.
    + intros r m l x Hw Hin. pose proof (send_law e ch r) as Hl. destruct (waiting ch r) as [[m0 l0]|] eqn:E0; [|congruence].
      destruct Hl as (k & Hw' & _). rewrite Hw' in Hw. injection Hw as <- <-.
      apply elem_of_dropped in Hin. apply elem_of_app in Hin as [Hin|Hin].
      * eauto using wf_pending.
      * apply list_elem_of_singleton in Hin as ->. done.
  - intros id sub missed l [Hs (ch0 & Hc0 & Hw)]. case_decide as Ed.
    + subst c. assert (ch0 = ch) as -> by congruence. pose proof (send_law e ch (sub_receiver sub)) as Hl. rewrite Hw in Hl.
      destruct Hl as (k & Hw' & _). exists k. split; [done|]. exists (chan_send e ch). by rewrite Ec, lookup_insert_eq.
    + split; [done|]. exists ch0. by rewrite Ec, lookup_insert_ne by done.
Qed.

(** The receiver of [id] goes, and [id] with it or to another receiver. *)
Lemma receiver_dropped owner w c r m : hub_wf owner w -> (forall id sub, m !! id = Some sub -> subscriptions w !! id = Some sub) ->
  (forall id sub, m !! id = Some sub -> sub_sender sub = c -> sub_receiver sub <> r) ->
  let w' := set_subscriptions m (on_channel c (chan_drop r) w) in
  hub_wf owner w' /\ forall id sub missed l, m !! id = Some sub -> looks_at w id sub missed l -> looks_at w' id sub missed l.
Proof.
  intros [H1 H2 H3 H4 H5 H6 H7 H8] Hm Hr w'.
  assert (forall id sub ch, m !! id = Some sub -> channels w !! sub_sender sub = Some ch ->
    exists ch', channels w' !! sub_sender sub = Some ch' /\ waiting ch' (sub_receiver sub) = waiting ch (sub_receiver sub)) as Hk.
  { intros id sub ch Hs Hc. cbn. destruct (decide (sub_sender sub = c)) as [E|Hne].
    - rewrite E in *. exists (chan_drop r ch). rewrite lookup_alter_eq, Hc. split; [done|]. pose proof (drop_law r ch) as (_ & Ho & _). apply Ho. by apply (Hr id).
    - exists ch. by rewrite lookup_alter_ne. }
  split; [split; try done; cbn|].
  - intros c' s Ho. destruct (H2 _ _ Ho) as [ch Hc]. destruct (decide (c' = c)) as [->|Hne]; [rewrite lookup_alter_eq, Hc; by eexists|].
    rewrite lookup_alter_ne by done. by eexists.
  - intros id sub Hs. destruct (H3 _ _ (Hm _ _ Hs)) as (Ho & ch & Hc & [x Hx]%receivers_law). split; [done|].
    destruct (Hk _ _ _ Hs Hc) as (ch' & Hc' & Hw). exists ch'. split; [done|]. apply receivers_law. rewrite Hw. by eexists.
  - intros id sub [Hs Ho]. apply (H4 id). split; [by apply Hm|done].
  - eauto.
  - intros c' ch' r' missed l e. destruct (decide (c' = c)) as [->|Hne]; [|rewrite lookup_alter_ne by done; eauto].
    rewrite lookup_alter_eq. intros (ch & Hc & ->)%fmap_Some Hw Hin. pose proof (drop_law r ch) as (Hn & Ho & _).
    destruct (decide (r' = r)) as [->|Hd]; [congruence|]. rewrite Ho in Hw by done. eauto.
  - intros id sub missed l Hs [_ (ch & Hc & Hw)]. split; [done|]. destruct (Hk _ _ _ Hs Hc) as (ch' & Hc' & Hw'). exists ch'. split; [done|]. congruence.
Qed.

Lemma drop_fields_view owner w id sub w' : hub_wf owner w -> subscriptions w !! id = Some sub -> drop_fields id w = Some w' ->
  hub_wf owner w' /\ state w' = state w /\ flights w' = flights w /\
  forall id' sub' missed l, id' <> id -> looks_at w id' sub' missed l -> looks_at w' id' sub' missed l.
Proof.
  intros Hwf Hs. unfold drop_fields. rewrite Hs. intros [= <-].
  destruct (receiver_dropped owner w (sub_sender sub) (sub_receiver sub) (delete id (subscriptions w)) Hwf) as [H1 H2].
  - by intros id' sub' [_ ?]%lookup_delete_Some.
  - intros id' sub' [Hne Hs']%lookup_delete_Some E1 E2. apply Hne. symmetry. by apply (wf_distinct _ _ Hwf id' id sub' sub).
  - split; [done|]. split; [done|]. split; [done|]. intros id' sub' m l Hne Hl. apply H2; [|done]. rewrite lookup_delete_ne by done. apply Hl.
Qed.

Lemma resubscribe_view owner w id sub w' : hub_wf owner w -> open_sub w id sub -> resubscribe id w = Some w' ->
  hub_wf owner w' /\ state w' = state w /\ flights w' = flights w /\
  (exists r, looks_at w' id (with_receiver r sub) 0 []) /\
  forall id' sub' missed l, id' <> id -> looks_at w id' sub' missed l -> looks_at w' id' sub' missed l.
Proof.
  intros Hwf [Hs Hcl]. unfold resubscribe. rewrite Hs. destruct (take_receiver (sub_sender sub) w) as [[w1 r]|] eqn:Et; [|discriminate].
  intros [= <-]. pose proof (proj1 (wf_subs _ _ Hwf _ _ Hs)) as Ho.
  destruct (take_receiver_wf _ _ _ _ _ _ Hwf Ho Et) as (Hwf1 & Hst & Hsubs & Hfl & Hnew & ch & ch' & Hc & Hcs & Hw & Hother).
  assert (hub_wf owner (set_sub id (with_receiver r sub) w1)) as Hwf2.
  { destruct Hwf1 as [H1 H2 H3 H4 H5 H6 H7 H8]. split; try done; cbn; rewrite ?Hsubs.
    - intros i si. destruct (decide (i = id)) as [->|Hne]; [|rewrite lookup_insert_ne by done; rewrite <- Hsubs; eauto].
      rewrite lookup_insert_eq. intros [= <-]. split; [done|]. exists ch'. cbn. rewrite Hcs, lookup_insert_eq. split; [done|]. apply receivers_law. by eexists.
    - intros i si [Hl Hci]. cbn in Hl. rewrite Hsubs in Hl. destruct (decide (i = id)) as [->|Hne].
      + rewrite lookup_insert_eq in Hl. injection Hl as <-. cbn. rewrite Hst. apply (wf_open _ _ Hwf id). by split.
      + rewrite lookup_insert_ne in Hl by done. apply (H4 i). split; [by rewrite Hsubs|done].
    - intros i j si sj. destruct (decide (i = id)) as [->|Hi], (decide (j = id)) as [->|Hj]; [done|..]; rewrite ?lookup_insert_eq, ?lookup_insert_ne by done.
      + intros [= <-] Hsj E1 E2. exfalso. by apply (Hnew j sj Hsj).
      + intros Hsi [= <-] E1 E2. exfalso. by apply (Hnew i si Hsi).
      + rewrite <- Hsubs. eauto. }
  assert (forall id' sub', id' <> id -> subscriptions w !! id' = Some sub' -> sub_sender sub' = sub_sender sub -> sub_receiver sub' <> sub_receiver sub) as Hdist.
  { intros id' sub' Hne Hs' E1 E2. apply Hne. by apply (wf_distinct _ _ Hwf id' id sub' sub). }
  set (m := <[id := with_receiver r sub]> (subscriptions w1)).
  assert (set_sub id (with_receiver r sub) (on_channel (sub_sender sub) (chan_drop (sub_receiver sub)) w1) =
    set_subscriptions m (on_channel (sub_sender sub) (chan_drop (sub_receiver sub)) (set_sub id (with_receiver r sub) w1))) as -> by reflexivity.
  destruct (receiver_dropped owner (set_sub id (with_receiver r sub) w1) (sub_sender sub) (sub_receiver sub) m Hwf2) as [H1 H2]; [done| |].
  - intros i si. unfold m. destruct (decide (i = id)) as [->|Hne].
    + rewrite lookup_insert_eq. intros [= <-] _ E. cbn in E. by apply (Hnew id sub Hs).
    + rewrite lookup_insert_ne by done. rewrite Hsubs. intros Hsi. by apply (Hdist i si).
  - split; [done|]. split; [done|]. split; [done|]. split.
    + exists r. apply H2; [by apply lookup_insert_eq|]. split; [by apply lookup_insert_eq|]. exists ch'. cbn. by rewrite Hcs, lookup_insert_eq.
    + intros id' sub' missed l Hne [Hs' (ch0 & Hc0 & Hw0)].
      assert (m !! id' = Some sub') as Hm by (unfold m; rewrite lookup_insert_ne by done; by rewrite Hsubs).
      apply H2; [done|]. split; [done|]. cbn. rewrite Hcs. destruct (decide (sub_sender sub' = sub_sender sub)) as [E|Hd].
      * exists ch'. rewrite E, lookup_insert_eq. split; [done|]. rewrite Hother by (by apply (Hnew id')). by rewrite E, Hc in Hc0; injection Hc0 as <-.
      * exists ch0. by rewrite lookup_insert_ne.
Qed.

Lemma drop_body_view owner w id sub w' : hub_wf owner w -> open_sub w id sub -> drop_body id w = Some w' ->
  hub_wf owner w' /\ flights w' = flights w /\ subscriptions w' = <[id := closing sub]> (subscriptions w) /\ channels w' = channels w.
Proof.
  intros Hwf [Hs Hcl]. unfold drop_body. rewrite Hs. destruct (wf_subs _ _ Hwf _ _ Hs) as (Ho & ch & Hc & Hin). rewrite Hc.
  intros [= <-]. assert (hub_wf owner (set_sub id (closing sub) w)) as Hwf1 by (by eapply sub_changed).
  destruct (Nat.eqb_spec (receiver_count ch) 1) as [En|_]; [|exact (conj Hwf1 (conj eq_refl (conj eq_refl eq_refl)))].
  split; [|exact (conj eq_refl (conj eq_refl eq_refl))].
  rewrite receiver_count_law in En.
  pose proof Hwf1 as [H1 H2 H3 H4 H5 H6 H7 H8]. split; try done; cbn.
  - intros s c [_ Hsc]%lookup_delete_Some. by apply H1.
  - intros i si Hi. assert (i <> id) as Hne. { intros ->. destruct Hi as [Hl Hx]. cbn in Hl. rewrite lookup_insert_eq in Hl. injection Hl as <-. discriminate. }
    pose proof (H4 i si Hi) as Hsi. cbn in Hsi. rewrite lookup_delete_ne; [done|]. intros Ess.
    destruct Hi as [Hl Hx]. cbn in Hl. rewrite lookup_insert_ne in Hl by done.
    assert (sub_sender si = sub_sender sub) as Ec.
    { pose proof (wf_open _ _ Hwf id sub (conj Hs Hcl)) as Hx2. rewrite Ess in Hx2. congruence. }
    destruct (wf_subs _ _ Hwf _ _ Hl) as (_ & ch2 & Hc2 & Hin2). assert (ch2 = ch) as -> by congruence.
    assert (sub_receiver si <> sub_receiver sub) as Hd by (intros Er; apply Hne; by apply (wf_distinct _ _ Hwf i id si sub)).
    apply Hd. exact (size_singleton_inv _ _ _ En Hin2 Hin).
Qed.

Lemma step_wf owner w label w' : hub_wf owner w -> hub_step w label w' -> exists owner', hub_wf owner' w'.
Proof.
  intros Hwf Hstep. destruct Hstep as [w s w' id E|w id sub b o [Hs Hc]|w e w' t E|w before c e after Ef|w id sub w' a [Hs Hc] E|w id sub w' Hs E|w id sub w' Hs E|w id sub w' Hs Hc E].
  - destruct (subscribe_wf _ _ _ _ _ Hwf E) as (owner' & H1 & _). by exists owner'.
  - exists owner. unfold with_bounded_backfill_page. destruct (bounded_backfill b o). by eapply sub_changed.
  - exists owner. destruct (claim_wf _ _ _ _ _ Hwf E) as (H' & _ & _ & Hf & _ & _ & Ht).
    destruct H' as [H1 H2 H3 H4 H5 H6 H7 H8]. split; try done. cbn. rewrite Hf. intros c x Hin.
    apply elem_of_app in Hin as [Hin|Hin]; [by apply (wf_flights _ _ Hwf)|]. destruct t as [c0|]; [|by apply elem_of_nil in Hin].
    apply list_elem_of_singleton in Hin as [= -> ->]. by apply (wf_senders _ _ Hwf), Ht.
  - exists owner. by apply (send_view owner w c e before after).
  - exists owner. destruct (sub_looks _ _ _ _ Hwf Hs) as (m & l & Hl). by apply (recv_once_view _ _ _ _ _ _ _ _ Hwf Hl E).
  - exists owner. by apply (resubscribe_view _ _ _ _ _ Hwf Hs E).
  - exists owner. by apply (drop_body_view _ _ _ _ _ Hwf Hs E).
  - exists owner. by apply (drop_fields_view _ _ _ _ _ Hwf Hs E).
Qed.

Lemma run_wf w labels w' : hub_run w labels w' -> forall owner, hub_wf owner w -> exists owner', hub_wf owner' w'.
Proof. induction 1 as [w|w a w1 tr w2 Hs _ IH]; intros owner Hwf; [by exists owner|]. destruct (step_wf _ _ _ _ Hwf Hs) as [o Ho]. by apply (IH o). Qed.

Lemma reachable_wf w : hub_reachable w -> exists owner, hub_wf owner w.
Proof. intros (n & tr & Hr). apply (run_wf _ _ _ Hr ∅). apply new_wf. Qed.

(** ** What is published *)

Definition latest {A} (n : nat) (l : list A) : list A := drop (length l - n) l.
Definition ids_in (session_id : SessionId) (events : list Event) : list RuntimeEventId :=
  map event_id (filter (fun e => event_session_id e = session_id) events).
(** The event is among the last [n] events of its session. *)
Definition repeats (n : nat) (events : list Event) (e : Event) : bool := bool_decide (event_id e ∈ latest n (ids_in (event_session_id e) events)).

(** The events a run claims that do not repeat one of the last [n] of their session, after [events]. *)
Fixpoint accepted (n : nat) (labels : list (HubLabel)) (events : list Event) : list Event :=
  match labels with
  | [] => events
  | Claimed e _ :: rest => accepted n rest (if repeats n events e then events else events ++ [e])
  | _ :: rest => accepted n rest events
  end.

Record windows (events : list Event) (w : HubWorld) : Prop := {
  window_order s : default [] (published_event_order (state w) !! s) = latest (buffer (state w)) (ids_in s events);
  window_ids s : default ∅ (published_event_ids (state w) !! s) = list_to_set (default [] (published_event_order (state w) !! s));
  window_nodup s : NoDup (default [] (published_event_order (state w) !! s))
}.

Lemma latest_snoc {A} n (l : list A) x : 1 <= n ->
  latest n (l ++ [x]) = if n <? length (latest n l ++ [x]) then tail (latest n l) ++ [x] else latest n l ++ [x].
Proof.
  intros Hn. unfold latest. rewrite !length_app, length_drop. cbn [length].
  destruct (Nat.ltb_spec n (length l - (length l - n) + 1)).
  - assert (length l + 1 - n = S (length l - n)) as -> by lia. rewrite drop_app_le by lia. by rewrite drop_S_tail.
  - rewrite drop_app_le by lia. f_equal. f_equal. lia.
Qed.

Lemma ids_in_snoc s events e : ids_in s (events ++ [e]) = ids_in s events ++ (if decide (event_session_id e = s) then [event_id e] else []).
Proof. unfold ids_in. rewrite filter_app, map_app, filter_cons, filter_nil. by case_decide. Qed.

Lemma claim_windows events w e w' target : windows events w -> 1 <= buffer (state w) -> publish_claim e w = (w', target) ->
  windows (if repeats (buffer (state w)) events e then events else events ++ [e]) w' /\
  target = (if repeats (buffer (state w)) events e then None else senders (state w) !! event_session_id e).
Proof.
  intros [H1 H2 H3] Hb. unfold publish_claim, repeats. rewrite H2, H1.
  set (window := latest (buffer (state w)) (ids_in (event_session_id e) events)).
  case_bool_decide as Hin.
  - intros [= <- <-]. rewrite bool_decide_eq_true_2 by set_solver. by split.
  - rewrite bool_decide_eq_false_2 by set_solver.
    assert (NoDup window) as Hnd by (unfold window; rewrite <- H1; apply H3).
    assert (event_id e ∉ window) as Hnew by set_solver.
    set (order := if buffer (state w) <? length (window ++ [event_id e]) then tail window ++ [event_id e] else window ++ [event_id e]).
    assert (exists ids, (if buffer (state w) <? length (window ++ [event_id e])
      then match window ++ [event_id e] with [] => (window ++ [event_id e], {[event_id e]} ∪ (list_to_set window : gset N)) | evicted :: rest => (rest, ({[event_id e]} ∪ (list_to_set window : gset N)) ∖ {[evicted]}) end
      else (window ++ [event_id e], {[event_id e]} ∪ (list_to_set window : gset N))) = (order, ids) /\ ids = (list_to_set order : gset N) /\ NoDup order) as (ids & -> & Eids & Hno).
    { unfold order. destruct (_ <? _) eqn:El.
      - apply Nat.ltb_lt in El. destruct window as [|y rest]; [cbn in El; lia|]. apply NoDup_cons in Hnd as [Hy Hnd].
        eexists. split; [reflexivity|]. cbn. split; [set_solver|]. apply NoDup_app. split; [done|]. split; [set_solver|apply NoDup_singleton].
      - eexists. split; [reflexivity|]. split; [set_solver|]. apply NoDup_app. split; [done|]. split; [set_solver|apply NoDup_singleton]. }
    intros [= <- <-]. split; [|done]. split; cbn; intros s; (destruct (decide (s = event_session_id e)) as [->|Hne];
      [rewrite ?lookup_insert_eq|rewrite ?lookup_insert_ne by done]); cbn; try done.
    + rewrite ids_in_snoc, decide_True by done. symmetry. by apply latest_snoc.
    + rewrite ids_in_snoc, decide_False by done. by rewrite app_nil_r.
Qed.

Lemma windows_kept events w w' : windows events w -> state w' = state w \/ (exists m, state w' = set_senders m (state w)) -> windows events w'.
Proof. intros [H1 H2 H3] [E|[m E]]; split; intros s; rewrite E; cbn; auto. Qed.

(** A step that claims nothing leaves the window alone. *)
Lemma step_state owner w label w' : hub_wf owner w -> hub_step w label w' ->
  match label with
  | Claimed e target => exists w1, publish_claim e w = (w1, target) /\ state w' = state w1
  | _ => state w' = state w \/ exists m, state w' = set_senders m (state w)
  end.
Proof.
  intros Hwf Hstep. destruct Hstep as [w s w' id E|w id sub b o [Hs Hc]|w e w' t E|w before c e after Ef|w id sub w' a [Hs Hc] E|w id sub w' Hs E|w id sub w' Hs E|w id sub w' Hs Hc E].
  - unfold subscribe, sender_of, take_receiver in E. destruct (senders (state w) !! s) as [c|].
    + destruct (channels w !! c) as [ch|]; [|discriminate]. destruct (chan_subscribe ch). injection E as <- _. by left.
    + destruct (channels (set_channels _ _) !! _) as [ch|]; [|discriminate]. destruct (chan_subscribe ch). injection E as <- _. right. by eexists.
  - by left.
  - by exists w'.
  - by left.
  - destruct (sub_looks _ _ _ _ Hwf Hs) as (m & l & Hl). left. by apply (recv_once_view _ _ _ _ _ _ _ _ Hwf Hl E).
  - left. by apply (resubscribe_view _ _ _ _ _ Hwf Hs E).
  - unfold drop_body in E. destruct (subscriptions w !! id) as [sub0|]; [|discriminate]. destruct (channels w !! _) as [ch|]; [|discriminate].
    injection E as <-. destruct (_ =? 1); [right; by eexists|by left].
  - left. by apply (drop_fields_view _ _ _ _ _ Hwf Hs E).
Qed.

Lemma run_windows w labels w' : hub_run w labels w' -> forall owner events, hub_wf owner w -> windows events w ->
  windows (accepted (buffer (state w)) labels events) w' /\ buffer (state w') = buffer (state w).
Proof.
  induction 1 as [w|w a w1 tr w2 Hs _ IH]; intros owner events Hwf Hw; [done|]. destruct (step_wf _ _ _ _ Hwf Hs) as [o Ho].
  pose proof (step_state _ _ _ _ Hwf Hs) as Hst.
  assert (forall ev, windows ev w1 -> buffer (state w1) = buffer (state w) -> windows (accepted (buffer (state w)) tr ev) w2 /\ buffer (state w2) = buffer (state w)) as Hgo.
  { intros ev Hev Eb. destruct (IH o ev Ho Hev) as [H1 H2]. rewrite Eb in *. by split. }
  assert (state w1 = state w \/ (exists m, state w1 = set_senders m (state w)) -> windows (accepted (buffer (state w)) tr events) w2 /\ buffer (state w2) = buffer (state w)) as Hkept.
  { intros Hk. apply Hgo; [by apply (windows_kept events w)|]. by destruct Hk as [->|[m ->]]. }
  destruct a as [id|id|e target|c e|id answer|id|id|id]; cbn [accepted]; try by apply Hkept.
  destruct Hst as (w0 & E & Est). destruct (claim_windows _ _ _ _ _ Hw (wf_buffer _ _ Hwf) E) as [H1 _].
  destruct (claim_wf _ _ _ _ _ Hwf E) as (_ & _ & _ & _ & _ & Eb & _). apply Hgo; [apply (windows_kept _ w0); [done|by left]|congruence].
Qed.

(** ** What a subscription is given *)

(** The events that are not in the backfill: each of its identifiers is passed over once. *)
Fixpoint unseen (ids : gset RuntimeEventId) (l : list Event) : list Event :=
  match l with
  | [] => []
  | e :: rest => if bool_decide (event_id e ∈ ids) then unseen (ids ∖ {[event_id e]}) rest else e :: unseen ids rest
  end.

(** What is still to be given to a subscription whose receiver has [l] to take. *)
Definition backlog (sub : SessionRuntimeEventSubscription) (l : list Event) : list Event :=
  sub_backfill sub ++ unseen (sub_backfill_event_ids sub) l.

Definition heard (id : nat) (labels : list HubLabel) : list Event :=
  omap (fun a => match a with Received id' (Delivered e) => if id' =? id then Some e else None | _ => None end) labels.
Definition sent (labels : list HubLabel) : list (nat * Event) := omap (fun a => match a with SentTo c e => Some (c, e) | _ => None end) labels.
Definition sent_to (c : nat) (labels : list HubLabel) : list Event := map snd (filter (fun x => fst x = c) (sent labels)).
Definition claimed (labels : list HubLabel) : list (nat * Event) :=
  omap (fun a => match a with Claimed e (Some c) => Some (c, e) | _ => None end) labels.

(** The subscription is neither told that it fell behind, nor given another backfill or receiver, nor dropped. *)
Definition undisturbed (id : nat) (label : HubLabel) : Prop :=
  match label with
  | Backfilled id' | Resubscribed id' | Closing id' | Closed id' | Received id' (Behind _) => id' <> id
  | _ => True
  end.

(** What one step says to [id] and sends to [c]. *)
Definition heard_of (id : nat) (label : HubLabel) : list Event :=
  match label with Received id' (Delivered e) => if id' =? id then [e] else [] | _ => [] end.
Definition sent_of (c : nat) (label : HubLabel) : list Event :=
  match label with SentTo c' e => if decide (c' = c) then [e] else [] | _ => [] end.

Lemma sent_to_cons c label labels :
  sent_to c (label :: labels) = sent_of c label ++ sent_to c labels.
Proof. unfold sent_to, sent. destruct label; cbn; try done. by case_decide. Qed.

Lemma heard_cons id label labels :
  heard id (label :: labels) = heard_of id label ++ heard id labels.
Proof. unfold heard. destruct label as [| | | |id' [e|e|n| |e|]| | |]; cbn; try done. by destruct (id' =? id). Qed.

(** One step of a run, for a subscription it does not disturb. *)
Lemma step_backlog owner w label w' id sub missed l : hub_wf owner w -> hub_step w label w' -> looks_at w id sub missed l ->
  sub_closing sub = false -> undisturbed id label ->
  exists sub' missed' l', looks_at w' id sub' missed' l' /\ sub_sender sub' = sub_sender sub /\ sub_session sub' = sub_session sub /\
    sub_closing sub' = false /\ (missed <= missed')%N /\
    (missed' = 0%N -> forall later,
      heard_of id label ++ backlog sub' (l' ++ later) =
      backlog sub (l ++ sent_of (sub_sender sub) label ++ later)).
Proof.
  intros Hwf Hstep Hl Hcl Hq.
  assert (looks_at w' id sub missed l -> heard_of id label = [] -> sent_of (sub_sender sub) label = [] ->
    exists sub' missed' l', looks_at w' id sub' missed' l' /\ sub_sender sub' = sub_sender sub /\ sub_session sub' = sub_session sub /\
    sub_closing sub' = false /\ (missed <= missed')%N /\
    (missed' = 0%N -> forall later, heard_of id label ++ backlog sub' (l' ++ later) = backlog sub (l ++ sent_of (sub_sender sub) label ++ later))) as Hsame.
  { intros Hl' EX EY. exists sub, missed, l. rewrite EX, EY. by split_and!. }
  destruct Hstep as [w s w' id0 E|w id0 sub0 b o [Hs Hc]|w e w' t E|w before c e after Ef|w id0 sub0 w' a [Hs Hc] E|w id0 sub0 w' Hs E|w id0 sub0 w' Hs E|w id0 sub0 w' Hs Hc E].
  - apply Hsame; [|done|done]. destruct (subscribe_wf _ _ _ _ _ Hwf E) as (_ & _ & Hn & _ & c & r & Es & _ & Hk).
    destruct Hl as [Hs (ch & Hch & Hw)]. destruct (Hk _ _ _ Hs Hch) as (ch' & Hch' & Hw'). split; [|exists ch'; by rewrite Hw'].
    rewrite Es, lookup_insert_ne; [done|]. intros ->. congruence.
  - apply Hsame; [|done|done]. destruct Hl as [Hs' Hx]. split; [|done]. cbn. by rewrite lookup_insert_ne.
  - apply Hsame; [|done|done]. destruct (claim_wf _ _ _ _ _ Hwf E) as (_ & Ec & Es & _). destruct Hl as [Hs Hx]. split; cbn; [by rewrite Es|by rewrite Ec].
  - destruct (send_view _ _ _ _ _ _ Hwf Ef) as (_ & _ & _ & Hk). pose proof (Hk _ _ _ _ Hl) as Hl'. case_decide as Ed.
    + subst c. destruct Hl' as (k & Hl'). exists sub, (missed + N.of_nat k)%N, (drop k (l ++ [e])). split_and!; try done; [lia|].
      intros Hz later. assert (k = 0) as -> by lia. cbn [sent_of heard_of]. rewrite decide_True, drop_0, <- (app_assoc l) by done. done.
    + apply Hsame; [done|done|]. cbn. by rewrite decide_False.
  - destruct (decide (id0 = id)) as [->|Hne].
    2:{ apply Hsame; [|destruct a; cbn; try done; by rewrite (proj2 (Nat.eqb_neq _ _))|done].
        destruct (sub_looks _ _ _ _ Hwf Hs) as (m0 & l0 & Hl0). by apply (recv_once_view _ _ _ _ _ _ _ _ Hwf Hl0 E). }
    destruct (recv_once_view _ _ _ _ _ _ _ _ Hwf Hl E) as (_ & _ & _ & _ & Ha). unfold backlog.
    destruct (sub_backfill sub) as [|e rest] eqn:Eb.
    + destruct a as [e|e|n| |e|]; try done.
      * destruct Ha as (-> & Hid & rest & -> & Hl'). exists sub, 0%N, rest. split_and!; try done. intros _ later. cbn. rewrite Nat.eqb_refl, Eb.
        cbn. by rewrite bool_decide_eq_false_2.
      * destruct Ha as (-> & Hid & rest & -> & Hl'). eexists _, 0%N, rest. split; [exact Hl'|]. split_and!; try done. intros _ later. cbn.
        rewrite ?Eb. cbn. by rewrite bool_decide_eq_true_2.
      * by destruct Ha as (-> & -> & Hl'); exists sub, 0%N, []; split_and!; try done; intros _ later; cbn; rewrite Eb.
    + destruct Ha as [-> Hl']. eexists _, missed, l. split; [exact Hl'|]. split_and!; try done. intros _ later. cbn. by rewrite Nat.eqb_refl.
  - apply Hsame; [|done|done]. destruct (resubscribe_view _ _ _ _ _ Hwf Hs E) as (_ & _ & _ & _ & Hk). by apply Hk.
  - apply Hsame; [|done|done]. destruct (drop_body_view _ _ _ _ _ Hwf Hs E) as (_ & _ & Es & Ec). destruct Hl as [Hs' Hx]. split; [|by rewrite Ec].
    rewrite Es. by rewrite lookup_insert_ne.
  - apply Hsame; [|done|done]. destruct (drop_fields_view _ _ _ _ _ Hwf Hs E) as (_ & _ & _ & Hk). by apply Hk.
Qed.

Lemma claim_finds_channel owner w e w' c id sub : hub_wf owner w -> hub_step w (Claimed e (Some c)) w' -> open_sub w id sub ->
  event_session_id e = sub_session sub -> c = sub_sender sub.
Proof.
  intros Hwf Hstep Ho Es. inversion Hstep as [| |w0 e0 w1 t E| | | | |]; subst. destruct (claim_wf _ _ _ _ _ Hwf E) as (_ & _ & _ & _ & _ & _ & Ht).
  specialize (Ht c eq_refl). pose proof (wf_open _ _ Hwf _ _ Ho). congruence.
Qed.

Lemma run_backlog w labels w' : hub_run w labels w' -> forall owner id sub missed l, hub_wf owner w -> looks_at w id sub missed l ->
  sub_closing sub = false -> Forall (undisturbed id) labels ->
  (forall e c, Claimed e (Some c) ∈ labels -> event_session_id e = sub_session sub -> c = sub_sender sub) /\
  exists sub' missed' l', looks_at w' id sub' missed' l' /\ (missed <= missed')%N /\
    (missed' = 0%N -> heard id labels ++ backlog sub' l' = backlog sub (l ++ sent_to (sub_sender sub) labels)).
Proof.
  induction 1 as [w|w a w1 tr w2 Hs _ IH]; intros owner id sub missed l Hwf Hl Hc Hq.
  - split; [by intros e c ?%elem_of_nil|]. exists sub, missed, l. split_and!; try done. intros _. cbn. by rewrite app_nil_r.
  - apply Forall_cons in Hq as [Hq Hqs]. destruct (step_backlog _ _ _ _ _ _ _ _ Hwf Hs Hl Hc Hq) as (sub1 & m1 & l1 & Hl1 & Ec1 & Es1 & Hc1 & Hm1 & Hb1).
    destruct (step_wf _ _ _ _ Hwf Hs) as [o1 Hwf1]. destruct (IH o1 id sub1 m1 l1 Hwf1 Hl1 Hc1 Hqs) as (Hcl & sub2 & m2 & l2 & Hl2 & Hm2 & Hb2).
    split.
    + intros e c [<-|Hin]%elem_of_cons Ee; [|rewrite <- Ec1; eapply Hcl; [done|congruence]].
      eapply claim_finds_channel; [exact Hwf|exact Hs| |done]. split; [apply Hl|done].
    + exists sub2, m2, l2. split; [done|]. split; [lia|]. intros Hz. specialize (Hb2 Hz). specialize (Hb1 ltac:(lia) (sent_to (sub_sender sub) tr)).
      rewrite Ec1 in Hb2. rewrite heard_cons, sent_to_cons, <- app_assoc, Hb2. done.
Qed.

(** Nothing claimed is lost: it was sent, or is still to be. *)
Lemma run_flights w labels w' : hub_run w labels w' -> forall owner, hub_wf owner w -> flights w ++ claimed labels ≡ₚ sent labels ++ flights w'.
Proof.
  induction 1 as [w|w a w1 tr w2 Hs _ IH]; intros owner Hwf; [cbn; by rewrite app_nil_r|].
  destruct (step_wf _ _ _ _ Hwf Hs) as [o1 Hwf1]. specialize (IH o1 Hwf1).
  destruct Hs as [w s w' id0 E|w id0 sub0 b o [Hs Hc]|w e w' t E|w before c e after Ef|w id0 sub0 w' a [Hs Hc] E|w id0 sub0 w' Hs E|w id0 sub0 w' Hs E|w id0 sub0 w' Hs Hc E].
  - destruct (subscribe_wf _ _ _ _ _ Hwf E) as (_ & _ & _ & Hf & _). by rewrite Hf in IH.
  - done.
  - destruct (claim_wf _ _ _ _ _ Hwf E) as (_ & _ & _ & Hf & _). cbn in IH |- *. rewrite Hf in IH. rewrite <- IH, <- app_assoc.
    destruct t; cbn; by rewrite ?app_nil_r.
  - cbn in IH |- *. rewrite Ef. cbn. rewrite <- IH, <- app_assoc. cbn. rewrite <- app_assoc. by rewrite <- Permutation_middle.
  - destruct (sub_looks _ _ _ _ Hwf Hs) as (m & l & Hl). destruct (recv_once_view _ _ _ _ _ _ _ _ Hwf Hl E) as (_ & _ & Hf & _). by rewrite Hf in IH.
  - destruct (resubscribe_view _ _ _ _ _ Hwf Hs E) as (_ & _ & Hf & _). by rewrite Hf in IH.
  - destruct (drop_body_view _ _ _ _ _ Hwf Hs E) as (_ & Hf & _). by rewrite Hf in IH.
  - destruct (drop_fields_view _ _ _ _ _ Hwf Hs E) as (_ & _ & Hf & _). by rewrite Hf in IH.
Qed.

(** [recv] passes over repeated events until there is something to say. *)
Lemma recv_answers fuel : forall owner w id sub missed l, hub_wf owner w -> looks_at w id sub missed l -> size (sub_backfill_event_ids sub) < fuel ->
  exists w' answer, recv fuel id w = (w', Some answer) /\
    match answer with
    | Delivered e => sub_backfill sub = [] -> event_session_id e = sub_session sub
    | Behind n => n = missed /\ n <> 0%N
    | WouldWait => unseen (sub_backfill_event_ids sub) l = []
    | Repeated _ | WrongSession _ | NoReceiver => False
    end.
Proof.
  induction fuel as [|fuel IH]; intros owner w id sub missed l Hwf Hl Hlt; [lia|]. cbn [recv].
  destruct (recv_once id w) as [w1 a] eqn:E. pose proof (recv_once_view _ _ _ _ _ _ _ _ Hwf Hl E) as (Hwf1 & _ & _ & _ & Ha).
  destruct (sub_backfill sub) as [|e rest] eqn:Eb.
  - destruct a as [e|e|n| |e|]; try done.
    + exists w1, (Delivered e). split; [done|]. intros _. destruct Ha as (_ & _ & rest & -> & _). destruct Hl as [Hs (ch & Hc & Hw)].
      pose proof (wf_pending _ _ Hwf _ _ _ _ _ e Hc Hw ltac:(set_solver)). pose proof (proj1 (wf_subs _ _ Hwf _ _ Hs)). congruence.
    + destruct Ha as (-> & Hid & rest & -> & Hl1). destruct (IH owner w1 id _ _ _ Hwf1 Hl1) as (w2 & answer & E2 & Hans).
      * cbn. assert (sub_backfill_event_ids sub ∖ {[event_id e]} ⊂ sub_backfill_event_ids sub) as Hsub%subset_size by set_solver. lia.
      * exists w2, answer. split; [done|]. destruct answer; try done; cbn in Hans |- *.
        -- intros _. by apply Hans.
        -- rewrite bool_decide_eq_true_2 by done. done.
    + destruct Ha as (-> & Hn & _). by exists w1, (Behind missed).
    + destruct Ha as (_ & -> & _). by exists w1, WouldWait.
  - destruct Ha as [-> _]. exists w1, (Delivered e). by split.
Qed.

(** C15. In every state callers can reach, an open subscription listens to the channel publishers of its session use, however many of its
    siblings are being dropped meanwhile.  A receive needs no more passes than there are identifiers in the backfill; it never meets an
    event of another session or a missing receiver, and what it takes from the channel belongs to its session. *)
Theorem open_subscriptions_stay_connected w id sub : hub_reachable w -> open_sub w id sub ->
  senders (state w) !! sub_session sub = Some (sub_sender sub) /\
  exists w' answer, recv (S (size (sub_backfill_event_ids sub))) id w = (w', Some answer) /\
    match answer with
    | Delivered e => sub_backfill sub = [] -> event_session_id e = sub_session sub
    | Behind n => n <> 0%N
    | WouldWait => sub_backfill sub = []
    | Repeated _ | WrongSession _ | NoReceiver => False
    end.
Proof.
  intros [owner Hwf]%reachable_wf Ho. split; [by apply (wf_open _ _ Hwf id)|]. destruct (sub_looks _ _ _ _ Hwf (proj1 Ho)) as (m & l & Hl).
  destruct (recv_answers (S (size (sub_backfill_event_ids sub))) _ _ _ _ _ _ Hwf Hl ltac:(lia)) as (w' & a & E & Ha). exists w', a. split; [done|].
  destruct a; try done; [by destruct Ha|]. destruct (sub_backfill sub) as [|e rest] eqn:Eb; [done|]. exfalso.
  pose proof (recv_once_view owner w id sub m l) as Hv. cbn [recv] in E. destruct (recv_once id w) as [w1 a] eqn:E1.
  destruct (Hv _ _ Hwf Hl eq_refl) as (_ & _ & _ & _ & Hx). rewrite Eb in Hx. destruct Hx as [-> _]. discriminate.
Qed.

(** C28. An event is published unless it repeats one of the last events accepted for its session, as many as the buffer holds, and then it
    is not: in whatever order claims and sends interleave, a claim goes to the channel of the session exactly when the event is new to
    that window. *)
Theorem repeats_are_not_published n labels w e w' target : hub_run (hub_new n) labels w -> publish_claim e w = (w', target) ->
  target = if repeats (Nat.max n 1) (accepted (Nat.max n 1) labels []) e then None else senders (state w) !! event_session_id e.
Proof.
  intros Hr E. destruct (run_windows _ _ _ Hr ∅ [] (new_wf n)) as [Hw Eb].
  - split; intros s; cbn; rewrite ?lookup_empty; cbn; [done|done|apply NoDup_nil_2].
  - destruct (run_wf _ _ _ Hr ∅ (new_wf n)) as [owner Hwf]. cbn in Eb, Hw. pose proof (claim_windows _ _ _ _ _ Hw (wf_buffer _ _ Hwf) E) as [_ Ht].
    by rewrite Eb in Ht.
Qed.

(** C14. A subscription that does not fall behind is given its backfill and then, in the order they were sent, all events sent to its
    channel that are not in the backfill: what it has heard and what is still before it make up exactly that.  Every event accepted for
    its session meanwhile was claimed for this channel, and what is claimed is sent once or still to be sent. *)
Theorem subscriptions_hear_every_event w labels w' id sub l : hub_reachable w -> hub_run w labels w' ->
  looks_at w id sub 0 l -> sub_closing sub = false -> Forall (undisturbed id) labels ->
  flights w ++ claimed labels ≡ₚ sent labels ++ flights w' /\
  (forall e c, Claimed e (Some c) ∈ labels -> event_session_id e = sub_session sub -> c = sub_sender sub) /\
  exists sub' missed l', looks_at w' id sub' missed l' /\
    (missed = 0%N -> heard id labels ++ backlog sub' l' = backlog sub (l ++ sent_to (sub_sender sub) labels)).
Proof.
  intros [owner Hwf]%reachable_wf Hr Hl Hc Hq. split; [by apply (run_flights _ _ _ Hr owner)|].
  destruct (run_backlog _ _ _ Hr owner _ _ _ _ Hwf Hl Hc Hq) as (H1 & sub' & m & l' & H2 & _ & H3). split; [done|]. by exists sub', m, l'.
Qed.
End Hub.
#[global] Arguments SessionRuntimeEventSubscription V : clear implicits.
#[global] Arguments HubWorld V Ch : clear implicits.
#[global] Arguments HubLabel V : clear implicits.
#[global] Arguments RecvStep V : clear implicits.

(** ** A concrete channel

    The queue of every receiver, cut to the capacity from the front. *)
Record QueueChannel (E : Type) := { queue_capacity : nat; queues : gmap nat (N * list E) }.
#[global] Arguments queue_capacity {E}.
#[global] Arguments queues {E}.

Section Queue.
Context {E : Type}.

Definition put_queue (r : nat) (q : N * list E) (ch : QueueChannel E) : QueueChannel E :=
  {| queue_capacity := queue_capacity ch; queues := <[r := q]> (queues ch) |}.
Definition enqueue (n : nat) (e : E) (q : N * list E) : N * list E :=
  let '(missed, l) := q in
  if length l <? n then (missed, l ++ [e]) else ((missed + 1)%N, drop 1 (l ++ [e])).

#[export] Instance QueueBroadcast : Broadcast E (QueueChannel E) := {|
  channel n := {| queue_capacity := n; queues := ∅ |};
  chan_subscribe ch := let r := fresh (dom (queues ch)) in (put_queue r (0%N, []) ch, r);
  chan_send e ch := {| queue_capacity := queue_capacity ch; queues := enqueue (queue_capacity ch) e <$> queues ch |};
  chan_recv r ch := match queues ch !! r with
    | None | Some (0%N, []) => (ch, NothingYet)
    | Some (0%N, e :: rest) => (put_queue r (0%N, rest) ch, Got e)
    | Some (missed, l) => (put_queue r (0%N, l) ch, Lagged missed)
    end;
  chan_drop r ch := {| queue_capacity := queue_capacity ch; queues := delete r (queues ch) |};
  receiver_count ch := size (dom (queues ch));
  waiting ch r := queues ch !! r;
  receivers ch := dom (queues ch);
  capacity := queue_capacity
|}.

#[export] Instance QueueLaws : BroadcastLaws E (QueueChannel E).
Proof.
  split; cbn.
  - intros ch r. apply elem_of_dom.
  - done.
  - intros n. split; [by rewrite dom_empty_L|lia].
  - intros ch. assert (queues ch !! fresh (dom (queues ch)) = None) as Hf by (apply not_elem_of_dom, is_fresh).
    split; [done|]. split; [by rewrite lookup_insert_eq|]. split; [|done]. intros r' Hne. by rewrite lookup_insert_ne.
  - intros e ch r. rewrite lookup_fmap. destruct (queues ch !! r) as [[m l]|]; [|done]. cbn [fmap option_fmap option_map]. unfold enqueue. destruct (Nat.ltb_spec (length l) (queue_capacity ch)).
    + exists 0. rewrite drop_0. change (N.of_nat 0) with 0%N. rewrite N.add_0_r. split; [done|]. split; [lia|done].
    + exists 1. split; [done|]. split; lia.
  - done.
  - intros r ch m l Hw. rewrite Hw. destruct m as [|p]; cbn [N.eqb].
    + destruct l as [|e rest]; cbn; [by rewrite Hw|]. rewrite lookup_insert_eq. split; [|done]. intros r' Hne. by rewrite lookup_insert_ne.
    + destruct l; cbn; rewrite lookup_insert_eq; (split; [|done]); intros r' Hne; by rewrite lookup_insert_ne.
  - intros r ch. rewrite lookup_delete_eq. split; [done|]. split; [|done]. intros r' Hne. by rewrite lookup_delete_ne.
Qed.
End Queue.

(** ** A concrete run

    One event is published before anyone listens; the subscription is given it as its backfill, the publisher repeats it, publishes another
    and both are heard once. *)
Definition hub_event (id : N) : RuntimeEvent N :=
  {| event_id := id; event_session_id := 1; event_turn_id := 2; event_sequence_no := Z.of_N id; event_created_at_ms := 0; event_msg := Warning [] |}.
Definition hub_new_demo : HubWorld N (QueueChannel (RuntimeEvent N)) := hub_new 2.
Definition subscribed_hub : HubWorld N (QueueChannel (RuntimeEvent N)) :=
  match subscribe_with_backfill 1%N [hub_event 9; hub_event 10] (publish (hub_event 10) hub_new_demo) with
  | Some (w, _) => w
  | None => hub_new_demo
  end.
Definition hub_subscription : nat := 0.

Definition claim_demo (e : RuntimeEvent N) (w : HubWorld N (QueueChannel (RuntimeEvent N))) : HubWorld N (QueueChannel (RuntimeEvent N)) :=
  let '(w', t) := publish_claim e w in set_flights (flights w' ++ match t with Some c => [(c, e)] | None => [] end) w'.
Definition hub_claimed : HubWorld N (QueueChannel (RuntimeEvent N)) := claim_demo (hub_event 11) subscribed_hub.
Definition hub_sent : HubWorld N (QueueChannel (RuntimeEvent N)) := publish_send 0 (hub_event 11) (set_flights [] hub_claimed).
Definition hub_sub (w : HubWorld N (QueueChannel (RuntimeEvent N))) : SessionRuntimeEventSubscription N :=
  default (new_subscription 1%N 0 0) (subscriptions w !! hub_subscription).

Example backfill_then_live : (let w1 := hub_sent in
  let '(w2, a) := recv 3 hub_subscription w1 in let '(w3, b) := recv 3 hub_subscription w2 in let '(w4, c) := recv 3 hub_subscription w3 in
  let '(w5, d) := recv 3 hub_subscription w4 in (a, b, c, d)) =
  (Some (Delivered (hub_event 9)), Some (Delivered (hub_event 10)), Some (Delivered (hub_event 11)), Some WouldWait).
Proof. vm_compute. reflexivity. Qed.

Example repeated_event_claims_nothing : snd (publish_claim (hub_event 10) subscribed_hub) = None /\ snd (publish_claim (hub_event 11) subscribed_hub) = Some 0.
Proof. vm_compute. split; reflexivity. Qed.

Definition demo_labels : list (HubLabel N) := [Claimed (hub_event 10) None; Subscribed hub_subscription; Backfilled hub_subscription].
Lemma demo_run : hub_run hub_new_demo demo_labels subscribed_hub.
Proof.
  eapply RunCons; [eapply StepClaim; reflexivity|]. eapply RunCons; [eapply StepSubscribe with (session_id := 1%N); vm_compute; reflexivity|].
  eapply RunCons; [eapply (StepBackfill _ hub_subscription _ [hub_event 9; hub_event 10] 0); vm_compute; split; reflexivity|].
  assert (forall w, w = subscribed_hub -> hub_run w [] subscribed_hub) as Hend by (intros w ->; apply RunNil). apply Hend. vm_compute. reflexivity.
Qed.
Lemma hub_demo_reachable : hub_reachable subscribed_hub.
Proof. exists 2, demo_labels. exact demo_run. Qed.

Lemma open_subscriptions_stay_connected_witness : senders (state subscribed_hub) !! 1%N = Some 0.
Proof. exact (proj1 (open_subscriptions_stay_connected subscribed_hub hub_subscription (hub_sub subscribed_hub) hub_demo_reachable (conj eq_refl eq_refl))). Defined.

Lemma repeats_are_not_published_witness :
  snd (publish_claim (hub_event 10) subscribed_hub) = None /\ snd (publish_claim (hub_event 11) subscribed_hub) = Some 0.
Proof.
  split.
  - rewrite (repeats_are_not_published 2 demo_labels subscribed_hub (hub_event 10) _ _ demo_run (surjective_pairing _)). vm_compute. reflexivity.
  - rewrite (repeats_are_not_published 2 demo_labels subscribed_hub (hub_event 11) _ _ demo_run (surjective_pairing _)). vm_compute. reflexivity.
Defined.

Lemma sent_run : hub_run subscribed_hub [Claimed (hub_event 11) (Some 0); SentTo 0 (hub_event 11)] hub_sent.
Proof.
  eapply RunCons; [eapply StepClaim; vm_compute; reflexivity|].
  eapply RunCons; [apply (StepSend _ [] 0 (hub_event 11) []); vm_compute; reflexivity|].
  assert (forall w, w = hub_sent -> hub_run w [] hub_sent) as Hend by (intros w ->; apply RunNil). apply Hend. vm_compute. reflexivity.
Qed.

Lemma sent_undisturbed : Forall (undisturbed hub_subscription) [Claimed (hub_event 11) (Some 0); SentTo 0 (hub_event 11)].
Proof. repeat constructor. Qed.

Lemma subscriptions_hear_every_event_witness : exists sub' missed l', looks_at hub_sent hub_subscription sub' missed l' /\
  (missed = 0%N -> backlog sub' l' = [hub_event 9; hub_event 10; hub_event 11]).
Proof.
  exact (proj2 (proj2 (subscriptions_hear_every_event subscribed_hub _ hub_sent hub_subscription (hub_sub subscribed_hub) [] hub_demo_reachable sent_run
    (conj eq_refl (ex_intro _ _ (conj eq_refl eq_refl))) eq_refl sent_undisturbed))).
Defined.
