(* ===== verification/Recording.v ===== *)
(** * Recording a turn and following it (src/src/protocol/recording.rs)

    The recorder of a turn stands between the agent loop and the observers.  An event it owns is projected ([Projection]), committed to the
    protocol tables ([ProtocolStore]) and fanned out to the hub ([EventHub]), from the tables and in the order of their sequence
    numbers; then it is given to the renderer.  The projector replays the runtime events of a session from a durable cursor.  The renderer,
    the harness store, failures of SQLite, fresh identifiers and whether the admission still owns the turn are arguments. *)
From S2P Require Import Prelude.
From S2P Require Import Text.
From S2P Require Import ListSort.
From S2P Require Import TurnOutcome.
From S2P Require Import Json.
From S2P Require Import PermissionFence.
From S2P Require Import History.
From S2P Require Import ProtocolStore.
From S2P Require Import ProtocolStoreFacts.
From S2P Require Import ActiveOrder.
From S2P Require Import ActiveTraversal.
From S2P Require Import ContextStream.
From S2P Require Import ContextRefresh.
From S2P Require Import ProtocolInserts.
From S2P Require Import ProtocolDemo.
From S2P Require Import Projection.
From S2P Require Import EventHub.
From Stdlib Require Import Sorted.

Open Scope nat_scope.

Section Recording.
Context {V Ch : Type} `{JV : JsonValue V} `{PV : ProtocolValues V} `{EqDecision V} `{U : Ulid} (J : ProtocolJson V) `{Broadcast (RuntimeEvent V) Ch}.
Local Abbreviation Event := (RuntimeEvent V) (only parsing).
Local Abbreviation Hub := (HubWorld V Ch) (only parsing).

(** ** Queries of the store (src/src/protocol/store.rs) *)

Definition turn_runtime_rows (session turn : text) (db : ProtocolDb) : list (text * RuntimeRow) :=
  List.filter (fun r => text_eqb (event_row_session (snd r)) session && text_eqb (event_row_turn (snd r)) turn) (map_to_list (runtime_rows db)).
Definition row_sequence (r : text * RuntimeRow) : Z := event_row_sequence_no (snd r).
(** [ORDER BY sequence_no ASC] *)
Definition ordered_turn_rows (session turn : text) (db : ProtocolDb) : list (text * RuntimeRow) :=
  stable_sort (fun a b => (row_sequence a <=? row_sequence b)%Z) (turn_runtime_rows session turn db).

Definition decode_turn_event (session_id : SessionId) (turn_id : TurnId) (r : text * RuntimeRow) : result Event StoreError :=
  let? id := parse_protocol_id (fst r) (lit "runtime event") in
  match msg_from_str J (event_row_msg_json (snd r)) with
  | Err error => Err (JsonError error)
  | Ok msg =>
    Ok {| event_id := id; event_session_id := session_id; event_turn_id := turn_id; event_sequence_no := row_sequence r;
          event_created_at_ms := event_row_created_at_ms (snd r); event_msg := msg |}
  end.

Definition runtime_event_page_for_turn_after_sequence (io : option text) (session_id : SessionId) (turn_id : TurnId) (after : option Z) (limit : N)
    (db : ProtocolDb) : result (list Event) StoreError :=
  if (limit =? 0)%N || (MAX_PROTOCOL_PAGE_LIMIT <? limit)%N
  then Err (StoreMessage (lit "runtime-event turn page limit must be between 1 and " ++ show_N MAX_PROTOCOL_PAGE_LIMIT ++ lit ", got " ++ show_N limit))
  else
    match io with
    | Some error => Err (SqliteError error)
    | None =>
      result_map (decode_turn_event session_id turn_id)
        (sql_limit limit (List.filter (fun r => after_position after (row_sequence r))
          (ordered_turn_rows (ulid_to_string session_id) (ulid_to_string turn_id) db)))
    end.

Definition query_latest_protocol_turn_id (session_id : SessionId) (db : ProtocolDb) : result (option TurnId) StoreError :=
  match last (List.filter (fun a => text_eqb (append_session a) (ulid_to_string session_id) && text_eqb (append_scope_kind a) (lit "turn") &&
                                    bool_decide (is_Some (append_turn a))) (ordered_append db)) ≫= append_turn with
  | None => Ok None
  | Some value => let? id := parse_protocol_id value (lit "latest protocol turn") in Ok (Some id)
  end.

(** The sequence numbers this query sees. *)
Definition stored_numbers (session turn : text) (db : ProtocolDb) : list Z :=
  map row_sequence (turn_runtime_rows session turn db) ++
  omap (fun r => if text_eqb (row_session (snd r)) session && text_eqb (row_scope_kind (snd r)) (lit "turn") && bool_decide (row_turn (snd r) = Some turn)
                 then Some (row_sequence_no (snd r)) else None) (map_to_list (history_rows db)) ++
  omap (fun r => if text_eqb (turn_row_session (snd r)) session && text_eqb (turn_row_turn (snd r)) turn
                 then Some (turn_row_sequence_no (snd r)) else None) (map_to_list (turn_rows db)).

(** [z + 1] on [i64] in a release build. *)
Definition wrapping_succ (z : Z) : Z := (if z =? i64_max then - 2 ^ 63 else z + 1)%Z.

Definition latest_turn_position_for_session (io : option text) (session_id : SessionId) (db : ProtocolDb) : result (option (TurnId * Z)) StoreError :=
  match io with
  | Some error => Err (SqliteError error)
  | None =>
    let? latest := query_latest_protocol_turn_id session_id db in
    Ok ((fun turn_id => (turn_id, wrapping_succ (default (-1)%Z (max_of (stored_numbers (ulid_to_string session_id) (ulid_to_string turn_id) db))))) <$> latest)
  end.

(** One transaction: an error rolls back. *)
Definition append_recording_projection_allocating (io : option text) (projection : ProtocolRunEventProjection V) (db : ProtocolDb)
    : result (ProtocolDb * Event) StoreError :=
  let? _ := validate_recording_projection J projection in
  match io with
  | Some error => Err (SqliteError error)
  | None =>
    let? (db, stored) := insert_event_bundle_unchecked J (runtime_event projection) (history_item projection) (stored_turn_item <$> turn_item projection) db in
    Ok (db, fst stored)
  end.

(** [owned]: what [fresh_active_admission_matches_in_connection] reads of the session's tables. *)
Definition append_admitted_recording_projection_allocating (io : option text) (owned : result bool StoreError) (projection : ProtocolRunEventProjection V)
    (db : ProtocolDb) : result (ProtocolDb * option Event) StoreError :=
  let? _ := validate_recording_projection J projection in
  match io with
  | Some error => Err (SqliteError error)
  | None =>
    let? owned := owned in
    if negb owned then Ok (db, None)
    else
      let? (db, stored) := insert_event_bundle_unchecked J (runtime_event projection) (history_item projection) (stored_turn_item <$> turn_item projection) db in
      Ok (db, Some (fst stored))
  end.

(** ** The projector *)

Record CanonicalRuntimeProjectionReport := { event_count : N; harness_projection_errors : list text; live_publish_errors : list text }.
Definition empty_report : CanonicalRuntimeProjectionReport := {| event_count := 0; harness_projection_errors := []; live_publish_errors := [] |}.
Definition is_clean (r : CanonicalRuntimeProjectionReport) : bool := is_empty (harness_projection_errors r) && is_empty (live_publish_errors r).
Definition merge (a b : CanonicalRuntimeProjectionReport) : CanonicalRuntimeProjectionReport :=
  {| event_count := saturating_add_usize (event_count a) (event_count b);
     harness_projection_errors := harness_projection_errors a ++ harness_projection_errors b;
     live_publish_errors := live_publish_errors a ++ live_publish_errors b |}.

Definition latest_cursor (io : option text) (session_id : SessionId) (db : ProtocolDb) : result (option Z) StoreError :=
  let? page := latest_runtime_event_page_for_session J io session_id 1 db in Ok (page_next_cursor page).

(** What the harness store says of a terminal event, if it fails. *)
Context (project_canonical_terminal_event : Event -> option text).

Definition project_event (event : Event) (w : Hub) : CanonicalRuntimeProjectionReport * Hub :=
  let errors := if is_terminal event then match project_canonical_terminal_event event with Some error => [error] | None => [] end else [] in
  ({| event_count := 1; harness_projection_errors := errors; live_publish_errors := [] |}, publish event w).

Definition project_into (acc : CanonicalRuntimeProjectionReport * Hub) (event : Event) : CanonicalRuntimeProjectionReport * Hub :=
  let '(report, w) := acc in let '(one, w) := project_event event w in (merge report one, w).

(** [io k] is the failure of the [k]-th page.  [None] is out of fuel. *)
Fixpoint project_pages (fuel : nat) (io : nat -> option text) (k : nat) (session_id : SessionId) (cursor : option Z) (db : ProtocolDb)
    (acc : CanonicalRuntimeProjectionReport * Hub) : option (result CanonicalRuntimeProjectionReport StoreError * Hub) :=
  match fuel with
  | 0 => None
  | S fuel =>
    match runtime_event_cursor_page_for_session J (io k) session_id cursor MAX_PROTOCOL_PAGE_LIMIT db with
    | Err error => Some (Err error, snd acc)
    | Ok page =>
      if is_empty (page_items page) then Some (Ok (fst acc), snd acc)
      else
        let acc := fold_left project_into (page_items page) acc in
        if (count (page_items page) <? MAX_PROTOCOL_PAGE_LIMIT)%N then Some (Ok (fst acc), snd acc)
        else if bool_decide (page_next_cursor page = cursor)
        then Some (Err (StoreMessage (lit "canonical runtime projection cursor did not advance for session " ++ ulid_to_string session_id)), snd acc)
        else project_pages fuel io (S k) session_id (page_next_cursor page) db acc
    end
  end.
Definition project_after_cursor (fuel : nat) (io : nat -> option text) (session_id : SessionId) (cursor : option Z) (db : ProtocolDb) (w : Hub)
    : option (result CanonicalRuntimeProjectionReport StoreError * Hub) := project_pages fuel io 0 session_id cursor db (empty_report, w).

(** ** The recorder *)

Record ProtocolRecordingSink := {
  fallback_session_id : option SessionId;
  sink_turn_id : TurnId;
  admission_id : option N;
  next_sequence_no : Z;
  published_runtime_sequence_no : option Z;
  committed_terminal_fanout_attempted : bool;
  runtime_event_publisher : bool;
  canonical_runtime_projector : bool
}.

Definition sink_new (fallback_session_id : option SessionId) (turn_id : TurnId) : ProtocolRecordingSink :=
  {| fallback_session_id := fallback_session_id; sink_turn_id := turn_id; admission_id := None; next_sequence_no := 0;
     published_runtime_sequence_no := None; committed_terminal_fanout_attempted := false; runtime_event_publisher := false;
     canonical_runtime_projector := false |}.
Definition set_next (n : Z) (s : ProtocolRecordingSink) : ProtocolRecordingSink :=
  {| fallback_session_id := fallback_session_id s; sink_turn_id := sink_turn_id s; admission_id := admission_id s; next_sequence_no := n;
     published_runtime_sequence_no := published_runtime_sequence_no s;
     committed_terminal_fanout_attempted := committed_terminal_fanout_attempted s; runtime_event_publisher := runtime_event_publisher s;
     canonical_runtime_projector := canonical_runtime_projector s |}.
Definition set_published (p : option Z) (s : ProtocolRecordingSink) : ProtocolRecordingSink :=
  {| fallback_session_id := fallback_session_id s; sink_turn_id := sink_turn_id s; admission_id := admission_id s;
     next_sequence_no := next_sequence_no s; published_runtime_sequence_no := p;
     committed_terminal_fanout_attempted := committed_terminal_fanout_attempted s; runtime_event_publisher := runtime_event_publisher s;
     canonical_runtime_projector := canonical_runtime_projector s |}.
Definition set_attempted (s : ProtocolRecordingSink) : ProtocolRecordingSink :=
  {| fallback_session_id := fallback_session_id s; sink_turn_id := sink_turn_id s; admission_id := admission_id s;
     next_sequence_no := next_sequence_no s; published_runtime_sequence_no := published_runtime_sequence_no s;
     committed_terminal_fanout_attempted := true; runtime_event_publisher := runtime_event_publisher s;
     canonical_runtime_projector := canonical_runtime_projector s |}.

Definition with_runtime_event_publisher (s : ProtocolRecordingSink) : ProtocolRecordingSink :=
  {| fallback_session_id := fallback_session_id s; sink_turn_id := sink_turn_id s; admission_id := admission_id s;
     next_sequence_no := next_sequence_no s; published_runtime_sequence_no := published_runtime_sequence_no s;
     committed_terminal_fanout_attempted := committed_terminal_fanout_attempted s; runtime_event_publisher := true;
     canonical_runtime_projector := canonical_runtime_projector s |}.
Definition with_canonical_runtime_projector (s : ProtocolRecordingSink) : ProtocolRecordingSink :=
  {| fallback_session_id := fallback_session_id s; sink_turn_id := sink_turn_id s; admission_id := admission_id s;
     next_sequence_no := next_sequence_no s; published_runtime_sequence_no := published_runtime_sequence_no s;
     committed_terminal_fanout_attempted := committed_terminal_fanout_attempted s; runtime_event_publisher := runtime_event_publisher s;
     canonical_runtime_projector := true |}.
Definition with_admission_id (admission : N) (s : ProtocolRecordingSink) : ProtocolRecordingSink :=
  {| fallback_session_id := fallback_session_id s; sink_turn_id := sink_turn_id s; admission_id := Some admission;
     next_sequence_no := next_sequence_no s; published_runtime_sequence_no := published_runtime_sequence_no s;
     committed_terminal_fanout_attempted := committed_terminal_fanout_attempted s; runtime_event_publisher := runtime_event_publisher s;
     canonical_runtime_projector := canonical_runtime_projector s |}.

(** A failing read is passed over. *)
Definition sync_next_sequence_no_from_store (io : option text) (db : ProtocolDb) (s : ProtocolRecordingSink) : ProtocolRecordingSink :=
  match fallback_session_id s with
  | None => s
  | Some session_id =>
    match latest_turn_position_for_session io session_id db with
    | Ok (Some (turn_id, n)) => if ((turn_id =? sink_turn_id s)%N && (next_sequence_no s <? n)%Z) then set_next n s else s
    | _ => s
    end
  end.

Definition reserve_sequence_no (io : option text) (db : ProtocolDb) (s : ProtocolRecordingSink) : ProtocolRecordingSink * Z :=
  let s := sync_next_sequence_no_from_store io db s in (set_next (wrapping_succ (next_sequence_no s)) s, next_sequence_no s).

Definition reserve_protocol_sequence_no (io : option text) (db : ProtocolDb) (s : ProtocolRecordingSink) : ProtocolRecordingSink * option Z :=
  let '(s, n) := reserve_sequence_no io db s in (s, Some n).

(** One committed event for the observers.  Both branches publish it; a failure of the harness is only logged. *)
Definition fan_out (acc : ProtocolRecordingSink * Hub) (event : Event) : ProtocolRecordingSink * Hub :=
  let '(s, w) := acc in
  let sequence_no := event_sequence_no event in
  let s := set_next (Z.max (next_sequence_no s) (saturating_add_i64 sequence_no 1)) s in
  let w := if canonical_runtime_projector s then snd (project_event event w) else publish event w in
  (set_published (Some (match published_runtime_sequence_no s with None => sequence_no | Some current => Z.max current sequence_no end)) s, w).

(** What a [StorageError] shows. *)
Context (show_store_error : StoreError -> text).

Fixpoint publish_pages (fuel : nat) (io : nat -> option text) (k : nat) (session_id : SessionId) (db : ProtocolDb) (s : ProtocolRecordingSink) (w : Hub)
    : option (ProtocolRecordingSink * Hub * result unit text) :=
  match fuel with
  | 0 => None
  | S fuel =>
    match runtime_event_page_for_turn_after_sequence (io k) session_id (sink_turn_id s) (published_runtime_sequence_no s) MAX_PROTOCOL_PAGE_LIMIT db with
    | Err error => Some (s, w, Err (show_store_error error))
    | Ok events =>
      if is_empty events then Some (s, w, Ok tt)
      else
        let '(s, w) := fold_left fan_out events (s, w) in
        if (count events <? MAX_PROTOCOL_PAGE_LIMIT)%N then Some (s, w, Ok tt)
        else publish_pages fuel io (S k) session_id db s w
    end
  end.

Definition publish_committed_runtime_events (fuel : nat) (io : nat -> option text) (db : ProtocolDb) (s : ProtocolRecordingSink) (w : Hub)
    : option (ProtocolRecordingSink * Hub * result unit text) :=
  if negb (runtime_event_publisher s) then Some (s, w, Ok tt)
  else match fallback_session_id s with None => Some (s, w, Ok tt) | Some session_id => publish_pages fuel io 0 session_id db s w end.

(** The renderer, or whatever sink is inside: what it does to the database and to itself, and how it ends. *)
Context {I : Type} (inner_emit inner_emit_committed inner_emit_runtime_only : RunEvent.run_event V -> ProtocolDb * I -> ProtocolDb * I * result unit text).

Record RecordingWorld := { rec_db : ProtocolDb; rec_hub : Hub; rec_inner : I }.

Definition run_inner (inner : RunEvent.run_event V -> ProtocolDb * I -> ProtocolDb * I * result unit text) (event : RunEvent.run_event V) (w : RecordingWorld)
    : RecordingWorld * result unit text :=
  let '(db, i, r) := inner event (rec_db w, rec_inner w) in ({| rec_db := db; rec_hub := rec_hub w; rec_inner := i |}, r).

Definition set_hub (hub : Hub) (w : RecordingWorld) : RecordingWorld := {| rec_db := rec_db w; rec_hub := hub; rec_inner := rec_inner w |}.
Definition set_db (db : ProtocolDb) (w : RecordingWorld) : RecordingWorld := {| rec_db := db; rec_hub := rec_hub w; rec_inner := rec_inner w |}.

Definition debug_durability (d : RunEventDurability) : text := match d with RuntimeOnly => lit "RuntimeOnly" | Committed => lit "Committed" end.
Definition validate_run_event_durability (event : RunEvent.run_event V) (expected : RunEventDurability) (boundary : text) : result unit text :=
  if decide (durability event = expected) then Ok tt
  else Err (boundary ++ lit " requires " ++ debug_durability expected ++ lit " RunEvent durability, got " ++ debug_durability (durability event)).

(** What one call draws from outside: the failures of the reads and of the transaction, fresh identifiers, and the admission's answer. *)
Record EmitInput := {
  sync_io : option text; append_io : option text; page_io : nat -> option text; emit_fresh : Fresh; admission_owned : result bool StoreError
}.

Definition append_projection (input : EmitInput) (s : ProtocolRecordingSink) (projection : ProtocolRunEventProjection V) (db : ProtocolDb)
    : result (ProtocolDb * Event) text :=
  match admission_id s with
  | Some admission =>
    match append_admitted_recording_projection_allocating (append_io input) (admission_owned input) projection db with
    | Err error => Err (show_store_error error)
    | Ok (db, Some event) => Ok (db, event)
    | Ok (_, None) => Err (lit "run admission " ++ ulid_to_string admission ++ lit " no longer owns protocol turn " ++ ulid_to_string (sink_turn_id s))
    end
  | None =>
    match append_recording_projection_allocating (append_io input) projection db with
    | Err error => Err (show_store_error error)
    | Ok stored => Ok stored
    end
  end.

(** [None]: a panic, or out of fuel. *)
Definition emit (fuel : nat) (input : EmitInput) (event : RunEvent.run_event V) (s : ProtocolRecordingSink) (w : RecordingWorld)
    : option (ProtocolRecordingSink * RecordingWorld * result unit text) :=
  let s := sync_next_sequence_no_from_store (sync_io input) (rec_db w) s in
  match project_protocol_run_event (emit_fresh input) event (fallback_session_id s) (sink_turn_id s) (next_sequence_no s) with
  | None => None
  | Some None => let '(w, r) := run_inner inner_emit event w in Some (s, w, r)
  | Some (Some projection) =>
    match append_projection input s projection (rec_db w) with
    | Err error => Some (s, w, Err error)
    | Ok (db, stored) =>
      let s := set_next (saturating_add_i64 (event_sequence_no stored) 1) s in
      match publish_committed_runtime_events fuel (page_io input) db s (rec_hub w) with
      | None => None
      | Some (s, hub, Err error) => Some (s, set_hub hub (set_db db w), Err error)
      | Some (s, hub, Ok _) => let '(w, r) := run_inner inner_emit event (set_hub hub (set_db db w)) in Some (s, w, r)
      end
    end
  end.

Definition is_turn_terminal (event : RunEvent.run_event V) : bool := match event with RunEvent.TurnTerminal _ _ => true | _ => false end.

(** The terminal is committed by the sink inside, before the fan-out, whose failure is only logged. *)
Definition emit_committed (fuel : nat) (io : nat -> option text) (event : RunEvent.run_event V) (s : ProtocolRecordingSink) (w : RecordingWorld)
    : option (ProtocolRecordingSink * RecordingWorld * result unit text) :=
  match validate_run_event_durability event Committed (lit "ProtocolRecordingSink::emit_committed") with
  | Err error => Some (s, w, Err error)
  | Ok _ =>
    if is_turn_terminal event then
      let s := set_attempted s in
      let '(w, r) := run_inner inner_emit_committed event w in
      match publish_committed_runtime_events fuel io (rec_db w) s (rec_hub w) with
      | None => None
      | Some (s, hub, _) => Some (s, set_hub hub w, r)
      end
    else
      match publish_committed_runtime_events fuel io (rec_db w) s (rec_hub w) with
      | None => None
      | Some (s, hub, Err error) => Some (s, set_hub hub w, Err error)
      | Some (s, hub, Ok _) => let '(w, r) := run_inner inner_emit_committed event (set_hub hub w) in Some (s, w, r)
      end
  end.

Definition emit_runtime_only (event : RunEvent.run_event V) (s : ProtocolRecordingSink) (w : RecordingWorld) : ProtocolRecordingSink * RecordingWorld * result unit text :=
  match validate_run_event_durability event RuntimeOnly (lit "ProtocolRecordingSink::emit_runtime_only") with
  | Err error => (s, w, Err error)
  | Ok _ => let '(w, r) := run_inner inner_emit_runtime_only event w in (s, w, r)
  end.

(** ** Pages by key *)

Lemma filter_nothing {A} (f : A -> bool) l : (forall x, x ∈ l -> f x = false) -> List.filter f l = [].
Proof. induction l as [|x l IH]; intros Hf; [done|]. cbn. rewrite (Hf x) by (by left). apply IH. intros y Hy. apply Hf. by right. Qed.

Lemma sorted_kept {A} (R : relation A) (f : A -> bool) l : StronglySorted R l -> StronglySorted R (List.filter f l).
Proof.
  induction 1 as [|x l _ IH F]; [constructor|]. cbn. destruct (f x); [|done]. constructor; [done|].
  apply Forall_forall. intros y [Hy _]%list_elem_of_In%filter_In. apply (proj1 (Forall_forall _ _) F). by apply list_elem_of_In.
Qed.

(** The rows after the last key of a page are what the page left. *)
Lemma keyset_next {A} (key : A -> Z) (l : list A) after n x : StronglySorted (fun a b => (key a < key b)%Z) l ->
  let rest := List.filter (fun r => after_position after (key r)) l in
  last (take n rest) = Some x -> List.filter (fun r => after_position (Some (key x)) (key r)) l = drop n rest.
Proof.
  intros Hs rest Hx. assert (StronglySorted (fun a b => (key a < key b)%Z) rest) as Hr by (by apply sorted_kept).
  assert (after_position after (key x) = true) as Hax.
  { apply last_elem in Hx. assert (x ∈ rest) as Hin%list_elem_of_In%filter_In by (rewrite <- (take_drop n rest); apply elem_of_app; by left). apply Hin. }
  transitivity (List.filter (fun r => after_position (Some (key x)) (key r)) rest).
  - unfold rest. rewrite <- filter_and. apply filter_ext. intros r. cbn [after_position]. destruct (Z.ltb_spec (key x) (key r)); [|done].
    destruct after as [c|]; [|done]. cbn in Hax |- *. symmetry. apply Z.ltb_lt. apply Z.ltb_lt in Hax. lia.
  - clearbody rest. apply last_Some in Hx as [pre Hp]. rewrite <- (take_drop n rest) in Hr |- * at 1. rewrite Hp, <- app_assoc in *.
    pose proof (sorted_app _ _ _ Hr) as [Hr' Hlt]. cbn [app] in Hr', Hlt. apply StronglySorted_inv in Hr' as [_ Hf]. rewrite Forall_forall in Hf.
    rewrite List.filter_app. cbn [List.filter app after_position]. rewrite Z.ltb_irrefl. rewrite filter_nothing, filter_all; [done| |].
    + intros y Hy. apply Z.ltb_lt. by apply Hf.
    + intros y Hy. apply Z.ltb_ge. specialize (Hlt y x Hy ltac:(by left)). lia.
Qed.

(** ** The events of a turn *)

Context `{!UlidLaws U} (JL : ProtocolJsonLaws J).
Local Abbreviation db_ok := (db_ok J) (only parsing).

(** No two events of a turn have the same number: [UNIQUE(session_id, turn_id, sequence_no)]. *)
Definition numbers_unique (db : ProtocolDb) : Prop := forall id id' row row',
  runtime_rows db !! id = Some row -> runtime_rows db !! id' = Some row' -> event_row_session row = event_row_session row' ->
  event_row_turn row = event_row_turn row' -> event_row_sequence_no row = event_row_sequence_no row' -> id = id'.

Definition turn_events (session_id : SessionId) (turn_id : TurnId) (db : ProtocolDb) : list Event :=
  omap (fun r => match decode_turn_event session_id turn_id r with Ok event => Some event | Err _ => None end)
    (ordered_turn_rows (ulid_to_string session_id) (ulid_to_string turn_id) db).

Lemma in_turn_rows session turn db id row : (id, row) ∈ turn_runtime_rows session turn db <->
  runtime_rows db !! id = Some row /\ event_row_session row = session /\ event_row_turn row = turn.
Proof.
  unfold turn_runtime_rows. rewrite list_elem_of_In, filter_In, <- list_elem_of_In, elem_of_map_to_list. cbn. rewrite andb_true_iff, !text_eqb_eq. done.
Qed.

Lemma in_ordered_rows session turn db r : r ∈ ordered_turn_rows session turn db <-> r ∈ turn_runtime_rows session turn db.
Proof. unfold ordered_turn_rows. by rewrite stable_sort_perm. Qed.

Lemma turn_rows_nodup session turn db : NoDup (turn_runtime_rows session turn db).
Proof. unfold turn_runtime_rows. apply NoDup_ListNoDup, List.NoDup_filter, NoDup_ListNoDup. apply NoDup_map_to_list. Qed.

Lemma ordered_rows_sorted session turn db : numbers_unique db ->
  StronglySorted (fun a b => (row_sequence a < row_sequence b)%Z) (ordered_turn_rows session turn db).
Proof.
  intros Hu. assert (NoDup (ordered_turn_rows session turn db)) as Hnd by (unfold ordered_turn_rows; rewrite stable_sort_perm; apply turn_rows_nodup).
  assert (forall a b, a ∈ ordered_turn_rows session turn db -> b ∈ ordered_turn_rows session turn db -> row_sequence a = row_sequence b -> a = b) as Hinj.
  { intros [i a] [j b] (Ha & Hsa & Hta)%in_ordered_rows%in_turn_rows (Hb & Hsb & Htb)%in_ordered_rows%in_turn_rows E. unfold row_sequence in E. cbn in E.
    assert (i = j) as -> by (apply (Hu i j a b); congruence). congruence. }
  assert (StronglySorted (fun a b => (row_sequence a <= row_sequence b)%Z) (ordered_turn_rows session turn db)) as Hs.
  { unfold ordered_turn_rows. eapply sorted_impl; [|apply (stable_sort_sorted (fun a b => (row_sequence a <=? row_sequence b)%Z))].
    - intros a b. unfold before. by intros ?%Z.leb_le.
    - intros a b. rewrite !Z.leb_le. lia.
    - intros a b c. rewrite !Z.leb_le. lia. }
  revert Hs Hnd Hinj. induction (ordered_turn_rows session turn db) as [|x l IH]; intros Hs Hnd Hinj; [constructor|].
  apply StronglySorted_inv in Hs as [Hs Hf]. apply NoDup_cons in Hnd as [Hx Hnd]. constructor; [apply IH; [done..|]; intros a b Ha Hb; apply Hinj; by right|].
  rewrite Forall_forall in Hf |- *. intros y Hy. specialize (Hf y Hy).
  assert (row_sequence x <> row_sequence y); [|lia]. intros E. apply Hx. by rewrite (Hinj x y ltac:(by left) ltac:(by right) E).
Qed.

Lemma turn_row_decodes session_id turn_id db r : db_ok db -> r ∈ ordered_turn_rows (ulid_to_string session_id) (ulid_to_string turn_id) db ->
  exists event, decode_turn_event session_id turn_id r = Ok event /\ event_sequence_no event = row_sequence r /\
    encodes_event J event (fst r) (snd r) /\ event_session_id event = session_id /\ event_turn_id event = turn_id.
Proof.
  intros Hok. destruct r as [id row]. intros (Hr & Hs & Ht)%in_ordered_rows%in_turn_rows. destruct (ok_runtime _ _ Hok _ _ Hr) as [event He].
  exists event. pose proof He as (-> & Es & Et & En & Ec & Em). assert (event_session_id event = session_id) as E1 by (apply ulid_inj; congruence).
  assert (event_turn_id event = turn_id) as E2 by (apply ulid_inj; congruence). split_and!; try done.
  unfold decode_turn_event, parse_protocol_id. cbn [fst snd]. rewrite ulid_round_trip. cbn [and_then]. rewrite (msg_round_trip J JL _ _ Em).
  unfold row_sequence. cbn [snd]. rewrite En, Ec. subst. by destruct event.
Qed.

Lemma turn_events_stored session_id turn_id db : db_ok db ->
  Forall2 (fun event r => decode_turn_event session_id turn_id r = Ok event /\ event_sequence_no event = row_sequence r)
    (turn_events session_id turn_id db) (ordered_turn_rows (ulid_to_string session_id) (ulid_to_string turn_id) db).
Proof.
  intros Hok. apply omap_forall2. intros r Hr. destruct (turn_row_decodes _ _ _ _ Hok Hr) as (e & E & Es & _). exists e. by rewrite E.
Qed.

Lemma sorted_along {A B} (R : A -> B -> Prop) (f : A -> Z) (g : B -> Z) l k : Forall2 R l k -> (forall a b, R a b -> f a = g b) ->
  StronglySorted (fun a b => (g a < g b)%Z) k -> StronglySorted (fun a b => (f a < f b)%Z) l.
Proof.
  intros Hf Hr. induction Hf as [|a b l k Hab Hf IH]; intros Hs; [constructor|]. apply StronglySorted_inv in Hs as [Hs Hall]. constructor; [auto|].
  pose proof (proj1 (Forall_forall _ _) Hall) as Hlater. apply Forall_forall. intros x (j & Hx)%list_elem_of_lookup. destruct (Forall2_lookup_l _ _ _ _ _ Hf Hx) as (y & Hy & Hxy).
  rewrite (Hr _ _ Hab), (Hr _ _ Hxy). apply Hlater. apply list_elem_of_lookup. by exists j.
Qed.

Lemma filter_along {A B} (R : A -> B -> Prop) (f : A -> bool) (g : B -> bool) l k : Forall2 R l k -> (forall a b, R a b -> f a = g b) ->
  Forall2 R (List.filter f l) (List.filter g k).
Proof. intros Hf Hr. induction Hf as [|a b l k Hab Hf IH]; [constructor|]. cbn. rewrite (Hr _ _ Hab). destruct (g b); [by constructor|done]. Qed.

Lemma turn_events_sorted session_id turn_id db : db_ok db -> numbers_unique db ->
  StronglySorted (fun a b => (event_sequence_no a < event_sequence_no b)%Z) (turn_events session_id turn_id db).
Proof. intros Hok Hu. eapply sorted_along; [by apply turn_events_stored|by intros a b [_ ?]|by apply ordered_rows_sorted]. Qed.

(** The events of a turn after a number. *)
Definition pending (session_id : SessionId) (turn_id : TurnId) (after : option Z) (db : ProtocolDb) : list Event :=
  List.filter (fun e => after_position after (event_sequence_no e)) (turn_events session_id turn_id db).

Lemma turn_page session_id turn_id after db : db_ok db -> numbers_unique db ->
  runtime_event_page_for_turn_after_sequence None session_id turn_id after MAX_PROTOCOL_PAGE_LIMIT db = Ok (take 200 (pending session_id turn_id after db)).
Proof.
  intros Hok Hu. unfold runtime_event_page_for_turn_after_sequence. change ((MAX_PROTOCOL_PAGE_LIMIT =? 0)%N || (MAX_PROTOCOL_PAGE_LIMIT <? MAX_PROTOCOL_PAGE_LIMIT)%N) with false.
  rewrite sql_limit_take. change (N.to_nat MAX_PROTOCOL_PAGE_LIMIT) with 200. apply result_map_ok. apply Forall2_take.
  eapply Forall2_impl; [apply (filter_along _ (fun e => after_position after (event_sequence_no e)));
    [by apply turn_events_stored|intros a b [_ E]; by rewrite E]|]. by intros e r [He _].
Qed.

(** ** The fan-out *)

(** What a fan-out leaves alone. *)
Definition same_recorder (s s' : ProtocolRecordingSink) : Prop :=
  fallback_session_id s' = fallback_session_id s /\ sink_turn_id s' = sink_turn_id s /\ admission_id s' = admission_id s /\
  runtime_event_publisher s' = runtime_event_publisher s /\ canonical_runtime_projector s' = canonical_runtime_projector s /\
  committed_terminal_fanout_attempted s' = committed_terminal_fanout_attempted s.
Lemma same_recorder_trans a b c : same_recorder a b -> same_recorder b c -> same_recorder a c.
Proof. unfold same_recorder. intuition congruence. Qed.

Definition publish_all (events : list Event) (w : Hub) : Hub := fold_left (fun w e => publish e w) events w.

Lemma fan_out_all events : forall s w, StronglySorted (fun a b => (event_sequence_no a < event_sequence_no b)%Z) events ->
  (forall p e, published_runtime_sequence_no s = Some p -> e ∈ events -> (p < event_sequence_no e)%Z) ->
  exists s', fold_left fan_out events (s, w) = (s', publish_all events w) /\ same_recorder s s' /\ (next_sequence_no s <= next_sequence_no s')%Z /\
    published_runtime_sequence_no s' = match last events with Some e => Some (event_sequence_no e) | None => published_runtime_sequence_no s end /\
    forall e, e ∈ events -> (saturating_add_i64 (event_sequence_no e) 1 <= next_sequence_no s')%Z.
Proof.
  induction events as [|e events IH]; intros s w Hs Hp.
  - exists s. split; [done|]. split; [by unfold same_recorder|]. split; [lia|]. split; [done|]. by intros e ?%elem_of_nil.
  - apply StronglySorted_inv in Hs as [Hs Hf]. rewrite Forall_forall in Hf. cbn [fold_left]. destruct (fan_out (s, w) e) as [s1 w1] eqn:E1.
    unfold fan_out in E1. injection E1 as <- <-.
    set (s1 := set_published _ _). destruct (IH s1 (publish e w)) as (s' & E & Hsame & Hn & Hpub & Hall); [done| |].
    + intros p x Hpx Hx. cbn in Hpx. injection Hpx as <-. specialize (Hf x Hx). specialize (Hp). destruct (published_runtime_sequence_no s) as [c|]; [|done].
      specialize (Hp c e eq_refl ltac:(by left)). lia.
    + exists s'. split; [|split; [|split; [|split]]].
      * change (publish_all (e :: events) w) with (publish_all events (publish e w)). rewrite <- E. f_equal. f_equal. cbn. by destruct (canonical_runtime_projector s).
      * eapply same_recorder_trans; [|exact Hsame]. by unfold same_recorder.
      * cbn in Hn. lia.
      * rewrite Hpub. cbn [s1 set_published published_runtime_sequence_no set_next]. rewrite last_cons. destruct (last events); [done|].
        destruct (published_runtime_sequence_no s) as [c|]; [|done]. specialize (Hp c e eq_refl ltac:(by left)). do 2 f_equal. lia.
      * intros x [->|Hx]%elem_of_cons; [|by apply Hall]. cbn in Hn. lia.
Qed.

Lemma pending_sorted session_id turn_id after db : db_ok db -> numbers_unique db ->
  StronglySorted (fun a b => (event_sequence_no a < event_sequence_no b)%Z) (pending session_id turn_id after db).
Proof. intros Hok Hu. by apply sorted_kept, turn_events_sorted. Qed.

Lemma pending_after session_id turn_id after db e : e ∈ pending session_id turn_id after db -> forall p, after = Some p -> (p < event_sequence_no e)%Z.
Proof. unfold pending. intros [_ Ha]%list_elem_of_In%filter_In p ->. by apply Z.ltb_lt. Qed.

Lemma pages_published io fuel (Hio : forall k, io k = None) : forall k session_id db s w, db_ok db -> numbers_unique db ->
  let rest := pending session_id (sink_turn_id s) (published_runtime_sequence_no s) db in
  length rest < 200 * fuel ->
  exists s', publish_pages fuel io k session_id db s w = Some (s', publish_all rest w, Ok tt) /\ same_recorder s s' /\
    (next_sequence_no s <= next_sequence_no s')%Z /\
    published_runtime_sequence_no s' = match last rest with Some e => Some (event_sequence_no e) | None => published_runtime_sequence_no s end /\
    forall e, e ∈ rest -> (saturating_add_i64 (event_sequence_no e) 1 <= next_sequence_no s')%Z.
Proof.
  induction fuel as [|fuel IH]; intros k session_id db s w Hok Hu rest Hl; [lia|]. cbn [publish_pages]. rewrite Hio, turn_page by done. fold rest.
  pose proof (pending_sorted session_id (sink_turn_id s) (published_runtime_sequence_no s) db Hok Hu) as Hs. fold rest in Hs.
  assert (forall n e, e ∈ take n rest -> e ∈ rest) as Hin by (intros n e He; rewrite <- (take_drop n rest); apply elem_of_app; by left).
  destruct (is_empty (take 200 rest)) eqn:Ee.
  - assert (rest = []) as -> by (destruct rest; [done|discriminate Ee]). exists s. split; [done|]. split; [by unfold same_recorder|]. split; [lia|]. split; [done|]. by intros e ?%elem_of_nil.
  - assert (StronglySorted (fun a b => (event_sequence_no a < event_sequence_no b)%Z) (take 200 rest)) as Hts.
    { clear -Hs. rewrite <- (take_drop 200 rest) in Hs. revert Hs. generalize (drop 200 rest) as k. induction (take 200 rest) as [|x l IHl]; intros k Hs; [constructor|].
      cbn in Hs. apply StronglySorted_inv in Hs as [Hs Hf]. constructor; [by eapply IHl|]. by apply Forall_app in Hf as [Hf _]. }
    destruct (fan_out_all (take 200 rest) s w Hts) as (s1 & E1 & Hsame1 & Hn1 & Hp1 & Hall1).
    { intros p e Hp He%Hin. by eapply pending_after. }
    rewrite E1. unfold count. destruct (N.ltb_spec (N.of_nat (length (take 200 rest))) MAX_PROTOCOL_PAGE_LIMIT) as [Hlt|Hge].
    + rewrite length_take in Hlt. unfold MAX_PROTOCOL_PAGE_LIMIT in Hlt. rewrite take_ge in * by lia. by exists s1.
    + rewrite length_take in Hge. unfold MAX_PROTOCOL_PAGE_LIMIT in Hge.
      destruct (last (take 200 rest)) as [x|] eqn:Ex; [|apply last_None in Ex; by rewrite Ex in Ee].
      pose proof Hsame1 as (Ef & Et & _). assert (pending session_id (sink_turn_id s1) (published_runtime_sequence_no s1) db = drop 200 rest) as Er.
      { rewrite Et, Hp1. unfold pending at 1. apply (keyset_next event_sequence_no); [by apply turn_events_sorted|done]. }
      destruct (IH (S k) session_id db s1 (publish_all (take 200 rest) w) Hok Hu) as (s2 & E2 & Hsame2 & Hn2 & Hp2 & Hall2); [rewrite Er, length_drop; lia|].
      rewrite Er in E2, Hp2, Hall2. exists s2. split; [|split; [|split; [|split]]].
      * rewrite E2. unfold publish_all. by rewrite <- fold_left_app, take_drop.
      * by eapply same_recorder_trans.
      * lia.
      * rewrite Hp2. rewrite <- (take_drop 200 rest) at 2. rewrite last_app, Ex. destruct (last (drop 200 rest)); [done|congruence].
      * intros e He. rewrite <- (take_drop 200 rest) in He. apply elem_of_app in He as [He|He]; [specialize (Hall1 e He); lia|by apply Hall2].
Qed.

(** ** A commit *)

Lemma history_keeps_events item db db' : insert_history_item J item db = Ok db' -> runtime_rows db' = runtime_rows db.
Proof.
  unfold insert_history_item. destruct (validate_compaction_checkpoint _); [|done]. destruct (payload_to_string _ _); [|done].
  destruct (history_check _ _ _ _); [|done]. unfold insert_protocol_append_order. destruct (negb _); [by intros [= <-]|]. destruct (_ <? _)%Z; [done|]. by intros [= <-].
Qed.
Lemma turn_keeps_events (item : TurnItem V) db db' : insert_turn_item J item db = Ok db' -> runtime_rows db' = runtime_rows db.
Proof.
  unfold insert_turn_item. destruct (turn_payload_to_string _ _); [|done].
  destruct (turn_check _ _ _); [|done]. unfold insert_protocol_append_order. destruct (negb _); [by intros [= <-]|]. destruct (_ <? _)%Z; [done|]. by intros [= <-].
Qed.
Lemma event_row_inserted event db db' : insert_runtime_event J event db = Ok db' -> exists row, encodes_event J event (ulid_to_string (event_id event)) row /\
  runtime_rows db !! ulid_to_string (event_id event) = None /\ runtime_rows db' = <[ulid_to_string (event_id event) := row]> (runtime_rows db).
Proof.
  unfold insert_runtime_event. destruct (msg_to_string _ _) as [json|] eqn:Em; [|done]. destruct (runtime_check _ _ _ _) eqn:Ec; [|done].
  apply andb_true_iff in Ec as [Hn%bool_decide_eq_true _]. intros Hi.
  exists {| event_row_session := ulid_to_string (event_session_id event); event_row_turn := ulid_to_string (event_turn_id event);
            event_row_sequence_no := event_sequence_no event; event_row_msg_json := json; event_row_sha256 := hash_text J json;
            event_row_created_at_ms := event_created_at_ms event |}.
  split; [by split_and!|]. split; [exact Hn|]. revert Hi. unfold insert_protocol_append_order. destruct (negb _); [by intros [= <-]|]. destruct (_ <? _)%Z; [done|]. by intros [= <-].
Qed.

Lemma decode_encoded_turn_event event id row : encodes_event J event id row ->
  decode_turn_event (event_session_id event) (event_turn_id event) (id, row) = Ok event.
Proof.
  intros (-> & Es & Et & En & Ec & Em). unfold decode_turn_event, parse_protocol_id. cbn [fst snd]. rewrite ulid_round_trip. cbn [and_then].
  rewrite (msg_round_trip J JL _ _ Em). unfold row_sequence. cbn [snd]. rewrite En, Ec. by destruct event.
Qed.

(** A new row with the highest number of its turn. *)
Lemma row_added session turn db db' id row : numbers_unique db -> runtime_rows db !! id = None -> runtime_rows db' = <[id := row]> (runtime_rows db) ->
  (forall r, r ∈ turn_runtime_rows (event_row_session row) (event_row_turn row) db -> (row_sequence r < event_row_sequence_no row)%Z) ->
  ordered_turn_rows session turn db' = ordered_turn_rows session turn db ++
    if text_eqb (event_row_session row) session && text_eqb (event_row_turn row) turn then [(id, row)] else [].
Proof.
  intros Hu Hn Er Hmax. unfold ordered_turn_rows at 1. apply stable_sort_unique.
  - intros a b. rewrite !Z.leb_le. lia.
  - intros a b c. rewrite !Z.leb_le. lia.
  - unfold ordered_turn_rows. rewrite stable_sort_perm. unfold turn_runtime_rows. rewrite Er.
    assert (forall (f : text * RuntimeRow -> bool) l k, l ≡ₚ k -> List.filter f l ≡ₚ List.filter f k) as Hp.
    { intros f l k. induction 1 as [|x l k _ IH|x y l|l k m _ IH1 _ IH2]; cbn; [done|destruct (f x); by rewrite IH|destruct (f x), (f y); [apply Permutation_swap|done..]|by rewrite IH1]. }
    rewrite (Hp _ _ _ (map_to_list_insert (runtime_rows db) id row Hn)). cbn [List.filter snd].
    destruct (_ && _); [by rewrite Permutation_app_comm|by rewrite app_nil_r].
  - assert (StronglySorted (fun a b => (row_sequence a < row_sequence b)%Z) (ordered_turn_rows session turn db)) as Hs by (by apply ordered_rows_sorted).
    eapply (sorted_impl (fun a b => (row_sequence a < row_sequence b)%Z)); [intros a b Hab; by apply Z.leb_gt|].
    destruct (text_eqb (event_row_session row) session && text_eqb (event_row_turn row) turn) eqn:E; [|by rewrite app_nil_r].
    apply andb_true_iff in E as [<-%text_eqb_eq <-%text_eqb_eq].
    assert (forall r, r ∈ ordered_turn_rows (event_row_session row) (event_row_turn row) db -> (row_sequence r < event_row_sequence_no row)%Z) as Hlt
      by (intros r Hr%in_ordered_rows; by apply Hmax).
    revert Hs Hlt. induction (ordered_turn_rows (event_row_session row) (event_row_turn row) db) as [|x l IH]; intros Hs Hlt; [repeat constructor|].
    apply StronglySorted_inv in Hs as [Hs Hf]. cbn. constructor; [apply IH; [done|]; intros r Hr; apply Hlt; by right|].
    apply Forall_app. split; [done|]. apply Forall_singleton. apply Hlt. by left.
Qed.

Lemma bundle_events event history_item turn_item db db' stored kept : db_ok db -> numbers_unique db ->
  insert_event_bundle_unchecked J event history_item turn_item db = Ok (db', (stored, kept)) ->
  db_ok db' /\ numbers_unique db' /\ stored = with_event_sequence (event_sequence_no stored) event /\
  (forall e, e ∈ turn_events (event_session_id event) (event_turn_id event) db -> (event_sequence_no e < event_sequence_no stored)%Z) /\
  forall session_id turn_id, turn_events session_id turn_id db' = turn_events session_id turn_id db ++
    if decide (event_session_id event = session_id /\ event_turn_id event = turn_id) then [stored] else [].
Proof.
  intros Hok Hu Hi. destruct (bundle_committed J JL _ _ _ _ _ _ _ Hok Hi) as (Hok' & _ & _).
  destruct (bundle_claimed J _ _ _ _ _ _ _ Hi) as (m & n & Hc & -> & _ & Hrows & _).
  destruct (ProtocolInserts.claimed _ _ _ _ _ _ Hc) as (_ & _ & _ & _ & Hmax & _). unfold insert_bundle_rows in Hrows.
  apply and_then_ok in Hrows as (db1 & E1 & Hrows). apply and_then_ok in Hrows as (db2 & E2 & E3).
  destruct (event_row_inserted _ _ _ E1) as (row & He & Hnew & Er1).
  assert (runtime_rows db2 = runtime_rows db1) as Er2 by (destruct history_item as [item|]; cbn in E2; [by apply history_keeps_events in E2|by injection E2 as <-]).
  assert (runtime_rows db' = runtime_rows db2) as Er3 by (destruct turn_item as [turn|]; cbn in E3; [by apply turn_keeps_events in E3|by injection E3 as <-]).
  cbn in Hnew, Er1, He. assert (runtime_rows db' = <[ulid_to_string (event_id event) := row]> (runtime_rows db)) as Er by congruence.
  pose proof He as (_ & Es & Et & En & _ & _). cbn in Es, Et, En.
  assert (forall id' row', runtime_rows db !! id' = Some row' -> event_row_session row' = event_row_session row -> event_row_turn row' = event_row_turn row ->
    (event_row_sequence_no row' < event_row_sequence_no row)%Z) as Hlt.
  { intros id' row' Hr Hs' Ht'. rewrite En. apply Hmax. apply (in_turn_numbers_event _ _ id'); congruence. }
  split; [done|]. split; [|split; [done|split]].
  - intros i j a b. rewrite Er. intros Ha Hb Hs' Ht' Hn'.
    apply lookup_insert_Some in Ha as [[<- <-]|[Hi1 Ha]], Hb as [[<- <-]|[Hi2 Hb]]; [done| | |by apply (Hu i j a b)].
    + specialize (Hlt _ _ Hb ltac:(congruence) ltac:(congruence)). lia.
    + specialize (Hlt _ _ Ha ltac:(congruence) ltac:(congruence)). lia.
  - intros e (j & Hj)%list_elem_of_lookup. destruct (Forall2_lookup_l _ _ _ _ _ (turn_events_stored _ _ _ Hok) Hj) as ([id' row'] & Hr & _ & Hseq).
    assert ((id', row') ∈ turn_runtime_rows (ulid_to_string (event_session_id event)) (ulid_to_string (event_turn_id event)) db) as (Hl & Hs' & Ht')%in_turn_rows
      by (apply in_ordered_rows, list_elem_of_lookup; by exists j).
    rewrite Hseq. cbn. unfold row_sequence. cbn. specialize (Hlt _ _ Hl ltac:(congruence) ltac:(congruence)). lia.
  - intros session_id turn_id. unfold turn_events. rewrite (row_added _ _ db db' (ulid_to_string (event_id event)) row Hu Hnew Er).
    2:{ intros [id' row'] (Hl & Hs' & Ht')%in_turn_rows. by apply (Hlt id'). }
    rewrite omap_app. f_equal. rewrite Es, Et. case_decide as Ed.
    + destruct Ed as [<- <-]. rewrite !text_eqb_refl. cbn [andb omap list_omap].
      change (event_session_id event) with (event_session_id (with_event_sequence n event)). change (event_turn_id event) with (event_turn_id (with_event_sequence n event)).
      by rewrite (decode_encoded_turn_event _ _ _ He).
    + destruct (text_eqb _ _ && text_eqb _ _) eqn:Eb; [|done]. apply andb_true_iff in Eb as [E4%text_eqb_eq%ulid_inj E5%text_eqb_eq%ulid_inj]. by destruct Ed.
Qed.

Lemma commits_unique bundles : forall db db', db_ok db -> numbers_unique db -> commits J bundles db = Ok db' -> numbers_unique db'.
Proof.
  induction bundles as [|[[event item] turn] rest IH]; intros db db' Hok Hu; cbn [commits]; [by intros [= <-]|].
  intros (db1 & Hc & Hr)%and_then_ok. unfold commit in Hc. apply and_then_ok in Hc as ([db2 [stored kept]] & Hi & [= <-]).
  destruct (bundle_events _ _ _ _ _ _ _ Hok Hu Hi) as (Hok1 & Hu1 & _). by apply (IH db2).
Qed.

(** ** Following a turn *)

Lemma pages_answer fuel : forall io k session_id db s w, db_ok db -> numbers_unique db ->
  length (pending session_id (sink_turn_id s) (published_runtime_sequence_no s) db) < 200 * fuel ->
  is_Some (publish_pages fuel io k session_id db s w).
Proof.
  induction fuel as [|fuel IH]; intros io k session_id db s w Hok Hu Hl; [lia|]. cbn [publish_pages].
  destruct (io k) as [error|] eqn:Eio; [by eexists|]. rewrite turn_page by done. set (rest := pending _ _ _ _) in *.
  destruct (is_empty (take 200 rest)); [by eexists|]. destruct (fold_left fan_out (take 200 rest) (s, w)) as [s1 w1] eqn:E1.
  destruct (_ <? _)%N eqn:Ec; [by eexists|]. apply IH; [done..|].
  pose proof (pending_sorted session_id (sink_turn_id s) (published_runtime_sequence_no s) db Hok Hu) as Hs. fold rest in Hs.
  destruct (fan_out_all (take 200 rest) s w) as (s2 & E2 & (Ef & Et & _) & _ & Hp & _).
  - rewrite <- (take_drop 200 rest) in Hs. clear -Hs. revert Hs. generalize (drop 200 rest) as k. induction (take 200 rest) as [|x l IHl]; intros k Hs; [constructor|].
    cbn in Hs. apply StronglySorted_inv in Hs as [Hs Hf]. constructor; [by eapply IHl|]. by apply Forall_app in Hf as [Hf _].
  - intros p e Hp He. apply (pending_after session_id (sink_turn_id s) (published_runtime_sequence_no s) db e); [|done]. fold rest. rewrite <- (take_drop 200 rest). apply elem_of_app. by left.
  - rewrite E1 in E2. injection E2 as <- ->. rewrite Et, Hp. unfold count in Ec. rewrite length_take in Ec. unfold MAX_PROTOCOL_PAGE_LIMIT in Ec. apply N.ltb_ge in Ec.
    destruct (last (take 200 rest)) as [x|] eqn:Ex.
    + unfold pending. rewrite (keyset_next event_sequence_no _ (published_runtime_sequence_no s) 200 x); [|by apply turn_events_sorted|done].
      fold (pending session_id (sink_turn_id s) (published_runtime_sequence_no s) db). fold rest. rewrite length_drop. lia.
    + apply last_None in Ex. apply (f_equal length) in Ex. rewrite length_take in Ex. change (length (@nil Event)) with 0 in Ex. lia.
Qed.

(** The calls of one recorder on the databases it finds. *)
Fixpoint follow (fuel : nat) (dbs : list ProtocolDb) (s : ProtocolRecordingSink) (w : Hub) : option (ProtocolRecordingSink * Hub) :=
  match dbs with
  | [] => Some (s, w)
  | db :: rest =>
    match publish_committed_runtime_events fuel (fun _ => None) db s w with
    | Some (s, w, Ok _) => follow fuel rest s w
    | _ => None
    end
  end.

(** Each database is consistent and has the events of the one before, with others behind them. *)
Fixpoint growing (session_id : SessionId) (turn_id : TurnId) (events : list Event) (dbs : list ProtocolDb) : Prop :=
  match dbs with
  | [] => True
  | db :: rest => db_ok db /\ numbers_unique db /\ (exists more, turn_events session_id turn_id db = events ++ more) /\
                  growing session_id turn_id (turn_events session_id turn_id db) rest
  end.
Definition last_events (session_id : SessionId) (turn_id : TurnId) (events : list Event) (dbs : list ProtocolDb) : list Event :=
  match last dbs with Some db => turn_events session_id turn_id db | None => events end.

(** After the last of [events], what is pending is what follows it. *)
Lemma pending_suffix session_id turn_id db events more : db_ok db -> numbers_unique db -> turn_events session_id turn_id db = events ++ more ->
  pending session_id turn_id (event_sequence_no <$> last events) db = more.
Proof.
  intros Hok Hu E. pose proof (turn_events_sorted session_id turn_id db Hok Hu) as Hs. unfold pending. rewrite E in *. destruct (last events) as [x|] eqn:Ex.
  - apply last_Some in Ex as [pre ->]. pose proof (keyset_next event_sequence_no ((pre ++ [x]) ++ more) None (length (pre ++ [x])) x Hs) as Hk.
    assert (List.filter (fun r => after_position None (event_sequence_no r)) ((pre ++ [x]) ++ more) = (pre ++ [x]) ++ more) as Ef by (by apply filter_all).
    cbv zeta in Hk. rewrite Ef in Hk. rewrite take_app_length, drop_app_length in Hk. apply Hk. apply last_snoc.
  - apply last_None in Ex as ->. by apply filter_all.
Qed.

Lemma growing_last session_id turn_id dbs : forall events, growing session_id turn_id events dbs -> exists more, last_events session_id turn_id events dbs = events ++ more.
Proof.
  induction dbs as [|db dbs IH]; intros events; cbn [growing]; [intros _; exists []; by rewrite app_nil_r|].
  intros (_ & _ & (more & E) & Hg). destruct (IH _ Hg) as [more' E']. exists (more ++ more').
  assert (last_events session_id turn_id events (db :: dbs) = last_events session_id turn_id (turn_events session_id turn_id db) dbs) as ->
    by (unfold last_events; rewrite last_cons; by destruct (last dbs)).
  by rewrite E', E, app_assoc.
Qed.

Lemma follows fuel session_id dbs : forall events s w, fallback_session_id s = Some session_id -> runtime_event_publisher s = true ->
  published_runtime_sequence_no s = event_sequence_no <$> last events -> growing session_id (sink_turn_id s) events dbs ->
  length (last_events session_id (sink_turn_id s) events dbs) < 200 * fuel ->
  exists s', follow fuel dbs s w = Some (s', publish_all (drop (length events) (last_events session_id (sink_turn_id s) events dbs)) w) /\
    published_runtime_sequence_no s' = event_sequence_no <$> last (last_events session_id (sink_turn_id s) events dbs) /\
    (next_sequence_no s <= next_sequence_no s')%Z /\
    forall e, e ∈ drop (length events) (last_events session_id (sink_turn_id s) events dbs) -> (saturating_add_i64 (event_sequence_no e) 1 <= next_sequence_no s')%Z.
Proof.
  induction dbs as [|db dbs IH]; intros events s w Hf Hpub Hp Hg Hl.
  - exists s. unfold last_events. cbn [last]. rewrite drop_all. split; [done|]. split; [done|]. split; [lia|]. by intros e ?%elem_of_nil.
  - destruct (growing_last _ _ _ _ Hg) as [total Htotal]. cbn [growing] in Hg. destruct Hg as (Hok & Hu & (more & Emore) & Hg).
    assert (pending session_id (sink_turn_id s) (published_runtime_sequence_no s) db = more) as Er by (rewrite Hp; by apply pending_suffix).
    destruct (growing_last _ _ _ _ Hg) as [more' Emore'].
    assert (last_events session_id (sink_turn_id s) events (db :: dbs) = last_events session_id (sink_turn_id s) (turn_events session_id (sink_turn_id s) db) dbs) as El
      by (unfold last_events; rewrite last_cons; by destruct (last dbs)).
    rewrite El in *. assert (length more < 200 * fuel) as Hm by (rewrite Emore', Emore, !length_app in Hl; lia).
    destruct (pages_published (fun _ => None) fuel (fun _ => eq_refl) 0 session_id db s w Hok Hu) as (s1 & E1 & Hsame & Hn1 & Hp1 & Hall1); [by rewrite Er|].
    rewrite Er in E1, Hp1, Hall1. pose proof Hsame as (Ef1 & Et1 & _ & Epub1 & _).
    destruct (IH (turn_events session_id (sink_turn_id s) db) s1 (publish_all more w)) as (s2 & E2 & Hp2 & Hn2 & Hall2).
    + congruence.
    + congruence.
    + rewrite Hp1, Emore, last_app. destruct (last more); [done|]. by rewrite Hp.
    + by rewrite Et1.
    + by rewrite Et1.
    + rewrite Et1 in *. exists s2. cbn [follow]. unfold publish_committed_runtime_events. rewrite Hpub, Hf. cbn [negb]. rewrite E1, E2.
      assert (drop (length events) (last_events session_id (sink_turn_id s) (turn_events session_id (sink_turn_id s) db) dbs) = more ++ drop (length (turn_events session_id (sink_turn_id s) db)) (last_events session_id (sink_turn_id s) (turn_events session_id (sink_turn_id s) db) dbs)) as Ed.
      { rewrite Emore', drop_app_length, Emore, <- app_assoc, drop_app_length. done. }
      rewrite Ed. split; [f_equal; f_equal; unfold publish_all; by rewrite fold_left_app|]. split; [done|]. split; [lia|].
      intros e [He|He]%elem_of_app; [specialize (Hall1 e He); lia|by apply Hall2].
Qed.

(** C13. A recorder that starts with a turn and is called again and again while the turn grows publishes every committed event of the turn
    exactly once and in the order of their numbers, page by page, whatever the number of events a call finds: all its calls together do
    to the hub what publishing the turn's events one after the other does.  The next number it will use is above them all. *)
Theorem turns_are_fanned_out_in_order fuel session_id turn_id dbs s w : fallback_session_id s = Some session_id -> sink_turn_id s = turn_id ->
  runtime_event_publisher s = true -> published_runtime_sequence_no s = None -> growing session_id turn_id [] dbs ->
  length (last_events session_id turn_id [] dbs) < 200 * fuel ->
  StronglySorted (fun a b => (event_sequence_no a < event_sequence_no b)%Z) (last_events session_id turn_id [] dbs) /\
  exists s', follow fuel dbs s w = Some (s', publish_all (last_events session_id turn_id [] dbs) w) /\
    forall e, e ∈ last_events session_id turn_id [] dbs -> (saturating_add_i64 (event_sequence_no e) 1 <= next_sequence_no s')%Z.
Proof.
  intros Hf <- Hpub Hp Hg Hl. split.
  - unfold last_events in *. destruct (last dbs) as [db|] eqn:Ed; [|constructor]. apply last_Some in Ed as [pre ->].
    assert (db_ok db /\ numbers_unique db) as [Hok Hu]; [|by apply turn_events_sorted].
    clear -Hg. revert Hg. generalize (@nil Event) as events. induction pre as [|d pre IH]; intros events; cbn [app growing].
    + by intros (Hok & Hu & _).
    + intros (_ & _ & _ & Hg). by apply IH in Hg.
  - destruct (follows fuel session_id dbs [] s w Hf Hpub Hp Hg Hl) as (s' & E & _ & _ & Hall). exists s'. by split.
Qed.

(** ** Emitting an event *)

Lemma sync_same io db s : same_recorder s (sync_next_sequence_no_from_store io db s) /\
  published_runtime_sequence_no (sync_next_sequence_no_from_store io db s) = published_runtime_sequence_no s.
Proof.
  unfold sync_next_sequence_no_from_store. destruct (fallback_session_id s) as [session_id|] eqn:Ef; [|by unfold same_recorder].
  destruct (latest_turn_position_for_session _ _ _) as [[[turn n]|]|]; try by unfold same_recorder. by destruct (_ && _); unfold same_recorder.
Qed.

Lemma append_projection_same input s s' b db : admission_id s' = admission_id s -> sink_turn_id s' = sink_turn_id s ->
  append_projection input s' b db = append_projection input s b db.
Proof. unfold append_projection. by intros -> ->. Qed.

Lemma append_projection_ok input s projection db db' stored : append_projection input s projection db = Ok (db', stored) ->
  validate_recording_projection J projection = Ok tt /\ exists kept,
    insert_event_bundle_unchecked J (runtime_event projection) (history_item projection) (stored_turn_item <$> turn_item projection) db = Ok (db', (stored, kept)).
Proof.
  unfold append_projection. destruct (admission_id s) as [admission|].
  - destruct (append_admitted_recording_projection_allocating _ _ _ _) as [[db1 [event|]]|] eqn:E; try done. intros [= <- <-].
    unfold append_admitted_recording_projection_allocating in E. apply and_then_ok in E as ([] & Hv & E). split; [done|]. destruct (append_io input); [done|].
    apply and_then_ok in E as ([] & _ & E); [|done]. cbn in E. apply and_then_ok in E as ([db2 [e kept]] & Hi & [= <- <-]). by exists kept.
  - destruct (append_recording_projection_allocating _ _ _) as [[db1 event]|] eqn:E; [|done]. intros [= <- <-].
    unfold append_recording_projection_allocating in E. apply and_then_ok in E as ([] & Hv & E). split; [done|]. destruct (append_io input); [done|].
    apply and_then_ok in E as ([db2 [e kept]] & Hi & [= <- <-]). by exists kept.
Qed.

Lemma committed_projection fresh event session_id turn_id n : durability event = Committed -> recorded_session event (Some session_id) = Some session_id ->
  exists b, project_protocol_run_event fresh event (Some session_id) turn_id n = Some (Some b) /\ event_session_id (runtime_event b) = session_id /\
    event_turn_id (runtime_event b) = turn_id.
Proof.
  intros Hd Hs. unfold project_protocol_run_event. rewrite Hd. fold (recorded_session event (Some session_id)). rewrite Hs.
  destruct (committed_message fresh event (project_history_item fresh event session_id turn_id n) Hd) as [message ->]. by eexists.
Qed.

Lemma recorder_validates fresh event fallback turn_id n b : project_protocol_run_event fresh event fallback turn_id n = Some (Some b) ->
  validate_recording_projection J b = Ok tt -> recorder_owns event = true.
Proof.
  intros (Hd & session_id & message & _ & Hm & ->)%projection_cases Hv. unfold validate_recording_projection in Hv. apply and_then_ok in Hv as ([] & _ & Hv).
  destruct event; try discriminate Hd; try done; injection Hm as <-; cbn in Hv; discriminate Hv.
Qed.


(** A terminal reaches the renderer whatever becomes of the fan-out: the recorder ends as the sink inside ended, with what it committed,
    and has tried the fan-out after it; if the reads succeed, the observers are told everything of the turn they had not been told, the
    terminal included. *)
Theorem terminals_are_rendered_before_the_fan_out fuel io terminal_session terminal s w session_id db i r :
  inner_emit_committed (RunEvent.TurnTerminal terminal_session terminal) (rec_db w, rec_inner w) = (db, i, r) -> db_ok db -> numbers_unique db ->
  fallback_session_id s = Some session_id -> length (pending session_id (sink_turn_id s) (published_runtime_sequence_no s) db) < 200 * fuel ->
  exists s' hub, emit_committed fuel io (RunEvent.TurnTerminal terminal_session terminal) s w = Some (s', {| rec_db := db; rec_hub := hub; rec_inner := i |}, r) /\
    ((forall k, io k = None) -> runtime_event_publisher s = true ->
     committed_terminal_fanout_attempted s' = true /\ hub = publish_all (pending session_id (sink_turn_id s) (published_runtime_sequence_no s) db) (rec_hub w)).
Proof.
  intros Ei Hok Hu Hf Hl. unfold emit_committed. cbn [validate_run_event_durability durability is_turn_terminal]. unfold validate_run_event_durability. cbn [durability].
  rewrite decide_True by done. unfold run_inner. rewrite Ei. cbn [rec_db rec_hub]. unfold publish_committed_runtime_events.
  change (runtime_event_publisher (set_attempted s)) with (runtime_event_publisher s). change (fallback_session_id (set_attempted s)) with (fallback_session_id s).
  rewrite Hf. destruct (runtime_event_publisher s) eqn:Ep; cbn [negb].
  - destruct (pages_answer fuel io 0 session_id db (set_attempted s) (rec_hub w) Hok Hu Hl) as [[[s' hub] answer] Ea].
    rewrite Ea. exists s', hub. split; [done|]. intros Hio _.
    destruct (pages_published io fuel Hio 0 session_id db (set_attempted s) (rec_hub w) Hok Hu Hl) as (s2 & E2 & Hsame & _).
    rewrite Ea in E2. injection E2 as -> -> _. split; [|done]. by destruct Hsame as (_ & _ & _ & _ & _ & ->).
  - eexists _, _. split; [reflexivity|]. done.
Qed.

(** While the turn is the latest of its session, a reserved number is above every number the store holds for it, and two reservations
    differ. *)
Lemma reserved_numbers_are_new db s session_id s1 n1 s2 n2 : fallback_session_id s = Some session_id ->
  query_latest_protocol_turn_id session_id db = Ok (Some (sink_turn_id s)) ->
  (forall m, m ∈ stored_numbers (ulid_to_string session_id) (ulid_to_string (sink_turn_id s)) db -> (m < i64_max - 2)%Z) -> (next_sequence_no s < i64_max - 2)%Z ->
  reserve_sequence_no None db s = (s1, n1) -> reserve_sequence_no None db s1 = (s2, n2) ->
  (forall m, m ∈ stored_numbers (ulid_to_string session_id) (ulid_to_string (sink_turn_id s)) db -> (m < n1)%Z) /\ (next_sequence_no s <= n1 < n2)%Z.
Proof.
  intros Hf Hq Hlt Hn. set (numbers := stored_numbers _ _ db) in *. set (top := default (-1)%Z (max_of numbers)).
  pose proof (max_of_spec numbers) as Hmax.
  assert (top < i64_max - 2)%Z as Ht.
  { unfold top. destruct (max_of numbers) as [m|] eqn:Em; cbn; [|unfold i64_max; lia]. apply Hlt. by apply max_of_in. }
  assert (forall s0, fallback_session_id s0 = Some session_id -> sink_turn_id s0 = sink_turn_id s -> (next_sequence_no s0 < i64_max)%Z ->
    reserve_sequence_no None db s0 = (set_next (wrapping_succ (Z.max (next_sequence_no s0) (top + 1))) s0, Z.max (next_sequence_no s0) (top + 1))%Z) as Hr.
  { intros s0 E1 E2 E3. unfold reserve_sequence_no. assert (sync_next_sequence_no_from_store None db s0 = set_next (Z.max (next_sequence_no s0) (top + 1)) s0) as ->; [|done].
    unfold sync_next_sequence_no_from_store, latest_turn_position_for_session. rewrite E1, Hq. cbn [and_then fmap option_fmap option_map].
    rewrite E2, N.eqb_refl. fold numbers. fold top. assert (wrapping_succ top = top + 1)%Z as -> by (unfold wrapping_succ; destruct (Z.eqb_spec top i64_max); lia).
    cbn [andb]. destruct (Z.ltb_spec (next_sequence_no s0) (top + 1)); [by rewrite Z.max_r by lia|]. rewrite Z.max_l by lia. by destruct s0. }
  rewrite Hr by (try done; lia). intros [= <- <-]. rewrite Hr.
  - intros [= <- <-]. cbn. unfold wrapping_succ. destruct (Z.eqb_spec (Z.max (next_sequence_no s) (top + 1)) i64_max); [lia|]. split; [|lia].
    intros m Hm. unfold top. destruct (max_of numbers) as [x|]; [specialize (Hmax m Hm); cbn; lia|]. rewrite Hmax in Hm. by apply elem_of_nil in Hm.
  - done.
  - done.
  - cbn. unfold wrapping_succ. destruct (Z.eqb_spec (Z.max (next_sequence_no s) (top + 1)) i64_max); lia.
Qed.

(** ** Replaying a session *)

Definition runtime_rows_of (session_id : SessionId) (db : ProtocolDb) : list (text * RuntimeRow * Z) := runtime_join (ulid_to_string session_id) db.
Definition decoded (session_id : SessionId) (rows : list (text * RuntimeRow * Z)) : list Event :=
  omap (fun r => match decode_runtime_row J session_id (fst r) with Ok event => Some event | Err _ => None end) rows.
(** The runtime events of a session after a position, in the order they were appended. *)
Definition rows_after (session_id : SessionId) (cursor : option Z) (db : ProtocolDb) : list (text * RuntimeRow * Z) :=
  List.filter (fun r => after_position cursor (snd r)) (runtime_rows_of session_id db).

Lemma runtime_rows_sorted session_id db : db_ok db -> StronglySorted (fun a b => (snd a < snd b)%Z) (runtime_rows_of session_id db).
Proof.
  intros Hok. unfold runtime_rows_of, runtime_join. rewrite (ordered_ascending J) by done. eapply sorted_omap_some; [|apply (ok_positions _ _ Hok)].
  intros a b x y Hab. cbv beta in Hab. destruct (of_source _ _ a), (of_source _ _ b); try done.
  destruct (runtime_rows db !! append_source_id a), (runtime_rows db !! append_source_id b); try done.
  destruct (text_eqb _ _), (text_eqb _ _); try done. intros [= <-] [= <-]. done.
Qed.

Lemma runtime_rows_decode session_id db : db_ok db ->
  Forall2 (fun event r => decode_runtime_row J session_id (fst r) = Ok event) (decoded session_id (runtime_rows_of session_id db)) (runtime_rows_of session_id db).
Proof.
  intros Hok. apply omap_forall2. intros r Hin. unfold runtime_rows_of, runtime_join in Hin. apply list_elem_of_omap in Hin as (a & _ & Ha).
  destruct (of_source _ _ a); [|done]. destruct (runtime_rows db !! append_source_id a) as [row|] eqn:Er; [|done]. destruct (text_eqb _ _) eqn:Es; [|done].
  injection Ha as <-. apply text_eqb_eq in Es. destruct (ok_runtime _ _ Hok _ _ Er) as [event He]. exists event. cbn [fst].
  assert (event_session_id event = session_id) as <- by (apply ulid_inj; destruct He as (_ & <- & _); congruence).
  by rewrite (decode_encoded_event J JL _ _ _ He).
Qed.

Lemma decoded_along session_id rows : (forall r, r ∈ rows -> exists event, decode_runtime_row J session_id (fst r) = Ok event) ->
  Forall2 (fun event r => decode_runtime_row J session_id (fst r) = Ok event) (decoded session_id rows) rows.
Proof. intros Hr. apply omap_forall2. intros r Hin. destruct (Hr r Hin) as [event E]. exists event. by rewrite E. Qed.

Lemma rows_decode session_id cursor db r : db_ok db -> r ∈ rows_after session_id cursor db -> exists event, decode_runtime_row J session_id (fst r) = Ok event.
Proof.
  intros Hok [Hin%list_elem_of_In _]%list_elem_of_In%filter_In. apply list_elem_of_lookup in Hin as [j Hj].
  destruct (Forall2_lookup_r _ _ _ _ _ (runtime_rows_decode session_id db Hok) Hj) as (event & _ & E). by exists event.
Qed.

Lemma runtime_page session_id cursor db : db_ok db -> exists page,
  runtime_event_cursor_page_for_session J None session_id cursor MAX_PROTOCOL_PAGE_LIMIT db = Ok page /\
  page_items page = decoded session_id (take 200 (rows_after session_id cursor db)) /\
  length (page_items page) = length (take 200 (rows_after session_id cursor db)) /\
  page_next_cursor page = snd <$> last (take 200 (rows_after session_id cursor db)).
Proof.
  intros Hok. unfold runtime_event_cursor_page_for_session, read_page. rewrite (source_count_agrees J session_id db Hok RuntimeEvents). cbn [and_then].
  unfold runtime_event_page_from_connection, page_from, resolve. change (MAX_PROTOCOL_PAGE_LIMIT =? 0)%N with false. change (MAX_PROTOCOL_PAGE_LIMIT <? MAX_PROTOCOL_PAGE_LIMIT)%N with false.
  cbn [and_then]. set (skipped := match cursor with Some _ => 0%N | None => 0%N end). assert (skipped = 0%N) as -> by (unfold skipped; by destruct cursor).
  rewrite sql_limit_take, sql_offset_drop. change (N.to_nat (sqlite_page_value 0)) with 0. change (N.to_nat (sqlite_page_value MAX_PROTOCOL_PAGE_LIMIT)) with 200. rewrite drop_0.
  fold (runtime_rows_of session_id db). fold (rows_after session_id cursor db).
  assert (Forall2 (fun event r => decode_runtime_row J session_id (fst r) = Ok event) (decoded session_id (take 200 (rows_after session_id cursor db))) (take 200 (rows_after session_id cursor db))) as Hd.
  { apply decoded_along. intros r Hr. apply (rows_decode session_id cursor db); [done|]. rewrite <- (take_drop 200 (rows_after session_id cursor db)). apply elem_of_app. by left. }
  rewrite (result_map_ok _ _ _ Hd). cbn [and_then]. eexists. split; [reflexivity|]. cbn [page_items page_next_cursor]. split_and!; [done|by eapply Forall2_length|done].
Qed.

Definition harness_errors (events : list Event) : list text :=
  events ≫= fun event => if is_terminal event then match project_canonical_terminal_event event with Some error => [error] | None => [] end else [].

Lemma project_all events : forall report w, (event_count report <= usize_max)%N ->
  exists report', fold_left project_into events (report, w) = (report', publish_all events w) /\
    harness_projection_errors report' = harness_projection_errors report ++ harness_errors events /\
    live_publish_errors report' = live_publish_errors report /\
    event_count report' = N.min (event_count report + N.of_nat (length events)) usize_max.
Proof.
  induction events as [|e events IH]; intros report w Hc.
  - exists report. split; [done|]. cbn. rewrite app_nil_r. split_and!; [done|done|lia].
  - cbn [fold_left]. unfold project_into at 2, project_event. destruct (IH (merge report {| event_count := 1;
      harness_projection_errors := if is_terminal e then match project_canonical_terminal_event e with Some error => [error] | None => [] end else [];
      live_publish_errors := [] |}) (publish e w)) as (report' & E & Hh & Hl & Hn).
    { cbn. unfold saturating_add_usize. lia. }
    exists report'. split; [exact E|]. cbn [merge harness_projection_errors live_publish_errors event_count] in Hh, Hl, Hn. split_and!.
    + rewrite Hh. cbn. by rewrite <- app_assoc.
    + by rewrite Hl, app_nil_r.
    + rewrite Hn. unfold saturating_add_usize. cbn [length]. lia.
Qed.

Lemma decoded_app session_id a b : decoded session_id (a ++ b) = decoded session_id a ++ decoded session_id b.
Proof. apply omap_app. Qed.

Lemma pages_projected io fuel (Hio : forall k, io k = None) : forall k session_id cursor db report w, db_ok db -> (event_count report <= usize_max)%N ->
  length (rows_after session_id cursor db) < 200 * fuel ->
  exists report', project_pages fuel io k session_id cursor db (report, w) =
      Some (Ok report', publish_all (decoded session_id (rows_after session_id cursor db)) w) /\
    harness_projection_errors report' = harness_projection_errors report ++ harness_errors (decoded session_id (rows_after session_id cursor db)) /\
    live_publish_errors report' = live_publish_errors report /\
    event_count report' = N.min (event_count report + N.of_nat (length (rows_after session_id cursor db))) usize_max.
Proof.
  induction fuel as [|fuel IH]; intros k session_id cursor db report w Hok Hc Hl; [lia|]. cbn [project_pages]. rewrite Hio.
  destruct (runtime_page session_id cursor db Hok) as (page & Ep & Ei & En & Ec). rewrite Ep. set (rows := rows_after session_id cursor db) in *.
  destruct (is_empty (page_items page)) eqn:Ee.
  - assert (rows = []) as ->.
    { destruct (page_items page) as [|x l]; [|discriminate Ee]. destruct rows; [done|discriminate En]. }
    exists report. cbn. rewrite app_nil_r. split_and!; [done..|lia].
  - destruct (project_all (page_items page) report w Hc) as (report1 & E1 & Hh1 & Hl1 & Hn1). rewrite E1. cbn [fst snd].
    unfold count. rewrite En. destruct (N.ltb_spec (N.of_nat (length (take 200 rows))) MAX_PROTOCOL_PAGE_LIMIT) as [Hlt|Hge];
      rewrite length_take in *; unfold MAX_PROTOCOL_PAGE_LIMIT in *.
    + rewrite Ei, take_ge in * by lia. exists report1. split_and!; [done|done|done|]. rewrite Hn1, En. f_equal. lia.
    + destruct (last (take 200 rows)) as [x|] eqn:Ex; [|apply last_None in Ex; apply (f_equal length) in Ex; rewrite length_take in Ex; change (length (@nil (text * RuntimeRow * Z))) with 0 in Ex; lia].
      pose proof (keyset_next snd (runtime_rows_of session_id db) cursor 200 x (runtime_rows_sorted session_id db Hok) Ex) as Hnext.
      cbn [fmap option_fmap option_map] in Ec. rewrite Ec.
      rewrite bool_decide_eq_false_2.
      2:{ intros Ecur. apply last_elem in Ex. assert (x ∈ rows) as [_ Hax]%list_elem_of_In%filter_In by (rewrite <- (take_drop 200 rows); apply elem_of_app; by left).
          rewrite <- Ecur in Hax. cbn in Hax. by rewrite Z.ltb_irrefl in Hax. }
      assert (rows_after session_id (Some (snd x)) db = drop 200 rows) as Er by exact Hnext.
      destruct (IH (S k) session_id (Some (snd x)) db report1 (publish_all (page_items page) w) Hok) as (report2 & E2 & Hh2 & Hl2 & Hn2).
      * rewrite Hn1. lia.
      * rewrite Er, length_drop. lia.
      * rewrite Er in *. exists report2. rewrite E2. split; [|split_and!].
        -- do 2 f_equal. rewrite Ei. unfold publish_all. rewrite <- fold_left_app, <- decoded_app. by rewrite take_drop.
        -- rewrite Hh2, Hh1, Ei, <- app_assoc. f_equal. unfold harness_errors. rewrite <- bind_app, <- decoded_app. by rewrite take_drop.
        -- congruence.
        -- rewrite Hn2, Hn1, En, length_drop. lia.
Qed.

(** C27. Replaying a session from a cursor ends, publishes every runtime event of the session appended after the cursor and nothing else, in
    the order it was appended, and reports how many there were; only the harness can have failed, for terminals.  The cursor always
    advances. *)
Theorem sessions_are_replayed_in_order fuel io session_id cursor db w : db_ok db -> (forall k, io k = None) ->
  length (rows_after session_id cursor db) < 200 * fuel ->
  exists report, project_after_cursor fuel io session_id cursor db w =
      Some (Ok report, publish_all (decoded session_id (rows_after session_id cursor db)) w) /\
    length (decoded session_id (rows_after session_id cursor db)) = length (rows_after session_id cursor db) /\
    event_count report = N.min (N.of_nat (length (rows_after session_id cursor db))) usize_max /\
    harness_projection_errors report = harness_errors (decoded session_id (rows_after session_id cursor db)) /\ live_publish_errors report = [].
Proof.
  intros Hok Hio Hl. destruct (pages_projected io fuel Hio 0 session_id cursor db empty_report w Hok) as (report & E & Hh & Hlive & Hn); [done|done|].
  exists report. split; [exact E|]. split; [|by split_and!]. eapply Forall2_length, decoded_along. intros r Hr. by eapply rows_decode.
Qed.
End Recording.

(** ** A concrete turn

    The events of the concrete store, in two instalments, and a session notice recorded after them. *)
#[local] Existing Instance one_char_ulid.
#[local] Existing Instance one_char_laws.

Definition demo_recorder : ProtocolRecordingSink := with_runtime_event_publisher (sink_new (Some 1%N) 2).
Definition demo_hub : HubWorld Tree (QueueChannel (RuntimeEvent Tree)) := hub_new 16.
Definition no_harness (_ : RuntimeEvent Tree) : option text := None.
Definition show_error (_ : StoreError) : text := lit "storage error".
(** A renderer that counts what it is given. *)
Definition render (_ : RunEvent.run_event Tree) (s : ProtocolDb * nat) : ProtocolDb * nat * result unit text := (fst s, S (snd s), Ok tt).
Definition demo_input : EmitInput :=
  {| sync_io := None; append_io := None; page_io := fun _ => None; emit_fresh := demo_fresh; admission_owned := Ok true |}.
Definition demo_world : RecordingWorld (I := nat) := {| rec_db := later_db; rec_hub := demo_hub; rec_inner := 0 |}.
Definition demo_notice : RunEvent.run_event Tree := RunEvent.SessionStarted 1 (lit "t").

Lemma empty_unique : numbers_unique empty_db.
Proof. intros id id' row row' E. cbn in E. by rewrite lookup_empty in E. Qed.
Lemma first_unique : numbers_unique first_db.
Proof. exact (commits_unique demo_json demo_json_laws first_commits empty_db first_db (empty_ok demo_json) empty_unique first_committed). Qed.
Lemma later_unique : numbers_unique later_db.
Proof. exact (commits_unique demo_json demo_json_laws later_commits first_db later_db first_ok first_unique later_committed). Qed.

Example turn_numbers : map event_sequence_no (turn_events demo_json 1 2 later_db) = [0; 1; 2; 3]%Z.
Proof. vm_compute. reflexivity. Qed.

Example notice_recorded :
  (fun x => let '(s, w, r) := x in (published_runtime_sequence_no s, next_sequence_no s, length (turn_events demo_json 1 2 (rec_db w)), rec_inner w, r)) <$>
    emit demo_json no_harness show_error render 1 demo_input demo_notice demo_recorder demo_world = Some (Some 4%Z, 5%Z, 5, 1, Ok tt).
Proof. vm_compute. reflexivity. Qed.

Lemma demo_grows : growing demo_json 1 2 [] [first_db; later_db].
Proof.
  cbn [growing]. split; [exact first_ok|]. split; [exact first_unique|]. split; [by exists (turn_events demo_json 1 2 first_db)|].
  split; [exact (proj1 later_ok)|]. split; [exact later_unique|]. split; [|done].
  exists (drop 2 (turn_events demo_json 1 2 later_db)). vm_compute. reflexivity.
Qed.

Lemma turns_are_fanned_out_in_order_witness :
  exists s', follow demo_json no_harness show_error 1 [first_db; later_db] demo_recorder demo_hub =
    Some (s', publish_all (turn_events demo_json 1 2 later_db) demo_hub) /\
    forall e, e ∈ turn_events demo_json 1 2 later_db -> (saturating_add_i64 (event_sequence_no e) 1 <= next_sequence_no s')%Z.
Proof.
  assert (length (last_events demo_json 1 2 [] [first_db; later_db]) < 200 * 1) as Hl by (apply Nat.ltb_lt; vm_compute; reflexivity).
  exact (proj2 (turns_are_fanned_out_in_order demo_json no_harness show_error demo_json_laws 1 1 2 [first_db; later_db] demo_recorder demo_hub
    eq_refl eq_refl eq_refl eq_refl demo_grows Hl)).
Defined.


Definition demo_metrics : TurnCalls.RunMetrics :=
  {| TurnCalls.metrics_model_request_count := 1; TurnCalls.elapsed_ms := None; TurnCalls.metrics_token_usage := None;
     TurnCalls.metrics_cumulative_token_usage := None; TurnCalls.metrics_tool_calls_by_name := ∅; TurnCalls.metrics_failed_tool_calls_by_name := ∅ |}.
Definition demo_terminal : TurnCalls.DurableTurnTerminal :=
  {| TurnCalls.outcome := OutcomeCompleted; TurnCalls.final_response_id := None; TurnCalls.terminal_tool_call_count := 0;
     TurnCalls.terminal_failed_tool_count := 0; TurnCalls.terminal_change_count := 0; TurnCalls.metrics := demo_metrics |}.

Lemma terminals_are_rendered_before_the_fan_out_witness : exists s' hub,
  emit_committed demo_json no_harness show_error render 1 (fun _ => Some (lit "io")) (RunEvent.TurnTerminal 1 demo_terminal) demo_recorder demo_world =
    Some (s', {| rec_db := later_db; rec_hub := hub; rec_inner := 1 |}, Ok tt).
Proof.
  assert (length (pending demo_json 1 2 None later_db) < 200 * 1) as Hl by (apply Nat.ltb_lt; vm_compute; reflexivity).
  destruct (terminals_are_rendered_before_the_fan_out demo_json no_harness show_error render demo_json_laws 1 (fun _ => Some (lit "io")) 1 demo_terminal
    demo_recorder demo_world 1 later_db 1 (Ok tt) eq_refl (proj1 later_ok) later_unique eq_refl Hl) as (s' & hub & E & _).
  exists s', hub. exact E.
Defined.

Lemma sessions_are_replayed_in_order_witness : exists report,
  project_after_cursor demo_json no_harness 1 (fun _ => None) 1 None later_db demo_hub =
    Some (Ok report, publish_all (decoded demo_json 1 (rows_after 1 None later_db)) demo_hub) /\ event_count report = 4%N.
Proof.
  assert (length (rows_after 1 None later_db) = 4) as Hlen by (vm_compute; reflexivity).
  destruct (sessions_are_replayed_in_order demo_json no_harness demo_json_laws 1 (fun _ => None) 1 None later_db demo_hub (proj1 later_ok) (fun _ => eq_refl)
    ltac:(rewrite Hlen; lia)) as (report & E & _ & Hn & _).
  exists report. split; [exact E|]. rewrite Hn, Hlen. reflexivity.
Defined.
